(* ===== verification/_CoqProject ===== *)
-Q . S2P
Prelude.v
RustFloat.v
Util.v
Snake.v
SnakeBody.v
SnakeFacts.v
SnakeTheorems.v
Arena.v
CommandQueue.v
GameState.v
GameSetup.v
Events.v
Validate.v
Tick.v
MeterInvariant.v
StateInvariant.v
TickInvariant.v
OutcomeInvariant.v
Validity.v
MatchLife.v
EventOrder.v
Ai.v
Fingerprint.v
FingerprintFacts.v
Engine.v
EngineFacts.v
MatchTheorems.v
EngineTheorems.v
RulesFacts.v
EventFacts.v
RulesTheorems.v
BotTheorems.v
SyncTheorems.v
StreamId.v
CommandLedger.v
LedgerFacts.v
Recording.v
Journal.v
JournalFacts.v
Recovery.v
Actor.v
DecisionFacts.v
FailoverFacts.v
Failover.v
ActorTheorems.v
RecoveryTheorems.v
Partition.v
PartitionTheorems.v
Lease.v
Lifecycle.v
SkinCatalog.v
Matchmaking.v
MatchCreation.v
MatchmakingFacts.v
RosterFacts.v
PassFacts.v
MatchCreationFacts.v
MatchReadyFacts.v
MatchmakingTheorems.v
Rating.v
Completion.v
RatingFacts.v
CompletionFacts.v
SettlementFacts.v
Settlement.v
CompletionTheorems.v
Content.v
EffectStore.v
EffectLedger.v
EffectTheorems.v
Database.v
SkinStore.v
Wallet.v
Payment.v
WalletTheorems.v
SkinTheorems.v
SkinExpr.v
ExprTheorems.v
Highlight.v
HighlightTheorems.v
