(* ===== verification/Prelude.v ===== *)
(** * SnakeTron: verification of the game engine, its executors, matchmaking,
      settlement, economy and authored skins

    SnakeTron is a multiplayer snake game. One crate, common, holds the whole
    simulation and runs in three places: on the server that owns a match, in
    the browser client that predicts it, and in the bot. On the server a match
    belongs to an actor inside the executor of one partition; partitions are
    placed on tasks, held by leases, and recovered from checkpoints and journals
    when a task goes away. Before that, the matchmaker groups queued lobbies
    into the teams of a match and prepares its state; after it, ratings are
    computed, a record of the match is made, and its effects are applied to the
    database. Players author skins, which are reviewed before others see them,
    and buy them with Snakebux, which a payment provider credits. This library
    models the simulation, that executor core, the matchmaker, the settlement, the
    wallet and the skins, and proves what makes them correct.

    ** The program and its model

    - common/src/constants.rs and snake.rs: one snake, with a body compressed
      to its corner points, a Boost meter, a movement credit and a combo meter.
      Files [Snake] (data and operations) and [SnakeBody], [SnakeFacts] (proofs).
      A [&mut self] method is a function to the updated record, paired with its
      result.
    - common/src/util.rs: the xorshift generator. Files [RustFloat] (binary32
      and binary64 on the Standard Library's [SpecFloat], with the platform's
      ln, cos and sin as the class [F32Libm]) and [Util].
    - common/src/game_state.rs, the core: [Arena] (configuration, pads, zones,
      food sampling), [CommandQueue] (commands, their order, the queue with its
      speculative index and tombstones), [GameState] (the record, the events,
      the queries), [GameSetup] (starting positions, players, readiness,
      scheduling, inactivity bookkeeping), [Events] ([apply_event],
      [exec_command], [resolve_player_inactivity]), [Validate] (snapshot
      validation clause by clause, admission of replicated events,
      construction) and [Tick] ([tick_forward_observing_boost], phase by phase
      in the order of the source, composed in [tick_forward]).
    - common/src/fingerprint.rs: [Fingerprint] (combinators for unambiguous byte
      streams, and [sync_hash] as the FNV-1a hash of the stream of a view of the
      state).
    - common/src/game_engine.rs: [Engine], the committed and the predicted
      state, the admission of server messages, reconciliation and recovery.
    - common/src/ai.rs: [Ai], the bot's search and choice of a move.

    - common/src/highlight.rs: [Recording], recordings of a match and their replay
      to a tick, and [Highlight], the scoring of windows of a recording and the clip
      cut around the best one.
    - server/src/recovery.rs: [StreamId] (Redis stream ids as text),
      [CommandLedger] (the outcomes of client commands, bounded per session),
      [Journal] (the recorder of a match, its journal and its selection ring)
      and [Recovery] (command decisions, checkpoint envelopes, configuration).
    - server/src/game_executor_v2.rs and game_executor.rs: [Actor], the handlers
      of [GameActor] and the order of a batch of deliveries, with the checks the
      bus client (game_bus.rs) makes before a fenced write.
    - server/src/partition_assignment.rs and cluster_membership.rs: [Partition],
      balanced placement and its guarded store. server/src/partition_lease.rs:
      [Lease], the lease scripts and the watchdog. server/src/lifecycle.rs:
      [Lifecycle], the phases of a task and its drain.
    - server/src/matchmaking.rs: [Matchmaking] (the search for a combination of
      lobbies in every mode) and [MatchCreation] (the preparation of a match and
      the pass over a queue, with server/src/player_idle.rs, the inactivity
      policy). server/src/skin_catalog.rs and the parts of skin_store.rs and
      matchmaking.rs that choose a player's skin and a team's base:
      [SkinCatalog].
    - server/src/mmr_persistence.rs: [Rating], the rating changes of a finished
      match. server/src/completion.rs and season.rs: [Completion], the record of
      a finished match with its effects, its validation and its history.
      server/src/db/dynamodb.rs, [apply_completion_effect] and what it calls,
      and the drain of a record in game_executor_v2.rs: [EffectStore], on rows
      and transactions with the documented behaviour of the service.
    - server/src/db/dynamodb.rs, the methods on skins and balances: programs of
      [Database], a tree of requests that [run] plays against a world which changes
      the store between requests, answers reads from stale replicas and loses
      requests and answers. [SkinStore]: server/src/skin_store.rs (names and
      visibility), db/skins_dynamo.rs (the rows), the methods on skins, and the
      handlers of api/skins.rs that request, cancel, decide and report, with the
      choice of a revision for a match (matchmaking.rs) as calls of the database. [Wallet]:
      server/src/wallet.rs and the methods that move a balance. [Payment]:
      server/src/xsolla.rs and api/wallet.rs, the configuration, the allowlist, the
      signatures and notifications of the payment provider, the shop and the
      webhook.
    - skin-schema/src/content.rs: [Content], SHA-256, canonical JSON and references
      by content. skin-schema/src/expr.rs: [SkinExpr], the expressions of skins with
      their parser, tiers and evaluation in binary64.

    The engine calls [tick_forward] and [apply_event] on its states, the
    quantum calls the queue, the arena and the snakes, the fingerprint and the
    bot read a state. The actor drives the engine, records what it does in the
    ledger and the recorder, and writes both into checkpoints, from which
    [from_envelope] builds its successor; the placement names the task that may
    acquire the lease under which an actor writes. The matchmaker builds the
    state an actor starts from with the constructors of [Validate] and
    [GameSetup]. When a match has ended the record is materialized from its
    last state, and the executor drains the effects of pending records. The
    handlers of the wallet and of the skins call the methods of the database, whose
    rows name documents by their content reference. Every definition is executable, and the witnesses evaluate them.

    ** Conventions

    A [w]-bit integer is a [Z] with its wrap-around written out where the
    source can overflow; saturating and checked operations are modelled as
    such. [Result] is a value, an [anyhow] error or a panic. A function that
    can return early with mutations made pairs its outcome with the state it
    leaves behind. A [HashMap] is a [gmap] and a [HashSet] a [gset]; the source
    sorts, minimises or rebuilds wherever it walks one. The [BinaryHeap] is the
    bag of its messages. Vectors are lists, and [index] panics out of range.

    What the server reads from outside is a parameter: the class [RecorderEnv]
    is the length of a serialized entry and the environment variables, the class
    [ActorEnv] the answers of the bus, the handoff signal and the database part
    of a completion, each a function of what was written before; the classes
    [PlayerDb] and [SkinDb] are the accounts and the authored skins, and the
    class [HashOrder] is the order in which a hash set of indices is walked,
    where the source depends on it; the classes [WengLin] and [RatingDb] are
    the formulas of the rating crate and the ratings of the accounts,
    [CompletionEnv] the calendar and the region, and [EffectEnv] serialization,
    the display of Uuids and times, and the object store; [JsonEnv] with its laws
    [JsonLaws] is the text of JSON scalars, [SkinDocs] the search for text in a
    document, [PaymentEnv] the digest and the JSON of a notification, [F64Libm] sine
    and cosine. Clock readings and
    random picks are arguments. A Lua script is one atomic function on the keys it touches;
    code between two scripts interleaves with other processes in the step
    relations of [Lease], [Lifecycle], [PartitionTheorems] and [EffectLedger], and
    in the worlds of [Database]: a world is [lawful] when what it does to the store
    are transactions of other calls, and a call is then a piece of their trace.

    ** Fuel

    Loops that are not structural carry a fuel: [pop] and [due_commands_loop]
    have one round per queued message, which the drain theorems show to be
    enough; [spawn_initial_food_loop] has the source's own 1000 attempts;
    [bfs] has one round per cell of the arena and is proved never to run out.
    The engine's loops over quanta return [None] while they are still running;
    [EngineFacts] shows that one unit per missing tick is enough for
    [run_until] and [rebuild_predicted_state], and that no fuel is enough for
    the catch-up of a finished match. The actor passes one fuel to the engine's
    loops; [rebalance] has one move per partition and the flood fill of a highlight
    one round per cell of its limit, which are proved to be enough;
    the loops of the ledger have one round per recorded outcome, and a pass of
    the matchmaker one round per queued lobby, which is proved to be enough. The
    parser of expressions may nest four calls per token, and its tokenizer has one
    round per byte, which are proved to be enough; its calls are counted on the side
    and there are at most four per token, and three more.

    ** What is proved

    - The life of a match ([MeterInvariant], [StateInvariant], [TickInvariant],
      [OutcomeInvariant], [Validity], [MatchLife], [EventOrder],
      theorems in [MatchTheorems]): [validate_boost_invariants] together with
      the bounds of the types is equivalent to an inductive invariant; creation
      establishes it, joins, readiness, the start, commands and every quantum
      preserve it; under it no quantum fails or panics; the events of a quantum
      are numbered without a gap; and one terminal state escapes validation.
    - The rules ([RulesFacts], [EventFacts], theorems in
      [RulesTheorems]): who crashes, turns, eats, banks, collects and is
      removed; draws; the readiness gate; the food clock; the symmetry of the
      pads; the replay of events; the drain of the command queue.
    - One snake and the generator (theorems in [SnakeTheorems]): [step_forward]
      refines a step on the list of occupied cells, [contains_point] and
      [length] agree with that list, the meters stay consistent and pay for every
      quantum, distance is neither lost nor invented, a held Boost lasts exactly its charge.
    - The engine ([EngineFacts], theorems in [EngineTheorems]): [run_until]
      delivers, failed messages change nothing, duplicates are ignored, gaps
      are noticed, recovery reproduces acceptance, and catching up succeeds or
      diverges, which it can.
    - The fingerprint ([FingerprintFacts], theorems in [SyncTheorems]) and the
      bot (theorems in [BotTheorems]).

    - The server core: one verdict per command, commands execute once, the
      stream of an actor has no gaps from its activation to its terminal snapshot, a
      successor reproduces the match
      ([DecisionFacts], [FailoverFacts], [Failover], theorems in [ActorTheorems]); the ledger refines an unbounded
      history, the journal is restored exactly, the ring is bounded, batches are
      fair, stream ids round-trip ([LedgerFacts], [JournalFacts], theorems in
      [RecoveryTheorems]); placement is valid and moves least, stale
      coordinators write nothing ([PartitionTheorems]); one
      executor per partition ([Lease]); drains are final and seen by every
      connection ([Lifecycle]).
    - The matchmaker ([MatchmakingFacts], [RosterFacts], [PassFacts],
      [MatchCreationFacts], [MatchReadyFacts], theorems in
      [MatchmakingTheorems]): a combination accounts for every member, exact
      teams are found whenever they exist, a pass ends and uses no lobby twice,
      what was found becomes a valid match with exactly that roster, and only
      reviewed words enter it; the order in which duels are served and the
      rating limit are not what the comments of the source say.
    - Settlement ([RatingFacts], [CompletionFacts], [SettlementFacts],
      [Settlement], theorems in [CompletionTheorems]): every match the matchmaker
      prepares and the engine plays to its end has a valid record that settles
      each of its players, its history agrees with its effects, and the places of
      a free for all are competition ranks. In the database ([EffectLedger],
      theorems in [EffectTheorems]): whatever is retried, lost or interleaved an
      effect is applied once and in the order of its dependencies, and a drained
      record is applied whole; the largest matches a record admits, unless they are
      stress tests, do not fit the transaction that persists them.
    - Highlights (theorems in [HighlightTheorems]): the regions of the trap test
      are exact, the clip is cut around the best window whatever the cache of trap
      tests remembers, and its slow motion can be lost to a subtraction that wraps
      around.
    - The wallet and payments (theorems in [WalletTheorems]): whatever calls
      interleave and whatever is lost, every balance is the sum of its ledger and no
      row of a ledger changes; an entry is applied at most once; a purchase happens
      whole or not at all, and a skin of price zero is given at most once; a
      notification moves a pack that was paid or exactly what it reverses, or the pack
      it names when no payment is recorded; the allowlist compares prefixes of numbers.
    - Skins (theorems in [SkinTheorems]): rows round-trip; others are shown an
      approved revision of a skin on its page, an approved one or the author's own
      without text in a match, and a public copy without text or approved by its hash;
      the review queue holds exactly what is pending, and a report undoes a takedown
      that overlaps it. Content references
      (theorems in [Content]): canonical bytes are equal exactly for equal
      documents. Expressions (theorems in [ExprTheorems]): evaluation is total,
      finite and as rare as the tier says, parsing ends, what is printed is parsed
      back, and the limit on nesting does not bound the depth of what is parsed.

    ** What is not modelled

    Serialisation with serde and the JSON getters, [CustomGameSettings]'s
    default. On the server: the transport over Redis (the scripts of the bus are
    the environment of the actor), the loop that spawns and supervises actors,
    the methods of the database on accounts, lobbies, rankings and jobs and all
    listings by index, the direct rating and experience writes that have no caller,
    the queues of the matchmaker and the lobbies, which are kept by scripts in
    Redis, the sockets and sessions of the servers, generated textures; the
    client's bindings and rendering; the documents of skins but for their
    expressions and references; the scenarios of the site, the chat filter, the load
    test. The trace records of common are written and compared by diagnostic tools
    only. *)

From Stdlib Require Import ZArith.
From stdpp Require Import gmap strings list sorting.
Open Scope Z_scope.

(** The lemmas that discharge the routine side conditions of the development. *)
Create HintDb snaketron.

(** ** Fallible code

    [Result] is the outcome of a Rust function: a value, an [anyhow] error
    (its fixed text, without the interpolated values), or a panic
    ([assert!], [expect], an index out of range). *)

Inductive Result (A : Type) : Type :=
| Ok (a : A)
| Err (msg : string)
| Panic (msg : string).
Arguments Ok {A} a.
Arguments Err {A} msg.
Arguments Panic {A} msg.

#[global] Instance result_ret : MRet Result := fun A a => Ok a.
#[global] Instance result_bind : MBind Result := fun A B f m =>
  match m with
  | Ok a => f a
  | Err e => Err e
  | Panic e => Panic e
  end.

(** [ensure b msg] is [if !b { return Err(anyhow!(msg)) }]. *)
Definition ensure (b : bool) (msg : string) : Result unit :=
  if b then Ok tt else Err msg.

(** [context msg o] is [Option::context]. *)
Definition context {A} (msg : string) (o : option A) : Result A :=
  match o with Some a => Ok a | None => Err msg end.

(** [Err] and [Panic] of one type as another's. *)
Definition recast {A B} (r : Result A) : Result B :=
  match r with
  | Ok _ => Panic "unreachable"
  | Err e => Err e
  | Panic e => Panic e
  end.

(** [for_each l f] runs a fallible body over a slice and stops at the first
    failure. *)
Fixpoint for_each {A} (l : list A) (f : A -> Result unit) : Result unit :=
  match l with
  | [] => Ok tt
  | x :: l' => match f x with
               | Ok _ => for_each l' f
               | Err e => Err e
               | Panic e => Panic e
               end
  end.

Definition is_ok {A} (r : Result A) : bool :=
  match r with Ok _ => true | _ => false end.

(** ** Machine integers

    A [w]-bit integer is a [Z]; arithmetic that Rust performs at width [w]
    is followed by the wrap of the release profile. *)

Definition u8_max : Z := 2 ^ 8 - 1.
Definition u16_max : Z := 2 ^ 16 - 1.
Definition u32_max : Z := 2 ^ 32 - 1.
Definition u64_max : Z := 2 ^ 64 - 1.
Definition i16_min : Z := - 2 ^ 15.
Definition i16_max : Z := 2 ^ 15 - 1.
Definition i32_min : Z := - 2 ^ 31.

Definition wrap_u8 (z : Z) : Z := z mod 2 ^ 8.
Definition wrap_u16 (z : Z) : Z := z mod 2 ^ 16.
Definition wrap_u32 (z : Z) : Z := z mod 2 ^ 32.
Definition wrap_u64 (z : Z) : Z := z mod 2 ^ 64.
Definition wrap_i16 (z : Z) : Z := (z + 2 ^ 15) mod 2 ^ 16 - 2 ^ 15.
Definition wrap_i32 (z : Z) : Z := (z + 2 ^ 31) mod 2 ^ 32 - 2 ^ 31.
Definition wrap_i64 (z : Z) : Z := (z + 2 ^ 63) mod 2 ^ 64 - 2 ^ 63.

(** [saturating_sub], [saturating_add], [saturating_mul] on unsigned
    integers; subtraction saturates at zero whatever the width. *)
Definition sat_sub (a b : Z) : Z := Z.max 0 (a - b).
Definition sat_add_u32 (a b : Z) : Z := Z.min (a + b) u32_max.
Definition sat_mul_u32 (a b : Z) : Z := Z.min (a * b) u32_max.
Definition sat_mul_u64 (a b : Z) : Z := Z.min (a * b) u64_max.

(** [+] and [-] on [i16]. *)
Definition i16_add (a b : Z) : Z := wrap_i16 (a + b).
Definition i16_sub (a b : Z) : Z := wrap_i16 (a - b).

(** [u32::is_multiple_of]. *)
Definition is_multiple_of (a b : Z) : bool :=
  if b =? 0 then a =? 0 else a mod b =? 0.

Definition is_u8 (z : Z) : Prop := 0 <= z <= u8_max.
Definition is_u16 (z : Z) : Prop := 0 <= z <= u16_max.
Definition is_u32 (z : Z) : Prop := 0 <= z <= u32_max.
Definition is_u64 (z : Z) : Prop := 0 <= z <= u64_max.
Definition is_i16 (z : Z) : Prop := i16_min <= z <= i16_max.

Ltac unfold_widths :=
  unfold is_u8, is_u16, is_u32, is_u64, is_i16, u8_max, u16_max, u32_max,
    u64_max, i16_min, i16_max, i32_min, sat_add_u32, sat_mul_u32,
    sat_mul_u64, sat_sub in *.

Lemma wrap_u32_id z : is_u32 z -> wrap_u32 z = z.
Proof. unfold_widths. intros. apply Z.mod_small. lia. Qed.

Lemma wrap_u64_id z : is_u64 z -> wrap_u64 z = z.
Proof. unfold_widths. intros. apply Z.mod_small. lia. Qed.

Lemma wrap_u16_id z : is_u16 z -> wrap_u16 z = z.
Proof. unfold_widths. intros. apply Z.mod_small. lia. Qed.

Lemma wrap_i16_id z : is_i16 z -> wrap_i16 z = z.
Proof.
  unfold_widths. intros. unfold wrap_i16. rewrite Z.mod_small by lia. lia.
Qed.

Lemma wrap_i16_range z : is_i16 (wrap_i16 z).
Proof.
  unfold_widths. unfold wrap_i16.
  pose proof (Z.mod_pos_bound (z + 2 ^ 15) (2 ^ 16)). lia.
Qed.

Lemma wrap_u32_range z : is_u32 (wrap_u32 z).
Proof.
  unfold_widths. unfold wrap_u32. pose proof (Z.mod_pos_bound z (2 ^ 32)). lia.
Qed.

Lemma is_multiple_of_spec a b : 0 < b -> is_multiple_of a b = true <-> (b | a).
Proof.
  intros Hb. unfold is_multiple_of. rewrite (proj2 (Z.eqb_neq b 0)) by lia.
  rewrite Z.eqb_eq. apply Z.mod_divide. lia.
Qed.

(** ** Vectors indexed by a machine integer *)

Definition vec_get {A} (l : list A) (i : Z) : option A := l !! Z.to_nat i.
Definition vec_set {A} (l : list A) (i : Z) (x : A) : list A :=
  <[Z.to_nat i := x]> l.
Definition vec_alter {A} (f : A -> A) (l : list A) (i : Z) : list A :=
  alter f (Z.to_nat i) l.
Definition vec_len {A} (l : list A) : Z := Z.of_nat (length l).

(** [v[i]], which panics out of range. *)
Definition index {A} (l : list A) (i : Z) : Result A :=
  match vec_get l i with Some a => Ok a | None => Panic "index out of bounds" end.

(** [iter().enumerate()] with the index as a machine integer. *)
Fixpoint enumerate_from {A} (i : Z) (l : list A) : list (Z * A) :=
  match l with
  | [] => []
  | x :: l' => (i, x) :: enumerate_from (i + 1) l'
  end.
Definition enumerate {A} (l : list A) : list (Z * A) := enumerate_from 0 l.

(** [lo..lo + n] for a count. *)
Definition range_Z (lo : Z) (n : nat) : list Z :=
  (fun i => lo + Z.of_nat i) <$> seq 0 n.

(** ** Lists *)

Lemma list_filter_ext_in {A} (P Q : A -> Prop) `{!forall x, Decision (P x)}
    `{!forall x, Decision (Q x)} (l : list A) :
  (forall x, x ∈ l -> P x <-> Q x) -> filter P l = filter Q l.
Proof.
  induction l as [|x l IH]; [done|]. intros Hl. rewrite !filter_cons.
  rewrite IH by (intros; apply Hl; by right).
  pose proof (Hl x ltac:(by left)). do 2 case_decide; tauto || done.
Qed.

Lemma list_filter_none {A} (P : A -> Prop) `{!forall x, Decision (P x)} (l : list A) :
  (forall x, x ∈ l -> ~ P x) -> filter P l = [].
Proof.
  induction l as [|x l IH]; [done|]. intros Hl. rewrite filter_cons.
  rewrite decide_False by (apply Hl; by left). apply IH. intros. apply Hl. by right.
Qed.

Lemma filter_everything {A} (P : A -> Prop) `{HP : !forall x, Decision (P x)} l :
  Forall P l -> filter P l = l.
Proof.
  induction 1 as [|x l Hx _ IH]; [done|]. rewrite filter_cons_True by done. by rewrite IH.
Qed.

Lemma enumerate_from_lookup {A} (l : list A) i n :
  enumerate_from i l !! n = (fun x => (i + Z.of_nat n, x)) <$> l !! n.
Proof.
  revert i n. induction l as [|x l IH]; intros i n; [by destruct n|].
  destruct n as [|n]; cbn; [do 2 f_equal; lia|].
  rewrite IH. destruct (l !! n); cbn; [do 2 f_equal; lia | done].
Qed.

Lemma elem_of_enumerate {A} (l : list A) i x :
  (i, x) ∈ enumerate l <-> 0 <= i /\ vec_get l i = Some x.
Proof.
  unfold enumerate, vec_get. rewrite list_elem_of_lookup. split.
  - intros [n Hn]. rewrite enumerate_from_lookup in Hn.
    destruct (l !! n) eqn:E; [|done]. injection Hn as <- <-.
    split; [lia|]. by rewrite Z.add_0_l, Nat2Z.id.
  - intros [Hi Hx]. exists (Z.to_nat i).
    by rewrite enumerate_from_lookup, Hx, Z.add_0_l, Z2Nat.id.
Qed.

(** [sort_unstable_by_key] on a first component. *)
Definition key_le {A} (a b : Z * A) : Prop := a.1 <= b.1.

#[global] Instance key_le_dec {A} (a b : Z * A) : Decision (key_le a b).
Proof. unfold key_le. apply _. Defined.

#[global] Instance key_le_total {A} : Total (@key_le A).
Proof. intros a b. unfold key_le. lia. Qed.

#[global] Instance key_le_trans {A} : Transitive (@key_le A).
Proof. intros a b c. unfold key_le. lia. Qed.

(** ** Inversion of fallible code *)

Lemma bind_ok {A B} (m : Result A) (k : A -> Result B) b :
  (m ≫= k) = Ok b <-> exists a, m = Ok a /\ k a = Ok b.
Proof.
  destruct m as [a|e|e]; cbn; split; [by eauto | by intros (? & [= <-] & ?) | done
    | by intros (? & ? & ?) | done | by intros (? & ? & ?)].
Qed.

Lemma ensure_ok b msg u : ensure b msg = Ok u <-> b = true.
Proof. destruct b, u; cbn; split; done. Qed.

Lemma ensure_bind_ok {B} b msg (k : unit -> Result B) r :
  (ensure b msg ≫= k) = Ok r <-> b = true /\ k tt = Ok r.
Proof. destruct b; cbn; split; [done | by intros [_ ?] | done | by intros [? _]]. Qed.

Lemma unit_bind_ok {B} (m : Result unit) (k : unit -> Result B) r :
  (m ≫= k) = Ok r <-> m = Ok tt /\ k tt = Ok r.
Proof.
  rewrite bind_ok. split; [by intros ([] & ? & ?) | by intros []; exists tt].
Qed.

Lemma for_each_ok {A} (l : list A) f :
  for_each l f = Ok tt <-> Forall (fun x => f x = Ok tt) l.
Proof.
  induction l as [|x l IH]; cbn; [by split|].
  rewrite Forall_cons. destruct (f x) as [[]|e|e]; rewrite ?IH; split; try done;
    by intros [? ?].
Qed.

Lemma context_ok {A} msg (o : option A) a : context msg o = Ok a <-> o = Some a.
Proof. destruct o; cbn; split; congruence. Qed.

Lemma index_ok {A} (l : list A) i a : index l i = Ok a <-> vec_get l i = Some a.
Proof. unfold index. destruct (vec_get l i); split; congruence. Qed.

(** ** Vectors *)

Lemma vec_get_set_eq {A} (l : list A) i x :
  is_Some (vec_get l i) -> vec_get (vec_set l i x) i = Some x.
Proof.
  unfold vec_get, vec_set. intros [y Hy]. apply list_lookup_insert_eq.
  by eapply lookup_lt_Some.
Qed.

Lemma vec_get_alter {A} (f : A -> A) (l : list A) i j :
  0 <= i -> 0 <= j ->
  vec_get (vec_alter f l i) j = (if i =? j then f <$> vec_get l j else vec_get l j).
Proof.
  intros Hi Hj. unfold vec_get, vec_alter.
  destruct (Z.eqb_spec i j) as [->|Hne].
  - by rewrite list_lookup_alter_eq.
  - apply list_lookup_alter_ne. lia.
Qed.

Lemma vec_get_set_ne {A} (l : list A) i j x :
  0 <= i -> 0 <= j -> i <> j -> vec_get (vec_set l i x) j = vec_get l j.
Proof. intros. unfold vec_get, vec_set. apply list_lookup_insert_ne. lia. Qed.

Lemma vec_get_Some_lt {A} (l : list A) i x :
  0 <= i -> vec_get l i = Some x -> i < vec_len l.
Proof.
  unfold vec_get, vec_len. intros Hi Hx. apply lookup_lt_Some in Hx. lia.
Qed.

Lemma vec_get_lt_Some {A} (l : list A) i :
  0 <= i < vec_len l -> is_Some (vec_get l i).
Proof. unfold vec_get, vec_len. intros Hi. apply lookup_lt_is_Some. lia. Qed.

Lemma enumerate_snd {A} (l : list A) : (enumerate l).*2 = l.
Proof.
  unfold enumerate. generalize 0. induction l as [|x l IH]; intros i; [done|].
  cbn. by rewrite IH.
Qed.

Lemma fmap_enumerate_lookup {A B} (f : Z * A -> B) (l : list A) i :
  0 <= i -> vec_get (f <$> enumerate l) i = (fun x => f (i, x)) <$> vec_get l i.
Proof.
  intros Hi. unfold vec_get, enumerate. rewrite list_lookup_fmap, enumerate_from_lookup.
  destruct (l !! Z.to_nat i); cbn; [|done]. do 3 f_equal. lia.
Qed.

Lemma Forall_enumerate {A B} (P : B -> Prop) (f : Z * A -> B) (l : list A) :
  (forall i x, vec_get l i = Some x -> 0 <= i -> P (f (i, x))) ->
  Forall P (f <$> enumerate l).
Proof.
  intros H. apply Forall_fmap, Forall_forall. intros [i x] Hin.
  apply elem_of_enumerate in Hin as [??]. by apply H.
Qed.

Lemma length_enumerate {A} (l : list A) : length (enumerate l) = length l.
Proof. rewrite <- (enumerate_snd l) at 2. by rewrite length_fmap. Qed.

Lemma elem_of_range_Z lo n i : i ∈ range_Z lo n <-> lo <= i < lo + Z.of_nat n.
Proof.
  unfold range_Z. rewrite list_elem_of_fmap. split.
  - intros (k & -> & Hk). apply elem_of_seq in Hk. lia.
  - intros Hi. exists (Z.to_nat (i - lo)). rewrite elem_of_seq. lia.
Qed.
