(* ===== verification/RustFloat.v ===== *)
(** * IEEE-754 arithmetic as the engine uses it

    Rust's [f32] and [f64] operations [+ - * / sqrt] are correctly rounded
    IEEE-754 operations; they are the ones of the Standard Library's
    [SpecFloat] at precision 24 (exponent bound 128) and 53 (1024).

    [floor] and [round] yield an integral float or a special value, and the
    engine only ever clamps such a value and casts it to an integer, so their
    results are kept as [fint]. [f32::ln] and [f32::cos] have an unspecified
    precision in the language's documentation; they are the operations of the
    class [F32Libm], a parameter of whatever samples a normal distribution. *)

From Stdlib Require Import ZArith SpecFloat.
From stdpp Require Import prelude.
From S2P Require Import Prelude.
Open Scope Z_scope.

(** ** Binary32 *)

Definition f32_of_Z (z : Z) : spec_float := binary_normalize 24 128 z 0 false.
Definition f32_mul : spec_float -> spec_float -> spec_float := SFmul 24 128.
Definition f32_div : spec_float -> spec_float -> spec_float := SFdiv 24 128.
Definition f32_add : spec_float -> spec_float -> spec_float := SFadd 24 128.
Definition f32_sqrt : spec_float -> spec_float := SFsqrt 24 128.

(** The literals of the source, rounded to nearest. *)
Definition f32_lit_0_000001 : spec_float := S754_finite false 8796093 (-43).
Definition f32_lit_0_2 : spec_float := S754_finite false 13421773 (-26).
Definition f32_lit_PI : spec_float := S754_finite false 13176795 (-22).

Class F32Libm := {
  f32_ln : spec_float -> spec_float;
  f32_cos : spec_float -> spec_float
}.

(** ** Binary64 *)

Definition f64_of_Z (z : Z) : spec_float := binary_normalize 53 1024 z 0 false.
Definition f64_mul : spec_float -> spec_float -> spec_float := SFmul 53 1024.
Definition f64_div : spec_float -> spec_float -> spec_float := SFdiv 53 1024.
Definition f64_add : spec_float -> spec_float -> spec_float := SFadd 53 1024.

(** ** Integral floats and casts *)

Inductive fint : Type :=
| FInt (z : Z)
| FPosInf
| FNegInf
| FNaN.

Definition float_floor (x : spec_float) : fint :=
  match x with
  | S754_zero _ => FInt 0
  | S754_infinity s => if s then FNegInf else FPosInf
  | S754_nan => FNaN
  | S754_finite s m e =>
      let z := if s then Zneg m else Zpos m in
      FInt (if 0 <=? e then z * 2 ^ e else z / 2 ^ (- e))
  end.

(** [round] breaks ties away from zero. *)
Definition float_round (x : spec_float) : fint :=
  match x with
  | S754_zero _ => FInt 0
  | S754_infinity s => if s then FNegInf else FPosInf
  | S754_nan => FNaN
  | S754_finite s m e =>
      let a := if 0 <=? e then Zpos m * 2 ^ e
               else (2 * Zpos m + 2 ^ (- e)) / 2 ^ (1 - e) in
      FInt (if s then - a else a)
  end.

(** [clamp(lo, hi)] with integral bounds; a NaN stays a NaN. *)
Definition fint_clamp (lo hi : Z) (x : fint) : fint :=
  match x with
  | FInt z => FInt (Z.max lo (Z.min hi z))
  | FPosInf => FInt hi
  | FNegInf => FInt lo
  | FNaN => FNaN
  end.

(** [as i16] and [as u16]: saturating, and zero for a NaN. *)
Definition fint_as_i16 (x : fint) : Z :=
  match x with
  | FInt z => Z.max i16_min (Z.min i16_max z)
  | FPosInf => i16_max
  | FNegInf => i16_min
  | FNaN => 0
  end.

Definition fint_as_u16 (x : fint) : Z :=
  match x with
  | FInt z => Z.max 0 (Z.min u16_max z)
  | FPosInf => u16_max
  | FNegInf => 0
  | FNaN => 0
  end.

(** A clamped value that is a number lies between the bounds. *)
Lemma fint_clamp_as_i16_between lo hi x :
  lo <= hi -> is_i16 lo -> is_i16 hi -> x <> FNaN ->
  lo <= fint_as_i16 (fint_clamp lo hi x) <= hi.
Proof. unfold_widths. intros. destruct x; cbn; unfold_widths; lia || done. Qed.
