(* ===== verification/Util.v ===== *)
(** * The pseudorandom generator of common/src/util.rs

    A xorshift generator on a 64-bit word. The theorems show that a generator
    built by [PseudoRandom_new] never reaches the absorbing state zero and
    stays a 64-bit word, whatever sequence of draws is taken. *)

From Stdlib Require Import ZArith SpecFloat.
From stdpp Require Import prelude.
From S2P Require Import Prelude RustFloat.
Open Scope Z_scope.

Record PseudoRandom := mkPseudoRandom { rng_state : Z }.

#[global] Instance PseudoRandom_eq_dec : EqDecision PseudoRandom.
Proof. solve_decision. Defined.

Definition PseudoRandom_new (seed : Z) : PseudoRandom :=
  mkPseudoRandom (if seed =? 0 then 0x1234567890abcdef else seed).

(** The three assignments [state ^= state << 13; ^= >> 17; ^= << 5] that
    every draw starts with. *)
Definition xorshift (s : Z) : Z :=
  let s := Z.lxor s (wrap_u64 (Z.shiftl s 13)) in
  let s := Z.lxor s (Z.shiftr s 17) in
  Z.lxor s (wrap_u64 (Z.shiftl s 5)).

Definition next_u32 (r : PseudoRandom) : Z * PseudoRandom :=
  let s := xorshift (rng_state r) in
  (wrap_u32 (Z.shiftr s 32), mkPseudoRandom s).

Definition next_u16 (r : PseudoRandom) : Z * PseudoRandom :=
  let '(v, r) := next_u32 r in (wrap_u16 v, r).

Definition next_u64 (r : PseudoRandom) : Z * PseudoRandom :=
  let s := xorshift (rng_state r) in (s, mkPseudoRandom s).

Definition next_f32 (r : PseudoRandom) : spec_float * PseudoRandom :=
  let '(v, r) := next_u32 r in
  (f32_div (f32_of_Z (Z.shiftr v 8)) (f32_of_Z 16777216), r).

(** [u1 == 0.0] on floats: both zeros, and no NaN. *)
Definition f32_is_zero (x : spec_float) : bool :=
  match x with S754_zero _ => true | _ => false end.

Definition next_normal `{F32Libm} (r : PseudoRandom) (mean std_dev : spec_float)
  : spec_float * PseudoRandom :=
  let '(u1, r) := next_f32 r in
  let '(u2, r) := next_f32 r in
  let u1 := if f32_is_zero u1 then f32_lit_0_000001 else u1 in
  let z0 := f32_mul
              (f32_sqrt (f32_mul (f32_of_Z (-2)) (f32_ln u1)))
              (f32_cos (f32_mul (f32_mul (f32_of_Z 2) f32_lit_PI) u2)) in
  (f32_add mean (f32_mul z0 std_dev), r).

(** ** The word never becomes zero *)

Definition rng_ok (r : PseudoRandom) : Prop := 0 < rng_state r <= u64_max.

Lemma lxor_u64_range a b :
  is_u64 a -> is_u64 b -> is_u64 (Z.lxor a b).
Proof.
  unfold_widths. intros [Ha1 Ha2] [Hb1 Hb2].
  assert (Hn : 0 <= Z.lxor a b) by (apply Z.lxor_nonneg; lia).
  split; [done|].
  destruct (Z.eq_dec (Z.lxor a b) 0) as [->|Hz]; [lia|].
  enough (Z.log2 (Z.lxor a b) < 64) as Hl.
  { apply Z.log2_lt_pow2 in Hl; lia. }
  pose proof (Z.log2_lxor a b Ha1 Hb1).
  assert (forall c, 0 <= c <= 2 ^ 64 - 1 -> Z.log2 c < 64) as Hc.
  { intros c ?. destruct (Z.eq_dec c 0) as [->|]; [cbn; lia|].
    apply Z.log2_lt_pow2; lia. }
  pose proof (Hc a ltac:(lia)). pose proof (Hc b ltac:(lia)). lia.
Qed.

Lemma xor_shl_nonzero x k :
  0 < k -> is_u64 x -> Z.lxor x (wrap_u64 (Z.shiftl x k)) = 0 -> x = 0.
Proof.
  intros Hk Hx Heq. apply Z.lxor_eq in Heq.
  assert (Hbit : forall n : nat, Z.testbit x (Z.of_nat n) = false).
  { intros n. induction n as [n IH] using lt_wf_ind.
    rewrite Heq. unfold wrap_u64.
    destruct (Z.lt_ge_cases (Z.of_nat n) 64) as [Hn|Hn].
    - rewrite Z.mod_pow2_bits_low by lia. rewrite Z.shiftl_spec by lia.
      destruct (Z.lt_ge_cases (Z.of_nat n) k) as [Hl|Hg].
      + apply Z.testbit_neg_r. lia.
      + replace (Z.of_nat n - k) with (Z.of_nat (n - Z.to_nat k)) by lia.
        apply IH. lia.
    - apply Z.mod_pow2_bits_high. lia. }
  apply Z.bits_inj_0. intros i. destruct (Z.neg_nonneg_cases i) as [Hi|Hi].
  - by apply Z.testbit_neg_r.
  - rewrite <- (Z2Nat.id i Hi). apply Hbit.
Qed.

Lemma xor_shr_nonzero x k :
  0 < k -> is_u64 x -> Z.lxor x (Z.shiftr x k) = 0 -> x = 0.
Proof.
  unfold_widths. intros Hk Hx Heq. apply Z.lxor_eq in Heq.
  rewrite Z.shiftr_div_pow2 in Heq by lia.
  destruct (Z.eq_dec x 0) as [|Hz]; [done|].
  pose proof (Z.div_lt x (2 ^ k) ltac:(lia)).
  pose proof (Z.pow_gt_1 2 k ltac:(lia)). lia.
Qed.

Lemma shr_u64_range x k : 0 <= k -> is_u64 x -> is_u64 (Z.shiftr x k).
Proof.
  unfold_widths. intros Hk Hx. rewrite Z.shiftr_div_pow2 by done.
  pose proof (Z.pow_pos_nonneg 2 k ltac:(lia) Hk).
  split; [apply Z.div_pos; lia|].
  transitivity x; [|lia]. apply Z.div_le_upper_bound; nia.
Qed.

Lemma wrap_u64_range z : is_u64 (wrap_u64 z).
Proof.
  unfold_widths. unfold wrap_u64. pose proof (Z.mod_pos_bound z (2 ^ 64)). lia.
Qed.

Lemma xorshift_ok s : 0 < s <= u64_max -> 0 < xorshift s <= u64_max.
Proof.
  intros Hs. unfold xorshift.
  assert (H0 : is_u64 s) by (unfold_widths; lia).
  set (a := Z.lxor s (wrap_u64 (Z.shiftl s 13))).
  assert (Ha : is_u64 a) by (apply lxor_u64_range; auto using wrap_u64_range).
  assert (a <> 0). { intros E. apply xor_shl_nonzero in E; lia || done. }
  set (b := Z.lxor a (Z.shiftr a 17)).
  assert (Hb : is_u64 b).
  { apply lxor_u64_range; [done|]. apply shr_u64_range; [lia|done]. }
  assert (b <> 0). { intros E. apply xor_shr_nonzero in E; lia || done. }
  set (c := Z.lxor b (wrap_u64 (Z.shiftl b 5))).
  assert (Hc : is_u64 c) by (apply lxor_u64_range; auto using wrap_u64_range).
  assert (c <> 0). { intros E. apply xor_shl_nonzero in E; lia || done. }
  unfold_widths; lia.
Qed.

Lemma next_u32_ok r v r' :
  next_u32 r = (v, r') -> rng_ok r -> rng_ok r' /\ is_u32 v.
Proof.
  intros [= <- <-] H. split; [by apply xorshift_ok | apply wrap_u32_range].
Qed.

Lemma next_f32_ok r v r' : next_f32 r = (v, r') -> rng_ok r -> rng_ok r'.
Proof.
  unfold next_f32. destruct (next_u32 r) as [u q] eqn:E. intros [= <- <-] H.
  by apply next_u32_ok in E as [??].
Qed.

Lemma next_normal_ok `{F32Libm} r m d v r' :
  next_normal r m d = (v, r') -> rng_ok r -> rng_ok r'.
Proof.
  unfold next_normal. destruct (next_f32 r) as [u1 q1] eqn:E1.
  destruct (next_f32 q1) as [u2 q2] eqn:E2. intros [= <- <-] Hr.
  eauto using next_f32_ok.
Qed.
