(* ===== verification/Snake.v ===== *)
(** * Snakes: common/src/constants.rs and common/src/snake.rs

    Data and operations of one snake: its compressed body, the Boost meter,
    the movement credit and the combo meter. A [&mut self] method is a
    function to the updated snake, paired with the method's result when it
    has one. The proofs are in [SnakeFacts] and [SnakeBody]. *)

From Stdlib Require Import ZArith.
From stdpp Require Import prelude strings countable list.
From S2P Require Import Prelude.
Open Scope Z_scope.

(** ** Constants *)

Definition DEFAULT_TICK_INTERVAL_MS : Z := 100.
Definition BOOST_TICK_INTERVAL_MS : Z := 50.
Definition NORMAL_SNAKE_SPEED_MILLI : Z := 1000.
Definition MAX_BOOST_SPEED_MILLI : Z := 2000.
Definition DEFAULT_BOOST_SPEED_MILLI : Z := 1500.
Definition DEFAULT_BOOST_CAPACITY_MS : Z := 3000.
Definition DEFAULT_BOOST_PACKET_CHARGE_MS : Z := DEFAULT_BOOST_CAPACITY_MS / 4.
Definition DEFAULT_BOOST_PAD_RESPAWN_MS : Z := 8000.
Definition BOOST_SPOT_LAYOUT_VERSION_TEAM : Z := 3.
Definition BOOST_SPOT_LAYOUT_VERSION_FIELD : Z := 4.
Definition BOOST_SPOT_LAYOUT_VERSION_NONE : Z := 0.
Definition BOOST_RULES_VERSION : Z := 2.
Definition DEFAULT_CUSTOM_GAME_TICK_MS : Z := 100.
Definition DEFAULT_PLAYER_IDLE_TIMEOUT_MS : Z := 60000.
Definition DEFAULT_PLAYER_IDLE_WARNING_MS : Z := 10000.
Definition DEFAULT_FOOD_TARGET : Z := 10.
Definition DEFAULT_QUICKMATCH_TEAM_SCORE_LIMIT : Z := 25.
Definition DEFAULT_COMPETITIVE_TEAM_SCORE_LIMIT : Z := 50.

(** ** Data *)

(** The newtype [TeamId(u8)]. *)
Abbreviation TeamId := Z (only parsing).

Inductive Direction := Up | Down | Left | Right.

#[global] Instance Direction_eq_dec : EqDecision Direction.
Proof. solve_decision. Defined.

Definition is_opposite (self other : Direction) : bool :=
  match self, other with
  | Up, Down | Down, Up | Left, Right | Right, Left => true
  | _, _ => false
  end.

Record Position := mkPos { px : Z; py : Z }.

#[global] Instance Position_eq_dec : EqDecision Position.
Proof. solve_decision. Defined.

#[global] Program Instance Position_countable : Countable Position :=
  inj_countable' (fun p => (px p, py p)) (fun '(x, y) => mkPos x y) _.
Next Obligation. by intros []. Qed.

Definition is_between (self p1 p2 : Position) : bool :=
  (((px p1 <=? px self) && (px self <=? px p2))
   || ((px self <=? px p1) && (px p2 <=? px self)))
  && (((py p1 <=? py self) && (py self <=? py p2))
      || ((py self <=? py p1) && (py p2 <=? py self))).

Record Player := mkPlayer { pl_user_id : Z; pl_snake_id : Z }.

#[global] Instance Player_eq_dec : EqDecision Player.
Proof. solve_decision. Defined.

Record SnakeBoost := mkSnakeBoost {
  charge_ms : Z;
  active : bool;
  intent : bool
}.

#[global] Instance SnakeBoost_eq_dec : EqDecision SnakeBoost.
Proof. solve_decision. Defined.

Definition SnakeBoost_default : SnakeBoost := mkSnakeBoost 0 false false.

Record SnakeCombo := mkSnakeCombo { chain_count : Z; remaining_ms : Z }.

#[global] Instance SnakeCombo_eq_dec : EqDecision SnakeCombo.
Proof. solve_decision. Defined.

Definition SnakeCombo_default : SnakeCombo := mkSnakeCombo 0 0.

Inductive BoostResolution := BR_Activated | BR_Deactivated.

Record Snake := mkSnake {
  body : list Position;
  direction : Direction;
  is_alive : bool;
  sn_food : Z;
  sn_team_id : option TeamId;
  speed_milli : Z;
  movement_credit : Z;
  boost : SnakeBoost;
  combo : SnakeCombo
}.

#[global] Instance Snake_eq_dec : EqDecision Snake.
Proof. solve_decision. Defined.

Definition Snake_new (b : list Position) (d : Direction) (alive : bool)
    (food : Z) (team : option TeamId) : Snake :=
  {| body := b; direction := d; is_alive := alive; sn_food := food;
     sn_team_id := team; speed_milli := NORMAL_SNAKE_SPEED_MILLI;
     movement_credit := 0; boost := SnakeBoost_default;
     combo := SnakeCombo_default |}.

Definition for_illustration (b : list Position) (d : Direction)
    (team : option TeamId) (food : Z) (alive boost_active : bool) : Snake :=
  {| body := b; direction := d; is_alive := alive; sn_food := food;
     sn_team_id := team;
     speed_milli := if boost_active then DEFAULT_BOOST_SPEED_MILLI
                    else NORMAL_SNAKE_SPEED_MILLI;
     movement_credit := 0;
     boost := {| charge_ms := if boost_active then DEFAULT_BOOST_CAPACITY_MS
                              else 0;
                 active := boost_active;
                 intent := boost_active |};
     combo := SnakeCombo_default |}.

(** ** Field assignments *)

Definition set_boost (b : SnakeBoost) (s : Snake) : Snake :=
  {| s with boost := b |}.
Definition set_charge (c : Z) (s : Snake) : Snake :=
  {| s with boost := {| charge_ms := c; active := active (boost s);
                        intent := intent (boost s) |} |}.
Definition set_active (a : bool) (s : Snake) : Snake :=
  {| s with boost := {| charge_ms := charge_ms (boost s); active := a;
                        intent := intent (boost s) |} |}.
Definition set_intent (i : bool) (s : Snake) : Snake :=
  {| s with boost := {| charge_ms := charge_ms (boost s);
                        active := active (boost s); intent := i |} |}.
Definition set_speed (v : Z) (s : Snake) : Snake := {| s with speed_milli := v |}.
Definition set_credit (v : Z) (s : Snake) : Snake :=
  {| s with movement_credit := v |}.
Definition set_combo (c : SnakeCombo) (s : Snake) : Snake :=
  {| s with combo := c |}.
Definition set_body (b : list Position) (s : Snake) : Snake :=
  {| s with body := b |}.
Definition set_direction (d : Direction) (s : Snake) : Snake :=
  {| s with direction := d |}.
Definition set_alive (a : bool) (s : Snake) : Snake :=
  {| s with is_alive := a |}.
Definition set_sn_food (f : Z) (s : Snake) : Snake := {| s with sn_food := f |}.

(** ** Boost lifecycle *)

Definition collect_boost_charge (s : Snake) (amount_ms capacity_ms : Z)
  : option Z * Snake :=
  if negb (is_alive s)
     || (amount_ms =? 0)
     || (capacity_ms =? 0)
     || negb (is_multiple_of amount_ms BOOST_TICK_INTERVAL_MS)
     || negb (is_multiple_of capacity_ms BOOST_TICK_INTERVAL_MS)
     || (capacity_ms <=? charge_ms (boost s))
  then (None, s)
  else
    let available_ms := capacity_ms - charge_ms (boost s) in
    let c := charge_ms (boost s) + Z.min amount_ms available_ms in
    (Some c, set_charge c s).

Definition set_boost_intent (s : Snake) (wants_boost : bool) : bool * Snake :=
  if Bool.eqb (intent (boost s)) wants_boost then (false, s)
  else (true, set_intent wants_boost s).

Definition try_activate_boost (s : Snake) (configured_speed_milli capacity_ms : Z)
  : bool * Snake :=
  let valid_config :=
    (NORMAL_SNAKE_SPEED_MILLI <=? configured_speed_milli)
    && (configured_speed_milli <=? MAX_BOOST_SPEED_MILLI)
    && (0 <? capacity_ms)
    && is_multiple_of capacity_ms BOOST_TICK_INTERVAL_MS in
  let valid_charge :=
    (0 <? charge_ms (boost s))
    && (charge_ms (boost s) <=? capacity_ms)
    && is_multiple_of (charge_ms (boost s)) BOOST_TICK_INTERVAL_MS in
  if negb (is_alive s) || active (boost s)
     || negb (speed_milli s =? NORMAL_SNAKE_SPEED_MILLI)
     || negb valid_config || negb valid_charge
  then (false, s)
  else (true, set_speed configured_speed_milli (set_active true s)).

Definition try_deactivate_boost (s : Snake) : bool * Snake :=
  if negb (active (boost s)) then (false, s)
  else (true, set_speed NORMAL_SNAKE_SPEED_MILLI (set_active false s)).

Definition resolve_boost (s : Snake) (configured_speed_milli capacity_ms : Z)
  : option BoostResolution * Snake :=
  if negb (intent (boost s)) || negb (is_alive s) then
    let '(changed, s') := try_deactivate_boost s in
    (if changed then Some BR_Deactivated else None, s')
  else
    let '(changed, s') := try_activate_boost s configured_speed_milli capacity_ms in
    (if changed then Some BR_Activated else None, s').

Definition reserve_boost_quantum (s : Snake) (unlimited : bool) : bool * Snake :=
  if negb (is_alive s) || negb (active (boost s))
     || (charge_ms (boost s) <? BOOST_TICK_INTERVAL_MS)
  then (false, s)
  else (true, if negb unlimited
              then set_charge (charge_ms (boost s) - BOOST_TICK_INTERVAL_MS) s
              else s).

Definition finalize_boost_depletion (s : Snake) : bool * Snake :=
  if negb (active (boost s)) || negb (charge_ms (boost s) =? 0)
  then (false, s)
  else (true, set_speed NORMAL_SNAKE_SPEED_MILLI (set_active false s)).

(** Both assertions and the final [expect] are panics. *)
Definition accrue_movement_credit (s : Snake)
    (tick_duration_ms normal_movement_interval_ms : Z) : Result (bool * Snake) :=
  if negb (is_alive s) then Ok (false, s)
  else if normal_movement_interval_ms <=? 0
  then Panic "normal movement interval must be positive"
  else
    let threshold := NORMAL_SNAKE_SPEED_MILLI * normal_movement_interval_ms in
    let accumulated := movement_credit s + speed_milli s * tick_duration_ms in
    if negb (accumulated <? threshold * 2)
    then Panic "a snake may accrue at most one movement opportunity per simulation quantum"
    else
      let '(moves, residual) :=
        if threshold <=? accumulated then (true, accumulated - threshold)
        else (false, accumulated) in
      if u32_max <? residual
      then Panic "movement credit residual must fit in serialized state"
      else Ok (moves, set_credit residual s).

Definition reset_boost_and_movement (s : Snake) (unlimited_capacity_ms : option Z)
  : Snake :=
  set_boost {| intent := intent (boost s);
               charge_ms := default 0 unlimited_capacity_ms;
               active := active SnakeBoost_default |}
    (set_credit 0 (set_speed NORMAL_SNAKE_SPEED_MILLI s)).

(** ** Combo meter *)

Definition drain_combo (s : Snake) (elapsed_ms : Z) : Snake :=
  if remaining_ms (combo s) =? 0 then
    set_combo {| chain_count := 0; remaining_ms := remaining_ms (combo s) |} s
  else
    let r := sat_sub (remaining_ms (combo s)) elapsed_ms in
    set_combo {| chain_count := if r =? 0 then 0 else chain_count (combo s);
                 remaining_ms := r |} s.

Definition reset_combo (s : Snake) : Snake := set_combo SnakeCombo_default s.

(** ** Geometry *)

Definition head (s : Snake) : Result Position :=
  context "Snake has no head" (hd_error (body s)).

Definition tail_pos (s : Snake) : Result Position :=
  context "Snake has no tail" (last (body s)).

Definition travel_direction (s : Snake) : Direction :=
  match body s with
  | h :: neck :: _ =>
      if px neck <? px h then Right
      else if px h <? px neck then Left
      else if py neck <? py h then Down
      else if py h <? py neck then Up
      else direction s
  | _ => direction s
  end.

(** The cell next to [p] in direction [d], at [i16] width. *)
Definition next_cell (d : Direction) (p : Position) : Position :=
  match d with
  | Up => mkPos (px p) (wrap_i16 (py p - 1))
  | Down => mkPos (px p) (wrap_i16 (py p + 1))
  | Left => mkPos (wrap_i16 (px p - 1)) (py p)
  | Right => mkPos (wrap_i16 (px p + 1)) (py p)
  end.

(** The collinear head is moved in place, any other head is inserted. *)
Definition push_head (p0 : Position) (b : list Position) : list Position :=
  match b with
  | p1 :: p2 :: rest =>
      if ((px p0 =? px p1) && (px p1 =? px p2))
         || ((py p0 =? py p1) && (py p1 =? py p2))
      then p0 :: p2 :: rest
      else p0 :: p1 :: p2 :: rest
  | _ => b
  end.

(** One step of the tail end toward the point before it. *)
Definition tail_step (before t : Position) : Position :=
  if px t <? px before then mkPos (wrap_i16 (px t + 1)) (py t)
  else if px before <? px t then mkPos (wrap_i16 (px t - 1)) (py t)
  else if py t <? py before then mkPos (px t) (wrap_i16 (py t + 1))
  else if py before <? py t then mkPos (px t) (wrap_i16 (py t - 1))
  else t.

(** The tail end moves one step and is dropped when it meets the point
    before it; bodies shorter than two points do not occur here. *)
Fixpoint pull_tail (b : list Position) : list Position :=
  match b with
  | before :: [t] =>
      let t' := tail_step before t in
      if bool_decide (t' = before) then [before] else [before; t']
  | p :: b' => p :: pull_tail b'
  | [] => []
  end.

Definition step_forward (s : Snake) : Snake :=
  if negb (is_alive s) || (vec_len (body s) <? 2) then s
  else
    match body s with
    | current_head :: _ =>
        let p0 := next_cell (direction s) current_head in
        let s := set_body (push_head p0 (body s)) s in
        if 0 <? sn_food s
        then set_sn_food (sn_food s - 1) s
        else set_body (pull_tail (body s)) s
    | [] => s
    end.

Definition iter_body (s : Snake) : list (Position * Position) :=
  zip (body s) (drop 1 (body s)).

Definition contains_point (s : Snake) (point : Position) (skip_head : bool) : bool :=
  existsb (fun '(idx, (p1, p2)) =>
      if skip_head && (idx =? 0) && bool_decide (p1 = point) then false
      else is_between point p1 p2)
    (enumerate (iter_body s)).

Definition is_head (s : Snake) (point : Position) : bool :=
  match body s with
  | h :: _ => bool_decide (h = point)
  | [] => false
  end.

(** [((p2.x - p1.x).abs() + (p2.y - p1.y).abs()) as usize], at [i16] width
    before the cast to a 64-bit [usize]. *)
Definition segment_distance (p1 p2 : Position) : Z :=
  wrap_u64 (wrap_i16 (wrap_i16 (Z.abs (wrap_i16 (px p2 - px p1)))
                      + wrap_i16 (Z.abs (wrap_i16 (py p2 - py p1))))).

Definition snake_length (s : Snake) : Z :=
  if vec_len (body s) <? 2 then vec_len (body s)
  else wrap_u64 (foldl (fun acc '(p1, p2) => wrap_u64 (acc + segment_distance p1 p2))
                   0 (iter_body s) + 1).
