(* ===== verification/SnakeBody.v ===== *)
(** * The compressed body refines a list of cells

    [Snake] keeps only the head, the turns and the tail end. This file gives
    the reference meaning of such a body, the list of cells it occupies from
    head to tail ([cells]), and shows that every geometric operation of
    common/src/snake.rs implements the obvious operation on that list:
    [step_forward] adds the new head and drops the last cell unless the snake
    is growing, [contains_point] is membership, [snake_length] is the number
    of cells. *)

From Stdlib Require Import ZArith.
From stdpp Require Import prelude strings countable list.
From S2P Require Import Prelude Snake.
Open Scope Z_scope.

(** ** Reference meaning *)

(** One step from [p] toward [q] along a row or a column. *)
Definition toward (p q : Position) : Position :=
  if px p <? px q then mkPos (px p + 1) (py p)
  else if px q <? px p then mkPos (px p - 1) (py p)
  else if py p <? py q then mkPos (px p) (py p + 1)
  else if py q <? py p then mkPos (px p) (py p - 1)
  else p.

Definition dist (p q : Position) : nat :=
  Z.to_nat (Z.abs (px q - px p) + Z.abs (py q - py p)).

Fixpoint walk (n : nat) (p q : Position) : list Position :=
  match n with
  | O => []
  | S n => p :: walk n (toward p q) q
  end.

(** The cells from [p] up to, and without, [q]. *)
Definition segment (p q : Position) : list Position := walk (dist p q) p q.

Fixpoint cells (b : list Position) : list Position :=
  match b with
  | [] => []
  | p :: b' => match b' with
               | [] => [p]
               | q :: _ => segment p q ++ cells b'
               end
  end.

(** The specification of one movement step on cells. *)
Definition cells_step (grow : bool) (new_head : Position) (cs : list Position)
  : list Position :=
  new_head :: (if grow then cs else removelast cs).

(** ** Well-formed bodies *)

Definition aligned (p q : Position) : Prop :=
  (px p = px q \/ py p = py q) /\ p <> q.

Fixpoint chain (b : list Position) : Prop :=
  match b with
  | p :: b' => match b' with
               | q :: _ => aligned p q /\ chain b'
               | [] => True
               end
  | [] => True
  end.

Definition pos_i16 (p : Position) : Prop := is_i16 (px p) /\ is_i16 (py p).

Record wf_body (b : list Position) : Prop := {
  wf_two : (2 <= length b)%nat;
  wf_chain : chain b;
  wf_i16 : Forall pos_i16 b
}.

(** The pending direction is not the reverse of the last travel. *)
Definition no_reversal (s : Snake) : Prop :=
  is_opposite (travel_direction s) (direction s) = false.

(** The head is not on the border of the [i16] plane. *)
Definition head_inside (s : Snake) : Prop :=
  match body s with
  | h :: _ => i16_min < px h < i16_max /\ i16_min < py h < i16_max
  | [] => True
  end.

(** ** Arithmetic on single segments *)

Lemma pos_eq p q : px p = px q -> py p = py q -> p = q.
Proof. destruct p, q; cbn; congruence. Qed.

Lemma pos_neq p q : p <> q -> px p <> px q \/ py p <> py q.
Proof.
  intros H. destruct (Z.eq_dec (px p) (px q)); [|tauto].
  destruct (Z.eq_dec (py p) (py q)); [|tauto].
  exfalso. auto using pos_eq.
Qed.

Lemma dist_zero p q : dist p q = 0%nat -> p = q.
Proof. intros H. apply pos_eq; unfold dist in H; lia. Qed.

Lemma dist_self p : dist p p = 0%nat.
Proof. unfold dist. lia. Qed.

Lemma dist_toward p q : aligned p q -> dist p q = S (dist (toward p q) q).
Proof.
  intros [Ha Hn]. apply pos_neq in Hn. unfold dist, toward.
  repeat (case_match; cbn [px py] in *); lia.
Qed.

Lemma toward_aligned p q :
  aligned p q -> toward p q = q \/ aligned (toward p q) q.
Proof.
  intros [Ha Hn]. destruct (decide (toward p q = q)) as [|Hne]; [by left|right].
  split; [|done]. unfold toward.
  repeat (case_match; cbn [px py] in *); lia.
Qed.

Lemma segment_self p : segment p p = [].
Proof. unfold segment. by rewrite dist_self. Qed.

Lemma segment_unfold p q :
  aligned p q -> segment p q = p :: segment (toward p q) q.
Proof. intros H. unfold segment. by rewrite dist_toward. Qed.

(** Extending a segment backward by one cell. *)
Lemma segment_cons p0 p1 q :
  toward p0 q = p1 -> aligned p0 q -> segment p0 q = p0 :: segment p1 q.
Proof. intros <- H. by apply segment_unfold. Qed.

(** Shortening a segment at its far end by one cell. *)
Lemma segment_snoc p t :
  aligned p t -> segment p t = segment p (toward t p) ++ [toward t p].
Proof.
  remember (dist p t) as n eqn:Hn. revert p Hn.
  induction n as [|n IH]; intros p Hn Ha.
  { symmetry in Hn. apply dist_zero in Hn. by destruct Ha. }
  pose proof (dist_toward p t Ha) as Hd.
  rewrite segment_unfold by done.
  destruct (toward_aligned p t Ha) as [Ht|Ha'].
  - assert (toward t p = p) as ->.
    { destruct Ha as [Ha Hne]. apply pos_neq in Hne.
      destruct p as [x y], t as [u v]; cbn in *. unfold toward in *; cbn in *.
      repeat (case_match; cbn in *); simplify_eq; f_equal; lia. }
    by rewrite Ht, !segment_self.
  - rewrite IH by (done || lia).
    assert (toward t (toward p t) = toward t p) as ->.
    { destruct Ha as [Ha Hne], Ha' as [Ha' Hne'].
      apply pos_neq in Hne, Hne'.
      destruct p as [x y], t as [u v]; cbn in *. unfold toward in *; cbn in *.
      repeat (case_match; cbn in *); simplify_eq; f_equal; lia. }
    assert (aligned p (toward t p) /\ toward p (toward t p) = toward p t) as [Hb Hc].
    { destruct Ha as [Ha Hne], Ha' as [Ha' Hne'].
      apply pos_neq in Hne, Hne'. unfold aligned.
      destruct p as [x y], t as [u v]; cbn in *. unfold toward in *; cbn in *.
      repeat (case_match; cbn in *);
        (split; [split; [lia | intros [= ??]; lia] | f_equal; lia]) || lia. }
    rewrite (segment_unfold p (toward t p)) by done. by rewrite Hc.
Qed.

(** ** The head end *)

(** [next_cell] without the wrap. *)
Definition step_cell (d : Direction) (p : Position) : Position :=
  match d with
  | Up => mkPos (px p) (py p - 1)
  | Down => mkPos (px p) (py p + 1)
  | Left => mkPos (px p - 1) (py p)
  | Right => mkPos (px p + 1) (py p)
  end.

Lemma next_cell_inside d p :
  i16_min < px p < i16_max -> i16_min < py p < i16_max ->
  next_cell d p = step_cell d p /\ pos_i16 (step_cell d p).
Proof.
  intros Hx Hy. unfold pos_i16.
  destruct d; cbn; rewrite ?wrap_i16_id; unfold_widths; split; lia || done.
Qed.

(** Direction from [q] to its aligned neighbour [p]. *)
Definition heading (p q : Position) (d : Direction) : Direction :=
  if px q <? px p then Right
  else if px p <? px q then Left
  else if py q <? py p then Down
  else if py p <? py q then Up
  else d.

Lemma push_head_cells d p1 p2 rest :
  aligned p1 p2 -> is_opposite (heading p1 p2 d) d = false ->
  let b := push_head (step_cell d p1) (p1 :: p2 :: rest) in
  cells b = step_cell d p1 :: cells (p1 :: p2 :: rest)
  /\ (chain (p2 :: rest) -> chain b)
  /\ exists q b', b = step_cell d p1 :: q :: b'
                  /\ heading (step_cell d p1) q d = d
                  /\ ((1 < dist (step_cell d p1) q)%nat \/ b' <> []).
Proof.
  intros Ha Hr b. pose proof Ha as [Hal Hne]. apply pos_neq in Hne.
  assert (Hd : dist (step_cell d p1) p1 = 1%nat) by (destruct d; unfold dist; cbn; lia).
  unfold heading in Hr. subst b. unfold push_head.
  destruct (((px (step_cell d p1) =? px p1) && (px p1 =? px p2))
            || ((py (step_cell d p1) =? py p1) && (py p1 =? py p2))) eqn:Hc.
  - assert (Ha0 : aligned (step_cell d p1) p2 /\ toward (step_cell d p1) p2 = p1).
    { destruct p1 as [x y], p2 as [u v].
      destruct d; unfold aligned, toward; cbn in *;
        repeat (case_match; cbn in *); try discriminate;
        (split; [split; [lia | intros [= ??]; lia] | f_equal; lia]) || lia. }
    destruct Ha0 as [Ha0 Ht]. split; [|split].
    + cbn [cells]. by rewrite (segment_cons _ p1).
    + intros Hch. cbn [chain]. split; [done|exact Hch].
    + eexists _, _. split; [done|]. split.
      * unfold heading.
        destruct d; cbn in *; repeat (case_match; cbn in *); try discriminate; try lia; done.
      * left. rewrite (dist_toward _ _ Ha0), Ht, (dist_toward _ _ Ha). lia.
  - split; [|split].
    + cbn [cells]. unfold segment at 1. rewrite Hd. done.
    + intros Hch. cbn [chain]. split; [|by split]. split.
      * destruct d; cbn; lia.
      * intros E. rewrite E in Hd. rewrite dist_self in Hd. discriminate.
    + eexists _, _. split; [done|]. split; [|by right]. unfold heading.
      destruct d; cbn in *; repeat (case_match; cbn in *); lia || done.
Qed.

(** ** The tail end *)

Lemma tail_step_toward b t : pos_i16 b -> pos_i16 t -> tail_step b t = toward t b.
Proof.
  intros [Hbx Hby] [Htx Hty]. unfold tail_step, toward.
  repeat case_match; rewrite ?wrap_i16_id; unfold_widths; lia || done.
Qed.

Lemma toward_i16 p q : pos_i16 p -> pos_i16 q -> pos_i16 (toward p q).
Proof.
  unfold pos_i16, toward. unfold_widths. intros.
  repeat (case_match; cbn); lia.
Qed.

Lemma pull_tail_cons p q r b :
  pull_tail (p :: q :: r :: b) = p :: pull_tail (q :: r :: b).
Proof. done. Qed.

Lemma pull_tail_head p q b :
  exists b', pull_tail (p :: q :: b) = p :: b'.
Proof. destruct b; cbn; [case_bool_decide|]; eauto. Qed.

(** Dropping the last cell, by recursion from the tail end. The first segment
    is unchanged when the body has at least three points. *)
Lemma pull_tail_cells b :
  wf_body b -> cells b = cells (pull_tail b) ++ [default (mkPos 0 0) (last b)].
Proof.
  intros [Hl Hc Hi]. induction b as [|p b IH]; [cbn in Hl; lia|].
  destruct b as [|q b]; [cbn in Hl; lia|].
  apply Forall_cons in Hi as [Hp Hi]. pose proof Hi as [Hq _]%Forall_cons.
  destruct Hc as [Ha Hc]. destruct b as [|r b].
  - cbn [pull_tail last default]. rewrite tail_step_toward by done.
    cbn [cells]. rewrite segment_snoc by done.
    case_bool_decide as E; cbn [cells app].
    + by rewrite E, segment_self.
    + done.
  - rewrite pull_tail_cons. destruct (pull_tail_head q r b) as [b' Hb].
    specialize (IH ltac:(cbn; lia) Hc Hi). rewrite Hb in *.
    cbn [cells] in *. rewrite last_cons_cons.
    change (cells (q :: r :: b)) with (segment q r ++ cells (r :: b)) in *.
    by rewrite IH, app_assoc.
Qed.

Lemma pull_tail_chain b :
  chain b -> Forall pos_i16 b ->
  chain (pull_tail b) /\ Forall pos_i16 (pull_tail b).
Proof.
  induction b as [|p b IH]; [done|]. intros Hc Hi.
  destruct b as [|q b]; [done|].
  pose proof Hi as [Hp Hi']%Forall_cons. pose proof Hi' as [Hq _]%Forall_cons.
  destruct Hc as [Ha Hc]. destruct b as [|r b].
  - cbn [pull_tail]. rewrite tail_step_toward by done.
    assert (Hq' : aligned q p) by (destruct Ha; split; [lia | congruence]).
    case_bool_decide as E; [by auto using Forall_nil, Forall_cons_2|].
    split; [|auto using Forall_nil, Forall_cons_2, toward_i16].
    split; [|done]. destruct (toward_aligned q p Hq') as [|[??]]; [done|].
    split; [lia | congruence].
  - rewrite pull_tail_cons. destruct (pull_tail_head q r b) as [b' Hb].
    destruct (IH Hc Hi') as [Hc' Hf]. rewrite Hb in *.
    split; [by split | by apply Forall_cons].
Qed.

(** The first segment survives, unless the whole body is that segment, which
    then keeps its axis and orientation. *)
Lemma pull_tail_two p q b d :
  wf_body (p :: q :: b) -> (1 < dist p q)%nat \/ b <> [] ->
  exists q' b', pull_tail (p :: q :: b) = p :: q' :: b'
                /\ heading p q' d = heading p q d.
Proof.
  intros [_ Hc Hi] H. destruct b as [|r b].
  - destruct H as [H|]; [|done].
    apply Forall_cons in Hi as [Hp Hi]. apply Forall_cons in Hi as [Hq _].
    destruct Hc as [[Ha Hne] _]. apply pos_neq in Hne.
    cbn [pull_tail]. rewrite tail_step_toward by done.
    destruct p as [x y], q as [u v]; unfold dist, heading, toward in *; cbn in *.
    case_bool_decide as E; repeat (case_match; cbn in *); simplify_eq; try lia;
      eexists _, _; split; try done; cbn; repeat case_match; done || lia.
  - rewrite pull_tail_cons. destruct (pull_tail_head q r b) as [b' ->]. eauto.
Qed.

(** ** One movement step *)

Lemma cells_nonempty b : b <> [] -> cells b <> [].
Proof.
  induction b as [|p b IH]; [done|]. intros _. destruct b as [|q b]; [done|].
  cbn [cells]. intros [_ H]%app_eq_nil. by apply IH.
Qed.

(** A wf body has its head as first cell. *)
Lemma cells_head p b : chain (p :: b) -> exists cs, cells (p :: b) = p :: cs.
Proof.
  destruct b as [|q b]; [by eexists|]. intros [Ha _]. cbn [cells].
  rewrite segment_unfold by done. by eexists.
Qed.

Lemma removelast_snoc {A} (l : list A) x : removelast (l ++ [x]) = l.
Proof. apply removelast_last. Qed.

Lemma step_forward_unfold s p1 p2 rest :
  is_alive s = true -> body s = p1 :: p2 :: rest ->
  let p0 := next_cell (direction s) p1 in
  step_forward s =
  if 0 <? sn_food s
  then set_sn_food (sn_food s - 1) (set_body (push_head p0 (body s)) s)
  else set_body (pull_tail (push_head p0 (body s))) (set_body (push_head p0 (body s)) s).
Proof.
  intros Ha Hb p0. unfold step_forward, vec_len. rewrite Ha, Hb. cbn [negb orb length].
  rewrite (proj2 (Z.ltb_ge _ _)) by lia. done.
Qed.

(** A step in the pending direction adds the new head cell, removes the last
    cell unless growth is queued, and keeps the body well formed. *)
Lemma step_forward_cells s h :
  is_alive s = true -> wf_body (body s) -> no_reversal s -> head_inside s ->
  hd_error (body s) = Some h ->
  cells (body (step_forward s))
    = cells_step (0 <? sn_food s) (step_cell (direction s) h) (cells (body s))
  /\ wf_body (body (step_forward s))
  /\ hd_error (body (step_forward s)) = Some (step_cell (direction s) h)
  /\ travel_direction (step_forward s) = direction s.
Proof.
  intros Hal Hwf Hnr Hin Hh. pose proof Hwf as [Htwo Hch Hi16].
  destruct (body s) as [|p1 [|p2 rest]] eqn:Hb; cbn in Htwo; [lia..|].
  injection Hh as <-. rewrite (step_forward_unfold s p1 p2 rest Hal Hb). rewrite Hb.
  unfold head_inside in Hin. rewrite Hb in Hin.
  destruct (next_cell_inside (direction s) p1 (proj1 Hin) (proj2 Hin)) as [-> Hp0].
  destruct Hch as [Ha Hch].
  assert (Hr : is_opposite (heading p1 p2 (direction s)) (direction s) = false).
  { unfold no_reversal, travel_direction in Hnr. rewrite Hb in Hnr. exact Hnr. }
  destruct (push_head_cells (direction s) p1 p2 rest Ha Hr)
    as (Hcells & Hchain & q & b' & Hpb & Hhd & Hlen).
  specialize (Hchain Hch).
  assert (Hwf' : wf_body (push_head (step_cell (direction s) p1) (p1 :: p2 :: rest))).
  { split; [rewrite Hpb; cbn; lia | done |]. unfold push_head.
    case_match; repeat (apply Forall_cons in Hi16 as [? Hi16]);
      auto using Forall_cons_2. }
  unfold cells_step. destruct (0 <? sn_food s); cbn [body set_sn_food set_body].
  - split; [done|]. split; [done|]. rewrite Hpb. split; [done|].
    unfold travel_direction. cbn [body direction set_sn_food set_body]. exact Hhd.
  - pose proof (pull_tail_cells _ Hwf') as Hpt. rewrite Hcells in Hpt.
    rewrite Hpb in *.
    destruct (pull_tail_two _ _ _ (direction s) Hwf' Hlen) as (q' & b'' & Hpt2 & Hh2).
    pose proof (pull_tail_chain _ Hchain (wf_i16 _ Hwf')) as [Hc' Hi'].
    rewrite Hpt2 in *. split; [|split; [|split]].
    + apply (f_equal (@removelast _)) in Hpt. rewrite removelast_snoc in Hpt.
      rewrite <- Hpt. destruct (cells (p1 :: p2 :: rest)) eqn:E; [|done].
      by apply cells_nonempty in E.
    + split; [cbn; lia | done | done].
    + done.
    + unfold travel_direction. cbn [body direction set_body].
      change (heading (step_cell (direction s) p1) q' (direction s) = direction s).
      by rewrite Hh2.
Qed.

(** ** Membership and length *)

Lemma segment_length p q : length (segment p q) = dist p q.
Proof.
  unfold segment. generalize (dist p q). intros n. revert p.
  induction n as [|n IH]; intros p; cbn; [done|]. by rewrite IH.
Qed.

Lemma is_between_segment x p q :
  aligned p q -> is_between x p q = true <-> x ∈ segment p q \/ x = q.
Proof.
  remember (dist p q) as n eqn:Hn. revert p Hn.
  induction n as [|n IH]; intros p Hn Ha.
  { symmetry in Hn. apply dist_zero in Hn. by destruct Ha. }
  pose proof (dist_toward p q Ha) as Hd. rewrite segment_unfold by done.
  rewrite elem_of_cons.
  assert (Hstep : is_between x p q = true <->
                  x = p \/ is_between x (toward p q) q = true).
  { clear IH. destruct Ha as [Hal Hne]. apply pos_neq in Hne.
    destruct p as [a b], q as [c d], x as [u v].
    assert (mkPos u v = mkPos a b <-> u = a /\ v = b) as ->.
    { split; [by intros [= -> ->] | by intros [-> ->]]. }
    unfold is_between, toward; cbn in *. repeat (case_match; cbn in *); lia. }
  rewrite Hstep. destruct (toward_aligned p q Ha) as [Ht|Ha'].
  - rewrite Ht, segment_self. unfold is_between.
    assert (is_between x q q = true <-> x = q) as Hq.
    { unfold is_between. split; [intros; apply pos_eq; lia | intros ->; lia]. }
    unfold is_between in Hq. rewrite Hq, elem_of_nil. tauto.
  - rewrite IH by (done || lia). tauto.
Qed.

(** The pairs [contains_point] scans, with their index from [i]. *)
Lemma contains_scan x skip b i :
  chain b -> 0 < i ->
  existsb (fun '(idx, (p1, p2)) =>
      if skip && (idx =? 0) && bool_decide (p1 = x) then false
      else is_between x p1 p2) (enumerate_from i (zip b (drop 1 b))) = true
  <-> (2 <= length b)%nat /\ x ∈ cells b.
Proof.
  revert i. induction b as [|p b IH]; intros i Hc Hi; [cbn; split; [done|intros [??]; lia]|].
  destruct b as [|q b]; [cbn; split; [done|intros [??]; lia]|].
  destruct Hc as [Ha Hc]. cbn [drop zip zip_with enumerate_from existsb].
  rewrite (proj2 (Z.eqb_neq i 0)) by lia. rewrite andb_false_r. cbn [andb].
  rewrite orb_true_iff, is_between_segment by done.
  specialize (IH (i + 1) Hc ltac:(lia)).
  change (zip (q :: b) b) with (zip (q :: b) (drop 1 (q :: b))). rewrite IH.
  cbn [cells]. rewrite elem_of_app. cbn [length].
  assert (q ∈ cells (q :: b)).
  { destruct (cells_head q b Hc) as [cs ->]. by left. }
  destruct b as [|r b]; cbn [length].
  - cbn [cells] in *. rewrite list_elem_of_singleton in *.
    split; [intros [?|[??]]; [auto with lia|lia] | tauto].
  - split; [intros [[?| ->]|[??]]; auto with lia | intros [_ [?|?]]; auto with lia].
Qed.

(** [contains_point] without [skip_head] is membership in the cells. *)
Lemma contains_point_cells s x :
  wf_body (body s) -> contains_point s x false = true <-> x ∈ cells (body s).
Proof.
  intros [H2 Hc _]. unfold contains_point, iter_body, enumerate.
  destruct (body s) as [|p [|q b]]; cbn in H2; [lia..|].
  destruct Hc as [Ha Hc]. cbn [drop zip zip_with enumerate_from existsb andb].
  rewrite orb_true_iff, is_between_segment by done.
  pose proof (contains_scan x false (q :: b) 1 Hc ltac:(lia)) as Hs.
  change (zip (q :: b) b) with (zip (q :: b) (drop 1 (q :: b))).
  cbn [andb] in Hs. rewrite Hs. cbn [cells]. rewrite elem_of_app.
  assert (q ∈ cells (q :: b)).
  { destruct (cells_head q b Hc) as [cs ->]. by left. }
  destruct b as [|r b]; cbn [length].
  - cbn [cells] in *. rewrite list_elem_of_singleton in *.
    split; [intros [?|[??]]; [done|lia] | tauto].
  - split; [intros [[?| ->]|[??]]; auto | intros [?|?]; auto with lia].
Qed.

(** The start of a segment does not occur again in it. *)
Lemma segment_start_fresh p q : aligned p q -> p ∉ segment (toward p q) q.
Proof.
  intros Ha Hin. destruct (toward_aligned p q Ha) as [Ht|Ha'].
  { rewrite Ht, segment_self in Hin. by apply elem_of_nil in Hin. }
  assert (Hb : is_between p (toward p q) q = true)
    by (apply is_between_segment; [done | by left]).
  destruct Ha as [Hal Hne]. apply pos_neq in Hne. revert Hb.
  unfold is_between, toward. repeat (case_match; cbn [px py] in *); lia.
Qed.

(** With [skip_head] the head itself is not counted: what is left is
    membership in the cells behind it. *)
Lemma contains_point_skip_cells s x :
  wf_body (body s) ->
  contains_point s x true = true <-> x ∈ tail (cells (body s)).
Proof.
  intros [H2 Hc _]. unfold contains_point, iter_body, enumerate.
  destruct (body s) as [|p [|q b]]; cbn in H2; [lia..|].
  destruct Hc as [Ha Hc]. cbn [drop zip zip_with enumerate_from existsb andb].
  rewrite orb_true_iff.
  pose proof (contains_scan x true (q :: b) 1 Hc ltac:(lia)) as Hs.
  change (zip (q :: b) b) with (zip (q :: b) (drop 1 (q :: b))).
  cbn [andb] in Hs. rewrite Hs. cbn [cells]. rewrite segment_unfold by done.
  cbn [app tail]. rewrite elem_of_app. cbn [Z.eqb].
  assert (Hq : q ∈ cells (q :: b)).
  { destruct (cells_head q b Hc) as [cs ->]. by left. }
  assert (Hseg : (if bool_decide (p = x) then false else is_between x p q) = true
                 <-> x ∈ segment (toward p q) q \/ (x = q /\ x <> p)).
  { case_bool_decide as E.
    - subst. pose proof (segment_start_fresh x q Ha). intuition done.
    - rewrite is_between_segment, segment_unfold, elem_of_cons by done.
      intuition congruence. }
  rewrite Hseg. destruct b as [|r b]; cbn [length].
  - cbn [cells] in *. rewrite list_elem_of_singleton in *. destruct Ha as [_ Hne].
    split; [intros [[?|[??]]|[??]]; auto with lia | intros [?| ->]; auto].
  - split; [intros [[?|[-> ?]]|[??]]; auto | intros [?|?]; auto with lia].
Qed.

(** Coordinates whose differences fit in [i16]. *)
Definition small_pos (p : Position) : Prop :=
  -1 <= px p < i16_max /\ -1 <= py p < i16_max.

Lemma segment_distance_dist p q :
  small_pos p -> small_pos q -> aligned p q ->
  segment_distance p q = Z.of_nat (dist p q).
Proof.
  unfold small_pos. unfold_widths. intros Hp Hq [Ha _].
  unfold segment_distance, dist.
  rewrite (wrap_i16_id (px q - px p)), (wrap_i16_id (py q - py p)),
    (wrap_i16_id (Z.abs (px q - px p))), (wrap_i16_id (Z.abs (py q - py p))),
    wrap_i16_id by (unfold_widths; lia).
  unfold wrap_u64. rewrite Z.mod_small; lia.
Qed.

Lemma length_scan b acc :
  chain b -> Forall small_pos b -> b <> [] -> 0 <= acc ->
  acc + Z.of_nat (length (cells b)) <= u64_max ->
  foldl (fun acc '(p1, p2) => wrap_u64 (acc + segment_distance p1 p2)) acc
    (zip b (drop 1 b)) + 1 = acc + Z.of_nat (length (cells b)).
Proof.
  revert acc. induction b as [|p b IH]; intros acc Hc Hs Hne H0 Hb; [done|].
  destruct b as [|q b]; [cbn in *; lia|].
  destruct Hc as [Ha Hc]. apply Forall_cons in Hs as [Hp Hs].
  pose proof Hs as [Hq _]%Forall_cons.
  cbn [drop zip zip_with foldl cells] in *.
  change (zip (q :: b) b) with (zip (q :: b) (drop 1 (q :: b))).
  rewrite length_app, segment_length in *.
  rewrite segment_distance_dist by done.
  rewrite wrap_u64_id by (unfold_widths; lia).
  rewrite IH; try done; lia.
Qed.

(** [length] counts the occupied cells. *)
Lemma snake_length_cells s :
  wf_body (body s) -> Forall small_pos (body s) ->
  Z.of_nat (length (cells (body s))) <= u64_max ->
  snake_length s = Z.of_nat (length (cells (body s))).
Proof.
  intros [H2 Hc _] Hs Hb. unfold snake_length, vec_len, iter_body.
  rewrite (proj2 (Z.ltb_ge _ _)) by lia.
  assert (body s <> []) by (destruct (body s); cbn in H2; [lia|done]).
  rewrite length_scan by (done || lia). apply wrap_u64_id. unfold_widths. lia.
Qed.

Lemma cells_step_length s h :
  is_alive s = true -> wf_body (body s) -> no_reversal s -> head_inside s ->
  hd_error (body s) = Some h ->
  Z.of_nat (length (cells (body (step_forward s)))) + sn_food (step_forward s)
  = Z.of_nat (length (cells (body s))) + sn_food s \/ sn_food s < 0.
Proof.
  intros Hal Hwf Hnr Hin Hh.
  destruct (step_forward_cells s h Hal Hwf Hnr Hin Hh) as [Hc _]. rewrite Hc.
  destruct Hwf as [H2 _ _].
  destruct (body s) as [|p1 [|p2 rest]] eqn:Hb; cbn in H2; [lia..|].
  rewrite (step_forward_unfold s p1 p2 rest Hal Hb). unfold cells_step.
  destruct (Z.ltb_spec 0 (sn_food s)); cbn [sn_food set_sn_food set_body length].
  - left. lia.
  - destruct (Z.lt_ge_cases (sn_food s) 0); [by right|left].
    assert (Hne : cells (p1 :: p2 :: rest) <> []) by (by apply cells_nonempty).
    destruct (exists_last Hne) as (cs & x & ->).
    rewrite removelast_snoc, length_app. cbn. lia.
Qed.
