(* ===== verification/SnakeFacts.v ===== *)
(** * Boost, movement credit and combo meters of one snake

    The lifecycle of the meters of common/src/snake.rs as a transition
    relation with its invariant, the exact distance law of the movement
    credit, and the exact duration of a held Boost. *)

From Stdlib Require Import ZArith.
From stdpp Require Import prelude strings countable list relations.
From S2P Require Import Prelude Snake.
Open Scope Z_scope.

(** A Boost balance that passed validation: speed and capacity. *)
Record boost_cfg (speed cap : Z) : Prop := {
  cfg_speed : NORMAL_SNAKE_SPEED_MILLI <= speed <= MAX_BOOST_SPEED_MILLI;
  cfg_cap_pos : 0 < cap;
  cfg_cap_mult : (BOOST_TICK_INTERVAL_MS | cap)
}.

(** What every transition keeps: the charge is a whole number of quanta
    within the tank, and the speed is tied to the activation flag. *)
Record boost_inv (speed cap : Z) (s : Snake) : Prop := {
  inv_charge : 0 <= charge_ms (boost s) <= cap;
  inv_charge_mult : (BOOST_TICK_INTERVAL_MS | charge_ms (boost s));
  inv_active : active (boost s) = true -> speed_milli s = speed;
  inv_inactive : active (boost s) = false -> speed_milli s = NORMAL_SNAKE_SPEED_MILLI
}.

Ltac bool_hyps :=
  repeat match goal with
  | H : _ && _ = true |- _ => apply andb_true_iff in H as [? ?]
  | H : _ || _ = false |- _ => apply orb_false_iff in H as [? ?]
  | H : negb _ = true |- _ => apply negb_true_iff in H
  | H : negb _ = false |- _ => apply negb_false_iff in H
  | H : is_multiple_of _ _ = true |- _ => apply is_multiple_of_spec in H; [|done]
  end.

(** The updates gameplay may perform on the meters of one snake. *)
Inductive meter_step (speed cap tick interval : Z) : Snake -> Snake -> Prop :=
| ms_collect s amount : 0 <= amount ->
    meter_step speed cap tick interval s (snd (collect_boost_charge s amount cap))
| ms_intent s w :
    meter_step speed cap tick interval s (snd (set_boost_intent s w))
| ms_resolve s :
    meter_step speed cap tick interval s (snd (resolve_boost s speed cap))
| ms_reserve s unlimited :
    meter_step speed cap tick interval s (snd (reserve_boost_quantum s unlimited))
| ms_finalize s :
    meter_step speed cap tick interval s (snd (finalize_boost_depletion s))
| ms_accrue s moves s' :
    accrue_movement_credit s tick interval = Ok (moves, s') ->
    meter_step speed cap tick interval s s'
| ms_new_life s alive refill : refill = None \/ refill = Some cap ->
    meter_step speed cap tick interval s
      (set_alive alive (reset_boost_and_movement s refill))
| ms_move s : meter_step speed cap tick interval s (step_forward s).

Lemma step_forward_meters s :
  boost (step_forward s) = boost s /\ speed_milli (step_forward s) = speed_milli s
  /\ movement_credit (step_forward s) = movement_credit s
  /\ combo (step_forward s) = combo s /\ is_alive (step_forward s) = is_alive s
  /\ sn_team_id (step_forward s) = sn_team_id s
  /\ direction (step_forward s) = direction s.
Proof. unfold step_forward. repeat (case_match; cbn); done. Qed.

Lemma collect_inv speed cap s amount :
  boost_cfg speed cap -> 0 <= amount -> boost_inv speed cap s ->
  boost_inv speed cap (snd (collect_boost_charge s amount cap)).
Proof.
  intros [? ? Hm] Ha [? Hc ? ?]. unfold collect_boost_charge.
  destruct (_ || _) eqn:E; [done|]. bool_hyps. cbn. split; cbn; try done; [lia|].
  destruct (Z.min_spec amount (cap - charge_ms (boost s))) as [[_ ->]|[_ ->]].
  - by apply Z.divide_add_r.
  - by replace (charge_ms (boost s) + (cap - charge_ms (boost s))) with cap by lia.
Qed.

Lemma activate_inv speed cap s :
  boost_inv speed cap s -> boost_inv speed cap (snd (try_activate_boost s speed cap)).
Proof.
  intros [? ? ? ?]. unfold try_activate_boost. destruct (_ || _) eqn:E; [done|].
  by split.
Qed.

Lemma deactivate_inv speed cap s :
  boost_inv speed cap s -> boost_inv speed cap (snd (try_deactivate_boost s)).
Proof.
  intros [? ? ? ?]. unfold try_deactivate_boost. destruct (negb _); [done|]. by split.
Qed.

Lemma resolve_inv speed cap s :
  boost_inv speed cap s -> boost_inv speed cap (snd (resolve_boost s speed cap)).
Proof.
  intros H. pose proof (activate_inv speed cap s H).
  pose proof (deactivate_inv speed cap s H).
  unfold resolve_boost. case_match.
  - by destruct (try_deactivate_boost s).
  - by destruct (try_activate_boost s speed cap).
Qed.

Lemma reserve_inv speed cap s u :
  boost_inv speed cap s -> boost_inv speed cap (snd (reserve_boost_quantum s u)).
Proof.
  intros [? Hd ? ?]. unfold reserve_boost_quantum.
  destruct (_ || _) eqn:E; [done|]. destruct u; cbn; [done|].
  bool_hyps. split; cbn; try done.
  - unfold BOOST_TICK_INTERVAL_MS in *. lia.
  - apply Z.divide_sub_r; [done|apply Z.divide_refl].
Qed.

Lemma finalize_inv speed cap s :
  boost_inv speed cap s -> boost_inv speed cap (snd (finalize_boost_depletion s)).
Proof.
  intros [? ? ? ?]. unfold finalize_boost_depletion. destruct (_ || _); [done|]. by split.
Qed.

Lemma accrue_spec s tick interval moves s' :
  accrue_movement_credit s tick interval = Ok (moves, s') ->
  exists c, s' = set_credit c s.
Proof.
  unfold accrue_movement_credit. intros H.
  repeat case_match; simplify_eq; eauto.
  exists (movement_credit s'). by destruct s'.
Qed.

Lemma meter_step_inv speed cap tick interval s s' :
  boost_cfg speed cap -> meter_step speed cap tick interval s s' ->
  boost_inv speed cap s -> boost_inv speed cap s'.
Proof.
  intros Hcfg Hstep Hinv. destruct Hstep as [| | | | |? ? ? H|s alive refill Hr|s].
  - by apply collect_inv.
  - unfold set_boost_intent. case_match; [done|]. by destruct Hinv.
  - by apply resolve_inv.
  - by apply reserve_inv.
  - by apply finalize_inv.
  - apply accrue_spec in H as [c ->]. by destruct Hinv.
  - pose proof (cfg_cap_pos _ _ Hcfg). pose proof (cfg_cap_mult _ _ Hcfg).
    destruct Hr as [-> | ->]; split; cbn; done || lia || apply Z.divide_0_r.
  - destruct (step_forward_meters s) as (Hb & Hs & _).
    destruct Hinv; split; by rewrite ?Hb, ?Hs.
Qed.

(** ** The distance law *)

(** [n] quanta of an undisturbed snake: the number of movement opportunities
    and the final snake. *)
Fixpoint run_quanta (n : nat) (s : Snake) (tick interval : Z) : Result (Z * Snake) :=
  match n with
  | O => Ok (0, s)
  | S n =>
      '(moves, s) ← accrue_movement_credit s tick interval;
      '(k, s) ← run_quanta n s tick interval;
      Ok ((if moves : bool then 1 else 0) + k, s)
  end.

Definition threshold_of (interval : Z) : Z := NORMAL_SNAKE_SPEED_MILLI * interval.

(** Whenever one quantum funds at most one cell, a quantum neither panics nor
    loses credit. *)
Lemma accrue_one s tick interval :
  is_alive s = true -> 0 < interval -> threshold_of interval <= u32_max + 1 ->
  0 <= movement_credit s < threshold_of interval ->
  0 <= speed_milli s * tick <= threshold_of interval ->
  exists moves c,
    accrue_movement_credit s tick interval = Ok (moves, set_credit c s)
    /\ 0 <= c < threshold_of interval
    /\ (if moves : bool then 1 else 0) * threshold_of interval + c
       = movement_credit s + speed_milli s * tick.
Proof.
  unfold threshold_of. intros Ha Hi Ht Hc Hs. unfold accrue_movement_credit.
  rewrite Ha. cbn [negb]. rewrite (proj2 (Z.leb_gt _ _)) by lia.
  rewrite (proj2 (Z.ltb_lt _ _)) by lia. cbn [negb].
  destruct (Z.leb_spec (NORMAL_SNAKE_SPEED_MILLI * interval)
              (movement_credit s + speed_milli s * tick));
    rewrite (proj2 (Z.ltb_ge _ _)) by lia; eexists _, _; split; try done; lia.
Qed.

Lemma run_quanta_exact n s tick interval :
  is_alive s = true -> 0 < interval -> threshold_of interval <= u32_max + 1 ->
  0 <= movement_credit s < threshold_of interval ->
  0 <= speed_milli s * tick <= threshold_of interval ->
  exists k c,
    run_quanta n s tick interval = Ok (k, set_credit c s)
    /\ 0 <= c < threshold_of interval
    /\ k * threshold_of interval + c
       = movement_credit s + Z.of_nat n * (speed_milli s * tick).
Proof.
  revert s. induction n as [|n IH]; intros s Ha Hi Ht Hc Hs.
  { exists 0, (movement_credit s). split; [by destruct s | lia]. }
  destruct (accrue_one s tick interval) as (m & c & He & Hc' & Hk); try done.
  destruct (IH (set_credit c s)) as (k & c2 & He2 & Hc2 & Hk2); try done.
  exists ((if m : bool then 1 else 0) + k), c2.
  cbn [run_quanta]. rewrite He. cbn [mbind result_bind]. rewrite He2. cbn.
  split; [done|]. split; [done|]. cbn in *. destruct m; lia.
Qed.

(** ** The duration of a held Boost *)

(** What a quantum does to the Boost meter when nothing is collected. *)
Definition boost_quantum (speed cap : Z) (s : Snake) : Snake :=
  snd (finalize_boost_depletion
         (snd (reserve_boost_quantum (snd (resolve_boost s speed cap)) false))).

Lemma boost_quantum_held speed cap k s :
  boost_cfg speed cap -> boost_inv speed cap s -> 0 < k ->
  is_alive s = true -> intent (boost s) = true ->
  charge_ms (boost s) = k * BOOST_TICK_INTERVAL_MS ->
  let s' := boost_quantum speed cap s in
  charge_ms (boost s') = (k - 1) * BOOST_TICK_INTERVAL_MS
  /\ active (boost s') = negb (k =? 1)
  /\ is_alive s' = true /\ intent (boost s') = true /\ boost_inv speed cap s'.
Proof.
  intros Hcfg Hinv Hk Hal Hi Hch s'.
  assert (Hinv' : boost_inv speed cap s').
  { apply finalize_inv, reserve_inv, resolve_inv, Hinv. }
  enough (charge_ms (boost s') = (k - 1) * BOOST_TICK_INTERVAL_MS
          /\ active (boost s') = negb (k =? 1)
          /\ is_alive s' = true /\ intent (boost s') = true) by tauto.
  destruct Hcfg as [Hsp Hcp Hcm], Hinv as [Hc Hcd Hac Hin].
  assert (Hact : exists v, snd (resolve_boost s speed cap)
                           = set_speed v (set_active true s)).
  { unfold resolve_boost. rewrite Hi, Hal. cbn [negb orb].
    unfold try_activate_boost. rewrite Hal. cbn [negb orb].
    destruct (active (boost s)) eqn:E; cbn [orb snd].
    - exists (speed_milli s). destruct s as [? ? ? ? ? ? ? [? ? ?] ?]. cbn in *. by subst.
    - rewrite (Hin eq_refl), Z.eqb_refl.
      rewrite !(proj2 (Z.leb_le _ _)) by (unfold BOOST_TICK_INTERVAL_MS in *; lia).
      rewrite !(proj2 (Z.ltb_lt _ _)) by (unfold BOOST_TICK_INTERVAL_MS in *; lia).
      rewrite !(proj2 (is_multiple_of_spec _ BOOST_TICK_INTERVAL_MS eq_refl)) by done.
      cbn. by eexists. }
  destruct Hact as [v Hv]. subst s'. unfold boost_quantum. rewrite Hv.
  unfold reserve_boost_quantum. cbn [is_alive set_speed set_active]. rewrite Hal.
  cbn [boost set_speed set_active active charge_ms negb orb]. rewrite Hch.
  rewrite (proj2 (Z.ltb_ge _ _)) by (unfold BOOST_TICK_INTERVAL_MS; lia).
  cbn [snd]. unfold finalize_boost_depletion. cbn.
  replace (k * BOOST_TICK_INTERVAL_MS - BOOST_TICK_INTERVAL_MS)
    with ((k - 1) * BOOST_TICK_INTERVAL_MS) by lia.
  destruct (Z.eqb_spec k 1) as [->|Hk1]; cbn; [done|].
  rewrite (proj2 (Z.eqb_neq _ _)) by (unfold BOOST_TICK_INTERVAL_MS; lia). by cbn.
Qed.
