(* ===== verification/SnakeTheorems.v ===== *)
(** * Theorems on one snake and on the generator

    Movement, occupancy and length against the list of cells; the meters; the
    pseudorandom word. *)

From Stdlib Require Import ZArith.
From stdpp Require Import prelude strings countable list relations.
From S2P Require Import Prelude RustFloat Util Snake SnakeBody SnakeFacts.
Open Scope Z_scope.

(** An L-shaped snake of seven cells: head at (5, 3), turn at (5, 6), tail
    end at (2, 6). *)
Definition sample_body : list Position := [mkPos 5 3; mkPos 5 6; mkPos 2 6].
Definition sample_snake (food : Z) : Snake := Snake_new sample_body Up true food None.

Lemma sample_wf : wf_body sample_body.
Proof.
  split; [cbn; lia| |].
  - cbn. unfold aligned. cbn. repeat split; auto; done.
  - repeat constructor; unfold i16_min, i16_max; cbn; lia.
Qed.

(** C14. One call of [step_forward] on a living snake is one step of the
    cells it occupies: the next cell in its direction becomes the head, and
    the last cell is dropped exactly when no food is pending; the compressed
    body stays well formed and the travel direction becomes the direction. *)
Theorem step_forward_refines_cells s h :
  is_alive s = true -> wf_body (body s) -> no_reversal s -> head_inside s ->
  hd_error (body s) = Some h ->
  cells (body (step_forward s))
    = cells_step (0 <? sn_food s) (step_cell (direction s) h) (cells (body s))
  /\ wf_body (body (step_forward s))
  /\ travel_direction (step_forward s) = direction s.
Proof.
  intros Ha Hw Hn Hi Hh. destruct (step_forward_cells s h Ha Hw Hn Hi Hh) as (? & ? & ? & ?).
  done.
Qed.

Lemma step_forward_refines_cells_witness :
  cells (body (step_forward (sample_snake 0)))
  = [mkPos 5 2; mkPos 5 3; mkPos 5 4; mkPos 5 5; mkPos 5 6; mkPos 4 6; mkPos 3 6].
Proof.
  destruct (step_forward_refines_cells (sample_snake 0) (mkPos 5 3)) as [E _].
  - reflexivity.
  - exact sample_wf.
  - reflexivity.
  - unfold head_inside, i16_min, i16_max. cbn. lia.
  - reflexivity.
  - rewrite E. vm_compute. reflexivity.
Defined.

(** [contains_point] is membership in the occupied cells, and skipping the
    head is membership in the cells behind it. *)
Theorem contains_point_is_membership s x :
  wf_body (body s) ->
  (contains_point s x false = true <-> x ∈ cells (body s))
  /\ (contains_point s x true = true <-> x ∈ tail (cells (body s))).
Proof.
  intros Hw. split; [by apply contains_point_cells|by apply contains_point_skip_cells].
Qed.

Lemma contains_point_is_membership_witness :
  mkPos 3 6 ∈ cells (body (sample_snake 2)) /\ mkPos 5 3 ∉ tail (cells (body (sample_snake 2))).
Proof.
  destruct (contains_point_is_membership (sample_snake 2) (mkPos 3 6) sample_wf) as [H1 _].
  destruct (contains_point_is_membership (sample_snake 2) (mkPos 5 3) sample_wf) as [_ H2].
  split; [apply H1; reflexivity|]. intros Hin. apply H2 in Hin. vm_compute in Hin. discriminate.
Defined.

(** [length] counts the occupied cells, and a step keeps the number of
    cells plus the pending food: what a snake is worth does not change by
    moving. *)
Theorem length_and_growth s h :
  is_alive s = true -> wf_body (body s) -> no_reversal s -> head_inside s ->
  hd_error (body s) = Some h -> 0 <= sn_food s ->
  Forall small_pos (body s) -> Z.of_nat (length (cells (body s))) <= u64_max ->
  snake_length s = Z.of_nat (length (cells (body s)))
  /\ Z.of_nat (length (cells (body (step_forward s)))) + sn_food (step_forward s)
     = snake_length s + sn_food s.
Proof.
  intros Ha Hw Hn Hi Hh Hf Hs Hl. rewrite snake_length_cells by done. split; [done|].
  destruct (cells_step_length s h Ha Hw Hn Hi Hh) as [E|E]; [done|lia].
Qed.

Lemma length_and_growth_witness :
  snake_length (sample_snake 2) = 7
  /\ Z.of_nat (length (cells (body (step_forward (sample_snake 2)))))
     + sn_food (step_forward (sample_snake 2)) = 9.
Proof.
  destruct (length_and_growth (sample_snake 2) (mkPos 5 3)) as [_ E].
  - reflexivity.
  - exact sample_wf.
  - reflexivity.
  - unfold head_inside, i16_min, i16_max. cbn. lia.
  - reflexivity.
  - cbn. lia.
  - repeat constructor; unfold i16_max; cbn; lia.
  - vm_compute. discriminate.
  - split; [vm_compute; reflexivity|]. rewrite E. vm_compute. reflexivity.
Defined.

(** A quantum of Boost is paid in full: it is granted to a living snake that boosts
    on a charge above zero, takes one quantum from the charge, and a Boost that
    outlives the end of the quantum has a charge for the next one. *)
Lemma quanta_are_paid speed cap s :
  boost_inv speed cap s ->
  (let '(granted, s') := reserve_boost_quantum s false in
   (granted = true <-> is_alive s = true /\ active (boost s) = true /\ 0 < charge_ms (boost s))
   /\ charge_ms (boost s) = charge_ms (boost s') + (if granted then BOOST_TICK_INTERVAL_MS else 0))
  /\ (let s' := snd (finalize_boost_depletion s) in
      active (boost s') = true -> BOOST_TICK_INTERVAL_MS <= charge_ms (boost s')).
Proof.
  intros [Hc [q Hq] _ _].
  assert (Hpos : 0 < charge_ms (boost s) <-> BOOST_TICK_INTERVAL_MS <= charge_ms (boost s))
    by (unfold BOOST_TICK_INTERVAL_MS in *; lia).
  unfold reserve_boost_quantum, finalize_boost_depletion.
  destruct (is_alive s), (active (boost s)) eqn:Ea; cbn;
    destruct (Z.ltb_spec (charge_ms (boost s)) BOOST_TICK_INTERVAL_MS),
      (Z.eqb_spec (charge_ms (boost s)) 0); cbn; rewrite ?Ea, ?Hpos;
    (split; [split; [|lia]; split; [done || lia|]; intros (? & ? & ?); done || lia|]; done || lia).
Qed.


Lemma default_cfg : boost_cfg DEFAULT_BOOST_SPEED_MILLI DEFAULT_BOOST_CAPACITY_MS.
Proof. split; [by split|done|by exists 60]. Qed.

Lemma fresh_inv s :
  boost s = SnakeBoost_default -> speed_milli s = NORMAL_SNAKE_SPEED_MILLI ->
  boost_inv DEFAULT_BOOST_SPEED_MILLI DEFAULT_BOOST_CAPACITY_MS s.
Proof.
  intros Eb Es. split; rewrite ?Eb, ?Es; [by split|by exists 0|done|done].
Qed.


(** The distance law: [n] undisturbed quanta at a fixed speed never
    panic, and the cells they fund plus the credit left over are exactly the
    credit accrued. No distance is lost or invented by the quantisation. *)
Theorem distance_law n s tick interval :
  is_alive s = true -> 0 < interval -> threshold_of interval <= u32_max + 1 ->
  0 <= movement_credit s < threshold_of interval ->
  0 <= speed_milli s * tick <= threshold_of interval ->
  exists k c,
    run_quanta n s tick interval = Ok (k, set_credit c s)
    /\ 0 <= c < threshold_of interval
    /\ k = (movement_credit s + Z.of_nat n * (speed_milli s * tick)) / threshold_of interval
    /\ c = (movement_credit s + Z.of_nat n * (speed_milli s * tick)) mod threshold_of interval.
Proof.
  intros Ha Hi Ht Hc Hs.
  destruct (run_quanta_exact n s tick interval) as (k & c & E & Hr & Hk); try done.
  exists k, c. split; [done|]. split; [done|]. rewrite <- Hk.
  rewrite Z.add_comm, Z.div_add, Z.mod_add by lia.
  rewrite Z.div_small, Z.mod_small by lia. lia.
Qed.

Lemma distance_law_witness :
  run_quanta 5 (set_speed 1500 (sample_snake 0)) 50 100
  = Ok (3, set_credit 75000 (set_speed 1500 (sample_snake 0))).
Proof.
  destruct (distance_law 5 (set_speed 1500 (sample_snake 0)) 50 100)
    as (k & c & E & _ & -> & ->).
  - reflexivity.
  - lia.
  - vm_compute. discriminate.
  - vm_compute. split; [discriminate|reflexivity].
  - vm_compute. split; discriminate.
  - rewrite E. vm_compute. reflexivity.
Defined.

(** [n] quanta of a snake that holds Boost and collects nothing. *)
Definition hold_boost (speed cap : Z) (n : nat) (s : Snake) : Snake :=
  Nat.iter n (boost_quantum speed cap) s.

(** A held Boost of [k] quanta of charge is active after each of the
    first [k - 1] quanta and has stopped, empty and at normal speed, after
    exactly [k]. *)
Theorem held_boost_lasts_exactly speed cap k n s :
  boost_cfg speed cap -> boost_inv speed cap s ->
  is_alive s = true -> intent (boost s) = true ->
  charge_ms (boost s) = Z.of_nat k * BOOST_TICK_INTERVAL_MS ->
  (0 < n <= k)%nat ->
  let s' := hold_boost speed cap n s in
  charge_ms (boost s') = Z.of_nat (k - n) * BOOST_TICK_INTERVAL_MS
  /\ active (boost s') = negb (n =? k)%nat
  /\ speed_milli s' = (if (n =? k)%nat then NORMAL_SNAKE_SPEED_MILLI else speed).
Proof.
  intros Hcfg Hinv Ha Hin Hch Hn.
  enough (H : let s' := hold_boost speed cap n s in
    charge_ms (boost s') = Z.of_nat (k - n) * BOOST_TICK_INTERVAL_MS
    /\ active (boost s') = negb (n =? k)%nat /\ is_alive s' = true
    /\ intent (boost s') = true /\ boost_inv speed cap s').
  { destruct H as (Hc & Hact & _ & _ & [_ _ Hsp Hns]). split; [done|]. split; [done|].
    destruct (n =? k)%nat; cbn in Hact; auto. }
  cbv zeta. revert Hn. induction n as [|n IH]; [lia|]. intros Hn.
  change (hold_boost speed cap (S n) s) with (boost_quantum speed cap (hold_boost speed cap n s)).
  assert (Hprev : charge_ms (boost (hold_boost speed cap n s))
                  = Z.of_nat (k - n) * BOOST_TICK_INTERVAL_MS
                  /\ is_alive (hold_boost speed cap n s) = true
                  /\ intent (boost (hold_boost speed cap n s)) = true
                  /\ boost_inv speed cap (hold_boost speed cap n s)).
  { destruct n as [|n]; [cbn; by rewrite Nat.sub_0_r|].
    destruct IH as (? & _ & ? & ? & ?); [lia|done]. }
  destruct Hprev as (Hc & Hal & Hi & Hbi).
  destruct (boost_quantum_held speed cap (Z.of_nat (k - n)) (hold_boost speed cap n s))
    as (Hc' & Ha' & Hal' & Hi' & Hbi'); try done; [lia|].
  split; [rewrite Hc'; f_equal; lia|]. split; [|done]. rewrite Ha'. f_equal.
  destruct (Z.eqb_spec (Z.of_nat (k - n)) 1), (Nat.eqb_spec (S n) k); lia.
Qed.

Lemma held_boost_lasts_exactly_witness :
  let s := set_intent true (set_charge 750 (sample_snake 0)) in
  active (boost (hold_boost 1500 3000 14 s)) = true
  /\ active (boost (hold_boost 1500 3000 15 s)) = false.
Proof.
  cbv zeta. set (s := set_intent true (set_charge 750 (sample_snake 0))).
  assert (Hi : boost_inv 1500 3000 s).
  { split; cbn; [lia|by exists 15|done|done]. }
  split.
  - destruct (held_boost_lasts_exactly 1500 3000 15 14 s default_cfg Hi) as (_ & E & _);
      [reflexivity|reflexivity|reflexivity|lia|exact E].
  - destruct (held_boost_lasts_exactly 1500 3000 15 15 s default_cfg Hi) as (_ & E & _);
      [reflexivity|reflexivity|reflexivity|lia|exact E].
Defined.

(** One draw of any kind. *)
Inductive draw `{F32Libm} : PseudoRandom -> PseudoRandom -> Prop :=
| draw_u32 r : draw r (snd (next_u32 r))
| draw_u16 r : draw r (snd (next_u16 r))
| draw_u64 r : draw r (snd (next_u64 r))
| draw_f32 r : draw r (snd (next_f32 r))
| draw_normal r m d : draw r (snd (next_normal r m d)).

(** A generator built from any 64-bit seed never reaches the absorbing
    state zero, whatever draws are taken from it. *)
Theorem generator_never_zero `{F32Libm} seed r :
  is_u64 seed -> rtc draw (PseudoRandom_new seed) r -> rng_state r <> 0 /\ is_u64 (rng_state r).
Proof.
  intros Hs Hr.
  assert (H0 : rng_ok (PseudoRandom_new seed)).
  { unfold rng_ok, PseudoRandom_new. cbn. unfold is_u64, u64_max in *.
    destruct (Z.eqb_spec seed 0); lia. }
  enough (Hok : rng_ok r) by (unfold rng_ok, is_u64 in *; lia).
  revert H0. induction Hr as [|r1 r2 r3 Hd _ IH]; [done|]. intros H1. apply IH.
  destruct Hd.
  - destruct (next_u32 r) eqn:E. by eapply next_u32_ok.
  - unfold next_u16. destruct (next_u32 r) eqn:E. by eapply next_u32_ok.
  - apply xorshift_ok, H1.
  - destruct (next_f32 r) eqn:E. by eapply next_f32_ok.
  - destruct (next_normal r m d) eqn:E. by eapply next_normal_ok.
Qed.

(** A stand-in for the platform's logarithm and cosine. *)
Definition identity_libm : F32Libm := {| f32_ln := fun x => x; f32_cos := fun x => x |}.

Lemma generator_never_zero_witness :
  rng_state (snd (next_u64 (snd (next_u32 (PseudoRandom_new 0))))) <> 0.
Proof.
  apply (@generator_never_zero identity_libm 0).
  - unfold is_u64, u64_max. lia.
  - eapply rtc_l; [apply (@draw_u32 identity_libm)|].
    eapply rtc_l; [apply (@draw_u64 identity_libm)|]. apply rtc_refl.
Defined.
