(* ===== verification/Arena.v ===== *)
(** * Match configuration and the arena

    The configuration types, the Boost pad layout, the team zones and the
    food sampler of common/src/game_state.rs (lines 1 to 1107). *)

From Stdlib Require Import ZArith SpecFloat.
From stdpp Require Import prelude strings countable list.
From S2P Require Import Prelude RustFloat Util Snake.
Open Scope Z_scope.

(** ** Constants *)

Definition DEFAULT_SNAKE_LENGTH : Z := 4.
Definition DEFAULT_COMBO_WINDOW_MS : Z := 1000.
Definition DEFAULT_COMBO_MAX_FOOD_VALUE : Z := 3.
Definition COMBO_RULES_VERSION : Z := 1.
Definition MAX_COMBO_WINDOW_MS : Z := 60000.
Definition RECENT_CRASH_RETENTION_MS : Z := 1000.
Definition RECENT_GOAL_RETENTION_MS : Z := 1800.

(** ** Configuration *)

Record TeamZoneConfig := mkTeamZoneConfig {
  end_zone_depth : Z;
  goal_width : Z
}.

Record BoostConfig := mkBoostConfig {
  bc_speed_milli : Z;
  bc_capacity_ms : Z;
  bc_packet_charge_ms : Z;
  bc_pad_respawn_ms : Z;
  bc_spot_layout_version : Z;
  bc_rules_version : Z;
  bc_unlimited : bool
}.

Definition BoostConfig_default : BoostConfig :=
  {| bc_speed_milli := DEFAULT_BOOST_SPEED_MILLI;
     bc_capacity_ms := DEFAULT_BOOST_CAPACITY_MS;
     bc_packet_charge_ms := DEFAULT_BOOST_PACKET_CHARGE_MS;
     bc_pad_respawn_ms := DEFAULT_BOOST_PAD_RESPAWN_MS;
     bc_spot_layout_version := BOOST_SPOT_LAYOUT_VERSION_TEAM;
     bc_rules_version := BOOST_RULES_VERSION;
     bc_unlimited := false |}.

Definition BoostConfig_field : BoostConfig :=
  {| BoostConfig_default with
       bc_spot_layout_version := BOOST_SPOT_LAYOUT_VERSION_FIELD |}.

Definition BoostConfig_unlimited : BoostConfig :=
  {| BoostConfig_default with
       bc_spot_layout_version := BOOST_SPOT_LAYOUT_VERSION_NONE;
       bc_unlimited := true |}.

Definition BoostConfig_validate (c : BoostConfig) : Result unit :=
  ensure ((NORMAL_SNAKE_SPEED_MILLI <=? bc_speed_milli c)
          && (bc_speed_milli c <=? MAX_BOOST_SPEED_MILLI))
    "Boost speed_milli out of range" ;;
  ensure (negb ((bc_capacity_ms c =? 0)
                || negb (is_multiple_of (bc_capacity_ms c) (BOOST_TICK_INTERVAL_MS * 4))))
    "Boost capacity_ms must be positive and divisible" ;;
  ensure (bc_packet_charge_ms c =? bc_capacity_ms c / 4)
    "Boost packet_charge_ms must equal exactly 25% of capacity" ;;
  ensure (negb ((bc_pad_respawn_ms c =? 0)
                || negb (is_multiple_of (bc_pad_respawn_ms c) BOOST_TICK_INTERVAL_MS)))
    "Boost pad_respawn_ms must be positive and divisible" ;;
  ensure ((bc_spot_layout_version c =? BOOST_SPOT_LAYOUT_VERSION_TEAM)
          || (bc_spot_layout_version c =? BOOST_SPOT_LAYOUT_VERSION_FIELD)
          || (bc_spot_layout_version c =? BOOST_SPOT_LAYOUT_VERSION_NONE))
    "unsupported Boost spot layout version" ;;
  ensure (Bool.eqb (bc_unlimited c)
            (bc_spot_layout_version c =? BOOST_SPOT_LAYOUT_VERSION_NONE))
    "unlimited Boost requires the padless spot layout and vice versa" ;;
  ensure (bc_rules_version c =? BOOST_RULES_VERSION)
    "unsupported Boost rules version".

Record ComboConfig := mkComboConfig {
  cc_window_ms : Z;
  cc_max_food_value : Z;
  cc_rules_version : Z
}.

Definition ComboConfig_default : ComboConfig :=
  {| cc_window_ms := DEFAULT_COMBO_WINDOW_MS;
     cc_max_food_value := DEFAULT_COMBO_MAX_FOOD_VALUE;
     cc_rules_version := COMBO_RULES_VERSION |}.

Definition ComboConfig_validate (c : ComboConfig) : Result unit :=
  ensure (negb ((cc_window_ms c =? 0) || (MAX_COMBO_WINDOW_MS <? cc_window_ms c)))
    "Combo window_ms out of range" ;;
  ensure ((1 <=? cc_max_food_value c)
          && (cc_max_food_value c <=? DEFAULT_COMBO_MAX_FOOD_VALUE))
    "Combo max_food_value out of range" ;;
  ensure (cc_rules_version c =? COMBO_RULES_VERSION)
    "unsupported Combo rules version".

Definition food_value_for_chain (c : ComboConfig) (chain : Z) : Z :=
  Z.min (Z.max (sat_sub chain 1) 1) (Z.max (cc_max_food_value c) 1).

Record GameProperties := mkGameProperties {
  available_food_target : Z;
  tick_duration_ms : Z;
  time_limit_ms : option Z;
  score_limit : option Z;
  pr_boost : option BoostConfig;
  pr_combo : ComboConfig;
  player_idle_timeout_ms : Z;
  player_idle_warning_ms : Z
}.

Inductive GameMode :=
| GM_Solo
| GM_Duel
| GM_FreeForAll (max_players : Z).

Record CustomGameSettings := mkCustomGameSettings {
  cg_arena_width : Z;
  cg_arena_height : Z;
  cg_tick_duration_ms : Z;
  cg_food_spawn_rate : spec_float;
  cg_max_players : Z;
  cg_game_mode : GameMode;
  cg_is_private : bool;
  cg_allow_spectators : bool;
  cg_snake_start_length : Z
}.

Inductive QueueMode := Quickmatch | Competitive.

Inductive GameType :=
| Solo
| TeamMatch (per_team : Z)
| FreeForAll (max_players : Z)
| Custom (settings : CustomGameSettings).

Definition is_team_match (g : GameType) : bool :=
  match g with TeamMatch _ => true | _ => false end.

Inductive GameStatus :=
| Stopped
| Started (server_id : Z)
| Complete (winning_snake_id : option Z).

Definition team_score_limit (q : QueueMode) : Z :=
  match q with
  | Quickmatch => DEFAULT_QUICKMATCH_TEAM_SCORE_LIMIT
  | Competitive => DEFAULT_COMPETITIVE_TEAM_SCORE_LIMIT
  end.

Definition boost_config_for (g : GameType) (width height : Z) : option BoostConfig :=
  match g with
  | TeamMatch per_team =>
      if ((per_team =? 1) || (per_team =? 2)) && (width =? 60) && (height =? 40)
      then Some BoostConfig_default else None
  | FreeForAll _ =>
      if (width =? 40) && (height =? 40) then Some BoostConfig_field else None
  | Solo => Some BoostConfig_unlimited
  | Custom _ => None
  end.

Definition food_target_for (g : GameType) : Z :=
  match g with
  | TeamMatch per_team =>
      if per_team =? 2 then DEFAULT_FOOD_TARGET * 2 else DEFAULT_FOOD_TARGET
  | FreeForAll _ => DEFAULT_FOOD_TARGET * 2
  | _ => DEFAULT_FOOD_TARGET
  end.

(** ** Boost pads *)

Record BoostPad := mkBoostPad {
  pad_id : Z;
  pad_position : Position;
  pad_charge_ms : Z;
  pad_size_cells : Z;
  pad_respawn_at_tick : option Z
}.

Definition pad_contains (pad : BoostPad) (p : Position) : bool :=
  let size := pad_size_cells pad in
  (0 <? size)
  && (px (pad_position pad) <=? px p) && (px p <? px (pad_position pad) + size)
  && (py (pad_position pad) <=? py p) && (py p <? py (pad_position pad) + size).

(** [i16::try_from]. *)
Definition i16_try (z : Z) : option Z :=
  if (i16_min <=? z) && (z <=? i16_max) then Some z else None.

Definition footprint_cells (pad : BoostPad) : list Position :=
  y_offset ← range_Z 0 (Z.to_nat (pad_size_cells pad));
  x_offset ← range_Z 0 (Z.to_nat (pad_size_cells pad));
  match i16_try (px (pad_position pad) + x_offset),
        i16_try (py (pad_position pad) + y_offset) with
  | Some x, Some y => [mkPos x y]
  | _, _ => []
  end.

Definition set_pad_respawn (r : option Z) (pad : BoostPad) : BoostPad :=
  {| pad with pad_respawn_at_tick := r |}.

(** ** The arena *)

Record Arena := mkArena {
  width : Z;
  height : Z;
  snakes : list Snake;
  food : list Position;
  boost_pads : list BoostPad;
  team_zone_config : option TeamZoneConfig
}.

Definition set_snakes (l : list Snake) (a : Arena) : Arena := {| a with snakes := l |}.
Definition set_food (l : list Position) (a : Arena) : Arena := {| a with food := l |}.
Definition set_pads (l : list BoostPad) (a : Arena) : Arena :=
  {| a with boost_pads := l |}.

Definition add_snake (a : Arena) (s : Snake) : Result (Z * Arena) :=
  if u32_max <=? vec_len (snakes a)
  then Err "Arena is full, cannot add more snakes"
  else Ok (vec_len (snakes a), set_snakes (snakes a ++ [s]) a).

Definition is_boost_pad_position (a : Arena) (p : Position) : bool :=
  existsb (fun pad => pad_contains pad p) (boost_pads a).

Definition main_field_bounds (a : Arena) : option (Z * Z) :=
  match team_zone_config a with
  | Some config =>
      Some (wrap_i16 (end_zone_depth config),
            i16_sub (i16_sub (wrap_i16 (width a)) (wrap_i16 (end_zone_depth config))) 1)
  | None => None
  end.

Definition boost_field_bounds (a : Arena) (spot_layout_version : Z) : option (Z * Z) :=
  if spot_layout_version =? BOOST_SPOT_LAYOUT_VERSION_TEAM then
    match main_field_bounds a with
    | Some (left_, right_) =>
        if (width a =? 60) && (height a =? 40) && (left_ =? 10) && (right_ =? 49)
        then Some (left_, right_) else None
    | None => None
    end
  else if spot_layout_version =? BOOST_SPOT_LAYOUT_VERSION_FIELD then
    if (match team_zone_config a with None => true | Some _ => false end)
       && (width a =? 40) && (height a =? 40)
    then Some (0, i16_sub (wrap_i16 (width a)) 1) else None
  else None.

(** The arithmetic is on [i16]; [boost_field_bounds] only yields [(10, 49)]
    and [(0, 39)] on a height of 40, where no operation overflows. *)
Definition boost_pad_layout (a : Arena) (config : BoostConfig) : list BoostPad :=
  if bc_unlimited config then []
  else match boost_field_bounds a (bc_spot_layout_version config) with
  | None => []
  | Some (left_, right_) =>
    let field_width := right_ - left_ + 1 in
    let arena_bottom := wrap_i16 (height a) - 1 in
    let outer_size := 2 in
    let outer_x_inset := field_width ÷ 10 in
    let outer_y_inset := wrap_i16 (height a) ÷ 10 in
    let outer_left := left_ + outer_x_inset in
    let outer_right := right_ - outer_x_inset - (outer_size - 1) in
    let outer_top := outer_y_inset in
    let outer_bottom := arena_bottom - outer_y_inset - (outer_size - 1) in
    let center_left := (left_ + right_) ÷ 2 in
    let center_right := center_left + 1 in
    let center_top := arena_bottom ÷ 2 in
    let center_bottom := center_top + 1 in
    let octagon_radius := field_width * 7 ÷ 40 in
    let octagon_bevel := field_width * 3 ÷ 40 in
    let inner_left := center_left - octagon_radius in
    let inner_right := center_right + octagon_radius in
    let inner_top := center_top - octagon_radius in
    let inner_bottom := center_bottom + octagon_radius in
    let inner_left_bevel := center_left - octagon_bevel in
    let inner_right_bevel := center_right + octagon_bevel in
    let inner_top_bevel := center_top - octagon_bevel in
    let inner_bottom_bevel := center_bottom + octagon_bevel in
    let cap := bc_capacity_ms config in
    let packet := bc_packet_charge_ms config in
    let pads :=
      [ (mkPos outer_left outer_top, cap, 2);
        (mkPos outer_left outer_bottom, cap, 2);
        (mkPos outer_right outer_top, cap, 2);
        (mkPos outer_right outer_bottom, cap, 2);
        (mkPos inner_left_bevel inner_top, packet, 1);
        (mkPos inner_right_bevel inner_top, packet, 1);
        (mkPos inner_right inner_top_bevel, packet, 1);
        (mkPos inner_right inner_bottom_bevel, packet, 1);
        (mkPos inner_right_bevel inner_bottom, packet, 1);
        (mkPos inner_left_bevel inner_bottom, packet, 1);
        (mkPos inner_left inner_bottom_bevel, packet, 1);
        (mkPos inner_left inner_top_bevel, packet, 1) ] in
    (fun '(id, (position, charge, size)) =>
       {| pad_id := wrap_u8 id; pad_position := position; pad_charge_ms := charge;
          pad_size_cells := size; pad_respawn_at_tick := None |})
      <$> enumerate pads
  end.

(** ** Team zones *)

Definition team_zone_bounds (a : Arena) (team : TeamId) : option (Z * Z * Z * Z) :=
  match team_zone_config a with
  | None => None
  | Some config =>
      let depth := wrap_i16 (end_zone_depth config) in
      let bottom := i16_sub (wrap_i16 (height a)) 1 in
      Some (if team =? 1 then
              (i16_sub (wrap_i16 (width a)) depth, i16_sub (wrap_i16 (width a)) 1,
               0, bottom)
            else (0, i16_sub depth 1, 0, bottom))
  end.

Definition goal_bounds (a : Arena) (team : TeamId) : option (Z * Z * Z) :=
  match team_zone_config a with
  | None => None
  | Some config =>
      let goal_center := wrap_i16 (height a) ÷ 2 in
      let half_width := wrap_i16 (goal_width config) ÷ 2 in
      let y_start := i16_sub goal_center half_width in
      let y_end := i16_add goal_center half_width in
      let depth := wrap_i16 (end_zone_depth config) in
      let x_pos := if team =? 1 then i16_sub (wrap_i16 (width a)) depth
                   else i16_sub depth 1 in
      Some (x_pos, y_start, y_end)
  end.

Definition is_wall_position (a : Arena) (p : Position) : bool :=
  match team_zone_config a with
  | None => false
  | Some config =>
      let depth := wrap_i16 (end_zone_depth config) in
      let at_team_a_boundary := px p =? i16_sub depth 1 in
      let at_team_b_boundary := px p =? i16_sub (wrap_i16 (width a)) depth in
      if at_team_a_boundary || at_team_b_boundary then
        match goal_bounds a (if at_team_a_boundary then 0 else 1) with
        | Some (_, y_start, y_end) => (py p <? y_start) || (y_end <? py p)
        | None => false
        end
      else false
  end.

Definition is_in_team_base (a : Arena) (p : Position) (team : TeamId) : bool :=
  match team_zone_bounds a team with
  | Some (x_start, x_end, y_start, y_end) =>
      (x_start <=? px p) && (px p <=? x_end) && (y_start <=? py p) && (py p <=? y_end)
  | None => false
  end.

Definition is_in_enemy_base (a : Arena) (p : Position) (team : TeamId) : bool :=
  let enemy_team := if team =? 0 then 1 else if team =? 1 then 0 else 1 in
  is_in_team_base a p enemy_team.

(** ** Food sampling *)

Inductive FoodAxisDistribution := Uniform | CenterBiased.

Definition food_axis_distributions (g : GameType)
  : FoodAxisDistribution * FoodAxisDistribution :=
  if is_team_match g then (CenterBiased, Uniform) else (Uniform, Uniform).

Definition sample_food_axis `{F32Libm} (rng : PseudoRandom) (min max : Z)
    (distribution : FoodAxisDistribution) : Z * PseudoRandom :=
  let range := f32_of_Z (max - min + 1) in
  match distribution with
  | Uniform =>
      let '(u, rng) := next_f32 rng in
      (i16_add min (fint_as_i16 (float_floor (f32_mul u range))), rng)
  | CenterBiased =>
      let center := f32_div (f32_add (f32_of_Z min) (f32_of_Z max)) (f32_of_Z 2) in
      let '(v, rng) := next_normal rng center (f32_div range (f32_of_Z 6)) in
      (fint_as_i16 (fint_clamp min max (float_round v)), rng)
  end.

Definition sample_food_position `{F32Libm} (rng : PseudoRandom) (g : GameType)
    (a : Arena) : Position * PseudoRandom :=
  let '(x_min, x_max) :=
    default (0, i16_sub (wrap_i16 (width a)) 1) (main_field_bounds a) in
  let y_min := 0 in
  let y_max := i16_sub (wrap_i16 (height a)) 1 in
  let '(x_distribution, y_distribution) := food_axis_distributions g in
  let '(x, rng) := sample_food_axis rng x_min x_max x_distribution in
  let '(y, rng) := sample_food_axis rng y_min y_max y_distribution in
  (mkPos x y, rng).
