(* ===== verification/CommandQueue.v ===== *)
(** * Commands and the command queue

    [GameCommand], [CommandId], [GameCommandMessage] and [CommandQueue] of
    common/src/game_state.rs.

    The queue is a [BinaryHeap] of reversed messages. The standard library
    promises that [peek] and [pop] give a least message in the order of the
    message ids and says nothing of the order among equal ids; here the heap
    is the bag of its messages as a list and [extract_min] takes the first
    least one, and no theorem depends on that choice. *)

From Stdlib Require Import ZArith Sorted.
From stdpp Require Import prelude strings countable list gmap sorting.
From S2P Require Import Prelude Snake Arena.
Open Scope Z_scope.

Inductive GameCommand :=
| Cmd_Turn (snake_id : Z) (d : Direction)
| Cmd_ActivateBoost (snake_id : Z)
| Cmd_UpdateStatus (status : GameStatus)
| Cmd_DeactivateBoost (snake_id : Z)
| Cmd_PlayerActivity (snake_id : Z).

(** The snake a player command addresses; [None] for the system command. *)
Definition command_snake (c : GameCommand) : option Z :=
  match c with
  | Cmd_Turn i _ | Cmd_ActivateBoost i | Cmd_DeactivateBoost i
  | Cmd_PlayerActivity i => Some i
  | Cmd_UpdateStatus _ => None
  end.

Record CommandId := mkCommandId {
  cid_tick : Z;
  cid_user_id : Z;
  cid_sequence_number : Z
}.

#[global] Instance CommandId_eq_dec : EqDecision CommandId.
Proof. solve_decision. Defined.

#[global] Program Instance CommandId_countable : Countable CommandId :=
  inj_countable' (fun c => (cid_tick c, cid_user_id c, cid_sequence_number c))
    (fun '(t, u, s) => mkCommandId t u s) _.
Next Obligation. by intros []. Qed.

(** The lexicographic [Ord]. *)
Definition cid_cmp (a b : CommandId) : comparison :=
  match cid_tick a ?= cid_tick b with
  | Eq => match cid_user_id a ?= cid_user_id b with
          | Eq => cid_sequence_number a ?= cid_sequence_number b
          | c => c
          end
  | c => c
  end.

Definition cid_leb (a b : CommandId) : bool :=
  match cid_cmp a b with Gt => false | _ => true end.

Record GameCommandMessage := mkMsg {
  command_id_client : CommandId;
  command_id_server : option CommandId;
  command : GameCommand
}.

Definition msg_id (m : GameCommandMessage) : CommandId :=
  match command_id_server m with Some i => i | None => command_id_client m end.

Definition msg_tick (m : GameCommandMessage) : Z :=
  match command_id_server m with
  | Some i => cid_tick i
  | None => cid_tick (command_id_client m)
  end.

Definition speculative (m : GameCommandMessage) : bool :=
  match command_id_server m with None => true | Some _ => false end.

(** The user whose authority the command carries. *)
Definition msg_user (m : GameCommandMessage) : Z :=
  match command_id_server m with
  | Some i => cid_user_id i
  | None => cid_user_id (command_id_client m)
  end.

(** ** The heap *)

Fixpoint extract_min (l : list GameCommandMessage)
  : option (GameCommandMessage * list GameCommandMessage) :=
  match l with
  | [] => None
  | x :: l' =>
      match extract_min l' with
      | None => Some (x, [])
      | Some (m, r) =>
          if cid_leb (msg_id x) (msg_id m) then Some (x, l') else Some (m, x :: r)
      end
  end.

Definition heap_peek (l : list GameCommandMessage) : option GameCommandMessage :=
  fst <$> extract_min l.

(** ** The queue *)

Record CommandQueue := mkQueue {
  queue : list GameCommandMessage;
  active_ids : gset CommandId;
  tombstone_ids : gset CommandId
}.

Definition CommandQueue_new : CommandQueue := mkQueue [] ∅ ∅.

Definition has_commands_for_tick (q : CommandQueue) (tick : Z) : bool :=
  match heap_peek (queue q) with
  | Some m => msg_tick m <=? tick
  | None => false
  end.

Definition push (q : CommandQueue) (m : GameCommandMessage) : CommandQueue :=
  if speculative m then
    mkQueue (queue q ++ [m]) ({[command_id_client m]} ∪ active_ids q) (tombstone_ids q)
  else if bool_decide (command_id_client m ∈ active_ids q) then
    mkQueue (queue q ++ [m]) (active_ids q)
      ({[command_id_client m]} ∪ tombstone_ids q)
  else mkQueue (queue q ++ [m]) (active_ids q) (tombstone_ids q).

(** [pop] calls itself once per tombstone; each call removes a message, so
    the number of queued messages bounds the calls. *)
Fixpoint pop_fuel (fuel : nat) (q : CommandQueue) (max_tick : Z)
  : option GameCommandMessage * CommandQueue :=
  match fuel with
  | O => (None, q)
  | S fuel =>
      match extract_min (queue q) with
      | None => (None, q)
      | Some (m, rest) =>
          if max_tick <? msg_tick m then (None, q)
          else if speculative m then
            let active := active_ids q ∖ {[command_id_client m]} in
            let tomb := tombstone_ids q ∖ {[command_id_client m]} in
            if bool_decide (command_id_client m ∈ tombstone_ids q)
            then pop_fuel fuel (mkQueue rest active tomb) max_tick
            else (Some m, mkQueue rest active tomb)
          else (Some m, mkQueue rest (active_ids q) (tombstone_ids q))
      end
  end.

Definition pop (q : CommandQueue) (max_tick : Z)
  : option GameCommandMessage * CommandQueue :=
  pop_fuel (S (length (queue q))) q max_tick.

Definition client_ids (l : list GameCommandMessage) : gset CommandId :=
  list_to_set (command_id_client <$> l).

Definition rebuild_indexes (q : CommandQueue) : CommandQueue :=
  let active := client_ids (filter (fun m => speculative m = true) (queue q)) in
  let authoritative := client_ids (filter (fun m => speculative m = false) (queue q)) in
  mkQueue (queue q) active (active ∩ authoritative).

Definition discard_player_commands_for_snake (q : CommandQueue) (snake_id : Z)
  : CommandQueue :=
  rebuild_indexes
    (mkQueue (filter (fun m => command_snake (command m) <> Some snake_id) (queue q))
       (active_ids q) (tombstone_ids q)).

Definition discard_speculative_command (q : CommandQueue) (id : CommandId)
  : CommandQueue :=
  rebuild_indexes
    (mkQueue (filter (fun m => speculative m = false \/ command_id_client m <> id)
                (queue q))
       (active_ids q) (tombstone_ids q)).

Definition msg_le (a b : GameCommandMessage) : Prop :=
  cid_leb (msg_id a) (msg_id b) = true.

#[global] Instance msg_le_dec a b : Decision (msg_le a b).
Proof. unfold msg_le. apply _. Defined.

Definition authoritative_commands (q : CommandQueue) : list GameCommandMessage :=
  merge_sort msg_le
    (filter (fun m => speculative m = false /\ command_snake (command m) <> None)
       (queue q)).

(** Popping until nothing is due, the way one simulation quantum does. *)
Fixpoint drain_fuel (fuel : nat) (q : CommandQueue) (max_tick : Z)
  : list GameCommandMessage * CommandQueue :=
  match fuel with
  | O => ([], q)
  | S fuel =>
      match pop q max_tick with
      | (None, q) => ([], q)
      | (Some m, q) => let '(l, q) := drain_fuel fuel q max_tick in (m :: l, q)
      end
  end.

Definition drain_due (q : CommandQueue) (max_tick : Z)
  : list GameCommandMessage * CommandQueue :=
  drain_fuel (S (length (queue q))) q max_tick.

(** ** The order on ids *)

Lemma cid_leb_spec a b :
  cid_leb a b = true <->
  cid_tick a < cid_tick b
  \/ (cid_tick a = cid_tick b
      /\ (cid_user_id a < cid_user_id b
          \/ (cid_user_id a = cid_user_id b
              /\ cid_sequence_number a <= cid_sequence_number b))).
Proof.
  unfold cid_leb, cid_cmp.
  destruct (Z.compare_spec (cid_tick a) (cid_tick b)); [|lia..].
  destruct (Z.compare_spec (cid_user_id a) (cid_user_id b)); [|lia..].
  destruct (Z.compare_spec (cid_sequence_number a) (cid_sequence_number b)); lia.
Qed.

#[global] Instance msg_le_trans : Transitive msg_le.
Proof. intros a b c. unfold msg_le. rewrite !cid_leb_spec. lia. Qed.

#[global] Instance msg_le_total : Total msg_le.
Proof. intros a b. unfold msg_le. rewrite !cid_leb_spec. lia. Qed.

Lemma msg_le_tick a b : msg_le a b -> msg_tick a <= msg_tick b.
Proof.
  unfold msg_le. rewrite cid_leb_spec. unfold msg_id, msg_tick.
  destruct (command_id_server a), (command_id_server b); lia.
Qed.

(** ** The heap gives a least message *)

Lemma extract_min_None l : extract_min l = None -> l = [].
Proof. destruct l as [|x l]; [done|]. cbn. by repeat case_match. Qed.

Lemma extract_min_Some l m r :
  extract_min l = Some (m, r) -> l ≡ₚ m :: r /\ Forall (msg_le m) r.
Proof.
  revert m r. induction l as [|x l IH]; intros m r; cbn; [done|].
  destruct (extract_min l) as [[m' r']|] eqn:E.
  - destruct (IH _ _ eq_refl) as [Hp Hf].
    destruct (cid_leb (msg_id x) (msg_id m')) eqn:Hle; intros [= <- <-].
    + split; [done|]. rewrite Hp. constructor; [done|].
      eapply Forall_impl; [done|]. intros y Hy. by trans m'.
    + split; [rewrite Hp; constructor|]. constructor; [|done].
      destruct (msg_le_total x m') as [H|H]; [|done]. unfold msg_le in H. congruence.
  - intros [= <- <-]. apply extract_min_None in E as ->. done.
Qed.

(** ** The index invariant *)

Definition spec_ids (l : list GameCommandMessage) : list CommandId :=
  command_id_client <$> filter (fun m => speculative m = true) l.

Record queue_wf (q : CommandQueue) : Prop := {
  qwf_nodup : NoDup (spec_ids (queue q));
  qwf_active : active_ids q = list_to_set (spec_ids (queue q));
  qwf_tomb : tombstone_ids q ⊆ active_ids q
}.

#[global] Instance spec_ids_perm : Proper ((≡ₚ) ==> (≡ₚ)) spec_ids.
Proof. intros l1 l2 H. unfold spec_ids. by rewrite H. Qed.

Lemma spec_ids_cons m l :
  spec_ids (m :: l) = if speculative m then command_id_client m :: spec_ids l
                      else spec_ids l.
Proof. unfold spec_ids. rewrite filter_cons. by destruct (speculative m). Qed.

Lemma elem_of_spec_ids m l :
  m ∈ l -> speculative m = true -> command_id_client m ∈ spec_ids l.
Proof.
  intros Hm Hs. unfold spec_ids. apply list_elem_of_fmap. exists m.
  split; [done|]. by apply list_elem_of_filter.
Qed.

(** A message the queue will still deliver. *)
Definition live (q : CommandQueue) (m : GameCommandMessage) : Prop :=
  speculative m = false \/ command_id_client m ∉ tombstone_ids q.

Definition due (t : Z) (m : GameCommandMessage) : Prop := msg_tick m <= t.

#[global] Instance live_dec q m : Decision (live q m).
Proof. unfold live. apply _. Defined.
#[global] Instance due_dec t m : Decision (due t m).
Proof. unfold due. apply _. Defined.

(** What remains once [m] is taken out. *)
Definition take_out (q : CommandQueue) (m : GameCommandMessage)
    (rest : list GameCommandMessage) : CommandQueue :=
  if speculative m
  then mkQueue rest (active_ids q ∖ {[command_id_client m]})
         (tombstone_ids q ∖ {[command_id_client m]})
  else mkQueue rest (active_ids q) (tombstone_ids q).

Lemma take_out_wf q m rest :
  queue_wf q -> queue q ≡ₚ m :: rest ->
  queue_wf (take_out q m rest)
  /\ forall x, x ∈ rest -> live (take_out q m rest) x <-> live q x.
Proof.
  intros [Hn Ha Ht] Hp. rewrite Hp, spec_ids_cons in Hn.
  assert (Ha' : active_ids q = list_to_set (spec_ids (m :: rest))).
  { rewrite Ha. apply list_to_set_perm_L. by rewrite Hp. }
  rewrite spec_ids_cons in Ha'. unfold take_out.
  destruct (speculative m) eqn:Es.
  - apply NoDup_cons in Hn as [Hni Hn]. split.
    + split; cbn; [done | | clear -Ht; set_solver].
      rewrite Ha'. clear -Hni. set_solver.
    + intros x Hx. unfold live. cbn. destruct (speculative x) eqn:Ex; [|tauto].
      pose proof (elem_of_spec_ids x rest Hx Ex) as Hid.
      assert (command_id_client x <> command_id_client m) by congruence.
      rewrite elem_of_difference, elem_of_singleton. tauto.
  - split; [by split|]. done.
Qed.

Lemma pop_fuel_unfold fuel q t :
  pop_fuel (S fuel) q t =
  match extract_min (queue q) with
  | None => (None, q)
  | Some (m, rest) =>
      if t <? msg_tick m then (None, q)
      else if decide (live q m) then (Some m, take_out q m rest)
      else pop_fuel fuel (take_out q m rest) t
  end.
Proof.
  cbn [pop_fuel]. unfold take_out.
  destruct (extract_min (queue q)) as [[m rest]|]; [|done].
  destruct (t <? msg_tick m); [done|].
  case_decide as Hl; unfold live in Hl; destruct (speculative m).
  - by rewrite bool_decide_eq_false_2 by (by destruct Hl).
  - done.
  - rewrite bool_decide_eq_true_2; [done|].
    destruct (decide (command_id_client m ∈ tombstone_ids q)); tauto.
  - tauto.
Qed.

(** One [pop]: either nothing live is due, and only superseded messages were
    dropped, or the least live due message is delivered. *)
Lemma pop_fuel_spec fuel q t o q' :
  queue_wf q -> (length (queue q) < fuel)%nat -> pop_fuel fuel q t = (o, q') ->
  queue_wf q'
  /\ filter (fun m => ~ due t m) (queue q') ≡ₚ filter (fun m => ~ due t m) (queue q)
  /\ (forall x, x ∈ queue q' -> x ∈ queue q)
  /\ match o with
     | None => filter (fun m => live q m /\ due t m) (queue q) = []
               /\ filter (due t) (queue q') = []
     | Some m =>
         filter (fun m => live q m /\ due t m) (queue q)
           ≡ₚ m :: filter (fun m => live q' m /\ due t m) (queue q')
         /\ (length (queue q') < length (queue q))%nat
         /\ Forall (msg_le m) (queue q')
     end.
Proof.
  revert q. induction fuel as [|fuel IH]; intros q Hwf Hlen; [lia|].
  rewrite pop_fuel_unfold.
  destruct (extract_min (queue q)) as [[m rest]|] eqn:E.
  2: { apply extract_min_None in E. intros [= <- <-]. rewrite E. done. }
  apply extract_min_Some in E as [Hp Hf].
  destruct (Z.ltb_spec t (msg_tick m)) as [Ht|Ht].
  { intros [= <- <-].
    assert (Hnd : forall x, x ∈ queue q -> ~ due t x).
    { intros x. rewrite Hp. unfold due. intros [->|Hx]%elem_of_cons; [lia|].
      rewrite Forall_forall in Hf. pose proof (msg_le_tick _ _ (Hf x Hx)). lia. }
    split_and!; [done|done|done| |].
    - apply list_filter_none. intros x Hx [_ Hd]. by eapply Hnd.
    - by apply list_filter_none. }
  destruct (take_out_wf q m rest Hwf Hp) as [Hwf' Hlive].
  assert (Hq : queue (take_out q m rest) = rest) by (unfold take_out; by destruct (speculative m)).
  assert (Hl : length (queue q) = S (length rest)) by (by rewrite Hp).
  assert (Hnd : filter (fun m => ~ due t m) (queue q)
                ≡ₚ filter (fun m => ~ due t m) rest).
  { rewrite Hp, filter_cons. rewrite decide_False; [done|]. unfold due. lia. }
  assert (Hin : forall x, x ∈ rest -> x ∈ queue q) by (intros; rewrite Hp; by right).
  assert (Hext : filter (fun x => live (take_out q m rest) x /\ due t x) rest
                 = filter (fun x => live q x /\ due t x) rest).
  { apply list_filter_ext_in. intros x Hx. rewrite (Hlive x Hx). done. }
  case_decide as Hd.
  - intros [= <- <-]. rewrite Hq. split_and!; [done|by symmetry|done| |lia|done].
    rewrite Hp at 1. rewrite filter_cons, decide_True by done. by rewrite Hext.
  - intros Hpop. destruct (IH _ Hwf' ltac:(rewrite Hq; lia) Hpop) as (? & Hn & Hi & Ho).
    rewrite Hq in *. split_and!; [done| |by eauto|].
    { by rewrite Hn, Hnd. }
    assert (Hdrop : filter (fun x => live q x /\ due t x) (queue q)
                    ≡ₚ filter (fun x => live (take_out q m rest) x /\ due t x) rest).
    { rewrite Hp at 1. rewrite filter_cons, decide_False by tauto. by rewrite Hext. }
    destruct o as [x|].
    + destruct Ho as (Ho1 & Ho2 & Ho3). split_and!; [|lia|done].
      by rewrite Hdrop.
    + destruct Ho as [Ho1 Ho2]. split; [|done].
      apply Permutation_nil. rewrite Hdrop in *. by rewrite Ho1.
Qed.

(** ** Draining *)

Lemma drain_fuel_spec fuel q t l q' :
  queue_wf q -> (length (queue q) < fuel)%nat -> drain_fuel fuel q t = (l, q') ->
  queue_wf q' /\ StronglySorted msg_le l
  /\ l ≡ₚ filter (fun m => live q m /\ due t m) (queue q)
  /\ queue q' ≡ₚ filter (fun m => ~ due t m) (queue q).
Proof.
  revert q l q'. induction fuel as [|fuel IH]; intros q l q' Hwf Hlen; [lia|].
  cbn [drain_fuel]. destruct (pop q t) as [o q1] eqn:Hpop. unfold pop in Hpop.
  apply pop_fuel_spec in Hpop as (Hwf1 & Hn & Hin & Ho); [|done|lia].
  destruct o as [m|].
  - destruct Ho as (Hp & Hlt & Hf).
    destruct (drain_fuel fuel q1 t) as [l1 q2] eqn:Hd. intros [= <- <-].
    apply IH in Hd as (Hwf2 & Hs & Hl & Hq); [|done|lia].
    split_and!; [done| | |by rewrite Hq].
    + constructor; [done|]. rewrite Hl. apply Forall_forall. intros x Hx.
      apply list_elem_of_filter in Hx as [_ Hx]. rewrite Forall_forall in Hf. by apply Hf.
    + by rewrite Hp, Hl.
  - destruct Ho as [Ho1 Ho2]. intros [= <- <-].
    split_and!; [done|constructor|by rewrite Ho1|].
    rewrite <- Hn. rewrite <- (filter_app_complement (due t) (queue q1)) at 1.
    by rewrite Ho2.
Qed.

(** ** The other operations keep the invariant *)

Lemma queue_wf_new : queue_wf CommandQueue_new.
Proof. split; cbn; [constructor|done|done]. Qed.

Lemma queue_wf_push q m :
  queue_wf q ->
  (speculative m = true -> command_id_client m ∉ active_ids q) ->
  queue_wf (push q m).
Proof.
  intros [Hn Ha Ht] Hf. unfold push.
  assert (Hp : queue q ++ [m] ≡ₚ m :: queue q) by (by rewrite Permutation_app_comm).
  destruct (speculative m) eqn:Es.
  - specialize (Hf eq_refl).
    assert (Hp' : spec_ids (queue q ++ [m])
                  ≡ₚ command_id_client m :: spec_ids (queue q)).
    { rewrite Hp, spec_ids_cons. by rewrite Es. }
    split; cbn.
    + rewrite Hp'. constructor; [|done]. intros Hin. apply Hf. rewrite Ha.
      by apply elem_of_list_to_set.
    + rewrite Ha, Hp'. done.
    + clear -Ht. set_solver.
  - assert (Hp' : spec_ids (queue q ++ [m]) ≡ₚ spec_ids (queue q)).
    { rewrite Hp, spec_ids_cons. by rewrite Es. }
    case_bool_decide as Hin; split; cbn; rewrite ?Hp'; try done.
    + clear -Hin Ht. set_solver.
Qed.

Lemma queue_wf_pop q t o q' : queue_wf q -> pop q t = (o, q') -> queue_wf q'.
Proof. intros Hwf H. apply pop_fuel_spec in H; [by destruct H|done|lia]. Qed.

Lemma queue_wf_rebuild q :
  NoDup (spec_ids (queue q)) -> queue_wf (rebuild_indexes q).
Proof. intros H. split; cbn; [done|done|set_solver]. Qed.

Lemma spec_ids_filter_nodup (P : GameCommandMessage -> Prop)
    `{!forall x, Decision (P x)} l :
  NoDup (spec_ids l) -> NoDup (spec_ids (filter P l)).
Proof.
  intros Hn. eapply sublist_NoDup; [done|]. clear Hn.
  induction l as [|x l IH]; [done|].
  rewrite filter_cons. case_decide; rewrite !spec_ids_cons; destruct (speculative x);
    by constructor || done.
Qed.

Lemma queue_wf_discard_player q snake_id :
  queue_wf q -> queue_wf (discard_player_commands_for_snake q snake_id).
Proof. intros [Hn _ _]. apply queue_wf_rebuild. by apply spec_ids_filter_nodup. Qed.

Lemma queue_wf_discard_speculative q id :
  queue_wf q -> queue_wf (discard_speculative_command q id).
Proof. intros [Hn _ _]. apply queue_wf_rebuild. by apply spec_ids_filter_nodup. Qed.
