(* ===== verification/GameState.v ===== *)
(** * The game state

    [GameState], [GameEvent] and the queries of common/src/game_state.rs on a
    state: movement pace, food clock, combos, carried food.

    A [HashMap] is a [gmap] and a [HashSet] a [gset]. Wherever the source
    walks one of them in an unspecified order it sorts, takes a minimum or
    builds another map, so the order of [map_to_list] is not observable.
    [usize] is 64 bits wide. *)

From Stdlib Require Import ZArith SpecFloat.
From stdpp Require Import prelude strings countable list gmap sorting.
From S2P Require Import Prelude RustFloat Util Snake Arena CommandQueue.
Open Scope Z_scope.

(** ** Data *)

Inductive DeathCause :=
| DC_Unknown
| DC_Wall
| DC_OutOfBounds
| DC_EnemyBase
| DC_SelfCollision
| DC_SnakeBody (killer_snake_id : Z)
| DC_HeadToHead (other_snake_id : Z)
| DC_Banked.

Record SnakeCrash := mkSnakeCrash {
  crash_tick : Z;
  crash_snake_id : Z;
  crash_position : Position;
  crash_cause : DeathCause
}.

Record TeamGoal := mkTeamGoal {
  goal_tick : Z;
  goal_team_id : TeamId;
  goal_snake_id : Z;
  goal_position : Position;
  goal_points : Z
}.

Record MatchReadiness := mkMatchReadiness {
  deadline_ms : Z;
  ready_user_ids : gset Z
}.

Record GameState := mkGameState {
  gs_tick : Z;
  gs_status : GameStatus;
  gs_arena : Arena;
  gs_recent_crashes : list SnakeCrash;
  gs_recent_goals : list TeamGoal;
  gs_last_death_causes : gmap Z DeathCause;
  gs_game_type : GameType;
  gs_queue_mode : QueueMode;
  gs_is_stress_test : bool;
  gs_properties : GameProperties;
  gs_command_queue : CommandQueue;
  gs_players : gmap Z Player;
  gs_rng : option PseudoRandom;
  gs_game_code : option string;
  gs_host_user_id : option Z;
  gs_start_ms : Z;
  gs_event_sequence : Z;
  gs_usernames : gmap Z string;
  gs_skins : gmap Z string;
  gs_team_bases : gmap Z string;
  gs_spectators : gset Z;
  gs_scores : gmap Z Z;
  gs_food_pickups : gmap Z Z;
  gs_team_scores : option (gmap Z Z);
  gs_player_xp : gmap Z Z;
  gs_player_action_counts : gmap Z Z;
  gs_player_last_activity_ticks : gmap Z Z;
  gs_idle_kicked_user_ids : list Z;
  gs_completed_by_inactivity : bool;
  gs_readiness : option MatchReadiness;
  gs_simulation_epoch_ms : option Z
}.

Record ClientCommandIdentityV2 := mkClientCommandIdentityV2 {
  ci_game_id : Z;
  ci_user_id : Z;
  ci_client_game_session_id : string;
  ci_sequence : Z
}.

Inductive GameEvent :=
| Ev_SnakeTurned (snake_id : Z) (d : Direction)
| Ev_SnakeDied (snake_id : Z) (cause : DeathCause)
| Ev_PlayerIdleKicked (user_id snake_id : Z)
| Ev_FoodSpawned (position : Position)
| Ev_FoodEaten (snake_id : Z) (position : Position) (points combo_chain : Z)
    (combo_remaining_ms_before : Z) (boost_active : bool)
| Ev_BoostPacketCollected (pad_id snake_id charge_ms_after respawn_at_tick : Z)
| Ev_Snapshot (game_state : GameState)
| Ev_CommandScheduled (command_message : GameCommandMessage)
| Ev_CommandScheduledV2 (command_id : ClientCommandIdentityV2)
    (command_message : GameCommandMessage) (deduplicated_replay : bool)
| Ev_CommandRejected (command_id : ClientCommandIdentityV2) (reason : string)
    (command_id_client : option CommandId) (session_rejected_from : option Z)
| Ev_StatusUpdated (status : GameStatus)
| Ev_PlayerReady (user_id : Z)
| Ev_MatchStartScheduled (simulation_epoch_ms : Z)
| Ev_ScoreUpdated (snake_id score : Z)
| Ev_TeamScoreUpdated (team_id : TeamId) (score : Z)
| Ev_SnakeRespawned (snake_id : Z) (position : Position) (d : Direction)
| Ev_XPAwarded (player_xp : gmap Z Z)
| Ev_TickHash (hash server_ts_ms : Z).

Record GameEventMessage := mkGameEventMessage {
  em_game_id : Z;
  em_tick : Z;
  em_sequence : Z;
  em_stream_seq : Z;
  em_user_id : option Z;
  em_event : GameEvent
}.

Inductive BoostLifecycleTransition :=
| BL_Activated (snake_id : Z)
| BL_Depleted (snake_id : Z)
| BL_ManuallyStopped (snake_id : Z).

(** ** Field assignments *)

Definition with_tick v st := {| st with gs_tick := v |}.
Definition with_status v st := {| st with gs_status := v |}.
Definition with_arena v st := {| st with gs_arena := v |}.
Definition with_recent_crashes v st := {| st with gs_recent_crashes := v |}.
Definition with_recent_goals v st := {| st with gs_recent_goals := v |}.
Definition with_last_death_causes v st := {| st with gs_last_death_causes := v |}.
Definition with_properties v st := {| st with gs_properties := v |}.
Definition with_command_queue v st := {| st with gs_command_queue := v |}.
Definition with_players v st := {| st with gs_players := v |}.
Definition with_rng v st := {| st with gs_rng := v |}.
Definition with_event_sequence v st := {| st with gs_event_sequence := v |}.
Definition with_usernames v st := {| st with gs_usernames := v |}.
Definition with_skins v st := {| st with gs_skins := v |}.
Definition with_team_bases v st := {| st with gs_team_bases := v |}.
Definition with_spectators v st := {| st with gs_spectators := v |}.
Definition with_scores v st := {| st with gs_scores := v |}.
Definition with_food_pickups v st := {| st with gs_food_pickups := v |}.
Definition with_team_scores v st := {| st with gs_team_scores := v |}.
Definition with_player_xp v st := {| st with gs_player_xp := v |}.
Definition with_player_action_counts v st := {| st with gs_player_action_counts := v |}.
Definition with_player_last_activity_ticks v st :=
  {| st with gs_player_last_activity_ticks := v |}.
Definition with_idle_kicked_user_ids v st := {| st with gs_idle_kicked_user_ids := v |}.
Definition with_completed_by_inactivity v st :=
  {| st with gs_completed_by_inactivity := v |}.
Definition with_readiness v st := {| st with gs_readiness := v |}.
Definition with_simulation_epoch_ms v st := {| st with gs_simulation_epoch_ms := v |}.

Definition gs_snakes (st : GameState) : list Snake := snakes (gs_arena st).
Definition gs_food (st : GameState) : list Position := food (gs_arena st).
Definition gs_pads (st : GameState) : list BoostPad := boost_pads (gs_arena st).
Definition with_snakes (l : list Snake) (st : GameState) : GameState :=
  with_arena (set_snakes l (gs_arena st)) st.
Definition with_food (l : list Position) (st : GameState) : GameState :=
  with_arena (set_food l (gs_arena st)) st.
Definition with_pads (l : list BoostPad) (st : GameState) : GameState :=
  with_arena (set_pads l (gs_arena st)) st.

(** [if let Ok(snake) = self.get_snake_mut(id) { snake = f(snake) }]. *)
Definition update_snake (snake_id : Z) (f : Snake -> Snake) (st : GameState) : GameState :=
  with_snakes (vec_alter f (gs_snakes st) snake_id) st.

(** ** Queries *)

Definition gs_tick_duration_ms (st : GameState) : Z := tick_duration_ms (gs_properties st).
Definition gs_boost (st : GameState) : option BoostConfig := pr_boost (gs_properties st).

Definition elapsed_match_ms (st : GameState) : Z :=
  sat_mul_u64 (gs_tick st) (gs_tick_duration_ms st).

Definition player_action_count (st : GameState) (user_id : Z) : Z :=
  default 0 (gs_player_action_counts st !! user_id).

(** [binary_search] on a vector that is kept sorted is membership. *)
Definition is_player_idle_kicked (st : GameState) (user_id : Z) : bool :=
  bool_decide (user_id ∈ gs_idle_kicked_user_ids st).

(** Insertion at the index a failed [binary_search] returns. *)
Fixpoint sorted_insert (x : Z) (l : list Z) : list Z :=
  match l with
  | [] => [x]
  | y :: l' => if x <? y then x :: l else y :: sorted_insert x l'
  end.

Definition is_complete (st : GameState) : bool :=
  match gs_status st with Complete _ => true | _ => false end.

Definition is_started (st : GameState) : bool :=
  match gs_status st with Started _ => true | _ => false end.

Definition current_tick (st : GameState) : Z := gs_tick st.

Definition normal_movement_interval_ms (st : GameState) : Z :=
  match gs_game_type st with
  | Custom settings => Z.max (cg_tick_duration_ms settings) 1
  | _ => DEFAULT_TICK_INTERVAL_MS
  end.

(** The products are on [u64] and cannot overflow from [u32] factors. *)
Definition wall_clock_interval_due (st : GameState) (interval_ms : Z) : bool :=
  let tick_ms := Z.max (gs_tick_duration_ms st) 1 in
  let interval_ms := Z.max interval_ms 1 in
  let elapsed_before := gs_tick st * tick_ms in
  let elapsed_after := sat_add_u32 (gs_tick st) 1 * tick_ms in
  negb (elapsed_before / interval_ms =? elapsed_after / interval_ms).

Definition food_refill_due (st : GameState) : bool :=
  match gs_boost st with
  | None => true
  | Some _ => wall_clock_interval_due st DEFAULT_TICK_INTERVAL_MS
  end.

Definition unlimited_boost_capacity_ms (st : GameState) : option Z :=
  match gs_boost st with
  | Some config => if bc_unlimited config then Some (bc_capacity_ms config) else None
  | None => None
  end.

Definition iter_snakes (st : GameState) : list (Z * Snake) := enumerate (gs_snakes st).

Definition has_food (st : GameState) (p : Position) : bool :=
  bool_decide (p ∈ gs_food st).

Definition remove_food (st : GameState) (p : Position) : bool * GameState :=
  let kept := filter (fun candidate => candidate <> p) (gs_food st) in
  (negb (vec_len kept =? vec_len (gs_food st)), with_food kept st).

Definition combo_pickup_context (st : GameState) (s : Snake) : Z * Z * Z * bool :=
  let combo_remaining_ms_before := remaining_ms (combo s) in
  let combo_chain :=
    if combo_remaining_ms_before =? 0 then 1
    else Z.max (sat_add_u32 (chain_count (combo s)) 1) 1 in
  let points := food_value_for_chain (pr_combo (gs_properties st)) combo_chain in
  (points, combo_chain, combo_remaining_ms_before, active (boost s)).

Definition combo_event_fields_are_bounded (st : GameState)
    (points combo_chain combo_remaining_ms_before : Z) : bool :=
  let cfg := pr_combo (gs_properties st) in
  (0 <? combo_chain)
  && (combo_remaining_ms_before <=? cc_window_ms cfg)
  && (((combo_chain =? 1) && (combo_remaining_ms_before =? 0))
      || ((1 <? combo_chain) && (0 <? combo_remaining_ms_before)))
  && (points =? food_value_for_chain cfg combo_chain).

Definition starting_snake_length (st : GameState) : Z :=
  match gs_game_type st with
  | Custom settings => cg_snake_start_length settings
  | _ => DEFAULT_SNAKE_LENGTH
  end.

Definition carried_food (st : GameState) (s : Snake) : Z :=
  let extra_segments := sat_sub (snake_length s) (starting_snake_length st) in
  sat_add_u32 (if extra_segments <=? u32_max then extra_segments else u32_max) (sn_food s).
