(* ===== verification/GameSetup.v ===== *)
(** * Setting a match up

    Starting positions, respawn placement, players and spectators, the
    pre-match readiness gate, initial food, command scheduling and the
    inactivity bookkeeping of common/src/game_state.rs. *)

From Stdlib Require Import ZArith SpecFloat.
From stdpp Require Import prelude strings countable list gmap sorting.
From S2P Require Import Prelude RustFloat Util Snake Arena CommandQueue GameState.
Open Scope Z_scope.

(** ** Starting positions *)

(** One of the two facing columns of a match with more than two players. *)
Definition column_positions (count x arena_height vertical_margin usable_height : Z)
    (d : Direction) : list (Position * Direction) :=
  (fun i =>
     let y := if count =? 1 then arena_height ÷ 2
              else i16_add vertical_margin
                     (wrap_i16 (wrap_i16 i * usable_height) ÷ wrap_i16 (count - 1)) in
     (mkPos x y, d)) <$> range_Z 0 (Z.to_nat count).

Definition calculate_starting_positions (st : GameState) (player_count : Z)
  : list (Position * Direction) :=
  let arena_width := wrap_i16 (width (gs_arena st)) in
  let arena_height := wrap_i16 (height (gs_arena st)) in
  let snake_length := wrap_i16 (starting_snake_length st) in
  let '(left_boundary, right_boundary) :=
    match main_field_bounds (gs_arena st) with
    | Some (l, r) => (i16_add l 2, i16_sub r 2)
    | None => (0, i16_sub arena_width 1)
    end in
  if player_count =? 0 then []
  else if player_count =? 1 then
    [(mkPos (i16_sub right_boundary snake_length) (arena_height ÷ 2), Left)]
  else if player_count =? 2 then
    let y := arena_height ÷ 2 in
    match gs_game_type st with
    | TeamMatch 1 => [(mkPos 5 y, Right); (mkPos (i16_sub arena_width 5) y, Left)]
    | _ =>
        [(mkPos (i16_sub right_boundary snake_length) y, Left);
         (mkPos (i16_add left_boundary snake_length) y, Right)]
    end
  else
    let left_count := (player_count + 1) / 2 in
    let right_count := player_count / 2 in
    let vertical_margin := 2 in
    let usable_height := i16_sub (i16_sub arena_height 1) (2 * vertical_margin) in
    column_positions left_count (i16_add left_boundary snake_length)
      arena_height vertical_margin usable_height Right
    ++ column_positions right_count (i16_sub right_boundary snake_length)
         arena_height vertical_margin usable_height Left.

(** The closure [positions_for_side]. *)
Definition positions_for_side (st : GameState) (config : TeamZoneConfig)
    (count : Z) (team : TeamId) (is_left : bool) : list (Position * Direction) :=
  let width := wrap_i16 (width (gs_arena st)) in
  let height := wrap_i16 (height (gs_arena st)) in
  let depth := wrap_i16 (end_zone_depth config) in
  if count =? 0 then []
  else
    let boundary_x := if is_left then i16_sub depth 1 else i16_sub width depth in
    let head_x := if is_left then Z.max (i16_sub boundary_x 1) 0
                  else Z.min (i16_add boundary_x 1) (i16_sub width 1) in
    let '(_, y_start, y_end) :=
      default (boundary_x, height ÷ 2, height ÷ 2) (goal_bounds (gs_arena st) team) in
    let gate_top := Z.max y_start 0 in
    let gate_bottom := Z.min y_end (i16_sub height 1) in
    let gate_span := Z.max (i16_sub gate_bottom gate_top) 0 in
    (fun i =>
       let y :=
         if count =? 1 then i16_add gate_top gate_bottom ÷ 2
         else
           let spacing := f64_div (f64_of_Z gate_span)
                            (f64_add (f64_of_Z count) (f64_of_Z 1)) in
           let pos := f64_add (f64_of_Z gate_top)
                        (f64_mul spacing (f64_add (f64_of_Z i) (f64_of_Z 1))) in
           fint_as_i16 (fint_clamp gate_top gate_bottom (float_round pos)) in
       (mkPos head_x y, if is_left then Right else Left))
      <$> range_Z 0 (Z.to_nat count).

(** The indices of the snakes of one team. *)
Definition team_snakes (st : GameState) (team : TeamId) : list Z :=
  omap (fun '(idx, s) =>
          match sn_team_id s with
          | Some t => if t =? team then Some idx else None
          | None => None
          end) (iter_snakes st).

Definition calculate_team_starting_positions (st : GameState)
  : list (Position * Direction) :=
  let fallback :=
    calculate_starting_positions st (Z.of_nat (size (gs_players st))) in
  if negb (is_team_match (gs_game_type st)) then fallback
  else match team_zone_config (gs_arena st) with
  | None => fallback
  | Some config =>
      let t0 := team_snakes st 0 in
      let t1 := team_snakes st 1 in
      let assign := foldl (fun ps '(idx, pos) => vec_set ps idx (Some pos)) in
      let positions := replicate (length (gs_snakes st)) None in
      let positions :=
        assign positions (zip t0 (positions_for_side st config (vec_len t0) 0 true)) in
      let positions :=
        assign positions (zip t1 (positions_for_side st config (vec_len t1) 1 false)) in
      (fun '(idx, pos) =>
         match pos with
         | Some p => p
         | None => default (mkPos 0 0, Right) (vec_get fallback idx)
         end) <$> enumerate positions
  end.

(** The straight tail end behind a head, [len] cells in all. *)
Definition straight_tail (h : Position) (d : Direction) (len : Z) : Position :=
  let k := wrap_i16 (len - 1) in
  match d with
  | Left => mkPos (i16_add (px h) k) (py h)
  | Right => mkPos (i16_sub (px h) k) (py h)
  | Up => mkPos (px h) (i16_add (py h) k)
  | Down => mkPos (px h) (i16_sub (py h) k)
  end.

Definition starting_positions (st : GameState) (player_count : Z)
  : list (Position * Direction) :=
  if is_team_match (gs_game_type st) then calculate_team_starting_positions st
  else calculate_starting_positions st player_count.

Definition apply_starting_positions (st : GameState) (player_count : Z) : GameState :=
  let ps := starting_positions st player_count in
  let len := starting_snake_length st in
  with_snakes
    ((fun '(snake_id, s) =>
        match vec_get ps snake_id with
        | Some (h, d) => set_direction d (set_body [h; straight_tail h d len] s)
        | None => s
        end) <$> iter_snakes st) st.

(** [arena.snakes.iter().any(|s| s.is_alive && s.contains_point(p, false))]. *)
Definition occupied (st : GameState) (p : Position) : bool :=
  existsb (fun s => is_alive s && contains_point s p false) (gs_snakes st).

Definition respawn_event_for_snake (st : GameState) (snake_id : Z) : option GameEvent :=
  let ps := starting_positions st (Z.of_nat (size (gs_players st))) in
  let candidates := option_list (vec_get ps snake_id) ++ ps in
  match List.find (fun '(pos, _) => negb (occupied st pos)) candidates with
  | Some (pos, d) => Some (Ev_SnakeRespawned snake_id pos d)
  | None => None
  end.

(** ** Players and spectators *)

Definition fresh_snake (st : GameState) (team : option TeamId) : Snake :=
  {| body := [mkPos 0 0; mkPos 0 0]; direction := Right; is_alive := true;
     sn_food := 0; sn_team_id := team; speed_milli := NORMAL_SNAKE_SPEED_MILLI;
     movement_credit := 0;
     boost := {| charge_ms := default 0 (unlimited_boost_capacity_ms st);
                 active := false; intent := false |};
     combo := SnakeCombo_default |}.

Definition add_player_with_team (st : GameState) (user_id : Z)
    (username : option string) (team_override : option TeamId)
  : Result Player * GameState :=
  if bool_decide (is_Some (gs_players st !! user_id))
  then (Err "Player already exists", st)
  else if negb (gs_tick st =? 0)
  then (Err "Cannot add player after the game has started", st)
  else
    let st := match username with
              | Some name => with_usernames (<[user_id := name]> (gs_usernames st)) st
              | None => st
              end in
    let team :=
      if is_team_match (gs_game_type st) then
        match team_override with
        | Some team => Some team
        | None => Some (Z.of_nat (size (gs_players st)) mod 2)
        end
      else None in
    match add_snake (gs_arena st) (fresh_snake st team) with
    | Ok (snake_id, arena) =>
        let st := with_arena arena st in
        let player := mkPlayer user_id snake_id in
        let st := with_players (<[user_id := player]> (gs_players st)) st in
        let st := with_player_last_activity_ticks
                    (<[user_id := gs_tick st]> (gs_player_last_activity_ticks st)) st in
        (Ok player, apply_starting_positions st (Z.of_nat (size (gs_players st))))
    | Err e => (Err e, st)
    | Panic e => (Panic e, st)
    end.

Definition add_player (st : GameState) (user_id : Z) (username : option string)
  : Result Player * GameState :=
  add_player_with_team st user_id username None.

Definition set_player_skin (st : GameState) (user_id : Z) (skin_ref : option string)
  : GameState :=
  match skin_ref with
  | Some r => with_skins (<[user_id := r]> (gs_skins st)) st
  | None => with_skins (delete user_id (gs_skins st)) st
  end.

Definition set_team_base (st : GameState) (team : TeamId) (base_ref : option string)
  : GameState :=
  match base_ref with
  | Some r => with_team_bases (<[team := r]> (gs_team_bases st)) st
  | None => with_team_bases (delete team (gs_team_bases st)) st
  end.

Definition team_base (st : GameState) (team : TeamId) : option string :=
  gs_team_bases st !! team.

Definition add_spectator (st : GameState) (user_id : Z) (username : option string)
  : GameState :=
  let st := match username with
            | Some name => with_usernames (<[user_id := name]> (gs_usernames st)) st
            | None => st
            end in
  with_spectators ({[user_id]} ∪ gs_spectators st) st.

(** ** Readiness gate *)

Definition arm_readiness_gate (st : GameState) (deadline : Z) : GameState :=
  with_simulation_epoch_ms None
    (with_readiness (Some (mkMatchReadiness deadline ∅)) st).

Definition simulation_start_ms (st : GameState) : option Z :=
  match gs_readiness st with
  | Some _ => None
  | None => Some (default (gs_start_ms st) (gs_simulation_epoch_ms st))
  end.

Definition is_awaiting_readiness (st : GameState) : bool :=
  match gs_readiness st with Some _ => true | None => false end.

Definition is_user_ready (st : GameState) (user_id : Z) : bool :=
  match gs_readiness st with
  | Some r => bool_decide (user_id ∈ ready_user_ids r)
  | None => false
  end.

Definition players_pending_ready (st : GameState) : list Z :=
  match gs_readiness st with
  | None => []
  | Some r =>
      merge_sort Z.le
        (filter (fun u => u ∉ ready_user_ids r) (map_to_list (gs_players st)).*1)
  end.

Definition readiness_gate_resolves_at (st : GameState) (now_ms : Z) : bool :=
  match gs_readiness st with
  | None => false
  | Some r =>
      (deadline_ms r <=? now_ms)
      || match players_pending_ready st with [] => true | _ => false end
  end.

Definition accepts_ready_from (st : GameState) (user_id : Z) : bool :=
  match gs_readiness st with
  | Some r => bool_decide (user_id ∉ ready_user_ids r)
  | None => false
  end && bool_decide (is_Some (gs_players st !! user_id)).

(** ** Initial food *)

Definition food_position_free (st : GameState) (p : Position) : bool :=
  negb (has_food st p) && negb (is_boost_pad_position (gs_arena st) p)
  && negb (occupied st p).

(** The [while] loop, with the attempts left as fuel. *)
Fixpoint spawn_initial_food_loop `{F32Libm} (attempts_left : nat) (st : GameState)
  : GameState :=
  match attempts_left with
  | O => st
  | S attempts_left =>
      if vec_len (gs_food st) <? available_food_target (gs_properties st) then
        match gs_rng st with
        | Some rng =>
            let '(position, rng) :=
              sample_food_position rng (gs_game_type st) (gs_arena st) in
            let st := with_rng (Some rng) st in
            spawn_initial_food_loop attempts_left
              (if food_position_free st position
               then with_food (gs_food st ++ [position]) st else st)
        | None => spawn_initial_food_loop attempts_left st
        end
      else st
  end.

Definition spawn_initial_food `{F32Libm} (st : GameState) : GameState :=
  match gs_rng st with
  | None => st
  | Some _ => spawn_initial_food_loop 1000 st
  end.

(** ** Command scheduling and activity *)

Definition record_player_activity_for_command (st : GameState)
    (m : GameCommandMessage) (activity_tick : Z) : GameState :=
  let user_id := msg_user m in
  if is_player_idle_kicked st user_id then st
  else match command_snake (command m) with
  | None => st
  | Some snake_id =>
      match gs_players st !! user_id with
      | Some player =>
          if pl_snake_id player =? snake_id then
            with_player_last_activity_ticks
              (<[user_id := activity_tick]> (gs_player_last_activity_ticks st)) st
          else st
      | None => st
      end
  end.

(** The users that own a snake. *)
Definition owners (st : GameState) (snake_id : Z) : list Z :=
  (filter (fun '(_, p) => pl_snake_id p = snake_id) (map_to_list (gs_players st))).*1.

Definition list_min (l : list Z) : option Z :=
  match l with [] => None | x :: l => Some (foldr Z.min x l) end.

Definition record_player_action_for_snake (st : GameState) (snake_id : Z) : GameState :=
  match list_min (owners st snake_id) with
  | Some user_id =>
      let count := default 0 (gs_player_action_counts st !! user_id) in
      with_player_action_counts
        (<[user_id := sat_add_u32 count 1]> (gs_player_action_counts st)) st
  | None => st
  end.

Definition schedule_command (st : GameState) (m : GameCommandMessage) : GameState :=
  let refused :=
    match command_snake (command m) with
    | Some _ => bool_decide (gs_players st !! msg_user m = None)
                || is_player_idle_kicked st (msg_user m)
    | None => false
    end in
  if refused then st
  else
    let st := record_player_activity_for_command st m (gs_tick st) in
    with_command_queue (push (gs_command_queue st) m) st.

Definition has_scheduled_commands (st : GameState) (tick : Z) : bool :=
  has_commands_for_tick (gs_command_queue st) tick.

(** ** Inactivity *)

(** [entry(user).or_insert(current_tick)] for every player. *)
Definition ensure_player_idle_tracking (st : GameState) : GameState :=
  with_player_last_activity_ticks
    (gs_player_last_activity_ticks st ∪ ((fun _ => gs_tick st) <$> gs_players st)) st.

Definition team_scored (st : GameState) : bool :=
  is_team_match (gs_game_type st)
  || match gs_team_scores st with Some _ => true | None => false end.

Definition player_is_idle_contender (st : GameState) (user_id : Z) (p : Player) : bool :=
  if is_player_idle_kicked st user_id then false
  else if team_scored st then true
  else match vec_get (gs_snakes st) (pl_snake_id p) with
       | Some s => is_alive s
       | None => false
       end.

Definition active_players (st : GameState) : list (Z * Player) :=
  filter (fun '(u, p) => player_is_idle_contender st u p = true)
    (map_to_list (gs_players st)).

Definition snake_team (st : GameState) (snake_id : Z) : option TeamId :=
  match vec_get (gs_snakes st) snake_id with Some s => sn_team_id s | None => None end.

(** [min_by_key] on the user id. *)
Definition min_by_user (l : list (Z * Z)) : option (Z * Z) :=
  match l with
  | [] => None
  | x :: l => Some (foldl (fun m y => if y.1 <? m.1 then y else m) x l)
  end.

(** [None]: the match goes on; [Some w]: it is over and [w] is the winner. *)
Definition inactivity_winning_snake_id (st : GameState) : option (option Z) :=
  let actives := active_players st in
  if team_scored st then
    let teams : gset Z :=
      list_to_set (omap (fun '(_, p) => snake_team st (pl_snake_id p)) actives) in
    match elements teams with
    | [] => Some None
    | [winning_team] =>
        let on_team :=
          omap (fun '(u, p) =>
                  if bool_decide (snake_team st (pl_snake_id p) = Some winning_team)
                  then Some (u, pl_snake_id p) else None) actives in
        Some (snd <$> min_by_user on_team)
    | _ => None
    end
  else match actives with
  | [] => Some None
  | [(_, player)] => Some (Some (pl_snake_id player))
  | _ => None
  end.

Definition inactivity_xp_awards (st : GameState) (winning_snake_id : option Z)
  : gmap Z Z :=
  let winning_team := winning_snake_id ≫= snake_team st in
  map_imap (fun user_id player =>
      if is_player_idle_kicked st user_id then Some 0
      else
        let pickups := default 0 (gs_food_pickups st !! pl_snake_id player) in
        let player_team := snake_team st (pl_snake_id player) in
        let won :=
          match winning_snake_id with
          | Some winner =>
              (pl_snake_id player =? winner)
              || (bool_decide (is_Some winning_team)
                  && bool_decide (player_team = winning_team))
          | None => false
          end in
        Some (wrap_u32 (sat_mul_u32 pickups 10 + (if won then 50 else 10))))
    (gs_players st).
