(* ===== verification/Events.v ===== *)
(** * Applying events and executing commands

    [apply_event], [set_boost_intent], [exec_command] and
    [resolve_player_inactivity] of common/src/game_state.rs. The optional
    output vector is the list of numbered events emitted so far: a call with
    [Some(out)] is [emit], a call with [None] is [apply_event]. *)

From Stdlib Require Import ZArith.
From stdpp Require Import prelude strings countable list gmap sorting.
From S2P Require Import Prelude RustFloat Util Snake Arena CommandQueue GameState GameSetup.
Open Scope Z_scope.

Definition kill_snake (s : Snake) : Snake :=
  reset_combo (reset_boost_and_movement (set_alive false s) None).

Definition respawn_snake (position tail : Position) (d : Direction)
    (refill : option Z) (s : Snake) : Snake :=
  reset_combo
    (reset_boost_and_movement
       (set_sn_food 0 (set_alive true (set_direction d (set_body [position; tail] s))))
       refill).

Definition discard_commands_of (snake_id : Z) (st : GameState) : GameState :=
  with_command_queue
    (discard_player_commands_for_snake (gs_command_queue st) snake_id) st.

Definition eat_food (st : GameState) (snake_id points combo_chain : Z) : GameState :=
  let window_ms := cc_window_ms (pr_combo (gs_properties st)) in
  let st := update_snake snake_id (fun s =>
      set_combo {| chain_count := combo_chain; remaining_ms := window_ms |}
        (set_sn_food (sat_add_u32 (sn_food s) points) s)) st in
  let st := with_scores
      (<[snake_id := sat_add_u32 (default 0 (gs_scores st !! snake_id)) points]>
         (gs_scores st)) st in
  with_food_pickups
    (<[snake_id := sat_add_u32 (default 0 (gs_food_pickups st !! snake_id)) 1]>
       (gs_food_pickups st)) st.

(** The first pad with the given id, as [iter_mut().find]. *)
Fixpoint set_first_pad (id respawn_at : Z) (pads : list BoostPad) : list BoostPad :=
  match pads with
  | [] => []
  | pad :: rest =>
      if pad_id pad =? id then set_pad_respawn (Some respawn_at) pad :: rest
      else pad :: set_first_pad id respawn_at rest
  end.

Definition apply_event (event : GameEvent) (st : GameState) : GameState :=
  match event with
  | Ev_Snapshot game_state => game_state
  | Ev_SnakeTurned snake_id d => update_snake snake_id (set_direction d) st
  | Ev_SnakeDied snake_id cause =>
      let st := with_last_death_causes
                  (<[snake_id := cause]> (gs_last_death_causes st)) st in
      discard_commands_of snake_id (update_snake snake_id kill_snake st)
  | Ev_PlayerIdleKicked user_id snake_id =>
      let st := if is_player_idle_kicked st user_id then st
                else with_idle_kicked_user_ids
                       (sorted_insert user_id (gs_idle_kicked_user_ids st)) st in
      discard_commands_of snake_id
        (update_snake snake_id (fun s => set_boost SnakeBoost_default (kill_snake s)) st)
  | Ev_FoodSpawned position =>
      if has_food st position then st else with_food (gs_food st ++ [position]) st
  | Ev_FoodEaten snake_id position points combo_chain combo_remaining_ms_before _ =>
      if combo_event_fields_are_bounded st points combo_chain combo_remaining_ms_before
         && bool_decide (is_Some (vec_get (gs_snakes st) snake_id))
      then let '(removed, st) := remove_food st position in
           if removed then eat_food st snake_id points combo_chain else st
      else st
  | Ev_BoostPacketCollected id snake_id charge_ms_after respawn_at_tick =>
      let st := with_pads (set_first_pad id respawn_at_tick (gs_pads st)) st in
      match gs_boost st with
      | Some config =>
          if (0 <? charge_ms_after) && (charge_ms_after <=? bc_capacity_ms config)
             && is_multiple_of charge_ms_after BOOST_TICK_INTERVAL_MS
          then update_snake snake_id (set_charge charge_ms_after) st
          else st
      | None => st
      end
  | Ev_CommandScheduled m =>
      let st := record_player_activity_for_command st m (gs_tick st) in
      with_command_queue (push (gs_command_queue st) m) st
  | Ev_CommandScheduledV2 _ m deduplicated_replay =>
      if deduplicated_replay then st
      else
        let st := record_player_activity_for_command st m (gs_tick st) in
        with_command_queue (push (gs_command_queue st) m) st
  | Ev_CommandRejected _ _ command_id_client _ =>
      match command_id_client with
      | Some id =>
          with_command_queue (discard_speculative_command (gs_command_queue st) id) st
      | None => st
      end
  | Ev_StatusUpdated status => with_status status st
  | Ev_PlayerReady user_id =>
      match gs_readiness st with
      | Some r => with_readiness
                    (Some (mkMatchReadiness (deadline_ms r)
                             ({[user_id]} ∪ ready_user_ids r))) st
      | None => st
      end
  | Ev_MatchStartScheduled epoch =>
      match gs_readiness st with
      | Some _ => with_simulation_epoch_ms (Some epoch) (with_readiness None st)
      | None => st
      end
  | Ev_ScoreUpdated snake_id score =>
      with_scores (<[snake_id := score]> (gs_scores st)) st
  | Ev_TeamScoreUpdated team score =>
      match gs_team_scores st with
      | Some scores => with_team_scores (Some (<[team := score]> scores)) st
      | None => st
      end
  | Ev_SnakeRespawned snake_id position d =>
      let tail := straight_tail position d (starting_snake_length st) in
      let refill := unlimited_boost_capacity_ms st in
      discard_commands_of snake_id
        (update_snake snake_id (respawn_snake position tail d refill) st)
  | Ev_XPAwarded player_xp => with_player_xp player_xp st
  | Ev_TickHash _ _ => st
  end.

(** The emitted events, numbered by [event_sequence]. *)
Abbreviation Events := (list (Z * GameEvent)).

(** [apply_event(event, Some(&mut out))]. *)
Definition emit (event : GameEvent) (so : GameState * Events) : GameState * Events :=
  let '(st, out) := so in
  let seq := wrap_u64 (gs_event_sequence st + 1) in
  (apply_event event (with_event_sequence seq st), out ++ [(seq, event)]).

(** ** Commands *)

Definition gs_set_boost_intent (st : GameState) (snake_id : Z) (wants_boost : bool)
  : GameState :=
  match gs_boost st with
  | None => st
  | Some _ =>
      match vec_get (gs_snakes st) snake_id with
      | None => st
      | Some s =>
          let '(changed, s) := set_boost_intent s wants_boost in
          let st := with_snakes (vec_set (gs_snakes st) snake_id s) st in
          if changed then record_player_action_for_snake st snake_id else st
      end
  end.

Definition exec_command (cmd : GameCommand) (st : GameState) : Result Events * GameState :=
  match cmd with
  | Cmd_Turn snake_id d =>
      match vec_get (gs_snakes st) snake_id with
      | None => (Err "Snake not found", st)
      | Some s =>
          if is_alive s && bool_decide (direction s <> d) then
            if is_opposite (direction s) d || is_opposite (travel_direction s) d
            then (Ok [], st)
            else
              let '(st, out) := emit (Ev_SnakeTurned snake_id d) (st, []) in
              (Ok out, record_player_action_for_snake st snake_id)
          else (Ok [], st)
      end
  | Cmd_ActivateBoost snake_id => (Ok [], gs_set_boost_intent st snake_id true)
  | Cmd_DeactivateBoost snake_id => (Ok [], gs_set_boost_intent st snake_id false)
  | Cmd_PlayerActivity _ => (Ok [], st)
  | Cmd_UpdateStatus _ => (Ok [], st)
  end.

(** ** Inactivity deadlines *)

Definition idle_timeout_ms (st : GameState) : Z :=
  Z.max (player_idle_timeout_ms (gs_properties st)) (Z.max (gs_tick_duration_ms st) 1).

(** The contenders whose deadline is crossed at [post_tick], by user id. *)
Definition expired_players (st : GameState) (post_tick : Z) : list (Z * Z) :=
  let tick_duration_ms := Z.max (gs_tick_duration_ms st) 1 in
  merge_sort key_le
    (omap (fun '(user_id, player) =>
        let last_tick :=
          default (gs_tick st) (gs_player_last_activity_ticks st !! user_id) in
        let idle_ms := sat_mul_u32 (sat_sub post_tick last_tick) tick_duration_ms in
        if idle_timeout_ms st <=? idle_ms then Some (user_id, pl_snake_id player)
        else None) (active_players st)).

Definition resolve_player_inactivity (post_tick : Z) (so : GameState * Events)
  : bool * (GameState * Events) :=
  let '(st, out) := so in
  if negb (is_started st) || (Z.of_nat (size (gs_players st)) <? 2) then (false, so)
  else
    let st := ensure_player_idle_tracking st in
    match expired_players st post_tick with
    | [] => (false, (st, out))
    | expired =>
        let '(st, out) :=
          foldl (fun so '(user_id, snake_id) =>
                   emit (Ev_PlayerIdleKicked user_id snake_id) so) (st, out) expired in
        match inactivity_winning_snake_id st with
        | None => (false, (st, out))
        | Some winner =>
            let st := with_completed_by_inactivity true st in
            let so := emit (Ev_XPAwarded (inactivity_xp_awards st winner)) (st, out) in
            (true, emit (Ev_StatusUpdated (Complete winner)) so)
        end
    end.
