(* ===== verification/Validate.v ===== *)
(** * Snapshot validation, replicated events and construction

    [validate_boost_invariants], [validate_replicated_event_transition],
    [try_apply_replicated_event], [is_legacy_completed_snapshot],
    [GameState::new] and [GameState::new_with_boost_config] of
    common/src/game_state.rs. *)

From Stdlib Require Import ZArith SpecFloat.
From stdpp Require Import prelude strings countable list gmap sorting.
From S2P Require Import Prelude RustFloat Util Snake Arena CommandQueue GameState GameSetup.
From S2P Require Import Events.
Open Scope Z_scope.

(** ** Snapshot invariants, clause by clause *)

Definition check_combo (cfg : ComboConfig) (s : Snake) : Result unit :=
  ensure (remaining_ms (combo s) <=? cc_window_ms cfg)
    "Combo remaining_ms exceeds the configured window" ;;
  ensure (Bool.eqb (remaining_ms (combo s) =? 0) (chain_count (combo s) =? 0))
    "Combo chain and timer must be active or inactive together" ;;
  ensure (is_alive s || bool_decide (combo s = SnakeCombo_default))
    "dead snake must have an inactive Combo".

Definition has_snake (st : GameState) (snake_id : Z) : bool :=
  snake_id <? vec_len (gs_snakes st).

Definition attributed_snake (cause : DeathCause) : option Z :=
  match cause with
  | DC_SnakeBody killer => Some killer
  | DC_HeadToHead other => Some other
  | _ => None
  end.

Definition check_death (st : GameState) (entry : Z * DeathCause) : Result unit :=
  ensure (has_snake st entry.1) "last death cause references missing snake" ;;
  ensure (match attributed_snake entry.2 with
          | Some a => has_snake st a
          | None => true
          end) "last death cause references missing attributed snake".

Definition movement_threshold (st : GameState) : Z :=
  NORMAL_SNAKE_SPEED_MILLI * normal_movement_interval_ms st.

(** The geometry of a pad, without its cooldown. *)
Definition pad_shape (pad : BoostPad) : Z * Position * Z * Z :=
  (pad_id pad, pad_position pad, pad_charge_ms pad, pad_size_cells pad).

(** The cells of one pad, threading the set of cells seen so far. *)
Fixpoint check_cells (st : GameState) (field_left field_right : Z)
    (cells : list Position) (seen : gset Position) : Result (gset Position) :=
  match cells with
  | [] => Ok seen
  | cell :: rest =>
      ensure (negb ((px cell <? field_left) || (field_right <? px cell)
                    || (py cell <? 0)
                    || (wrap_i16 (height (gs_arena st)) <=? py cell)
                    || is_wall_position (gs_arena st) cell))
        "Boost pad footprint must stay in the playable main field" ;;
      ensure (bool_decide (cell ∉ seen)) "Boost pad footprints must not overlap" ;;
      ensure (negb (has_food st cell)) "food cannot overlap a Boost pad footprint" ;;
      check_cells st field_left field_right rest ({[cell]} ∪ seen)
  end.

Fixpoint check_pads (st : GameState) (config : BoostConfig)
    (field_left field_right : Z) (pads : list BoostPad) (ids : gset Z)
    (seen : gset Position) : Result unit :=
  match pads with
  | [] => Ok tt
  | pad :: rest =>
      ensure (bool_decide (pad_id pad ∉ ids)) "Boost pad IDs must be unique" ;;
      ensure (negb (negb ((pad_size_cells pad =? 1) || (pad_size_cells pad =? 2))
                    || (pad_charge_ms pad =? 0)
                    || (bc_capacity_ms config <? pad_charge_ms pad)
                    || negb (is_multiple_of (pad_charge_ms pad) BOOST_TICK_INTERVAL_MS)))
        "Boost pad footprint and charge must satisfy the configured layout" ;;
      ensure (vec_len (footprint_cells pad) =? pad_size_cells pad ^ 2)
        "Boost pad footprint overflowed coordinates" ;;
      seen ← check_cells st field_left field_right (footprint_cells pad) seen;
      ensure (match pad_respawn_at_tick pad with
              | Some t => negb (t <=? gs_tick st)
              | None => true
              end) "Boost pad cooldown must point to a future absolute tick" ;;
      check_pads st config field_left field_right rest ({[pad_id pad]} ∪ ids) seen
  end.

Definition check_boosted_snake (st : GameState) (config : BoostConfig) (s : Snake)
  : Result unit :=
  ensure (negb ((bc_capacity_ms config <? charge_ms (boost s))
                || negb (is_multiple_of (charge_ms (boost s)) BOOST_TICK_INTERVAL_MS)))
    "snake Boost charge must be whole-quantum and within capacity" ;;
  (if active (boost s)
   then ensure (negb ((charge_ms (boost s) =? 0)
                      || negb (speed_milli s =? bc_speed_milli config)))
          "active Boost requires funded charge and configured speed"
   else ensure (speed_milli s =? NORMAL_SNAKE_SPEED_MILLI)
          "inactive snake must have normal speed") ;;
  ensure (negb (bc_unlimited config && is_alive s
                && negb (charge_ms (boost s) =? bc_capacity_ms config)))
    "living snake in an unlimited Boost match must retain full charge" ;;
  ensure (negb (negb (is_alive s)
                && (negb (charge_ms (boost s) =? 0) || active (boost s)
                    || negb (movement_credit s =? 0))))
    "dead snake must have cleared Boost charge, activation and movement credit" ;;
  ensure (movement_credit s <? movement_threshold st)
    "snake movement credit must remain below one movement threshold".

Definition check_plain_snake (st : GameState) (s : Snake) : Result unit :=
  ensure (negb (negb (speed_milli s =? NORMAL_SNAKE_SPEED_MILLI)
                || negb (bool_decide (boost s = SnakeBoost_default))))
    "non-Boost snake must remain normal and uncharged" ;;
  ensure (movement_credit s <? movement_threshold st)
    "snake movement credit must remain below one movement threshold".

Definition expected_score_limit (st : GameState) : option Z :=
  if is_team_match (gs_game_type st) then Some (team_score_limit (gs_queue_mode st))
  else None.

Definition check_boost_config (st : GameState) (expected_config : option BoostConfig)
    (config : BoostConfig) : Result unit :=
  ensure (match expected_config with Some _ => true | None => false end)
    "Boost configuration is only valid for duel, 2v2, free-for-all and Solo" ;;
  BoostConfig_validate config ;;
  ensure (bc_spot_layout_version config
          =? match expected_config with
             | Some e => bc_spot_layout_version e
             | None => BOOST_SPOT_LAYOUT_VERSION_NONE
             end) "mode requires another Boost spot layout" ;;
  ensure (gs_tick_duration_ms st =? BOOST_TICK_INTERVAL_MS)
    "Boost match tick must be 50ms" ;;
  ensure (match time_limit_ms (gs_properties st) with None => true | Some _ => false end)
    "Boost matches must not carry a time limit" ;;
  ensure (bool_decide (score_limit (gs_properties st) = expected_score_limit st))
    "Boost match score limit must be the mode's" ;;
  let expected := pad_shape <$> boost_pad_layout (gs_arena st) config in
  let actual := pad_shape <$> gs_pads st in
  let expected_pad_count := if bc_unlimited config then 0 else 12 in
  ensure ((vec_len expected =? expected_pad_count) && bool_decide (actual = expected))
    "Boost layout requires the canonical pads" ;;
  '(field_left, field_right) ←
     match boost_field_bounds (gs_arena st) (bc_spot_layout_version config) with
     | Some bounds => Ok bounds
     | None =>
         if bc_unlimited config
         then Ok (0, i16_sub (wrap_i16 (width (gs_arena st))) 1)
         else Err "Boost layout is not drawable on this arena"
     end;
  check_pads st config field_left field_right (gs_pads st) ∅ ∅ ;;
  for_each (gs_snakes st) (check_boosted_snake st config).

Definition check_no_boost (st : GameState) (expected_config : option BoostConfig)
  : Result unit :=
  ensure (match expected_config with Some _ => false | None => true end)
    "mode on this arena requires Boost configuration" ;;
  ensure (match gs_pads st with [] => true | _ => false end)
    "non-Boost match cannot contain Boost pads" ;;
  for_each (gs_snakes st) (check_plain_snake st).

(** [windows(2).any(|pair| pair[0] >= pair[1])], negated. *)
Fixpoint strictly_increasing (l : list Z) : bool :=
  match l with
  | x :: l' => match l' with
               | y :: _ => (x <? y) && strictly_increasing l'
               | [] => true
               end
  | [] => true
  end.

Definition check_kicked (st : GameState) (user_id : Z) : Result unit :=
  player ← context "idle-kicked user is not a player" (gs_players st !! user_id);
  s ← context "idle-kicked user has no snake" (vec_get (gs_snakes st) (pl_snake_id player));
  ensure (negb (is_alive s)) "idle-kicked user must have a dead snake".

Definition check_inactivity (st : GameState) : Result unit :=
  let timeout_ms := player_idle_timeout_ms (gs_properties st) in
  let warning_ms := player_idle_warning_ms (gs_properties st) in
  ensure (negb ((timeout_ms =? 0) || (warning_ms =? 0) || (timeout_ms <=? warning_ms)))
    "player inactivity warning must be positive and shorter than timeout" ;;
  ensure (strictly_increasing (gs_idle_kicked_user_ids st))
    "idle-kicked player IDs must be sorted and unique" ;;
  for_each (gs_idle_kicked_user_ids st) (check_kicked st) ;;
  for_each (map_to_list (gs_player_last_activity_ticks st)) (fun '(user_id, t) =>
    ensure (bool_decide (is_Some (gs_players st !! user_id)) && (t <=? gs_tick st))
      "player activity tick must reference a current player at or before the snapshot tick") ;;
  ensure (negb (gs_completed_by_inactivity st) || is_complete st)
    "inactivity completion marker requires a terminal game".

Definition check_food_target (st : GameState) : Result unit :=
  match gs_game_type st with
  | Custom _ => Ok tt
  | g => ensure (available_food_target (gs_properties st) =? food_target_for g)
           "mode requires another food target"
  end.

Definition validate_boost_invariants (st : GameState) : Result unit :=
  ComboConfig_validate (pr_combo (gs_properties st)) ;;
  for_each (gs_snakes st) (check_combo (pr_combo (gs_properties st))) ;;
  for_each (map_to_list (gs_food_pickups st)) (fun e =>
    ensure (has_snake st e.1) "food pickup count references missing snake") ;;
  for_each (map_to_list (gs_last_death_causes st)) (check_death st) ;;
  let expected_config :=
    boost_config_for (gs_game_type st) (width (gs_arena st)) (height (gs_arena st)) in
  check_food_target st ;;
  (match gs_boost st with
   | Some config => check_boost_config st expected_config config
   | None => check_no_boost st expected_config
   end) ;;
  check_inactivity st.

(** ** Replicated events *)

Definition require_snake (st : GameState) (snake_id : Z) : Result Snake :=
  context "replicated event references missing snake" (vec_get (gs_snakes st) snake_id).

Definition head_is (s : Snake) (p : Position) : bool :=
  match head s with Ok h => bool_decide (h = p) | _ => false end.

Definition validate_food_eaten (st : GameState) (snake_id : Z) (position : Position)
    (points combo_chain combo_remaining_ms_before : Z) (boost_active : bool)
  : Result unit :=
  s ← require_snake st snake_id;
  ensure (combo_event_fields_are_bounded st points combo_chain combo_remaining_ms_before)
    "food event has invalid Combo award/context fields" ;;
  if has_food st position then
    ensure (negb (negb (is_alive s) || negb (head_is s position)))
      "food event snake is not alive on the pellet" ;;
    ensure (bool_decide (combo_pickup_context st s
                         = (points, combo_chain, combo_remaining_ms_before, boost_active)))
      "food event Combo telemetry does not match authoritative pre-pickup state"
  else Ok tt.

(** [self.tick.checked_add(n)]. *)
Definition checked_add_u32 (a b : Z) : option Z :=
  if a + b <=? u32_max then Some (a + b) else None.

Definition validate_boost_collected (st : GameState)
    (id snake_id charge_ms_after respawn_at_tick : Z) : Result unit :=
  config ← context "Boost collection delta has no snapshotted Boost config" (gs_boost st);
  pad ← context "Boost collection delta references missing pad"
          (List.find (fun pad => pad_id pad =? id) (gs_pads st));
  s ← require_snake st snake_id;
  ensure (is_alive s && match head s with
                        | Ok h => pad_contains pad h
                        | _ => false
                        end) "Boost collection delta snake is not alive on pad" ;;
  (if gs_tick_duration_ms st =? 0 then Panic "attempt to divide by zero" else Ok tt) ;;
  let cooldown_ticks := bc_pad_respawn_ms config / gs_tick_duration_ms st in
  expected ← context "Boost collection cooldown tick overflow"
               (checked_add_u32 (gs_tick st) cooldown_ticks);
  ensure (respawn_at_tick =? expected)
    "Boost collection delta has another respawn tick" ;;
  match pad_respawn_at_tick pad with
  | Some existing =>
      ensure ((existing =? respawn_at_tick) && (charge_ms (boost s) =? charge_ms_after))
        "Boost collection delta conflicts with pad cooldown"
  | None =>
      let expected_charge :=
        Z.min (sat_add_u32 (charge_ms (boost s)) (pad_charge_ms pad))
          (bc_capacity_ms config) in
      ensure (negb ((bc_capacity_ms config <=? charge_ms (boost s))
                    || negb (charge_ms_after =? expected_charge)))
        "Boost collection delta has another charge"
  end.

Definition validate_replicated_event_transition (st : GameState) (event : GameEvent)
  : Result unit :=
  match event with
  | Ev_Snapshot game_state => validate_boost_invariants game_state
  | Ev_SnakeTurned snake_id _ | Ev_ScoreUpdated snake_id _
  | Ev_SnakeRespawned snake_id _ _ => require_snake st snake_id ;; Ok tt
  | Ev_SnakeDied snake_id cause =>
      require_snake st snake_id ;;
      match attributed_snake cause with
      | Some a => require_snake st a ;; Ok tt
      | None => Ok tt
      end
  | Ev_FoodEaten snake_id position points chain remaining b =>
      validate_food_eaten st snake_id position points chain remaining b
  | Ev_PlayerIdleKicked user_id snake_id =>
      s ← require_snake st snake_id;
      player ← context "idle-kick event references missing player"
                 (gs_players st !! user_id);
      ensure (pl_snake_id player =? snake_id)
        "idle-kick event snake is not owned by player" ;;
      ensure (negb (is_player_idle_kicked st user_id && is_alive s))
        "idle-kick event conflicts with a live removed player"
  | Ev_BoostPacketCollected id snake_id charge respawn =>
      validate_boost_collected st id snake_id charge respawn
  | Ev_CommandScheduled m | Ev_CommandScheduledV2 _ m _ =>
      match command_snake (command m) with
      | Some snake_id => require_snake st snake_id ;; Ok tt
      | None => Ok tt
      end
  | Ev_TeamScoreUpdated team _ =>
      ensure (match gs_team_scores st with
              | Some scores => bool_decide (is_Some (scores !! team))
              | None => false
              end) "replicated score event references missing team"
  | Ev_PlayerReady user_id =>
      ensure (bool_decide (is_Some (gs_players st !! user_id)))
        "replicated readiness references a user who is not a player"
  | Ev_FoodSpawned _ | Ev_CommandRejected _ _ _ _ | Ev_StatusUpdated _
  | Ev_MatchStartScheduled _ | Ev_XPAwarded _ | Ev_TickHash _ _ => Ok tt
  end.

(** The outcome and the state afterwards. *)
Definition try_apply_replicated_event (st : GameState) (event : GameEvent)
  : Result unit * GameState :=
  match validate_replicated_event_transition st event with
  | Ok _ =>
      let candidate := apply_event event st in
      match validate_boost_invariants candidate with
      | Ok _ => (Ok tt, candidate)
      | Err e => (Err e, st)
      | Panic e => (Panic e, st)
      end
  | Err e => (Err e, st)
  | Panic e => (Panic e, st)
  end.

(** ** Legacy snapshots *)

Definition is_eligible_team (g : GameType) : bool :=
  match g with
  | TeamMatch per_team => (per_team =? 1) || (per_team =? 2)
  | _ => false
  end.

Definition legacy_snake (s : Snake) : bool :=
  (speed_milli s =? NORMAL_SNAKE_SPEED_MILLI) && (movement_credit s =? 0)
  && bool_decide (boost s = SnakeBoost_default)
  && bool_decide (combo s = SnakeCombo_default).

Definition is_legacy_completed_snapshot (st : GameState) : bool :=
  let pr := gs_properties st in
  if negb (is_complete st) then false
  else match pr_boost pr with
  | None =>
      let check (legacy_time_limit_ms : option Z) :=
        match boost_config_for (gs_game_type st) (width (gs_arena st))
                (height (gs_arena st)) with Some _ => true | None => false end
        && (available_food_target pr =? DEFAULT_FOOD_TARGET)
        && (tick_duration_ms pr =? DEFAULT_TICK_INTERVAL_MS)
        && bool_decide (time_limit_ms pr = legacy_time_limit_ms)
        && match score_limit pr with None => true | Some _ => false end
        && match gs_pads st with [] => true | _ => false end
        && forallb legacy_snake (gs_snakes st) in
      match gs_game_type st with
      | TeamMatch per_team =>
          if (per_team =? 1) || (per_team =? 2) then check (Some 90000) else false
      | Solo | FreeForAll _ => check None
      | Custom _ => false
      end
  | Some _ =>
      if negb (is_eligible_team (gs_game_type st))
         || negb (bool_decide (time_limit_ms pr = Some 90000))
         || match score_limit pr with None => false | Some _ => true end
      then false
      else
        let migrated := with_properties
          {| pr with available_food_target := food_target_for (gs_game_type st);
                     time_limit_ms := None;
                     score_limit := Some (team_score_limit (gs_queue_mode st)) |} st in
        is_ok (validate_boost_invariants migrated)
  end.

(** ** Construction *)

Definition goal_width_for (height : Z) : Z :=
  let w := Z.max (fint_as_u16 (float_round (f32_mul (f32_of_Z height) f32_lit_0_2))) 3 in
  if is_multiple_of w 2 then w + 1 else w.

Definition new_game_state (width height : Z) (game_type : GameType)
    (queue_mode : QueueMode) (rng_seed : option Z) (start_ms : Z) : GameState :=
  let boost := boost_config_for game_type width height in
  let boost_tick_ms := match boost with
                       | Some _ => BOOST_TICK_INTERVAL_MS
                       | None => DEFAULT_TICK_INTERVAL_MS
                       end in
  let '(tick_ms, limit) :=
    match game_type with
    | Custom settings => (cg_tick_duration_ms settings, None)
    | TeamMatch _ => (boost_tick_ms, Some (team_score_limit queue_mode))
    | _ => (boost_tick_ms, None)
    end in
  let properties :=
    {| available_food_target := food_target_for game_type;
       tick_duration_ms := tick_ms; time_limit_ms := None; score_limit := limit;
       pr_boost := boost; pr_combo := ComboConfig_default;
       player_idle_timeout_ms := DEFAULT_PLAYER_IDLE_TIMEOUT_MS;
       player_idle_warning_ms := DEFAULT_PLAYER_IDLE_WARNING_MS |} in
  let zones := if is_team_match game_type
               then Some (mkTeamZoneConfig 10 (goal_width_for height)) else None in
  let team_scores : option (gmap Z Z) :=
    if is_team_match game_type then Some (<[1 := 0]> (<[0 := 0]> ∅)) else None in
  let arena := {| width := width; height := height; snakes := []; food := [];
                  boost_pads := []; team_zone_config := zones |} in
  let arena := match boost with
               | Some config => set_pads (boost_pad_layout arena config) arena
               | None => arena
               end in
  {| gs_tick := 0; gs_status := Stopped; gs_arena := arena; gs_recent_crashes := [];
     gs_recent_goals := []; gs_last_death_causes := ∅; gs_game_type := game_type;
     gs_queue_mode := queue_mode; gs_is_stress_test := false;
     gs_properties := properties; gs_command_queue := CommandQueue_new;
     gs_players := ∅; gs_rng := PseudoRandom_new <$> rng_seed; gs_game_code := None;
     gs_host_user_id := None; gs_start_ms := start_ms; gs_event_sequence := 0;
     gs_usernames := ∅; gs_skins := ∅; gs_team_bases := ∅; gs_spectators := ∅;
     gs_scores := ∅; gs_food_pickups := ∅; gs_team_scores := team_scores;
     gs_player_xp := ∅; gs_player_action_counts := ∅;
     gs_player_last_activity_ticks := ∅; gs_idle_kicked_user_ids := [];
     gs_completed_by_inactivity := false; gs_readiness := None;
     gs_simulation_epoch_ms := None |}.

Definition GameState_new (width height : Z) (game_type : GameType)
    (queue_mode : QueueMode) (rng_seed : option Z) (start_ms : Z) : Result GameState :=
  let st := new_game_state width height game_type queue_mode rng_seed start_ms in
  match validate_boost_invariants st with
  | Ok _ => Ok st
  | _ => Panic "new game must satisfy Boost invariants"
  end.

Definition GameState_new_with_boost_config (width height : Z) (game_type : GameType)
    (queue_mode : QueueMode) (rng_seed : option Z) (start_ms : Z)
    (boost_config : BoostConfig) : Result GameState :=
  BoostConfig_validate boost_config ;;
  ensure (match game_type with
          | TeamMatch _ => is_eligible_team game_type
          | FreeForAll _ | Solo => true
          | Custom _ => false
          end) "explicit Boost configuration requires duel, 2v2, free-for-all or Solo" ;;
  st ← GameState_new width height game_type queue_mode rng_seed start_ms;
  let pr := gs_properties st in
  let st := with_properties {| pr with pr_boost := Some boost_config |} st in
  let st := with_pads (boost_pad_layout (gs_arena st) boost_config) st in
  validate_boost_invariants st ;;
  Ok st.
