(* ===== verification/Tick.v ===== *)
(** * One simulation quantum

    [tick_forward_observing_boost] of common/src/game_state.rs, phase by
    phase in the order of the source. A phase that can fail returns a
    [Result]; [tick_forward] pairs the outcome with the state it leaves
    behind (an early [?] returns with the mutations made so far) and with the
    Boost transitions its observer saw. *)

From Stdlib Require Import ZArith.
From stdpp Require Import prelude strings countable list gmap sorting.
From S2P Require Import Prelude RustFloat Util Snake Arena CommandQueue GameState GameSetup.
From S2P Require Import Events.
Open Scope Z_scope.

Abbreviation Observed := (list BoostLifecycleTransition).

(** ** Before movement *)

Definition quantum_ms (st : GameState) : Z := Z.max (gs_tick_duration_ms st) 1.

(** A cue of tick [t] is within its retention window. *)
Definition cue_fresh (st : GameState) (limit t : Z) : Prop :=
  sat_mul_u32 (sat_sub (gs_tick st) t) (quantum_ms st) <= limit.

#[global] Instance cue_fresh_dec st limit t : Decision (cue_fresh st limit t).
Proof. unfold cue_fresh. apply _. Defined.

Definition prune_cues (st : GameState) : GameState :=
  let st := with_recent_crashes
    (filter (fun c => cue_fresh st RECENT_CRASH_RETENTION_MS (crash_tick c))
       (gs_recent_crashes st)) st in
  with_recent_goals
    (filter (fun g => cue_fresh st RECENT_GOAL_RETENTION_MS (goal_tick g))
       (gs_recent_goals st)) st.

Definition first_tick_snapshot (so : GameState * Events) : GameState * Events :=
  let '(st, out) := so in
  if gs_tick st =? 0 then
    let seq := wrap_u64 (gs_event_sequence st + 1) in
    let st := with_event_sequence seq st in
    (st, out ++ [(seq, Ev_Snapshot st)])
  else so.

Definition drain_combos (st : GameState) : GameState :=
  with_snakes ((fun s => drain_combo s (quantum_ms st)) <$> gs_snakes st) st.

Definition respawn_pads (post_tick : Z) (st : GameState) : GameState :=
  with_pads ((fun pad =>
      match pad_respawn_at_tick pad with
      | Some t => if t <=? post_tick then set_pad_respawn None pad else pad
      | None => pad
      end) <$> gs_pads st) st.

(** [while let Some(message) = self.command_queue.pop(self.tick)]: turns are
    held back, every other command runs. Each round removes a message, so the
    queue's size bounds the rounds. *)
Fixpoint due_commands_loop (fuel : nat) (so : GameState * Events)
    (turns : list GameCommandMessage)
  : GameState * Events * list GameCommandMessage :=
  match fuel with
  | O => (so, turns)
  | S fuel =>
      let '(st, out) := so in
      match pop (gs_command_queue st) (gs_tick st) with
      | (None, q) => ((with_command_queue q st, out), turns)
      | (Some m, q) =>
          let st := with_command_queue q st in
          match command m with
          | Cmd_Turn _ _ => due_commands_loop fuel (st, out) (turns ++ [m])
          | cmd =>
              match exec_command cmd st with
              | (Ok events, st) => due_commands_loop fuel (st, out ++ events) turns
              | (_, st) => due_commands_loop fuel (st, out) turns
              end
          end
      end
  end.

Definition run_due_commands (so : GameState * Events)
  : GameState * Events * list GameCommandMessage :=
  due_commands_loop (S (length (queue (gs_command_queue so.1)))) so [].

Definition resolve_boosts (st : GameState) : GameState * Observed :=
  match gs_boost st with
  | None => (st, [])
  | Some config =>
      let rs := (fun s => resolve_boost s (bc_speed_milli config) (bc_capacity_ms config))
                  <$> gs_snakes st in
      (with_snakes (rs.*2) st,
       omap (fun '(snake_id, r) =>
               match r.1 with
               | Some BR_Activated => Some (BL_Activated snake_id)
               | Some BR_Deactivated => Some (BL_ManuallyStopped snake_id)
               | None => None
               end) (enumerate rs))
  end.

Definition reserve_boosts (st : GameState) : GameState :=
  let unlimited := match gs_boost st with
                   | Some config => bc_unlimited config
                   | None => false
                   end in
  with_snakes ((fun s => snd (reserve_boost_quantum s unlimited)) <$> gs_snakes st) st.

(** The snakes with their new credit, and the ids of those that move. *)
Fixpoint accrue_all (i : Z) (l : list Snake) (tick interval : Z)
  : Result (gset Z * list Snake) :=
  match l with
  | [] => Ok (∅, [])
  | s :: l =>
      '(moves, s) ← accrue_movement_credit s tick interval;
      '(movers, l) ← accrue_all (i + 1) l tick interval;
      Ok (if moves : bool then {[i]} ∪ movers else movers, s :: l)
  end.

(** The held turns: one turn per mover and quantum, the rest deferred. *)
Fixpoint turns_loop (movers : gset Z) (msgs : list GameCommandMessage)
    (so : GameState * Events) (turned : gset Z) (deferred : list GameCommandMessage)
    {struct msgs} : GameState * Events * list GameCommandMessage :=
  match msgs with
  | [] => (so, deferred)
  | m :: msgs =>
      match command m with
      | Cmd_Turn snake_id _ =>
          let '(st, out) := so in
          let snake_is_alive := match vec_get (gs_snakes st) snake_id with
                                | Some s => is_alive s
                                | None => false
                                end in
          if snake_is_alive
             && (bool_decide (snake_id ∉ movers) || bool_decide (snake_id ∈ turned))
          then turns_loop movers msgs so turned (deferred ++ [m])
          else
            match exec_command (command m) st with
            | (Ok events, st) =>
                let newly := omap (fun '(_, e) =>
                    match e with Ev_SnakeTurned i _ => Some i | _ => None end) events in
                turns_loop movers msgs (st, out ++ events) (list_to_set newly ∪ turned)
                  deferred
            | (_, st) => turns_loop movers msgs (st, out) turned deferred
            end
      | _ => turns_loop movers msgs so turned deferred
      end
  end.

Definition retick (next_tick : Z) (m : GameCommandMessage) : GameCommandMessage :=
  match command_id_server m with
  | Some i =>
      mkMsg (command_id_client m)
        (Some (mkCommandId next_tick (cid_user_id i) (cid_sequence_number i))) (command m)
  | None =>
      let i := command_id_client m in
      mkMsg (mkCommandId next_tick (cid_user_id i) (cid_sequence_number i)) None
        (command m)
  end.

Definition requeue_deferred (deferred : list GameCommandMessage) (st : GameState)
  : GameState :=
  let next_tick := wrap_u32 (gs_tick st + 1) in
  with_command_queue
    (foldl (fun q m => push q (retick next_tick m)) (gs_command_queue st) deferred) st.

(** ** Movement and collisions *)

Definition move_snakes (movers : gset Z) (st : GameState) : GameState :=
  with_snakes
    ((fun '(snake_id, s) => if bool_decide (snake_id ∈ movers) then step_forward s else s)
       <$> iter_snakes st) st.

(** How [snake_id]'s head ran into the alive snake [other]. *)
Definition contact_cause (old_snakes : list Snake) (movers : gset Z)
    (snake_id : Z) (h : Position) (other_id : Z) (other : Snake) : Result DeathCause :=
  if snake_id =? other_id then Ok DC_SelfCollision
  else if is_head other h then Ok (DC_HeadToHead other_id)
  else if bool_decide (other_id ∈ movers) then
    old ← index old_snakes snake_id;
    old_head ← head old;
    other_head ← head other;
    if bool_decide (old_head = other_head) then
      old_other ← index old_snakes other_id;
      old_other_head ← head old_other;
      Ok (if bool_decide (old_other_head = h) then DC_HeadToHead other_id
          else DC_SnakeBody other_id)
    else Ok (DC_SnakeBody other_id)
  else Ok (DC_SnakeBody other_id).

(** The inner loop over the other snakes: the first contact. *)
Fixpoint first_contact (old_snakes : list Snake) (movers : gset Z)
    (snake_id : Z) (h : Position) (others : list (Z * Snake))
  : Result (option DeathCause) :=
  match others with
  | [] => Ok None
  | (other_id, other) :: rest =>
      if is_alive other && contains_point other h (snake_id =? other_id)
      then cause ← contact_cause old_snakes movers snake_id h other_id other;
           Ok (Some cause)
      else first_contact old_snakes movers snake_id h rest
  end.

Definition crash_of (old_snakes : list Snake) (movers : gset Z) (st : GameState)
    (snake_id : Z) (s : Snake) : Result (option (Position * DeathCause)) :=
  let width := wrap_i16 (width (gs_arena st)) in
  let height := wrap_i16 (height (gs_arena st)) in
  h ← head s;
  if is_alive s && bool_decide (snake_id ∈ movers) then
    if is_wall_position (gs_arena st) h then Ok (Some (h, DC_Wall))
    else if match sn_team_id s with
            | Some team => is_in_enemy_base (gs_arena st) h team
            | None => false
            end then Ok (Some (h, DC_EnemyBase))
    else if negb ((0 <=? px h) && (px h <? width) && (0 <=? py h) && (py h <? height))
    then Ok (Some (h, DC_OutOfBounds))
    else
      contact ← first_contact old_snakes movers snake_id h (iter_snakes st);
      Ok (match contact with Some cause => Some (h, cause) | None => None end)
  else Ok None.

(** The outer loop; the snakes are visited by id, so the result is already in
    the order the source sorts it into. *)
Fixpoint find_crashes (old_snakes : list Snake) (movers : gset Z) (st : GameState)
    (l : list (Z * Snake)) : Result (list (Z * (Position * DeathCause))) :=
  match l with
  | [] => Ok []
  | (snake_id, s) :: l =>
      c ← crash_of old_snakes movers st snake_id s;
      rest ← find_crashes old_snakes movers st l;
      Ok (match c with Some p => (snake_id, p) :: rest | None => rest end)
  end.

(** [i16::clamp], which panics when the bounds are reversed. *)
Definition i16_clamp (x lo hi : Z) : Result Z :=
  if lo <=? hi then Ok (Z.max lo (Z.min hi x)) else Panic "assertion failed: min <= max".

Definition kill_crashed (old_snakes : list Snake) (so : GameState * Events)
    (crash : Z * (Position * DeathCause)) : Result (GameState * Events) :=
  let '(st, out) := so in
  let '(snake_id, (attempted_head, cause)) := crash in
  old ← index old_snakes snake_id;
  let st := with_snakes (vec_set (gs_snakes st) snake_id old) st in
  x ← i16_clamp (px attempted_head) 0
        (Z.max i16_min (wrap_i16 (width (gs_arena st)) - 1));
  y ← i16_clamp (py attempted_head) 0
        (Z.max i16_min (wrap_i16 (height (gs_arena st)) - 1));
  let st := with_recent_crashes
    (gs_recent_crashes st
       ++ [mkSnakeCrash (sat_add_u32 (gs_tick st) 1) snake_id (mkPos x y) cause]) st in
  let '(st, out) := emit (Ev_SnakeDied snake_id cause) (st, out) in
  if is_team_match (gs_game_type st) then
    match respawn_event_for_snake st snake_id with
    | Some event => Ok (emit event (st, out))
    | None => Ok (st, out)
    end
  else Ok (st, out).

Fixpoint kill_all (old_snakes : list Snake) (so : GameState * Events)
    (crashes : list (Z * (Position * DeathCause))) {struct crashes}
  : Result (GameState * Events) :=
  match crashes with
  | [] => Ok so
  | c :: crashes =>
      match kill_crashed old_snakes so c with
      | Ok so => kill_all old_snakes so crashes
      | Err e => Err e
      | Panic e => Panic e
      end
  end.

(** ** Food and pads *)

Fixpoint food_events (st : GameState) (l : list (Z * Snake)) (claimed : gset Position)
  : Result (list GameEvent) :=
  match l with
  | [] => Ok []
  | (snake_id, s) :: l =>
      h ← head s;
      if is_alive s && has_food st h && bool_decide (h ∉ claimed) then
        let '(points, combo_chain, before, boost_active) := combo_pickup_context st s in
        rest ← food_events st l ({[h]} ∪ claimed);
        Ok (Ev_FoodEaten snake_id h points combo_chain before boost_active :: rest)
      else food_events st l claimed
  end.

Definition eat_one (so : GameState * Events) (event : GameEvent) : GameState * Events :=
  match event with
  | Ev_FoodEaten snake_id _ _ _ _ _ =>
      let old_score := default 0 (gs_scores so.1 !! snake_id) in
      let so := emit event so in
      let score := default 0 (gs_scores so.1 !! snake_id) in
      if negb (score =? old_score) then emit (Ev_ScoreUpdated snake_id score) so else so
  | _ => so
  end.

Definition pad_collector (st : GameState) (pad : BoostPad) : option Z :=
  list_min (omap (fun '(snake_id, s) =>
      if is_alive s && match head s with Ok h => pad_contains pad h | _ => false end
      then Some snake_id else None) (iter_snakes st)).

Definition collect_pad (post_tick : Z) (config : BoostConfig)
    (so : GameState * Events) (pad : BoostPad) : GameState * Events :=
  let '(st, out) := so in
  let cooldown_ticks := bc_pad_respawn_ms config / quantum_ms st in
  match pad_collector st pad with
  | None => so
  | Some snake_id =>
      match vec_get (gs_snakes st) snake_id with
      | None => so
      | Some s =>
          let '(charge, s) := collect_boost_charge s (pad_charge_ms pad)
                                (bc_capacity_ms config) in
          let st := with_snakes (vec_set (gs_snakes st) snake_id s) st in
          match charge with
          | None => (st, out)
          | Some charge_ms_after =>
              emit (Ev_BoostPacketCollected (pad_id pad) snake_id charge_ms_after
                      (sat_add_u32 post_tick cooldown_ticks)) (st, out)
          end
      end
  end.

(** The available pads by id; [sort_unstable_by_key(|pad| pad.id)]. *)
Definition available_pads (st : GameState) : list BoostPad :=
  snd <$> merge_sort key_le
    ((fun pad => (pad_id pad, pad)) <$>
       filter (fun pad => pad_respawn_at_tick pad = None) (gs_pads st)).

Definition collect_pads (post_tick : Z) (so : GameState * Events) : GameState * Events :=
  match gs_boost so.1 with
  | None => so
  | Some config => foldl (collect_pad post_tick config) so (available_pads so.1)
  end.

Definition finalize_boosts (st : GameState) : GameState * Observed :=
  let rs := finalize_boost_depletion <$> gs_snakes st in
  (with_snakes (rs.*2) st,
   omap (fun '(snake_id, r) => if r.1 : bool then Some (BL_Depleted snake_id) else None)
     (enumerate rs)).

Definition spawn_food `{F32Libm} (movement_only : bool) (so : GameState * Events)
  : GameState * Events :=
  let '(st, out) := so in
  if negb movement_only && food_refill_due st
     && (vec_len (gs_food st) <? available_food_target (gs_properties st)) then
    match gs_rng st with
    | None => so
    | Some rng =>
        let '(position, rng) := sample_food_position rng (gs_game_type st) (gs_arena st) in
        let st := with_rng (Some rng) st in
        if food_position_free st position
        then emit (Ev_FoodSpawned position) (st, out) else (st, out)
    end
  else so.

(** ** Goals and scoring *)

Definition goal_cue (old_snakes : list Snake) (movers : gset Z) (st : GameState)
    (entry : Z * Snake) : option TeamGoal :=
  let '(snake_id, s) := entry in
  if negb (is_alive s) || bool_decide (snake_id ∉ movers) then None
  else match sn_team_id s, head s with
  | Some team, Ok h =>
      if negb (is_in_team_base (gs_arena st) h team) then None
      else
        let entered :=
          match vec_get old_snakes snake_id with
          | Some previous =>
              match head previous with
              | Ok p => negb (is_in_team_base (gs_arena st) p team)
              | _ => true
              end
          | None => true
          end in
        let points := carried_food st s in
        if negb entered || (points =? 0) then None
        else Some (mkTeamGoal (sat_add_u32 (gs_tick st) 1) team snake_id h points)
  | _, _ => None
  end.

Definition record_goal_cues (old_snakes : list Snake) (movers : gset Z) (st : GameState)
  : GameState :=
  match gs_team_scores st with
  | Some _ =>
      if is_team_match (gs_game_type st) then
        with_recent_goals
          (gs_recent_goals st ++ omap (goal_cue old_snakes movers st) (iter_snakes st)) st
      else st
  | None => st
  end.

(** A living snake in its own base with something to bank. *)
Definition banking (st : GameState) (entry : Z * Snake) : option (Z * TeamId * Z) :=
  let '(snake_id, s) := entry in
  if negb (is_alive s) then None
  else match sn_team_id s, head s with
  | Some team, Ok h =>
      let carried := carried_food st s in
      if is_in_team_base (gs_arena st) h team && negb (carried =? 0)
      then Some (snake_id, team, carried) else None
  | _, _ => None
  end.

Definition bankers (st : GameState) : list (Z * TeamId * Z) :=
  omap (banking st) (iter_snakes st).

(** [*team_score_deltas.entry(team_id).or_default() += carried_food]. *)
Definition score_deltas (bs : list (Z * TeamId * Z)) : gmap Z Z :=
  foldl (fun (m : gmap Z Z) '(_, team, carried) =>
           <[team := wrap_u32 (default 0 (m !! team) + carried)]> m) ∅ bs.

Definition add_team_score (so : GameState * Events) (entry : Z * Z)
  : GameState * Events :=
  let '(team, delta) := entry in
  let current := default 0 (gs_team_scores so.1 ≫= (fun m => m !! team)) in
  emit (Ev_TeamScoreUpdated team (wrap_u32 (current + delta))) so.

Definition bank_and_respawn (so : GameState * Events) (snake_id : Z)
  : GameState * Events :=
  let so := emit (Ev_SnakeDied snake_id DC_Banked) so in
  match respawn_event_for_snake so.1 snake_id with
  | Some event => emit event so
  | None => so
  end.

Definition score_goals (so : GameState * Events) : GameState * Events :=
  let st := so.1 in
  match gs_team_scores st with
  | Some _ =>
      if is_team_match (gs_game_type st) then
        let bs := bankers st in
        let so := foldl add_team_score so
                    (merge_sort key_le (map_to_list (score_deltas bs))) in
        foldl bank_and_respawn so ((fun b => b.1.1) <$> bs)
      else so
  | None => so
  end.

(** ** Completion *)

Definition leading_team (scores : gmap Z Z) : option TeamId :=
  match (map_to_list scores).*2 with
  | [] => None
  | v :: vs =>
      let max_score := foldr Z.max v vs in
      match filter (fun '(_, s) => s = max_score) (map_to_list scores) with
      | [(leader, _)] => Some leader
      | _ => None
      end
  end.

Definition find_snake (P : Snake -> bool) (st : GameState) : option Z :=
  fst <$> List.find (fun '(_, s) => P s) (iter_snakes st).

Definition on_team (team : TeamId) (s : Snake) : bool :=
  bool_decide (sn_team_id s = Some team).

Definition winning_snake (st : GameState) (winning_team : option TeamId) : option Z :=
  match winning_team with
  | None => None
  | Some team =>
      match find_snake (fun s => on_team team s && is_alive s) st with
      | Some i => Some i
      | None => find_snake (on_team team) st
      end
  end.

(** The award of one player; the index of its snake may be out of range. *)
Definition team_xp (st : GameState) (winning_team : option TeamId)
    (entry : Z * Player) : Result Z :=
  let '(user_id, player) := entry in
  if is_player_idle_kicked st user_id then Ok 0
  else
    let pickups := default 0 (gs_food_pickups st !! pl_snake_id player) in
    s ← index (gs_snakes st) (pl_snake_id player);
    let is_winner := match winning_team with
                     | Some team => on_team team s
                     | None => false
                     end in
    Ok (wrap_u32 (sat_mul_u32 pickups 10 + (if is_winner then 50 else 10))).

Fixpoint team_xp_awards (st : GameState) (winning_team : option TeamId)
    (l : list (Z * Player)) : Result (gmap Z Z) :=
  match l with
  | [] => Ok ∅
  | (user_id, player) :: l =>
      xp ← team_xp st winning_team (user_id, player);
      m ← team_xp_awards st winning_team l;
      Ok (<[user_id := xp]> m)
  end.

Definition solo_xp_awards (st : GameState) : gmap Z Z :=
  map_imap (fun user_id player =>
      if is_player_idle_kicked st user_id then Some 0
      else Some (wrap_u32
             (sat_mul_u32 (default 0 (gs_food_pickups st !! pl_snake_id player)) 10 + 10)))
    (gs_players st).

Definition finish (xp : gmap Z Z) (winner : option Z) (so : GameState * Events)
  : GameState * Events :=
  emit (Ev_StatusUpdated (Complete winner)) (emit (Ev_XPAwarded xp) so).

Definition score_reached (st : GameState) (limit : Z) : bool :=
  match gs_team_scores st with
  | Some scores => existsb (fun v => limit <=? v) (map_to_list scores).*2
  | None => false
  end.

Definition check_completion (so : GameState * Events) : Result (GameState * Events) :=
  let st := so.1 in
  if negb (is_started st) then Ok so
  else if is_team_match (gs_game_type st) then
    match score_limit (gs_properties st) with
    | None => Ok so
    | Some limit =>
        if score_reached st limit then
          let winning_team := gs_team_scores st ≫= leading_team in
          xp ← team_xp_awards st winning_team (map_to_list (gs_players st));
          Ok (finish xp (winning_snake st winning_team) so)
        else Ok so
    end
  else if existsb is_alive (gs_snakes st) then Ok so
  else Ok (finish (solo_xp_awards st) None so).

(** ** The whole quantum *)

(** The outcome, the state left behind and what the observer saw. *)
Definition TickResult : Type := Result Events * GameState * Observed.

Definition tick_try {A} (r : Result A) (st : GameState) (obs : Observed)
    (k : A -> TickResult) : TickResult :=
  match r with
  | Ok a => k a
  | Err e => (Err e, st, obs)
  | Panic e => (Panic e, st, obs)
  end.

(** From the end of movement on. *)
Definition tick_resolve `{F32Libm} (movement_only : bool) (post_tick : Z)
    (old_snakes : list Snake) (movers : gset Z) (so : GameState * Events)
    (obs : Observed) : TickResult :=
  let '(st, out) := so in
  tick_try (food_events st (iter_snakes st) ∅) st obs (fun events =>
  let '(st, out) := foldl eat_one (st, out) events in
  let '(st, out) := collect_pads post_tick (st, out) in
  let '(st, depleted) := finalize_boosts st in
  let obs := obs ++ depleted in
  let '(st, out) := spawn_food movement_only (st, out) in
  let st := record_goal_cues old_snakes movers st in
  let finished : Result (GameState * Events) :=
    if movement_only then Ok (st, out) else check_completion (score_goals (st, out)) in
  tick_try finished st obs (fun '(st, out) =>
  (Ok out, with_tick (wrap_u32 (gs_tick st + 1)) st, obs))).

(** From the commands to the end of movement. *)
Definition tick_move (st : GameState) (out : Events)
  : Result (gset Z * (GameState * Events)) * GameState * Observed :=
  let '(st, out, turns) := run_due_commands (st, out) in
  let '(st, obs) := resolve_boosts st in
  let st := reserve_boosts st in
  match accrue_all 0 (gs_snakes st) (quantum_ms st) (normal_movement_interval_ms st) with
  | Ok (movers, l) =>
      let st := with_snakes l st in
      let '(st, out, deferred) := turns_loop movers turns (st, out) ∅ [] in
      (Ok (movers, (requeue_deferred deferred st, out)), st, obs)
  | Err e => (Err e, st, obs)
  | Panic e => (Panic e, st, obs)
  end.

Definition tick_forward `{F32Libm} (movement_only : bool) (st : GameState) : TickResult :=
  if is_complete st then (Ok [], st, [])
  else
    let '(st, out) := first_tick_snapshot (prune_cues st, []) in
    let post_tick := sat_add_u32 (gs_tick st) 1 in
    let '(over, (st, out)) := resolve_player_inactivity post_tick (st, out) in
    if over : bool then (Ok out, with_tick post_tick st, [])
    else
      let st := respawn_pads post_tick (drain_combos st) in
      let '(moved, st, obs) := tick_move st out in
      tick_try moved st obs (fun '(movers, (st, out)) =>
      let old_snakes := gs_snakes st in
      let st := move_snakes movers st in
      tick_try (find_crashes old_snakes movers st (iter_snakes st)) st obs (fun crashes =>
      tick_try (kill_all old_snakes (st, out) crashes) st obs (fun so =>
      tick_resolve movement_only post_tick old_snakes movers so obs))).
