(* ===== verification/MeterInvariant.v ===== *)
(** * The per-snake invariant of a running match

    [snake_ok] collects what [validate_boost_invariants] demands of one snake,
    relaxed so that it also holds inside a quantum (between the reservation of
    a Boost quantum and the final depletion pass an active Boost may be
    empty; [funded] is the missing clause). Every update a quantum makes to a
    snake preserves it. *)

From Stdlib Require Import ZArith.
From stdpp Require Import prelude strings countable list gmap.
From S2P Require Import Prelude RustFloat Util Snake SnakeFacts Arena CommandQueue GameState.
From S2P Require Import GameSetup Events Validate Tick.
Open Scope Z_scope.

Definition boost_clause (bc : option BoostConfig) (s : Snake) : Prop :=
  match bc with
  | None => speed_milli s = NORMAL_SNAKE_SPEED_MILLI /\ boost s = SnakeBoost_default
  | Some c =>
      boost_inv (bc_speed_milli c) (bc_capacity_ms c) s
      /\ (bc_unlimited c = true -> is_alive s = true ->
          charge_ms (boost s) = bc_capacity_ms c)
      /\ (is_alive s = false ->
          charge_ms (boost s) = 0 /\ active (boost s) = false /\ movement_credit s = 0)
  end.

Record snake_ok (bc : option BoostConfig) (window threshold : Z) (s : Snake) : Prop := {
  so_body : body s <> [];
  so_window : 0 <= remaining_ms (combo s) <= window;
  so_chain : 0 <= chain_count (combo s);
  so_together : remaining_ms (combo s) = 0 <-> chain_count (combo s) = 0;
  so_dead_combo : is_alive s = false -> combo s = SnakeCombo_default;
  so_credit : 0 <= movement_credit s < threshold;
  so_boost : boost_clause bc s
}.

(** An active Boost has charge left. *)
Definition funded (s : Snake) : Prop :=
  active (boost s) = true -> charge_ms (boost s) <> 0.

(** A configuration whose Boost balance passed validation. *)
Definition cfg_ok (bc : option BoostConfig) : Prop :=
  match bc with
  | Some c => boost_cfg (bc_speed_milli c) (bc_capacity_ms c)
  | None => True
  end.

Section Meters.
  Context (bc : option BoostConfig) (window threshold : Z).
  Context (Hcfg : cfg_ok bc) (Hwindow : 0 < window) (Hthreshold : 0 < threshold).

#[local] Abbreviation sok := (snake_ok bc window threshold).

Lemma boost_clause_transfer s s' :
  boost_clause bc s -> is_alive s' = is_alive s ->
  movement_credit s' = movement_credit s -> speed_milli s' = speed_milli s ->
  boost s' = boost s -> boost_clause bc s'.
Proof.
  intros Hbo Ea Em Es Eb. unfold boost_clause in *.
  destruct bc as [c|]; rewrite ?Es, ?Ea, ?Em, ?Eb; [|done].
  destruct Hbo as ([? ? ? ?] & ? & ?). split; [|done]. split; by rewrite ?Es, ?Eb.
Qed.

(** Updates that leave liveness, meters and combo alone. *)
Lemma sok_transfer s s' :
  sok s -> body s' <> [] -> combo s' = combo s -> is_alive s' = is_alive s ->
  movement_credit s' = movement_credit s -> speed_milli s' = speed_milli s ->
  boost s' = boost s -> sok s'.
Proof.
  intros [Hb Hw Hc Ht Hd Hcr Hbo] Hb' Ec Ea Em Es Eb.
  split; rewrite ?Ec, ?Ea, ?Em; try done. by apply (boost_clause_transfer s).
Qed.

Lemma sok_direction d s : sok s -> sok (set_direction d s).
Proof. intros H. apply (sok_transfer s); try done. apply H. Qed.

Lemma step_forward_nonempty s : body s <> [] -> body (step_forward s) <> [].
Proof.
  intros Hb. unfold step_forward.
  destruct (negb (is_alive s) || (vec_len (body s) <? 2)); [done|].
  assert (Hp : forall p l, l <> [] -> push_head p l <> []).
  { intros p [|? [|? ?]]; cbn; repeat case_match; done. }
  assert (Ht : forall l, l <> [] -> pull_tail l <> []).
  { intros [|? [|? [|? ?]]]; cbn; repeat case_match; done. }
  destruct (body s) as [|h t] eqn:E; [done|]. 
  destruct (0 <? _); cbn [body set_body set_sn_food]; auto.
Qed.

Lemma sok_step_forward s : sok s -> sok (step_forward s).
Proof.
  intros H. destruct (step_forward_meters s) as (? & ? & ? & ? & ? & _).
  apply (sok_transfer s); try done. apply step_forward_nonempty, H.
Qed.

Lemma sok_drain_combo ms s : 0 <= ms -> sok s -> sok (drain_combo s ms).
Proof.
  intros Hms [Hb Hw Hc Ht Hd Hcr Hbo]. unfold drain_combo, sat_sub.
  destruct (Z.eqb_spec (remaining_ms (combo s)) 0) as [E|E].
  - split; cbn; rewrite ?E; try done; try lia. by apply (boost_clause_transfer s).
  - split; cbn; try done; try by apply (boost_clause_transfer s).
    + lia.
    + case_match; lia.
    + destruct (Z.eqb_spec (Z.max 0 (remaining_ms (combo s) - ms)) 0); tauto || lia.
    + intros Ha. rewrite (Hd Ha) in E. done.
Qed.

Lemma sok_intent w s : bc <> None -> sok s -> sok (snd (set_boost_intent s w)).
Proof.
  intros Hn [Hb Hw Hc Ht Hd Hcr Hbo]. unfold set_boost_intent. case_match; [done|].
  split; try done. unfold boost_clause in *. destruct bc as [c|]; [|done].
  destruct Hbo as ([? ? ? ?] & ? & ?). by split; [split|].
Qed.

(** The shape of what activation and deactivation may do. *)
Lemma activation_cases s speed cap s' :
  snd (resolve_boost s speed cap) = s' ->
  s' = s \/ (s' = set_speed speed (set_active true s) /\ is_alive s = true
             /\ charge_ms (boost s) <> 0)
  \/ s' = set_speed NORMAL_SNAKE_SPEED_MILLI (set_active false s).
Proof.
  unfold resolve_boost. destruct (_ || _) eqn:E.
  - unfold try_deactivate_boost. destruct (negb (active _)); cbn; intros <-; auto.
  - unfold try_activate_boost.
    destruct (negb (is_alive s) || active _ || _ || _ || _) eqn:E2; cbn; intros <-; [auto|].
    bool_hyps. right; left. split; [done|]. split; [done|lia].
Qed.

Lemma sok_resolve s :
  sok s -> forall c, bc = Some c ->
  sok (snd (resolve_boost s (bc_speed_milli c) (bc_capacity_ms c))).
Proof.
  intros [Hb Hw Hc Ht Hd Hcr Hbo] c Ec. subst bc. cbn in *.
  destruct Hbo as (Hi & Hu & Hdead).
  pose proof (resolve_inv _ _ s Hi) as Hi'.
  destruct (activation_cases s (bc_speed_milli c) (bc_capacity_ms c) _ eq_refl) as [E|[(E & Ha & ?)|E]];
    rewrite E in *; split; try done; (split; [done|split]); cbn; try done;
    intros; [congruence | naive_solver].
Qed.

Lemma sok_reserve s u :
  sok s -> (forall c, bc = Some c -> u = bc_unlimited c) ->
  sok (snd (reserve_boost_quantum s u)).
Proof.
  intros [Hb Hw Hc Ht Hd Hcr Hbo] Hu. destruct bc as [c|] eqn:Ec; cbn in Hbo.
  - destruct Hbo as (Hi & Hul & Hdead). rewrite (Hu c eq_refl).
    pose proof (reserve_inv _ _ s (bc_unlimited c) Hi) as Hi'. revert Hi'.
    unfold reserve_boost_quantum. destruct (_ || _) eqn:E; [intros; by split|].
    bool_hyps.
    destruct (bc_unlimited c) eqn:Eu; cbn [negb snd]; intros Hi';
      (split; try done); (split; [done|]); cbn; split; auto; congruence.
  - destruct Hbo as [? Hbd]. unfold reserve_boost_quantum. rewrite Hbd. cbn.
    rewrite orb_true_r. by split.
Qed.

Lemma sok_finalize s : sok s -> sok (snd (finalize_boost_depletion s)).
Proof.
  intros [Hb Hw Hc Ht Hd Hcr Hbo]. destruct bc as [c|] eqn:Ec; cbn in Hbo.
  - destruct Hbo as (Hi & Hul & Hdead).
    pose proof (finalize_inv _ _ s Hi) as Hi'. revert Hi'.
    unfold finalize_boost_depletion. destruct (_ || _) eqn:E; cbn [snd]; intros Hi'.
    { by split. }
    split; try done. cbn. split; [done|]. split; [done|]. naive_solver.
  - destruct Hbo as [? Hbd]. unfold finalize_boost_depletion. rewrite Hbd. cbn. by split.
Qed.

Lemma funded_finalize s : funded (snd (finalize_boost_depletion s)).
Proof.
  unfold funded, finalize_boost_depletion. destruct (active (boost s)) eqn:Ea; cbn.
  - destruct (Z.eqb_spec (charge_ms (boost s)) 0); cbn; [done|]. by intros _.
  - by rewrite Ea.
Qed.

Lemma sok_accrue tick interval s :
  sok s -> 0 < interval -> threshold = threshold_of interval ->
  threshold <= u32_max + 1 ->
  (is_alive s = true -> 0 <= speed_milli s * tick <= threshold) ->
  exists moves s', accrue_movement_credit s tick interval = Ok (moves, s')
    /\ sok s' /\ is_alive s' = is_alive s /\ (moves = true -> is_alive s = true).
Proof.
  intros Hs Hi Ht Hu Hsp. destruct (is_alive s) eqn:Ea.
  - destruct (accrue_one s tick interval) as (m & c & He & Hc & _); rewrite <- ?Ht; auto.
    { apply Hs. }
    exists m, (set_credit c s). split; [done|]. split; [|done].
    destruct Hs as [Hb Hw Hch Htg Hd Hcr Hbo]. rewrite <- Ht in Hc. split; try done.
    unfold boost_clause in *. destruct bc as [c0|]; [|done].
    destruct Hbo as ([? ? ? ?] & ? & ?). cbn. split; [by split|]. split; [done|].
    congruence.
  - exists false, s. unfold accrue_movement_credit. rewrite Ea. done.
Qed.

Lemma boost_clause_reset alive s refill :
  boost_clause bc s ->
  (bc = None -> refill = None) ->
  (forall c, bc = Some c -> refill = None \/ refill = Some (bc_capacity_ms c)) ->
  (alive = false -> refill = None) ->
  (forall c, bc = Some c -> bc_unlimited c = true -> alive = true ->
             refill = Some (bc_capacity_ms c)) ->
  forall s', is_alive s' = alive -> boost s' = boost s ->
  boost_clause bc (reset_boost_and_movement s' refill).
Proof.
  intros Hbo Hn Hs Hd Hu s' Ea Eb. unfold boost_clause in *. destruct bc as [c|].
  - destruct Hbo as (Hi & _ & _). split; [|split].
    + assert (boost_inv (bc_speed_milli c) (bc_capacity_ms c)
                (set_alive true (reset_boost_and_movement s refill))) as Hi'.
      { eapply (meter_step_inv _ _ 50 100 s); [exact Hcfg| |done].
        apply ms_new_life. by apply Hs. }
      destruct Hi'; split; cbn in *; rewrite ?Eb; done.
    + cbn. rewrite Ea. intros Hul Hal. by rewrite (Hu c).
    + cbn. rewrite Ea. intros Hal. by rewrite Hd.
  - destruct Hbo as [_ Hbo]. cbn. rewrite Eb, Hbo, Hn by done. done.
Qed.

Lemma sok_kill s : sok s -> sok (kill_snake s).
Proof.
  intros [Hb Hw Hc Ht Hd Hcr Hbo]. split; cbn; try done; try lia.
  apply (boost_clause_transfer (reset_boost_and_movement (set_alive false s) None)); try done.
  apply (boost_clause_reset false s); try done; auto.
Qed.

Lemma sok_kick s : sok s -> sok (set_boost SnakeBoost_default (kill_snake s)).
Proof.
  intros H. apply sok_kill in H as [Hb Hw Hc Ht Hd Hcr Hbo]. split; cbn; try done.
  unfold boost_clause in *. destruct bc as [c|]; [|by destruct Hbo].
  destruct Hbo as ([? ? ? ?] & _ & _). split; [split; cbn in *|]; try done.
Qed.

Lemma sok_respawn position tail d refill s :
  sok s ->
  (bc = None -> refill = None) ->
  (forall c, bc = Some c ->
     refill = if bc_unlimited c then Some (bc_capacity_ms c) else None) ->
  sok (respawn_snake position tail d refill s).
Proof.
  intros [Hb Hw Hc Ht Hd Hcr Hbo] Hn Hs. split; cbn; try done; try lia.
  apply (boost_clause_transfer (reset_boost_and_movement
    (set_sn_food 0 (set_alive true (set_direction d (set_body [position; tail] s))))
    refill)); try done.
  apply (boost_clause_reset true s); try done.
  - intros c Ec. rewrite (Hs c Ec). case_match; auto.
  - intros c Ec Hu _. by rewrite (Hs c Ec), Hu.
Qed.

Lemma sok_eat chain points s :
  sok s -> is_alive s = true -> 0 < chain ->
  sok (set_combo {| chain_count := chain; remaining_ms := window |}
         (set_sn_food (sat_add_u32 (sn_food s) points) s)).
Proof.
  intros [Hb Hw Hc Ht Hd Hcr Hbo] Ha Hch. split; cbn; try done; try lia.
  - intros; congruence.
  - by apply (boost_clause_transfer s).
Qed.

Lemma sok_collect c amount s :
  bc = Some c -> 0 <= amount -> sok s ->
  sok (snd (collect_boost_charge s amount (bc_capacity_ms c))).
Proof.
  intros Ec Ha [Hb Hw Hc Ht Hd Hcr Hbo]. subst bc. cbn in *.
  destruct Hbo as (Hi & Hul & Hdead).
  pose proof (collect_inv _ _ s amount Hcfg Ha Hi) as Hi'. revert Hi'.
  unfold collect_boost_charge. destruct (_ || _) eqn:E; cbn [snd]; intros Hi'.
  { by split. }
  bool_hyps. split; try done. cbn. split; [done|]. split; [|congruence].
  intros Hu Hal. specialize (Hul Hu Hal).
  apply Z.leb_gt in H0. lia.
Qed.

End Meters.

(** ** What validation says of one snake *)

Lemma check_combo_ok cfg s :
  check_combo cfg s = Ok tt <->
  remaining_ms (combo s) <= cc_window_ms cfg
  /\ (remaining_ms (combo s) = 0 <-> chain_count (combo s) = 0)
  /\ (is_alive s = false -> combo s = SnakeCombo_default).
Proof.
  unfold check_combo. rewrite !ensure_bind_ok, ensure_ok.
  rewrite Z.leb_le, Bool.eqb_true_iff, orb_true_iff, bool_decide_eq_true.
  destruct (is_alive s);
    destruct (Z.eqb_spec (remaining_ms (combo s)) 0);
    destruct (Z.eqb_spec (chain_count (combo s)) 0); naive_solver.
Qed.

(** The unsigned fields of a snake. *)
Record snake_typed (s : Snake) : Prop := {
  ty_charge : 0 <= charge_ms (boost s);
  ty_credit : 0 <= movement_credit s;
  ty_remaining : 0 <= remaining_ms (combo s);
  ty_chain : 0 <= chain_count (combo s);
  ty_body : body s <> []
}.

Lemma check_boosted_ok st c s :
  0 < bc_capacity_ms c ->
  check_boosted_snake st c s = Ok tt /\ 0 <= charge_ms (boost s) /\ 0 <= movement_credit s
  <-> boost_clause (Some c) s /\ funded s
      /\ 0 <= movement_credit s < movement_threshold st.
Proof.
  intros Hcap. unfold check_boosted_snake, funded, boost_clause.
  rewrite !ensure_bind_ok, unit_bind_ok, !ensure_bind_ok, ensure_ok, !negb_true_iff.
  rewrite !orb_false_iff, negb_false_iff, Z.ltb_ge, Z.ltb_lt, !andb_false_iff.
  rewrite (is_multiple_of_spec _ BOOST_TICK_INTERVAL_MS) by done.
  rewrite !negb_false_iff, !orb_false_iff, !negb_false_iff, !Z.eqb_eq.
  split.
  - intros (((Hc & Hm) & Ha & Hu & Hd & Ht) & H0 & H1).
    split; [split; [split; try done|split]|split; [|done]].
    + intros E. rewrite E in Ha. rewrite ensure_ok in Ha. bool_hyps. by apply Z.eqb_eq.
    + intros E. rewrite E in Ha. rewrite ensure_ok in Ha. by apply Z.eqb_eq.
    + intros. destruct Hu as [[?|?]|?]; congruence.
    + intros. destruct Hd as [?|[[??]?]]; [congruence|done].
    + intros E. rewrite E in Ha. rewrite ensure_ok in Ha. bool_hyps. by apply Z.eqb_neq.
  - intros (([Hc Hm Ha Hi] & Hu & Hd) & Hf & Hcr). repeat split; try done; try lia.
    + destruct (active (boost s)); rewrite ensure_ok.
      * apply negb_true_iff, orb_false_iff. rewrite negb_false_iff, Z.eqb_eq, Z.eqb_neq.
        auto.
      * apply Z.eqb_eq. auto.
    + destruct (bc_unlimited c); [|auto]. destruct (is_alive s); auto.
    + destruct (is_alive s); [auto|]. right. destruct Hd as (? & ? & ?); auto.
Qed.

Lemma check_plain_ok st s :
  check_plain_snake st s = Ok tt <->
  boost_clause None s /\ movement_credit s < movement_threshold st.
Proof.
  unfold check_plain_snake, boost_clause. rewrite ensure_bind_ok, ensure_ok.
  rewrite negb_true_iff, orb_false_iff, !negb_false_iff, Z.eqb_eq, bool_decide_eq_true.
  by rewrite Z.ltb_lt.
Qed.
