(* ===== verification/StateInvariant.v ===== *)
(** * The invariant of a running match

    [Skeleton] is the part of a state that no quantum changes; [skel_ok] says
    what validation and construction guarantee of it. [ok] is the invariant
    of everything else, stated over a fixed skeleton: the fields of a state
    whose tick is [t], whose removed users are [kl] and whose cooling pads
    come back after tick [T]. Each primitive update of the state keeps it. *)

From Stdlib Require Import ZArith.
From stdpp Require Import prelude strings countable list gmap sorting.
From S2P Require Import Prelude RustFloat Util Snake SnakeFacts Arena CommandQueue GameState.
From S2P Require Import GameSetup Events Validate Tick MeterInvariant.
Open Scope Z_scope.

(** ** The skeleton of a state *)

Record Skeleton := mkSkeleton {
  sk_type : GameType;
  sk_queue_mode : QueueMode;
  sk_props : GameProperties;
  sk_arena : Arena;
  sk_shapes : list (Z * Position * Z * Z);
  sk_players : gmap Z Player;
  sk_count : nat
}.

(** The arena without its contents. *)
Definition empty_arena (a : Arena) : Arena :=
  {| width := width a; height := height a; snakes := []; food := [];
     boost_pads := []; team_zone_config := team_zone_config a |}.

Definition skeleton (st : GameState) : Skeleton :=
  {| sk_type := gs_game_type st; sk_queue_mode := gs_queue_mode st;
     sk_props := gs_properties st; sk_arena := empty_arena (gs_arena st);
     sk_shapes := pad_shape <$> gs_pads st; sk_players := gs_players st;
     sk_count := length (gs_snakes st) |}.

Definition sk_boost (K : Skeleton) : option BoostConfig := pr_boost (sk_props K).
Definition sk_window (K : Skeleton) : Z := cc_window_ms (pr_combo (sk_props K)).
Definition sk_quantum (K : Skeleton) : Z := Z.max (tick_duration_ms (sk_props K)) 1.
Definition sk_interval (K : Skeleton) : Z :=
  match sk_type K with
  | Custom settings => Z.max (cg_tick_duration_ms settings) 1
  | _ => DEFAULT_TICK_INTERVAL_MS
  end.
Definition sk_threshold (K : Skeleton) : Z := NORMAL_SNAKE_SPEED_MILLI * sk_interval K.

Record skel_ok (K : Skeleton) : Prop := {
  sk_cfg : cfg_ok (sk_boost K);
  sk_cooldown : forall c, sk_boost K = Some c -> sk_quantum K <= bc_pad_respawn_ms c;
  sk_window_pos : 0 < sk_window K;
  sk_pace : forall speed, speed = NORMAL_SNAKE_SPEED_MILLI
              \/ (exists c, sk_boost K = Some c /\ speed = bc_speed_milli c) ->
            0 <= speed * sk_quantum K <= sk_threshold K;
  sk_threshold_fits : sk_threshold K <= u32_max + 1;
  sk_width_pos : 0 < wrap_i16 (width (sk_arena K));
  sk_height_pos : 0 < wrap_i16 (height (sk_arena K));
  sk_owned : forall u p, sk_players K !! u = Some p ->
             0 <= pl_snake_id p < Z.of_nat (sk_count K);
  sk_charges : forall id pos charge size, (id, pos, charge, size) ∈ sk_shapes K ->
               0 <= charge
}.

(** ** The invariant *)

Definition sk_snake_ok (K : Skeleton) : Snake -> Prop :=
  snake_ok (sk_boost K) (sk_window K) (sk_threshold K).

Definition in_count (K : Skeleton) (i : Z) : Prop := i < Z.of_nat (sk_count K).

Definition death_in_count (K : Skeleton) (i : Z) (cause : DeathCause) : Prop :=
  in_count K i /\ forall a, attributed_snake cause = Some a -> in_count K a.

Definition cooling_after (T : Z) (pad : BoostPad) : Prop :=
  forall r, pad_respawn_at_tick pad = Some r -> T < r.

(** The cells of a pad shape. *)
Definition shape_cells (sh : Z * Position * Z * Z) : list Position :=
  let '(id, pos, charge, size) := sh in
  footprint_cells (mkBoostPad id pos charge size None).

Definition kicked_dead (K : Skeleton) (kl : list Z) (l : list Snake) : Prop :=
  forall u p, u ∈ kl -> sk_players K !! u = Some p ->
  exists s, vec_get l (pl_snake_id p) = Some s /\ is_alive s = false.

Record ok (K : Skeleton) (t T : Z) (kl : list Z) (st : GameState) : Prop := {
  ok_skel : skeleton st = K;
  ok_tick : gs_tick st = t;
  ok_kicked : gs_idle_kicked_user_ids st = kl;
  ok_snakes : Forall (sk_snake_ok K) (gs_snakes st);
  ok_dead : kicked_dead K kl (gs_snakes st);
  ok_pickups : forall i v, gs_food_pickups st !! i = Some v -> in_count K i;
  ok_deaths : forall i c, gs_last_death_causes st !! i = Some c -> death_in_count K i c;
  ok_food : forall p sh, p ∈ gs_food st -> sh ∈ sk_shapes K -> p ∉ shape_cells sh;
  ok_pads : Forall (cooling_after T) (gs_pads st);
  ok_activity : forall u a, gs_player_last_activity_ticks st !! u = Some a ->
                is_Some (sk_players K !! u) /\ a <= t;
  ok_completed : gs_completed_by_inactivity st = true -> is_complete st = true
}.

Arguments ok_skel {K t T kl st} _.
Arguments ok_tick {K t T kl st} _.
Arguments ok_kicked {K t T kl st} _.
Arguments ok_snakes {K t T kl st} _.
Arguments ok_dead {K t T kl st} _.
Arguments ok_pickups {K t T kl st} _.
Arguments ok_deaths {K t T kl st} _.
Arguments ok_food {K t T kl st} _.
Arguments ok_pads {K t T kl st} _.
Arguments ok_activity {K t T kl st} _.
Arguments ok_completed {K t T kl st} _.

(** The snake is no removed user's. *)
Definition unkicked (K : Skeleton) (kl : list Z) (id : Z) : Prop :=
  forall u p, u ∈ kl -> sk_players K !! u = Some p ->
  Z.to_nat (pl_snake_id p) <> Z.to_nat id.

Section Updates.
  Context {K : Skeleton} {t T : Z} {kl : list Z}.

#[local] Abbreviation okst := (ok K t T kl).
#[local] Abbreviation sok := (sk_snake_ok K).

Lemma sk_threshold_pos : 0 < sk_threshold K.
Proof.
  unfold sk_threshold, sk_interval, NORMAL_SNAKE_SPEED_MILLI, DEFAULT_TICK_INTERVAL_MS.
  destruct (sk_type K); lia.
Qed.

(** Reading the skeleton off a state. *)
Lemma ok_reads st : okst st ->
  gs_game_type st = sk_type K /\ gs_properties st = sk_props K
  /\ gs_players st = sk_players K /\ gs_boost st = sk_boost K
  /\ normal_movement_interval_ms st = sk_interval K /\ quantum_ms st = sk_quantum K
  /\ width (gs_arena st) = width (sk_arena K)
  /\ height (gs_arena st) = height (sk_arena K)
  /\ vec_len (gs_snakes st) = Z.of_nat (sk_count K)
  /\ sk_shapes K = pad_shape <$> gs_pads st.
Proof. intros [<- _ _ _ _ _ _ _ _ _ _]. done. Qed.

Lemma ok_snake_at st id s : okst st -> vec_get (gs_snakes st) id = Some s -> sok s.
Proof.
  intros H Hs. eapply Forall_lookup_1; [apply (ok_snakes H)|exact Hs].
Qed.

Lemma alive_unkicked st id s :
  okst st -> vec_get (gs_snakes st) id = Some s -> is_alive s = true ->
  unkicked K kl id.
Proof.
  intros H Hs Ha u p Hu Hp E. destruct (ok_dead H u p Hu Hp) as (s' & Hs' & Hd).
  unfold vec_get in *. rewrite E in Hs'. congruence.
Qed.

(** *** Snakes *)

Lemma ok_with_snakes st l :
  okst st -> length l = sk_count K -> Forall sok l -> kicked_dead K kl l ->
  okst (with_snakes l st).
Proof.
  intros [Hk Ht Hkl Hs Hd Hp Hde Hf Hpa Hac Hc] Hl Hf' Hd'. split; try done.
  rewrite <- Hk. unfold skeleton. cbn. unfold gs_pads. cbn. f_equal. by rewrite Hl, <- Hk.
Qed.

Lemma ok_map_snakes st f :
  okst st -> (forall s, sok s -> sok (f s)) ->
  (forall s, is_alive s = false -> is_alive (f s) = false) ->
  okst (with_snakes (f <$> gs_snakes st) st).
Proof.
  intros H Hf Hd. apply ok_with_snakes; [done| |..].
  - rewrite length_fmap, <- (ok_skel H). done.
  - apply Forall_fmap. eapply Forall_impl; [apply (ok_snakes H)|]. apply Hf.
  - intros u p Hu Hp. destruct (ok_dead H u p Hu Hp) as (s & Hs & Ha).
    exists (f s). split; [|auto]. unfold vec_get in *. by rewrite list_lookup_fmap, Hs.
Qed.

Lemma ok_update_snake st id f :
  okst st -> (forall s, vec_get (gs_snakes st) id = Some s -> sok s -> sok (f s)) ->
  (forall s, is_alive s = false -> is_alive (f s) = false) \/ unkicked K kl id ->
  okst (update_snake id f st).
Proof.
  intros H Hf Hd. apply ok_with_snakes; [done| |..].
  - unfold vec_alter. rewrite length_alter, <- (ok_skel H). done.
  - apply Forall_lookup. intros n s Hn. unfold vec_alter in Hn.
    destruct (decide (n = Z.to_nat id)) as [->|Hne].
    + rewrite list_lookup_alter_eq in Hn.
      destruct (gs_snakes st !! Z.to_nat id) as [s0|] eqn:E; [|done].
      injection Hn as <-. apply Hf; [done|]. by apply (ok_snake_at st id).
    + rewrite list_lookup_alter_ne in Hn by done.
      eapply Forall_lookup_1; [apply (ok_snakes H)|done].
  - intros u p Hu Hp. destruct (ok_dead H u p Hu Hp) as (s & Hs & Ha).
    unfold vec_get, vec_alter in *.
    destruct (decide (Z.to_nat (pl_snake_id p) = Z.to_nat id)) as [E|Hne].
    + destruct Hd as [Hd|Hd]; [|by destruct (Hd u p Hu Hp)].
      exists (f s). rewrite E in *. rewrite list_lookup_alter_eq, Hs. auto.
    + exists s. by rewrite list_lookup_alter_ne.
Qed.

Lemma vec_set_alter (l : list Snake) id s :
  vec_set l id s = vec_alter (fun _ => s) l id.
Proof.
  unfold vec_set, vec_alter. apply list_eq. intros n.
  destruct (decide (n = Z.to_nat id)) as [->|Hne].
  - rewrite list_lookup_alter_eq. destruct (l !! Z.to_nat id) eqn:E; cbn.
    + apply list_lookup_insert_eq. by eapply lookup_lt_Some.
    + apply lookup_ge_None. rewrite length_insert. by apply lookup_ge_None.
  - by rewrite list_lookup_alter_ne, list_lookup_insert_ne.
Qed.

Lemma ok_set_snake st id s :
  okst st -> sok s -> is_alive s = false \/ unkicked K kl id ->
  okst (with_snakes (vec_set (gs_snakes st) id s) st).
Proof.
  intros H Hs Hd. rewrite vec_set_alter.
  apply (ok_update_snake st id (fun _ => s)); naive_solver.
Qed.

(** *** Food and pads *)

Lemma ok_with_food st l :
  okst st -> (forall p sh, p ∈ l -> sh ∈ sk_shapes K -> p ∉ shape_cells sh) ->
  okst (with_food l st).
Proof. intros [Hk Ht Hkl Hs Hd Hp Hde Hf Hpa Hac Hc] Hl. by split. Qed.

Lemma shape_cells_pad pad : shape_cells (pad_shape pad) = footprint_cells pad.
Proof. by destruct pad. Qed.

Lemma footprint_contains pad p : p ∈ footprint_cells pad -> pad_contains pad p = true.
Proof.
  unfold footprint_cells. intros Hp.
  apply list_elem_of_bind in Hp as (yo & Hp & Hyo).
  apply list_elem_of_bind in Hp as (xo & Hp & Hxo).
  apply elem_of_range_Z in Hyo, Hxo. unfold i16_try in Hp.
  repeat case_match; simplify_eq; try by apply elem_of_nil in Hp.
  apply list_elem_of_singleton in Hp as ->.
  unfold pad_contains. cbn. rewrite !andb_true_iff, !Z.leb_le, !Z.ltb_lt. lia.
Qed.

Lemma food_free_shapes st p :
  okst st -> food_position_free st p = true -> forall sh, sh ∈ sk_shapes K ->
  p ∉ shape_cells sh.
Proof.
  intros H Hf sh Hsh Hp. destruct (ok_reads st H) as (_ & _ & _ & _ & _ & _ & _ & _ & _ & Es).
  rewrite Es in Hsh. apply list_elem_of_fmap in Hsh as (pad & -> & Hpad).
  rewrite shape_cells_pad in Hp. apply footprint_contains in Hp.
  unfold food_position_free in Hf. bool_hyps.
  assert (is_boost_pad_position (gs_arena st) p = true) as E; [|congruence].
  apply existsb_exists. exists pad. split; [by apply list_elem_of_In|done].
Qed.

Lemma ok_with_pads st l :
  okst st -> pad_shape <$> l = sk_shapes K -> Forall (cooling_after T) l ->
  okst (with_pads l st).
Proof.
  intros [Hk Ht Hkl Hs Hd Hp Hde Hf Hpa Hac Hc] Hl Hcl. split; try done.
  rewrite <- Hk in Hl |- *. unfold skeleton, gs_pads, gs_snakes, empty_arena. cbn.
  by f_equal.
Qed.

Lemma set_first_pad_shape id r pads :
  pad_shape <$> set_first_pad id r pads = pad_shape <$> pads.
Proof.
  induction pads as [|pad pads IH]; [done|]. cbn [set_first_pad].
  case_match; rewrite !fmap_cons; [done|]. by rewrite IH.
Qed.

Lemma set_first_pad_cooling id r pads :
  T < r -> Forall (cooling_after T) pads ->
  Forall (cooling_after T) (set_first_pad id r pads).
Proof.
  intros Hr. induction 1 as [|pad pads Hp Hps IH]; [done|]. cbn.
  case_match; constructor; try done. intros r' [= <-]. done.
Qed.

End Updates.

#[export] Hint Resolve sk_cfg sk_window_pos sk_threshold_pos Z.lt_le_incl : snaketron.
