(* ===== verification/TickInvariant.v ===== *)
(** * Every phase of a quantum keeps the invariant

    The phases of [Tick] against [ok]: each fallible phase succeeds and each
    phase leaves a state in the invariant. *)

From Stdlib Require Import ZArith.
From stdpp Require Import prelude strings countable list gmap sorting.
From S2P Require Import Prelude RustFloat Util Snake SnakeFacts Arena CommandQueue GameState.
From S2P Require Import GameSetup Events Validate Tick MeterInvariant StateInvariant.
Open Scope Z_scope.

(** An update outside the invariant's footprint. *)
Ltac ok_frame H := destruct H; split; done.

Section Phases.
  Context (K : Skeleton) (HK : skel_ok K) (t T : Z) (kl : list Z).

#[local] Abbreviation okst := (ok K t T kl).
#[local] Abbreviation sok := (sk_snake_ok K).

(** ** Events *)

Lemma ok_seq st n : okst st -> okst (with_event_sequence n st).
Proof. intros H. ok_frame H. Qed.

Lemma ok_queue st q : okst st -> okst (with_command_queue q st).
Proof. intros H. ok_frame H. Qed.

Lemma ok_action st id : okst st -> okst (record_player_action_for_snake st id).
Proof. intros H. unfold record_player_action_for_snake. case_match; [ok_frame H|done]. Qed.

Lemma ok_died st id cause :
  okst st -> death_in_count K id cause ->
  okst (apply_event (Ev_SnakeDied id cause) st).
Proof.
  intros H Hd. cbn. apply ok_queue. apply ok_update_snake; [| |left; done].
  - destruct H as [? ? ? ? ? ? Hde ? ? ? ?]. split; try done. cbn.
    intros i c. destruct (decide (i = id)) as [->|Hne].
    + rewrite lookup_insert_eq. by intros [= <-].
    + rewrite lookup_insert_ne by done. apply Hde.
  - intros s _ Hs. apply sok_kill; eauto with snaketron.
Qed.

Lemma refill_none st : okst st -> sk_boost K = None ->
  unlimited_boost_capacity_ms st = None.
Proof.
  intros H E. destruct (ok_reads st H) as (_ & _ & _ & Eb & _).
  unfold unlimited_boost_capacity_ms. by rewrite Eb, E.
Qed.

Lemma ok_respawned st id pos d :
  okst st -> unkicked K kl id ->
  okst (apply_event (Ev_SnakeRespawned id pos d) st).
Proof.
  intros H Hu. cbn. apply ok_queue. apply ok_update_snake; [done| |by right].
  destruct (ok_reads st H) as (_ & _ & _ & Eb & _).
  intros s _ Hs. apply sok_respawn; eauto using refill_none with snaketron.
  intros c Ec. unfold unlimited_boost_capacity_ms. by rewrite Eb, Ec.
Qed.

Lemma ok_turned st id d : okst st -> okst (apply_event (Ev_SnakeTurned id d) st).
Proof.
  intros H. cbn. apply ok_update_snake; [done| |by left].
  intros s _ Hs. apply sok_direction; eauto with snaketron.
Qed.

Lemma ok_status st v :
  okst st -> (is_complete st = true -> is_complete (with_status v st) = true) ->
  okst (apply_event (Ev_StatusUpdated v) st).
Proof. intros H Hv. cbn. destruct H. split; try done. cbn. auto. Qed.

Lemma ok_spawned st p :
  okst st -> food_position_free st p = true -> okst (apply_event (Ev_FoodSpawned p) st).
Proof.
  intros H Hp. cbn. case_match; [done|]. apply ok_with_food; [done|].
  intros q sh Hq Hsh. apply elem_of_app in Hq as [Hq|Hq].
  - by eapply (ok_food H).
  - apply list_elem_of_singleton in Hq as ->. by eapply food_free_shapes.
Qed.

(** The guards of [apply_event] give the chain its lower bound; the snake has
    to be alive for a running combo. *)
Lemma ok_eaten st id pos points chain before b :
  okst st -> 0 <= id ->
  (exists s, vec_get (gs_snakes st) id = Some s /\ is_alive s = true) ->
  okst (apply_event (Ev_FoodEaten id pos points chain before b) st).
Proof.
  intros H Hid (s0 & Hs0 & Ha0). cbn [apply_event]. case_match; [|done]. bool_hyps.
  destruct (remove_food st pos) as [removed st'] eqn:Er.
  assert (Hst' : okst st' /\ gs_snakes st' = gs_snakes st).
  { unfold remove_food in Er. injection Er as <- <-. split; [|done].
    apply ok_with_food; [done|]. intros p sh Hp.
    apply list_elem_of_filter in Hp as [_ Hp]. by apply (ok_food H). }
  destruct Hst' as [Hst' Es]. destruct removed; [|done].
  unfold combo_event_fields_are_bounded in *. bool_hyps.
  assert (Hw : cc_window_ms (pr_combo (gs_properties st')) = sk_window K).
  { destruct (ok_reads st' Hst') as (_ & -> & _). done. }
  assert (Hc : in_count K id).
  { unfold in_count. destruct (ok_reads st H) as (_ & _ & _ & _ & _ & _ & _ & _ & <- & _).
    by eapply vec_get_Some_lt. }
  unfold eat_food. rewrite Hw.
  match goal with |- okst (with_food_pickups _ (with_scores _ ?u)) => assert (Hu : okst u) end.
  { apply ok_update_snake; [done| |by left].
    intros s Hs Hok. rewrite Es, Hs0 in Hs. injection Hs as <-.
    apply sok_eat; eauto with snaketron; lia. }
  destruct Hu as [? ? ? ? ? Hp ? ? ? ? ?]. split; try done. cbn.
  intros i v. destruct (decide (i = id)) as [->|Hne]; [done|].
  rewrite lookup_insert_ne by done. apply Hp.
Qed.

(** ** Commands *)

Lemma ok_emit e so : okst (apply_event e (with_event_sequence
    (wrap_u64 (gs_event_sequence so.1 + 1)) so.1)) -> okst (emit e so).1.
Proof. by destruct so. Qed.

Lemma ok_set_intent st id w : okst st -> okst (gs_set_boost_intent st id w).
Proof.
  intros H. unfold gs_set_boost_intent. destruct (ok_reads st H) as (_ & _ & _ & Eb & _).
  rewrite Eb. destruct (sk_boost K) as [c|] eqn:Ec; [|done].
  destruct (vec_get (gs_snakes st) id) as [s|] eqn:Es; [|done].
  pose proof (ok_snake_at _ _ _ H Es) as Hs.
  destruct (set_boost_intent s w) as [changed s'] eqn:E.
  assert (Hs' : sok s' /\ is_alive s' = is_alive s).
  { split.
    - replace s' with (snd (set_boost_intent s w)) by by rewrite E.
      apply sok_intent; eauto with snaketron. congruence.
    - unfold set_boost_intent in E. by case_match; simplify_eq. }
  destruct Hs' as [Hs' Ea].
  assert (Hst : okst (with_snakes (vec_set (gs_snakes st) id s') st)).
  { apply ok_set_snake; [done|done|]. rewrite Ea.
    destruct (is_alive s) eqn:E'; [right|by left]. by eapply alive_unkicked. }
  destruct changed; [by apply ok_action|done].
Qed.

Lemma ok_exec cmd st r st' : okst st -> exec_command cmd st = (r, st') -> okst st'.
Proof.
  intros H. destruct cmd; cbn; try (intros [= _ <-]; done || by apply ok_set_intent).
  repeat case_match; intros [= _ <-]; try done.
  apply ok_action. by apply ok_turned, ok_seq.
Qed.

Lemma ok_due_commands fuel so turns so' turns' :
  okst so.1 -> due_commands_loop fuel so turns = (so', turns') -> okst so'.1.
Proof.
  revert so turns. induction fuel as [|fuel IH]; intros [st out] turns H;
    cbn [due_commands_loop].
  { by intros [= <- _]. }
  destruct (pop (gs_command_queue st) (gs_tick st)) as [[m|] q].
  - destruct (command m) eqn:Ec; try (apply IH; by apply ok_queue).
    all: match goal with |- context [exec_command ?c ?s] =>
           destruct (exec_command c s) as [[ev|?|?] st1] eqn:Ee end.
    all: apply IH; eapply ok_exec; [|exact Ee]; by apply ok_queue.
  - intros [= <- _]. by apply ok_queue.
Qed.

Lemma ok_run_due_commands so so' turns :
  okst so.1 -> run_due_commands so = (so', turns) -> okst so'.1.
Proof. apply ok_due_commands. Qed.

Lemma ok_turns movers msgs so turned deferred so' d' :
  okst so.1 -> turns_loop movers msgs so turned deferred = (so', d') -> okst so'.1.
Proof.
  revert so turned deferred.
  induction msgs as [|m msgs IH]; intros [st out] turned deferred H; cbn [turns_loop].
  { by intros [= <- _]. }
  destruct (command m) eqn:Ec; try by apply IH.
  case_match; [by apply IH|].
  destruct (exec_command (Cmd_Turn snake_id d) st) as [[ev|?|?] st1] eqn:Ee;
    (apply IH; by eapply ok_exec).
Qed.

Lemma ok_requeue deferred st : okst st -> okst (requeue_deferred deferred st).
Proof. intros H. by apply ok_queue. Qed.

(** ** Meters *)

Lemma ok_drain st : okst st -> okst (drain_combos st).
Proof.
  intros H. apply ok_map_snakes; [done| |].
  - intros s Hs. apply sok_drain_combo; eauto with snaketron.
    unfold quantum_ms. lia.
  - intros s Ha. unfold drain_combo. by case_match.
Qed.

Lemma resolve_alive s v c : is_alive (snd (resolve_boost s v c)) = is_alive s.
Proof. destruct (activation_cases s v c _ eq_refl) as [->|[(-> & _)| ->]]; done. Qed.

Lemma ok_resolve_boosts st : okst st -> okst (resolve_boosts st).1.
Proof.
  intros H. unfold resolve_boosts. destruct (ok_reads st H) as (_ & _ & _ & Eb & _).
  rewrite Eb. destruct (sk_boost K) as [c|] eqn:Ec; [|done]. cbn [fst].
  rewrite <- list_fmap_compose.
  apply (ok_map_snakes st (snd ∘ (fun s => resolve_boost s _ _))); [done| |].
  - intros s Hs. cbn. apply sok_resolve; eauto with snaketron.
  - intros s Ha. cbn. by rewrite resolve_alive.
Qed.

Lemma reserve_alive s u : is_alive (snd (reserve_boost_quantum s u)) = is_alive s.
Proof. unfold reserve_boost_quantum. by repeat case_match. Qed.

Lemma ok_reserve_boosts st : okst st -> okst (reserve_boosts st).
Proof.
  intros H. unfold reserve_boosts. destruct (ok_reads st H) as (_ & _ & _ & Eb & _).
  rewrite Eb. apply ok_map_snakes; [done| |].
  - intros s Hs. apply sok_reserve; eauto with snaketron. by intros c ->.
  - intros s Ha. by rewrite reserve_alive.
Qed.

Lemma finalize_alive s : is_alive (snd (finalize_boost_depletion s)) = is_alive s.
Proof. unfold finalize_boost_depletion. by case_match. Qed.

Lemma ok_finalize st :
  okst st -> okst (finalize_boosts st).1 /\ Forall funded (gs_snakes (finalize_boosts st).1).
Proof.
  intros H. unfold finalize_boosts. cbn [fst]. rewrite <- list_fmap_compose. split.
  - apply ok_map_snakes; [done| |].
    + intros s Hs. apply sok_finalize; eauto with snaketron.
    + intros s Ha. cbn. by rewrite finalize_alive.
  - apply Forall_fmap, Forall_true. intros s. apply funded_finalize.
Qed.

(** The speed of a snake is one of the two the pace was checked for. *)
Lemma sok_speed s : sok s -> 0 <= speed_milli s * sk_quantum K <= sk_threshold K.
Proof.
  intros Hs. apply (sk_pace K HK). pose proof (so_boost _ _ _ _ Hs) as Hb.
  unfold boost_clause in Hb. destruct (sk_boost K) as [c|] eqn:Ec; [|left; apply Hb].
  destruct Hb as ([_ _ Ha Hi] & _). destruct (active (boost s)); [right|left]; eauto.
Qed.

Lemma accrue_all_ok i l :
  Forall sok l -> exists movers l',
    accrue_all i l (sk_quantum K) (sk_interval K) = Ok (movers, l')
    /\ Forall sok l' /\ is_alive <$> l' = is_alive <$> l.
Proof.
  intros Hl. revert i. induction Hl as [|s l Hs Hl IH]; intros i.
  { by exists ∅, []. }
  destruct (sok_accrue (sk_boost K) (sk_window K) (sk_threshold K) (sk_cfg K HK)
              (sk_quantum K) (sk_interval K) s) as (m & s' & E & Hs' & Ha & _); try done.
  { unfold sk_interval, DEFAULT_TICK_INTERVAL_MS. destruct (sk_type K); lia. }
  { apply HK. }
  { intros _. by apply sok_speed. }
  destruct (IH (i + 1)) as (mv & l' & E' & Hl' & Ha').
  cbn [accrue_all]. rewrite E. cbn [mbind result_bind]. rewrite E'. cbn [mbind result_bind].
  eexists _, _. split; [done|]. split; [by constructor|]. cbn. by f_equal.
Qed.

Lemma kicked_dead_alive l l' :
  kicked_dead K kl l -> is_alive <$> l' = is_alive <$> l -> kicked_dead K kl l'.
Proof.
  intros Hd E u p Hu Hp. destruct (Hd u p Hu Hp) as (s & Hs & Ha). unfold vec_get in *.
  assert (E' : (is_alive <$> l') !! Z.to_nat (pl_snake_id p) = Some false).
  { by rewrite E, list_lookup_fmap, Hs, <- Ha. }
  rewrite list_lookup_fmap in E'.
  destruct (l' !! Z.to_nat (pl_snake_id p)) as [s'|]; [|done]. exists s'.
  by injection E'.
Qed.

Lemma ok_relive st l :
  okst st -> Forall sok l -> is_alive <$> l = is_alive <$> gs_snakes st ->
  okst (with_snakes l st).
Proof.
  intros H Hl E. apply ok_with_snakes; [done| |done|].
  - rewrite <- (ok_skel H). change (sk_count (skeleton st)) with (length (gs_snakes st)).
    rewrite <- (length_fmap is_alive l), E. by rewrite length_fmap.
  - eapply kicked_dead_alive; [apply (ok_dead H)|done].
Qed.

Lemma ok_tick_move st out :
  okst st -> exists movers so st' obs,
    tick_move st out = (Ok (movers, so), st', obs) /\ okst so.1.
Proof.
  intros H. unfold tick_move.
  destruct (run_due_commands (st, out)) as [[st1 out1] turns] eqn:E1.
  apply ok_run_due_commands in E1; [|done]. cbn in E1.
  pose proof (ok_resolve_boosts st1 E1) as H2.
  destruct (resolve_boosts st1) as [st2 obs]. cbn in H2.
  pose proof (ok_reserve_boosts st2 H2) as H3. set (st3 := reserve_boosts st2) in *.
  destruct (ok_reads st3 H3) as (_ & _ & _ & _ & Ei & Eq & _). rewrite Ei, Eq.
  destruct (accrue_all_ok 0 (gs_snakes st3)) as (mv & l & -> & Hl & Ha).
  { apply (ok_snakes H3). }
  pose proof (ok_relive st3 l H3 Hl Ha) as H4.
  destruct (turns_loop mv turns (with_snakes l st3, out1) ∅ []) as [[st5 out5] d] eqn:E5.
  apply ok_turns in E5; [|done]. eexists _, _, _, _. split; [done|].
  by apply ok_requeue.
Qed.

End Phases.
