(* ===== verification/OutcomeInvariant.v ===== *)
(** * The phases after movement

    Collisions, deaths and respawns, food, pads, scoring and completion
    against the invariant [ok]; the fallible ones succeed, and so does the whole
    quantum. *)

From Stdlib Require Import ZArith.
From stdpp Require Import prelude strings countable list gmap sorting.
From S2P Require Import Prelude RustFloat Util Snake SnakeFacts Arena CommandQueue GameState.
From S2P Require Import GameSetup Events Validate Tick MeterInvariant StateInvariant.
From S2P Require Import TickInvariant.
Open Scope Z_scope.

Section Outcome.
  Context (K : Skeleton) (HK : skel_ok K) (t T : Z) (kl : list Z).

#[local] Abbreviation okst := (ok K t T kl).
#[local] Abbreviation sok := (sk_snake_ok K).

(** ** Movement *)

Lemma ok_move movers st : okst st -> okst (move_snakes movers st).
Proof.
  intros H. unfold move_snakes. apply ok_relive; [done|..].
  - apply Forall_enumerate. intros i s Hs _. cbn.
    pose proof (ok_snake_at _ _ _ H Hs). case_bool_decide; [|done].
    apply sok_step_forward; eauto with snaketron.
  - apply list_eq. intros n. rewrite !list_lookup_fmap.
    unfold iter_snakes, enumerate. rewrite enumerate_from_lookup.
    destruct (gs_snakes st !! n) as [s|]; [|done]. cbn. f_equal.
    case_bool_decide; [|done]. apply step_forward_meters.
Qed.

(** ** Collisions *)

Lemma sok_head s : sok s -> exists h, head s = Ok h.
Proof.
  intros Hs. pose proof (so_body _ _ _ _ Hs) as Hb. unfold head.
  destruct (body s) as [|h b]; [done|]. by exists h.
Qed.

Lemma index_some {A} (l : list A) i a : vec_get l i = Some a -> index l i = Ok a.
Proof. intros E. by apply index_ok. Qed.

Lemma old_at old i s st :
  Forall sok old -> length old = sk_count K -> okst st ->
  (i, s) ∈ iter_snakes st -> exists o h, index old i = Ok o /\ sok o /\ head o = Ok h.
Proof.
  intros Hold Hl H Hin. apply elem_of_enumerate in Hin as [Hi Hs].
  destruct (vec_get_lt_Some old i) as [o Ho].
  { unfold vec_len. rewrite Hl. apply vec_get_Some_lt in Hs; [|done].
    destruct (ok_reads st H) as (_ & _ & _ & _ & _ & _ & _ & _ & <- & _). lia. }
  assert (Hs' : sok o) by (eapply Forall_lookup_1; [exact Hold|exact Ho]).
  destruct (sok_head o Hs') as [h Hh]. exists o, h.
  split; [by apply index_some|done].
Qed.

(** Causes name snakes of the match. *)
Definition cause_ok (cause : DeathCause) : Prop :=
  forall a, attributed_snake cause = Some a -> in_count K a.

Lemma iter_in_count st i s : okst st -> (i, s) ∈ iter_snakes st -> 0 <= i /\ in_count K i.
Proof.
  intros H Hin. apply elem_of_enumerate in Hin as [Hi Hs]. split; [done|].
  unfold in_count. destruct (ok_reads st H) as (_ & _ & _ & _ & _ & _ & _ & _ & <- & _).
  by eapply vec_get_Some_lt.
Qed.

Lemma contact_cause_ok old movers st i s h j other :
  Forall sok old -> length old = sk_count K -> okst st ->
  (i, s) ∈ iter_snakes st -> (j, other) ∈ iter_snakes st ->
  exists c, contact_cause old movers i h j other = Ok c /\ cause_ok c.
Proof.
  intros Hold Hl H Hi Hj. pose proof (iter_in_count st j other H Hj) as [_ Hjc].
  destruct (old_at old i s st Hold Hl H Hi) as (o & oh & Eo & _ & Eoh).
  destruct (old_at old j other st Hold Hl H Hj) as (o' & oh' & Eo' & _ & Eoh').
  assert (Hso : sok other).
  { apply elem_of_enumerate in Hj as [_ Hj]. by eapply ok_snake_at. }
  destruct (sok_head other Hso) as [h' Eh'].
  assert (Hhh : cause_ok (DC_HeadToHead j)) by (intros a [= <-]; done).
  assert (Hsb : cause_ok (DC_SnakeBody j)) by (intros a [= <-]; done).
  unfold contact_cause. rewrite Eo. cbn [mbind result_bind]. rewrite Eoh.
  cbn [mbind result_bind]. rewrite Eh'. cbn [mbind result_bind]. rewrite Eo'.
  cbn [mbind result_bind]. rewrite Eoh'. cbn [mbind result_bind].
  repeat case_match; eauto. by exists DC_SelfCollision.
Qed.

Lemma first_contact_ok old movers st i s h others :
  Forall sok old -> length old = sk_count K -> okst st ->
  (i, s) ∈ iter_snakes st -> others ⊆ iter_snakes st ->
  exists c, first_contact old movers i h others = Ok c
            /\ forall cause, c = Some cause -> cause_ok cause.
Proof.
  intros Hold Hl H Hi. induction others as [|[j other] rest IH]; intros Hsub; cbn.
  { by exists None. }
  case_match.
  - destruct (contact_cause_ok old movers st i s h j other) as (c & -> & Hc); try done.
    { apply Hsub. by left. }
    exists (Some c). split; [done|]. by intros ? [= <-].
  - apply IH. intros x Hx. apply Hsub. by right.
Qed.

Definition crash_ok (c : Z * (Position * DeathCause)) : Prop :=
  0 <= c.1 /\ in_count K c.1 /\ unkicked K kl c.1 /\ cause_ok c.2.2.

Lemma crash_of_ok old movers st i s :
  Forall sok old -> length old = sk_count K -> okst st -> (i, s) ∈ iter_snakes st ->
  exists c, crash_of old movers st i s = Ok c
            /\ forall p, c = Some p -> crash_ok (i, p).
Proof.
  intros Hold Hl H Hi. pose proof (iter_in_count st i s H Hi) as [Hi0 Hic].
  pose proof Hi as Hi'. apply elem_of_enumerate in Hi' as [_ Hs].
  destruct (sok_head s) as [h Eh]; [by eapply ok_snake_at|].
  unfold crash_of. rewrite Eh. cbn [mbind result_bind].
  destruct (is_alive s) eqn:Ea; cbn [andb]; [|by exists None].
  assert (Hu : unkicked K kl i) by by eapply alive_unkicked.
  case_bool_decide; [|by exists None].
  assert (Hyes : forall cause, cause_ok cause -> crash_ok (i, (h, cause))) by done.
  do 3 (match goal with |- context [if ?b then _ else _] => destruct b end;
        [eexists; split; [done|]; intros p [= <-]; by apply Hyes|]).
  destruct (first_contact_ok old movers st i s h (iter_snakes st)) as (c & -> & Hc); try done.
  cbn. eexists. split; [done|]. destruct c as [cause|]; [|done].
  intros p [= <-]. auto.
Qed.

Lemma find_crashes_ok old movers st l :
  Forall sok old -> length old = sk_count K -> okst st -> l ⊆ iter_snakes st ->
  exists cs, find_crashes old movers st l = Ok cs /\ Forall crash_ok cs.
Proof.
  intros Hold Hl H. induction l as [|[i s] l IH]; intros Hsub; cbn; [by exists []|].
  destruct (crash_of_ok old movers st i s) as (c & -> & Hc); try done.
  { apply Hsub. by left. }
  destruct IH as (cs & -> & Hcs). { intros x Hx. apply Hsub. by right. }
  cbn. eexists. split; [done|]. destruct c; [constructor; auto|done].
Qed.

(** ** Deaths and respawns *)

Lemma ok_respawn_event so id e :
  okst so.1 -> unkicked K kl id -> respawn_event_for_snake so.1 id = Some e ->
  okst (emit e so).1.
Proof.
  intros H Hu. unfold respawn_event_for_snake. repeat case_match; try done.
  intros [= <-]. apply ok_emit. by apply ok_respawned, Hu; [|apply ok_seq].
Qed.

Lemma clamp_ok st v :
  okst st -> 0 < v -> v <= i16_max -> forall x, exists z,
  i16_clamp x 0 (Z.max i16_min (v - 1)) = Ok z.
Proof.
  intros _ Hv Hm x. unfold i16_clamp, i16_min, i16_max in *. case_match; [eauto|lia].
Qed.

Lemma kill_crashed_ok old so c :
  Forall sok old -> length old = sk_count K -> okst so.1 -> crash_ok c ->
  exists so', kill_crashed old so c = Ok so' /\ okst so'.1.
Proof.
  destruct so as [st out], c as [id [h cause]]. intros Hold Hl H (Hi & Hic & Hu & Hc).
  cbn [fst snd] in *. destruct (vec_get_lt_Some old id) as [o Ho].
  { unfold in_count, vec_len in *. lia. }
  assert (Hso : sok o) by (eapply Forall_lookup_1; [exact Hold|exact Ho]).
  unfold kill_crashed. rewrite (index_some old id o Ho). cbn [mbind result_bind]. cbv zeta.
  pose proof (ok_set_snake st id o H Hso (or_intror Hu)) as H1.
  set (st1 := with_snakes _ st) in *.
  destruct (ok_reads st1 H1) as (_ & _ & _ & _ & _ & _ & Ew & Eh & _). rewrite Ew, Eh.
  pose proof (wrap_i16_range (width (sk_arena K))) as [_ Hwm].
  pose proof (wrap_i16_range (height (sk_arena K))) as [_ Hhm].
  destruct (clamp_ok st1 _ H1 (sk_width_pos K HK) Hwm (px h)) as [x ->].
  cbn [mbind result_bind].
  destruct (clamp_ok st1 _ H1 (sk_height_pos K HK) Hhm (py h)) as [y ->].
  cbn [mbind result_bind].
  set (st2 := with_recent_crashes _ st1).
  assert (H2 : okst st2) by ok_frame H1.
  pose proof (ok_emit K t T kl (Ev_SnakeDied id cause) (st2, out)) as H3.
  destruct (emit (Ev_SnakeDied id cause) (st2, out)) as [st3 out3] eqn:E3.
  assert (okst st3) as H3'.
  { apply H3, ok_died; [done|by apply ok_seq|]. by split. }
  destruct (is_team_match _); [|by eexists].
  destruct (respawn_event_for_snake st3 id) as [e|] eqn:E; [|by eexists].
  eexists. split; [done|]. by eapply (ok_respawn_event (st3, out3)).
Qed.

Lemma kill_all_ok old so cs :
  Forall sok old -> length old = sk_count K -> okst so.1 -> Forall crash_ok cs ->
  exists so', kill_all old so cs = Ok so' /\ okst so'.1.
Proof.
  intros Hold Hl H Hcs. revert so H. induction Hcs as [|c cs Hc Hcs IH]; intros so H.
  { by exists so. }
  destruct (kill_crashed_ok old so c Hold Hl H Hc) as (so' & E & H').
  cbn [kill_all]. rewrite E. by apply IH.
Qed.

(** ** Food *)

Definition alive_at (l : list Snake) (id : Z) : Prop :=
  vec_get (is_alive <$> l) id = Some true.

Lemma alive_at_some l id :
  alive_at l id <-> exists s, vec_get l id = Some s /\ is_alive s = true.
Proof.
  unfold alive_at, vec_get. rewrite list_lookup_fmap. split.
  - destruct (l !! Z.to_nat id) as [s|]; [|done]. intros [= E]. eauto.
  - by intros (s & -> & <-).
Qed.

(** A pickup by a living snake. *)
Definition living_pickup (l : list Snake) (e : GameEvent) : Prop :=
  match e with
  | Ev_FoodEaten id _ _ _ _ _ => 0 <= id /\ alive_at l id
  | _ => False
  end.

Lemma food_events_ok st l claimed :
  okst st -> l ⊆ iter_snakes st ->
  exists es, food_events st l claimed = Ok es
             /\ Forall (living_pickup (gs_snakes st)) es.
Proof.
  intros H. revert claimed. induction l as [|[i s] l IH]; intros claimed Hsub.
  { by exists []. }
  assert (Hin : (i, s) ∈ iter_snakes st) by (apply Hsub; by left).
  assert (Hl : l ⊆ iter_snakes st) by (intros x Hx; apply Hsub; by right).
  apply elem_of_enumerate in Hin as [Hi Hs].
  destruct (sok_head s) as [h Eh]; [by eapply ok_snake_at|].
  cbn [food_events]. rewrite Eh. cbn [mbind result_bind]. case_match; [|by apply IH].
  bool_hyps. destruct (combo_pickup_context st s) as [[[? ?] ?] ?].
  destruct (IH ({[h]} ∪ claimed) Hl) as (es & -> & Hes). cbn [mbind result_bind].
  eexists. split; [done|]. constructor; [|done]. split; [done|].
  apply alive_at_some. eauto.
Qed.

Lemma alter_alive f (l : list Snake) i :
  (forall s, is_alive (f s) = is_alive s) ->
  is_alive <$> vec_alter f l i = is_alive <$> l.
Proof.
  intros Hf. apply list_eq. intros n. rewrite !list_lookup_fmap. unfold vec_alter.
  destruct (decide (n = Z.to_nat i)) as [->|Hne].
  - rewrite list_lookup_alter_eq. destruct (l !! _); cbn; by rewrite ?Hf.
  - by rewrite list_lookup_alter_ne.
Qed.

Lemma eaten_alive st id p points chain before b :
  is_alive <$> gs_snakes (apply_event (Ev_FoodEaten id p points chain before b) st)
  = is_alive <$> gs_snakes st.
Proof.
  cbn [apply_event]. case_match; [|done]. unfold remove_food. case_match; [|done].
  by apply alter_alive.
Qed.

Lemma ok_eat_one so e :
  okst so.1 -> living_pickup (gs_snakes so.1) e ->
  okst (eat_one so e).1
  /\ is_alive <$> gs_snakes (eat_one so e).1 = is_alive <$> gs_snakes so.1.
Proof.
  destruct so as [st out]. intros H He. destruct e; try done. destruct He as [Hi Ha].
  unfold eat_one. cbn [fst] in *.
  assert (H1 : okst (emit (Ev_FoodEaten snake_id position points combo_chain
                 combo_remaining_ms_before boost_active) (st, out)).1).
  { apply ok_emit, ok_eaten; [done|by apply ok_seq|done|]. by apply alive_at_some in Ha. }
  pose proof (eaten_alive (with_event_sequence (wrap_u64 (gs_event_sequence st + 1)) st)
    snake_id position points combo_chain combo_remaining_ms_before boost_active) as E.
  case_match; [|by split]. split; [|exact E].
  apply ok_emit. cbn [apply_event]. ok_frame H1.
Qed.

Lemma ok_eat_all so es :
  okst so.1 -> Forall (living_pickup (gs_snakes so.1)) es -> okst (foldl eat_one so es).1.
Proof.
  revert so. induction es as [|e es IH]; intros so H Hes; [done|].
  apply Forall_cons in Hes as [He Hes]. destruct (ok_eat_one so e H He) as [H' E].
  apply IH; [done|]. eapply Forall_impl; [exact Hes|].
  intros [] Hx; try done. destruct Hx as [? Hx]. split; [done|]. unfold alive_at. by rewrite E.
Qed.

(** ** Pads *)

Lemma collect_same s amount cap c s' :
  collect_boost_charge s amount cap = (Some c, s') ->
  set_charge c s' = s' /\ is_alive s' = is_alive s.
Proof.
  unfold collect_boost_charge. destruct (_ || _); [done|]. by intros [= <- <-].
Qed.

Lemma collect_alive s amount cap :
  is_alive (snd (collect_boost_charge s amount cap)) = is_alive s.
Proof. unfold collect_boost_charge. by destruct (_ || _). Qed.

Lemma ok_collect_pad post config so pad :
  okst so.1 -> sk_boost K = Some config -> 0 <= pad_charge_ms pad ->
  T = post -> post < u32_max -> okst (collect_pad post config so pad).1.
Proof.
  destruct so as [st out]. cbn [fst]. intros H Hc Hp HT Hpost. unfold collect_pad.
  destruct (pad_collector st pad) as [id|]; [|done].
  destruct (vec_get (gs_snakes st) id) as [s|] eqn:Es; [|done].
  pose proof (ok_snake_at _ _ _ H Es) as Hs.
  pose proof (sok_collect (sk_boost K) (sk_window K) (sk_threshold K) (sk_cfg K HK)
    config (pad_charge_ms pad) s Hc Hp Hs) as Hs'.
  pose proof (collect_alive s (pad_charge_ms pad) (bc_capacity_ms config)) as Ea.
  destruct (collect_boost_charge s (pad_charge_ms pad) (bc_capacity_ms config))
    as [charge s'] eqn:E. cbn [snd] in *.
  assert (H1 : okst (with_snakes (vec_set (gs_snakes st) id s') st)).
  { apply ok_set_snake; [done|done|]. rewrite Ea.
    destruct (is_alive s) eqn:E'; [right; by eapply alive_unkicked|by left]. }
  destruct charge as [c|]; [|done]. destruct (collect_same _ _ _ _ _ E) as [Esame _].
  apply ok_emit. cbn [apply_event fst]. set (st1 := with_event_sequence _ _).
  assert (H2 : okst (with_pads (set_first_pad (pad_id pad)
    (sat_add_u32 post (bc_pad_respawn_ms config / quantum_ms st)) (gs_pads st1)) st1)).
  { apply ok_with_pads; [by apply ok_seq| |].
    - rewrite set_first_pad_shape. by rewrite <- (ok_skel H1).
    - apply set_first_pad_cooling; [|apply (ok_pads H1)].
      destruct (ok_reads st H) as (_ & _ & _ & _ & _ & -> & _).
      pose proof (sk_cooldown K HK config Hc).
      assert (1 <= bc_pad_respawn_ms config / sk_quantum K).
      { apply Z.div_le_lower_bound; unfold sk_quantum in *; lia. }
      subst T. unfold sat_add_u32. lia. }
  case_match; [|done]. case_match; [|done]. apply ok_update_snake; [done| |by left].
  intros s0 Hs0 Hok. cbn in Hs0. rewrite vec_get_set_eq in Hs0 by by eexists.
  injection Hs0 as <-. by rewrite Esame.
Qed.

Lemma ok_collect_pads post so :
  okst so.1 -> T = post -> post < u32_max -> okst (collect_pads post so).1.
Proof.
  intros H HT Hpost. unfold collect_pads.
  destruct (ok_reads so.1 H) as (_ & _ & _ & -> & _ & _ & _ & _ & _ & Esh).
  destruct (sk_boost K) as [c|] eqn:Ec; [|done].
  assert (Hch : Forall (fun pad => 0 <= pad_charge_ms pad) (available_pads so.1)).
  { unfold available_pads. apply Forall_fmap.
    rewrite (merge_sort_Permutation key_le).
    apply Forall_fmap, Forall_forall. intros pad Hpad. cbn.
    apply list_elem_of_filter in Hpad as [_ Hpad].
    apply (sk_charges K HK (pad_id pad) (pad_position pad) _ (pad_size_cells pad)).
    rewrite Esh. apply list_elem_of_fmap. by exists pad. }
  clear Esh. revert Hch. generalize (available_pads so.1). intros l. revert so H.
  induction l as [|pad l IH]; intros so H Hch; [done|]. cbn.
  apply Forall_cons in Hch as [Hp Hch].
  apply IH; [|done]. by apply ok_collect_pad.
Qed.

(** ** Spawning, scoring and completion *)

(** The invariant at the end of a quantum. *)
Definition okf (st : GameState) : Prop := okst st /\ Forall funded (gs_snakes st).

Lemma okf_spawn `{F32Libm} movement_only so : okf so.1 -> okf (spawn_food movement_only so).1.
Proof.
  destruct so as [st out]. intros [Hs Hf]. cbn [fst] in *. unfold spawn_food.
  case_match; [|done]. destruct (gs_rng st) as [rng|]; [|done].
  destruct (sample_food_position rng _ _) as [pos rng'].
  assert (H1 : okst (with_rng (Some rng') st)) by ok_frame Hs.
  case_match; [|done]. split.
  - apply ok_emit. by apply ok_spawned; [apply ok_seq|].
  - cbn. by case_match.
Qed.

Lemma okf_goal_cues old movers st : okf st -> okf (record_goal_cues old movers st).
Proof.
  intros [H Hf]. unfold record_goal_cues. repeat case_match; try done.
  split; [ok_frame H|done].
Qed.

Lemma okf_alter st id f :
  Forall funded (gs_snakes st) -> (forall s, active (boost (f s)) = false) ->
  Forall funded (gs_snakes (update_snake id f st)).
Proof.
  intros H Hf. apply Forall_lookup. intros n s Hn. cbn in Hn. unfold vec_alter in Hn.
  destruct (decide (n = Z.to_nat id)) as [->|Hne].
  - rewrite list_lookup_alter_eq in Hn. destruct (gs_snakes st !! _); [|done].
    injection Hn as <-. intros Ha. by rewrite Hf in Ha.
  - rewrite list_lookup_alter_ne in Hn by done. by eapply Forall_lookup_1.
Qed.

Lemma okf_team_score so entry : okf so.1 -> okf (add_team_score so entry).1.
Proof.
  destruct so as [st out], entry as [team delta]. intros [H Hf]. cbn [fst] in *.
  unfold add_team_score. cbn. case_match; split; try done; ok_frame H.
Qed.

Lemma okf_bank so id :
  okf so.1 -> unkicked K kl id -> in_count K id -> okf (bank_and_respawn so id).1.
Proof.
  destruct so as [st out]. intros [H Hf] Hu Hc. cbn [fst] in *. unfold bank_and_respawn.
  destruct (emit (Ev_SnakeDied id DC_Banked) (st, out)) as [st1 out1] eqn:E.
  assert (Est1 : st1 = apply_event (Ev_SnakeDied id DC_Banked)
                   (with_event_sequence (wrap_u64 (gs_event_sequence st + 1)) st)).
  { by injection E as <- _. }
  assert (H1 : okst st1).
  { subst st1. apply ok_died; [done|by apply ok_seq|]. by split. }
  assert (Hf1 : Forall funded (gs_snakes st1)).
  { subst st1. by apply (okf_alter (with_last_death_causes _ (with_event_sequence _ st))). }
  clear Est1 E. cbn [fst].
  destruct (respawn_event_for_snake st1 id) as [e|] eqn:Er; [|done].
  split; [by eapply (ok_respawn_event (st1, out1))|].
  unfold respawn_event_for_snake in Er. repeat case_match; try done. simplify_eq.
  by apply (okf_alter (with_event_sequence _ st1)).
Qed.

Lemma bankers_ok st b :
  okst st -> b ∈ bankers st -> unkicked K kl b.1.1 /\ in_count K b.1.1.
Proof.
  intros H Hb. unfold bankers in Hb. apply list_elem_of_omap in Hb as ([i s] & Hin & Hb).
  pose proof (iter_in_count st i s H Hin) as [_ Hc].
  apply elem_of_enumerate in Hin as [_ Hs]. unfold banking in Hb.
  destruct (is_alive s) eqn:Ea; [|done]. cbn in Hb.
  destruct (sn_team_id s) as [team|]; [|done]. destruct (head s) as [h| |]; try done.
  destruct (_ && _); [|done]. injection Hb as <-. split; [|done].
  by eapply alive_unkicked.
Qed.

Lemma okf_score so : okf so.1 -> okf (score_goals so).1.
Proof.
  intros H. unfold score_goals. destruct (gs_team_scores so.1); [|done].
  destruct (is_team_match _); [|done].
  assert (Hb : Forall (fun id => unkicked K kl id /\ in_count K id)
                 ((fun b => b.1.1) <$> bankers so.1)).
  { apply Forall_fmap, Forall_forall. intros b. apply bankers_ok, H. }
  revert Hb. generalize (bankers so.1). intros bs Hb.
  generalize (merge_sort key_le (map_to_list (score_deltas bs))). intros ds.
  assert (H1 : okf (foldl add_team_score so ds).1).
  { clear Hb. revert so H. induction ds as [|d ds IH]; intros so H; [done|].
    apply IH. by apply okf_team_score. }
  revert H1. generalize (foldl add_team_score so ds). intros so1 H1.
  clear H. revert so1 H1. induction Hb as [|id ids [Hu Hc] Hb IH]; intros so1 H1; [done|].
  apply IH. by apply okf_bank.
Qed.

Lemma okf_finish xp winner so : okf so.1 -> okf (finish xp winner so).1.
Proof.
  destruct so as [st out]. intros [H Hf]. split; [|done]. unfold finish.
  apply ok_emit, ok_status; [|done]. apply ok_seq, ok_emit.
  cbn [apply_event fst] in *. ok_frame H.
Qed.

Lemma team_xp_awards_ok st w l :
  okst st -> (forall u p, (u, p) ∈ l -> sk_players K !! u = Some p) ->
  exists xp, team_xp_awards st w l = Ok xp.
Proof.
  intros H. induction l as [|[u p] l IH]; intros Hl; [by eexists|].
  destruct IH as [m Em]; [intros; apply Hl; by right|].
  pose proof (sk_owned K HK u p (Hl u p ltac:(by left))) as Ho.
  destruct (vec_get_lt_Some (gs_snakes st) (pl_snake_id p)) as [s Hs].
  { by destruct (ok_reads st H) as (_ & _ & _ & _ & _ & _ & _ & _ & -> & _). }
  cbn [team_xp_awards]. unfold team_xp. rewrite (index_some _ _ _ Hs). rewrite Em.
  case_match; cbn; by eexists.
Qed.

Lemma check_completion_ok so :
  okf so.1 -> exists so', check_completion so = Ok so' /\ okf so'.1.
Proof.
  intros H. unfold check_completion. destruct (negb _); [by exists so|].
  destruct (is_team_match _).
  - destruct (score_limit _) as [limit|]; [|by exists so].
    destruct (score_reached _ _); [|by exists so].
    destruct (team_xp_awards_ok so.1 (gs_team_scores so.1 ≫= leading_team)
                (map_to_list (gs_players so.1))) as [xp ->].
    { apply H. }
    { intros u p Hin. apply elem_of_map_to_list in Hin. rewrite <- Hin.
      by rewrite <- (ok_skel (proj1 H)). }
    eexists. split; [done|]. by apply okf_finish.
  - destruct (existsb _ _); [by exists so|]. eexists. split; [done|]. by apply okf_finish.
Qed.

End Outcome.

(** The removed users are players, listed in increasing order. *)
Record kl_ok (K : Skeleton) (kl : list Z) : Prop := {
  kl_sorted : strictly_increasing kl = true;
  kl_players : forall u, u ∈ kl -> is_Some (sk_players K !! u)
}.

Lemma sorted_insert_elem x y l : x ∈ sorted_insert y l <-> x = y \/ x ∈ l.
Proof.
  induction l as [|z l IH]; cbn; [set_solver|].
  case_match; rewrite !elem_of_cons, ?IH; tauto.
Qed.

Lemma sorted_insert_increasing x l :
  strictly_increasing l = true -> x ∉ l -> strictly_increasing (sorted_insert x l) = true.
Proof.
  induction l as [|y l IH]; [done|]. intros Hs Hx. cbn [sorted_insert].
  destruct (Z.ltb_spec x y) as [Hlt|Hge].
  { cbn in *. rewrite (proj2 (Z.ltb_lt x y)) by done. done. }
  apply not_elem_of_cons in Hx as [Hne Hx].
  assert (Hs' : strictly_increasing l = true).
  { cbn in Hs. destruct l; [done|]. by apply andb_true_iff in Hs as [_ ?]. }
  specialize (IH Hs' Hx). destruct l as [|z l]; cbn in IH, Hs |- *.
  - rewrite (proj2 (Z.ltb_lt y x)) by lia. done.
  - apply andb_true_iff in Hs as [Hyz _]. destruct (x <? z); rewrite IH.
    + rewrite (proj2 (Z.ltb_lt y x)) by lia. done.
    + by rewrite Hyz.
Qed.

Section Inactivity.
  Context (K : Skeleton) (HK : skel_ok K) (t T : Z).

Lemma ok_new_kicked kl kl' st :
  ok K t T kl st -> kicked_dead K kl' (gs_snakes st) ->
  ok K t T kl' (with_idle_kicked_user_ids kl' st).
Proof. intros [] Hd. by split. Qed.

(** [okf] with the removed users existentially closed. *)
Definition okx (st : GameState) : Prop :=
  exists kl, kl_ok K kl /\ okf K t T kl st.

Lemma okx_kick so u p :
  okx so.1 -> sk_players K !! u = Some p ->
  okx (emit (Ev_PlayerIdleKicked u (pl_snake_id p)) so).1.
Proof.
  destruct so as [st out]. cbn [fst]. intros (kl & [Hsort Hpl] & H & Hf) Hp.
  set (kick := fun s => set_boost SnakeBoost_default (kill_snake s)).
  set (st0 := with_event_sequence (wrap_u64 (gs_event_sequence st + 1)) st).
  assert (H0 : ok K t T kl st0) by by apply ok_seq.
  assert (H1 : ok K t T kl (update_snake (pl_snake_id p) kick st0)).
  { apply ok_update_snake; [done| |by left].
    intros s _ Hs. apply sok_kick; eauto with snaketron. }
  assert (Hf1 : Forall funded (gs_snakes (update_snake (pl_snake_id p) kick st0))).
  { by apply okf_alter. }
  assert (Hdead : exists s, vec_get (gs_snakes (update_snake (pl_snake_id p) kick st0))
                              (pl_snake_id p) = Some s /\ is_alive s = false).
  { pose proof (sk_owned K HK u p Hp) as Ho. cbn. rewrite vec_get_alter by lia.
    rewrite Z.eqb_refl. destruct (vec_get_lt_Some (gs_snakes st) (pl_snake_id p)) as [s Hs].
    { by destruct (ok_reads st H) as (_ & _ & _ & _ & _ & _ & _ & _ & -> & _). }
    unfold gs_snakes in *. cbn. rewrite Hs. by eexists. }
  cbn [emit apply_event fst]. fold kick st0.
  unfold is_player_idle_kicked. rewrite (ok_kicked H0). case_bool_decide as Hu.
  - exists kl. split; [done|]. split; [by apply ok_queue|done].
  - exists (sorted_insert u kl). split; [split|].
    + by apply sorted_insert_increasing.
    + intros v Hv. apply sorted_insert_elem in Hv as [->|Hv]; [by eexists|auto].
    + split; [|done]. apply ok_queue.
      apply (ok_new_kicked kl _ (update_snake (pl_snake_id p) kick st0) H1).
      intros v q Hv Hq. apply sorted_insert_elem in Hv as [->|Hv].
      * rewrite Hp in Hq. by injection Hq as <-.
      * by apply (ok_dead H1 v q).
Qed.

Lemma expired_players_owned st post u id :
  (u, id) ∈ expired_players st post ->
  exists p, gs_players st !! u = Some p /\ pl_snake_id p = id.
Proof.
  unfold expired_players. rewrite (merge_sort_Permutation key_le).
  intros Hin. apply list_elem_of_omap in Hin as ([v p] & Hin & E).
  unfold active_players in Hin. apply list_elem_of_filter in Hin as [_ Hin].
  apply elem_of_map_to_list in Hin. case_match; [|done]. injection E as <- <-. eauto.
Qed.

Lemma okx_tracking st : okx st -> okx (ensure_player_idle_tracking st).
Proof.
  intros (kl & Hkl & H & Hf). exists kl. split; [done|]. split; [|done].
  pose proof (ok_tick H) as Ht. destruct (ok_reads st H) as (_ & _ & Ep & _).
  destruct H as [? ? ? ? ? ? ? ? ? Hac ?]. split; try done. cbn.
  intros u a. rewrite lookup_union_Some_raw. intros [E|[_ E]]; [by apply Hac in E|].
  rewrite lookup_fmap, Ep in E. destruct (sk_players K !! u); [|done].
  cbn in E. injection E as <-. split; [by eexists|lia].
Qed.

Lemma okx_inactivity post so over so' :
  okx so.1 -> resolve_player_inactivity post so = (over, so') ->
  okx so'.1 /\ (over = true -> gs_completed_by_inactivity so'.1 = true).
Proof.
  destruct so as [st out]. intros H. unfold resolve_player_inactivity. cbn [fst] in H.
  destruct (_ || _); [by intros [= <- <-]|].
  pose proof (okx_tracking st H) as H1. set (st1 := ensure_player_idle_tracking st) in *.
  assert (Hkick : forall l so, Forall (fun '(u, id) => exists p,
              sk_players K !! u = Some p /\ pl_snake_id p = id) l -> okx so.1 ->
            okx (foldl (fun so '(u, id) => emit (Ev_PlayerIdleKicked u id) so) so l).1).
  { clear - HK. intros l. induction l as [|[u id] l IH]; intros so Hl Hso; [done|].
    apply Forall_cons in Hl as [(p & Hp & <-) Hl]. apply IH; [done|]. by apply okx_kick. }
  assert (Hex : Forall (fun '(u, id) => exists p,
              sk_players K !! u = Some p /\ pl_snake_id p = id) (expired_players st1 post)).
  { apply Forall_forall. intros [u id] Hin. apply expired_players_owned in Hin.
    destruct H1 as (kl & _ & [H1 _]). by destruct (ok_reads st1 H1) as (_ & _ & <- & _). }
  destruct (expired_players st1 post) as [|e es]; [by intros [= <- <-]|].
  specialize (Hkick (e :: es) (st1, out) Hex H1).
  destruct (foldl _ (st1, out) (e :: es)) as [st2 out2]. cbn [fst] in Hkick.
  destruct (inactivity_winning_snake_id st2) as [w|]; intros [= <- <-]; [|done].
  split; [|done]. destruct Hkick as (kl & Hkl & H2 & Hf). exists kl. split; [done|].
  split; [|done]. destruct H2. by split.
Qed.

End Inactivity.

(** ** The composition *)

Section Total.
  Context `{Hlibm : F32Libm} (K : Skeleton) (HK : skel_ok K).

Lemma ok_prune t T kl st : ok K t T kl st -> ok K t T kl (prune_cues st).
Proof. intros H. ok_frame H. Qed.

Lemma okx_first_tick t T so :
  okx K t T so.1 -> okx K t T (first_tick_snapshot so).1.
Proof.
  destruct so as [st out]. intros (kl & Hkl & H & Hf). unfold first_tick_snapshot.
  case_match; exists kl; (split; [done|]); [|done]. split; [by apply ok_seq|done].
Qed.

Lemma ok_respawn_pads t kl st :
  ok K t t kl st -> ok K t (t + 1) kl (respawn_pads (t + 1) st).
Proof.
  intros H. destruct H as [Hk ? ? ? ? ? ? Hfood Hpads ? ?]. split; try done.
  - rewrite <- Hk. unfold skeleton, respawn_pads, gs_pads, empty_arena, gs_snakes. cbn.
    f_equal. rewrite <- list_fmap_compose. apply list_fmap_ext.
    intros i [? ? ? ? [r|]] _; cbn; [|done]. by case_match.
  - apply Forall_fmap. eapply Forall_impl; [exact Hpads|]. intros pad Hp r. cbn.
    destruct (pad_respawn_at_tick pad) as [r0|] eqn:E; [|by rewrite E].
    specialize (Hp r0 E). case_match; cbn; [done|]. rewrite E. intros [= <-]. lia.
Qed.

Lemma ok_with_tick t t' T kl st :
  ok K t T kl st -> t <= t' -> ok K t' T kl (with_tick t' st).
Proof.
  intros [? ? ? ? ? ? ? ? ? Hac ?] Ht. split; try done. cbn. intros u a Hu.
  destruct (Hac u a Hu). split; [done|lia].
Qed.

(** From the end of movement on. *)
Lemma tick_resolve_ok movement_only t kl old movers so obs :
  ok K t (t + 1) kl so.1 -> 0 <= t -> t + 1 < u32_max ->
  exists out st' obs',
    tick_resolve movement_only (t + 1) old movers so obs = (Ok out, st', obs')
    /\ okf K (t + 1) (t + 1) kl st'.
Proof.
  intros H Ht Hu. destruct so as [st out]. cbn [fst] in H. unfold tick_resolve.
  destruct (food_events_ok K t (t + 1) kl st (iter_snakes st) ∅ H) as (es & -> & Hes);
    [done|]. cbn [tick_try].
  pose proof (ok_eat_all K HK t (t + 1) kl (st, out) es H Hes) as H1.
  destruct (foldl eat_one (st, out) es) as [st1 out1]. cbn [fst] in H1.
  pose proof (ok_collect_pads K HK t (t + 1) kl (t + 1) (st1, out1) H1 eq_refl Hu) as H2.
  destruct (collect_pads (t + 1) (st1, out1)) as [st2 out2]. cbn [fst] in H2.
  pose proof (ok_finalize K HK t (t + 1) kl st2 H2) as H3.
  destruct (finalize_boosts st2) as [st3 depleted]. cbn [fst] in H3.
  pose proof (okf_spawn K t (t + 1) kl movement_only (st3, out2) H3) as H4.
  destruct (spawn_food movement_only (st3, out2)) as [st4 out4]. cbn [fst] in H4.
  pose proof (okf_goal_cues K t (t + 1) kl old movers st4 H4) as H5.
  set (st5 := record_goal_cues old movers st4) in *.
  assert (Hend : forall st, okf K t (t + 1) kl st ->
            okf K (t + 1) (t + 1) kl (with_tick (wrap_u32 (gs_tick st + 1)) st)).
  { intros s [Hs Hf]. split; [|done]. rewrite (ok_tick Hs), wrap_u32_id.
    - by apply (ok_with_tick t); [|lia].
    - unfold is_u32. lia. }
  destruct movement_only; cbn [tick_try].
  { eexists _, _, _. split; [done|]. by apply Hend. }
  pose proof (okf_score K HK t (t + 1) kl (st5, out4) H5) as H6.
  destruct (check_completion_ok K HK t (t + 1) kl _ H6) as ([st7 out7] & -> & H7).
  cbn [tick_try]. eexists _, _, _. split; [done|]. by apply Hend.
Qed.

Lemma tick_forward_ok movement_only t st :
  okx K t t st -> is_complete st = false -> 0 <= t -> t + 1 < u32_max ->
  exists out st' obs, tick_forward movement_only st = (Ok out, st', obs)
    /\ gs_tick st' = t + 1
    /\ (okx K (t + 1) (t + 1) st'
        \/ okx K (t + 1) t st' /\ gs_completed_by_inactivity st' = true
           /\ exists out' st0, resolve_player_inactivity (t + 1)
                (first_tick_snapshot (prune_cues st, [])) = (true, (st0, out'))
                /\ st' = with_tick (t + 1) st0).
Proof.
  intros H Hc Ht Hu. unfold tick_forward. rewrite Hc.
  assert (H0 : okx K t t (prune_cues st)).
  { destruct H as (kl & Hkl & H & Hf). exists kl. split; [done|].
    split; [by apply ok_prune|done]. }
  pose proof (okx_first_tick t t (prune_cues st, []) H0) as H1.
  destruct (first_tick_snapshot (prune_cues st, [])) as [st1 out1] eqn:E1. cbn [fst] in H1.
  assert (Epost : sat_add_u32 (gs_tick st1) 1 = t + 1).
  { destruct H1 as (kl & _ & H1 & _). rewrite (ok_tick H1). unfold sat_add_u32. lia. }
  rewrite Epost. clear Epost.
  destruct (resolve_player_inactivity (t + 1) (st1, out1)) as [over [st2 out2]] eqn:E2.
  destruct (okx_inactivity K HK t t _ (st1, out1) _ _ H1 E2) as [H2 Hover]. cbn [fst] in *.
  destruct over.
  { eexists _, _, _. split; [done|]. split; [done|]. right. split; [|eauto 10].
    destruct H2 as (kl & Hkl & H2 & Hf). exists kl. split; [done|].
    split; [|done]. by apply (ok_with_tick t); [|lia]. }
  clear Hover. destruct H2 as (kl & Hkl & H2 & _).
  pose proof (ok_respawn_pads t kl _ (ok_drain K HK t t kl st2 H2)) as H3.
  set (st3 := respawn_pads (t + 1) (drain_combos st2)) in *.
  destruct (ok_tick_move K HK t (t + 1) kl st3 out2 H3) as (mv & [st4 out4] & stx & obs & -> & H4).
  cbn [tick_try fst] in *.
  pose proof (ok_move K HK t (t + 1) kl mv st4 H4) as H5. set (st5 := move_snakes mv st4) in *.
  assert (Hold : Forall (sk_snake_ok K) (gs_snakes st4)) by apply (ok_snakes H4).
  assert (Hlen : length (gs_snakes st4) = sk_count K) by by rewrite <- (ok_skel H4).
  destruct (find_crashes_ok K t (t + 1) kl (gs_snakes st4) mv st5 (iter_snakes st5))
    as (cs & -> & Hcs); try done. cbn [tick_try].
  destruct (kill_all_ok K HK t (t + 1) kl (gs_snakes st4) (st5, out4) cs)
    as (so6 & -> & H6); try done. cbn [tick_try].
  destruct (tick_resolve_ok movement_only t kl (gs_snakes st4) mv so6 obs)
    as (out & st' & obs' & -> & H7); try done.
  exists out, st', obs'. split; [done|]. split; [apply (ok_tick (proj1 H7))|].
  left. by exists kl.
Qed.

End Total.
