(* ===== verification/Validity.v ===== *)
(** * Validation against the invariant

    [validate_boost_invariants] splits into clauses about the skeleton of a
    state, which no quantum changes, and the clauses of the invariant [ok]. *)

From Stdlib Require Import ZArith.
From stdpp Require Import prelude strings countable list gmap sorting.
From S2P Require Import Prelude RustFloat Util Snake SnakeFacts Arena CommandQueue GameState.
From S2P Require Import GameSetup Events Validate Tick MeterInvariant StateInvariant.
From S2P Require Import TickInvariant OutcomeInvariant.
Open Scope Z_scope.

Definition valid (st : GameState) : Prop := validate_boost_invariants st = Ok tt.

(** What the types and the constructors guarantee and validation does not
    look at: unsigned fields, a body of at least one point, a drawable arena,
    players that own a snake of the arena, and a quantum that funds at most
    one cell. *)
Record wf_state (st : GameState) : Prop := {
  wf_snakes : Forall snake_typed (gs_snakes st);
  wf_width : 0 < wrap_i16 (width (gs_arena st));
  wf_height : 0 < wrap_i16 (height (gs_arena st));
  wf_players : forall u p, gs_players st !! u = Some p ->
               0 <= pl_snake_id p < vec_len (gs_snakes st);
  wf_config : forall c, gs_boost st = Some c ->
              0 <= bc_capacity_ms c /\ 0 <= bc_pad_respawn_ms c;
  wf_pads : Forall (fun pad => 0 <= pad_charge_ms pad) (gs_pads st);
  wf_window : 0 <= cc_window_ms (pr_combo (gs_properties st));
  wf_warning : 0 <= player_idle_warning_ms (gs_properties st);
  wf_pace : gs_boost st = None ->
            NORMAL_SNAKE_SPEED_MILLI * quantum_ms st <= movement_threshold st;
  wf_fits : movement_threshold st <= u32_max + 1
}.

(** ** The static clauses, over the skeleton *)

Fixpoint cells_fit (a : Arena) (field_left field_right : Z) (cells : list Position)
    (seen : gset Position) : option (gset Position) :=
  match cells with
  | [] => Some seen
  | cell :: rest =>
      if negb ((px cell <? field_left) || (field_right <? px cell) || (py cell <? 0)
               || (wrap_i16 (height a) <=? py cell) || is_wall_position a cell)
         && bool_decide (cell ∉ seen)
      then cells_fit a field_left field_right rest ({[cell]} ∪ seen)
      else None
  end.

Definition shape_fits (cap : Z) (ids : gset Z) (sh : Z * Position * Z * Z) : bool :=
  let '(id, pos, charge, size) := sh in
  bool_decide (id ∉ ids)
  && negb (negb ((size =? 1) || (size =? 2)) || (charge =? 0) || (cap <? charge)
           || negb (is_multiple_of charge BOOST_TICK_INTERVAL_MS))
  && (vec_len (shape_cells sh) =? size ^ 2).

Fixpoint shapes_fit (a : Arena) (cap field_left field_right : Z)
    (shapes : list (Z * Position * Z * Z)) (ids : gset Z) (seen : gset Position) : bool :=
  match shapes with
  | [] => true
  | sh :: rest =>
      shape_fits cap ids sh
      && match cells_fit a field_left field_right (shape_cells sh) seen with
         | Some seen =>
             shapes_fit a cap field_left field_right rest ({[sh.1.1.1]} ∪ ids) seen
         | None => false
         end
  end.

Lemma check_cells_ok st l r cells seen seen' :
  check_cells st l r cells seen = Ok seen' <->
  cells_fit (empty_arena (gs_arena st)) l r cells seen = Some seen'
  /\ Forall (fun c => has_food st c = false) cells.
Proof.
  revert seen. induction cells as [|c cells IH]; intros seen; cbn [check_cells cells_fit].
  { split; [intros [= ->]; by split | by intros [[= ->] _]]. }
  rewrite !ensure_bind_ok, IH, Forall_cons.
  change (is_wall_position (empty_arena (gs_arena st)) c)
    with (is_wall_position (gs_arena st) c).
  cbn [height empty_arena].
  destruct (negb _); cbn [andb]; [|naive_solver].
  destruct (bool_decide _); [|naive_solver].
  destruct (has_food st c); cbn; naive_solver.
Qed.

(** What validation asks of a pad beyond its shape. *)
Definition pad_clear (st : GameState) (pad : BoostPad) : Prop :=
  Forall (fun c => has_food st c = false) (footprint_cells pad)
  /\ cooling_after (gs_tick st) pad.

Lemma check_pads_ok st config l r pads ids seen :
  check_pads st config l r pads ids seen = Ok tt <->
  shapes_fit (empty_arena (gs_arena st)) (bc_capacity_ms config) l r
    (pad_shape <$> pads) ids seen = true
  /\ Forall (pad_clear st) pads.
Proof.
  revert ids seen. induction pads as [|pad pads IH]; intros ids seen.
  { by split. }
  cbn [check_pads fmap list_fmap shapes_fit]. rewrite shape_cells_pad.
  rewrite !ensure_bind_ok, bind_ok, andb_true_iff, Forall_cons.
  change (shape_fits (bc_capacity_ms config) ids (pad_shape pad)) with
    (bool_decide (pad_id pad ∉ ids)
     && negb (negb ((pad_size_cells pad =? 1) || (pad_size_cells pad =? 2))
              || (pad_charge_ms pad =? 0) || (bc_capacity_ms config <? pad_charge_ms pad)
              || negb (is_multiple_of (pad_charge_ms pad) BOOST_TICK_INTERVAL_MS))
     && (vec_len (shape_cells (pad_shape pad)) =? pad_size_cells pad ^ 2)).
  rewrite shape_cells_pad, !andb_true_iff. cbn [pad_shape fst].
  assert (Hcool : (match pad_respawn_at_tick pad with
                   | Some t => negb (t <=? gs_tick st) | None => true end = true)
                  <-> cooling_after (gs_tick st) pad).
  { unfold cooling_after. destruct (pad_respawn_at_tick pad) as [r0|]; [|by split].
    rewrite negb_true_iff, Z.leb_gt. split; [by intros ? ? [= <-]|]. intros Hr. by apply Hr. }
  unfold pad_clear at 1. split.
  - intros (? & ? & ? & seen' & Hc & He). rewrite ensure_bind_ok, IH, Hcool in He.
    apply check_cells_ok in Hc as [-> ?]. tauto.
  - intros ((((? & ?) & ?) & Hc) & (? & ?) & ?).
    destruct (cells_fit _ l r (footprint_cells pad) seen) as [seen'|] eqn:E; [|done].
    do 3 (split; [done|]). exists seen'. rewrite check_cells_ok, ensure_bind_ok, IH, Hcool.
    tauto.
Qed.

Definition sk_expected (K : Skeleton) : option BoostConfig :=
  boost_config_for (sk_type K) (width (sk_arena K)) (height (sk_arena K)).

Definition sk_field (K : Skeleton) (c : BoostConfig) : Result (Z * Z) :=
  match boost_field_bounds (sk_arena K) (bc_spot_layout_version c) with
  | Some bounds => Ok bounds
  | None => if bc_unlimited c then Ok (0, i16_sub (wrap_i16 (width (sk_arena K))) 1)
            else Err "Boost layout is not drawable on this arena"
  end.

Definition static_boost (K : Skeleton) (c : BoostConfig) : Prop :=
  match sk_expected K with
  | Some e => bc_spot_layout_version c = bc_spot_layout_version e
  | None => False
  end
  /\ BoostConfig_validate c = Ok tt
  /\ tick_duration_ms (sk_props K) = BOOST_TICK_INTERVAL_MS
  /\ time_limit_ms (sk_props K) = None
  /\ score_limit (sk_props K)
     = (if is_team_match (sk_type K) then Some (team_score_limit (sk_queue_mode K)) else None)
  /\ vec_len (pad_shape <$> boost_pad_layout (sk_arena K) c)
     = (if bc_unlimited c then 0 else 12)
  /\ sk_shapes K = pad_shape <$> boost_pad_layout (sk_arena K) c
  /\ exists l r, sk_field K c = Ok (l, r)
     /\ shapes_fit (sk_arena K) (bc_capacity_ms c) l r (sk_shapes K) ∅ ∅ = true.

Definition static_valid (K : Skeleton) : Prop :=
  ComboConfig_validate (pr_combo (sk_props K)) = Ok tt
  /\ match sk_type K with
     | Custom _ => True
     | g => available_food_target (sk_props K) = food_target_for g
     end
  /\ match sk_boost K with
     | Some c => static_boost K c
     | None => sk_expected K = None /\ sk_shapes K = []
     end
  /\ 0 < player_idle_warning_ms (sk_props K) < player_idle_timeout_ms (sk_props K).

(** ** The equivalence *)

Lemma check_boost_config_ok st c :
  gs_boost st = Some c ->
  check_boost_config st (sk_expected (skeleton st)) c = Ok tt <->
  static_boost (skeleton st) c /\ Forall (pad_clear st) (gs_pads st)
  /\ Forall (fun s => check_boosted_snake st c s = Ok tt) (gs_snakes st).
Proof.
  intros Hc. unfold check_boost_config, static_boost.
  set (K := skeleton st). rewrite !ensure_bind_ok, unit_bind_ok, !ensure_bind_ok, bind_ok.
  change (boost_pad_layout (gs_arena st) c) with (boost_pad_layout (sk_arena K) c).
  change (pad_shape <$> gs_pads st) with (sk_shapes K).
  change (boost_field_bounds (gs_arena st) (bc_spot_layout_version c))
    with (boost_field_bounds (sk_arena K) (bc_spot_layout_version c)).
  change (width (gs_arena st)) with (width (sk_arena K)).
  change (match boost_field_bounds (sk_arena K) (bc_spot_layout_version c) with
          | Some bounds => Ok bounds
          | None => if bc_unlimited c then Ok (0, i16_sub (wrap_i16 (width (sk_arena K))) 1)
                    else Err "Boost layout is not drawable on this arena"
          end) with (sk_field K c).
  change (gs_tick_duration_ms st) with (tick_duration_ms (sk_props K)).
  change (gs_properties st) with (sk_props K).
  change (expected_score_limit st)
    with (if is_team_match (sk_type K) then Some (team_score_limit (sk_queue_mode K))
          else None).
  rewrite andb_true_iff, !Z.eqb_eq, !bool_decide_eq_true.
  assert (Hpads : (exists a : Z * Z, sk_field K c = Ok a /\
      (let '(l, r) := a in
       check_pads st c l r (gs_pads st) ∅ ∅ ;; for_each (gs_snakes st) (check_boosted_snake st c))
      = Ok tt) <->
     (exists l r, sk_field K c = Ok (l, r) /\
        shapes_fit (sk_arena K) (bc_capacity_ms c) l r (sk_shapes K) ∅ ∅ = true)
     /\ Forall (pad_clear st) (gs_pads st)
     /\ Forall (fun s => check_boosted_snake st c s = Ok tt) (gs_snakes st)).
  { split.
    - intros ([l r] & Hf & H). rewrite unit_bind_ok, check_pads_ok, for_each_ok in H.
      destruct H as [[? ?] ?]. eauto 10.
    - intros ((l & r & Hf & Hs) & Hp & Hsn). exists (l, r). split; [done|].
      rewrite unit_bind_ok, check_pads_ok, for_each_ok. done. }
  rewrite Hpads. destruct (time_limit_ms (sk_props K)); [naive_solver|].
  destruct (sk_expected K); naive_solver.
Qed.

Lemma combo_validate_pos c :
  ComboConfig_validate c = Ok tt -> 0 <= cc_window_ms c -> 0 < cc_window_ms c.
Proof.
  unfold ComboConfig_validate. rewrite !ensure_bind_ok. intros [H _] ?. bool_hyps. lia.
Qed.

Lemma boost_validate_cfg c :
  BoostConfig_validate c = Ok tt -> 0 <= bc_capacity_ms c -> 0 <= bc_pad_respawn_ms c ->
  boost_cfg (bc_speed_milli c) (bc_capacity_ms c)
  /\ BOOST_TICK_INTERVAL_MS <= bc_pad_respawn_ms c.
Proof.
  unfold BoostConfig_validate. rewrite !ensure_bind_ok.
  intros (Hs & Hc & _ & Hr & _) Hc0 Hr0. bool_hyps.
  assert (Hm : (BOOST_TICK_INTERVAL_MS | bc_capacity_ms c)).
  { eapply Z.divide_trans; [|eassumption]. by exists 4. }
  split; [split; [lia|lia|done]|].
  destruct H2 as [k Hk]. unfold BOOST_TICK_INTERVAL_MS in *. nia.
Qed.

Lemma wf_skel_ok st :
  wf_state st -> static_valid (skeleton st) -> skel_ok (skeleton st).
Proof.
  intros W (Hcombo & _ & Hb & _). set (K := skeleton st) in *.
  assert (Hcfg : forall c, sk_boost K = Some c ->
            boost_cfg (bc_speed_milli c) (bc_capacity_ms c)
            /\ sk_quantum K = BOOST_TICK_INTERVAL_MS
            /\ BOOST_TICK_INTERVAL_MS <= bc_pad_respawn_ms c
            /\ sk_interval K = DEFAULT_TICK_INTERVAL_MS).
  { intros c Hc. rewrite Hc in Hb. destruct Hb as (He & Hv & Ht & _).
    destruct (wf_config st W c Hc) as [? ?].
    destruct (boost_validate_cfg c Hv) as [? ?]; [done..|].
    split; [done|]. split; [unfold sk_quantum; by rewrite Ht|]. split; [done|].
    unfold sk_expected, sk_interval in *. by destruct (sk_type K). }
  split.
  - destruct (sk_boost K) as [c|] eqn:Ec; [|done]. by apply Hcfg.
  - intros c Hc. destruct (Hcfg c Hc) as (_ & -> & ? & _). done.
  - apply combo_validate_pos; [done|]. apply (wf_window st W).
  - intros speed Hs. unfold sk_threshold.
    destruct (sk_boost K) as [c|] eqn:Ec.
    + destruct (Hcfg c eq_refl) as ([Hsp _ _] & -> & _ & ->).
      unfold NORMAL_SNAKE_SPEED_MILLI, MAX_BOOST_SPEED_MILLI, BOOST_TICK_INTERVAL_MS,
        DEFAULT_TICK_INTERVAL_MS in *.
      destruct Hs as [->|(c' & [= <-] & ->)]; lia.
    + destruct Hs as [->|(c' & ? & _)]; [|done]. split.
      * unfold sk_quantum, NORMAL_SNAKE_SPEED_MILLI. lia.
      * by apply (wf_pace st W).
  - apply (wf_fits st W).
  - apply (wf_width st W).
  - apply (wf_height st W).
  - apply (wf_players st W).
  - intros id pos charge size Hin. apply list_elem_of_fmap in Hin as (pad & E & Hin).
    injection E as _ _ -> _. pose proof (wf_pads st W) as Hp. rewrite Forall_forall in Hp.
    by apply Hp.
Qed.

Lemma snakes_valid st :
  cfg_ok (gs_boost st) ->
  (Forall (fun s => check_combo (pr_combo (gs_properties st)) s = Ok tt) (gs_snakes st)
   /\ match gs_boost st with
      | Some c => Forall (fun s => check_boosted_snake st c s = Ok tt) (gs_snakes st)
      | None => Forall (fun s => check_plain_snake st s = Ok tt) (gs_snakes st)
      end
   /\ Forall snake_typed (gs_snakes st))
  <-> Forall (sk_snake_ok (skeleton st)) (gs_snakes st)
      /\ Forall funded (gs_snakes st).
Proof.
  intros Hcfg. rewrite !Forall_forall.
  assert (Hone : forall s,
    (check_combo (pr_combo (gs_properties st)) s = Ok tt
     /\ match gs_boost st with
        | Some c => check_boosted_snake st c s = Ok tt
        | None => check_plain_snake st s = Ok tt
        end /\ snake_typed s) <-> sk_snake_ok (skeleton st) s /\ funded s).
  { intros s. rewrite check_combo_ok. unfold sk_snake_ok.
    change (sk_boost (skeleton st)) with (gs_boost st).
    change (sk_threshold (skeleton st)) with (movement_threshold st).
    change (sk_window (skeleton st)) with (cc_window_ms (pr_combo (gs_properties st))).
    destruct (gs_boost st) as [c|].
    - pose proof (check_boosted_ok st c s (cfg_cap_pos _ _ Hcfg)) as Hb. split.
      + intros ((? & ? & ?) & Hc & []). destruct (proj1 Hb) as (? & ? & ?); [done|].
        split; [|done]. by split.
      + intros ([] & Hf). destruct (proj2 Hb) as (? & ? & ?); [done|].
        split; [by split; [lia|]|]. split; [done|]. split; done || lia.
    - pose proof (check_plain_ok st s) as Hb. split.
      + intros ((? & ? & ?) & Hc & []). destruct (proj1 Hb Hc) as (? & ?).
        split; [by split|]. destruct H2 as [_ Hd]. intros Ha. by rewrite Hd in Ha.
      + intros ([] & Hf). split; [by split; [lia|]|]. destruct so_boost as [Hsp Hd].
        split; [apply Hb; split; [done|lia]|]. split; rewrite ?Hd; done || lia. }
  destruct (gs_boost st) as [c|]; rewrite !Forall_forall; split.
  - intros (H1 & H2 & H3). split; intros s Hs; apply Hone; auto.
  - intros (H1 & H2). assert (H := fun s Hs => proj2 (Hone s) (conj (H1 s Hs) (H2 s Hs))).
    split; [|split]; intros s Hs; apply (H s Hs).
  - intros (H1 & H2 & H3). split; intros s Hs; apply Hone; auto.
  - intros (H1 & H2). assert (H := fun s Hs => proj2 (Hone s) (conj (H1 s Hs) (H2 s Hs))).
    split; [|split]; intros s Hs; apply (H s Hs).
Qed.

Lemma for_each_map {A} (m : gmap Z A) f :
  for_each (map_to_list m) f = Ok tt <->
  forall i x, m !! i = Some x -> f (i, x) = Ok tt.
Proof.
  rewrite for_each_ok, Forall_forall. split.
  - intros H i x Hx. apply H. by apply elem_of_map_to_list.
  - intros H [i x] Hx. apply H. by apply elem_of_map_to_list.
Qed.

Lemma check_death_ok st i c :
  check_death st (i, c) = Ok tt <-> death_in_count (skeleton st) i c.
Proof.
  unfold check_death, death_in_count, has_snake, in_count. rewrite ensure_bind_ok, ensure_ok.
  cbn [fst snd]. rewrite Z.ltb_lt. change (vec_len (gs_snakes st)) with
    (Z.of_nat (sk_count (skeleton st))).
  destruct (attributed_snake c); rewrite ?Z.ltb_lt; naive_solver.
Qed.

Lemma check_kicked_ok st kl :
  Forall (fun u => check_kicked st u = Ok tt) kl <->
  (forall u, u ∈ kl -> is_Some (gs_players st !! u))
  /\ kicked_dead (skeleton st) kl (gs_snakes st).
Proof.
  unfold check_kicked, kicked_dead. rewrite Forall_forall. split.
  - intros H. split.
    + intros u Hu. specialize (H u Hu). apply bind_ok in H as (p & Hp & _).
      apply context_ok in Hp. by eexists.
    + intros u p Hu Hp. specialize (H u Hu). apply bind_ok in H as (p' & Hp' & H).
      apply context_ok in Hp'. cbn in Hp. rewrite Hp in Hp'. injection Hp' as <-.
      apply bind_ok in H as (s & Hs & H). apply context_ok in Hs. apply ensure_ok in H.
      exists s. by rewrite negb_true_iff in H.
  - intros [H1 H2] u Hu. destruct (H1 u Hu) as [p Hp].
    destruct (H2 u p Hu Hp) as (s & Hs & Ha).
    rewrite Hp. cbn. rewrite Hs. cbn. by rewrite Ha.
Qed.

Lemma food_clear st :
  Forall (pad_clear st) (gs_pads st) <->
  (forall p sh, p ∈ gs_food st -> sh ∈ sk_shapes (skeleton st) -> p ∉ shape_cells sh)
  /\ Forall (cooling_after (gs_tick st)) (gs_pads st).
Proof.
  unfold pad_clear. rewrite Forall_and. apply and_iff_compat_r. rewrite Forall_forall.
  setoid_rewrite Forall_forall. split.
  - intros H p sh Hp Hsh Hc. apply list_elem_of_fmap in Hsh as (pad & -> & Hpad).
    rewrite shape_cells_pad in Hc. specialize (H pad Hpad p Hc).
    unfold has_food in H. by apply bool_decide_eq_false in H.
  - intros H pad Hpad p Hc. apply bool_decide_eq_false. intros Hp.
    apply (H p (pad_shape pad) Hp); [|by rewrite shape_cells_pad].
    apply list_elem_of_fmap. by exists pad.
Qed.

(** The clauses that validation adds to [ok] for the boost configuration. *)
Definition boost_part (st : GameState) : Result unit :=
  match gs_boost st with
  | Some config => check_boost_config st (sk_expected (skeleton st)) config
  | None => check_no_boost st (sk_expected (skeleton st))
  end.

Lemma boost_part_ok st :
  boost_part st = Ok tt <->
  match sk_boost (skeleton st) with
  | Some c => static_boost (skeleton st) c
  | None => sk_expected (skeleton st) = None /\ sk_shapes (skeleton st) = []
  end
  /\ Forall (pad_clear st) (gs_pads st)
  /\ match gs_boost st with
     | Some c => Forall (fun s => check_boosted_snake st c s = Ok tt) (gs_snakes st)
     | None => Forall (fun s => check_plain_snake st s = Ok tt) (gs_snakes st)
     end.
Proof.
  unfold boost_part. change (sk_boost (skeleton st)) with (gs_boost st).
  destruct (gs_boost st) as [c|] eqn:Ec; [by apply check_boost_config_ok|].
  unfold check_no_boost. rewrite !ensure_bind_ok, for_each_ok.
  change (sk_shapes (skeleton st)) with (pad_shape <$> gs_pads st).
  destruct (sk_expected (skeleton st)); [naive_solver|].
  destruct (gs_pads st); cbn; naive_solver.
Qed.

Lemma valid_unfold st :
  valid st <->
  ComboConfig_validate (pr_combo (gs_properties st)) = Ok tt
  /\ Forall (fun s => check_combo (pr_combo (gs_properties st)) s = Ok tt) (gs_snakes st)
  /\ (forall i v, gs_food_pickups st !! i = Some v -> in_count (skeleton st) i)
  /\ (forall i c, gs_last_death_causes st !! i = Some c -> death_in_count (skeleton st) i c)
  /\ check_food_target st = Ok tt
  /\ boost_part st = Ok tt
  /\ check_inactivity st = Ok tt.
Proof.
  unfold valid, validate_boost_invariants. rewrite !unit_bind_ok, for_each_ok.
  rewrite !for_each_map. unfold boost_part.
  change (boost_config_for (gs_game_type st) (width (gs_arena st)) (height (gs_arena st)))
    with (sk_expected (skeleton st)).
  setoid_rewrite check_death_ok. setoid_rewrite ensure_ok. setoid_rewrite Z.ltb_lt.
  reflexivity.
Qed.

Lemma check_inactivity_ok st :
  0 <= player_idle_warning_ms (gs_properties st) ->
  check_inactivity st = Ok tt <->
  0 < player_idle_warning_ms (gs_properties st) < player_idle_timeout_ms (gs_properties st)
  /\ kl_ok (skeleton st) (gs_idle_kicked_user_ids st)
  /\ kicked_dead (skeleton st) (gs_idle_kicked_user_ids st) (gs_snakes st)
  /\ (forall u a, gs_player_last_activity_ticks st !! u = Some a ->
      is_Some (gs_players st !! u) /\ a <= gs_tick st)
  /\ (gs_completed_by_inactivity st = true -> is_complete st = true).
Proof.
  intros Hw. unfold check_inactivity. rewrite !ensure_bind_ok, !unit_bind_ok, ensure_ok.
  rewrite for_each_ok, check_kicked_ok, for_each_map.
  setoid_rewrite ensure_ok. setoid_rewrite andb_true_iff.
  setoid_rewrite bool_decide_eq_true. setoid_rewrite Z.leb_le.
  rewrite negb_true_iff, !orb_false_iff, !Z.eqb_neq, Z.leb_gt.
  assert (Hc : negb (gs_completed_by_inactivity st) || is_complete st = true
               <-> (gs_completed_by_inactivity st = true -> is_complete st = true)).
  { destruct (gs_completed_by_inactivity st), (is_complete st); naive_solver. }
  rewrite Hc. split.
  - intros ((? & ?) & ? & (? & ?) & ? & ?). split; [lia|]. by split; [split|].
  - intros (? & [? ?] & ? & ? & ?). split; [lia|]. by split_and!.
Qed.

Lemma valid_inv st :
  wf_state st -> valid st ->
  static_valid (skeleton st) /\ okx (skeleton st) (gs_tick st) (gs_tick st) st.
Proof.
  intros W. rewrite valid_unfold, boost_part_ok, (check_inactivity_ok st (wf_warning st W)).
  intros (Hcombo & Hsc & Hp & Hd & Hft & (Hb & Hpc & Hsb) & Hidle & Hkl & Hkd & Hac & Hcm).
  assert (Hcfg : cfg_ok (gs_boost st)).
  { change (sk_boost (skeleton st)) with (gs_boost st) in Hb.
    destruct (gs_boost st) as [c|] eqn:Ec; [|done]. destruct Hb as (_ & Hv & _).
    destruct (wf_config st W c Ec) as [? ?]. by destruct (boost_validate_cfg c Hv) as [? _]. }
  apply food_clear in Hpc as [Hfood Hcool].
  destruct (proj1 (snakes_valid st Hcfg)) as [Hs Hf].
  { split; [done|]. split; [done|]. apply (wf_snakes st W). }
  split.
  - split; [done|]. split; [|done]. unfold check_food_target in Hft.
    change (sk_type (skeleton st)) with (gs_game_type st).
    destruct (gs_game_type st); try done; by apply ensure_ok, Z.eqb_eq in Hft.
  - exists (gs_idle_kicked_user_ids st). split; [done|]. split; [|done]. by split.
Qed.

Lemma inv_valid st :
  static_valid (skeleton st) -> skel_ok (skeleton st) ->
  okx (skeleton st) (gs_tick st) (gs_tick st) st -> valid st.
Proof.
  intros (Hcombo & Hft & Hb & Hidle) HK (kl & Hkl & H & Hf).
  pose proof (proj2 (snakes_valid st (sk_cfg _ HK))) as (Hsc & Hsb & _).
  { split; [apply (ok_snakes H)|done]. }
  apply valid_unfold. rewrite boost_part_ok, check_inactivity_ok by (cbn in Hidle; lia).
  pose proof (ok_kicked H) as Ek. subst kl.
  assert (Hpc : Forall (pad_clear st) (gs_pads st)).
  { apply food_clear. split; [apply (ok_food H)|apply (ok_pads H)]. }
  split; [done|]. split; [done|]. split; [apply (ok_pickups H)|].
  split; [apply (ok_deaths H)|]. split.
  { unfold check_food_target. change (sk_type (skeleton st)) with (gs_game_type st) in Hft.
    destruct (gs_game_type st); try done; by apply ensure_ok, Z.eqb_eq. }
  split; [done|]. split; [done|]. split; [done|]. split; [apply (ok_dead H)|].
  split; [apply (ok_activity H)|apply (ok_completed H)].
Qed.

Lemma inv_wf t T st :
  static_valid (skeleton st) -> skel_ok (skeleton st) -> okx (skeleton st) t T st ->
  wf_state st.
Proof.
  intros (_ & _ & _ & Hidle) HK (kl & _ & H & Hf).
  destruct (proj2 (snakes_valid st (sk_cfg _ HK))) as (_ & _ & Hty).
  { split; [apply (ok_snakes H)|done]. }
  split.
  - done.
  - apply HK.
  - apply HK.
  - apply (sk_owned _ HK).
  - intros c Hc. split.
    + pose proof (sk_cfg _ HK) as Hcfg. change (sk_boost (skeleton st)) with (gs_boost st) in Hcfg.
      rewrite Hc in Hcfg. destruct Hcfg. lia.
    + pose proof (sk_cooldown _ HK c Hc). unfold sk_quantum in *. lia.
  - apply Forall_forall. intros pad Hpad.
    apply (sk_charges _ HK (pad_id pad) (pad_position pad) _ (pad_size_cells pad)).
    apply list_elem_of_fmap. by exists pad.
  - apply Z.lt_le_incl, (sk_window_pos _ HK).
  - cbn in Hidle. lia.
  - intros _. apply (sk_pace _ HK). by left.
  - apply HK.
Qed.

(** [valid] and [wf_state] together are the invariant. *)
Lemma valid_wf_iff st :
  valid st /\ wf_state st <->
  static_valid (skeleton st) /\ skel_ok (skeleton st)
  /\ okx (skeleton st) (gs_tick st) (gs_tick st) st.
Proof.
  split.
  - intros [Hv W]. destruct (valid_inv st W Hv) as [Hs Ho]. split; [done|].
    split; [by apply wf_skel_ok|done].
  - intros (Hs & HK & Ho). split; [by apply inv_valid|by eapply inv_wf].
Qed.
