(* ===== verification/MatchLife.v ===== *)
(** * The life of a match

    Construction, joining, scheduling, the start and the quanta of a match as
    a step relation; every state of such a run is in the invariant. *)

From Stdlib Require Import ZArith.
From stdpp Require Import prelude strings countable list gmap sorting relations.
From S2P Require Import Prelude RustFloat Util Snake SnakeFacts Arena CommandQueue GameState.
From S2P Require Import GameSetup Events Validate Tick MeterInvariant StateInvariant.
From S2P Require Import TickInvariant OutcomeInvariant Validity.
Open Scope Z_scope.

(** ** Construction *)

(** The dimensions and settings a match is created with: a drawable arena,
    and a custom pace that a [u32] movement credit can hold. *)
Definition creatable (w h : Z) (g : GameType) : Prop :=
  0 < w <= i16_max /\ 0 < h <= i16_max
  /\ match g with
     | Custom settings => 0 <= cg_tick_duration_ms settings <= 4000000
     | _ => True
     end.

Lemma new_valid w h g q seed ms : valid (new_game_state w h g q seed ms).
Proof.
  assert (Hnone : boost_config_for g w h = None -> valid (new_game_state w h g q seed ms)).
  { intros Hn. unfold valid, validate_boost_invariants, new_game_state. rewrite Hn.
    destruct g; cbn -[boost_config_for goal_width_for] in *; rewrite Hn; try done.
    by destruct (per_team =? 2). }
  destruct g as [|k|n|settings].
  - vm_compute. reflexivity.
  - destruct (boost_config_for (TeamMatch k) w h) eqn:E; [|by apply Hnone]. clear Hnone.
    cbn in E. destruct (_ && _) eqn:Eb; [|done].
    apply andb_true_iff in Eb as [Eb Eh]. apply andb_true_iff in Eb as [Ek Ew].
    apply Z.eqb_eq in Eh, Ew. subst w h. apply orb_true_iff in Ek.
    destruct Ek as [Ek|Ek]; apply Z.eqb_eq in Ek as ->; destruct q; vm_compute; reflexivity.
  - destruct (boost_config_for (FreeForAll n) w h) eqn:E; [|by apply Hnone]. clear Hnone.
    cbn in E. destruct (_ && _) eqn:Eb; [|done]. apply andb_true_iff in Eb as [Ew Eh].
    apply Z.eqb_eq in Ew, Eh. subst w h. vm_compute. reflexivity.
  - by apply Hnone.
Qed.

Lemma layout_charges a c :
  0 <= bc_capacity_ms c -> 0 <= bc_packet_charge_ms c ->
  Forall (fun pad => 0 <= pad_charge_ms pad) (boost_pad_layout a c).
Proof.
  intros Hc Hp. unfold boost_pad_layout. destruct (bc_unlimited c); [constructor|].
  destruct (boost_field_bounds a _) as [[l r]|]; [|constructor].
  cbn. repeat constructor; done.
Qed.

Lemma boost_config_for_typed g w h c :
  boost_config_for g w h = Some c ->
  0 <= bc_capacity_ms c /\ 0 <= bc_pad_respawn_ms c /\ 0 <= bc_packet_charge_ms c.
Proof. destruct g; cbn; repeat case_match; intros [= <-]; done. Qed.

Lemma new_fields w h g q seed ms :
  let st := new_game_state w h g q seed ms in
  gs_snakes st = [] /\ width (gs_arena st) = w /\ height (gs_arena st) = h
  /\ gs_boost st = boost_config_for g w h /\ gs_players st = ∅ /\ gs_game_type st = g
  /\ (forall c, gs_boost st = Some c ->
      exists a, gs_pads st = boost_pad_layout a c)
  /\ (gs_boost st = None -> gs_pads st = []).
Proof.
  unfold new_game_state, gs_boost, gs_pads, gs_snakes. cbv zeta.
  destruct (boost_config_for g w h) as [c|]; destruct g; cbn;
    split_and!; try done; intros ? [= <-]; by eexists.
Qed.

Lemma new_wf w h g q seed ms :
  creatable w h g -> wf_state (new_game_state w h g q seed ms).
Proof.
  intros (Hw & Hh & Hg). unfold i16_max in *.
  destruct (new_fields w h g q seed ms) as (Es & Ew & Eh & Eb & Ep & Eg & Epad & Epad0).
  split; rewrite ?Es, ?Ew, ?Eh, ?Ep.
  - constructor.
  - rewrite wrap_i16_id; unfold is_i16, i16_min, i16_max; lia.
  - rewrite wrap_i16_id; unfold is_i16, i16_min, i16_max; lia.
  - by intros u p Hp.
  - intros c. rewrite Eb. intros Hc. by apply boost_config_for_typed in Hc as (? & ? & ?).
  - destruct (gs_boost _) as [c|] eqn:Ec; [|by rewrite Epad0].
    destruct (Epad c eq_refl) as [a ->]. symmetry in Eb.
    apply boost_config_for_typed in Eb as (? & ? & ?). by apply layout_charges.
  - by destruct g.
  - by destruct g.
  - intros Hn. rewrite Eb in Hn. unfold new_game_state. rewrite Hn.
    unfold movement_threshold, quantum_ms, gs_tick_duration_ms, normal_movement_interval_ms.
    destruct g; cbn; unfold NORMAL_SNAKE_SPEED_MILLI; lia || done.
  - unfold movement_threshold, NORMAL_SNAKE_SPEED_MILLI, normal_movement_interval_ms.
    rewrite Eg. destruct g; unfold u32_max, DEFAULT_TICK_INTERVAL_MS in *; lia.
Qed.

(** ** Joining *)

Lemma starting_positions_alive st n :
  is_alive <$> gs_snakes (apply_starting_positions st n) = is_alive <$> gs_snakes st.
Proof.
  unfold apply_starting_positions. cbn. apply list_eq. intros i.
  rewrite !list_lookup_fmap. unfold iter_snakes, enumerate. rewrite enumerate_from_lookup.
  destruct (gs_snakes st !! i) as [s|]; [|done]. cbn. by destruct (vec_get _ _) as [[? ?]|].
Qed.

Lemma ok_starting_positions K t T kl st n :
  skel_ok K -> ok K t T kl st -> ok K t T kl (apply_starting_positions st n).
Proof.
  intros HK H. apply ok_relive; [done| |apply starting_positions_alive].
  apply Forall_enumerate. intros i s Hs _. cbn. pose proof (ok_snake_at _ _ _ H Hs) as Hok.
  destruct (vec_get (starting_positions st n) i) as [[h d]|]; [|done].
  apply sok_direction; eauto with snaketron. by apply (sok_transfer _ _ _ (sk_cfg K HK) s).
Qed.

Lemma sok_fresh K st team :
  skel_ok K -> gs_boost st = sk_boost K -> sk_snake_ok K (fresh_snake st team).
Proof.
  intros HK Eb. pose proof (sk_window_pos K HK) as Hw. pose proof (@sk_threshold_pos K) as Ht.
  pose proof (sk_cfg K HK) as Hcfg. unfold fresh_snake, unlimited_boost_capacity_ms.
  rewrite Eb. split; cbn; try done; try lia.
  unfold boost_clause. destruct (sk_boost K) as [c|]; [|done]. destruct Hcfg.
  destruct (bc_unlimited c); cbn; (split; [split|]); cbn; try done; lia || apply Z.divide_0_r.
Qed.

(** The skeleton after one more player. *)
Definition joined (K : Skeleton) (u : Z) : Skeleton :=
  {| K with sk_players := <[u := mkPlayer u (Z.of_nat (sk_count K))]> (sk_players K);
            sk_count := S (sk_count K) |}.

Lemma joined_ok K u : skel_ok K -> skel_ok (joined K u).
Proof.
  intros [? ? ? ? ? ? ? Ho ?]. split; try done. cbn. intros v p.
  destruct (decide (v = u)) as [->|Hne].
  - rewrite lookup_insert_eq. intros [= <-]. cbn. lia.
  - rewrite lookup_insert_ne by done. intros Hp. apply Ho in Hp. lia.
Qed.

Lemma ok_names K t T kl st m : ok K t T kl st -> ok K t T kl (with_usernames m st).
Proof. intros H. ok_frame H. Qed.

(** [st] with a fresh snake of team [tm] for the user [u]. *)
Definition seated (K : Skeleton) (st : GameState) (u : Z) (tm : option TeamId) : GameState :=
  let st := with_arena (set_snakes (snakes (gs_arena st) ++ [fresh_snake st tm]) (gs_arena st)) st in
  let st := with_players (<[u := mkPlayer u (Z.of_nat (sk_count K))]> (gs_players st)) st in
  with_player_last_activity_ticks
    (<[u := gs_tick st]> (gs_player_last_activity_ticks st)) st.

Lemma ok_seated K t T kl st u tm :
  skel_ok K -> ok K t T kl st -> (forall v, v ∈ kl -> is_Some (sk_players K !! v)) ->
  sk_players K !! u = None -> gs_tick st = t -> ok (joined K u) t T kl (seated K st u tm).
Proof.
  intros HK H Hpl Hnone Ht. destruct (ok_reads st H) as (_ & _ & _ & Eb & _).
  destruct H as [Hk ? ? Hs Hd Hp Hde Hfo Hpa Hac ?]. split; try done.
  - subst K. unfold skeleton, joined, seated, gs_snakes, gs_pads, empty_arena. cbn.
    rewrite length_app. cbn. by rewrite Nat.add_1_r.
  - unfold seated, gs_snakes. cbn. apply Forall_app. split; [done|]. constructor; [|done].
    by apply (sok_fresh K).
  - intros v q Hv Hq. cbn in Hq. destruct (decide (v = u)) as [->|Hne].
    { destruct (Hpl u Hv) as [? E]. congruence. }
    rewrite lookup_insert_ne in Hq by done.
    destruct (Hd v q Hv Hq) as (s & Hs' & Ha). exists s. split; [|done].
    unfold vec_get, seated, gs_snakes in *. cbn. by apply lookup_app_l_Some.
  - intros i v Hv. apply Hp in Hv. unfold in_count in *. cbn. lia.
  - intros i c Hc. apply Hde in Hc. unfold death_in_count, in_count in *. cbn.
    split; [lia|]. intros a Ha. apply Hc in Ha. lia.
  - intros v a. cbn. destruct (decide (v = u)) as [->|Hne].
    + rewrite !lookup_insert_eq. intros [= <-]. split; [by eexists|]. lia.
    + rewrite !lookup_insert_ne by done. apply Hac.
Qed.

Lemma okx_join K t T st u name team p st' :
  skel_ok K -> okx K t T st -> gs_tick st = t ->
  add_player_with_team st u name team = (Ok p, st') -> okx (joined K u) t T st'.
Proof.
  intros HK (kl & [Hsort Hpl] & H & Hf) Ht. unfold add_player_with_team.
  case_bool_decide as Hu; [done|]. case_match; [done|].
  match goal with |- context [match name with Some _ => _ | None => ?s end] =>
    set (st1 := match name with
                | Some n => with_usernames (<[u := n]> (gs_usernames st)) s
                | None => s end) end.
  assert (H1 : ok K t T kl st1) by (destruct name; [by apply ok_names|done]).
  assert (Hf1 : gs_snakes st1 = gs_snakes st) by (by destruct name).
  assert (Hp1 : gs_players st1 = sk_players K) by (by rewrite <- (ok_skel H1)).
  assert (Hnone : sk_players K !! u = None).
  { rewrite <- Hp1. destruct name; by apply eq_None_not_Some. }
  generalize (if is_team_match (gs_game_type st1) then
                match team with Some team => Some team
                | None => Some (Z.of_nat (size (gs_players st1)) mod 2) end else None).
  intros tm. unfold add_snake. destruct (u32_max <=? _); [done|]. cbv zeta.
  intros [= <- <-].
  destruct (ok_reads st1 H1) as (_ & _ & _ & Eb & _ & _ & _ & _ & El & _).
  change (vec_len (snakes (gs_arena st1))) with (vec_len (gs_snakes st1)). rewrite El.
  exists kl. split; [split; [done|]|].
  { intros v Hv. cbn. rewrite lookup_insert_is_Some'. auto. }
  change (with_player_last_activity_ticks _ _) with (seated K st1 u tm).
  assert (H2 : ok (joined K u) t T kl (seated K st1 u tm))
    by (apply ok_seated; try done; by destruct name).
  split; [by apply ok_starting_positions; [apply joined_ok|]|].
  assert (Hfs : Forall funded (gs_snakes (seated K st1 u tm))).
  { unfold seated, gs_snakes. cbn. apply Forall_app. split; [by rewrite <- Hf1 in Hf|].
    constructor; [by unfold funded|done]. }
  apply Forall_enumerate. intros i s Hs _. cbn.
  assert (funded s) as Hfd by (eapply Forall_lookup_1; [exact Hfs|exact Hs]).
  match goal with |- context [vec_get ?l i] => by destruct (vec_get l i) as [[? ?]|] end.
Qed.

(** ** The other operations *)

Section Operations.
  Context `{F32Libm} (K : Skeleton) (HK : skel_ok K) (t T : Z).

Lemma okx_frame (f : GameState -> GameState) st :
  okx K t T st -> gs_snakes (f st) = gs_snakes st ->
  (forall kl, ok K t T kl st -> ok K t T kl (f st)) -> okx K t T (f st).
Proof.
  intros (kl & Hkl & Ho & Hf) Hs Hok. exists kl. split; [done|]. split; [auto|by rewrite Hs].
Qed.

Lemma okx_spectator st u name : okx K t T st -> okx K t T (add_spectator st u name).
Proof.
  intros Ho. apply (okx_frame (fun st => add_spectator st u name)); [done|by destruct name|].
  intros kl Hk. unfold add_spectator. destruct name; ok_frame Hk.
Qed.

Lemma okx_arm st d : okx K t T st -> okx K t T (arm_readiness_gate st d).
Proof.
  intros Ho. apply (okx_frame (fun st => arm_readiness_gate st d)); [done|done|].
  intros kl Hk. ok_frame Hk.
Qed.

Lemma okx_ready st u : okx K t T st -> okx K t T (apply_event (Ev_PlayerReady u) st).
Proof.
  intros Ho. apply (okx_frame (apply_event (Ev_PlayerReady u))); [done| |]; cbn.
  - by destruct (gs_readiness st).
  - intros kl Hk. destruct (gs_readiness st); [ok_frame Hk|done].
Qed.

Lemma okx_epoch st e : okx K t T st -> okx K t T (apply_event (Ev_MatchStartScheduled e) st).
Proof.
  intros Ho. apply (okx_frame (apply_event (Ev_MatchStartScheduled e))); [done| |]; cbn.
  - by destruct (gs_readiness st).
  - intros kl Hk. destruct (gs_readiness st); [ok_frame Hk|done].
Qed.

Lemma okx_started st sid :
  okx K t T st -> is_complete st = false ->
  okx K t T (apply_event (Ev_StatusUpdated (Started sid)) st).
Proof.
  intros Ho Hc. apply (okx_frame (apply_event (Ev_StatusUpdated (Started sid)))); [done|done|].
  intros kl Hk. apply ok_status; [done|]. by rewrite Hc.
Qed.

Lemma okx_schedule st m : okx K t T st -> gs_tick st = t -> okx K t T (schedule_command st m).
Proof.
  intros Ho Ht. apply (okx_frame (fun st => schedule_command st m)); [done| |].
  - unfold schedule_command, record_player_activity_for_command.
    repeat (case_match; try done).
  - intros kl Hk. unfold schedule_command. case_match; [done|]. apply ok_queue.
    unfold record_player_activity_for_command. repeat (case_match; try done).
    destruct (ok_reads st Hk) as (_ & _ & Ep & _).
    destruct Hk as [? ? ? ? ? ? ? ? ? Hac ?]. split; try done. cbn. intros v a.
    destruct (decide (v = msg_user m)) as [->|Hne].
    + rewrite lookup_insert_eq. intros [= <-]. rewrite <- Ep. split; [by eexists|lia].
    + rewrite lookup_insert_ne by done. apply Hac.
Qed.

Lemma ok_initial_food_loop n kl st :
  ok K t T kl st -> ok K t T kl (spawn_initial_food_loop n st)
  /\ gs_snakes (spawn_initial_food_loop n st) = gs_snakes st.
Proof.
  revert st. induction n as [|n IH]; intros st Hk; [done|]. cbn [spawn_initial_food_loop].
  case_match; [|done]. destruct (gs_rng st) as [rng|]; [|by apply IH].
  destruct (sample_food_position rng _ _) as [p rng'].
  assert (H1 : ok K t T kl (with_rng (Some rng') st)) by ok_frame Hk.
  case_match; [|by apply (IH (with_rng (Some rng') st))].
  apply (IH (with_food _ (with_rng (Some rng') st))). apply ok_with_food; [done|].
  intros q sh Hq Hsh. apply elem_of_app in Hq as [Hq|Hq].
  - by eapply (ok_food Hk).
  - apply list_elem_of_singleton in Hq as ->. by eapply (food_free_shapes _ _ H1).
Qed.

Lemma okx_initial_food st : okx K t T st -> okx K t T (spawn_initial_food st).
Proof.
  intros Ho. apply (okx_frame spawn_initial_food); [done| |].
  - destruct Ho as (kl & _ & Hk & _). unfold spawn_initial_food. case_match; [|done].
    by apply (ok_initial_food_loop 1000 kl).
  - intros kl Hk. unfold spawn_initial_food. case_match; [|done].
    by apply ok_initial_food_loop.
Qed.

End Operations.

(** ** Runs *)

(** The operations a server performs on a match, from its creation on. The choice of
    skins, bases and the inactivity policy when a match is prepared are no steps:
    they touch nothing that the invariants read. *)
Inductive match_step `{F32Libm} : GameState -> GameState -> Prop :=
| step_join st u name team p st' :
    add_player_with_team st u name team = (Ok p, st') -> match_step st st'
| step_spectate st u name : match_step st (add_spectator st u name)
| step_initial_food st : match_step st (spawn_initial_food st)
| step_arm st deadline : match_step st (arm_readiness_gate st deadline)
| step_ready st u : match_step st (apply_event (Ev_PlayerReady u) st)
| step_epoch st e : match_step st (apply_event (Ev_MatchStartScheduled e) st)
| step_start st sid : is_complete st = false ->
    match_step st (apply_event (Ev_StatusUpdated (Started sid)) st)
| step_schedule st m : match_step st (schedule_command st m)
| step_tick st movement_only r st' obs : is_complete st = false ->
    0 <= gs_tick st -> gs_tick st + 1 < u32_max ->
    tick_forward movement_only st = (r, st', obs) -> match_step st st'.

(** The invariant along a run; [T] lags behind the tick only in a match that
    inactivity ended. *)
Definition life_ok (st : GameState) : Prop :=
  static_valid (skeleton st) /\ skel_ok (skeleton st)
  /\ exists T, okx (skeleton st) (gs_tick st) T st
     /\ (T = gs_tick st
         \/ (T = gs_tick st - 1 /\ gs_completed_by_inactivity st = true)).

Lemma life_intro K t T st :
  static_valid K -> skel_ok K -> okx K t T st ->
  T = t \/ (T = t - 1 /\ gs_completed_by_inactivity st = true) -> life_ok st.
Proof.
  intros Hs HK Ho HT. pose proof Ho as (kl & _ & Hk & _).
  pose proof (ok_skel Hk) as Ek. pose proof (ok_tick Hk) as Et. subst K t.
  split; [done|]. split; [done|]. eauto.
Qed.

(** Every step but a quantum leaves the completion marker alone. *)
Lemma join_marker st u name team p st' :
  add_player_with_team st u name team = (Ok p, st') ->
  gs_completed_by_inactivity st' = gs_completed_by_inactivity st.
Proof.
  unfold add_player_with_team, add_snake. case_bool_decide; [done|].
  destruct (negb _); [done|]. destruct (u32_max <=? _); [done|]. intros [= _ <-].
  by destruct name.
Qed.

Lemma food_marker `{F32Libm} st :
  gs_completed_by_inactivity (spawn_initial_food st) = gs_completed_by_inactivity st.
Proof.
  unfold spawn_initial_food. destruct (gs_rng st); [|done].
  generalize 1000%nat. intros n. revert st.
  induction n as [|n IH]; intros st; [done|]. cbn [spawn_initial_food_loop].
  case_match; [|done]. destruct (gs_rng st) as [rng|]; [|apply IH].
  destruct (sample_food_position rng _ _) as [q rng']. rewrite IH. by case_match.
Qed.

Lemma schedule_marker st m :
  gs_completed_by_inactivity (schedule_command st m) = gs_completed_by_inactivity st.
Proof.
  unfold schedule_command, record_player_activity_for_command.
  repeat (case_match; try done).
Qed.

Lemma life_step `{F32Libm} st st' : match_step st st' -> life_ok st -> life_ok st'.
Proof.
  intros Hstep (Hs & HK & T & Ho & HT).
  assert (Hkeep : forall st', okx (skeleton st) (gs_tick st) T st' ->
            gs_completed_by_inactivity st' = gs_completed_by_inactivity st -> life_ok st').
  { intros s Hos Hm. eapply life_intro; [exact Hs|exact HK|exact Hos|]. by rewrite Hm. }
  destruct Hstep as [st u name team p st' Hj|st u name|st|st d|st u|st e|st sid Hc|st m
                    |st mo r st' obs Hc H0 H1 Ht].
  - eapply (life_intro (joined (skeleton st) u)); [exact Hs|by apply joined_ok| |].
    + by eapply okx_join.
    + by rewrite (join_marker _ _ _ _ _ _ Hj).
  - apply Hkeep; [by apply okx_spectator|by destruct name].
  - apply Hkeep; [by apply okx_initial_food|apply food_marker].
  - apply Hkeep; [by apply okx_arm|done].
  - apply Hkeep; [by apply okx_ready|]. cbn. by destruct (gs_readiness st).
  - apply Hkeep; [by apply okx_epoch|]. cbn. by destruct (gs_readiness st).
  - apply Hkeep; [by apply okx_started|done].
  - apply Hkeep; [by apply okx_schedule|apply schedule_marker].
  - assert (T = gs_tick st) as ->.
    { destruct HT as [?|[_ Hm]]; [done|]. destruct Ho as (kl & _ & Hk & _).
      apply (ok_completed Hk) in Hm. congruence. }
    destruct (tick_forward_ok (skeleton st) HK mo (gs_tick st) st Ho Hc H0 H1)
      as (out & st2 & obs2 & E & _ & Hend). rewrite Ht in E. simplify_eq.
    destruct Hend as [Hend|(Hend & Hm & _)].
    + by eapply life_intro; [exact Hs|exact HK|exact Hend|left].
    + eapply life_intro; [exact Hs|exact HK|exact Hend|]. right. split; [lia|done].
Qed.

Lemma life_new w h g q seed ms :
  creatable w h g -> life_ok (new_game_state w h g q seed ms).
Proof.
  intros Hc. destruct (proj1 (valid_wf_iff (new_game_state w h g q seed ms))) as (? & ? & ?).
  { split; [apply new_valid|by apply new_wf]. }
  split; [done|]. split; [done|]. eauto.
Qed.

Lemma life_wf st : life_ok st -> wf_state st.
Proof. intros (Hs & HK & T & Ho & _). by eapply inv_wf. Qed.

(** In a match that inactivity did not end, the invariant is validity. *)
Lemma life_valid st :
  life_ok st -> gs_completed_by_inactivity st = false -> valid st.
Proof.
  intros (Hs & HK & T & Ho & [->|[_ Hm]]) Hc; [by apply inv_valid|congruence].
Qed.

(** Otherwise the only clause that may fail is the cooldown of a pad due at
    exactly the terminal tick. *)
Lemma life_valid_or_due st :
  life_ok st ->
  valid st \/ gs_completed_by_inactivity st = true
              /\ exists pad, pad ∈ gs_pads st /\ pad_respawn_at_tick pad = Some (gs_tick st).
Proof.
  intros (Hs & HK & T & Ho & HT).
  destruct HT as [->|[-> Hm]]; [left; by apply inv_valid|].
  destruct (decide (Exists (fun pad => pad_respawn_at_tick pad = Some (gs_tick st))
                      (gs_pads st))) as [Hx|Hx].
  { right. split; [done|]. apply Exists_exists in Hx as (pad & ? & ?). eauto. }
  left. apply inv_valid; [done|done|]. destruct Ho as (kl & Hkl & Hk & Hf).
  exists kl. split; [done|]. split; [|done].
  apply not_Exists_Forall in Hx; [|apply _].
  destruct Hk as [? ? ? ? ? ? ? ? Hp ? ?]. split; try done.
  apply Forall_lookup. intros n pad Hn r Hr.
  pose proof (Forall_lookup_1 _ _ _ _ Hp Hn r Hr).
  pose proof (Forall_lookup_1 _ _ _ _ Hx Hn). cbn in *.
  assert (r <> gs_tick st) by congruence. lia.
Qed.
