(* ===== verification/EventOrder.v ===== *)
(** * The numbering of a quantum's events and the clock

    Replicas detect loss and reordering by the event sequence. A quantum
    numbers its events consecutively from the state's counter, leaves the
    counter at the last number it used and advances the tick by one. Both
    facts are instances of one walk through the phases: [Clocked] is any
    predicate that survives updates away from the clock and the emission of
    one more event under the next number. *)

From Stdlib Require Import ZArith.
From stdpp Require Import prelude strings countable list gmap sorting.
From S2P Require Import Prelude RustFloat Util Snake Arena CommandQueue GameState GameSetup.
From S2P Require Import Events Validate Tick.
Open Scope Z_scope.

(** What determines when the simulation starts. *)
Definition epoch_fields (st : GameState) : option MatchReadiness * option Z * Z :=
  (gs_readiness st, gs_simulation_epoch_ms st, gs_start_ms st).

(** The tick, the event counter and the start of the simulation are untouched. *)
Definition same_clock (st st' : GameState) : Prop :=
  gs_tick st' = gs_tick st /\ gs_event_sequence st' = gs_event_sequence st
  /\ epoch_fields st' = epoch_fields st.

Class Clocked (Q : GameState * Events -> Prop) : Prop := {
  clocked_state : forall st st' out, same_clock st st' -> Q (st, out) -> Q (st', out);
  clocked_snoc : forall st out e st',
    gs_tick st' = gs_tick st ->
    gs_event_sequence st' = wrap_u64 (gs_event_sequence st + 1) ->
    epoch_fields st' = epoch_fields st ->
    Q (st, out) -> Q (st', out ++ [(wrap_u64 (gs_event_sequence st + 1), e)])
}.

(** The events a quantum emits through [apply_event]. *)
Definition tick_event (e : GameEvent) : Prop :=
  match e with
  | Ev_Snapshot _ | Ev_PlayerReady _ | Ev_MatchStartScheduled _ => False
  | _ => True
  end.

Lemma activity_clock st m t :
  same_clock st (record_player_activity_for_command st m t).
Proof. unfold record_player_activity_for_command. repeat (case_match; try done). Qed.

Lemma apply_event_clock e st : tick_event e -> same_clock st (apply_event e st).
Proof.
  intros Hn. destruct e; cbn; try done; try (repeat (case_match; try done); fail).
  - apply activity_clock.
  - case_match; [done|]. apply activity_clock.
Qed.

Section Walk.
  Context (Q : GameState * Events -> Prop) `{HQ : !Clocked Q}.

#[local] Abbreviation num := Q.

Lemma num_state st st' out : same_clock st st' -> num (st, out) -> num (st', out).
Proof. apply clocked_state. Qed.

Lemma num_emit e so : tick_event e -> num so -> num (emit e so).
Proof.
  destruct so as [st out]. intros Hn H. cbn.
  destruct (apply_event_clock e (with_event_sequence (wrap_u64 (gs_event_sequence st + 1)) st))
    as (Et & Es & Ee); [done|]. by apply clocked_snoc.
Qed.

Lemma num_fold {A} (f : GameState * Events -> A -> GameState * Events) so l :
  (forall so x, num so -> num (f so x)) -> num so -> num (foldl f so l).
Proof. intros Hf. revert so. induction l; intros so H; [done|]. cbn. auto. Qed.

Lemma action_clock st id : same_clock st (record_player_action_for_snake st id).
Proof. unfold record_player_action_for_snake. by case_match. Qed.

Lemma intent_clock st id w : same_clock st (gs_set_boost_intent st id w).
Proof.
  unfold gs_set_boost_intent. repeat (case_match; try done).
  apply (action_clock (with_snakes (vec_set (gs_snakes st) id s0) st) id).
Qed.

Lemma num_exec cmd st out r st' :
  num (st, out) -> exec_command cmd st = (r, st') ->
  num (st', out ++ match r with Ok events => events | _ => [] end).
Proof.
  intros H. destruct cmd; cbn.
  2-5: intros [= <- <-]; rewrite app_nil_r; apply (num_state st); try apply intent_clock; done.
  repeat case_match; intros [= <- <-]; rewrite ?app_nil_r; try done.
  match goal with |- num (record_player_action_for_snake ?s ?i, _) =>
    destruct (action_clock s i) as (? & ? & ?) end.
  by apply clocked_snoc.
Qed.

Lemma num_due fuel so turns so' turns' :
  num so -> due_commands_loop fuel so turns = (so', turns') -> num so'.
Proof.
  revert so turns. induction fuel as [|fuel IH]; intros [st out] turns H;
    cbn [due_commands_loop].
  { by intros [= <- _]. }
  destruct (pop (gs_command_queue st) (gs_tick st)) as [[m|] q].
  - assert (H1 : num (with_command_queue q st, out)) by by apply (num_state st).
    destruct (command m) eqn:Ec; try by apply IH.
    all: match goal with |- context [exec_command ?c ?s] =>
           destruct (exec_command c s) as [r st1] eqn:Ee end.
    all: pose proof (num_exec _ _ _ _ _ H1 Ee) as H2; destruct r;
      rewrite ?app_nil_r in H2; by apply IH.
  - intros [= <- _]. by apply (num_state st).
Qed.

Lemma num_turns movers msgs so turned deferred so' d' :
  num so -> turns_loop movers msgs so turned deferred = (so', d') -> num so'.
Proof.
  revert so turned deferred.
  induction msgs as [|m msgs IH]; intros [st out] turned deferred H; cbn [turns_loop].
  { by intros [= <- _]. }
  destruct (command m) eqn:Ec; try by apply IH.
  case_match; [by apply IH|].
  destruct (exec_command (Cmd_Turn snake_id d) st) as [r st1] eqn:Ee.
  pose proof (num_exec _ _ _ _ _ H Ee) as H2.
  destruct r; rewrite ?app_nil_r in H2; by apply IH.
Qed.

Lemma respawn_tick_event st id e : respawn_event_for_snake st id = Some e -> tick_event e.
Proof. unfold respawn_event_for_snake. repeat case_match; try done. by intros [= <-]. Qed.

Lemma num_kill old so cs so' : num so -> kill_all old so cs = Ok so' -> num so'.
Proof.
  revert so. induction cs as [|[id [h cause]] cs IH]; intros [st out] H; cbn [kill_all].
  { by intros [= <-]. }
  destruct (kill_crashed old (st, out) (id, (h, cause))) as [so1| |] eqn:E; try done.
  apply IH. unfold kill_crashed in E. apply bind_ok in E as (o & _ & E).
  apply bind_ok in E as (x & _ & E). apply bind_ok in E as (y & _ & E).
  match type of E with context [emit ?e ?s] =>
    assert (H1 : num (emit e s)) by (apply num_emit; [done|by apply (num_state st)]);
    destruct (emit e s) as [st1 out1] end.
  repeat case_match; simplify_eq; try done.
  match goal with H : respawn_event_for_snake st1 id = Some ?e |- _ =>
    apply (num_emit e (st1, out1)); [by eapply respawn_tick_event|done] end.
Qed.

Lemma num_eat so e : num so -> num (eat_one so e).
Proof.
  intros H. unfold eat_one. destruct e; try done.
  case_match; repeat apply num_emit; done.
Qed.

Lemma num_collect post config so pad : num so -> num (collect_pad post config so pad).
Proof.
  destruct so as [st out]. intros H. unfold collect_pad. repeat (case_match; try done).
  - apply num_emit; [done|by apply (num_state st)].
  - by apply (num_state st).
Qed.

Lemma num_score so : num so -> num (score_goals so).
Proof.
  intros H. unfold score_goals. destruct (gs_team_scores so.1); [|done].
  destruct (is_team_match _); [|done]. cbv zeta.
  apply num_fold; [|apply num_fold; [|done]].
  - intros so1 id H1. unfold bank_and_respawn.
    assert (H2 : num (emit (Ev_SnakeDied id DC_Banked) so1)) by by apply num_emit.
    destruct (respawn_event_for_snake _ id) eqn:E; [|done].
    apply num_emit; [by eapply respawn_tick_event|done].
  - intros so1 [team delta] H1. by apply num_emit.
Qed.

Lemma num_completion so so' : num so -> check_completion so = Ok so' -> num so'.
Proof.
  intros H. unfold check_completion.
  assert (Hf : forall xp w, num (finish xp w so)).
  { intros xp w. unfold finish. by repeat apply num_emit. }
  destruct (negb _); [by intros [= <-]|]. destruct (is_team_match _).
  - destruct (score_limit _); [|by intros [= <-]].
    destruct (score_reached _ _); [|by intros [= <-]].
    rewrite bind_ok. by intros (xp & _ & [= <-]).
  - destruct (existsb _ _); by intros [= <-].
Qed.

Lemma num_inactivity post so over so' :
  num so -> resolve_player_inactivity post so = (over, so') -> num so'.
Proof.
  destruct so as [st out]. intros H. unfold resolve_player_inactivity.
  destruct (_ || _); [by intros [= _ <-]|].
  assert (H1 : num (ensure_player_idle_tracking st, out)) by by apply (num_state st).
  destruct (expired_players _ post) as [|e es]; [by intros [= _ <-]|].
  match goal with |- context [foldl ?f ?s ?l] =>
    assert (H2 : num (foldl f s l)) by (apply num_fold;
      [intros so1 [u id] Hso; by apply num_emit|done]);
    destruct (foldl f s l) as [st2 out2] end.
  destruct (inactivity_winning_snake_id st2) as [w|]; intros E; [|by injection E as _ <-].
  apply (f_equal snd) in E. cbn [snd] in E. rewrite <- E.
  apply num_emit; [done|]. apply num_emit; [done|]. by apply (num_state st2).
Qed.

Lemma num_first so : num so -> num (first_tick_snapshot so).
Proof.
  destruct so as [st out]. intros H. unfold first_tick_snapshot. case_match; [|done].
  by apply clocked_snoc.
Qed.

Lemma num_spawn `{F32Libm} mo so : num so -> num (spawn_food mo so).
Proof.
  destruct so as [st out]. intros H1. unfold spawn_food. repeat (case_match; try done).
  - apply num_emit; [done|by apply (num_state st)].
  - by apply (num_state st).
Qed.

Lemma num_move st out movers so st' obs :
  num (st, out) -> tick_move st out = (Ok (movers, so), st', obs) -> num so.
Proof.
  intros H. unfold tick_move.
  destruct (run_due_commands (st, out)) as [[st1 out1] turns] eqn:E1.
  apply num_due in E1; [|done].
  destruct (resolve_boosts st1) as [st2 obs2] eqn:E2.
  assert (Hs2 : same_clock st1 st2).
  { unfold resolve_boosts in E2. case_match; by injection E2 as <- _. }
  destruct (accrue_all _ _ _ _) as [[mv l]| |]; try done.
  destruct (turns_loop mv turns (with_snakes l (reserve_boosts st2), out1) ∅ [])
    as [[st3 out3] d] eqn:E3.
  intros [= <- <- _ _]. apply num_turns in E3; [by apply (num_state st3)|].
  by apply (num_state st1).
Qed.

Lemma num_resolve `{F32Libm} mo post old movers so obs out st' obs' :
  num so -> tick_resolve mo post old movers so obs = (Ok out, st', obs') ->
  exists st0, num (st0, out) /\ st' = with_tick (wrap_u32 (gs_tick st0 + 1)) st0.
Proof.
  destruct so as [st out0]. intros H1. unfold tick_resolve.
  destruct (food_events st _ ∅) as [es| |]; try done. cbn [tick_try].
  assert (H2 : num (foldl eat_one (st, out0) es)) by (apply num_fold; [apply num_eat|done]).
  destruct (foldl eat_one (st, out0) es) as [st1 out1].
  assert (H3 : num (collect_pads post (st1, out1))).
  { unfold collect_pads. case_match; [|done]. apply num_fold; [|done].
    intros. by apply num_collect. }
  destruct (collect_pads post (st1, out1)) as [st2 out2].
  destruct (finalize_boosts st2) as [st3 dep] eqn:Ef.
  assert (H4 : num (st3, out2)).
  { apply (num_state st2); [|done]. by injection Ef as <- _. }
  pose proof (num_spawn mo _ H4) as H5.
  destruct (spawn_food mo (st3, out2)) as [st4 out4].
  assert (H6 : num (record_goal_cues old movers st4, out4)).
  { apply (num_state st4); [|done]. unfold record_goal_cues. by repeat case_match. }
  destruct mo; cbn [tick_try].
  { intros [= <- <- _]. by eexists. }
  apply num_score in H6.
  destruct (check_completion _) as [[st7 out7]| |] eqn:Ec; try done.
  apply num_completion in Ec; [|done]. cbn [tick_try]. intros [= <- <- _]. by eexists.
Qed.

(** What a quantum of a running match leaves behind: a state in [Q] with the
    tick advanced. *)
Lemma num_tick `{F32Libm} mo st out st' obs :
  is_complete st = false -> num (st, []) -> tick_forward mo st = (Ok out, st', obs) ->
  exists st0, num (st0, out)
    /\ (st' = with_tick (sat_add_u32 (gs_tick st) 1) st0
        \/ st' = with_tick (wrap_u32 (gs_tick st0 + 1)) st0).
Proof.
  intros Hc H0. unfold tick_forward. rewrite Hc.
  assert (H1 : num (prune_cues st, [])) by by apply (num_state st).
  apply num_first in H1.
  assert (Et : gs_tick (first_tick_snapshot (prune_cues st, [])).1 = gs_tick st).
  { unfold first_tick_snapshot. by case_match. }
  destruct (first_tick_snapshot _) as [st1 out1]. cbn [fst] in Et. rewrite Et.
  destruct (resolve_player_inactivity _ (st1, out1)) as [over [st2 out2]] eqn:E2.
  apply num_inactivity in E2; [|done]. destruct over.
  { intros [= <- <- _]. eauto. }
  destruct (tick_move _ out2) as [[[[mv [st4 out4]]| |] stx] obs4] eqn:E4; try done.
  apply num_move in E4; [|by apply (num_state st2)]. cbn [tick_try].
  destruct (find_crashes _ _ _ _) as [cs| |]; try done. cbn [tick_try].
  destruct (kill_all _ _ cs) as [so| |] eqn:E5; try done. cbn [tick_try].
  apply num_kill in E5; [|by apply (num_state st4)].
  intros E6. apply num_resolve in E6 as (st0 & ? & ->); [|done]. eauto.
Qed.

End Walk.

(** ** The two instances *)

(** The [i]-th number after [s0], for [i] in [1..n]. *)
Definition numbers (s0 : Z) (n : nat) : list Z :=
  (fun i => wrap_u64 (s0 + i)) <$> range_Z 1 n.

Record numbered (s0 : Z) (so : GameState * Events) : Prop := {
  num_list : so.2.*1 = numbers s0 (length so.2);
  num_counter : gs_event_sequence so.1 = wrap_u64 (s0 + vec_len so.2)
}.

Lemma numbers_snoc s0 n :
  numbers s0 (S n) = numbers s0 n ++ [wrap_u64 (s0 + Z.of_nat (S n))].
Proof.
  unfold numbers, range_Z. rewrite seq_S, !fmap_app. cbn. do 3 f_equal. lia.
Qed.

Lemma wrap_u64_succ a : wrap_u64 (wrap_u64 a + 1) = wrap_u64 (a + 1).
Proof. unfold wrap_u64. by rewrite Zplus_mod_idemp_l. Qed.

Lemma numbers_app s0 n m :
  numbers s0 (n + m) = numbers s0 n ++ numbers (wrap_u64 (s0 + Z.of_nat n)) m.
Proof.
  induction m as [|m IH].
  - rewrite Nat.add_0_r. cbn. by rewrite app_nil_r.
  - rewrite Nat.add_succ_r, !numbers_snoc, IH, <- app_assoc. do 3 f_equal.
    unfold wrap_u64. rewrite Zplus_mod_idemp_l. f_equal. lia.
Qed.

#[global] Instance numbered_clocked s0 : Clocked (numbered s0).
Proof.
  split.
  - intros st st' out (_ & Es & _) [Hl Hc]. split; [done|]. cbn in *. congruence.
  - intros st out e st' _ He _ [Hl Hc]. cbn [fst snd] in *. rewrite Hc in *.
    unfold vec_len in *.
    assert (E : wrap_u64 (wrap_u64 (s0 + Z.of_nat (length out)) + 1)
                = wrap_u64 (s0 + Z.of_nat (S (length out)))).
    { rewrite wrap_u64_succ. f_equal. lia. }
    split; cbn [fst snd].
    + rewrite fmap_app, length_app. cbn [length].
      rewrite (Nat.add_1_r (length out)), numbers_snoc, Hl. cbn. by rewrite E.
    + rewrite He, E. unfold vec_len. rewrite length_app. f_equal. cbn. lia.
Qed.

Lemma tick_numbers `{F32Libm} mo st out st' obs :
  is_u64 (gs_event_sequence st) -> tick_forward mo st = (Ok out, st', obs) ->
  numbered (gs_event_sequence st) (st', out).
Proof.
  intros Hu E.
  assert (H0 : numbered (gs_event_sequence st) (st, [])).
  { split; [done|]. cbn. by rewrite Z.add_0_r, wrap_u64_id. }
  destruct (is_complete st) eqn:Hc.
  { unfold tick_forward in E. rewrite Hc in E. by injection E as <- <- _. }
  apply (num_tick (numbered (gs_event_sequence st))) in E as (st0 & [Hl Hn] & [->| ->]); try done; by split.
Qed.

#[global] Instance tick_clocked t : Clocked (fun so => gs_tick so.1 = t).
Proof.
  split; cbn.
  - intros st st' out (Et & _). congruence.
  - intros st out e st' Et _ _. congruence.
Qed.

Lemma tick_advances `{F32Libm} mo st out st' obs :
  is_complete st = false -> 0 <= gs_tick st < u32_max ->
  tick_forward mo st = (Ok out, st', obs) -> gs_tick st' = gs_tick st + 1.
Proof.
  intros Hc Ht E.
  apply (num_tick (fun so => gs_tick so.1 = gs_tick st)) in E as (st0 & Hn & [->| ->]);
    try done; cbn in *.
  - unfold sat_add_u32. lia.
  - rewrite Hn. apply wrap_u32_id. unfold is_u32. lia.
Qed.

#[global] Instance epoch_clocked x : Clocked (fun so => epoch_fields so.1 = x).
Proof.
  split; cbn.
  - intros st st' out (_ & _ & Ee). congruence.
  - intros st out e st' _ _ Ee. congruence.
Qed.

Lemma tick_keeps_epoch `{F32Libm} mo st out st' obs :
  tick_forward mo st = (Ok out, st', obs) -> epoch_fields st' = epoch_fields st.
Proof.
  intros E. destruct (is_complete st) eqn:Hc.
  { unfold tick_forward in E. rewrite Hc in E. by injection E as <- <- _. }
  by apply (num_tick (fun so => epoch_fields so.1 = epoch_fields st))
    in E as (st0 & Hn & [->| ->]).
Qed.
