(* ===== verification/Ai.v ===== *)
(** * The bot: common/src/ai.rs

    The move chooser of the production bot. The breadth-first searches carry
    an explicit fuel; [AiFacts] shows that the fuel of [bfs] is never
    exhausted. *)

From Stdlib Require Import ZArith.
From stdpp Require Import prelude strings countable list gmap.
From S2P Require Import Prelude Snake Arena CommandQueue GameState.
Open Scope Z_scope.

Definition is_ai_player (user_id : Z) : bool := u32_max - 10 <=? user_id.

Definition get_new_position (pos : Position) (d : Direction) : Position :=
  match d with
  | Up => mkPos (px pos) (i16_sub (py pos) 1)
  | Down => mkPos (px pos) (i16_add (py pos) 1)
  | Left => mkPos (i16_sub (px pos) 1) (py pos)
  | Right => mkPos (i16_add (px pos) 1) (py pos)
  end.

Definition is_within_bounds (pos : Position) (width height : Z) : bool :=
  (0 <=? px pos) && (px pos <? width) && (0 <=? py pos) && (py pos <? height).

Definition would_collide_with_snake (st : GameState) (pos : Position) : bool :=
  existsb (fun s => is_alive s && contains_point s pos false) (gs_snakes st).

Definition manhattan_distance (p1 p2 : Position) : Z :=
  wrap_u16 (i16_add (wrap_i16 (Z.abs (i16_sub (px p1) (px p2))))
                    (wrap_i16 (Z.abs (i16_sub (py p1) (py p2))))).

Definition all_directions : list Direction := [Up; Down; Left; Right].

(** ** Breadth-first search *)

(** One neighbour: in bounds and not yet visited, it joins the queue. *)
Definition bfs_visit (width height : Z) (pos : Position)
    (state : list Position * gset Position) (d : Direction)
  : list Position * gset Position :=
  let '(queue, visited) := state in
  let new_pos := get_new_position pos d in
  if is_within_bounds new_pos width height && bool_decide (new_pos ∉ visited)
  then (queue ++ [new_pos], {[new_pos]} ∪ visited)
  else (queue, visited).

(** The inner [for] loop. *)
Definition bfs_neighbours (width height : Z) (pos : Position)
    (state : list Position * gset Position) : list Position * gset Position :=
  foldl (bfs_visit width height pos) state all_directions.

(** [Some (Some p)]: found; [Some None]: the queue ran empty; [None]: fuel. *)
Fixpoint bfs_loop (fuel : nat) (goal : Position -> bool) (width height : Z)
    (queue : list Position) (visited : gset Position) : option (option Position) :=
  match fuel with
  | O => None
  | S fuel =>
      match queue with
      | [] => Some None
      | pos :: queue =>
          if goal pos then Some (Some pos)
          else
            let '(queue, visited) := bfs_neighbours width height pos (queue, visited) in
            bfs_loop fuel goal width height queue visited
      end
  end.

(** One round per visited cell, and one for the empty queue. *)
Definition bfs_fuel (width height : Z) : nat := Z.to_nat (width * height) + 2.

Definition bfs (goal : Position -> bool) (start : Position) (width height : Z)
  : option (option Position) :=
  bfs_loop (bfs_fuel width height) goal width height [start] {[start]}.

Definition find_nearest_food (st : GameState) (start : Position) (width height : Z)
  : option Position :=
  match gs_food st with
  | [] => Some (mkPos (width ÷ 2) (height ÷ 2))
  | first :: _ =>
      match bfs (has_food st) start width height with
      | Some (Some pos) => Some pos
      | _ => Some first
      end
  end.

Definition count_escape_routes (st : GameState) (pos : Position) (width height : Z) : Z :=
  foldl (fun count d =>
           let new_pos := get_new_position pos d in
           if is_within_bounds new_pos width height
              && negb (would_collide_with_snake st new_pos)
           then wrap_u8 (count + 1) else count) 0 all_directions.

(** ** Team strategy *)

Definition is_team_game (st : GameState) : bool := is_team_match (gs_game_type st).

Definition MATCH_POINT_MARGIN : Z := 3.

(** [iter().filter(..).map(..).max()]. *)
Definition best_opponent (scores : gmap Z Z) (team : TeamId) : Z :=
  foldr Z.max 0 (filter (fun '(other, _) => other <> team) (map_to_list scores)).*2.

Definition score_race_pressure (st : GameState) (team : TeamId) (carried_points : Z) : Z :=
  match score_limit (gs_properties st), gs_team_scores st with
  | Some limit, Some team_scores =>
      let our_score := default 0 (team_scores !! team) in
      if limit <=? wrap_u32 (our_score + carried_points) then 100
      else if limit <=? wrap_u32 (best_opponent team_scores team + MATCH_POINT_MARGIN)
      then 100
      else 0
  | _, _ => 0
  end.

Definition get_score_differential (st : GameState) (team : TeamId) : Z :=
  match gs_team_scores st with
  | Some team_scores =>
      let our_score := wrap_i32 (default 0 (team_scores !! team)) in
      let opponent_team := if team =? 0 then 1 else 0 in
      let opponent_score := wrap_i32 (default 0 (team_scores !! opponent_team)) in
      wrap_i32 (our_score - opponent_score)
  | None => 0
  end.

Definition find_path_to_base (st : GameState) (start : Position) (team : TeamId)
    (width height : Z) : option Position :=
  match goal_bounds (gs_arena st) team with
  | None => None
  | Some (goal_x, goal_y_start, goal_y_end) =>
      let goal pos := (px pos =? goal_x) && (goal_y_start <=? py pos)
                      && (py pos <=? goal_y_end) in
      match bfs goal start width height with
      | Some (Some pos) => Some pos
      | _ => Some (mkPos goal_x (i16_add goal_y_start goal_y_end ÷ 2))
      end
  end.

Definition should_return_to_base (st : GameState) (s : Snake) (team : TeamId) : bool :=
  let carried_points := carried_food st s in
  if carried_points =? 0 then false
  else if match head s with
          | Ok h => is_in_team_base (gs_arena st) h team
          | _ => false
          end then false
  else
    let base_food_score := wrap_u32 (carried_points * 10) in
    let race_pressure_score := score_race_pressure st team carried_points in
    let score_diff := get_score_differential st team in
    let score_differential_bonus := if score_diff <? -10 then -20 else 0 in
    let total_return_score :=
      wrap_i32 (wrap_i32 (wrap_i32 base_food_score + race_pressure_score)
                + score_differential_bonus) in
    40 <=? total_return_score.

(** ** The move *)

(** The score of one direction; [None] is [continue]. *)
Definition score_direction (st : GameState) (h target : Position) (width height : Z)
    (d : Direction) : option Z :=
  let new_pos := get_new_position h d in
  if negb (is_within_bounds new_pos width height) then None
  else if would_collide_with_snake st new_pos then None
  else
    let food_distance := manhattan_distance new_pos target in
    let center_distance :=
      manhattan_distance new_pos (mkPos (width ÷ 2) (height ÷ 2)) in
    let escape_routes := count_escape_routes st new_pos width height in
    if escape_routes =? 0 then None
    else Some (0 - food_distance * 10 - center_distance + escape_routes * 5).

(** The loop over the directions with [best_direction] and [best_score]. *)
Definition choose (st : GameState) (h target : Position) (width height : Z)
    (current : Direction) (ds : list Direction) : Direction * Z :=
  foldl (fun '(best_direction, best_score) d =>
           match score_direction st h target width height d with
           | Some score => if best_score <? score then (d, score)
                           else (best_direction, best_score)
           | None => (best_direction, best_score)
           end) (current, i32_min) ds.

Definition ai_target (st : GameState) (s : Snake) (h : Position) (width height : Z)
  : option Position :=
  match is_team_game st, sn_team_id s with
  | true, Some team =>
      if should_return_to_base st s team
      then find_path_to_base st h team width height
      else find_nearest_food st h width height
  | _, _ => find_nearest_food st h width height
  end.

Definition calculate_ai_move (st : GameState) (snake_id : Z)
    (current_direction : Direction) : option Direction :=
  match vec_get (gs_snakes st) snake_id with
  | None => None
  | Some s =>
      if negb (is_alive s) then None
      else match head s with
      | Ok h =>
          let arena_width := wrap_i16 (width (gs_arena st)) in
          let arena_height := wrap_i16 (height (gs_arena st)) in
          let possible_directions :=
            filter (fun d => is_opposite current_direction d = false) all_directions in
          match ai_target st s h arena_width arena_height with
          | None => None
          | Some target =>
              let '(best_direction, best_score) :=
                choose st h target arena_width arena_height current_direction
                  possible_directions in
              Some (if best_score =? i32_min then current_direction else best_direction)
          end
      | _ => None
      end
  end.

Definition calculate_ai_command (st : GameState) (snake_id : Z) : option GameCommand :=
  match vec_get (gs_snakes st) snake_id with
  | None => None
  | Some s =>
      if negb (is_alive s) then None
      else if match gs_boost st with Some _ => true | None => false end
              && (0 <? charge_ms (boost s)) && negb (active (boost s))
      then Some (Cmd_ActivateBoost snake_id)
      else Some (Cmd_Turn snake_id
                   (default (direction s) (calculate_ai_move st snake_id (direction s))))
  end.
