(* ===== verification/Fingerprint.v ===== *)
(** * The synchronisation fingerprint: common/src/fingerprint.rs

    [sync_view] is what [GameState::sync_hash] reads of a state, in the
    order it writes it and with the vectors it sorts; [view_codec] is the byte
    stream it writes, in combinators for unambiguous streams; [sync_hash] is the
    FNV-1a hash of that stream. *)

From Stdlib Require Import ZArith.
From stdpp Require Import prelude strings countable list gmap sorting.
From S2P Require Import Prelude Snake Arena CommandQueue GameState.
Open Scope Z_scope.

(** [to_le_bytes] of an [n]-byte word. *)
Fixpoint le_bytes (n : nat) (z : Z) : list Z :=
  match n with
  | O => []
  | S n => z mod 256 :: le_bytes n (z / 256)
  end.

Lemma le_bytes_length n z : length (le_bytes n z) = n.
Proof. revert z. induction n; intros z; cbn; auto. Qed.

Lemma le_bytes_inj n a b :
  0 <= a < 256 ^ Z.of_nat n -> 0 <= b < 256 ^ Z.of_nat n ->
  le_bytes n a = le_bytes n b -> a = b.
Proof.
  revert a b. induction n as [|n IH]; intros a b Ha Hb; cbn [le_bytes].
  { intros _. cbn in *. lia. }
  rewrite Nat2Z.inj_succ, Z.pow_succ_r in Ha, Hb by lia. intros [= Hm Hd].
  apply IH in Hd.
  - rewrite (Z.div_mod a 256), (Z.div_mod b 256) by lia. congruence.
  - split; [apply Z.div_pos; lia|]. apply Z.div_lt_upper_bound; lia.
  - split; [apply Z.div_pos; lia|]. apply Z.div_lt_upper_bound; lia.
Qed.

Lemma le_bytes_u8 n z : Forall is_u8 (le_bytes n z).
Proof.
  revert z. induction n as [|n IH]; intros z; cbn; constructor; [|apply IH].
  pose proof (Z.mod_pos_bound z 256). unfold is_u8, u8_max. lia.
Qed.

Record Codec (A : Type) := mkCodec {
  enc : A -> list Z;
  fits : A -> bool;
  enc_bytes : forall a, Forall is_u8 (enc a);
  enc_inj : forall a b r1 r2, fits a = true -> fits b = true ->
            enc a ++ r1 = enc b ++ r2 -> a = b /\ r1 = r2
}.
Arguments enc {A} _ _.
Arguments fits {A} _ _.
Arguments enc_bytes {A} _ _.
Arguments enc_inj {A} _ _ _ _ _.

(** ** Words *)

Definition in_word (n : nat) (z : Z) : bool := (0 <=? z) && (z <? 256 ^ Z.of_nat n).

Lemma word_inj n a b r1 r2 :
  in_word n a = true -> in_word n b = true ->
  le_bytes n a ++ r1 = le_bytes n b ++ r2 -> a = b /\ r1 = r2.
Proof.
  unfold in_word. rewrite !andb_true_iff, !Z.leb_le, !Z.ltb_lt. intros Ha Hb E.
  apply app_inj_1 in E as [E ->]; [|by rewrite !le_bytes_length].
  split; [|done]. by apply (le_bytes_inj n).
Qed.

Definition word (n : nat) : Codec Z := mkCodec Z (le_bytes n) (in_word n) (le_bytes_u8 n) (word_inj n).

Definition u8c : Codec Z := word 1.
Definition u16c : Codec Z := word 2.
Definition u32c : Codec Z := word 4.
Definition u64c : Codec Z := word 8.

(** A value written through an injective view of it. *)
Section Via.
  Context {A B : Type} (f : B -> A) (c : Codec A) (ok : B -> bool).
  Context (Hok : forall b, ok b = true -> fits c (f b) = true).
  Context (Hf : forall a b, ok a = true -> ok b = true -> f a = f b -> a = b).

Lemma via_inj a b r1 r2 :
  ok a = true -> ok b = true ->
  enc c (f a) ++ r1 = enc c (f b) ++ r2 -> a = b /\ r1 = r2.
Proof.
  intros Ha Hb E. apply (enc_inj c) in E as [E ->]; [|by apply Hok..].
  split; [|done]. by apply Hf.
Qed.

Definition via : Codec B := mkCodec B (fun b => enc c (f b)) ok (fun b => enc_bytes c (f b)) via_inj.

End Via.

Definition in_i16 (z : Z) : bool := (i16_min <=? z) && (z <=? i16_max).

Lemma i16_word z : in_i16 z = true -> fits u16c (z mod 2 ^ 16) = true.
Proof.
  intros _. cbn. unfold in_word. rewrite andb_true_iff, Z.leb_le, Z.ltb_lt.
  pose proof (Z.mod_pos_bound z (2 ^ 16)). cbn. lia.
Qed.

Lemma i16_word_inj a b :
  in_i16 a = true -> in_i16 b = true -> a mod 2 ^ 16 = b mod 2 ^ 16 -> a = b.
Proof.
  unfold in_i16, i16_min, i16_max. rewrite !andb_true_iff, !Z.leb_le. intros Ha Hb E.
  pose proof (Z.div_mod a (2 ^ 16)). pose proof (Z.div_mod b (2 ^ 16)). lia.
Qed.

Definition i16c : Codec Z :=
  via (fun z => z mod 2 ^ 16) u16c in_i16 i16_word i16_word_inj.

Definition bool_u8 (b : bool) : Z := if b then 1 else 0.

Lemma bool_word b : true = true -> fits u8c (bool_u8 b) = true.
Proof. by destruct b. Qed.

Lemma bool_word_inj a b : true = true -> true = true -> bool_u8 a = bool_u8 b -> a = b.
Proof. by destruct a, b. Qed.

Definition boolc : Codec bool :=
  via bool_u8 u8c (fun _ => true) bool_word bool_word_inj.

(** ** Composition *)

Lemma pair_inj {A B} (ca : Codec A) (cb : Codec B) (p q : A * B) r1 r2 :
  fits ca p.1 && fits cb p.2 = true -> fits ca q.1 && fits cb q.2 = true ->
  (enc ca p.1 ++ enc cb p.2) ++ r1 = (enc ca q.1 ++ enc cb q.2) ++ r2 ->
  p = q /\ r1 = r2.
Proof.
  destruct p as [a b], q as [a' b']. cbn. rewrite !andb_true_iff, <- !app_assoc.
  intros [Ha Hb] [Ha' Hb'] E. apply (enc_inj ca) in E as [-> E]; [|done..].
  by apply (enc_inj cb) in E as [-> ->].
Qed.

Lemma pair_bytes {A B} (ca : Codec A) (cb : Codec B) (p : A * B) :
  Forall is_u8 (enc ca p.1 ++ enc cb p.2).
Proof. apply Forall_app. split; apply enc_bytes. Qed.

(** One write after another. *)
Definition pairc {A B} (ca : Codec A) (cb : Codec B) : Codec (A * B) :=
  mkCodec (A * B) (fun p => enc ca p.1 ++ enc cb p.2)
    (fun p => fits ca p.1 && fits cb p.2) (pair_bytes ca cb) (pair_inj ca cb).

Definition opt_enc {A} (c : Codec A) (o : option A) : list Z :=
  match o with Some a => 1 :: enc c a | None => [0] end.
Definition opt_fits {A} (c : Codec A) (o : option A) : bool :=
  match o with Some a => fits c a | None => true end.

Lemma opt_inj {A} (c : Codec A) a b r1 r2 :
  opt_fits c a = true -> opt_fits c b = true ->
  opt_enc c a ++ r1 = opt_enc c b ++ r2 -> a = b /\ r1 = r2.
Proof.
  destruct a as [a|], b as [b|]; cbn; intros Ha Hb E; try done.
  - injection E as E. by apply (enc_inj c) in E as [-> ->].
  - by injection E as ->.
Qed.

Lemma opt_bytes {A} (c : Codec A) o : Forall is_u8 (opt_enc c o).
Proof.
  destruct o; cbn; constructor; try apply enc_bytes; try constructor;
    unfold is_u8, u8_max; lia.
Qed.

(** [Some] is written as a one byte before the value, [None] as a zero byte. *)
Definition optc {A} (c : Codec A) : Codec (option A) :=
  mkCodec (option A) (opt_enc c) (opt_fits c) (opt_bytes c) (opt_inj c).

Definition items_enc {A} (c : Codec A) (l : list A) : list Z := concat (enc c <$> l).

Lemma items_inj {A} (c : Codec A) (l1 l2 : list A) r1 r2 :
  length l1 = length l2 -> forallb (fits c) l1 = true -> forallb (fits c) l2 = true ->
  items_enc c l1 ++ r1 = items_enc c l2 ++ r2 -> l1 = l2 /\ r1 = r2.
Proof.
  revert l2. induction l1 as [|a l1 IH]; intros [|b l2] Hl H1 H2 E; try done.
  cbn in *. apply andb_true_iff in H1 as [Ha H1], H2 as [Hb H2].
  rewrite <- !app_assoc in E. apply (enc_inj c) in E as [-> E]; [|done..].
  apply IH in E as [-> ->]; auto.
Qed.

Definition list_fits {A} (c : Codec A) (l : list A) : bool :=
  (vec_len l <=? u32_max) && forallb (fits c) l.

Lemma list_inj {A} (c : Codec A) a b r1 r2 :
  list_fits c a = true -> list_fits c b = true ->
  (le_bytes 4 (wrap_u32 (vec_len a)) ++ items_enc c a) ++ r1
  = (le_bytes 4 (wrap_u32 (vec_len b)) ++ items_enc c b) ++ r2 -> a = b /\ r1 = r2.
Proof.
  unfold list_fits. rewrite !andb_true_iff, !Z.leb_le, <- !app_assoc.
  intros [Hla Ha] [Hlb Hb] E.
  assert (Hw : forall l : list A, vec_len l <= u32_max -> wrap_u32 (vec_len l) = vec_len l).
  { intros l Hl. apply wrap_u32_id. unfold is_u32, vec_len in *. lia. }
  rewrite !Hw in E by done.
  assert (Hf : forall l : list A, vec_len l <= u32_max -> in_word 4 (vec_len l) = true).
  { intros l Hl. unfold in_word. rewrite andb_true_iff, Z.leb_le, Z.ltb_lt.
    unfold vec_len, u32_max in *. change (256 ^ Z.of_nat 4) with (2 ^ 32). lia. }
  apply (word_inj 4) in E as [El E]; [|by apply Hf..].
  apply items_inj in E as [-> ->]; [done| |done..]. unfold vec_len in El. lia.
Qed.

Lemma list_bytes {A} (c : Codec A) (l : list A) :
  Forall is_u8 (le_bytes 4 (wrap_u32 (vec_len l)) ++ items_enc c l).
Proof.
  apply Forall_app. split; [apply le_bytes_u8|]. unfold items_enc.
  induction l as [|a l IH]; cbn; [constructor|]. apply Forall_app.
  split; [apply enc_bytes|exact IH].
Qed.

(** The length as [u32], then the elements. *)
Definition listc {A} (c : Codec A) : Codec (list A) :=
  mkCodec (list A) (fun l => le_bytes 4 (wrap_u32 (vec_len l)) ++ items_enc c l)
    (list_fits c) (list_bytes c) (list_inj c).

(** ** The hasher *)

Record SyncHasher := mkSyncHasher { hash_state : Z }.

Definition FNV_OFFSET : Z := 0xcbf29ce484222325.
Definition FNV_PRIME : Z := 0x100000001b3.

Definition SyncHasher_new : SyncHasher := mkSyncHasher FNV_OFFSET.

Definition write_u8 (h : SyncHasher) (v : Z) : SyncHasher :=
  mkSyncHasher (wrap_u64 (Z.lxor (hash_state h) v * FNV_PRIME)).

Definition write_bytes (h : SyncHasher) (bytes : list Z) : SyncHasher :=
  foldl write_u8 h bytes.

Definition finish (h : SyncHasher) : Z := hash_state h.

(** ** Field codecs *)

Definition direction_tag (d : Direction) : Z :=
  match d with Up => 0 | Down => 1 | Left => 2 | Right => 3 end.

Lemma direction_word d : true = true -> fits u8c (direction_tag d) = true.
Proof. by destruct d. Qed.

Lemma direction_word_inj a b :
  true = true -> true = true -> direction_tag a = direction_tag b -> a = b.
Proof. by destruct a, b. Qed.

Definition directionc : Codec Direction :=
  via direction_tag u8c (fun _ => true) direction_word direction_word_inj.

Definition status_view (s : GameStatus) : Z * option (option Z) :=
  match s with
  | Stopped => (0, None)
  | Started _ => (1, None)
  | Complete w => (2, Some w)
  end.

(** The payload follows the tag [2] only. *)
Definition status_enc (s : Z * option (option Z)) : list Z :=
  let '(tag, payload) := s in
  le_bytes 1 tag ++ match payload with Some w => enc (optc u32c) w | None => [] end.

Definition status_fits (s : Z * option (option Z)) : bool :=
  let '(tag, payload) := s in
  match payload with
  | Some w => (tag =? 2) && fits (optc u32c) w
  | None => (tag =? 0) || (tag =? 1)
  end.

Lemma status_inj a b r1 r2 :
  status_fits a = true -> status_fits b = true ->
  status_enc a ++ r1 = status_enc b ++ r2 -> a = b /\ r1 = r2.
Proof.
  destruct a as [ta [wa|]], b as [tb [wb|]]; cbn [status_fits status_enc]; intros Ha Hb E.
  - apply andb_true_iff in Ha as [Ea Ha], Hb as [Eb Hb]. apply Z.eqb_eq in Ea, Eb. subst.
    rewrite <- !app_assoc in E. apply app_inv_head in E.
    by apply (enc_inj (optc u32c)) in E as [-> ->].
  - apply andb_true_iff in Ha as [Ea Ha]. apply Z.eqb_eq in Ea. subst ta.
    apply orb_true_iff in Hb as [Hb|Hb]; apply Z.eqb_eq in Hb as ->; done.
  - apply andb_true_iff in Hb as [Eb Hb]. apply Z.eqb_eq in Eb. subst tb.
    apply orb_true_iff in Ha as [Ha|Ha]; apply Z.eqb_eq in Ha as ->; done.
  - apply orb_true_iff in Ha, Hb.
    destruct Ha as [Ha|Ha], Hb as [Hb|Hb]; apply Z.eqb_eq in Ha as ->, Hb as ->; cbn in E;
      try done; by injection E as ->.
Qed.

Lemma status_bytes s : Forall is_u8 (status_enc s).
Proof.
  destruct s as [tag [w|]]; cbn [status_enc]; apply Forall_app;
    (split; [apply le_bytes_u8|]); [apply (enc_bytes (optc u32c))|constructor].
Qed.

Definition statusc : Codec (Z * option (option Z)) :=
  mkCodec _ status_enc status_fits status_bytes status_inj.

Definition positionc : Codec (Z * Z) := pairc i16c i16c.

Definition pos_pair (p : Position) : Z * Z := (px p, py p).

(** The fields of a snake in the order of the stream. *)
Definition snake_view (s : Snake) :=
  ((is_alive s, direction s),
   ((sn_food s, (speed_milli s, movement_credit s)),
    ((charge_ms (boost s), (active (boost s), intent (boost s))),
     ((chain_count (combo s), remaining_ms (combo s)),
      (sn_team_id s, pos_pair <$> body s))))).

Definition snakec :=
  pairc (pairc boolc directionc)
    (pairc (pairc u32c (pairc u16c u32c))
       (pairc (pairc u32c (pairc boolc boolc))
          (pairc (pairc u32c u32c)
             (pairc (optc u8c) (listc positionc))))).

Definition pad_view (pad : BoostPad) :=
  (pad_id pad,
   (pos_pair (pad_position pad),
    (pad_charge_ms pad, (pad_size_cells pad, pad_respawn_at_tick pad)))).

Definition padc := pairc u8c (pairc positionc (pairc u32c (pairc u8c (optc u32c)))).

(** ** Sorted vectors *)

(** [sort_unstable] on pairs. *)
Definition pair_le (a b : Z * Z) : Prop := a.1 < b.1 \/ a.1 = b.1 /\ a.2 <= b.2.

#[global] Instance pair_le_dec a b : Decision (pair_le a b).
Proof. unfold pair_le. apply _. Defined.

#[global] Instance pair_le_total : Total pair_le.
Proof. intros a b. unfold pair_le. lia. Qed.

#[global] Instance pair_le_trans : Transitive pair_le.
Proof. intros a b c. unfold pair_le. lia. Qed.

#[global] Instance pair_le_antisymm : AntiSymm (=) pair_le.
Proof. intros [a1 a2] [b1 b2]. unfold pair_le. cbn. intros. f_equal; lia. Qed.

Definition sorted_map (m : gmap Z Z) : list (Z * Z) := merge_sort pair_le (map_to_list m).

Definition pairs_codec : Codec (list (Z * Z)) := listc (pairc u32c u32c).

(** ** Commands *)

Inductive SyncCommand :=
| SC_Turn (snake_id : Z) (d : Direction)
| SC_ActivateBoost (snake_id : Z)
| SC_DeactivateBoost (snake_id : Z)
| SC_PlayerActivity (snake_id : Z).

Definition sync_command (m : GameCommandMessage) : Result ((Z * (Z * Z)) * SyncCommand) :=
  server_id ← match command_id_server m with
              | Some i => Ok i
              | None => Panic "authoritative fingerprint command has a server ID"
              end;
  let id := (cid_tick server_id, (cid_user_id server_id, cid_sequence_number server_id)) in
  match command m with
  | Cmd_Turn i d => Ok (id, SC_Turn i d)
  | Cmd_ActivateBoost i => Ok (id, SC_ActivateBoost i)
  | Cmd_DeactivateBoost i => Ok (id, SC_DeactivateBoost i)
  | Cmd_PlayerActivity i => Ok (id, SC_PlayerActivity i)
  | Cmd_UpdateStatus _ =>
      Panic "system commands are excluded from the sync fingerprint"
  end.

Fixpoint sync_commands (l : list GameCommandMessage)
  : Result (list ((Z * (Z * Z)) * SyncCommand)) :=
  match l with
  | [] => Ok []
  | m :: l => c ← sync_command m; cs ← sync_commands l; Ok (c :: cs)
  end.

Definition command_enc (c : SyncCommand) : list Z :=
  match c with
  | SC_Turn i d => 0 :: le_bytes 4 i ++ [direction_tag d]
  | SC_ActivateBoost i => 1 :: le_bytes 4 i
  | SC_DeactivateBoost i => 2 :: le_bytes 4 i
  | SC_PlayerActivity i => 3 :: le_bytes 4 i
  end.

Definition command_fits (c : SyncCommand) : bool :=
  match c with
  | SC_Turn i _ | SC_ActivateBoost i | SC_DeactivateBoost i | SC_PlayerActivity i =>
      in_word 4 i
  end.

Lemma cons_tail {A} (x y : A) l k : x :: l = y :: k -> l = k.
Proof. by intros [= _ ?]. Qed.

Lemma command_inj a b r1 r2 :
  command_fits a = true -> command_fits b = true ->
  command_enc a ++ r1 = command_enc b ++ r2 -> a = b /\ r1 = r2.
Proof.
  destruct a, b; cbn [command_fits command_enc]; intros Ha Hb E;
    rewrite <- ?app_comm_cons in E; try done; apply cons_tail in E.
  - rewrite <- !app_assoc in E. apply (word_inj 4) in E as [-> E]; [|done..].
    injection E as Ed ->. split; [|done]. f_equal. by destruct d, d0.
  - by apply (word_inj 4) in E as [-> ->].
  - by apply (word_inj 4) in E as [-> ->].
  - by apply (word_inj 4) in E as [-> ->].
Qed.

Lemma command_bytes c : Forall is_u8 (command_enc c).
Proof.
  assert (Hb : forall z, 0 <= z < 4 -> is_u8 z) by (unfold is_u8, u8_max; lia).
  destruct c as [i d|i|i|i]; cbn [command_enc]; constructor; try (apply Hb; lia);
    try apply le_bytes_u8.
  apply Forall_app. split; [apply le_bytes_u8|]. constructor; [|constructor].
  apply Hb. destruct d; cbn; lia.
Qed.

Definition commandc : Codec SyncCommand := mkCodec _ command_enc command_fits command_bytes command_inj.

(** ** The stream *)

Definition zone_view (a : Arena) : option (Z * Z) :=
  (fun z => (end_zone_depth z, goal_width z)) <$> team_zone_config a.

Definition boost_view (c : BoostConfig) :=
  ((bc_speed_milli c, (bc_capacity_ms c, bc_packet_charge_ms c)),
   ((bc_pad_respawn_ms c, bc_spot_layout_version c),
    (bc_rules_version c, bc_unlimited c))).

Definition boostc :=
  pairc (pairc u16c (pairc u32c u32c)) (pairc (pairc u32c u16c) (pairc u16c boolc)).

Definition combo_view (c : ComboConfig) :=
  (cc_window_ms c, (cc_max_food_value c, cc_rules_version c)).

Definition comboc := pairc u32c (pairc u32c u16c).

(** Tick, status, arena and snakes. *)
Definition arena_view (st : GameState) :=
  ((gs_tick st, status_view (gs_status st)),
   ((width (gs_arena st), height (gs_arena st)),
    (zone_view (gs_arena st), snake_view <$> gs_snakes st))).

Definition arenac :=
  pairc (pairc u32c statusc)
    (pairc (pairc u16c u16c) (pairc (optc (pairc u16c u16c)) (listc snakec))).

(** Pads by id and food in order. *)
Definition pickups_view (st : GameState) :=
  (pad_view <$> (merge_sort key_le ((fun pad => (pad_id pad, pad)) <$> gs_pads st)).*2,
   merge_sort pair_le (pos_pair <$> gs_food st)).

Definition pickupsc := pairc (listc padc) (listc positionc).

(** Players, scores and pickup counts, each in key order. *)
Definition scores_view (st : GameState) :=
  (sorted_map (pl_snake_id <$> gs_players st),
   (sorted_map (gs_scores st),
    (sorted_map (gs_food_pickups st),
     (sorted_map <$> gs_team_scores st, sorted_map (gs_player_xp st))))).

Definition scoresc :=
  pairc pairs_codec
    (pairc pairs_codec
       (pairc pairs_codec (pairc (optc (listc (pairc u8c u32c))) pairs_codec))).

Definition activity_view (st : GameState) :=
  (sorted_map (gs_player_action_counts st),
   (sorted_map (gs_player_last_activity_ticks st),
    (gs_idle_kicked_user_ids st, gs_completed_by_inactivity st))).

Definition activityc := pairc pairs_codec (pairc pairs_codec (pairc (listc u32c) boolc)).

Definition properties_view (p : GameProperties) :=
  ((available_food_target p, tick_duration_ms p),
   ((time_limit_ms p, score_limit p),
    ((boost_view <$> pr_boost p, combo_view (pr_combo p)),
     (player_idle_timeout_ms p, player_idle_warning_ms p)))).

Definition propertiesc :=
  pairc (pairc u64c u32c)
    (pairc (pairc (optc u32c) (optc u32c))
       (pairc (pairc (optc boostc) comboc) (pairc u32c u32c))).

Definition state_view (st : GameState) :=
  (arena_view st,
   (pickups_view st, (scores_view st, (activity_view st, properties_view (gs_properties st))))).

Definition sync_view (st : GameState) :=
  commands ← sync_commands (authoritative_commands (gs_command_queue st));
  Ok (state_view st, commands).

Definition viewc :=
  pairc (pairc arenac (pairc pickupsc (pairc scoresc (pairc activityc propertiesc))))
    (listc (pairc (pairc u32c (pairc u32c u32c)) commandc)).

Definition sync_hash (st : GameState) : Result Z :=
  v ← sync_view st;
  Ok (finish (write_bytes SyncHasher_new (enc viewc v))).
