(* ===== verification/FingerprintFacts.v ===== *)
(** * What the fingerprint guarantees

    The hash is total, reads nothing of the excluded fields, does not depend
    on the order of food, distinguishes any two streams that differ in one
    byte, and the stream itself determines the synchronised state. *)

From Stdlib Require Import ZArith.
From stdpp Require Import prelude strings countable list gmap sorting.
From S2P Require Import Prelude Util Snake Arena CommandQueue GameState Fingerprint.
Open Scope Z_scope.

(** ** The hasher *)

(** The inverse of the FNV prime modulo [2 ^ 64]. *)
Definition FNV_INVERSE : Z := 0xce965057aff6957b.

Lemma fnv_mul_inj a b :
  is_u64 a -> is_u64 b -> wrap_u64 (a * FNV_PRIME) = wrap_u64 (b * FNV_PRIME) -> a = b.
Proof.
  intros Ha Hb E. apply (f_equal (fun z => wrap_u64 (z * FNV_INVERSE))) in E.
  unfold wrap_u64 in E. rewrite !Zmult_mod_idemp_l, <- !Z.mul_assoc in E.
  assert (Hone : (FNV_PRIME * FNV_INVERSE) mod 2 ^ 64 = 1) by reflexivity.
  rewrite <- (Zmult_mod_idemp_r _ a), <- (Zmult_mod_idemp_r _ b), Hone, !Z.mul_1_r in E.
  unfold is_u64, u64_max in *. rewrite !Z.mod_small in E by lia. done.
Qed.

Lemma write_u8_range h v : is_u64 (hash_state (write_u8 h v)).
Proof. apply wrap_u64_range. Qed.

Lemma write_bytes_range h l : is_u64 (hash_state h) -> is_u64 (hash_state (write_bytes h l)).
Proof.
  revert h. induction l as [|v l IH]; intros h Hh; [done|]. cbn. apply IH, write_u8_range.
Qed.

Lemma byte_u64 v : is_u8 v -> is_u64 v.
Proof. unfold is_u8, is_u64, u8_max, u64_max. lia. Qed.

Lemma lxor_cancel a b c : Z.lxor a b = Z.lxor a c -> b = c.
Proof.
  intros E. apply (f_equal (Z.lxor a)) in E.
  by rewrite <- !Z.lxor_assoc, Z.lxor_nilpotent, !Z.lxor_0_l in E.
Qed.

(** The step is injective in the state and in the byte. *)
Lemma write_u8_inj_state h1 h2 v :
  is_u64 (hash_state h1) -> is_u64 (hash_state h2) -> is_u8 v ->
  hash_state (write_u8 h1 v) = hash_state (write_u8 h2 v) -> hash_state h1 = hash_state h2.
Proof.
  intros H1 H2 Hv E. apply fnv_mul_inj in E; [|by apply lxor_u64_range, byte_u64..].
  rewrite (Z.lxor_comm _ v), (Z.lxor_comm _ v) in E. by apply lxor_cancel in E.
Qed.

Lemma write_u8_inj_byte h a b :
  is_u64 (hash_state h) -> is_u8 a -> is_u8 b ->
  hash_state (write_u8 h a) = hash_state (write_u8 h b) -> a = b.
Proof.
  intros Hh Ha Hb E. apply fnv_mul_inj in E; [|by apply lxor_u64_range, byte_u64..].
  by apply lxor_cancel in E.
Qed.

Lemma write_bytes_inj_state l h1 h2 :
  is_u64 (hash_state h1) -> is_u64 (hash_state h2) -> Forall is_u8 l ->
  hash_state (write_bytes h1 l) = hash_state (write_bytes h2 l) ->
  hash_state h1 = hash_state h2.
Proof.
  revert h1 h2. induction l as [|v l IH]; intros h1 h2 H1 H2 Hl E; [done|].
  apply Forall_cons in Hl as [Hv Hl]. cbn in E.
  apply IH in E; [|apply write_u8_range..|done]. by apply write_u8_inj_state in E.
Qed.

Lemma one_byte_differs h l a b r :
  is_u64 (hash_state h) -> is_u8 a -> is_u8 b -> Forall is_u8 r -> a <> b ->
  finish (write_bytes h (l ++ a :: r)) <> finish (write_bytes h (l ++ b :: r)).
Proof.
  intros Hh Ha Hb Hr Hne E. unfold finish, write_bytes in E. rewrite !foldl_app in E.
  cbn in E. pose proof (write_bytes_range h l Hh) as Hl.
  apply (write_bytes_inj_state r) in E; [|apply write_u8_range..|done].
  by apply write_u8_inj_byte in E.
Qed.

(** ** Totality *)

Lemma sync_commands_total l :
  Forall (fun m => speculative m = false /\ command_snake (command m) <> None) l ->
  exists cs, sync_commands l = Ok cs.
Proof.
  induction 1 as [|m l [Hs Hc] Hl [cs Ecs]]; [by exists []|].
  cbn [sync_commands]. unfold sync_command, speculative in *.
  destruct (command_id_server m) as [i|]; [|done]. cbn [mbind result_bind]. rewrite Ecs.
  destruct (command m); cbn; try done; by eexists.
Qed.

Lemma authoritative_commands_Forall q :
  Forall (fun m => speculative m = false /\ command_snake (command m) <> None)
    (authoritative_commands q).
Proof.
  unfold authoritative_commands. rewrite (merge_sort_Permutation msg_le).
  apply Forall_forall. intros m Hm. by apply list_elem_of_filter in Hm as [? _].
Qed.

Lemma sync_view_total st : exists v, sync_view st = Ok v.
Proof.
  unfold sync_view. destruct (sync_commands_total _ (authoritative_commands_Forall
    (gs_command_queue st))) as [cs ->]. by eexists.
Qed.

Lemma sync_hash_total st : exists h, sync_hash st = Ok h /\ is_u64 h.
Proof.
  unfold sync_hash. destruct (sync_view_total st) as [v ->]. eexists. split; [done|].
  apply write_bytes_range. vm_compute. by split.
Qed.

(** ** Order independence *)

Lemma sort_pairs_perm l1 l2 : l1 ≡ₚ l2 -> merge_sort pair_le l1 = merge_sort pair_le l2.
Proof.
  intros Hp. apply (StronglySorted_unique pair_le).
  - apply (StronglySorted_merge_sort pair_le).
  - apply (StronglySorted_merge_sort pair_le).
  - by rewrite !(merge_sort_Permutation pair_le).
Qed.

Lemma sorted_map_inj m1 m2 : sorted_map m1 = sorted_map m2 -> m1 = m2.
Proof.
  intros E. apply map_to_list_inj. unfold sorted_map in E.
  rewrite <- (merge_sort_Permutation pair_le (map_to_list m1)), E.
  apply (merge_sort_Permutation pair_le).
Qed.

Lemma sorted_opt_inj (o1 o2 : option (gmap Z Z)) :
  sorted_map <$> o1 = sorted_map <$> o2 -> o1 = o2.
Proof.
  destruct o1, o2; cbn; intros E; try done. injection E as E. f_equal. by apply sorted_map_inj.
Qed.

(** ** The stream determines the state *)

#[global] Instance pos_pair_inj : Inj (=) (=) pos_pair.
Proof. intros [] []. by intros [= -> ->]. Qed.

#[global] Instance snake_view_inj : Inj (=) (=) snake_view.
Proof.
  intros [] []. unfold snake_view. cbn. intros E. injection E as -> -> -> -> -> E1 E2 E3 E4 E5 -> Eb.
  destruct boost as [? ? ?], boost0 as [? ? ?], combo as [? ?], combo0 as [? ?]. cbn in *.
  subst. by apply (inj (fmap pos_pair)) in Eb as ->.
Qed.

#[global] Instance pad_view_inj : Inj (=) (=) pad_view.
Proof.
  intros [? [] ? ? ?] [? [] ? ? ?]. unfold pad_view. cbn. by intros [= -> -> -> -> -> ->].
Qed.

(** What two states with the same stream share; [server_id] of the status is
    deliberately left out of the stream. *)
Record same_game (st1 st2 : GameState) : Prop := {
  sg_tick : gs_tick st1 = gs_tick st2;
  sg_status : status_view (gs_status st1) = status_view (gs_status st2);
  sg_dims : width (gs_arena st1) = width (gs_arena st2)
            /\ height (gs_arena st1) = height (gs_arena st2);
  sg_zones : team_zone_config (gs_arena st1) = team_zone_config (gs_arena st2);
  sg_snakes : gs_snakes st1 = gs_snakes st2;
  sg_pads : gs_pads st1 ≡ₚ gs_pads st2;
  sg_food : gs_food st1 ≡ₚ gs_food st2;
  sg_owners : pl_snake_id <$> gs_players st1 = pl_snake_id <$> gs_players st2;
  sg_scores : gs_scores st1 = gs_scores st2;
  sg_pickups : gs_food_pickups st1 = gs_food_pickups st2;
  sg_team_scores : gs_team_scores st1 = gs_team_scores st2;
  sg_xp : gs_player_xp st1 = gs_player_xp st2;
  sg_actions : gs_player_action_counts st1 = gs_player_action_counts st2;
  sg_activity : gs_player_last_activity_ticks st1 = gs_player_last_activity_ticks st2;
  sg_kicked : gs_idle_kicked_user_ids st1 = gs_idle_kicked_user_ids st2;
  sg_completed : gs_completed_by_inactivity st1 = gs_completed_by_inactivity st2;
  sg_properties : gs_properties st1 = gs_properties st2
}.

Lemma sorted_pads_perm st :
  (merge_sort key_le ((fun pad => (pad_id pad, pad)) <$> gs_pads st)).*2 ≡ₚ gs_pads st.
Proof.
  rewrite (merge_sort_Permutation key_le). apply reflexive_eq.
  induction (gs_pads st) as [|pad pads IH]; [done|]. cbn. by f_equal.
Qed.

Lemma properties_view_inj p1 p2 : properties_view p1 = properties_view p2 -> p1 = p2.
Proof.
  destruct p1 as [? ? ? ? b1 [? ? ?] ? ?], p2 as [? ? ? ? b2 [? ? ?] ? ?].
  unfold properties_view. cbn. intros [= -> -> -> -> Eb -> -> -> -> ->]. f_equal.
  destruct b1 as [[]|], b2 as [[]|]; cbn in Eb; try done. unfold boost_view in Eb. cbn in Eb.
  by injection Eb as -> -> -> -> -> -> ->.
Qed.

Lemma unpair_food (l : list Position) :
  (fun p => mkPos p.1 p.2) <$> (pos_pair <$> l) = l.
Proof. induction l as [|[] l IH]; [done|]. cbn. by f_equal. Qed.

Lemma state_view_same st1 st2 : state_view st1 = state_view st2 -> same_game st1 st2.
Proof.
  unfold state_view. intros E.
  apply pair_equal_spec in E as [Ea E]. apply pair_equal_spec in E as [Ep E].
  apply pair_equal_spec in E as [Es E]. apply pair_equal_spec in E as [Ec Epr].
  unfold arena_view in Ea. injection Ea as Et Est Ew Eh Ez Esn.
  unfold pickups_view in Ep. apply pair_equal_spec in Ep as [Epad Efood].
  unfold scores_view in Es. apply pair_equal_spec in Es as [Es1 Es].
  apply pair_equal_spec in Es as [Es2 Es]. apply pair_equal_spec in Es as [Es3 Es].
  apply pair_equal_spec in Es as [Es4 Es5].
  unfold activity_view in Ec. apply pair_equal_spec in Ec as [Ec1 Ec].
  apply pair_equal_spec in Ec as [Ec2 Ec]. apply pair_equal_spec in Ec as [Ec3 Ec4].
  split; try done; try (by apply sorted_map_inj).
  - unfold zone_view in Ez. destruct (team_zone_config (gs_arena st1)) as [[]|],
      (team_zone_config (gs_arena st2)) as [[]|]; cbn in Ez; try done.
    by injection Ez as -> ->.
  - by apply (inj (fmap snake_view)).
  - apply (inj (fmap pad_view)) in Epad.
    by rewrite <- (sorted_pads_perm st1), Epad, (sorted_pads_perm st2).
  - assert (Hf : pos_pair <$> gs_food st1 ≡ₚ pos_pair <$> gs_food st2).
    { by rewrite <- (merge_sort_Permutation pair_le (pos_pair <$> gs_food st1)), Efood,
        (merge_sort_Permutation pair_le). }
    apply (fmap_Permutation (fun p => mkPos p.1 p.2)) in Hf. by rewrite !unpair_food in Hf.
  - by apply sorted_opt_inj.
  - by apply properties_view_inj.
Qed.

(** Views that fit their words: what the types of the fields guarantee. *)
Definition sync_fits (st : GameState) : bool :=
  match sync_view st with Ok v => fits viewc v | _ => false end.

Definition sync_stream (st : GameState) : list Z :=
  match sync_view st with Ok v => enc viewc v | _ => [] end.

Lemma stream_determines st1 st2 :
  sync_fits st1 = true -> sync_fits st2 = true -> sync_stream st1 = sync_stream st2 ->
  same_game st1 st2
  /\ sync_commands (authoritative_commands (gs_command_queue st1))
     = sync_commands (authoritative_commands (gs_command_queue st2)).
Proof.
  unfold sync_fits, sync_stream, sync_view.
  destruct (sync_commands (authoritative_commands (gs_command_queue st1))) as [c1| |]; try done.
  destruct (sync_commands (authoritative_commands (gs_command_queue st2))) as [c2| |]; try done.
  cbn [mbind result_bind]. intros F1 F2 E.
  apply (f_equal (fun l => l ++ [])) in E. apply (enc_inj viewc) in E as [E _]; [|done..].
  apply pair_equal_spec in E as [Es ->]. split; [by apply state_view_same|done].
Qed.

(** ** Independence of the excluded fields *)

Lemma authoritative_filter q1 q2 :
  filter (fun m => speculative m = false) (queue q1)
  = filter (fun m => speculative m = false) (queue q2) ->
  authoritative_commands q1 = authoritative_commands q2.
Proof.
  intros E. unfold authoritative_commands.
  assert (Hf : forall l : list GameCommandMessage, filter (fun m => speculative m = false
                 /\ command_snake (command m) <> None) l
               = filter (fun m => command_snake (command m) <> None)
                   (filter (fun m => speculative m = false) l)).
  { intros l. rewrite list_filter_filter. apply list_filter_iff. intros m. tauto. }
  by rewrite !Hf, E.
Qed.

Lemma sync_hash_view st1 st2 :
  state_view st1 = state_view st2 ->
  authoritative_commands (gs_command_queue st1)
  = authoritative_commands (gs_command_queue st2) ->
  sync_hash st1 = sync_hash st2.
Proof. intros Ev Ec. unfold sync_hash, sync_view. by rewrite Ev, Ec. Qed.

Lemma food_order_view st f : f ≡ₚ gs_food st -> state_view (with_food f st) = state_view st.
Proof.
  intros Hp. unfold state_view. do 2 f_equal. unfold pickups_view. f_equal.
  apply sort_pairs_perm. by rewrite <- Hp.
Qed.
