(* ===== verification/Engine.v ===== *)
(** * The game engine: common/src/game_engine.rs

    [GameEngine] keeps a committed state, a predicted state and the health of
    the event stream. A method that mutates the engine returns its result
    with the engine it leaves behind, early returns included. The source's
    [while] loops over simulation quanta carry a fuel, and [None] means that
    the loop is still running when the fuel is spent; [EngineFacts] gives the
    fuel that is enough, and the one loop for which none is. *)

From Stdlib Require Import ZArith.
From stdpp Require Import prelude strings countable list gmap sorting.
From S2P Require Import Prelude RustFloat Util Snake Arena CommandQueue GameState GameSetup.
From S2P Require Import Events Validate Tick Fingerprint.
Open Scope Z_scope.

Definition MAX_PREDICTION_AHEAD_MS : Z := 1000.

(** ** State *)

Record SyncStatus := mkSyncStatus {
  last_stream_seq : Z;
  stream_gap_count : Z;
  missed_messages : Z;
  stale_messages_skipped : Z;
  last_probe_tick : option Z;
  last_probe_matched : option bool;
  consecutive_hash_mismatches : Z;
  total_probes : Z;
  total_mismatches : Z;
  first_mismatch_tick : option Z;
  needs_resync : bool;
  last_server_tick : Z;
  last_server_ts_ms : option Z
}.

Definition SyncStatus_default : SyncStatus :=
  {| last_stream_seq := 0; stream_gap_count := 0; missed_messages := 0;
     stale_messages_skipped := 0; last_probe_tick := None; last_probe_matched := None;
     consecutive_hash_mismatches := 0; total_probes := 0; total_mismatches := 0;
     first_mismatch_tick := None; needs_resync := false; last_server_tick := 0;
     last_server_ts_ms := None |}.

Record GameEngine := mkGameEngine {
  en_game_id : Z;
  committed_state : GameState;
  predicted_state : option GameState;
  event_log : list GameEventMessage;
  committed_state_lag_ms : Z;
  local_player_id : option Z;
  command_counter : Z;
  local_command_seq : Z;
  speculative_commands : list GameCommandMessage;
  sync_status : SyncStatus;
  prediction_needs_rebuild : bool
}.

Definition with_committed v e := {| e with committed_state := v |}.
Definition with_predicted v e := {| e with predicted_state := v |}.
Definition with_local_player v e := {| e with local_player_id := v |}.
Definition with_counter v e := {| e with command_counter := v |}.
Definition with_local_seq v e := {| e with local_command_seq := v |}.
Definition with_speculative v e := {| e with speculative_commands := v |}.
Definition with_sync v e := {| e with sync_status := v |}.
Definition with_rebuild v e := {| e with prediction_needs_rebuild := v |}.

Definition set_needs_resync (v : bool) (s : SyncStatus) : SyncStatus :=
  {| s with needs_resync := v |}.
Definition ask_resync (e : GameEngine) : GameEngine :=
  with_sync (set_needs_resync true (sync_status e)) e.

(** ** Admission and catch-up *)

Definition validate_client_snapshot_state (st : GameState) : Result unit :=
  match validate_boost_invariants st with
  | Ok _ => Ok tt
  | Err e => if is_legacy_completed_snapshot st then Ok tt else Err e
  | Panic e => Panic e
  end.

(** [while candidate.current_tick() < tick { candidate.tick_forward(true)?; }] *)
Fixpoint catch_up `{F32Libm} (fuel : nat) (st : GameState) (target : Z)
  : option (Result GameState) :=
  if current_tick st <? target then
    match fuel with
    | O => None
    | S fuel =>
        match tick_forward true st with
        | (Ok _, st', _) => catch_up fuel st' target
        | (r, _, _) => Some (recast r)
        end
    end
  else Some (Ok st).

Definition advance_and_apply_replicated_message `{F32Libm} (fuel : nat)
    (st : GameState) (m : GameEventMessage) : option (Result GameState) :=
  match em_event m with
  | Ev_Snapshot game_state =>
      Some (ensure (gs_tick game_state =? em_tick m)
              "snapshot envelope tick does not match state tick" ;;
            validate_client_snapshot_state game_state ;;
            Ok game_state)
  | event =>
      match catch_up fuel st (em_tick m) with
      | None => None
      | Some (Ok candidate) =>
          match event with
          | Ev_TickHash _ _ => Some (Ok candidate)
          | _ =>
              match try_apply_replicated_event candidate event with
              | (Ok _, candidate) => Some (Ok candidate)
              | (r, _) => Some (recast r)
              end
          end
      | Some r => Some r
      end
  end.

(** ** Construction *)

Definition engine_of (game_id : Z) (committed : GameState) (predicted : option GameState)
    (counter : Z) : GameEngine :=
  {| en_game_id := game_id; committed_state := committed; predicted_state := predicted;
     event_log := []; committed_state_lag_ms := 500; local_player_id := None;
     command_counter := counter; local_command_seq := 0; speculative_commands := [];
     sync_status := SyncStatus_default; prediction_needs_rebuild := false |}.

Definition GameEngine_new (game_id start_ms : Z) : Result GameEngine :=
  committed ← GameState_new 60 40 (TeamMatch 1) Quickmatch None start_ms;
  predicted ← GameState_new 60 40 (TeamMatch 1) Quickmatch None start_ms;
  Ok (engine_of game_id committed (Some predicted) 0).

Definition new_with_seed_and_type (game_id start_ms rng_seed : Z) (g : GameType)
  : Result GameEngine :=
  let '(width, height) :=
    match g with
    | Custom settings => (cg_arena_width settings, cg_arena_height settings)
    | TeamMatch _ => (60, 40)
    | _ => (40, 40)
    end in
  committed ← GameState_new width height g Quickmatch (Some rng_seed) start_ms;
  predicted ← GameState_new width height g Quickmatch None start_ms;
  Ok (engine_of game_id committed (Some predicted) 0).

Definition new_with_seed (game_id start_ms rng_seed : Z) : Result GameEngine :=
  new_with_seed_and_type game_id start_ms rng_seed (TeamMatch 1).

Definition from_validated_state (game_id : Z) (st : GameState) (next_sequence : Z)
  : GameEngine :=
  engine_of game_id st (Some (with_rng None st)) next_sequence.

Definition try_new_from_state_with_command_counter (game_id : Z) (st : GameState)
    (next_sequence : Z) : Result GameEngine :=
  validate_boost_invariants st ;;
  Ok (from_validated_state game_id st next_sequence).

Definition try_new_from_state (game_id : Z) (st : GameState) : Result GameEngine :=
  try_new_from_state_with_command_counter game_id st 0.

Definition try_new_from_snapshot_state (game_id : Z) (st : GameState) : Result GameEngine :=
  validate_client_snapshot_state st ;;
  Ok (from_validated_state game_id st 0).

(** [expect] on the result. *)
Definition new_from_state (game_id : Z) (st : GameState) : Result GameEngine :=
  match try_new_from_state game_id st with
  | Ok e => Ok e
  | _ => Panic "restored game state must satisfy gameplay invariants"
  end.

Definition new_from_state_with_command_counter (game_id : Z) (st : GameState)
    (next_sequence : Z) : Result GameEngine :=
  match try_new_from_state_with_command_counter game_id st next_sequence with
  | Ok e => Ok e
  | _ => Panic "recovered game state must satisfy gameplay invariants"
  end.

Definition set_local_player_id (e : GameEngine) (player_id : Z) : GameEngine :=
  with_local_player (Some player_id) e.

Definition apply_pre_match_readiness_event (e : GameEngine) (event : GameEvent)
  : Result unit * GameEngine :=
  if match event with
     | Ev_PlayerReady _ | Ev_MatchStartScheduled _ => true
     | _ => false
     end then
    if negb (current_tick (committed_state e) =? 0)
    then (Err "the readiness gate cannot be touched after the simulation has started", e)
    else (Ok tt, with_rebuild true
                   (with_committed (apply_event event (committed_state e)) e))
  else (Err "only readiness transitions may be applied outside the simulation", e).

(** ** Local commands *)

Definition process_local_command (e : GameEngine) (cmd : GameCommand)
  : Result GameCommandMessage * GameEngine :=
  match local_player_id e with
  | None => (Err "Local player ID not set", e)
  | Some player_id =>
      let predicted_tick :=
        match predicted_state e with Some s => current_tick s | None => 0 end in
      let e := with_local_seq (wrap_u32 (local_command_seq e + 1)) e in
      let m := mkMsg (mkCommandId predicted_tick player_id (local_command_seq e)) None cmd in
      let e := with_speculative (speculative_commands e ++ [m]) e in
      let e := with_predicted ((fun s => schedule_command s m) <$> predicted_state e) e in
      (Ok m, e)
  end.

Definition forget_command (id : CommandId) (l : list GameCommandMessage)
  : list GameCommandMessage :=
  filter (fun m => command_id_client m <> id) l.

Definition discard_local_command (e : GameEngine) (id : CommandId) : bool * GameEngine :=
  let kept := forget_command id (speculative_commands e) in
  (negb (vec_len kept =? vec_len (speculative_commands e)),
   with_rebuild true (with_speculative kept e)).

(** ** Server events *)

(** The transport accounting: [None] is the early return of a stale message. *)
Definition account_stream (s : SyncStatus) (stream_seq : Z) (is_snapshot : bool)
  : option SyncStatus :=
  if 0 <? stream_seq then
    let last := last_stream_seq s in
    if is_snapshot || (last =? 0) then Some {| s with last_stream_seq := stream_seq |}
    else if stream_seq <=? last then None
    else
      let s :=
        if wrap_u64 (last + 1) <? stream_seq
        then {| s with stream_gap_count := wrap_u32 (stream_gap_count s + 1);
                       missed_messages :=
                         wrap_u64 (missed_messages s + (stream_seq - last - 1));
                       needs_resync := true |}
        else s in
      Some {| s with last_stream_seq := stream_seq |}
  else Some s.

Definition skip_stale (s : SyncStatus) : SyncStatus :=
  {| s with stale_messages_skipped := wrap_u64 (stale_messages_skipped s + 1) |}.

Definition note_server_tick (s : SyncStatus) (tick : Z) : SyncStatus :=
  if last_server_tick s <? tick then {| s with last_server_tick := tick |} else s.

(** The bookkeeping of a fingerprint probe. *)
Definition note_probe (s : SyncStatus) (tick server_ts_ms : Z) (matched : bool)
  : SyncStatus :=
  let s := {| s with last_probe_tick := Some tick;
                     last_probe_matched := Some matched;
                     total_probes := wrap_u64 (total_probes s + 1);
                     last_server_ts_ms := Some server_ts_ms |} in
  if matched then {| s with consecutive_hash_mismatches := 0 |}
  else
    let consecutive := wrap_u32 (consecutive_hash_mismatches s + 1) in
    {| s with total_mismatches := wrap_u64 (total_mismatches s + 1);
              consecutive_hash_mismatches := consecutive;
              first_mismatch_tick := match first_mismatch_tick s with
                                     | Some t => Some t
                                     | None => Some tick
                                     end;
              needs_resync := needs_resync s || (2 <=? consecutive) |}.

(** What a committed event does to the pending local commands. *)
Definition settle_commands (event : GameEvent) (e : GameEngine) : GameEngine :=
  match event with
  | Ev_CommandScheduled m | Ev_CommandScheduledV2 _ m _ =>
      with_speculative (forget_command (command_id_client m) (speculative_commands e)) e
  | Ev_CommandRejected _ _ (Some id) session_rejected_from =>
      let e := with_speculative (forget_command id (speculative_commands e)) e in
      match session_rejected_from with Some _ => ask_resync e | None => e end
  | _ => e
  end.

Definition is_snapshot_event (event : GameEvent) : bool :=
  match event with Ev_Snapshot _ => true | _ => false end.

(** The snapshot admission that precedes the accounting. *)
Definition admit_snapshot (m : GameEventMessage) : Result unit :=
  match em_event m with
  | Ev_Snapshot game_state =>
      ensure (gs_tick game_state =? em_tick m)
        "snapshot envelope tick does not match state tick" ;;
      validate_client_snapshot_state game_state
  | _ => Ok tt
  end.

(** From the candidate on. *)
Definition commit_candidate (e : GameEngine) (m : GameEventMessage) (candidate : GameState)
  : Result unit * GameEngine :=
  match em_event m with
  | Ev_TickHash server_hash server_ts_ms =>
      match sync_hash candidate with
      | Ok local_hash =>
          let s := note_probe (sync_status e) (em_tick m) server_ts_ms
                     (local_hash =? server_hash) in
          (Ok tt, with_committed candidate (with_sync s e))
      | r => (recast r, e)
      end
  | event =>
      let e := settle_commands event (with_committed candidate e) in
      let e := with_rebuild true e in
      if is_snapshot_event event then
        let e := with_speculative [] e in
        let s := sync_status e in
        (Ok tt, with_sync {| s with needs_resync := false;
                                    consecutive_hash_mismatches := 0 |} e)
      else (Ok tt, e)
  end.

(** A message that fails, with an error or a panic, leaves what the engine was before
    it and asks for a resync; in the source a panic unwinds through the call instead
    of reaching the request. *)
Definition process_server_event `{F32Libm} (fuel : nat) (e : GameEngine)
    (m : GameEventMessage) : option (Result unit * GameEngine) :=
  match admit_snapshot m with
  | Ok _ =>
      match account_stream (sync_status e) (em_stream_seq m)
              (is_snapshot_event (em_event m)) with
      | None => Some (Ok tt, with_sync (skip_stale (sync_status e)) e)
      | Some s =>
          let e := with_sync (note_server_tick s (em_tick m)) e in
          match advance_and_apply_replicated_message fuel (committed_state e) m with
          | None => None
          | Some (Ok candidate) => Some (commit_candidate e m candidate)
          | Some r => Some (recast r, ask_resync e)
          end
      end
  | r => Some (recast r, ask_resync e)
  end.

(** ** Prediction *)

Definition max_predicted_tick (e : GameEngine) : Z :=
  let tick_ms := Z.max (gs_tick_duration_ms (committed_state e)) 1 in
  let ahead_ticks :=
    wrap_u32 (committed_state_lag_ms e + MAX_PREDICTION_AHEAD_MS) / tick_ms in
  wrap_u32 (current_tick (committed_state e) + Z.max ahead_ticks 1).

(** [while !s.is_complete() && s.current_tick() < target { s.tick_forward(mo)?; }]
    with the state left behind. *)
Fixpoint run_state `{F32Libm} (fuel : nat) (movement_only : bool) (st : GameState)
    (target : Z) : option (Result unit * GameState) :=
  if negb (is_complete st) && (current_tick st <? target) then
    match fuel with
    | O => None
    | S fuel =>
        match tick_forward movement_only st with
        | (Ok _, st', _) => run_state fuel movement_only st' target
        | (r, st', _) => Some (recast r, st')
        end
    end
  else Some (Ok tt, st).

(** [ts - epoch] on [i64]. *)
Definition i64_sub (a b : Z) : Z := wrap_i64 (a - b).

Definition reanchor (e : GameEngine) : GameEngine :=
  with_rebuild false
    (with_predicted (Some (with_rng None (committed_state e))) e).

(** The committed state with the pending local commands, without its
    generator. *)
Definition prediction_seed (e : GameEngine) : GameState :=
  foldl schedule_command (with_rng None (committed_state e)) (speculative_commands e).

Definition rebuild_predicted_state `{F32Libm} (fuel : nat) (e : GameEngine)
    (current_ts : Z) : option (Result unit * GameEngine) :=
  let elapsed_ms :=
    match simulation_start_ms (committed_state e) with
    | Some epoch => i64_sub current_ts epoch
    | None => -1
    end in
  if elapsed_ms <? 0 then
    Some (Ok tt, if prediction_needs_rebuild e then reanchor e else e)
  else
    let tick_ms := gs_tick_duration_ms (committed_state e) in
    if tick_ms =? 0 then Some (Panic "attempt to divide by zero", e)
    else
      let target := Z.min (wrap_u32 (elapsed_ms ÷ tick_ms)) (max_predicted_tick e) in
      if is_complete (committed_state e) then Some (Ok tt, reanchor e)
      else
        let needs_rebuild :=
          prediction_needs_rebuild e
          || match predicted_state e with
             | None => true
             | Some s => current_tick s <? target
             end in
        if needs_rebuild then
          match run_state fuel false (prediction_seed e) target with
          | None => None
          | Some (Ok _, st) => Some (Ok tt, with_rebuild false (with_predicted (Some st) e))
          | Some (r, _) => Some (r, e)
          end
        else Some (Ok tt, e).

(** ** The authoritative loop *)

(** The envelope tick of an event of a quantum. *)
Definition label (post_tick : Z) (entry : Z * GameEvent) : Z * Z * GameEvent :=
  let '(sequence, event) := entry in
  (match event with Ev_Snapshot game_state => gs_tick game_state | _ => post_tick end,
   sequence, event).

Abbreviation Labelled := (list (Z * Z * GameEvent)).

Fixpoint run_committed `{F32Libm} (fuel : nat) (st : GameState) (target : Z)
    (out : Labelled) (obs : list BoostLifecycleTransition)
  : option (Result Labelled * GameState * list BoostLifecycleTransition) :=
  if negb (is_complete st) && (current_tick st <? target) then
    match fuel with
    | O => None
    | S fuel =>
        match tick_forward false st with
        | (Ok events, st', seen) =>
            run_committed fuel st' target (out ++ (label (current_tick st') <$> events))
              (obs ++ seen)
        | (r, st', seen) => Some (recast r, st', obs ++ seen)
        end
    end
  else Some (Ok out, st, obs).

(** The predicted state follows to the present. *)
Definition run_predicted `{F32Libm} (fuel : nat) (e : GameEngine) (target : Z)
  : option (Result unit * GameEngine) :=
  match predicted_state e with
  | None => Some (Ok tt, e)
  | Some s =>
      match run_state fuel true s target with
      | None => None
      | Some (r, s) => Some (r, with_predicted (Some s) e)
      end
  end.

Definition run_until_observing_boost `{F32Libm} (fuel : nat) (e : GameEngine) (ts_ms : Z)
  : option (Result Labelled * GameEngine * list BoostLifecycleTransition) :=
  let tick_ms := gs_tick_duration_ms (committed_state e) in
  match simulation_start_ms (committed_state e) with
  | None => Some (Ok [], e, [])
  | Some epoch =>
      let elapsed_ms := i64_sub ts_ms epoch in
      if elapsed_ms <? 0 then Some (Ok [], e, [])
      else if tick_ms =? 0 then Some (Panic "attempt to divide by zero", e, [])
      else
        let wallclock_target := wrap_u32 (elapsed_ms ÷ tick_ms) in
        let lagged_target := sat_sub wallclock_target (committed_state_lag_ms e / tick_ms) in
        match run_committed fuel (committed_state e) lagged_target [] [] with
        | None => None
        | Some (Ok out, st, obs) =>
            let e := with_committed st e in
            let rebuilt :=
              if prediction_needs_rebuild e then rebuild_predicted_state fuel e ts_ms
              else Some (Ok tt, e) in
            match rebuilt with
            | None => None
            | Some (Ok _, e) =>
                match run_predicted fuel e
                        (Z.min wallclock_target (max_predicted_tick e)) with
                | None => None
                | Some (Ok _, e) => Some (Ok out, e, obs)
                | Some (r, e) => Some (recast r, e, obs)
                end
            | Some (r, e) => Some (recast r, e, obs)
            end
        | Some (r, st, obs) => Some (r, with_committed st e, obs)
        end
  end.

Definition run_until `{F32Libm} (fuel : nat) (e : GameEngine) (ts_ms : Z)
  : option (Result Labelled * GameEngine) :=
  match run_until_observing_boost fuel e ts_ms with
  | Some (r, e, _) => Some (r, e)
  | None => None
  end.

(** [saturating_sub] on [i64]. *)
Definition i64_sat_sub (a b : Z) : Z := Z.max (- 2 ^ 63) (Z.min (2 ^ 63 - 1) (a - b)).

Definition authoritative_scheduler_lag_ms (e : GameEngine) (ts_ms : Z) : Z :=
  match simulation_start_ms (committed_state e) with
  | None => 0
  | Some epoch =>
      if is_complete (committed_state e) || (ts_ms <? epoch) then 0
      else
        let tick_ms := Z.max (gs_tick_duration_ms (committed_state e)) 1 in
        let elapsed_ms := i64_sat_sub ts_ms epoch in
        let q := elapsed_ms ÷ tick_ms in
        let wallclock_target := if (0 <=? q) && (q <=? u32_max) then q else u32_max in
        let lagged_target := sat_sub wallclock_target (committed_state_lag_ms e / tick_ms) in
        sat_sub lagged_target (current_tick (committed_state e)) * tick_ms
  end.

(** ** Server commands *)

(** [schedule_command] on the committed and on the predicted state. *)
Definition schedule_both (e : GameEngine) (m : GameCommandMessage) : GameEngine :=
  let e := with_committed (schedule_command (committed_state e) m) e in
  with_predicted ((fun s => schedule_command s m) <$> predicted_state e) e.

Definition process_command (e : GameEngine) (m : GameCommandMessage)
  : Result GameCommandMessage * GameEngine :=
  let server_scheduled_tick :=
    Z.max (cid_tick (command_id_client m)) (current_tick (committed_state e)) in
  let received_order := command_counter e in
  let e := with_counter (wrap_u32 (command_counter e + 1)) e in
  let cmd := mkMsg (command_id_client m)
    (Some (mkCommandId server_scheduled_tick (cid_user_id (command_id_client m))
             received_order)) (command m) in
  (Ok cmd, schedule_both e cmd).

(** The catch-up of the checkpoint to the tick of acceptance. *)
Fixpoint replay_ticks `{F32Libm} (fuel : nat) (st : GameState) (target : Z)
  : option (Result unit * GameState) :=
  if current_tick st <? target then
    if is_complete st
    then Some (Err "replayed command was accepted after the recovered game completed", st)
    else match fuel with
    | O => None
    | S fuel =>
        match tick_forward false st with
        | (Ok _, st', _) => replay_ticks fuel st' target
        | (r, st', _) => Some (recast r, st')
        end
    end
  else Some (Ok tt, st).

Definition check_replay (e : GameEngine) (m : GameCommandMessage) (scheduled_at : Z)
  : Result unit :=
  server_id ← context "replayed server command has no server ID" (command_id_server m);
  ensure (cid_sequence_number server_id =? command_counter e)
    "replayed server command sequence does not match next sequence" ;;
  ensure (cid_user_id server_id =? cid_user_id (command_id_client m))
    "replayed server command user identity does not match" ;;
  ensure (negb (cid_tick server_id <? current_tick (committed_state e)))
    "replayed server command tick predates checkpoint tick" ;;
  ensure (negb ((scheduled_at <? current_tick (committed_state e))
                || (cid_tick server_id <? scheduled_at)))
    "replayed command activity tick must be between checkpoint tick and scheduled tick".

Definition replay_scheduled_command `{F32Libm} (fuel : nat) (e : GameEngine)
    (m : GameCommandMessage) (scheduled_at : Z) : option (Result unit * GameEngine) :=
  match check_replay e m scheduled_at with
  | Ok _ =>
      match replay_ticks fuel (committed_state e) scheduled_at with
      | None => None
      | Some (Ok _, st) =>
          let e := with_committed st e in
          let e := with_predicted (Some (with_rng None (committed_state e))) e in
          match checked_add_u32 (command_counter e) 1 with
          | None => Some (Err "server command sequence overflow", e)
          | Some counter => Some (Ok tt, schedule_both (with_counter counter e) m)
          end
      | Some (r, st) => Some (r, with_committed st e)
      end
  | r => Some (r, e)
  end.

(** ** Queries *)

Definition get_predicted_tick (e : GameEngine) : Z :=
  match predicted_state e with
  | Some s => current_tick s
  | None => current_tick (committed_state e)
  end.

Definition committed_sync_hash (e : GameEngine) : Result Z := sync_hash (committed_state e).

Definition clear_needs_resync (e : GameEngine) : GameEngine :=
  with_sync (set_needs_resync false (sync_status e)) e.
