(* ===== verification/EngineFacts.v ===== *)
(** * The engine's loops, prediction and reconciliation

    Enough fuel for the loops of [Engine], the runs they perform on states in
    the invariant, the loop that has no end, and the bookkeeping lemmas behind
    the theorems on server events. *)

From Stdlib Require Import ZArith.
From stdpp Require Import prelude strings countable list gmap sorting relations.
From S2P Require Import Prelude RustFloat Util Snake SnakeFacts Arena CommandQueue GameState.
From S2P Require Import GameSetup Events Validate Tick MeterInvariant StateInvariant.
From S2P Require Import TickInvariant OutcomeInvariant Validity MatchLife EventOrder.
From S2P Require Import Fingerprint FingerprintFacts Engine.
Open Scope Z_scope.

Section Loops.
  Context `{F32Libm}.

(** One quantum of a state in the invariant. *)
Lemma life_tick mo st :
  life_ok st -> is_complete st = false -> 0 <= gs_tick st -> gs_tick st + 1 < u32_max ->
  exists out st' obs, tick_forward mo st = (Ok out, st', obs)
    /\ life_ok st' /\ gs_tick st' = gs_tick st + 1
    /\ skeleton st' = skeleton st /\ epoch_fields st' = epoch_fields st.
Proof.
  intros L Hc H0 H1. pose proof L as (Hs & HK & T & Ho & HT).
  assert (T = gs_tick st) as ->.
  { destruct HT as [?|[_ Hm]]; [done|]. destruct Ho as (kl & _ & Hk & _).
    apply (ok_completed Hk) in Hm. congruence. }
  destruct (tick_forward_ok (skeleton st) HK mo (gs_tick st) st Ho Hc H0 H1)
    as (out & st' & obs & E & Et & Hend).
  exists out, st', obs. split; [done|]. split; [|split; [done|]].
  - apply (life_step st); [|done]. by eapply step_tick.
  - split; [|by eapply tick_keeps_epoch].
    destruct Hend as [(kl & _ & Hk & _)|((kl & _ & Hk & _) & _)]; apply (ok_skel Hk).
Qed.

Lemma run_state_life fuel mo st target :
  life_ok st -> 0 <= gs_tick st -> target < u32_max ->
  (Z.to_nat (target - gs_tick st) <= fuel)%nat ->
  exists st', run_state fuel mo st target = Some (Ok tt, st') /\ life_ok st'
    /\ (is_complete st' = true \/ target <= gs_tick st')
    /\ gs_tick st <= gs_tick st' <= Z.max target (gs_tick st)
    /\ skeleton st' = skeleton st /\ epoch_fields st' = epoch_fields st.
Proof.
  revert st. induction fuel as [|fuel IH]; intros st L H0 Hu Hf; cbn [run_state].
  all: unfold current_tick; destruct (is_complete st) eqn:Ec; cbn [negb andb].
  all: try (exists st; split; [done|]; split; [done|]; split; [by left|];
    split; [lia|done]).
  all: destruct (Z.ltb_spec (gs_tick st) target) as [Hlt|Hge]; [|exists st;
    split; [done|]; split; [done|]; split; [by right|]; split; [lia|done]].
  - lia.
  - destruct (life_tick mo st L Ec H0 ltac:(lia)) as (out & st1 & obs & -> & L1 & Et & Ek & Ee).
    destruct (IH st1 L1 ltac:(lia) Hu ltac:(lia)) as (st' & E & L' & Hd & Ht & Ek' & Ee').
    exists st'. split; [done|]. split; [done|]. split; [done|]. split; [lia|].
    split; congruence.
Qed.

(** The committed loop also numbers its events across quanta. *)
Lemma run_committed_life fuel st target out obs s0 :
  life_ok st -> 0 <= gs_tick st -> target < u32_max ->
  (Z.to_nat (target - gs_tick st) <= fuel)%nat ->
  is_u64 s0 -> (fun o => o.1.2) <$> out = numbers s0 (length out) ->
  gs_event_sequence st = wrap_u64 (s0 + vec_len out) ->
  exists out' st' obs', run_committed fuel st target out obs = Some (Ok out', st', obs')
    /\ life_ok st' /\ (is_complete st' = true \/ target <= gs_tick st')
    /\ gs_tick st <= gs_tick st' <= Z.max target (gs_tick st)
    /\ (fun o => o.1.2) <$> out' = numbers s0 (length out')
    /\ skeleton st' = skeleton st /\ epoch_fields st' = epoch_fields st.
Proof.
  revert st out obs. induction fuel as [|fuel IH]; intros st out obs L H0 Hu Hf Hs0 Hn Hc;
    cbn [run_committed].
  all: unfold current_tick; destruct (is_complete st) eqn:Ec; cbn [negb andb].
  all: try (exists out, st, obs; split; [done|]; split; [done|]; split; [by left|];
    split; [lia|done]).
  all: destruct (Z.ltb_spec (gs_tick st) target) as [Hlt|Hge]; [|exists out, st, obs;
    split; [done|]; split; [done|]; split; [by right|]; split; [lia|done]].
  - lia.
  - destruct (life_tick false st L Ec H0 ltac:(lia)) as (ev & st1 & seen & E1 & L1 & Et & Ek & Ee).
    rewrite E1.
    apply tick_numbers in E1 as [Hl1 Hc1]; [|rewrite Hc; apply wrap_u64_range].
    cbn [fst snd] in *. set (out1 := out ++ (label (gs_tick st1) <$> ev)).
    assert (Hseq : (fun o : Z * Z * GameEvent => o.1.2) <$> out1 = numbers s0 (length out1)).
    { unfold out1. rewrite fmap_app, Hn, length_app, length_fmap, <- list_fmap_compose.
      assert (E : (fun o : Z * Z * GameEvent => o.1.2) ∘ label (gs_tick st1) <$> ev = ev.*1).
      { apply list_fmap_ext. by intros i [? ?] _. }
      by rewrite E, Hl1, Hc, numbers_app. }
    destruct (IH st1 out1 (obs ++ seen) L1 ltac:(lia) Hu ltac:(lia) Hs0 Hseq)
      as (out' & st' & obs' & E' & L' & Hd & Ht & Hn' & Ek' & Ee').
    { rewrite Hc1, Hc. unfold out1, vec_len, wrap_u64. rewrite Zplus_mod_idemp_l.
      rewrite length_app, length_fmap. f_equal. lia. }
    exists out', st', obs'. split; [done|]. split; [done|]. split; [done|].
    split; [lia|]. split; [done|]. split; congruence.
Qed.

(** ** Catching up *)

(** On a finished match [tick_forward] returns without advancing, so the loop
    of the catch-up never reaches a later tick. *)
Lemma catch_up_complete fuel st target :
  is_complete st = true -> gs_tick st < target -> catch_up fuel st target = None.
Proof.
  intros Hc Ht. induction fuel as [|fuel IH]; cbn [catch_up]; unfold current_tick;
    rewrite (proj2 (Z.ltb_lt _ _) Ht); [done|].
  unfold tick_forward. by rewrite Hc.
Qed.

Lemma catch_up_dichotomy n st target :
  life_ok st -> 0 <= gs_tick st -> target < u32_max ->
  n = Z.to_nat (target - gs_tick st) ->
  (exists st', catch_up n st target = Some (Ok st') /\ life_ok st'
               /\ gs_tick st' = Z.max target (gs_tick st))
  \/ forall fuel, catch_up fuel st target = None.
Proof.
  revert st. induction n as [|n IH]; intros st L H0 Hu Hn.
  { left. exists st. cbn [catch_up]. unfold current_tick.
    rewrite (proj2 (Z.ltb_ge _ _)) by lia. split; [done|]. split; [done|lia]. }
  assert (Hlt : gs_tick st < target) by lia.
  destruct (is_complete st) eqn:Ec.
  { right. intros fuel. by apply catch_up_complete. }
  destruct (life_tick true st L Ec H0 ltac:(lia)) as (out & st1 & obs & E & L1 & Et & _).
  destruct (IH st1 L1 ltac:(lia) Hu ltac:(lia)) as [(st' & E' & L' & Et')|Hdiv].
  - left. exists st'. cbn [catch_up]. unfold current_tick.
    rewrite (proj2 (Z.ltb_lt _ _) Hlt), E. split; [done|]. split; [done|lia].
  - right. intros [|fuel]; cbn [catch_up]; unfold current_tick;
      rewrite (proj2 (Z.ltb_lt _ _) Hlt); [done|]. by rewrite E.
Qed.

(** ** The whole engine *)

(** Both states of the engine are in the invariant. *)
Record eng_ok (e : GameEngine) : Prop := {
  eo_committed : life_ok (committed_state e);
  eo_tick : 0 <= gs_tick (committed_state e);
  eo_predicted : forall p, predicted_state e = Some p -> life_ok p /\ 0 <= gs_tick p
}.

Lemma life_rng st r : life_ok st -> life_ok (with_rng r st).
Proof.
  intros (Hs & HK & T & (kl & Hkl & Hk & Hf) & HT).
  split; [done|]. split; [done|]. exists T. split; [|done].
  exists kl. split; [done|]. split; [ok_frame Hk|done].
Qed.

Lemma schedule_tick st m : gs_tick (schedule_command st m) = gs_tick st.
Proof.
  unfold schedule_command, record_player_activity_for_command.
  repeat (case_match; try done).
Qed.

Lemma life_schedule st m : life_ok st -> life_ok (schedule_command st m).
Proof. intros L. apply (life_step st); [constructor|done]. Qed.

Lemma life_seed e :
  eng_ok e -> life_ok (prediction_seed e)
              /\ gs_tick (prediction_seed e) = gs_tick (committed_state e).
Proof.
  intros [L _ _]. unfold prediction_seed.
  assert (Hg : forall l st, life_ok st -> life_ok (foldl schedule_command st l)
                            /\ gs_tick (foldl schedule_command st l) = gs_tick st).
  { intros l. induction l as [|m l IH]; intros st Ls; [done|]. cbn.
    destruct (IH (schedule_command st m)) as [L' E]; [by apply life_schedule|].
    split; [done|]. by rewrite E, schedule_tick. }
  apply (Hg (speculative_commands e) (with_rng None (committed_state e))). by apply life_rng.
Qed.

Lemma eng_reanchor e : eng_ok e -> eng_ok (reanchor e).
Proof.
  intros [L Ht _]. split; try done. intros p [= <-]. split; [by apply life_rng|done].
Qed.

(** The wall-clock target of an engine. *)
Definition wallclock_target (e : GameEngine) (epoch ts : Z) : Z :=
  wrap_u32 (i64_sub ts epoch ÷ gs_tick_duration_ms (committed_state e)).

Lemma rebuild_safe fuel e ts epoch :
  eng_ok e -> simulation_start_ms (committed_state e) = Some epoch ->
  gs_tick_duration_ms (committed_state e) <> 0 ->
  wallclock_target e epoch ts < u32_max ->
  (Z.to_nat (wallclock_target e epoch ts) <= fuel)%nat ->
  exists e', rebuild_predicted_state fuel e ts = Some (Ok tt, e') /\ eng_ok e'
    /\ committed_state e' = committed_state e
    /\ (predicted_state e' = predicted_state e
        \/ exists p, predicted_state e' = Some p
           /\ gs_tick p <= Z.max (gs_tick (committed_state e)) (max_predicted_tick e)).
Proof.
  intros Ho Hep Hms Hu Hf. unfold rebuild_predicted_state. rewrite Hep. cbv zeta.
  assert (Hre : exists e', Some (Ok tt, reanchor e) = Some (Ok tt, e') /\ eng_ok e'
    /\ committed_state e' = committed_state e
    /\ (predicted_state e' = predicted_state e
        \/ exists p, predicted_state e' = Some p
           /\ gs_tick p <= Z.max (gs_tick (committed_state e)) (max_predicted_tick e))).
  { eexists. split; [done|]. split; [by apply eng_reanchor|]. split; [done|].
    right. eexists. split; [done|]. cbn. lia. }
  destruct (_ <? 0).
  { destruct (prediction_needs_rebuild e); [done|]. exists e. auto. }
  rewrite (proj2 (Z.eqb_neq _ _) Hms). destruct (is_complete (committed_state e)); [done|].
  change (wrap_u32 (i64_sub ts epoch ÷ gs_tick_duration_ms (committed_state e)))
    with (wallclock_target e epoch ts).
  destruct (_ || _); [|exists e; auto].
  destruct (life_seed e Ho) as [Ls Et].
  destruct (run_state_life fuel false (prediction_seed e)
    (Z.min (wallclock_target e epoch ts) (max_predicted_tick e)))
    as (st & -> & Lst & _ & Ht & _); [done|rewrite Et; apply Ho|lia|..].
  { pose proof (eo_tick e Ho). lia. }
  eexists. split; [done|]. split; [|split; [done|]].
  - destruct Ho as [L Ht0 _]. split; try done. intros p [= <-]. split; [done|lia].
  - right. eexists. split; [done|]. rewrite Et in Ht. lia.
Qed.

Lemma predicted_safe fuel e target :
  eng_ok e -> target < u32_max -> (Z.to_nat target <= fuel)%nat ->
  exists e', run_predicted fuel e target = Some (Ok tt, e') /\ eng_ok e'
    /\ committed_state e' = committed_state e
    /\ forall p', predicted_state e' = Some p' ->
       (is_complete p' = true \/ target <= gs_tick p')
       /\ exists p, predicted_state e = Some p /\ gs_tick p' <= Z.max target (gs_tick p).
Proof.
  intros Ho Hu Hf. unfold run_predicted. destruct (predicted_state e) as [p|] eqn:Ep.
  - destruct (eo_predicted e Ho p Ep) as [Lp Hp].
    destruct (run_state_life fuel true p target Lp Hp Hu) as (p' & -> & Lp' & Hd & Ht & _).
    { lia. }
    eexists. split; [done|]. split; [|split; [done|]].
    + destruct Ho. split; try done. intros q [= <-]. split; [done|lia].
    + intros q [= <-]. split; [exact Hd|]. exists p. split; [done|lia].
  - exists e. split; [done|]. split; [done|]. split; [done|]. congruence.
Qed.

Lemma skeleton_tick_ms st st' :
  skeleton st' = skeleton st -> gs_tick_duration_ms st' = gs_tick_duration_ms st.
Proof.
  intros E. change (tick_duration_ms (sk_props (skeleton st'))
                    = tick_duration_ms (sk_props (skeleton st))). by rewrite E.
Qed.

Lemma epoch_start st st' :
  epoch_fields st' = epoch_fields st -> simulation_start_ms st' = simulation_start_ms st.
Proof. unfold epoch_fields, simulation_start_ms. by intros [= -> -> ->]. Qed.

Lemma rebuild_lag fuel e ts r e' :
  rebuild_predicted_state fuel e ts = Some (r, e') ->
  committed_state_lag_ms e' = committed_state_lag_ms e.
Proof.
  unfold rebuild_predicted_state. cbv zeta. destruct (_ <? 0).
  { destruct (prediction_needs_rebuild e); by intros [= _ <-]. }
  destruct (_ =? 0); [by intros [= _ <-]|].
  destruct (is_complete _); [by intros [= _ <-]|].
  destruct (_ || _); [|by intros [= _ <-]].
  destruct (run_state _ _ _ _) as [[[] ?]|]; try done; by intros [= _ <-].
Qed.

Lemma predicted_lag fuel e target r e' :
  run_predicted fuel e target = Some (r, e') ->
  committed_state_lag_ms e' = committed_state_lag_ms e.
Proof.
  unfold run_predicted. destruct (predicted_state e); [|by intros [= _ <-]].
  destruct (run_state _ _ _ _) as [[? ?]|]; [|done]. by intros [= _ <-].
Qed.

Lemma maybe_rebuild_safe fuel e ts epoch :
  eng_ok e -> simulation_start_ms (committed_state e) = Some epoch ->
  gs_tick_duration_ms (committed_state e) <> 0 -> wallclock_target e epoch ts < u32_max ->
  (Z.to_nat (wallclock_target e epoch ts) <= fuel)%nat ->
  exists e', (if prediction_needs_rebuild e
              then rebuild_predicted_state fuel e ts else Some (Ok tt, e)) = Some (Ok tt, e')
    /\ eng_ok e' /\ committed_state e' = committed_state e
    /\ committed_state_lag_ms e' = committed_state_lag_ms e
    /\ (predicted_state e' = predicted_state e
        \/ exists p, predicted_state e' = Some p
           /\ gs_tick p <= Z.max (gs_tick (committed_state e)) (max_predicted_tick e)).
Proof.
  intros Ho Hep Hms Hu Hf. destruct (prediction_needs_rebuild e); [|exists e; split_and!; auto].
  destruct (rebuild_safe fuel e ts epoch) as (e' & E & Ho' & Ec & Hp); [done..|].
  exists e'. split; [done|]. split; [done|]. split; [done|]. split; [by eapply rebuild_lag|done].
Qed.

(** A call of [run_until] on an engine in the invariant: it returns, without
    error, an engine in the invariant; the committed state is at the lagged
    target, or where it was if that is later, or before it at the end of the
    match; the events of the call are numbered consecutively; prediction reaches
    the wall clock or the end of its window, and not more. *)
Lemma run_until_safe fuel e ts epoch :
  let lagged := sat_sub (wallclock_target e epoch ts)
                  (committed_state_lag_ms e / gs_tick_duration_ms (committed_state e)) in
  let reached := Z.max lagged (gs_tick (committed_state e)) in
  eng_ok e -> simulation_start_ms (committed_state e) = Some epoch ->
  0 <= i64_sub ts epoch -> gs_tick_duration_ms (committed_state e) <> 0 ->
  wallclock_target e epoch ts < u32_max ->
  0 <= committed_state_lag_ms e / gs_tick_duration_ms (committed_state e) ->
  is_u64 (gs_event_sequence (committed_state e)) ->
  (Z.to_nat (wallclock_target e epoch ts) <= fuel)%nat ->
  exists out e', run_until fuel e ts = Some (Ok out, e') /\ eng_ok e'
    /\ gs_tick (committed_state e) <= gs_tick (committed_state e') <= reached
    /\ (is_complete (committed_state e') = true \/ gs_tick (committed_state e') = reached)
    /\ (fun o => o.1.2) <$> out
       = numbers (gs_event_sequence (committed_state e)) (length out)
    /\ forall p', predicted_state e' = Some p' ->
       (is_complete p' = true \/ Z.min (wallclock_target e epoch ts) (max_predicted_tick e') <= gs_tick p')
       /\ (gs_tick p' <= Z.max (max_predicted_tick e') (gs_tick (committed_state e'))
           \/ exists p, predicted_state e = Some p /\ gs_tick p' <= gs_tick p).
Proof.
  intros lt reached Ho Hep Hel Hms Hu Hlag Hseq Hf. unfold run_until, run_until_observing_boost.
  rewrite Hep. rewrite (proj2 (Z.ltb_ge _ _) Hel), (proj2 (Z.eqb_neq _ _) Hms).
  change (wrap_u32 (i64_sub ts epoch ÷ gs_tick_duration_ms (committed_state e)))
    with (wallclock_target e epoch ts).
  set (w := wallclock_target e epoch ts) in *. fold lt.
  assert (Hlt : lt <= Z.max 0 w) by (unfold lt, sat_sub; lia).
  destruct (run_committed_life fuel (committed_state e) lt [] []
    (gs_event_sequence (committed_state e))) as
    (out & st & obs & -> & L & Hd & Ht & Hn & Ek & Ee); try done; try apply Ho.
  { unfold u32_max in *. lia. } { pose proof (eo_tick e Ho). lia. }
  { cbn. by rewrite Z.add_0_r, wrap_u64_id. }
  set (e1 := with_committed st e).
  assert (Ho1 : eng_ok e1).
  { destruct Ho. split; try done. unfold e1. cbn. lia. }
  assert (Hms1 : gs_tick_duration_ms (committed_state e1)
                 = gs_tick_duration_ms (committed_state e)) by by apply skeleton_tick_ms.
  assert (Hw1 : wallclock_target e1 epoch ts = w) by (unfold wallclock_target; by rewrite Hms1).
  destruct (maybe_rebuild_safe fuel e1 ts epoch) as (e2 & E2 & Ho2 & Ec2 & El2 & Hp2);
    [done|by rewrite <- Hep; apply epoch_start|by rewrite Hms1|by rewrite Hw1|by rewrite Hw1|].
  rewrite E2.
  assert (Hmax : max_predicted_tick e2 = max_predicted_tick e1).
  { unfold max_predicted_tick. by rewrite Ec2, El2. }
  destruct (predicted_safe fuel e2 (Z.min w (max_predicted_tick e2)))
    as (e3 & E3 & Ho3 & Ec3 & Hp3); [done|lia|lia|].
  rewrite E3. exists out, e3. split; [done|]. split; [done|]. rewrite Ec3, Ec2.
  assert (Hmax3 : max_predicted_tick e3 = max_predicted_tick e2).
  { unfold max_predicted_tick. by rewrite Ec3, (predicted_lag _ _ _ _ _ E3). }
  split; [cbn; unfold reached; lia|]. split; [|split; [done|]].
  { destruct Hd as [?|Hd]; [by left|right]. cbn. unfold reached. lia. }
  intros p' Hp'. destruct (Hp3 p' Hp') as (Hlow & p & Ep & Hle). rewrite Hmax3. split; [exact Hlow|]. rewrite Hmax.
  destruct Hp2 as [E|(q & Eq & Hq)].
  - destruct (decide (gs_tick p' <= gs_tick p)) as [?|?].
    + right. exists p. rewrite <- Ep, E. done.
    + left. rewrite Hmax in Hle. lia.
  - left. rewrite Ep in Eq. injection Eq as ->. rewrite Hmax in Hle. lia.
Qed.

End Loops.

(** ** One server message *)

Section Messages.
Context `{F32Libm}.

(** A step on the engine's bookkeeping keeps what the players see. *)
Definition same_game_view (e e' : GameEngine) : Prop :=
  committed_state e' = committed_state e /\ predicted_state e' = predicted_state e
  /\ speculative_commands e' = speculative_commands e
  /\ prediction_needs_rebuild e' = prediction_needs_rebuild e
  /\ command_counter e' = command_counter e.

Lemma commit_ok e m st : exists e', commit_candidate e m st = (Ok tt, e').
Proof.
  unfold commit_candidate. destruct (sync_hash_total st) as (h & -> & _).
  destruct (em_event m); eauto; by case_match; eauto.
Qed.

(** What a commit does to the transport accounting. *)
Lemma commit_sync e m st r e' :
  is_snapshot_event (em_event m) = false -> commit_candidate e m st = (r, e') ->
  last_stream_seq (sync_status e') = last_stream_seq (sync_status e)
  /\ missed_messages (sync_status e') = missed_messages (sync_status e)
  /\ (needs_resync (sync_status e) = true -> needs_resync (sync_status e') = true).
Proof.
  intros Hn. unfold commit_candidate. destruct (sync_hash_total st) as (h & -> & _).
  destruct (em_event m) as [| | | | | | | | |? ? o o'| | | | | | | |hash ts]; try done;
    try (intros [= _ <-]; done).
  - intros [= _ <-]. cbn. by destruct o as [id|]; [destruct o'|].
  - intros [= _ <-]. unfold note_probe. cbn. destruct (h =? hash); [done|]. cbn.
    split; [done|]. split; [done|]. by intros ->.
Qed.

Lemma account_some s seq b s' :
  account_stream s seq b = Some s' -> 0 < seq -> last_stream_seq s' = seq.
Proof.
  intros Ha Hs. unfold account_stream in Ha. rewrite (proj2 (Z.ltb_lt _ _) Hs) in Ha.
  destruct (b || (last_stream_seq s =? 0)); [by injection Ha as <-|].
  destruct (seq <=? last_stream_seq s); [done|]. by injection Ha as <-.
Qed.

Lemma note_tick_sync s t :
  last_stream_seq (note_server_tick s t) = last_stream_seq s
  /\ missed_messages (note_server_tick s t) = missed_messages s
  /\ needs_resync (note_server_tick s t) = needs_resync s.
Proof. unfold note_server_tick. by destruct (last_server_tick s <? t). Qed.

(** Everything [process_server_event] can do with a message that is not a
    snapshot. *)
Lemma process_cases fuel e m r e' :
  is_snapshot_event (em_event m) = false ->
  process_server_event fuel e m = Some (r, e') ->
  (account_stream (sync_status e) (em_stream_seq m) false = None
   /\ r = Ok tt /\ e' = with_sync (skip_stale (sync_status e)) e)
  \/ exists s, account_stream (sync_status e) (em_stream_seq m) false = Some s
     /\ let e1 := with_sync (note_server_tick s (em_tick m)) e in
        (r <> Ok tt /\ e' = ask_resync e1)
        \/ (r = Ok tt /\ exists st, commit_candidate e1 m st = (r, e')).
Proof.
  intros Hn. unfold process_server_event. rewrite Hn.
  assert (admit_snapshot m = Ok tt) as ->.
  { unfold admit_snapshot. by destruct (em_event m). }
  destruct (account_stream _ _ _) as [s|]; [|intros [= <- <-]; by left].
  intros E. right. exists s. split; [done|]. cbv zeta.
  set (e1 := with_sync _ e) in *.
  destruct (advance_and_apply_replicated_message fuel (committed_state e1) m) as [[st|x|x]|];
    [| | |done].
  - right. destruct (commit_ok e1 m st) as [e2 E2]. rewrite E2 in E. injection E as <- <-.
    eauto.
  - left. by injection E as <- <-.
  - left. by injection E as <- <-.
Qed.

Lemma process_seq fuel e m r e' :
  is_snapshot_event (em_event m) = false -> 0 < em_stream_seq m ->
  process_server_event fuel e m = Some (r, e') ->
  0 < last_stream_seq (sync_status e') /\ em_stream_seq m <= last_stream_seq (sync_status e').
Proof.
  intros Hn Hs E. destruct (process_cases fuel e m r e' Hn E) as [(Ha & _ & ->)|(s & Ha & Hc)].
  - unfold account_stream in Ha. rewrite (proj2 (Z.ltb_lt _ _) Hs) in Ha. cbn [orb] in Ha.
    destruct (Z.eqb_spec (last_stream_seq (sync_status e)) 0); [done|].
    destruct (Z.leb_spec (em_stream_seq m) (last_stream_seq (sync_status e))); [|done].
    cbn. lia.
  - apply account_some in Ha; [|done]. assert (Hl : last_stream_seq (sync_status e') = em_stream_seq m).
    { destruct (note_tick_sync s (em_tick m)) as (E1 & _).
      destruct Hc as [[_ ->]|(_ & st & Hc)]; [cbn; congruence|].
      apply commit_sync in Hc as [-> _]; [|done]. cbn. congruence. }
    lia.
Qed.

End Messages.

(** ** Recovery *)

Section Recovery.
Context `{F32Libm}.

Lemma check_replay_ok e m t i :
  command_id_server m = Some i -> cid_sequence_number i = command_counter e ->
  cid_user_id i = cid_user_id (command_id_client m) ->
  gs_tick (committed_state e) <= t <= cid_tick i -> check_replay e m t = Ok tt.
Proof.
  intros Hi Hs Hu Ht. unfold check_replay, current_tick. rewrite Hi. cbn.
  rewrite Hs, Hu, !Z.eqb_refl, !(proj2 (Z.ltb_ge _ _)) by lia. done.
Qed.

(** The recovery loop runs the quanta of the authoritative loop. *)
Lemma replay_ticks_run fuel st target out obs out' st' obs' :
  run_committed fuel st target out obs = Some (Ok out', st', obs') ->
  target <= gs_tick st' -> replay_ticks fuel st target = Some (Ok tt, st').
Proof.
  revert st out obs. induction fuel as [|fuel IH]; intros st out obs;
    cbn [run_committed replay_ticks]; unfold current_tick.
  - destruct (is_complete st) eqn:Ec; cbn [negb andb].
    + intros [= _ <- _] Ht. by rewrite (proj2 (Z.ltb_ge _ _)).
    + destruct (gs_tick st <? target); [done|]. by intros [= _ <- _].
  - destruct (is_complete st) eqn:Ec; cbn [negb andb].
    + intros [= _ <- _] Ht. by rewrite (proj2 (Z.ltb_ge _ _)).
    + destruct (gs_tick st <? target); [|by intros [= _ <- _]].
      destruct (tick_forward false st) as [[[ev|x|x] st1] seen]; [|done..]. apply IH.
Qed.

End Recovery.
