(* ===== verification/MatchTheorems.v ===== *)
(** * Theorems on the life of a match

    Creation, every reachable state, every quantum, the numbering of events,
    and the terminal state that inactivity can produce. *)

From Stdlib Require Import ZArith.
From stdpp Require Import prelude strings countable list gmap sorting relations.
From S2P Require Import Prelude RustFloat Util Snake SnakeFacts SnakeTheorems Arena.
From S2P Require Import CommandQueue GameState GameSetup Events Validate Tick MeterInvariant.
From S2P Require Import StateInvariant TickInvariant OutcomeInvariant Validity.
From S2P Require Import MatchLife EventOrder.
Open Scope Z_scope.

(** ** A sample duel *)

Definition lobby : GameState := new_game_state 60 40 (TeamMatch 1) Quickmatch (Some 7) 0.

(** Two players joined, the match started. *)
Definition one_player : GameState := snd (add_player lobby 1 None).
Definition two_players : GameState := snd (add_player one_player 2 None).
Definition duel : GameState := apply_event (Ev_StatusUpdated (Started 9)) two_players.

Lemma lobby_creatable : creatable 60 40 (TeamMatch 1).
Proof. unfold creatable, i16_max. lia. Qed.

Lemma duel_run : rtc (@match_step identity_libm) lobby duel.
Proof.
  eapply rtc_l; [eapply (@step_join identity_libm lobby 1 None None)|].
  { vm_compute. reflexivity. }
  eapply rtc_l; [eapply (@step_join identity_libm one_player 2 None None)|].
  { vm_compute. reflexivity. }
  eapply rtc_l; [|apply rtc_refl]. by apply (@step_start identity_libm two_players 9).
Qed.

Lemma life_run `{F32Libm} st st' : rtc match_step st st' -> life_ok st -> life_ok st'.
Proof. induction 1; [done|]. intros L. by eauto using life_step. Qed.

(** ** Reachable states *)

(** C1. Every state a match goes through, from its creation, through joins,
    spectators, readiness, the start, scheduled commands and any number of
    quanta, is well formed and passes [validate_boost_invariants]. The one
    exception the code has is a match that inactivity ended, in which a Boost
    pad may still carry a cooldown that ends at exactly the terminal tick. *)
Theorem reachable_states_validate `{F32Libm} w h g q seed ms st :
  creatable w h g -> rtc match_step (new_game_state w h g q seed ms) st ->
  wf_state st
  /\ (validate_boost_invariants st = Ok tt
      \/ gs_completed_by_inactivity st = true
         /\ exists pad, pad ∈ gs_pads st /\ pad_respawn_at_tick pad = Some (gs_tick st)).
Proof.
  intros Hc Hr. assert (L : life_ok st) by by apply (life_run _ _ Hr), life_new.
  split; [by apply life_wf|by apply life_valid_or_due].
Qed.

Lemma reachable_states_validate_witness : wf_state duel /\ duel <> lobby.
Proof.
  split.
  - apply (@reachable_states_validate identity_libm 60 40 (TeamMatch 1) Quickmatch (Some 7) 0 duel).
    + exact lobby_creatable.
    + exact duel_run.
  - intros E. apply (f_equal (fun st => length (gs_snakes st))) in E. vm_compute in E.
    discriminate.
Defined.

(** C2. A quantum of a reachable running match never returns an error and
    never panics: no empty body, no movement credit overflow, no player
    without a snake, no clamp with reversed bounds. The tick advances by
    exactly one. *)
Theorem reachable_quantum_succeeds `{F32Libm} w h g q seed ms st movement_only :
  creatable w h g -> rtc match_step (new_game_state w h g q seed ms) st ->
  is_complete st = false -> 0 <= gs_tick st -> gs_tick st + 1 < u32_max ->
  exists out st' obs,
    tick_forward movement_only st = (Ok out, st', obs) /\ gs_tick st' = gs_tick st + 1.
Proof.
  intros Hc Hr Hn H0 H1. assert (L : life_ok st) by by apply (life_run _ _ Hr), life_new.
  pose proof L as (Hs & HK & T & Ho & HT). assert (T = gs_tick st) as ->.
  { destruct HT as [?|[_ Hm]]; [done|]. destruct Ho as (kl & _ & Hk & _).
    apply (ok_completed Hk) in Hm. congruence. }
  destruct (tick_forward_ok (skeleton st) HK movement_only (gs_tick st) st Ho Hn H0 H1)
    as (out & st' & obs & E & Et & _). eauto.
Qed.

Lemma reachable_quantum_succeeds_witness :
  exists out st' obs, @tick_forward identity_libm false duel = (Ok out, st', obs)
    /\ gs_tick st' = 1.
Proof.
  apply (@reachable_quantum_succeeds identity_libm 60 40 (TeamMatch 1) Quickmatch (Some 7) 0
           duel false).
  - exact lobby_creatable.
  - exact duel_run.
  - reflexivity.
  - vm_compute. discriminate.
  - vm_compute. reflexivity.
Defined.

(** [GameState::new] never panics on its closing validation: every mode,
    arena size, queue mode and seed gives a state that validates and, for a
    drawable arena, is well formed. *)
Theorem new_never_panics w h g q seed ms :
  exists st, GameState_new w h g q seed ms = Ok st
    /\ validate_boost_invariants st = Ok tt /\ (creatable w h g -> wf_state st).
Proof.
  exists (new_game_state w h g q seed ms). unfold GameState_new.
  pose proof (new_valid w h g q seed ms) as Hv. unfold valid in Hv. rewrite Hv.
  split; [done|]. split; [done|]. apply new_wf.
Qed.

(** The events of one quantum carry consecutive sequence numbers that
    continue the state's counter, and the counter ends at the last of them:
    a replica that counts detects any loss or reordering. *)
Theorem quantum_events_consecutive `{F32Libm} movement_only st out st' obs :
  is_u64 (gs_event_sequence st) -> tick_forward movement_only st = (Ok out, st', obs) ->
  out.*1 = numbers (gs_event_sequence st) (length out)
  /\ gs_event_sequence st' = wrap_u64 (gs_event_sequence st + vec_len out).
Proof. intros Hu E. by destruct (tick_numbers movement_only st out st' obs Hu E). Qed.

Lemma quantum_events_consecutive_witness :
  exists out st' obs, @tick_forward identity_libm false duel = (Ok out, st', obs)
    /\ out.*1 = numbers 0 (length out) /\ out <> [].
Proof.
  destruct (@tick_forward identity_libm false duel) as [[r st'] obs] eqn:E.
  destruct r as [out|e|e]; [|vm_compute in E; discriminate|vm_compute in E; discriminate].
  exists out, st', obs. split; [reflexivity|].
  destruct (@quantum_events_consecutive identity_libm false duel out st' obs) as [Hs _].
  - unfold is_u64, u64_max. vm_compute. split; discriminate.
  - exact E.
  - split; [exact Hs|]. intros ->. vm_compute in E. discriminate.
Defined.

(** ** The terminal state of an idle match *)

(** The duel at tick 1199 (59.95 s): the first user has been idle since the
    start, the second is active, and the pad the second collected at tick 1040
    returns at tick 1200. *)
Definition idle_duel : GameState :=
  with_pads (set_first_pad 0 1200 (gs_pads duel))
    (with_player_last_activity_ticks (<[2 := 1199]> (<[1 := 0]> ∅)) (with_tick 1199 duel)).

(** The quantum that removes the idle user ends the match before the pads
    are refreshed: a valid running state becomes a terminal state that
    [validate_boost_invariants] rejects. *)
Theorem idle_finish_can_fail_validation `{F32Libm} :
  validate_boost_invariants idle_duel = Ok tt
  /\ is_complete idle_duel = false
  /\ exists out st', tick_forward false idle_duel = (Ok out, st', [])
     /\ gs_status st' = Complete (Some 1)
     /\ gs_completed_by_inactivity st' = true
     /\ validate_boost_invariants st'
        = Err "Boost pad cooldown must point to a future absolute tick".
Proof.
  split; [vm_compute; reflexivity|]. split; [reflexivity|].
  eexists _, _. split; [unfold tick_forward; vm_compute; reflexivity|].
  split; [reflexivity|]. split; [reflexivity|]. vm_compute. reflexivity.
Qed.
