(* ===== verification/EngineTheorems.v ===== *)
(** * Theorems on the game engine

    The authoritative loop, the catch-up of a replica, the admission of server
    messages and the recovery of a server. *)

From Stdlib Require Import ZArith.
From stdpp Require Import prelude strings countable list gmap sorting relations.
From S2P Require Import Prelude RustFloat Util Snake SnakeFacts SnakeTheorems Arena.
From S2P Require Import CommandQueue GameState GameSetup Events Validate Tick MeterInvariant.
From S2P Require Import StateInvariant TickInvariant OutcomeInvariant Validity.
From S2P Require Import MatchLife EventOrder Fingerprint FingerprintFacts Engine EngineFacts.
From S2P Require Import MatchTheorems.
Open Scope Z_scope.

(** ** Sample engines *)

Definition duel_engine : GameEngine := from_validated_state 1 duel 0.

(** Both users idle since the start, as seen by a replica that lost a message:
    it has seen the messages up to 5. *)
Definition gap_duel : GameState :=
  with_player_last_activity_ticks (<[2 := 0]> (<[1 := 0]> ∅)) (with_tick 1199 duel).
Definition gap_engine : GameEngine :=
  with_sync {| SyncStatus_default with last_stream_seq := 5 |} (from_validated_state 1 gap_duel 0).

(** A server message of tick 1300 after the lost one. *)
Definition late_message : GameEventMessage :=
  mkGameEventMessage 1 1300 9 7 None (Ev_ScoreUpdated 0 3).

(** A message of tick 0 that follows the fifth. *)
Definition next_message : GameEventMessage :=
  mkGameEventMessage 1 0 1 6 None (Ev_ScoreUpdated 0 3).

Definition reachable `{F32Libm} (st : GameState) : Prop :=
  exists w h g q seed ms, creatable w h g /\ rtc match_step (new_game_state w h g q seed ms) st.

Lemma reachable_life `{F32Libm} st : reachable st -> life_ok st.
Proof.
  intros (w & h & g & q & seed & ms & Hc & Hr). by apply (life_run _ _ Hr), life_new.
Qed.

Lemma duel_reachable : @reachable identity_libm duel.
Proof.
  exists 60, 40, (TeamMatch 1), Quickmatch, (Some 7), 0. split; [exact lobby_creatable|exact duel_run].
Qed.

Lemma engine_ok `{F32Libm} game_id st n :
  reachable st -> 0 <= gs_tick st -> eng_ok (from_validated_state game_id st n).
Proof.
  intros Hr Ht. pose proof (reachable_life st Hr) as L. split; [done|done|].
  intros p [= <-]. split; [by apply life_rng|done].
Qed.

(** ** The authoritative loop *)

(** C15. A server that calls [run_until] on an engine built from a reachable
    state always gets its events: the call returns within as many quanta as
    the wall clock has ticks, never with an error or a panic; the committed
    state is then exactly at the lagged clock, half a second behind the wall
    clock, or where it was if that is later, unless the match ended on the way;
    the events are numbered without a gap; and the prediction has followed the
    wall clock to the end of its window at most, unless the match ended in it. *)
Theorem run_until_delivers `{F32Libm} fuel game_id st n ts epoch :
  let e := from_validated_state game_id st n in
  let tick_ms := gs_tick_duration_ms st in
  let clock := wrap_u32 (i64_sub ts epoch ÷ tick_ms) in
  let reached := Z.max (clock - 500 / tick_ms) (gs_tick st) in
  reachable st -> 0 <= gs_tick st -> 0 < tick_ms ->
  simulation_start_ms st = Some epoch -> 0 <= i64_sub ts epoch -> clock < u32_max ->
  is_u64 (gs_event_sequence st) -> (Z.to_nat clock <= fuel)%nat ->
  exists out e', run_until fuel e ts = Some (Ok out, e')
    /\ gs_tick st <= gs_tick (committed_state e') <= reached
    /\ (is_complete (committed_state e') = true \/ gs_tick (committed_state e') = reached)
    /\ (fun o => o.1.2) <$> out = numbers (gs_event_sequence st) (length out)
    /\ forall p, predicted_state e' = Some p ->
       (is_complete p = true \/ Z.min clock (max_predicted_tick e') <= gs_tick p)
       /\ gs_tick p <= Z.max (max_predicted_tick e') (gs_tick (committed_state e')).
Proof.
  intros e tick_ms clock reached Hr Ht Hms Hep Hel Hu Hseq Hf.
  destruct (run_until_safe fuel e ts epoch) as (out & e' & E & _ & Hb & Hd & Hn & Hp);
    [by apply engine_ok|done|done|unfold tick_ms in Hms; cbn; lia|done| |done|done|].
  { apply Z.div_pos; [done|exact Hms]. }
  assert (Hreach : Z.max (sat_sub (wallclock_target e epoch ts)
    (committed_state_lag_ms e / gs_tick_duration_ms (committed_state e))) (gs_tick (committed_state e)) = reached).
  { change (Z.max (sat_sub clock (500 / tick_ms)) (gs_tick st) = reached). unfold reached, sat_sub. lia. }
  rewrite Hreach in Hb, Hd. change (gs_tick st <= gs_tick (committed_state e') <= reached) in Hb.
  exists out, e'. split; [done|]. split; [exact Hb|]. split; [exact Hd|]. split; [exact Hn|].
  intros p Ep. destruct (Hp p Ep) as [Hlow Hhigh]. split; [exact Hlow|].
  destruct Hhigh as [?|(p0 & [= <-] & Hle)]; [done|]. change (gs_tick p <= gs_tick st) in Hle. lia.
Qed.

Lemma run_until_delivers_witness :
  exists out e', @run_until identity_libm 20 duel_engine 1000 = Some (Ok out, e')
    /\ out <> [].
Proof.
  destruct (@run_until_delivers identity_libm 20 1 duel 0 1000 0) as (out & e' & E & _ & Hd & _).
  - exact duel_reachable.
  - vm_compute. discriminate.
  - vm_compute. reflexivity.
  - reflexivity.
  - vm_compute. discriminate.
  - vm_compute. reflexivity.
  - vm_compute. split; discriminate.
  - vm_compute. repeat constructor.
  - exists out, e'. split; [exact E|]. intros ->. vm_compute in E. discriminate.
Defined.

(** ** Catching up *)

(** Before it applies a message a replica runs its state to the message's
    tick. From a reachable state this either succeeds, within as many quanta as
    ticks are missing and never with an error, at exactly the tick of the
    message, or it never returns at all. *)
Theorem catch_up_succeeds_or_diverges `{F32Libm} st target :
  reachable st -> 0 <= gs_tick st -> target < u32_max ->
  (exists st', catch_up (Z.to_nat (target - gs_tick st)) st target = Some (Ok st')
     /\ gs_tick st' = Z.max target (gs_tick st))
  \/ forall fuel, catch_up fuel st target = None.
Proof.
  intros Hr Ht Hu.
  destruct (catch_up_dichotomy _ st target (reachable_life st Hr) Ht Hu eq_refl)
    as [(st' & ? & _ & ?)|?]; eauto.
Qed.

Lemma catch_up_succeeds_or_diverges_witness :
  exists st', @catch_up identity_libm 3 duel 3 = Some (Ok st') /\ gs_tick st' = 3.
Proof.
  destruct (@catch_up_succeeds_or_diverges identity_libm duel 3) as [(st' & E & Et)|Hdiv].
  - exact duel_reachable.
  - vm_compute. discriminate.
  - vm_compute. reflexivity.
  - exists st'. split; [exact E|exact Et].
  - exfalso. specialize (Hdiv 3%nat). vm_compute in Hdiv. discriminate.
Defined.

(** The second case occurs: a replica that lost a message and therefore
    takes both users for idle ends the match in its own state while it catches
    up with the next server message, and [process_server_event] never returns,
    for no number of quanta: on a finished match [tick_forward] does not
    advance, and the catch-up loop does not look at the status. *)
Theorem catch_up_can_diverge `{F32Libm} fuel :
  validate_boost_invariants (committed_state gap_engine) = Ok tt
  /\ is_complete (committed_state gap_engine) = false
  /\ process_server_event fuel gap_engine late_message = None.
Proof.
  split; [vm_compute; reflexivity|]. split; [reflexivity|].
  assert (Hc : catch_up fuel gap_duel 1300 = None).
  { destruct fuel as [|fuel]; [reflexivity|]. cbn [catch_up].
    assert (E : exists out st', tick_forward true gap_duel = (Ok out, st', [])
                /\ is_complete st' = true /\ gs_tick st' = 1200).
    { eexists _, _. split; [unfold tick_forward; vm_compute; reflexivity|]. split; reflexivity. }
    destruct E as (out & st' & -> & Hs & Ht).
    change (current_tick gap_duel <? 1300) with true. cbv iota beta.
    apply catch_up_complete; [done|lia]. }
  unfold process_server_event. cbn [admit_snapshot late_message em_event].
  change (account_stream _ _ _) with (Some {| {| {| SyncStatus_default with last_stream_seq := 5 |}
    with stream_gap_count := 1; missed_messages := 1; needs_resync := true |}
    with last_stream_seq := 7 |}).
  cbv iota beta zeta. unfold advance_and_apply_replicated_message. cbn [em_event em_tick late_message].
  change (committed_state (with_sync _ gap_engine)) with gap_duel. by rewrite Hc.
Qed.

(** ** Server messages *)

(** A snapshot whose envelope names another tick than its state. *)
Definition torn_message : GameEventMessage := mkGameEventMessage 1 4 1 6 None (Ev_Snapshot duel).

(** C22. A server message that fails leaves the game alone: on every error path
    of [process_server_event] the committed and the predicted state, the
    pending local commands and the command counter are what they were, and the
    engine asks for a fresh snapshot. *)
Theorem failed_message_changes_nothing `{F32Libm} fuel e m r e' :
  process_server_event fuel e m = Some (r, e') -> r <> Ok tt ->
  same_game_view e e' /\ needs_resync (sync_status e') = true.
Proof.
  unfold process_server_event. intros E Hr.
  destruct (admit_snapshot m) as [[]|x|x]; [|by injection E as <- <-..].
  destruct (account_stream _ _ _) as [s|]; [|by injection E as <- <-].
  cbv zeta in E. set (e1 := with_sync (note_server_tick s (em_tick m)) e) in E.
  destruct (advance_and_apply_replicated_message fuel (committed_state e1) m) as [[st|x|x]|];
    [|by injection E as <- <-..|done].
  destruct (commit_ok e1 m st) as [e2 E2]. rewrite E2 in E. by injection E as <- <-.
Qed.

Lemma failed_message_changes_nothing_witness :
  exists r e', @process_server_event identity_libm 0 duel_engine torn_message = Some (r, e')
    /\ committed_state e' = duel /\ needs_resync (sync_status e') = true.
Proof.
  destruct (@process_server_event identity_libm 0 duel_engine torn_message) as [[r e']|] eqn:E;
    [|vm_compute in E; discriminate].
  exists r, e'. split; [reflexivity|].
  destruct (@failed_message_changes_nothing identity_libm 0 duel_engine torn_message r e' E)
    as [(Hc & _) Hn].
  - intros ->. vm_compute in E. discriminate.
  - split; [exact Hc|exact Hn].
Defined.

(** A message is applied at most once: when the transport delivers it
    again, whatever came of the first delivery, the engine only counts it as
    stale and keeps every other part of its state. *)
Theorem duplicates_are_ignored `{F32Libm} fuel e m r e1 fuel' :
  is_snapshot_event (em_event m) = false -> 0 < em_stream_seq m ->
  process_server_event fuel e m = Some (r, e1) ->
  process_server_event fuel' e1 m = Some (Ok tt, with_sync (skip_stale (sync_status e1)) e1).
Proof.
  intros Hn Hs E. destruct (process_seq fuel e m r e1 Hn Hs E) as [H1 H2].
  unfold process_server_event. rewrite Hn.
  assert (admit_snapshot m = Ok tt) as ->.
  { unfold admit_snapshot. by destruct (em_event m). }
  unfold account_stream. rewrite (proj2 (Z.ltb_lt _ _) Hs). cbn [orb].
  rewrite (proj2 (Z.eqb_neq _ _)) by lia. by rewrite (proj2 (Z.leb_le _ _)) by lia.
Qed.

Lemma duplicates_are_ignored_witness :
  exists r e1, @process_server_event identity_libm 0 duel_engine next_message = Some (r, e1)
    /\ @process_server_event identity_libm 0 e1 next_message
       = Some (Ok tt, with_sync (skip_stale (sync_status e1)) e1)
    /\ gs_scores (committed_state e1) !! 0 = Some 3.
Proof.
  destruct (@process_server_event identity_libm 0 duel_engine next_message) as [[r e1]|] eqn:E;
    [|vm_compute in E; discriminate].
  exists r, e1. split; [reflexivity|]. split.
  - apply (@duplicates_are_ignored identity_libm 0 duel_engine next_message r e1 0);
      [reflexivity|vm_compute; reflexivity|exact E].
  - vm_compute in E. injection E as <- <-. vm_compute. reflexivity.
Defined.

(** A lost message is noticed: when a message skips positions of the
    stream the engine asks for a snapshot and counts exactly the skipped ones,
    whatever the message then does. *)
Theorem gaps_are_noticed `{F32Libm} fuel e m r e' :
  is_snapshot_event (em_event m) = false ->
  0 < last_stream_seq (sync_status e) ->
  last_stream_seq (sync_status e) + 1 < em_stream_seq m <= u64_max ->
  process_server_event fuel e m = Some (r, e') ->
  needs_resync (sync_status e') = true
  /\ missed_messages (sync_status e')
     = wrap_u64 (missed_messages (sync_status e)
                 + (em_stream_seq m - last_stream_seq (sync_status e) - 1))
  /\ last_stream_seq (sync_status e') = em_stream_seq m.
Proof.
  intros Hn H0 Hgap E.
  assert (Ha : exists s, account_stream (sync_status e) (em_stream_seq m) false = Some s
    /\ needs_resync s = true /\ last_stream_seq s = em_stream_seq m
    /\ missed_messages s = wrap_u64 (missed_messages (sync_status e)
         + (em_stream_seq m - last_stream_seq (sync_status e) - 1))).
  { unfold account_stream. rewrite (proj2 (Z.ltb_lt 0 _)) by lia. cbn [orb].
    rewrite (proj2 (Z.eqb_neq _ _)), (proj2 (Z.leb_gt _ _)) by lia.
    rewrite wrap_u64_id by (unfold is_u64; lia). rewrite (proj2 (Z.ltb_lt _ _)) by lia.
    eexists. done. }
  destruct Ha as (s & Ha & Hr & Hl & Hm).
  destruct (process_cases fuel e m r e' Hn E) as [(Hnone & _)|(s' & Hs' & Hc)]; [congruence|].
  assert (s' = s) as -> by congruence. destruct (note_tick_sync s (em_tick m)) as (N1 & N2 & N3).
  destruct Hc as [[_ ->]|(_ & st & Hc)].
  { cbn. split; [done|]. split; congruence. }
  apply commit_sync in Hc as (C1 & C2 & C3); [|done]. cbn [sync_status with_sync] in *.
  split; [apply C3; congruence|]. split; congruence.
Qed.

Lemma gaps_are_noticed_witness :
  let e := with_sync {| SyncStatus_default with last_stream_seq := 5 |} duel_engine in
  let m := mkGameEventMessage 1 0 1 9 None (Ev_ScoreUpdated 0 3) in
  exists r e', @process_server_event identity_libm 0 e m = Some (r, e')
    /\ needs_resync (sync_status e') = true /\ missed_messages (sync_status e') = 3.
Proof.
  intros e m.
  destruct (@process_server_event identity_libm 0 e m) as [[r e']|] eqn:E;
    [|vm_compute in E; discriminate].
  exists r, e'. split; [reflexivity|].
  destruct (@gaps_are_noticed identity_libm 0 e m r e') as (H1 & H2 & _).
  - reflexivity.
  - vm_compute. reflexivity.
  - vm_compute. split; [reflexivity|discriminate].
  - exact E.
  - split; [exact H1|]. rewrite H2. vm_compute. reflexivity.
Defined.

(** ** Recovery *)

Definition up_turn : GameCommandMessage := mkMsg (mkCommandId 3 1 0) None (Cmd_Turn 0 Up).

(** Recovery reproduces the accepted commands: a server runs its committed
    state to a tick and accepts a command there; a server restored from the
    earlier checkpoint that replays the logged command at that tick ends in the
    same committed state with the same next sequence number. *)
Theorem replay_reproduces_acceptance `{F32Libm} fuel e m out st obs cmd e1 :
  run_committed fuel (committed_state e) (gs_tick st) [] [] = Some (Ok out, st, obs) ->
  gs_tick (committed_state e) <= gs_tick st ->
  0 <= command_counter e < u32_max ->
  process_command (with_committed st e) m = (Ok cmd, e1) ->
  exists e2, replay_scheduled_command fuel e cmd (gs_tick st) = Some (Ok tt, e2)
    /\ committed_state e2 = committed_state e1 /\ command_counter e2 = command_counter e1.
Proof.
  intros Hrun Hle Hcnt Hp. unfold process_command in Hp. injection Hp as <- <-.
  unfold replay_scheduled_command. erewrite check_replay_ok; [|reflexivity..|].
  2:{ cbn. unfold current_tick. lia. }
  rewrite (replay_ticks_run _ _ _ _ _ _ _ _ Hrun (Z.le_refl _)).
  unfold checked_add_u32. cbn [command_counter with_predicted with_committed].
  rewrite (proj2 (Z.leb_le _ _)) by lia. eexists. split; [reflexivity|]. split; [reflexivity|].
  cbn. rewrite wrap_u32_id; [reflexivity|]. unfold is_u32. lia.
Qed.

Lemma replay_reproduces_acceptance_witness :
  exists st e1 e2 cmd, gs_tick st = 2
    /\ process_command (with_committed st duel_engine) up_turn = (Ok cmd, e1)
    /\ @replay_scheduled_command identity_libm 2 duel_engine cmd (gs_tick st) = Some (Ok tt, e2)
    /\ committed_state e2 = committed_state e1.
Proof.
  destruct (@run_committed identity_libm 2 duel 2 [] []) as [[[[out|x|x] st] obs]|] eqn:E;
    [|vm_compute in E; discriminate..].
  assert (Ht : gs_tick st = 2).
  { apply (f_equal (fun o => match o with Some (_, s, _) => gs_tick s | None => 0 end)) in E.
    vm_compute in E. symmetry. exact E. }
  destruct (process_command (with_committed st duel_engine) up_turn) as [[cmd|x|x] e1] eqn:Ep;
    [|discriminate..].
  destruct (@replay_reproduces_acceptance identity_libm 2 duel_engine up_turn out st obs cmd e1)
    as (e2 & E2 & Ec & _).
  - rewrite Ht. exact E.
  - rewrite Ht. vm_compute. discriminate.
  - vm_compute. split; [discriminate|reflexivity].
  - exact Ep.
  - exists st, e1, e2, cmd. split; [exact Ht|]. split; [exact Ep|]. split; [exact E2|exact Ec].
Defined.
