(* ===== verification/RulesFacts.v ===== *)
(** * The rules of the game

    Lemmas on the single phases of a quantum: who crashes, who eats, who is
    removed for inactivity, what a goal is worth, how often food returns. *)

From Stdlib Require Import ZArith.
From stdpp Require Import prelude strings countable list gmap sorting.
From S2P Require Import Prelude RustFloat Util Snake SnakeBody SnakeFacts Arena CommandQueue.
From S2P Require Import GameState GameSetup Events Validate Tick.
Open Scope Z_scope.

Definition alive_at (st : GameState) (i : Z) : bool :=
  match vec_get (gs_snakes st) i with Some s => is_alive s | None => false end.

(** ** Collisions *)

(** What a head in [h] runs into, after everybody has moved. *)
Definition hits (st : GameState) (i : Z) (s : Snake) (h : Position) : Prop :=
  is_wall_position (gs_arena st) h = true
  \/ (exists team, sn_team_id s = Some team /\ is_in_enemy_base (gs_arena st) h team = true)
  \/ ~ (0 <= px h < wrap_i16 (width (gs_arena st))
        /\ 0 <= py h < wrap_i16 (height (gs_arena st)))
  \/ (exists j other, (j, other) ∈ iter_snakes st /\ is_alive other = true
        /\ contains_point other h (i =? j) = true).

Lemma first_contact_spec old movers i h l c :
  first_contact old movers i h l = Ok c ->
  (c = None <-> forall j other, (j, other) ∈ l ->
     is_alive other && contains_point other h (i =? j) = false).
Proof.
  induction l as [|[j other] l IH]; cbn [first_contact].
  { intros [= <-]. split; [|done]. intros _ j other Hin. by apply elem_of_nil in Hin. }
  destruct (is_alive other && contains_point other h (i =? j)) eqn:E.
  - rewrite bind_ok. intros (cause & _ & [= <-]). split; [done|].
    intros Hall. rewrite (Hall j other) in E; [done|by left].
  - intros Hc. rewrite (IH Hc). split.
    + intros Hall j' o' [[= -> ->]|Hin]%elem_of_cons; [done|by apply Hall].
    + intros Hall j' o' Hin. apply Hall. by right.
Qed.

Lemma crash_of_spec old movers st i s c :
  crash_of old movers st i s = Ok c ->
  exists h, head s = Ok h
    /\ (is_Some c <-> is_alive s = true /\ i ∈ movers /\ hits st i s h).
Proof.
  unfold crash_of. rewrite bind_ok. intros (h & Hh & H). exists h. split; [done|].
  destruct (is_alive s) eqn:Ea; cbn [andb] in H.
  2:{ injection H as <-. split; [by intros [? ?]|by intros [? _]]. }
  case_bool_decide as Hm.
  2:{ injection H as <-. split; [by intros [? ?]|by intros (_ & ? & _)]. }
  unfold hits. destruct (is_wall_position (gs_arena st) h) eqn:Ew.
  { injection H as <-. split; [by auto|by eexists]. }
  assert (Hen : (match sn_team_id s with Some team => is_in_enemy_base (gs_arena st) h team
                 | None => false end) = true
                <-> exists team, sn_team_id s = Some team
                    /\ is_in_enemy_base (gs_arena st) h team = true).
  { destruct (sn_team_id s); split; try done; [by eauto|by intros (? & [= <-] & ?)|].
    by intros (? & ? & ?). }
  destruct (match sn_team_id s with Some _ => _ | None => _ end).
  { injection H as <-. split; [|by eexists]. intros _. split; [done|]. split; [done|].
    right; left. by apply Hen. }
  assert (Hno : ~ exists team, sn_team_id s = Some team
                    /\ is_in_enemy_base (gs_arena st) h team = true).
  { intros He. apply Hen in He. done. }
  clear Hen. destruct (negb _) eqn:Eb.
  { injection H as <-. split; [|by eexists]. intros _. split; [done|]. split; [done|].
    right; right; left. rewrite negb_true_iff, !andb_false_iff, !Z.leb_gt, !Z.ltb_ge in Eb. lia. }
  rewrite negb_false_iff, !andb_true_iff, !Z.leb_le, !Z.ltb_lt in Eb.
  apply bind_ok in H as (contact & Hc & [= <-]). apply first_contact_spec in Hc.
  destruct contact as [cause|].
  - split; [|by eexists]. intros _. split; [done|]. split; [done|].
    right; right; right. destruct (decide (Exists (fun '(j, other) =>
      is_alive other && contains_point other h (i =? j) = true) (iter_snakes st))) as [Hx|Hx].
    + apply Exists_exists in Hx as ([j other] & Hin & Hx). apply andb_true_iff in Hx as [? ?].
      eauto 10.
    + exfalso. assert (Some cause = None); [|done]. apply Hc. intros j other Hin.
      apply not_true_iff_false. intros Ht. apply Hx, Exists_exists. by exists (j, other).
  - split; [by intros [? ?]|]. intros (_ & _ & [?|[?|[?|(j & other & Hin & Ho & Hp)]]]);
      [done|done|lia|].
    assert (is_alive other && contains_point other h (i =? j) = false) as E by by apply Hc.
    by rewrite Ho, Hp in E.
Qed.

Lemma find_crashes_spec old movers st l cs :
  find_crashes old movers st l = Ok cs ->
  forall i, (exists p, (i, p) ∈ cs) <->
    exists s h, (i, s) ∈ l /\ head s = Ok h /\ is_alive s = true /\ i ∈ movers
                /\ hits st i s h.
Proof.
  revert cs. induction l as [|[i0 s0] l IH]; intros cs; cbn [find_crashes].
  { intros [= <-] i. split; [intros (p & Hp)|intros (s & h & Hin & _)];
      by apply elem_of_nil in Hp || by apply elem_of_nil in Hin. }
  rewrite bind_ok. intros (c & Hc & H). apply bind_ok in H as (rest & Hr & [= <-]).
  intros i. apply crash_of_spec in Hc as (h0 & Hh0 & Hc). specialize (IH rest Hr i).
  split.
  - intros (p & Hp). destruct c as [c|].
    + apply elem_of_cons in Hp as [[= -> ->]|Hp].
      * destruct (proj1 Hc) as (? & ? & ?); [by eexists|]. exists s0, h0. split; [by left|done].
      * destruct (proj1 IH) as (s & h & Hin & ?); [eauto|]. exists s, h. split; [by right|done].
    + destruct (proj1 IH) as (s & h & Hin & ?); [eauto|]. exists s, h. split; [by right|done].
  - intros (s & h & [[= -> ->]|Hin]%elem_of_cons & Hh & Ha & Hm & Hhit).
    + rewrite Hh0 in Hh. injection Hh as ->. destruct (proj2 Hc) as [p ->]; [done|].
      exists p. by left.
    + destruct (proj2 IH) as (p & Hp); [eauto 10|]. exists p.
      destruct c; [by right|done].
Qed.

(** The snake a crash leaves behind: dead where it was before it moved or, in a
    team match, put back at a starting position. *)
Definition crashed (old_snakes : list Snake) (st : GameState) (i : Z) (s : Snake) : Prop :=
  is_alive s = false /\ (exists o, vec_get old_snakes i = Some o /\ body s = body o)
  \/ is_team_match (gs_game_type st) = true /\ is_alive s = true
     /\ exists p d, body s = [p; straight_tail p d (starting_snake_length st)].

(** [st'] differs from [st] at most in the snake [i], the queue and the logs. *)
Definition only_snake (i : Z) (st st' : GameState) : Prop :=
  gs_game_type st' = gs_game_type st
  /\ vec_len (gs_snakes st') = vec_len (gs_snakes st)
  /\ forall j, 0 <= j -> j <> i -> vec_get (gs_snakes st') j = vec_get (gs_snakes st) j.

Lemma only_snake_trans i st1 st2 st3 :
  only_snake i st1 st2 -> only_snake i st2 st3 -> only_snake i st1 st3.
Proof.
  intros (A1 & A2 & A3) (B1 & B2 & B3). split; [congruence|]. split; [congruence|].
  intros j Hj Hn. by rewrite B3, A3.
Qed.

Lemma only_update i f st : 0 <= i -> only_snake i st (update_snake i f st).
Proof.
  intros Hi. split; [done|]. unfold update_snake, gs_snakes. cbn. split.
  - unfold vec_len, vec_alter. by rewrite length_alter.
  - intros j Hj Hn. rewrite vec_get_alter by done. by rewrite (proj2 (Z.eqb_neq _ _)).
Qed.

Lemma respawn_names st i e :
  respawn_event_for_snake st i = Some e -> exists p d, e = Ev_SnakeRespawned i p d.
Proof.
  unfold respawn_event_for_snake. destruct (List.find _ _) as [[p d]|]; [|done].
  intros [= <-]. eauto.
Qed.

Lemma update_get i f st s :
  0 <= i -> vec_get (gs_snakes st) i = Some s ->
  vec_get (gs_snakes (update_snake i f st)) i = Some (f s).
Proof.
  intros Hi Hs. unfold update_snake, gs_snakes in *. cbn.
  by rewrite vec_get_alter, Z.eqb_refl, Hs.
Qed.

Lemma died_spec i c seq st s :
  0 <= i -> vec_get (gs_snakes st) i = Some s ->
  let st' := apply_event (Ev_SnakeDied i c) (with_event_sequence seq st) in
  only_snake i st st' /\ vec_get (gs_snakes st') i = Some (kill_snake s).
Proof. intros Hi Hs. split; [by apply (only_update i kill_snake st)|by apply update_get]. Qed.

Lemma respawned_spec i p d seq st s :
  0 <= i -> vec_get (gs_snakes st) i = Some s ->
  let st' := apply_event (Ev_SnakeRespawned i p d) (with_event_sequence seq st) in
  only_snake i st st'
  /\ vec_get (gs_snakes st') i
     = Some (respawn_snake p (straight_tail p d (starting_snake_length st)) d
               (unlimited_boost_capacity_ms st) s).
Proof. intros Hi Hs. split; [by eapply (only_update i _ st)|]. exact (update_get i _ st s Hi Hs). Qed.

Lemma rolled_back_spec i o st :
  0 <= i -> is_Some (vec_get (gs_snakes st) i) ->
  let st' := with_snakes (vec_set (gs_snakes st) i o) st in
  only_snake i st st' /\ vec_get (gs_snakes st') i = Some o.
Proof.
  intros Hi Hs. split; [|by apply vec_get_set_eq]. split; [done|]. split.
  - unfold vec_len, gs_snakes. cbn. unfold vec_set. by rewrite length_insert.
  - intros j Hj Hn. by apply vec_get_set_ne.
Qed.

Lemma emit_pair e st out :
  emit e (st, out)
  = (apply_event e (with_event_sequence (wrap_u64 (gs_event_sequence st + 1)) st),
     out ++ [(wrap_u64 (gs_event_sequence st + 1), e)]).
Proof. reflexivity. Qed.

Lemma Ok_pair_inj {A B} (a a' : A) (b b' : B) : Ok (a, b) = Ok (a', b') -> a' = a.
Proof. by intros [= -> _]. Qed.

Lemma kill_crashed_spec old st out i h c st' out' :
  0 <= i -> is_Some (vec_get (gs_snakes st) i) ->
  kill_crashed old (st, out) (i, (h, c)) = Ok (st', out') ->
  only_snake i st st'
  /\ exists s', vec_get (gs_snakes st') i = Some s' /\ crashed old st i s'.
Proof.
  intros Hi Hs. unfold kill_crashed. rewrite bind_ok. intros (o & Ho & H).
  apply index_ok in Ho. apply bind_ok in H as (x & _ & H). apply bind_ok in H as (y & _ & H).
  destruct (rolled_back_spec i o st Hi Hs) as [O1 G1].
  remember (with_snakes (vec_set (gs_snakes st) i o) st) as st1 eqn:E1. clear E1.
  rewrite emit_pair in H.
  match type of H with context [with_event_sequence _ ?s] => remember s as st2 eqn:E2 end.
  remember (wrap_u64 (gs_event_sequence st2 + 1)) as seq eqn:En.
  destruct (died_spec i c seq st2 o Hi) as [O3 G3]; [by rewrite E2|].
  remember (apply_event (Ev_SnakeDied i c) (with_event_sequence seq st2)) as st3 eqn:E3.
  assert (O : only_snake i st st3).
  { eapply only_snake_trans; [exact O1|]. rewrite E2 in O3. exact O3. }
  clear O1 O3 G1 E2 E3 En.
  assert (Hdead : crashed old st i (kill_snake o)) by (left; eauto).
  destruct (is_team_match (gs_game_type st3)) eqn:Et.
  2:{ apply Ok_pair_inj in H as ->. eauto. }
  destruct (respawn_event_for_snake st3 i) as [e|] eqn:Er.
  2:{ apply Ok_pair_inj in H as ->. eauto. }
  apply respawn_names in Er as (p & d & ->). rewrite emit_pair in H.
  apply Ok_pair_inj in H as ->.
  destruct (respawned_spec i p d (wrap_u64 (gs_event_sequence st3 + 1)) st3 _ Hi G3)
    as [O4 G4].
  split; [by eapply only_snake_trans|]. eexists. split; [exact G4|].
  destruct O as (Hg & _ & _). right. rewrite Hg in Et. split; [done|]. split; [done|].
  exists p, d. unfold starting_snake_length. by rewrite Hg.
Qed.

Lemma kill_all_spec old cs st out st' out' :
  Forall (fun c => 0 <= c.1 /\ is_Some (vec_get (gs_snakes st) c.1)) cs ->
  kill_all old (st, out) cs = Ok (st', out') ->
  gs_game_type st' = gs_game_type st
  /\ forall i s, 0 <= i -> vec_get (gs_snakes st) i = Some s ->
     exists s', vec_get (gs_snakes st') i = Some s'
       /\ (i ∈ cs.*1 -> crashed old st i s') /\ (i ∉ cs.*1 -> s' = s).
Proof.
  revert st out. induction cs as [|[j [h c]] cs IH]; intros st out Hf; cbn [kill_all].
  { intros [= <- <-]. split; [done|]. intros i s _ Hs. exists s. split; [done|].
    split; [|done]. intros Hin. by apply elem_of_nil in Hin. }
  apply Forall_cons in Hf as [[Hj Hjs] Hf].
  destruct (kill_crashed old (st, out) (j, (h, c))) as [[st1 out1]|e|e] eqn:E; [|done..].
  apply kill_crashed_spec in E as [(Og & Ol & Oo) (sj & Hsj & Hc)]; [|done..].
  intros Hk. apply IH in Hk as [Hg Hk].
  2:{ eapply Forall_impl; [exact Hf|]. intros [k ?] [Hk0 Hks]. split; [done|]. cbn in *.
      apply vec_get_lt_Some. rewrite Ol. destruct Hks as [sk Hks].
      split; [done|]. by eapply vec_get_Some_lt. }
  split; [congruence|]. intros i s Hi Hs. destruct (decide (i = j)) as [->|Hne].
  - destruct (Hk j sj Hj Hsj) as (s' & Hs' & Hin & Hout). exists s'. split; [done|].
    split; [|intros Hn; exfalso; apply Hn; by left]. intros _.
    destruct (decide (j ∈ cs.*1)) as [Hd|Hd]; [|by rewrite (Hout Hd)].
    specialize (Hin Hd). unfold crashed, starting_snake_length in *. by rewrite <- Og.
  - rewrite <- (Oo i Hi Hne) in Hs. destruct (Hk i s Hi Hs) as (s' & Hs' & Hin & Hout).
    exists s'. split; [done|]. cbn. rewrite not_elem_of_cons, elem_of_cons. split.
    + intros [?|Hd]; [done|]. specialize (Hin Hd).
      unfold crashed, starting_snake_length in *. by rewrite <- Og.
    + intros [_ Hd]. by apply Hout.
Qed.

(** ** Food *)

(** A living snake with its head on [p]. *)
Definition head_on (p : Position) (s : Snake) : bool :=
  is_alive s && match head s with Ok h => bool_decide (h = p) | _ => false end.

(** [i] is the first snake of [l] with its head on [p]. *)
Definition first_on (l : list (Z * Snake)) (p : Position) (i : Z) : Prop :=
  exists l1 s l2, l = l1 ++ (i, s) :: l2 /\ head_on p s = true
                  /\ Forall (fun e => head_on p e.2 = false) l1.

Definition eats (e : GameEvent) : option (Z * Position) :=
  match e with Ev_FoodEaten i p _ _ _ _ => Some (i, p) | _ => None end.

Lemma first_on_cons l p i j s :
  first_on ((j, s) :: l) p i <->
  (head_on p s = true /\ i = j) \/ (head_on p s = false /\ first_on l p i).
Proof.
  unfold first_on. split.
  - intros ([|[j' s'] l1] & s0 & l2 & E & Hh & Hf); cbn in E; injection E as -> -> ->.
    + by left.
    + apply Forall_cons in Hf as [Hs Hf]. right. eauto 10.
  - intros [[Hs ->]|[Hs (l1 & s0 & l2 & -> & Hh & Hf)]].
    + by exists [], s, l.
    + exists ((j, s) :: l1), s0, l2. split; [done|]. split; [done|]. by constructor.
Qed.

Lemma food_events_spec st l claimed es :
  food_events st l claimed = Ok es ->
  forall i p, (i, p) ∈ omap eats es <-> (p ∈ gs_food st) /\ (p ∉ claimed) /\ first_on l p i.
Proof.
  revert claimed es. induction l as [|[j s] l IH]; intros claimed es; cbn [food_events].
  { intros [= <-] i p. split; [intros Hin; by apply elem_of_nil in Hin|].
    intros (_ & _ & l1 & s & l2 & E & _). by destruct l1. }
  rewrite bind_ok. intros (h & Hh & H) i p. rewrite first_on_cons.
  assert (Hon : forall q, head_on q s = is_alive s && bool_decide (h = q)).
  { intros q. unfold head_on. by rewrite Hh. }
  rewrite Hon. destruct (is_alive s && has_food st h && bool_decide (h ∉ claimed)) eqn:E.
  - destruct (combo_pickup_context st s) as [[[points chain] before] b].
    apply bind_ok in H as (rest & Hr & [= <-]). apply andb_true_iff in E as [E Hcl].
    apply andb_true_iff in E as [Ha Hfood]. apply bool_decide_eq_true in Hcl, Hfood.
    cbn [omap list_omap eats]. rewrite elem_of_cons, (IH _ _ Hr), Ha. cbn [andb].
    rewrite bool_decide_eq_true, bool_decide_eq_false. split.
    + intros [[= -> ->]|(? & Hc & ?)]; [auto|]. split; [done|].
      apply not_elem_of_union in Hc as [Hne ?]. split; [done|]. right.
      split; [|done]. intros ->. by apply Hne, elem_of_singleton.
    + intros (? & ? & [[-> ->]|[Hne ?]]); [by left|]. right. split; [done|]. split; [|done].
      apply not_elem_of_union. split; [|done]. by intros ->%elem_of_singleton.
  - rewrite (IH _ _ H). split.
    + intros (Hf & Hc & Hfirst). split; [done|]. split; [done|]. right. split; [|done].
      apply andb_false_iff. destruct (is_alive s); [right|by left].
      apply bool_decide_eq_false. intros ->. cbn [andb] in E.
      unfold has_food in E. rewrite !bool_decide_eq_true_2 in E by done. done.
    + intros (Hf & Hc & [[Hs ->]|[_ ?]]); [|done]. exfalso.
      apply andb_true_iff in Hs as [Ha Hp]. apply bool_decide_eq_true in Hp as ->.
      unfold has_food in E. rewrite Ha, !bool_decide_eq_true_2 in E by done. done.
Qed.

(** ** Inactivity *)

(** How long a player has been idle at [post_tick]. *)
Definition idle_ms (st : GameState) (post_tick u : Z) : Z :=
  sat_mul_u32 (sat_sub post_tick (default (gs_tick st) (gs_player_last_activity_ticks st !! u)))
    (quantum_ms st).

Lemma expired_spec st post u id :
  (u, id) ∈ expired_players st post <->
  exists p, gs_players st !! u = Some p /\ pl_snake_id p = id
    /\ player_is_idle_contender st u p = true
    /\ idle_timeout_ms st <= idle_ms st post u.
Proof.
  unfold expired_players. rewrite (merge_sort_Permutation key_le), list_elem_of_omap. split.
  - intros ([v p] & Hin & E). unfold active_players in Hin.
    apply list_elem_of_filter in Hin as [Hc Hin]. apply elem_of_map_to_list in Hin.
    destruct (Z.leb_spec (idle_timeout_ms st) (sat_mul_u32 (sat_sub post (default (gs_tick st)
      (gs_player_last_activity_ticks st !! v))) (Z.max (gs_tick_duration_ms st) 1)));
      [|done]. injection E as <- <-. eauto.
  - intros (p & Hp & <- & Hc & Ht). exists (u, p). split.
    + apply list_elem_of_filter. split; [done|]. by apply elem_of_map_to_list.
    + unfold idle_ms, quantum_ms in Ht. by rewrite (proj2 (Z.leb_le _ _) Ht).
Qed.

Lemma expired_sorted st post : StronglySorted key_le (expired_players st post).
Proof. apply (StronglySorted_merge_sort key_le). Qed.

(** Removing users keeps the players, only adds to the removed and only kills. *)
Definition kick_all (so : GameState * Events) (l : list (Z * Z)) : GameState * Events :=
  foldl (fun so '(u, id) => emit (Ev_PlayerIdleKicked u id) so) so l.

Lemma elem_of_sorted_insert u v l : v ∈ sorted_insert u l <-> v = u \/ v ∈ l.
Proof.
  induction l as [|y l IH]; cbn [sorted_insert]; [set_solver|].
  destruct (u <? y); rewrite ?elem_of_cons; [done|]. rewrite IH. tauto.
Qed.

Lemma kick_one so u id :
  let st' := (emit (Ev_PlayerIdleKicked u id) so).1 in
  gs_players st' = gs_players so.1 /\ team_scored st' = team_scored so.1
  /\ (forall v, is_player_idle_kicked st' v = true <->
        v = u \/ is_player_idle_kicked so.1 v = true)
  /\ (forall j, alive_at st' j = true -> alive_at so.1 j = true).
Proof.
  destruct so as [st out]. cbn [emit apply_event fst].
  set (st0 := with_event_sequence _ st). unfold is_player_idle_kicked.
  split; [by case_bool_decide|]. split; [by case_bool_decide|]. split.
  - intros v. rewrite !bool_decide_eq_true.
    destruct (bool_decide (u ∈ gs_idle_kicked_user_ids st0)) eqn:Hu; cbn.
    + apply bool_decide_eq_true in Hu. split; [by right|]. by intros [->|?].
    + apply elem_of_sorted_insert.
  - intros j. unfold alive_at, vec_get. case_bool_decide; cbn; unfold vec_alter, gs_snakes; cbn;
      (destruct (decide (Z.to_nat j = Z.to_nat id)) as [E|E];
       [rewrite E, list_lookup_alter_eq; by destruct (snakes (gs_arena st) !! Z.to_nat id)
       |by rewrite list_lookup_alter_ne]).
Qed.

Lemma kick_all_spec l so :
  let st' := (kick_all so l).1 in
  gs_players st' = gs_players so.1 /\ team_scored st' = team_scored so.1
  /\ (forall v, is_player_idle_kicked st' v = true <->
        v ∈ l.*1 \/ is_player_idle_kicked so.1 v = true)
  /\ (forall j, alive_at st' j = true -> alive_at so.1 j = true).
Proof.
  revert so. induction l as [|[u id] l IH]; intros so; cbn [kick_all foldl].
  { split; [done|]. split; [done|]. split; [|done]. intros v. split; [by right|].
    intros [Hv|?]; [|done]. by apply elem_of_nil in Hv. }
  destruct (kick_one so u id) as (E1 & E2 & E3 & E4).
  destruct (IH (emit (Ev_PlayerIdleKicked u id) so)) as (F1 & F2 & F3 & F4).
  split; [by rewrite <- E1|]. split; [by rewrite <- E2|]. split; [|auto].
  intros v. rewrite F3, E3. cbn. rewrite elem_of_cons. tauto.
Qed.

Lemma kick_everyone so l :
  (forall u p, gs_players so.1 !! u = Some p -> player_is_idle_contender so.1 u p = true ->
     u ∈ l.*1) ->
  active_players (kick_all so l).1 = [].
Proof.
  intros Hall. destruct (kick_all_spec l so) as (E1 & E2 & E3 & E4).
  unfold active_players. apply list_filter_none. intros [u p] Hin Hc.
  apply elem_of_map_to_list in Hin. rewrite E1 in Hin.
  unfold player_is_idle_contender in Hc.
  destruct (is_player_idle_kicked (kick_all so l).1 u) eqn:Ek; [done|].
  assert (Hcont : player_is_idle_contender so.1 u p = true).
  { unfold player_is_idle_contender. destruct (is_player_idle_kicked so.1 u) eqn:Ek0.
    - rewrite (proj2 (E3 u)) in Ek; [done|by right].
    - rewrite <- E2. destruct (team_scored (kick_all so l).1); [done|]. by apply E4. }
  rewrite (proj2 (E3 u)) in Ek; [done|left]. by eapply Hall.
Qed.

(** Starting the tracking of a player changes neither who contends nor for how
    long anybody has been idle. *)
Lemma tracking_idle st post u p :
  gs_players st !! u = Some p ->
  idle_ms (ensure_player_idle_tracking st) post u = idle_ms st post u.
Proof.
  intros Hp. unfold idle_ms. f_equal. f_equal. unfold ensure_player_idle_tracking. cbn.
  rewrite lookup_union, lookup_fmap, Hp.
  by destruct (gs_player_last_activity_ticks st !! u).
Qed.

Lemma expired_tracked st post u id :
  (u, id) ∈ expired_players (ensure_player_idle_tracking st) post <->
  exists p, gs_players st !! u = Some p /\ pl_snake_id p = id
    /\ player_is_idle_contender st u p = true
    /\ idle_timeout_ms st <= idle_ms st post u.
Proof.
  rewrite expired_spec. split.
  - intros (p & Hp & Hid & Hc & Ht). exists p. rewrite (tracking_idle st post u p Hp) in Ht. done.
  - intros (p & Hp & Hid & Hc & Ht). exists p. rewrite <- (tracking_idle st post u p Hp) in Ht.
    done.
Qed.

Lemma nobody_left st : active_players st = [] -> inactivity_winning_snake_id st = Some None.
Proof. intros E. unfold inactivity_winning_snake_id. rewrite E. by destruct (team_scored st). Qed.

(** ** The first snake on a cell is the one with the least id *)

Definition on_cell (st : GameState) (p : Position) (i : Z) : Prop :=
  exists s, 0 <= i /\ vec_get (gs_snakes st) i = Some s /\ head_on p s = true.

Lemma iter_lookup st n : iter_snakes st !! n = (fun s => (Z.of_nat n, s)) <$> gs_snakes st !! n.
Proof. unfold iter_snakes, enumerate. by rewrite enumerate_from_lookup. Qed.

Lemma first_on_least st p i :
  first_on (iter_snakes st) p i <->
  on_cell st p i /\ forall j, on_cell st p j -> i <= j.
Proof.
  split.
  - intros (l1 & s & l2 & E & Hh & Hf).
    assert (Hl : iter_snakes st !! length l1 = Some (i, s)).
    { by rewrite E, list_lookup_middle. }
    rewrite iter_lookup in Hl. destruct (gs_snakes st !! length l1) as [s'|] eqn:Es; [|done].
    injection Hl as <- ->. split.
    { exists s. unfold vec_get. rewrite Nat2Z.id. auto with lia. }
    intros j (sj & Hj & Hsj & Hhj). destruct (Z.le_gt_cases (Z.of_nat (length l1)) j); [done|].
    exfalso. assert (Hlj : iter_snakes st !! Z.to_nat j = Some (j, sj)).
    { rewrite iter_lookup. unfold vec_get in Hsj. rewrite Hsj. cbn. by rewrite Z2Nat.id. }
    rewrite E, lookup_app_l in Hlj by lia.
    apply (Forall_lookup_1 _ _ _ _ Hf) in Hlj. cbn in Hlj. congruence.
  - intros [(s & Hi & Hs & Hh) Hmin]. unfold vec_get in Hs.
    assert (Hl : iter_snakes st !! Z.to_nat i = Some (i, s)).
    { rewrite iter_lookup, Hs. cbn. by rewrite Z2Nat.id. }
    exists (take (Z.to_nat i) (iter_snakes st)), s, (drop (S (Z.to_nat i)) (iter_snakes st)).
    split; [by rewrite take_drop_middle|]. split; [done|].
    apply Forall_lookup. intros n [j sj] Hn. apply lookup_take_Some in Hn as [Hn Hlt].
    rewrite iter_lookup in Hn. destruct (gs_snakes st !! n) as [s'|] eqn:Es; [|done].
    injection Hn as <- ->. destruct (head_on p sj) eqn:Ehj; [|done].
    assert (i <= Z.of_nat n); [|lia]. apply Hmin. exists sj. unfold vec_get.
    rewrite Nat2Z.id. auto with lia.
Qed.
