(* ===== verification/EventFacts.v ===== *)
(** * Single events and commands

    Replayed events, turns, the readiness gate and the banking of food: lemmas on
    [apply_event], [exec_command] and the goal phase. *)

From Stdlib Require Import ZArith.
From stdpp Require Import prelude strings countable list gmap sorting.
From S2P Require Import Prelude RustFloat Util Snake SnakeBody SnakeFacts Arena CommandQueue.
From S2P Require Import GameState GameSetup Events Validate Tick RulesFacts.
Open Scope Z_scope.

(** ** Replayed events *)

(** The one event whose effect adds up: a scheduled command. *)
Definition schedules (e : GameEvent) : bool :=
  match e with
  | Ev_CommandScheduled _ => true
  | Ev_CommandScheduledV2 _ _ deduplicated_replay => negb deduplicated_replay
  | _ => false
  end.

Lemma vec_alter_twice {A} (f : A -> A) (l : list A) i :
  (forall x, f (f x) = f x) -> vec_alter f (vec_alter f l i) i = vec_alter f l i.
Proof.
  intros Hf. unfold vec_alter. apply list_eq. intros j.
  destruct (decide (j = Z.to_nat i)) as [->|Hn].
  - rewrite !list_lookup_alter_eq. destruct (l !! Z.to_nat i); cbn; [by rewrite Hf|done].
  - by rewrite !list_lookup_alter_ne.
Qed.

Lemma discard_twice q i :
  discard_player_commands_for_snake (discard_player_commands_for_snake q i) i
  = discard_player_commands_for_snake q i.
Proof.
  unfold discard_player_commands_for_snake, rebuild_indexes. cbn [queue].
  rewrite list_filter_filter.
  rewrite (list_filter_iff _ (fun m => command_snake (command m) <> Some i)); [done|].
  intros m. tauto.
Qed.

Lemma discard_speculative_twice q i :
  discard_speculative_command (discard_speculative_command q i) i
  = discard_speculative_command q i.
Proof.
  unfold discard_speculative_command, rebuild_indexes. cbn [queue].
  rewrite list_filter_filter.
  rewrite (list_filter_iff _ (fun m => speculative m = false \/ command_id_client m <> i)); [done|].
  intros m. tauto.
Qed.

Lemma set_first_pad_twice id r l :
  set_first_pad id r (set_first_pad id r l) = set_first_pad id r l.
Proof.
  induction l as [|pad l IH]; [done|]. cbn [set_first_pad].
  destruct (pad_id pad =? id) eqn:E; cbn [set_first_pad].
  - change (pad_id (set_pad_respawn (Some r) pad)) with (pad_id pad). by rewrite E.
  - by rewrite E, IH.
Qed.

Lemma update_twice i f st :
  (forall s, f (f s) = f s) -> update_snake i f (update_snake i f st) = update_snake i f st.
Proof.
  intros Hf. destruct st as [? ? a]. destruct a. unfold update_snake, with_snakes, gs_snakes,
    with_arena, set_snakes. cbn. by rewrite vec_alter_twice.
Qed.

Lemma discard_update i f st :
  (forall s, f (f s) = f s) ->
  discard_commands_of i (update_snake i f (discard_commands_of i (update_snake i f st)))
  = discard_commands_of i (update_snake i f st).
Proof.
  intros Hf. remember (update_snake i f st) as A eqn:EA.
  assert (HA : update_snake i f A = A) by (rewrite EA; by apply update_twice). clear EA.
  unfold discard_commands_of at 2. remember (discard_player_commands_for_snake
    (gs_command_queue A) i) as q eqn:Eq.
  change (update_snake i f (with_command_queue q A))
    with (with_command_queue q (update_snake i f A)). rewrite HA.
  change (with_command_queue (discard_player_commands_for_snake q i) A
          = with_command_queue (discard_player_commands_for_snake (gs_command_queue A) i) A).
  by rewrite <- Eq, Eq, discard_twice.
Qed.

Lemma sorted_insert_in u l : u ∈ sorted_insert u l.
Proof. induction l as [|y l IH]; cbn; [by left|]. case_match; [by left|by right]. Qed.

Lemma remove_food_gone st p st' :
  remove_food st p = (true, st') \/ remove_food st p = (false, st') ->
  p ∉ gs_food st'.
Proof.
  unfold remove_food. intros H. assert (st' = with_food (filter (fun c => c <> p) (gs_food st)) st)
    as -> by (destruct H as [H|H]; congruence).
  unfold gs_food. cbn. rewrite list_elem_of_filter. tauto.
Qed.

Lemma filter_keeps {A} (P : A -> Prop) `{!forall x, Decision (P x)} (l : list A) :
  Forall P l -> filter P l = l.
Proof. induction 1 as [|x l Hx _ IH]; [done|]. by rewrite filter_cons_True, IH. Qed.

Lemma remove_food_absent st p : p ∉ gs_food st -> remove_food st p = (false, st).
Proof.
  intros Hp. unfold remove_food. rewrite (filter_keeps (fun c => c <> p)).
  - rewrite Z.eqb_refl. destruct st as [? ? a]. by destruct a.
  - apply Forall_forall. by intros x Hx ->.
Qed.

Lemma food_eaten_twice i p points chain before b st :
  let e := Ev_FoodEaten i p points chain before b in
  apply_event e (apply_event e st) = apply_event e st.
Proof.
  intros e. unfold e. cbn [apply_event].
  destruct (combo_event_fields_are_bounded st points chain before
            && bool_decide (is_Some (vec_get (gs_snakes st) i))) eqn:E.
  2:{ by rewrite E. }
  destruct (remove_food st p) as [removed st1] eqn:Er.
  assert (Hgone : p ∉ gs_food st1) by (apply (remove_food_gone st); destruct removed; auto).
  destruct removed.
  - assert (Hg2 : p ∉ gs_food (eat_food st1 i points chain)) by exact Hgone.
    rewrite (remove_food_absent _ _ Hg2). by case_match.
  - rewrite (remove_food_absent _ _ Hgone). by case_match.
Qed.

Lemma packet_twice id i c r st :
  let e := Ev_BoostPacketCollected id i c r in
  apply_event e (apply_event e st) = apply_event e st.
Proof.
  intros e. unfold e. cbn [apply_event].
  set (st1 := with_pads (set_first_pad id r (gs_pads st)) st).
  assert (E1 : with_pads (set_first_pad id r (gs_pads st1)) st1 = st1).
  { unfold st1. destruct st as [? ? a]. destruct a. unfold with_pads, gs_pads, with_arena, set_pads.
    cbn -[set_first_pad]. by rewrite set_first_pad_twice. }
  destruct (gs_boost st1) as [cfg|] eqn:Eb; [|by rewrite E1, Eb].
  destruct ((0 <? c) && (c <=? bc_capacity_ms cfg) && is_multiple_of c BOOST_TICK_INTERVAL_MS)
    eqn:Ec; [|by rewrite E1, Eb, Ec].
  assert (E2 : with_pads (set_first_pad id r (gs_pads (update_snake i (set_charge c) st1)))
      (update_snake i (set_charge c) st1)
    = update_snake i (set_charge c) (with_pads (set_first_pad id r (gs_pads st1)) st1)) by done.
  rewrite E2, E1. assert (gs_boost (update_snake i (set_charge c) st1) = Some cfg) as -> by done.
  rewrite Ec. by apply update_twice.
Qed.

Lemma kicked_twice u i st :
  let e := Ev_PlayerIdleKicked u i in
  apply_event e (apply_event e st) = apply_event e st.
Proof.
  intros e. unfold e. cbn [apply_event].
  set (st1 := if is_player_idle_kicked st u then st else _).
  set (f := fun s => set_boost SnakeBoost_default (kill_snake s)).
  assert (Hk : is_player_idle_kicked (discard_commands_of i (update_snake i f st1)) u = true).
  { change (is_player_idle_kicked st1 u = true). unfold st1.
    destruct (is_player_idle_kicked st u) eqn:E; [done|]. apply bool_decide_eq_true.
    apply sorted_insert_in. }
  rewrite Hk. by apply discard_update.
Qed.

Lemma died_twice i c st :
  let e := Ev_SnakeDied i c in
  apply_event e (apply_event e st) = apply_event e st.
Proof.
  intros e. unfold e. cbn [apply_event].
  set (st1 := with_last_death_causes (<[i := c]> (gs_last_death_causes st)) st).
  change (discard_commands_of i (update_snake i kill_snake (discard_commands_of i
    (update_snake i kill_snake (with_last_death_causes (<[i := c]> (gs_last_death_causes st1))
      st1)))) = discard_commands_of i (update_snake i kill_snake st1)).
  assert (with_last_death_causes (<[i := c]> (gs_last_death_causes st1)) st1 = st1) as ->.
  { unfold st1. destruct st. unfold with_last_death_causes. cbn. by rewrite insert_insert_eq. }
  by apply discard_update.
Qed.

Lemma apply_twice e st :
  schedules e = false -> apply_event e (apply_event e st) = apply_event e st.
Proof.
  destruct e as [i d|i c|u i|p|i p points chain before b|id i c r|g|m|ci m dd|ci re cid sr|status
    |u|epoch|i sc|t sc|i p d|xp|h ts]; cbn [schedules]; intros Hs; try done.
  - by apply update_twice.
  - apply died_twice.
  - apply kicked_twice.
  - cbn [apply_event]. destruct (has_food st p) eqn:E; [by rewrite E|].
    assert (has_food (with_food (gs_food st ++ [p]) st) p = true) as ->; [|done].
    apply bool_decide_eq_true. unfold gs_food. cbn. apply elem_of_app. right. by left.
  - apply food_eaten_twice.
  - apply packet_twice.
  - cbn. destruct dd; [done|]. done.
  - cbn. destruct cid; [|done]. unfold with_command_queue. destruct st. cbn.
    by rewrite discard_speculative_twice.
  - cbn. destruct st as [? ? ? ? ? ? ? ? ? ? ? ? ? ? ? ? ? ? ? ? ? ? ? ? ? ? ? ? ? r ?].
    destruct r as [[dl us]|]; [|done]. cbn. unfold with_readiness. cbn. do 3 f_equal. set_solver.
  - cbn. destruct (gs_readiness st) eqn:E; [done|]. by rewrite E.
  - cbn. destruct st. unfold with_scores. cbn. by rewrite insert_insert_eq.
  - cbn. destruct (gs_team_scores st) eqn:E; [|by rewrite E]. destruct st.
    unfold with_team_scores. cbn. by rewrite insert_insert_eq.
  - by apply discard_update.
Qed.

(** ** Turns *)

(** The turn the code accepts: of a living snake, to a new direction, opposite
    neither to the pending direction nor to the way the body travels. *)
Definition turnable (s : Snake) (d : Direction) : bool :=
  is_alive s && bool_decide (direction s <> d)
  && negb (is_opposite (direction s) d || is_opposite (travel_direction s) d).

Lemma action_only st i : only_snake i st (record_player_action_for_snake st i)
  /\ gs_snakes (record_player_action_for_snake st i) = gs_snakes st.
Proof. unfold record_player_action_for_snake. by case_match. Qed.

Lemma turn_spec st i d s :
  0 <= i -> vec_get (gs_snakes st) i = Some s ->
  exists out st', exec_command (Cmd_Turn i d) st = (Ok out, st')
    /\ only_snake i st st'
    /\ vec_get (gs_snakes st') i = Some (if turnable s d then set_direction d s else s)
    /\ out = (if turnable s d
              then [(wrap_u64 (gs_event_sequence st + 1), Ev_SnakeTurned i d)] else []).
Proof.
  intros Hi Hs. unfold exec_command, turnable. rewrite Hs.
  assert (Hself : only_snake i st st) by done.
  destruct (is_alive s && bool_decide (direction s <> d)); [|by eauto 10].
  destruct (is_opposite (direction s) d || is_opposite (travel_direction s) d); [by eauto 10|].
  rewrite emit_pair. cbn [negb andb app]. eexists _, _. split; [done|].
  set (st1 := apply_event _ _). destruct (action_only st1 i) as [O E].
  assert (O1 : only_snake i st st1) by by apply (only_update i (set_direction d) st).
  split; [by eapply only_snake_trans|]. rewrite E. split; [|done].
  exact (update_get i (set_direction d) st s Hi Hs).
Qed.

Lemma travel_turned s d :
  travel_direction (set_direction d s) = travel_direction s
  \/ travel_direction (set_direction d s) = d.
Proof. unfold travel_direction. cbn. repeat case_match; auto. Qed.

Lemma turnable_no_reversal s d :
  no_reversal s -> no_reversal (if turnable s d then set_direction d s else s).
Proof.
  unfold no_reversal, turnable. intros Hn.
  destruct (is_alive s && bool_decide (direction s <> d)); [|done]. cbn [andb].
  destruct (is_opposite (direction s) d); [done|]. cbn [orb].
  destruct (is_opposite (travel_direction s) d) eqn:Et; [done|].
  change (is_opposite (travel_direction (set_direction d s)) d = false).
  destruct (travel_turned s d) as [->| ->]; [done|by destruct d].
Qed.

(** ** Readiness *)

Definition readied (st : GameState) (us : list Z) : GameState :=
  foldl (fun st u => apply_event (Ev_PlayerReady u) st) st us.

Lemma readied_spec us st r :
  gs_readiness st = Some r ->
  gs_readiness (readied st us)
  = Some (mkMatchReadiness (deadline_ms r) (list_to_set us ∪ ready_user_ids r))
  /\ gs_players (readied st us) = gs_players st.
Proof.
  revert st r. induction us as [|u us IH]; intros st r Hr; cbn [readied foldl].
  { split; [|done]. rewrite Hr. destruct r. cbn. do 2 f_equal. set_solver. }
  assert (E : gs_readiness (apply_event (Ev_PlayerReady u) st)
    = Some (mkMatchReadiness (deadline_ms r) ({[u]} ∪ ready_user_ids r))).
  { cbn. by rewrite Hr. }
  apply IH in E as [E1 E2]. unfold readied in *. rewrite E1, E2. split.
  - cbn. do 2 f_equal. set_solver.
  - cbn. by rewrite Hr.
Qed.

Lemma pending_spec st r u :
  gs_readiness st = Some r ->
  u ∈ players_pending_ready st <-> is_Some (gs_players st !! u) /\ u ∉ ready_user_ids r.
Proof.
  intros Hr. unfold players_pending_ready. rewrite Hr, (merge_sort_Permutation Z.le).
  rewrite list_elem_of_filter, list_elem_of_fmap. split.
  - intros [Hn ([v p] & -> & Hin)]. apply elem_of_map_to_list in Hin. eauto.
  - intros [[p Hp] Hn]. split; [done|]. exists (u, p). by rewrite elem_of_map_to_list.
Qed.

Lemma resolves_spec st r now :
  gs_readiness st = Some r ->
  readiness_gate_resolves_at st now = true <->
  deadline_ms r <= now
  \/ forall u, is_Some (gs_players st !! u) -> u ∈ ready_user_ids r.
Proof.
  intros Hr. unfold readiness_gate_resolves_at. rewrite Hr, orb_true_iff, Z.leb_le.
  assert (Hp : (match players_pending_ready st with [] => true | _ => false end) = true
               <-> forall u, is_Some (gs_players st !! u) -> u ∈ ready_user_ids r).
  { assert (Hm : forall u, u ∈ players_pending_ready st <-> _)
      by (intros u; exact (pending_spec st r u Hr)).
    destruct (players_pending_ready st) as [|v l].
    - split; [|done]. intros _ u Hu. destruct (decide (u ∈ ready_user_ids r)); [done|].
      exfalso. apply (elem_of_nil u), Hm. done.
    - split; [done|]. intros Hall. destruct (proj1 (Hm v)) as [Hv Hn]; [by left|].
      exfalso. by apply Hn, Hall. }
  by rewrite Hp.
Qed.

(** ** Due commands *)

Definition is_turn (m : GameCommandMessage) : Prop :=
  match command m with Cmd_Turn _ _ => True | _ => False end.

#[global] Instance is_turn_dec m : Decision (is_turn m).
Proof. unfold is_turn. destruct (command m); apply _. Defined.

Lemma exec_queue cmd st r st' :
  exec_command cmd st = (r, st') ->
  gs_command_queue st' = gs_command_queue st /\ gs_tick st' = gs_tick st.
Proof.
  assert (Ha : forall st i, gs_command_queue (record_player_action_for_snake st i)
      = gs_command_queue st /\ gs_tick (record_player_action_for_snake st i) = gs_tick st).
  { intros st0 i. unfold record_player_action_for_snake. by case_match. }
  destruct cmd as [i d|i|s|i|i]; cbn [exec_command].
  - destruct (vec_get (gs_snakes st) i) as [s|]; [|by intros [= _ <-]].
    destruct (is_alive s && _); [|by intros [= _ <-]].
    destruct (_ || _); [by intros [= _ <-]|]. rewrite emit_pair. intros H. apply (f_equal snd) in H.
    cbn [snd] in H. rewrite <- H.
    destruct (Ha (apply_event (Ev_SnakeTurned i d)
      (with_event_sequence (wrap_u64 (gs_event_sequence st + 1)) st)) i) as [-> ->]. done.
  - unfold gs_set_boost_intent. intros [= _ <-]. repeat (case_match; try done).
    by destruct (Ha (with_snakes (vec_set (gs_snakes st) i s0) st) i) as [-> ->].
  - by intros [= _ <-].
  - unfold gs_set_boost_intent. intros [= _ <-]. repeat (case_match; try done).
    by destruct (Ha (with_snakes (vec_set (gs_snakes st) i s0) st) i) as [-> ->].
  - by intros [= _ <-].
Qed.

(** One quantum takes from the queue what draining it yields, and holds back
    the turns among it. *)
Lemma due_loop_drain fuel st out turns st' out' turns' :
  due_commands_loop fuel (st, out) turns = ((st', out'), turns') ->
  gs_command_queue st' = (drain_fuel fuel (gs_command_queue st) (gs_tick st)).2
  /\ turns' = turns ++ filter is_turn (drain_fuel fuel (gs_command_queue st) (gs_tick st)).1.
Proof.
  revert st out turns. induction fuel as [|fuel IH]; intros st out turns;
    cbn [due_commands_loop drain_fuel].
  { intros [= <- _ <-]. by rewrite app_nil_r. }
  destruct (pop (gs_command_queue st) (gs_tick st)) as [[m|] q].
  2:{ intros [= <- _ <-]. by rewrite app_nil_r. }
  assert (Hrest : forall st0 out0 turns0, gs_command_queue st0 = q -> gs_tick st0 = gs_tick st ->
    due_commands_loop fuel (st0, out0) turns0 = ((st', out'), turns') ->
    gs_command_queue st' = (drain_fuel fuel q (gs_tick st)).2
    /\ turns' = turns0 ++ filter is_turn (drain_fuel fuel q (gs_tick st)).1).
  { intros st0 out0 turns0 Eq Et H. apply IH in H. by rewrite Eq, Et in H. }
  destruct (drain_fuel fuel q (gs_tick st)) as [l q'] eqn:Ed. cbn [fst snd] in *.
  rewrite filter_cons. destruct (command m) as [i d|i|s|i|i] eqn:Ec.
  { intros H. apply Hrest in H; [|done..]. rewrite decide_True by (unfold is_turn; by rewrite Ec).
    by rewrite <- app_assoc in H. }
  all: rewrite decide_False by (unfold is_turn; rewrite Ec; tauto).
  all: destruct (exec_command _ (with_command_queue q st)) as [[ev|e|e] st1] eqn:Ex;
    apply exec_queue in Ex as [? ?]; by apply Hrest.
Qed.

Lemma sorted_filter {A} (R : relation A) (P : A -> Prop) `{!forall x, Decision (P x)} (l : list A) :
  StronglySorted R l -> StronglySorted R (filter P l).
Proof.
  induction 1 as [|x l Hl IH Hx]; [constructor|]. rewrite filter_cons. case_decide; [|done].
  constructor; [done|]. apply Forall_forall. intros y Hy. apply list_elem_of_filter in Hy as [_ Hy].
  by eapply Forall_forall in Hx.
Qed.

(** ** Team scores *)

(** What the snakes of one team bring home. *)
Fixpoint team_sum (bs : list (Z * TeamId * Z)) (t : TeamId) : Z :=
  match bs with
  | [] => 0
  | (_, team, carried) :: bs => (if team =? t then carried else 0) + team_sum bs t
  end.

Lemma wrap_u32_add_l a b : wrap_u32 (wrap_u32 a + b) = wrap_u32 (a + b).
Proof. unfold wrap_u32. by rewrite Zplus_mod_idemp_l. Qed.

Lemma wrap_u32_add_r a b : wrap_u32 (a + wrap_u32 b) = wrap_u32 (a + b).
Proof. unfold wrap_u32. by rewrite Zplus_mod_idemp_r. Qed.

Lemma deltas_fold bs (m : gmap Z Z) t :
  default 0 (m !! t) = wrap_u32 (default 0 (m !! t)) ->
  let m' := foldl (fun (m : gmap Z Z) '(_, team, carried) =>
              <[team := wrap_u32 (default 0 (m !! team) + carried)]> m) m bs in
  default 0 (m' !! t) = wrap_u32 (default 0 (m !! t) + team_sum bs t).
Proof.
  revert m. induction bs as [|[[i team] c] bs IH]; intros m Hm; cbn [foldl team_sum].
  { by rewrite Z.add_0_r. }
  destruct (Z.eqb_spec team t) as [->|Hn].
  - rewrite IH; rewrite lookup_insert_eq; cbn [from_option id].
    + by rewrite wrap_u32_add_l, Z.add_assoc.
    + by rewrite (wrap_u32_id (wrap_u32 _)) by apply wrap_u32_range.
  - rewrite IH; rewrite lookup_insert_ne by done; done.
Qed.

Lemma score_deltas_spec bs t : default 0 (score_deltas bs !! t) = wrap_u32 (team_sum bs t).
Proof. unfold score_deltas. rewrite deltas_fold; by rewrite lookup_empty. Qed.

(** Adding the deltas leaves the field alone and adds each team's delta once. *)
Lemma add_scores_spec l so m :
  NoDup l.*1 -> gs_team_scores so.1 = Some m ->
  let so' := foldl add_team_score so l in
  gs_arena so'.1 = gs_arena so.1 /\ gs_game_type so'.1 = gs_game_type so.1
  /\ exists m', gs_team_scores so'.1 = Some m'
     /\ forall t, default 0 (m' !! t)
          = match (list_to_map l : gmap Z Z) !! t with
            | Some d => wrap_u32 (default 0 (m !! t) + d)
            | None => default 0 (m !! t)
            end.
Proof.
  revert so m. induction l as [|[team d] l IH]; intros so m Hn Hm; cbn [foldl].
  { split; [done|]. split; [done|]. exists m. split; [done|]. intros t.
    by rewrite list_to_map_nil, lookup_empty. }
  destruct so as [st out]. cbn [fst] in *. apply NoDup_cons in Hn as [Hnin Hn].
  set (so1 := add_team_score (st, out) (team, d)).
  assert (E1 : gs_team_scores so1.1 = Some (<[team := wrap_u32 (default 0 (m !! team) + d)]> m)).
  { unfold so1, add_team_score. rewrite emit_pair. cbn. by rewrite Hm. }
  destruct (IH so1 _ Hn E1) as (Ea & Eg & m' & Em & Ht).
  assert (Ea1 : gs_arena so1.1 = gs_arena st).
  { unfold so1, add_team_score. rewrite emit_pair. cbn. by rewrite Hm. }
  assert (Eg1 : gs_game_type so1.1 = gs_game_type st).
  { unfold so1, add_team_score. rewrite emit_pair. cbn. by rewrite Hm. }
  split; [congruence|]. split; [congruence|]. exists m'. split; [done|]. intros t. rewrite Ht.
  rewrite list_to_map_cons. destruct (decide (t = team)) as [->|Hne].
  - rewrite (not_elem_of_list_to_map_1 l team) by done. by rewrite !lookup_insert_eq.
  - by rewrite !lookup_insert_ne.
Qed.

(** ** Banking *)

(** [st'] has the zones, the mode and the scores of [st]. *)
Definition same_field (st st' : GameState) : Prop :=
  width (gs_arena st') = width (gs_arena st) /\ height (gs_arena st') = height (gs_arena st)
  /\ team_zone_config (gs_arena st') = team_zone_config (gs_arena st)
  /\ gs_game_type st' = gs_game_type st /\ gs_team_scores st' = gs_team_scores st.

Lemma same_field_trans st1 st2 st3 :
  same_field st1 st2 -> same_field st2 st3 -> same_field st1 st3.
Proof. unfold same_field. intuition congruence. Qed.

Lemma same_field_refl st : same_field st st.
Proof. done. Qed.

Lemma died_field i c seq st :
  same_field st (apply_event (Ev_SnakeDied i c) (with_event_sequence seq st)).
Proof. done. Qed.

Lemma respawned_field i p d seq st :
  same_field st (apply_event (Ev_SnakeRespawned i p d) (with_event_sequence seq st)).
Proof. done. Qed.

(** [x + 3] and [x] are three apart at every width of [x]. *)
Lemma wrap_i16_near a k : -100 <= k <= 100 -> wrap_i16 (wrap_i16 (a + k) - a) = k.
Proof.
  intros Hk. unfold wrap_i16.
  replace ((a + k + 2 ^ 15) mod 2 ^ 16 - 2 ^ 15 - a + 2 ^ 15)
    with ((a + k + 2 ^ 15) mod 2 ^ 16 - a) by lia.
  rewrite Zminus_mod_idemp_l. replace (a + k + 2 ^ 15 - a) with (k + 2 ^ 15) by lia.
  rewrite Z.mod_small; lia.
Qed.

Lemma respawned_length p d s :
  body s = [p; straight_tail p d DEFAULT_SNAKE_LENGTH] -> snake_length s = 4.
Proof.
  intros Eb. unfold snake_length, iter_body. rewrite Eb.
  cbn [vec_len length drop zip zip_with foldl].
  assert (segment_distance p (straight_tail p d DEFAULT_SNAKE_LENGTH) = 3) as ->; [|done].
  unfold segment_distance, straight_tail. change (wrap_i16 (DEFAULT_SNAKE_LENGTH - 1)) with 3.
  destruct d; cbn [px py]; unfold i16_add, i16_sub; rewrite <- ?Z.add_opp_r;
    rewrite ?Z.add_opp_diag_r, ?Z.add_opp_r, ?wrap_i16_near by lia; try done.
  - rewrite <- (Z.add_opp_r (py p) 3), wrap_i16_near by lia. done.
  - rewrite <- (Z.add_opp_r (px p) 3), wrap_i16_near by lia. done.
Qed.

(** Nothing left to bank. *)
Definition spent (st : GameState) (s : Snake) : Prop :=
  is_alive s = false \/ carried_food st s = 0.

Lemma bank_spec st out i s :
  is_team_match (gs_game_type st) = true -> 0 <= i -> vec_get (gs_snakes st) i = Some s ->
  let st' := (bank_and_respawn (st, out) i).1 in
  only_snake i st st' /\ same_field st st'
  /\ exists s', vec_get (gs_snakes st') i = Some s' /\ spent st s'.
Proof.
  intros Ht Hi Hs. unfold bank_and_respawn. rewrite emit_pair. cbn [fst].
  destruct (died_spec i DC_Banked (wrap_u64 (gs_event_sequence st + 1)) st s Hi Hs) as [O G].
  pose proof (died_field i DC_Banked (wrap_u64 (gs_event_sequence st + 1)) st) as F.
  remember (apply_event (Ev_SnakeDied i DC_Banked) _) as st1 eqn:E1. clear E1.
  destruct (respawn_event_for_snake st1 i) as [e|] eqn:Er.
  2:{ split; [done|]. split; [done|]. eexists. split; [exact G|]. by left. }
  apply respawn_names in Er as (p & d & ->). rewrite emit_pair. cbn [fst].
  destruct (respawned_spec i p d (wrap_u64 (gs_event_sequence st1 + 1)) st1 _ Hi G) as [O2 G2].
  pose proof (respawned_field i p d (wrap_u64 (gs_event_sequence st1 + 1)) st1) as F2.
  split; [by eapply only_snake_trans|]. split; [by eapply same_field_trans|].
  eexists. split; [exact G2|]. right.
  assert (Hlen : forall st0, is_team_match (gs_game_type st0) = true ->
                 starting_snake_length st0 = DEFAULT_SNAKE_LENGTH).
  { intros st0 H0. unfold starting_snake_length. by destruct (gs_game_type st0). }
  rewrite (Hlen st1); [|by rewrite (proj1 O)]. unfold carried_food. rewrite (Hlen st Ht).
  by rewrite (respawned_length p d).
Qed.

Lemma foldl_step {A B} (f : A -> B -> A) a b l : foldl f a (b :: l) = foldl f (f a b) l.
Proof. reflexivity. Qed.

Lemma bank_all_spec ids so :
  is_team_match (gs_game_type so.1) = true ->
  Forall (fun i => 0 <= i /\ is_Some (vec_get (gs_snakes so.1) i)) ids ->
  let st' := (foldl bank_and_respawn so ids).1 in
  same_field so.1 st'
  /\ vec_len (gs_snakes st') = vec_len (gs_snakes so.1)
  /\ forall i s, 0 <= i -> vec_get (gs_snakes so.1) i = Some s ->
     exists s', vec_get (gs_snakes st') i = Some s'
       /\ (i ∈ ids -> spent so.1 s') /\ (i ∉ ids -> s' = s).
Proof.
  revert so. induction ids as [|j ids IH]; intros so Ht Hf st'; unfold st'; clear st'.
  { split; [done|]. split; [done|]. intros i s _ Hs. exists s. split; [done|].
    split; [|done]. intros Hin. by apply elem_of_nil in Hin. }
  rewrite foldl_step. destruct so as [st out]. cbn [fst] in Ht, Hf |- *.
  apply Forall_cons in Hf as [[Hj [sj Hsj]] Hf].
  destruct (bank_spec st out j sj Ht Hj Hsj) as ((Og & Ol & Oo) & F & s1 & Hs1 & Hsp).
  generalize dependent (bank_and_respawn (st, out) j). intros so1 Og Ol Oo F Hs1.
  destruct (IH so1) as (F2 & L2 & H2).
  { by rewrite Og. }
  { eapply Forall_impl; [exact Hf|]. intros k [Hk [sk Hsk]]. split; [done|].
    apply vec_get_lt_Some. rewrite Ol. split; [done|]. by eapply vec_get_Some_lt. }
  assert (Hspent : forall s, spent so1.1 s -> spent st s).
  { intros s [?|Hc]; [by left|right]. unfold carried_food, starting_snake_length in *.
    by rewrite <- Og. }
  split; [by eapply same_field_trans|]. split; [congruence|]. intros i s Hi Hs.
  destruct (decide (i = j)) as [->|Hne].
  - destruct (H2 j s1 Hj Hs1) as (s' & Hs' & Hin & Hout). exists s'. split; [done|].
    split; [|intros Hn; exfalso; apply Hn; by left]. intros _.
    destruct (decide (j ∈ ids)) as [Hd|Hd]; [by auto|by rewrite (Hout Hd)].
  - rewrite <- (Oo i Hi Hne) in Hs. destruct (H2 i s Hi Hs) as (s' & Hs' & Hin & Hout).
    exists s'. split; [done|]. rewrite not_elem_of_cons, elem_of_cons. split.
    + intros [?|Hd]; [done|]. auto.
    + intros [_ Hd]. auto.
Qed.

Lemma banking_field st st' e : same_field st st' -> banking st' e = banking st e.
Proof.
  intros (Ew & Eh & Ez & Eg & _). destruct e as [i s]. unfold banking, carried_food,
    starting_snake_length, is_in_team_base, team_zone_bounds. by rewrite Ew, Eh, Ez, Eg.
Qed.

Lemma spent_banks_nothing st i s : spent st s -> banking st (i, s) = None.
Proof.
  intros [Hd|Hc]; unfold banking; [by rewrite Hd|]. rewrite Hc.
  destruct (negb (is_alive s)); [done|]. repeat (case_match; try done).
  apply andb_true_iff in H1 as [_ ?]. done.
Qed.

Lemma bankers_ids st i :
  i ∈ ((fun b => b.1.1) <$> bankers st) <->
  exists s, 0 <= i /\ vec_get (gs_snakes st) i = Some s /\ is_Some (banking st (i, s)).
Proof.
  rewrite list_elem_of_fmap. unfold bankers. setoid_rewrite list_elem_of_omap. split.
  - intros (b & -> & [j s] & Hin & Hb). apply elem_of_enumerate in Hin as [Hj Hs].
    assert (b.1.1 = j) as ->; [|by eauto].
    unfold banking in Hb. repeat (case_match; try done). by injection Hb as <-.
  - intros (s & Hi & Hs & [b Hb]). exists b. split.
    + unfold banking in Hb. repeat (case_match; try done). by injection Hb as <-.
    + exists (i, s). split; [|done]. by apply elem_of_enumerate.
Qed.

Lemma omap_none {A B} (f : A -> option B) (l : list A) :
  (forall x, x ∈ l -> f x = None) -> omap f l = [].
Proof.
  induction l as [|x l IH]; intros Hf; [done|]. cbn. rewrite (Hf x) by by left.
  apply IH. intros y Hy. apply Hf. by right.
Qed.

Lemma score_goals_spec so m :
  is_team_match (gs_game_type so.1) = true -> gs_team_scores so.1 = Some m ->
  (forall t, is_u32 (default 0 (m !! t))) ->
  let st' := (score_goals so).1 in
  (exists m', gs_team_scores st' = Some m'
     /\ forall t, default 0 (m' !! t)
          = wrap_u32 (default 0 (m !! t) + team_sum (bankers so.1) t))
  /\ bankers st' = []
  /\ (width (gs_arena st') = width (gs_arena so.1) /\ height (gs_arena st') = height (gs_arena so.1)
      /\ team_zone_config (gs_arena st') = team_zone_config (gs_arena so.1)
      /\ gs_game_type st' = gs_game_type so.1)
  /\ forall i s, 0 <= i -> vec_get (gs_snakes so.1) i = Some s -> banking so.1 (i, s) = None ->
       vec_get (gs_snakes st') i = Some s.
Proof.
  intros Ht Hm Hu. unfold score_goals. rewrite Hm, Ht. cbv zeta.
  set (l := merge_sort key_le (map_to_list (score_deltas (bankers so.1)))).
  assert (Hl : l ≡ₚ map_to_list (score_deltas (bankers so.1)))
    by apply (merge_sort_Permutation key_le).
  destruct (add_scores_spec l so m) as (Ea & Eg & m' & Em & Hd); [|done|].
  { rewrite Hl. apply NoDup_fst_map_to_list. }
  set (so1 := foldl add_team_score so l) in *.
  assert (F1 : bankers so1.1 = bankers so.1).
  { unfold bankers, iter_snakes, gs_snakes. rewrite Ea. apply list_omap_ext, Forall2_same_length_lookup_2;
      [done|]. intros k x y H1 H2. assert (x = y) as -> by congruence. destruct y as [j s].
    unfold banking, carried_food, starting_snake_length. by rewrite Ea, Eg. }
  destruct (bank_all_spec ((fun b => b.1.1) <$> bankers so.1) so1) as (F & L & H).
  { by rewrite Eg. }
  { rewrite <- F1. apply Forall_forall. intros i Hi.
    apply bankers_ids in Hi as (s & ? & ? & _). eauto. }
  split; [|split; [|split]].
  - exists m'. split; [rewrite <- Em; apply F|]. intros t. rewrite Hd.
    pose proof (score_deltas_spec (bankers so.1) t) as Hsd.
    assert (Hlm : (list_to_map l : gmap Z Z) = score_deltas (bankers so.1)).
    { rewrite <- (list_to_map_to_list (score_deltas (bankers so.1))).
      apply list_to_map_proper; [|exact Hl]. rewrite Hl. apply NoDup_fst_map_to_list. }
    rewrite Hlm. destruct (score_deltas (bankers so.1) !! t) as [d|]; cbn in Hsd.
    + by rewrite Hsd, wrap_u32_add_r.
    + rewrite <- wrap_u32_add_r, <- Hsd, Z.add_0_r. by rewrite wrap_u32_id.
  - unfold bankers. apply omap_none. intros [i s'] Hin. apply elem_of_enumerate in Hin as [Hi Hs'].
    rewrite (banking_field _ _ _ F).
    destruct (vec_get_lt_Some (gs_snakes so1.1) i) as [s Hs].
    { rewrite <- L. split; [done|]. by eapply vec_get_Some_lt. }
    destruct (H i s Hi Hs) as (s2 & Hs2 & Hin & Hout).
    assert (Some s2 = Some s') as [= ->] by (rewrite <- Hs2; exact Hs').
    destruct (decide (i ∈ (fun b => b.1.1) <$> bankers so.1)) as [Hd'|Hd'].
    + by apply spent_banks_nothing, Hin.
    + rewrite (Hout Hd'). rewrite <- F1 in Hd'.
      destruct (banking so1.1 (i, s)) eqn:Eb; [|done]. exfalso. apply Hd', bankers_ids. eauto.
  - destruct F as (Fw & Fh & Fz & Fg & _). rewrite Fw, Fh, Fz, Fg, Ea, Eg. done.
  - intros i s Hi Hs Hb. assert (Hs1 : vec_get (gs_snakes so1.1) i = Some s) by (unfold gs_snakes; by rewrite Ea).
    destruct (H i s Hi Hs1) as (s' & Hs' & _ & Hout). rewrite Hs', Hout; [done|].
    intros (x & Hi' & Hx & [b Hx'])%bankers_ids. rewrite Hx in Hs. injection Hs as ->. congruence.
Qed.

(** *** The points of a goal, from the geometry of the field *)

(** The base of a team: the first columns of the field, for the second team the
    last ones, over the whole height. *)
Definition at_home (a : Arena) (team : TeamId) (p : Position) : bool :=
  match team_zone_config a with
  | None => false
  | Some zone =>
      (if team =? 1 then (width a - end_zone_depth zone <=? px p) && (px p <? width a)
       else (0 <=? px p) && (px p <? end_zone_depth zone))
      && (0 <=? py p) && (py p <? height a)
  end.

(** What a snake brings its team [t]: it lives, plays for [t] and has its head in
    the base of [t]; the cells above the length at the start and the food not yet
    grown, saturated at 32 bits. *)
Definition brings (st : GameState) (t : TeamId) (s : Snake) : Z :=
  match sn_team_id s, body s with
  | Some team, h :: _ =>
      if is_alive s && (team =? t) && at_home (gs_arena st) t h
      then Z.min (Z.min (Z.max 0 (snake_length s - DEFAULT_SNAKE_LENGTH)) u32_max + sn_food s) u32_max
      else 0
  | _, _ => 0
  end.

(** A field whose coordinates fit their type, with the bases inside. *)
Definition field_fits (a : Arena) : Prop :=
  0 < width a <= i16_max /\ 0 < height a <= i16_max
  /\ forall zone, team_zone_config a = Some zone -> 0 <= end_zone_depth zone <= width a.

Lemma team_base_at_home a p team : field_fits a -> is_in_team_base a p team = at_home a team p.
Proof.
  intros (Hw & Hh & Hz). unfold is_in_team_base, team_zone_bounds, at_home.
  destruct (team_zone_config a) as [zone|]; [|done]. specialize (Hz zone eq_refl).
  assert (D : forall z, 0 <= z <= i16_max -> wrap_i16 z = z) by (intros; apply wrap_i16_id; unfold is_i16, i16_min; lia).
  unfold i16_sub. rewrite (D (end_zone_depth zone)), (D (width a)), (D (height a)) by lia.
  assert (M : forall z, -1 <= z <= i16_max -> wrap_i16 z = z) by (intros; apply wrap_i16_id; unfold is_i16, i16_min; lia).
  destruct (team =? 1); rewrite !M by lia; apply eq_true_iff_eq; rewrite !andb_true_iff, !Z.leb_le, !Z.ltb_lt; lia.
Qed.

Lemma banking_brings st i s t :
  is_team_match (gs_game_type st) = true -> field_fits (gs_arena st) ->
  brings st t s = match banking st (i, s) with
                  | Some (_, team, carried) => if team =? t then carried else 0
                  | None => 0
                  end.
Proof.
  intros Ht Hf. unfold brings, banking, head.
  assert (Hc : carried_food st s
    = Z.min (Z.min (Z.max 0 (snake_length s - DEFAULT_SNAKE_LENGTH)) u32_max + sn_food s) u32_max).
  { unfold carried_food, starting_snake_length, sat_add_u32, sat_sub. destruct (gs_game_type st); try done.
    set (z := Z.max _ _). destruct (Z.leb_spec z u32_max); f_equal; lia. }
  destruct (is_alive s); cbn [negb andb]; [|by destruct (sn_team_id s), (body s)].
  destruct (sn_team_id s) as [team|]; [|done]. destruct (body s) as [|h b] eqn:Eb; [done|]. cbn [hd_error context].
  rewrite (team_base_at_home _ _ team Hf), <-Hc.
  destruct (Z.eqb_spec team t) as [->|Hn]; cbn [andb]; 
    [|destruct (at_home _ team h && _); [by rewrite (proj2 (Z.eqb_neq _ _) Hn)|done]].
  destruct (at_home _ t h); cbn [andb]; [|done].
  destruct (Z.eqb_spec (carried_food st s) 0) as [E|E]; cbn [negb]; [done|by rewrite Z.eqb_refl].
Qed.

Lemma bankers_bring st t :
  is_team_match (gs_game_type st) = true -> field_fits (gs_arena st) ->
  team_sum (bankers st) t = foldr (fun s sum => brings st t s + sum) 0 (gs_snakes st).
Proof.
  intros Ht Hf. unfold bankers, iter_snakes. rewrite <-(enumerate_snd (gs_snakes st)) at 2.
  induction (enumerate (gs_snakes st)) as [|[i s] l IH]; [done|]. cbn [omap list_omap fmap list_fmap foldr snd].
  rewrite (banking_brings st i s t Ht Hf).
  destruct (banking st (i, s)) as [[[j team] c]|]; cbn [team_sum]; rewrite IH; lia.
Qed.

(** ** Boost pads *)

Lemma list_min_spec l :
  match list_min l with
  | None => l = []
  | Some m => m ∈ l /\ forall x, x ∈ l -> m <= x
  end.
Proof.
  destruct l as [|x l]; [done|]. cbn [list_min].
  assert (H : forall l, foldr Z.min x l ∈ x :: l /\ forall y, y ∈ x :: l -> foldr Z.min x l <= y).
  { clear l. induction l as [|z l [IH1 IH2]]; cbn [foldr].
    - split; [by left|]. intros y [->|Hy]%elem_of_cons; [done|by apply elem_of_nil in Hy].
    - split.
      + destruct (Z.min_spec z (foldr Z.min x l)) as [[_ ->]|[_ ->]]; [right; by left|].
        apply elem_of_cons in IH1 as [->|IH1]; [by left|]. do 2 right. done.
      + intros y Hy. rewrite !elem_of_cons in Hy. destruct Hy as [->|[->|Hy]].
        * transitivity (foldr Z.min x l); [lia|]. apply IH2. by left.
        * lia.
        * transitivity (foldr Z.min x l); [lia|]. apply IH2. by right. }
  apply H.
Qed.

(** The living snake [i] has its head on the pad. *)
Definition on_pad (st : GameState) (pad : BoostPad) (i : Z) : Prop :=
  exists s h, 0 <= i /\ vec_get (gs_snakes st) i = Some s /\ is_alive s = true
              /\ head s = Ok h /\ pad_contains pad h = true.

Lemma pad_collector_spec st pad :
  match pad_collector st pad with
  | None => forall i, ~ on_pad st pad i
  | Some i => on_pad st pad i /\ forall j, on_pad st pad j -> i <= j
  end.
Proof.
  unfold pad_collector. set (l := omap _ _).
  assert (Hl : forall i, i ∈ l <-> on_pad st pad i).
  { intros i. unfold l. rewrite list_elem_of_omap. split.
    - intros ([j s] & Hin & E). apply elem_of_enumerate in Hin as [Hj Hs].
      destruct (is_alive s) eqn:Ea; [|done]. destruct (head s) as [h|e|e] eqn:Eh; [|done..].
      destruct (pad_contains pad h) eqn:Ep; [|done]. injection E as <-. exists s, h. eauto 10.
    - intros (s & h & Hi & Hs & Ea & Eh & Ep). exists (i, s). split; [by apply elem_of_enumerate|].
      by rewrite Ea, Eh, Ep. }
  pose proof (list_min_spec l) as Hm. destruct (list_min l) as [i|].
  - destruct Hm as [Hin Hmin]. split; [by apply Hl|]. intros j Hj. by apply Hmin, Hl.
  - intros i Hi. apply Hl in Hi. rewrite Hm in Hi. by apply elem_of_nil in Hi.
Qed.

Lemma multiple_50 a :
  (BOOST_TICK_INTERVAL_MS | a) -> is_multiple_of a BOOST_TICK_INTERVAL_MS = true.
Proof. intros Ha. by apply is_multiple_of_spec. Qed.

Lemma packet_spec id i c r cfg seq st s :
  gs_boost st = Some cfg -> 0 < c <= bc_capacity_ms cfg -> (BOOST_TICK_INTERVAL_MS | c) ->
  0 <= i -> vec_get (gs_snakes st) i = Some s ->
  let st' := apply_event (Ev_BoostPacketCollected id i c r) (with_event_sequence seq st) in
  only_snake i st st' /\ vec_get (gs_snakes st') i = Some (set_charge c s)
  /\ gs_pads st' = set_first_pad id r (gs_pads st).
Proof.
  intros Hb Hc Hd Hi Hs st'. unfold st'. cbn [apply_event].
  set (st1 := with_pads _ _). change (gs_boost st1) with (gs_boost st). rewrite Hb.
  rewrite (proj2 (Z.ltb_lt _ _)), (proj2 (Z.leb_le _ _)), multiple_50 by
    (done || lia).
  split; [by apply (only_update i (set_charge c) st1)|]. split; [|done].
  by apply (update_get i (set_charge c) st1).
Qed.

Lemma collect_pad_spec post cfg st out pad i s :
  let c := Z.min (bc_capacity_ms cfg) (charge_ms (boost s) + pad_charge_ms pad) in
  gs_boost st = Some cfg ->
  (BOOST_TICK_INTERVAL_MS | bc_capacity_ms cfg) -> (BOOST_TICK_INTERVAL_MS | pad_charge_ms pad) ->
  (BOOST_TICK_INTERVAL_MS | charge_ms (boost s)) ->
  0 < pad_charge_ms pad -> 0 <= charge_ms (boost s) < bc_capacity_ms cfg ->
  pad_collector st pad = Some i -> vec_get (gs_snakes st) i = Some s ->
  let r := sat_add_u32 post (bc_pad_respawn_ms cfg / quantum_ms st) in
  let so' := collect_pad post cfg (st, out) pad in
  so'.2 = out ++ [(wrap_u64 (gs_event_sequence st + 1), Ev_BoostPacketCollected (pad_id pad) i c r)]
  /\ only_snake i st so'.1 /\ vec_get (gs_snakes so'.1) i = Some (set_charge c s)
  /\ gs_pads so'.1 = set_first_pad (pad_id pad) r (gs_pads st).
Proof.
  intros c Hb Hcap Hpad Hch Hp0 Hlt Hcol Hs r so'. unfold so', collect_pad.
  pose proof (pad_collector_spec st pad) as Hc. rewrite Hcol in Hc |- *.
  destruct Hc as [(s0 & h & Hi & Hs0 & Ha & _) _]. rewrite Hs in Hs0 |- *.
  injection Hs0 as <-. unfold collect_boost_charge. rewrite Ha.
  rewrite (proj2 (Z.eqb_neq (pad_charge_ms pad) 0)), (proj2 (Z.eqb_neq (bc_capacity_ms cfg) 0)) by lia.
  rewrite !multiple_50 by (done || lia).
  rewrite (proj2 (Z.leb_gt _ _)) by lia. cbn [negb orb].
  replace (charge_ms (boost s) + Z.min (pad_charge_ms pad)
    (bc_capacity_ms cfg - charge_ms (boost s))) with c by (unfold c; lia).
  destruct (rolled_back_spec i (set_charge c s) st Hi) as [O1 G1]; [by eauto|].
  set (st1 := with_snakes (vec_set (gs_snakes st) i (set_charge c s)) st) in *.
  rewrite emit_pair. cbn [fst snd]. split; [done|].
  destruct (packet_spec (pad_id pad) i c r cfg (wrap_u64 (gs_event_sequence st1 + 1)) st1
    (set_charge c s)) as (O2 & G2 & P2); [done|unfold c; lia| |done|done|].
  { unfold c. destruct (Z.min_spec (bc_capacity_ms cfg) (charge_ms (boost s) + pad_charge_ms pad))
      as [[_ ->]|[_ ->]]; [done|by apply Z.divide_add_r]. }
  split; [by eapply only_snake_trans|]. split; [exact G2|exact P2].
Qed.

(** ** The food clock *)

(** The quanta before tick [n] at which food is due. *)
Definition refills (st : GameState) (n : nat) : list Z :=
  filter (fun t => food_refill_due (with_tick t st) = true) (range_Z 0 n).

Lemma refills_count st cfg n :
  gs_boost st = Some cfg -> quantum_ms st <= DEFAULT_TICK_INTERVAL_MS -> Z.of_nat n <= u32_max ->
  Z.of_nat (length (refills st n)) = Z.of_nat n * quantum_ms st / DEFAULT_TICK_INTERVAL_MS.
Proof.
  intros Hb Hq. assert (Hq1 : 1 <= quantum_ms st) by (unfold quantum_ms; lia).
  induction n as [|n IH]; intros Hn; [done|].
  assert (E : range_Z 0 (S n) = range_Z 0 n ++ [Z.of_nat n]).
  { unfold range_Z. rewrite seq_S, fmap_app. done. }
  unfold refills. rewrite E, filter_app, length_app, Nat2Z.inj_add.
  fold (refills st n). rewrite IH by lia. rewrite filter_cons, filter_nil.
  unfold food_refill_due. change (gs_boost (with_tick (Z.of_nat n) st)) with (gs_boost st).
  rewrite Hb. unfold wall_clock_interval_due. cbn [gs_tick with_tick].
  change (Z.max (gs_tick_duration_ms (with_tick (Z.of_nat n) st)) 1) with (quantum_ms st).
  change (Z.max DEFAULT_TICK_INTERVAL_MS 1) with DEFAULT_TICK_INTERVAL_MS.
  unfold sat_add_u32. rewrite Z.min_l by lia. unfold DEFAULT_TICK_INTERVAL_MS in *.
  replace (Z.of_nat n + 1) with (Z.of_nat (S n)) by lia.
  rewrite Nat2Z.inj_succ, Z.mul_succ_l.
  pose proof (Z.div_mod (Z.of_nat n * quantum_ms st) 100 ltac:(lia)).
  pose proof (Z.mod_pos_bound (Z.of_nat n * quantum_ms st) 100 ltac:(lia)).
  pose proof (Z.div_mod (Z.of_nat n * quantum_ms st + quantum_ms st) 100 ltac:(lia)).
  pose proof (Z.mod_pos_bound (Z.of_nat n * quantum_ms st + quantum_ms st) 100 ltac:(lia)).
  destruct (Z.eqb_spec (Z.of_nat n * quantum_ms st / 100)
    ((Z.of_nat n * quantum_ms st + quantum_ms st) / 100)); cbn [negb];
    case_decide; cbn; lia || done.
Qed.

(** ** Combos *)

Lemma food_value_bounds c chain :
  1 <= food_value_for_chain c chain <= Z.max (cc_max_food_value c) 1.
Proof. unfold food_value_for_chain. lia. Qed.

Lemma food_value_mono c chain chain' :
  chain <= chain' -> food_value_for_chain c chain <= food_value_for_chain c chain'.
Proof. unfold food_value_for_chain, sat_sub. lia. Qed.

(** The combo meter of a snake that [st] can hold. *)
Definition combo_ok (st : GameState) (s : Snake) : Prop :=
  0 <= remaining_ms (combo s) <= cc_window_ms (pr_combo (gs_properties st))
  /\ (remaining_ms (combo s) <> 0 -> 1 <= chain_count (combo s)).

#[global] Instance combo_ok_dec st s : Decision (combo_ok st s).
Proof. unfold combo_ok. apply _. Defined.

Lemma pickup_bounded st s :
  combo_ok st s ->
  match combo_pickup_context st s with
  | (points, chain, before, _) => combo_event_fields_are_bounded st points chain before = true
  end.
Proof.
  intros [Hr Hc]. unfold combo_pickup_context, combo_event_fields_are_bounded, sat_add_u32, u32_max.
  rewrite !andb_true_iff, orb_true_iff, !andb_true_iff, !Z.ltb_lt, Z.leb_le, !Z.eqb_eq.
  destruct (Z.eqb_spec (remaining_ms (combo s)) 0) as [E|E]; [lia|]. specialize (Hc E). lia.
Qed.
