(* ===== verification/RulesTheorems.v ===== *)
(** * Theorems on the rules of the game

    Collisions, turns, food, goals, pads, inactivity, readiness and the
    replay of events: what one phase of a quantum, one event or one command
    does to a state. *)

From Stdlib Require Import ZArith.
From stdpp Require Import prelude strings countable list gmap sorting relations.
From S2P Require Import Prelude RustFloat Util Snake SnakeBody SnakeFacts Arena CommandQueue.
From S2P Require Import GameState GameSetup Events Validate Tick.
From S2P Require Import MatchTheorems RulesFacts EventFacts.
Open Scope Z_scope.

(** ** Sample states *)

(** The duel after the first snake ran out of the arena. *)
Definition crash_duel : GameState :=
  update_snake 0 (set_body [mkPos 5 (-1); mkPos 5 2]) duel.

(** The duel with the second snake holding four points at home. *)
Definition home_duel : GameState :=
  update_snake 1 (fun s => set_sn_food 4 (set_body [mkPos 55 20; mkPos 58 20] s)) duel.

(** The duel with both snakes on one pellet. *)
Definition pellet_duel : GameState :=
  with_food [mkPos 30 20]
    (update_snake 0 (set_body [mkPos 30 20; mkPos 27 20])
       (update_snake 1 (set_body [mkPos 30 20; mkPos 33 20]) duel)).

(** ** Collisions *)

(** The snake [i] moved this quantum and its head now hits something. *)
Definition runs_into (movers : gset Z) (st : GameState) (i : Z) (s : Snake) : Prop :=
  exists h, head s = Ok h /\ is_alive s = true /\ i ∈ movers /\ hits st i s h.

(** C13. The collision phase kills exactly the living snakes that moved into a
    wall, the enemy base, the outside of the arena or a cell of a living snake
    (their own body behind the head included): each of those ends dead on its
    body from before the move or, in a team match, back at a starting position;
    every other snake comes out of the phase unchanged. *)
Theorem collisions_kill_exactly old movers st out cs st' out' :
  find_crashes old movers st (iter_snakes st) = Ok cs ->
  kill_all old (st, out) cs = Ok (st', out') ->
  forall i s, 0 <= i -> vec_get (gs_snakes st) i = Some s ->
  exists s', vec_get (gs_snakes st') i = Some s'
    /\ (runs_into movers st i s -> crashed old st i s')
    /\ (~ runs_into movers st i s -> s' = s).
Proof.
  intros Hc Hk. pose proof (find_crashes_spec _ _ _ _ _ Hc) as Hspec.
  assert (Hin : forall i s, 0 <= i -> vec_get (gs_snakes st) i = Some s ->
    i ∈ cs.*1 <-> runs_into movers st i s).
  { intros i s Hi Hs. transitivity (exists p, (i, p) ∈ cs).
    - rewrite list_elem_of_fmap. split; [intros ([j p] & -> & ?); by eauto|].
      intros [p Hp]. by exists (i, p).
    - rewrite Hspec. split.
      + intros (s0 & h & H0 & ?). apply elem_of_enumerate in H0 as [_ H0].
        assert (s0 = s) as -> by congruence. by exists h.
      + intros [h ?]. exists s, h. split; [by apply elem_of_enumerate|done]. }
  destruct (kill_all_spec old cs st out st' out') as [_ H]; [|done|].
  { apply Forall_forall. intros [i p] Hp. destruct (proj1 (Hspec i)) as (s & h & H0 & _); [by eauto|].
    apply elem_of_enumerate in H0 as [? ?]. eauto. }
  intros i s Hi Hs. destruct (H i s Hi Hs) as (s' & Hs' & Hcr & Hun).
  exists s'. rewrite <- (Hin i s Hi Hs). done.
Qed.

Lemma collisions_kill_exactly_witness :
  exists cs st' out' s', find_crashes (gs_snakes duel) {[0; 1]} crash_duel
      (iter_snakes crash_duel) = Ok cs
    /\ kill_all (gs_snakes duel) (crash_duel, []) cs = Ok (st', out')
    /\ vec_get (gs_snakes st') 0 = Some s' /\ crashed (gs_snakes duel) crash_duel 0 s'.
Proof.
  destruct (find_crashes (gs_snakes duel) {[0; 1]} crash_duel (iter_snakes crash_duel))
    as [cs|e|e] eqn:Ec; [|vm_compute in Ec; discriminate|vm_compute in Ec; discriminate].
  destruct (kill_all (gs_snakes duel) (crash_duel, []) cs) as [[st' out']|e|e] eqn:Ek.
  2, 3: vm_compute in Ec; injection Ec as <-; vm_compute in Ek; discriminate.
  destruct (vec_get (gs_snakes crash_duel) 0) as [s|] eqn:Es; [|vm_compute in Es; discriminate].
  destruct (collisions_kill_exactly (gs_snakes duel) {[0; 1]} crash_duel [] cs st' out' Ec Ek
    0 s ltac:(lia) Es) as (s' & Hs' & Hcr & _).
  exists cs, st', out', s'. split; [reflexivity|]. split; [exact Ek|]. split; [exact Hs'|].
  apply Hcr. exists (mkPos 5 (-1)). vm_compute in Es. injection Es as <-.
  split; [reflexivity|]. split; [reflexivity|]. split; [vm_compute; tauto || set_solver|].
  right; right; left. vm_compute. intros [_ [H _]]. by apply H.
Defined.

(** ** Turns *)

(** A turn never reverses a snake: it is accepted exactly when the snake
    is alive, the direction is new and opposite neither to the pending
    direction nor to the way the body travels, it emits one event exactly then,
    it touches no other snake, and a snake that does not face its own neck
    never comes to face it, however many turns one quantum holds. *)
Theorem turn_never_reverses st i d s :
  0 <= i -> vec_get (gs_snakes st) i = Some s ->
  exists out st' s', exec_command (Cmd_Turn i d) st = (Ok out, st')
    /\ vec_get (gs_snakes st') i = Some s'
    /\ direction s' = (if turnable s d then d else direction s) /\ body s' = body s
    /\ out = (if turnable s d
              then [(wrap_u64 (gs_event_sequence st + 1), Ev_SnakeTurned i d)] else [])
    /\ (no_reversal s -> no_reversal s')
    /\ forall j, 0 <= j -> j <> i -> vec_get (gs_snakes st') j = vec_get (gs_snakes st) j.
Proof.
  intros Hi Hs. destruct (turn_spec st i d s Hi Hs) as (out & st' & E & (_ & _ & O) & G & Eo).
  eexists out, st', _. split; [done|]. split; [exact G|].
  split; [by destruct (turnable s d)|]. split; [by destruct (turnable s d)|].
  split; [done|]. split; [apply turnable_no_reversal|done].
Qed.

Lemma turn_never_reverses_witness :
  exists out st' s', exec_command (Cmd_Turn 0 Up) duel = (Ok out, st')
    /\ vec_get (gs_snakes st') 0 = Some s' /\ direction s' = Up.
Proof.
  destruct (vec_get (gs_snakes duel) 0) as [s|] eqn:Es; [|vm_compute in Es; discriminate].
  destruct (turn_never_reverses duel 0 Up s ltac:(lia) Es) as (out & st' & s' & E & G & D & _).
  exists out, st', s'. split; [exact E|]. split; [exact G|]. rewrite D.
  vm_compute in Es. injection Es as <-. reflexivity.
Defined.

(** ** Replay *)

(** C20. Applying an event twice is applying it once, for every kind of event
    except the scheduling of a command: a replica that sees a duplicate of a
    death, a meal, a pad, a kick, a score, a respawn, a readiness mark or a
    snapshot is not changed by it. *)
Theorem events_idempotent e st :
  schedules e = false -> apply_event e (apply_event e st) = apply_event e st.
Proof. apply apply_twice. Qed.

Lemma events_idempotent_witness :
  let e := Ev_FoodEaten 0 (mkPos 30 20) 1 1 0 false in
  apply_event e (apply_event e pellet_duel) = apply_event e pellet_duel
  /\ gs_food (apply_event e pellet_duel) = [].
Proof.
  split; [apply (events_idempotent (Ev_FoodEaten 0 (mkPos 30 20) 1 1 0 false) pellet_duel);
          reflexivity|vm_compute; reflexivity].
Defined.

(** ** Food *)

(** Each pellet is eaten by exactly one snake: the least id among the
    living snakes whose head is on it. The events of the food phase are one
    [FoodEaten] for every such pair and no other. *)
Theorem least_id_eats st es :
  food_events st (iter_snakes st) ∅ = Ok es ->
  forall i p, (i, p) ∈ omap eats es <->
    (p ∈ gs_food st) /\ on_cell st p i /\ (forall j, on_cell st p j -> i <= j).
Proof.
  intros He i p. rewrite (food_events_spec _ _ _ _ He i p), first_on_least.
  split; [tauto|]. intros (? & ? & ?). split; [done|]. split; [apply not_elem_of_empty|done].
Qed.

Lemma least_id_eats_witness :
  exists es, food_events pellet_duel (iter_snakes pellet_duel) ∅ = Ok es
    /\ (0, mkPos 30 20) ∈ omap eats es.
Proof.
  destruct (food_events pellet_duel (iter_snakes pellet_duel) ∅) as [es|e|e] eqn:E;
    [|vm_compute in E; discriminate|vm_compute in E; discriminate].
  exists es. split; [reflexivity|].
  apply (least_id_eats pellet_duel es E). split; [vm_compute; left|]. split.
  - eexists. split; [lia|]. split; vm_compute; reflexivity.
  - intros j (s & Hj & _). exact Hj.
Defined.

(** Every pickup the simulation emits is one that [apply_event] accepts:
    the chain, the remaining window and the points of a [FoodEaten] event made
    from a consistent combo meter pass the bounds check, and the points lie
    between one and the configured maximum. *)
Theorem pickups_are_accepted st l claimed es :
  Forall (fun e => combo_ok st e.2) l -> food_events st l claimed = Ok es ->
  Forall (fun e => exists i p points chain before b, e = Ev_FoodEaten i p points chain before b
    /\ combo_event_fields_are_bounded st points chain before = true
    /\ 1 <= points <= Z.max (cc_max_food_value (pr_combo (gs_properties st))) 1) es.
Proof.
  revert claimed es. induction l as [|[i s] l IH]; intros claimed es Hf; cbn [food_events].
  { by intros [= <-]. }
  apply Forall_cons in Hf as [Hs Hf]. rewrite bind_ok. intros (h & _ & H).
  destruct (is_alive s && has_food st h && bool_decide (h ∉ claimed)); [|by eapply IH].
  pose proof (pickup_bounded st s Hs) as Hb.
  destruct (combo_pickup_context st s) as [[[points chain] before] b] eqn:Ec.
  apply bind_ok in H as (rest & Hr & [= <-]). constructor; [|by eapply IH].
  do 6 eexists. split; [done|]. split; [done|]. unfold combo_pickup_context in Ec.
  injection Ec as <- _ _ _. apply food_value_bounds.
Qed.

Lemma pickups_are_accepted_witness :
  exists es, food_events pellet_duel (iter_snakes pellet_duel) ∅ = Ok es /\ length es = 1%nat
    /\ Forall (fun e => exists i p points chain before b,
         e = Ev_FoodEaten i p points chain before b
         /\ combo_event_fields_are_bounded pellet_duel points chain before = true
         /\ 1 <= points <= Z.max (cc_max_food_value (pr_combo (gs_properties pellet_duel))) 1) es.
Proof.
  destruct (food_events pellet_duel (iter_snakes pellet_duel) ∅) as [es|e|e] eqn:E;
    [|vm_compute in E; discriminate|vm_compute in E; discriminate].
  exists es. split; [reflexivity|]. split.
  - vm_compute in E. injection E as <-. reflexivity.
  - apply (pickups_are_accepted pellet_duel (iter_snakes pellet_duel) ∅ es); [|exact E].
    apply (bool_decide_unpack _). vm_compute. exact I.
Defined.

(** Food returns on the wall clock, not on the quantum: over the first
    [n] quanta of a match with Boost, whose quanta are shorter than the
    refill interval of 100 ms, food is due exactly as many times as whole
    intervals have passed. *)
Theorem food_returns_on_the_clock st cfg n :
  gs_boost st = Some cfg -> quantum_ms st <= DEFAULT_TICK_INTERVAL_MS -> Z.of_nat n <= u32_max ->
  Z.of_nat (length (filter (fun t => food_refill_due (with_tick t st) = true) (range_Z 0 n)))
  = Z.of_nat n * quantum_ms st / DEFAULT_TICK_INTERVAL_MS.
Proof. apply refills_count. Qed.

Lemma food_returns_on_the_clock_witness :
  Z.of_nat (length (filter (fun t => food_refill_due (with_tick t duel) = true) (range_Z 0 7)))
  = 3.
Proof.
  rewrite (food_returns_on_the_clock duel BoostConfig_default 7).
  - vm_compute. reflexivity.
  - vm_compute. reflexivity.
  - vm_compute. discriminate.
  - vm_compute. discriminate.
Defined.

(** ** Goals *)



(** ** Boost pads *)

(** The duel with the first snake on the first pad. *)
Definition pad_duel : GameState := update_snake 0 (set_body [mkPos 14 4; mkPos 11 4]) duel.

Definition first_pad : BoostPad := default (mkBoostPad 0 (mkPos 0 0) 0 0 None) (hd_error (gs_pads duel)).

(** An available pad goes to the living snake of least id whose head is on
    it. If that snake's meter is below capacity it gains the pad's charge, up
    to the capacity, and the pad returns at the tick of the collection plus
    the cooldown; no other snake is touched. *)
Theorem pad_goes_to_least_id post cfg st out pad i s :
  gs_boost st = Some cfg ->
  (BOOST_TICK_INTERVAL_MS | bc_capacity_ms cfg) -> (BOOST_TICK_INTERVAL_MS | pad_charge_ms pad) ->
  (BOOST_TICK_INTERVAL_MS | charge_ms (boost s)) ->
  0 < pad_charge_ms pad -> 0 <= charge_ms (boost s) < bc_capacity_ms cfg ->
  on_pad st pad i -> (forall j, on_pad st pad j -> i <= j) ->
  vec_get (gs_snakes st) i = Some s ->
  let c := Z.min (bc_capacity_ms cfg) (charge_ms (boost s) + pad_charge_ms pad) in
  let back := sat_add_u32 post (bc_pad_respawn_ms cfg / quantum_ms st) in
  exists st', collect_pad post cfg (st, out) pad
      = (st', out ++ [(wrap_u64 (gs_event_sequence st + 1),
                       Ev_BoostPacketCollected (pad_id pad) i c back)])
    /\ vec_get (gs_snakes st') i = Some (set_charge c s)
    /\ gs_pads st' = set_first_pad (pad_id pad) back (gs_pads st)
    /\ forall j, 0 <= j -> j <> i -> vec_get (gs_snakes st') j = vec_get (gs_snakes st) j.
Proof.
  intros Hb Hcap Hp Hch Hp0 Hlt Hon Hmin Hs c back.
  assert (Hcol : pad_collector st pad = Some i).
  { pose proof (pad_collector_spec st pad) as Hc. destruct (pad_collector st pad) as [k|].
    - destruct Hc as [Hk Hkm]. f_equal. specialize (Hmin k Hk). specialize (Hkm i Hon). lia.
    - by destruct (Hc i). }
  destruct (collect_pad_spec post cfg st out pad i s Hb Hcap Hp Hch Hp0 Hlt Hcol Hs)
    as (E1 & (_ & _ & O) & G & P).
  exists (collect_pad post cfg (st, out) pad).1. split; [|done].
  rewrite (surjective_pairing (collect_pad post cfg (st, out) pad)) at 1. by rewrite E1.
Qed.

Lemma pad_goes_to_least_id_witness :
  exists st', collect_pad 1 BoostConfig_default (pad_duel, []) first_pad
      = (st', [(1, Ev_BoostPacketCollected 0 0 3000 161)]).
Proof.
  destruct (vec_get (gs_snakes pad_duel) 0) as [s|] eqn:Es; [|vm_compute in Es; discriminate].
  assert (Hc : charge_ms (boost s) = 0) by (vm_compute in Es; injection Es as <-; reflexivity).
  destruct (pad_goes_to_least_id 1 BoostConfig_default pad_duel [] first_pad 0 s) as (st' & E & _).
  - vm_compute. reflexivity.
  - exists 60. vm_compute. reflexivity.
  - exists 60. vm_compute. reflexivity.
  - exists 0. rewrite Hc. reflexivity.
  - vm_compute. reflexivity.
  - rewrite Hc. vm_compute. split; [discriminate|reflexivity].
  - exists s, (mkPos 14 4). split; [lia|]. split; [exact Es|]. vm_compute in Es. injection Es as <-.
    split; [reflexivity|]. split; reflexivity.
  - intros j (s0 & h & Hj & _). exact Hj.
  - exact Es.
  - exists st'. rewrite E, Hc. vm_compute. reflexivity.
Defined.

(** The mirror image of a cell in a field from column [l] to column [r]. *)
Definition mirror (l r : Z) (p : Position) : Position := mkPos (l + r - px p) (py p).

(** The Boost pads favour nobody: on every arena that has a layout the
    twelve pads have the ids 0 to 11, their cells are disjoint, all lie in the
    field between the end zones, and the mirror image of a pad cell is a pad
    cell. *)
Theorem pad_layout_is_fair a cfg l r :
  bc_unlimited cfg = false ->
  boost_field_bounds a (bc_spot_layout_version cfg) = Some (l, r) ->
  let pads := boost_pad_layout a cfg in
  let cells := pads ≫= footprint_cells in
  (pad_id <$> pads) = range_Z 0 12
  /\ NoDup cells
  /\ Forall (fun p => l <= px p <= r /\ 0 <= py p < height a) cells
  /\ Forall (fun p => mirror l r p ∈ cells) cells.
Proof.
  intros Hu Hb. unfold boost_pad_layout. rewrite Hu, Hb.
  assert (H : height a = 40 /\ (l = 10 /\ r = 49 \/ l = 0 /\ r = 39)).
  { unfold boost_field_bounds in Hb. repeat (case_match; try done); injection Hb as <- <-.
    - rewrite !andb_true_iff, !Z.eqb_eq in *. lia.
    - rewrite !andb_true_iff, !Z.eqb_eq in *. destruct H1 as [[_ Ew] Eh]. rewrite Ew, Eh.
      split; [done|]. right. done. }
  destruct H as [Eh H]. rewrite Eh. clear - H.
  destruct cfg as [sp cap packet pr sl rv u]. cbn [bc_capacity_ms bc_packet_charge_ms].
  destruct H as [[-> ->]|[-> ->]]; cbv zeta; split_and!; try (vm_compute; reflexivity);
    apply (bool_decide_unpack _); vm_compute; exact I.
Qed.

Lemma pad_layout_is_fair_witness :
  NoDup (boost_pad_layout (gs_arena duel) BoostConfig_default ≫= footprint_cells).
Proof.
  apply (pad_layout_is_fair (gs_arena duel) BoostConfig_default 10 49); vm_compute; reflexivity.
Defined.

(** ** Inactivity *)

(** The duel one quantum before both users have been idle for a minute. *)
Definition asleep_duel : GameState :=
  with_player_last_activity_ticks (<[2 := 0]> (<[1 := 0]> ∅)) (with_tick 1199 duel).

(** The contender [u] has been idle for the whole timeout. *)
Definition timed_out (st : GameState) (post_tick u : Z) : Prop :=
  exists p, gs_players st !! u = Some p /\ player_is_idle_contender st u p = true
    /\ idle_timeout_ms st <= idle_ms st post_tick u.

Lemma expired_ids st post u :
  u ∈ (expired_players (ensure_player_idle_tracking st) post).*1 <-> timed_out st post u.
Proof.
  rewrite list_elem_of_fmap. split.
  - intros ([v id] & -> & Hin). apply expired_tracked in Hin as (p & ? & _ & ?). by exists p.
  - intros (p & Hp & ?). exists (u, pl_snake_id p). split; [done|]. apply expired_tracked.
    by exists p.
Qed.

(** The inactivity phase of a running match removes exactly the
    contenders whose idle time reached the timeout; nobody else is removed and
    nobody comes back. *)
Theorem idle_removal_is_exact post st out over st' out' :
  is_started st = true -> 2 <= Z.of_nat (size (gs_players st)) ->
  resolve_player_inactivity post (st, out) = (over, (st', out')) ->
  forall u, is_player_idle_kicked st' u = true
            <-> is_player_idle_kicked st u = true \/ timed_out st post u.
Proof.
  intros Hs Hn. unfold resolve_player_inactivity. rewrite Hs, (proj2 (Z.ltb_ge _ _)) by done.
  cbn [negb orb]. intros E u. rewrite <- expired_ids.
  set (st1 := ensure_player_idle_tracking st) in *.
  change (is_player_idle_kicked st u) with (is_player_idle_kicked st1 u).
  remember (expired_players st1 post) as l eqn:El.
  destruct (kick_all_spec l (st1, out)) as (_ & _ & Hk & _). specialize (Hk u). cbn [fst] in Hk.
  destruct l as [|e l].
  { injection E as _ <- _. rewrite elem_of_nil. tauto. }
  fold (kick_all (st1, out) (e :: l)) in E.
  rewrite (or_comm (is_player_idle_kicked st1 u = true)), <- Hk. clear El Hk.
  destruct (kick_all (st1, out) (e :: l)) as [st2 out2]. cbn [fst] in *.
  destruct (inactivity_winning_snake_id st2) as [w|]; [|by injection E as _ <- _].
  rewrite !emit_pair in E. by injection E as _ <- _.
Qed.

Lemma idle_removal_is_exact_witness :
  exists over st' out', resolve_player_inactivity 1200 (asleep_duel, []) = (over, (st', out'))
    /\ is_player_idle_kicked st' 1 = true.
Proof.
  destruct (resolve_player_inactivity 1200 (asleep_duel, [])) as [over [st' out']] eqn:E.
  exists over, st', out'. split; [reflexivity|].
  apply (idle_removal_is_exact 1200 asleep_duel [] over st' out').
  - reflexivity.
  - vm_compute. discriminate.
  - exact E.
  - right. eexists. split; [vm_compute; reflexivity|]. split; vm_compute; [reflexivity|discriminate].
Defined.

(** When the timeout reaches every remaining contender in the same
    quantum the match ends as a draw: the order in which the users are removed
    does not make the last of them the winner. *)
Theorem simultaneous_timeout_is_a_draw post st out v :
  is_started st = true -> 2 <= Z.of_nat (size (gs_players st)) ->
  timed_out st post v ->
  (forall u p, gs_players st !! u = Some p -> player_is_idle_contender st u p = true ->
     timed_out st post u) ->
  exists st' out', resolve_player_inactivity post (st, out) = (true, (st', out'))
    /\ gs_status st' = Complete None /\ gs_completed_by_inactivity st' = true.
Proof.
  intros Hs Hn Hv Hall. unfold resolve_player_inactivity.
  rewrite Hs, (proj2 (Z.ltb_ge _ _)) by done. cbn [negb orb].
  set (st1 := ensure_player_idle_tracking st) in *. apply expired_ids in Hv.
  assert (Hidle : forall u p, gs_players st1 !! u = Some p ->
    player_is_idle_contender st1 u p = true -> u ∈ (expired_players st1 post).*1).
  { intros u p Hp Hc. apply expired_ids. by apply (Hall u p). }
  pose proof (kick_everyone (st1, out) _ Hidle) as Hnone.
  fold st1 in Hv. remember (expired_players st1 post) as l eqn:El. clear El Hidle.
  destruct l as [|e l]; [by apply elem_of_nil in Hv|].
  fold (kick_all (st1, out) (e :: l)).
  destruct (kick_all (st1, out) (e :: l)) as [st2 out2]. cbn [fst] in Hnone.
  rewrite (nobody_left st2 Hnone). rewrite !emit_pair. eexists _, _. done.
Qed.

Lemma simultaneous_timeout_is_a_draw_witness :
  exists st' out', resolve_player_inactivity 1200 (asleep_duel, []) = (true, (st', out'))
    /\ gs_status st' = Complete None.
Proof.
  destruct (simultaneous_timeout_is_a_draw 1200 asleep_duel [] 1) as (st' & out' & E & S & _).
  - reflexivity.
  - vm_compute. discriminate.
  - eexists. split; [vm_compute; reflexivity|]. split; vm_compute; [reflexivity|discriminate].
  - intros u p Hp Hc. exists p. split; [exact Hp|]. split; [exact Hc|].
    assert (Hu : u = 1 \/ u = 2).
    { apply elem_of_map_to_list in Hp. vm_compute in Hp.
      repeat (apply elem_of_cons in Hp as [[= -> _]|Hp]; [by auto|]). by apply elem_of_nil in Hp. }
    destruct Hu as [-> | ->]; vm_compute; discriminate.
  - exists st', out'. split; [exact E|exact S].
Defined.

(** ** The readiness gate *)

(** The gate before a match opens exactly when the deadline passes or
    every player has reported ready, in whatever order and however often the
    reports arrive, and until it is opened the simulation has no start time. *)
Theorem gate_opens_when_all_ready st r us now :
  gs_readiness st = Some r ->
  let st' := foldl (fun st u => apply_event (Ev_PlayerReady u) st) st us in
  simulation_start_ms st' = None
  /\ (readiness_gate_resolves_at st' now = true <->
      deadline_ms r <= now
      \/ forall u, is_Some (gs_players st !! u) -> u ∈ us \/ u ∈ ready_user_ids r).
Proof.
  intros Hr. destruct (readied_spec us st r Hr) as [Er Ep]. fold (readied st us). cbv zeta.
  split; [unfold simulation_start_ms; by rewrite Er|].
  rewrite (resolves_spec _ _ now Er), Ep. cbn [deadline_ms ready_user_ids].
  setoid_rewrite elem_of_union. by setoid_rewrite elem_of_list_to_set.
Qed.

Lemma gate_opens_when_all_ready_witness :
  readiness_gate_resolves_at
    (foldl (fun st u => apply_event (Ev_PlayerReady u) st) (arm_readiness_gate two_players 500) [2; 1])
    10 = true.
Proof.
  apply (gate_opens_when_all_ready (arm_readiness_gate two_players 500)
           (mkMatchReadiness 500 ∅) [2; 1] 10).
  - reflexivity.
  - right. intros u [p Hp]. left. apply elem_of_map_to_list in Hp. vm_compute in Hp.
    repeat (apply elem_of_cons in Hp as [[= -> _]|Hp]; [set_solver|]). by apply elem_of_nil in Hp.
Defined.

(** The first start wins: once a scheduled start has opened the gate, no
    later or duplicate start moves the simulation's epoch. *)
Theorem first_start_wins st deadline epoch epochs :
  simulation_start_ms (arm_readiness_gate st deadline) = None
  /\ simulation_start_ms
       (foldl (fun st e => apply_event (Ev_MatchStartScheduled e) st)
          (apply_event (Ev_MatchStartScheduled epoch) (arm_readiness_gate st deadline)) epochs)
     = Some epoch.
Proof.
  split; [done|].
  set (st1 := apply_event (Ev_MatchStartScheduled epoch) (arm_readiness_gate st deadline)).
  assert (H : simulation_start_ms st1 = Some epoch /\ gs_readiness st1 = None) by done.
  clearbody st1. destruct H as [Hs Hr].
  induction epochs as [|e epochs IH]; [done|]. cbn [foldl].
  assert (apply_event (Ev_MatchStartScheduled e) st1 = st1) as ->; [|done].
  cbn. by rewrite Hr.
Qed.

(** ** The command queue *)

(** A quantum takes out of the command queue exactly the commands due at
    its tick that no confirmation has superseded, runs all of them but the
    turns, hands the turns on in the order of their ids, and leaves exactly the
    commands of later ticks behind. *)
Theorem due_commands_exact st out st' out' turns :
  queue_wf (gs_command_queue st) -> run_due_commands (st, out) = ((st', out'), turns) ->
  queue_wf (gs_command_queue st') /\ StronglySorted msg_le turns
  /\ turns ≡ₚ filter is_turn (filter (fun m => live (gs_command_queue st) m /\ due (gs_tick st) m)
                 (queue (gs_command_queue st)))
  /\ queue (gs_command_queue st')
     ≡ₚ filter (fun m => ~ due (gs_tick st) m) (queue (gs_command_queue st)).
Proof.
  intros Hq H. unfold run_due_commands in H. cbn [fst] in H.
  apply due_loop_drain in H as [Eq Et]. cbn [app] in Et.
  destruct (drain_fuel (S (length (queue (gs_command_queue st)))) (gs_command_queue st) (gs_tick st))
    as [l q'] eqn:Ed. cbn [fst snd] in *. rewrite Eq, Et.
  destruct (drain_fuel_spec _ _ _ _ _ Hq (Nat.lt_succ_diag_r _) Ed) as (Hw & Hs & Hl & Hr).
  split; [done|]. split; [by apply sorted_filter|]. split; [by rewrite Hl|done].
Qed.

(** A turn of user 1 predicted for tick 0, and its confirmation at tick 0. *)
Definition guess : GameCommandMessage := mkMsg (mkCommandId 0 1 0) None (Cmd_Turn 0 Up).
Definition verdict : GameCommandMessage :=
  mkMsg (mkCommandId 0 1 0) (Some (mkCommandId 0 1 7)) (Cmd_Turn 0 Up).

Lemma guess_queue : queue_wf (push (push CommandQueue_new guess) verdict).
Proof. apply queue_wf_push; [|done]. apply queue_wf_push; [apply queue_wf_new|]. set_solver. Qed.

Lemma due_commands_exact_witness :
  let st := with_command_queue (push (push CommandQueue_new guess) verdict) duel in
  exists st' out' turns, run_due_commands (st, []) = ((st', out'), turns) /\ turns ≡ₚ [verdict].
Proof.
  set (st := with_command_queue (push (push CommandQueue_new guess) verdict) duel).
  destruct (run_due_commands (st, [])) as [[st' out'] turns] eqn:E.
  exists st', out', turns. split; [exact E|].
  destruct (due_commands_exact st [] st' out' turns) as (_ & _ & H & _).
  - exact guess_queue.
  - exact E.
  - rewrite H. vm_compute. reflexivity.
Defined.

(** A server confirmation supersedes the prediction of the same command:
    once both are queued, the predicted copy is never executed and the
    confirmed one is executed when it is due, at whichever ticks the two were
    scheduled and in whichever order they fall due. *)
Theorem confirmation_supersedes q m m' t l q' :
  queue_wf q -> speculative m = true -> speculative m' = false ->
  command_id_client m' = command_id_client m -> command_id_client m ∉ active_ids q ->
  drain_fuel (S (length (queue (push (push q m) m')))) (push (push q m) m') t = (l, q') ->
  (m ∉ l) /\ (due t m' -> m' ∈ l) /\ forall x, x ∈ l -> msg_tick x <= t.
Proof.
  intros Hq Hs Hs' Hid Hfresh Hd.
  assert (Hw : queue_wf (push (push q m) m')).
  { apply queue_wf_push; [by apply queue_wf_push|]. by rewrite Hs'. }
  destruct (drain_fuel_spec _ _ _ _ _ Hw (Nat.lt_succ_diag_r _) Hd) as (_ & _ & Hl & _).
  assert (Et : command_id_client m ∈ tombstone_ids (push (push q m) m')
               /\ m' ∈ queue (push (push q m) m')).
  { assert (Ha : command_id_client m ∈ active_ids (push q m)).
    { unfold push. rewrite Hs. cbn [active_ids]. set_solver. }
    generalize dependent (push q m). intros q1 _ _ _ Ha. unfold push.
    rewrite Hs', Hid, bool_decide_eq_true_2 by done. cbn [tombstone_ids queue]. set_solver. }
  split_and!.
  - rewrite Hl, list_elem_of_filter. intros [[[Hlive|Hlive] _] _]; [congruence|].
    exact (Hlive (proj1 Et)).
  - intros Hdue. rewrite Hl, list_elem_of_filter. split; [|apply Et]. split; [by left|done].
  - intros x Hx. rewrite Hl, list_elem_of_filter in Hx. by destruct Hx as [[_ ?] _].
Qed.

Lemma confirmation_supersedes_witness :
  exists l q', drain_fuel 3 (push (push CommandQueue_new guess) verdict) 0 = (l, q')
    /\ (guess ∉ l) /\ (verdict ∈ l).
Proof.
  destruct (drain_fuel 3 (push (push CommandQueue_new guess) verdict) 0) as [l q'] eqn:E.
  exists l, q'. split; [reflexivity|].
  destruct (confirmation_supersedes CommandQueue_new guess verdict 0 l q') as (H1 & H2 & _).
  - apply queue_wf_new.
  - reflexivity.
  - reflexivity.
  - reflexivity.
  - set_solver.
  - exact E.
  - split; [exact H1|]. apply H2. vm_compute. discriminate.
Defined.
