(* ===== verification/BotTheorems.v ===== *)
(** * Theorems on the bot

    The breadth-first search and the move chooser of common/src/ai.rs. *)

From Stdlib Require Import ZArith.
From stdpp Require Import prelude strings countable list gmap sorting relations.
From S2P Require Import Prelude RustFloat Util Snake SnakeFacts SnakeTheorems Arena CommandQueue.
From S2P Require Import GameState GameSetup Events Validate Tick MatchLife Ai MatchTheorems.
Open Scope Z_scope.

Definition manhattan (p q : Position) : Z := Z.abs (px p - px q) + Z.abs (py p - py q).

(** A further layer at distance [k] keeps a queue sorted. *)
Lemma sorted_app_layer (f : Position -> Z) (k : Z) (l r : list Position) :
  StronglySorted (fun p q => f p <= f q) l -> (forall q, q ∈ l -> f q <= k) ->
  (forall n, n ∈ r -> f n = k) -> StronglySorted (fun p q => f p <= f q) (l ++ r).
Proof.
  intros Hl Hle Hr. induction Hl as [|q l Hl IH Hf]; cbn.
  - clear Hle. induction r as [|n r IH]; constructor.
    + apply IH. intros m Hm. apply Hr. by right.
    + apply Forall_forall. intros m Hm. rewrite (Hr n), (Hr m); [done|by right|by left].
  - constructor.
    + apply IH. intros q' Hq. apply Hle. by right.
    + apply Forall_app. split; [done|]. apply Forall_forall. intros n Hn.
      rewrite (Hr n Hn). apply Hle. by left.
Qed.

Section Search.
  Context (goal : Position -> bool) (start : Position) (w h : Z).
  Context (Hw : 0 < w <= i16_max) (Hh : 0 < h <= i16_max).
  Context (Hstart : is_within_bounds start w h = true).

#[local] Abbreviation inb p := (is_within_bounds p w h = true).
#[local] Abbreviation d p := (manhattan start p).

Lemma inb_spec p : inb p <-> 0 <= px p < w /\ 0 <= py p < h.
Proof. unfold is_within_bounds. rewrite !andb_true_iff, !Z.leb_le, !Z.ltb_lt. lia. Qed.

(** The neighbour at integer coordinates. *)
Definition neighbour (p : Position) (dir : Direction) : Position :=
  match dir with
  | Up => mkPos (px p) (py p - 1)
  | Down => mkPos (px p) (py p + 1)
  | Left => mkPos (px p - 1) (py p)
  | Right => mkPos (px p + 1) (py p)
  end.

Lemma new_position_inb p dir :
  inb p -> inb (get_new_position p dir) \/ inb (neighbour p dir) ->
  get_new_position p dir = neighbour p dir.
Proof.
  rewrite !inb_spec. unfold i16_max in *. intros Hp Hn.
  destruct dir; cbn in *; unfold i16_add, i16_sub in *; f_equal;
    apply wrap_i16_id; unfold is_i16, i16_min, i16_max; lia.
Qed.

Lemma neighbour_distance p dir : Z.abs (d (neighbour p dir) - d p) = 1.
Proof. unfold manhattan. destruct dir; cbn; lia. Qed.

(** Every cell but the start has a neighbour one step nearer. *)
Lemma closer_neighbour c :
  inb c -> 0 < d c -> exists c' dir, inb c' /\ c = neighbour c' dir /\ d c' = d c - 1.
Proof.
  pose proof (proj1 (inb_spec start) Hstart) as Hs. rewrite inb_spec. intros Hc Hd.
  unfold manhattan in *. destruct c as [x y]. cbn in *.
  destruct (Z.lt_trichotomy x (px start)) as [Hx|[Hx|Hx]].
  - exists (mkPos (x + 1) y), Left. rewrite inb_spec. cbn.
    split; [lia|]. split; [f_equal; lia|lia].
  - destruct (Z.lt_trichotomy y (py start)) as [Hy|[Hy|Hy]]; [|lia|].
    + exists (mkPos x (y + 1)), Up. rewrite inb_spec. cbn.
      split; [lia|]. split; [f_equal; lia|lia].
    + exists (mkPos x (y - 1)), Down. rewrite inb_spec. cbn.
      split; [lia|]. split; [f_equal; lia|lia].
  - exists (mkPos (x - 1) y), Right. rewrite inb_spec. cbn.
    split; [lia|]. split; [f_equal; lia|lia].
Qed.

(** The loop invariant. [Processed] cells were popped and are no goals. *)
Record bfs_inv (queue : list Position) (visited : gset Position) : Prop := {
  bi_inb : forall p, p ∈ visited -> inb p;
  bi_queue : forall p, p ∈ queue -> p ∈ visited;
  bi_nodup : NoDup queue;
  bi_start : start ∈ visited;
  bi_done : forall p, p ∈ visited -> p ∉ queue -> goal p = false;
  bi_closed : forall p dir, p ∈ visited -> p ∉ queue -> inb (neighbour p dir) ->
              neighbour p dir ∈ visited;
  bi_sorted : StronglySorted (fun p q => d p <= d q) queue;
  bi_spread : forall p q, p ∈ queue -> q ∈ queue -> d q <= d p + 1
}.

(** Cells nearer than the whole queue have been processed. *)
Lemma bfs_nearer queue visited n c :
  bfs_inv queue visited -> inb c -> d c = Z.of_nat n ->
  (forall q, q ∈ queue -> d c < d q) -> c ∈ visited /\ c ∉ queue.
Proof.
  intros I. revert c. induction n as [|n IH]; intros c Hc Hd Hq.
  - assert (c = start) as ->.
    { unfold manhattan in Hd. destruct c, start. cbn in *. f_equal; lia. }
    split; [apply (bi_start _ _ I)|]. intros Hin. apply Hq in Hin. lia.
  - destruct (closer_neighbour c Hc ltac:(lia)) as (c' & dir & Hc' & -> & Hd').
    destruct (IH c' Hc' ltac:(lia)) as [Hv Hnq].
    { intros q Hin. apply Hq in Hin. lia. }
    split; [by apply (bi_closed _ _ I)|]. intros Hin. apply Hq in Hin. lia.
Qed.

Lemma bfs_nearer_all queue visited c :
  bfs_inv queue visited -> inb c -> (forall q, q ∈ queue -> d c < d q) ->
  c ∈ visited /\ c ∉ queue.
Proof.
  intros I Hc Hq. apply (bfs_nearer queue visited (Z.to_nat (d c))); try done.
  unfold manhattan. lia.
Qed.

(** What the neighbours of [p] add. *)
Record bfs_added (p : Position) (ds : list Direction) (new : list Position)
    (visited : gset Position) : Prop := {
  ba_nodup : NoDup new;
  ba_fresh : forall n, n ∈ new -> n ∉ visited;
  ba_inb : forall n, n ∈ new -> inb n;
  ba_next : forall n, n ∈ new -> exists dir, n = neighbour p dir;
  ba_all : forall dir, dir ∈ ds -> inb (neighbour p dir) ->
           neighbour p dir ∈ visited \/ neighbour p dir ∈ new
}.

Lemma bfs_fold ds p queue visited :
  inb p -> exists new,
    foldl (bfs_visit w h p) (queue, visited) ds = (queue ++ new, list_to_set new ∪ visited)
    /\ bfs_added p ds new visited.
Proof.
  intros Hp. revert queue visited. induction ds as [|dir ds IH]; intros queue visited; cbn [foldl].
  { exists []. cbn. rewrite app_nil_r, union_empty_l_L. split; [done|].
    split; [constructor|set_solver..]. }
  unfold bfs_visit at 2. cbv zeta.
  destruct (is_within_bounds (get_new_position p dir) w h) eqn:Ein; cbn [andb].
  - pose proof (new_position_inb p dir Hp (or_introl Ein)) as En. rewrite En in Ein |- *.
    set (n := neighbour p dir) in *.
    case_bool_decide as Hn.
    + destruct (IH (queue ++ [n]) ({[n]} ∪ visited)) as (new & -> & A).
      exists (n :: new). cbn. split; [f_equal; [by rewrite <- app_assoc|set_solver]|].
      destruct A as [And Af Ai An Aa]. split.
      * apply NoDup_cons. split; [|done]. intros Hin. apply (Af n Hin), elem_of_union. left.
        by apply elem_of_singleton.
      * intros m [->|Hm]%elem_of_cons; [done|]. apply Af in Hm. clear - Hm. set_solver.
      * intros m [->|Hm]%elem_of_cons; auto.
      * intros m [->|Hm]%elem_of_cons; [by exists dir|auto].
      * intros dir' [->|Hd]%elem_of_cons Hi; [right; by left|].
        destruct (Aa dir' Hd Hi) as [Hv|Hv]; [|right; by right].
        apply elem_of_union in Hv as [->%elem_of_singleton|Hv]; [right; by left|by left].
    + destruct (IH queue visited) as (new & -> & [And Af Ai An Aa]). exists new.
      split; [done|]. split; try done. intros dir' [->|Hd]%elem_of_cons Hi; [|by apply Aa].
      by left.
  - destruct (IH queue visited) as (new & -> & [And Af Ai An Aa]). exists new.
    split; [done|]. split; try done. intros dir' [->|Hd]%elem_of_cons Hi; [|by apply Aa].
    rewrite (new_position_inb p dir Hp (or_intror Hi)) in Ein. congruence.
Qed.

(** The head of the queue is nearest, and its new neighbours are one farther. *)
Lemma bfs_front p queue visited q :
  bfs_inv (p :: queue) visited -> q ∈ p :: queue -> d p <= d q.
Proof.
  intros I [->|Hq]%elem_of_cons; [done|]. pose proof (bi_sorted _ _ I) as Iso.
  apply StronglySorted_inv in Iso as [_ Hf]. rewrite Forall_forall in Hf. by apply Hf.
Qed.

Lemma bfs_layer p queue visited new n :
  bfs_inv (p :: queue) visited -> bfs_added p all_directions new visited -> n ∈ new ->
  d n = d p + 1.
Proof.
  intros I [And Af Ai An Aa] Hn. destruct (An n Hn) as [dir ->].
  pose proof (neighbour_distance p dir) as Hd.
  destruct (decide (d (neighbour p dir) = d p + 1)) as [?|Hne]; [done|].
  destruct (bfs_nearer_all (p :: queue) visited (neighbour p dir) I) as [Hv _].
  { by apply Ai. } { intros q Hq. apply (bfs_front _ _ _ _ I) in Hq. lia. }
  by destruct (Af _ Hn).
Qed.

Lemma bfs_step p queue visited :
  bfs_inv (p :: queue) visited -> goal p = false ->
  exists new, bfs_neighbours w h p (queue, visited) = (queue ++ new, list_to_set new ∪ visited)
    /\ bfs_inv (queue ++ new) (list_to_set new ∪ visited)
    /\ size (list_to_set new ∪ visited : gset Position) = (length new + size visited)%nat.
Proof.
  intros I Hg. pose proof I as [Iin Iq Ind Ist Ido Icl Iso Isp].
  assert (Hpv : p ∈ visited) by (apply Iq; by left).
  destruct (bfs_fold all_directions p queue visited) as (new & E & Hadd).
  { by apply Iin. }
  exists new. split; [exact E|].
  assert (Hnew : forall n, n ∈ new -> d n = d p + 1)
    by (intros n; by apply (bfs_layer p queue visited)).
  destruct Hadd as [And Af Ai An Aa].
  apply StronglySorted_inv in Iso as [Iso' _]. apply NoDup_cons in Ind as [Hpq Ind].
  split; [split|].
  - intros q [Hq|Hq]%elem_of_union; [|by apply Iin]. apply elem_of_list_to_set in Hq. auto.
  - intros q [Hq|Hq]%elem_of_app; apply elem_of_union.
    + right. apply Iq. by right.
    + left. by apply elem_of_list_to_set.
  - apply NoDup_app. split; [done|]. split; [|done]. intros q Hq Hn.
    apply (Af q Hn), Iq. by right.
  - apply elem_of_union. by right.
  - intros q Hq [Hnq Hnn]%not_elem_of_app. apply elem_of_union in Hq as [Hq|Hq].
    { by apply elem_of_list_to_set in Hq. }
    destruct (decide (q = p)) as [->|Hne]; [done|]. apply Ido; [done|].
    by apply not_elem_of_cons.
  - intros q dir Hq [Hnq Hnn]%not_elem_of_app Hi. apply elem_of_union in Hq as [Hq|Hq].
    { by apply elem_of_list_to_set in Hq. }
    rewrite elem_of_union, elem_of_list_to_set. destruct (decide (q = p)) as [->|Hne].
    + destruct (Aa dir) as [?|?]; auto. destruct dir; unfold all_directions; set_solver.
    + right. apply Icl; [done|by apply not_elem_of_cons|done].
  - apply (sorted_app_layer _ (d p + 1)); [done| |done]. intros q Hq.
    apply (Isp p q); [by left|by right].
  - assert (Hr : forall q, q ∈ queue ++ new -> d p <= d q <= d p + 1).
    { intros q [Hq|Hq]%elem_of_app.
      - split; [apply (bfs_front _ _ _ _ I); by right|]. apply (Isp p q); [by left|by right].
      - rewrite (Hnew q Hq). lia. }
    intros a b Ha Hb. apply Hr in Ha, Hb. lia.
  - rewrite size_union.
    + f_equal. by apply size_list_to_set.
    + intros q Hq Hv. apply elem_of_list_to_set in Hq. by apply (Af q Hq).
Qed.

(** ** Termination and correctness *)

Definition grid : list Position :=
  x ← range_Z 0 (Z.to_nat w); y ← range_Z 0 (Z.to_nat h); [mkPos x y].

Lemma grid_length : length grid = Z.to_nat (w * h).
Proof.
  assert (Hin : forall x l, length (y ← l; [mkPos x y]) = length l).
  { intros x l. induction l as [|y l IH]; [done|]. cbn in *. by rewrite IH. }
  assert (Hout : forall l, length (x ← l; y ← range_Z 0 (Z.to_nat h); [mkPos x y])
                           = (length l * Z.to_nat h)%nat).
  { intros l. induction l as [|x l IH]; [done|]. cbn [mbind list_bind].
    rewrite length_app, Hin. cbn [mbind] in IH. rewrite IH. cbn.
    unfold range_Z at 1. by rewrite length_fmap, length_seq. }
  unfold grid. rewrite Hout. unfold range_Z. rewrite length_fmap, length_seq.
  by rewrite Z2Nat.inj_mul by lia.
Qed.

Lemma visited_bound (visited : gset Position) :
  (forall p, p ∈ visited -> inb p) -> (size visited <= Z.to_nat (w * h))%nat.
Proof.
  intros Hv. rewrite <- grid_length. unfold size, set_size. cbn.
  apply submseteq_length, NoDup_submseteq; [apply NoDup_elements|].
  intros p Hp. apply elem_of_elements, Hv, inb_spec in Hp.
  unfold grid. apply list_elem_of_bind. exists (px p). split; [|apply elem_of_range_Z; lia].
  apply list_elem_of_bind. exists (py p). split; [|apply elem_of_range_Z; lia].
  destruct p. by left.
Qed.

Lemma bfs_loop_spec fuel queue visited :
  bfs_inv queue visited ->
  (Z.to_nat (w * h) - size visited + length queue < fuel)%nat ->
  exists r, bfs_loop fuel goal w h queue visited = Some r
    /\ match r with
       | Some p => inb p /\ goal p = true
                   /\ forall q, inb q -> goal q = true -> d p <= d q
       | None => forall q, inb q -> goal q = false
       end.
Proof.
  revert queue visited. induction fuel as [|fuel IH]; intros queue visited I Hf; [lia|].
  cbn [bfs_loop]. destruct queue as [|p queue].
  { exists None. split; [done|]. intros q Hq.
    destruct (bfs_nearer_all [] visited q I Hq) as [Hv Hn].
    { intros x Hx. by apply elem_of_nil in Hx. }
    by apply (bi_done _ _ I). }
  destruct (goal p) eqn:Eg.
  { exists (Some p). split; [done|].
    split; [apply (bi_inb _ _ I), (bi_queue _ _ I); by left|]. split; [done|].
    intros q Hq Hg. destruct (decide (d p <= d q)) as [?|Hlt]; [done|].
    destruct (bfs_nearer_all (p :: queue) visited q I Hq) as [Hv Hn].
    - intros x Hx. enough (d p <= d x) by lia.
      apply elem_of_cons in Hx as [->|Hx]; [done|].
      pose proof (bi_sorted _ _ I) as Hs. apply StronglySorted_inv in Hs as [_ Hs].
      rewrite Forall_forall in Hs. by apply Hs.
    - rewrite (bi_done _ _ I q Hv Hn) in Hg. done. }
  destruct (bfs_step p queue visited I Eg) as (new & -> & I' & Hsize).
  apply IH; [done|]. rewrite Hsize, length_app. cbn [length] in Hf.
  pose proof (visited_bound _ (bi_inb _ _ I')) as Hb. rewrite Hsize in Hb. lia.
Qed.

Lemma bfs_start : bfs_inv [start] {[start]}.
Proof.
  split; try (intros; set_solver).
  - apply NoDup_singleton.
  - repeat constructor.
  - intros p q Hp Hq. apply list_elem_of_singleton in Hp as ->, Hq as ->. lia.
Qed.

Lemma bfs_spec :
  exists r, bfs goal start w h = Some r
    /\ match r with
       | Some p => inb p /\ goal p = true
                   /\ forall q, inb q -> goal q = true -> d p <= d q
       | None => forall q, inb q -> goal q = false
       end.
Proof.
  apply bfs_loop_spec; [apply bfs_start|]. unfold bfs_fuel. cbn. lia.
Qed.

End Search.

(** ** The chosen move *)

(** A cell the bot may enter. *)
Definition safe_cell (st : GameState) (p : Position) : Prop :=
  is_within_bounds p (wrap_i16 (width (gs_arena st))) (wrap_i16 (height (gs_arena st))) = true
  /\ would_collide_with_snake st p = false
  /\ count_escape_routes st p (wrap_i16 (width (gs_arena st)))
       (wrap_i16 (height (gs_arena st))) <> 0.

(** The score of a direction that is not skipped. *)
Lemma score_direction_some st hd target dir :
  (exists score, score_direction st hd target (wrap_i16 (width (gs_arena st)))
     (wrap_i16 (height (gs_arena st))) dir = Some score)
  <-> safe_cell st (get_new_position hd dir).
Proof.
  unfold score_direction, safe_cell. cbv zeta. split.
  - intros [score E]. destruct (is_within_bounds _ _ _); [|done]. cbn [negb] in E.
    destruct (would_collide_with_snake _ _); [done|].
    destruct (Z.eqb_spec (count_escape_routes st (get_new_position hd dir)
      (wrap_i16 (width (gs_arena st))) (wrap_i16 (height (gs_arena st)))) 0); done.
  - intros (-> & -> & Hn). cbn [negb]. rewrite (proj2 (Z.eqb_neq _ _) Hn). eauto.
Qed.

Lemma manhattan_u16 p q : 0 <= manhattan_distance p q < 65536.
Proof. unfold manhattan_distance, wrap_u16. apply Z.mod_pos_bound. lia. Qed.

Lemma score_above_min st hd target w h dir score :
  score_direction st hd target w h dir = Some score -> i32_min < score.
Proof.
  unfold score_direction. cbv zeta. destruct (negb _); [done|].
  destruct (would_collide_with_snake _ _); [done|]. destruct (_ =? 0); [done|].
  intros [= <-]. pose proof (manhattan_u16 (get_new_position hd dir) target).
  pose proof (manhattan_u16 (get_new_position hd dir) (mkPos (w ÷ 2) (h ÷ 2))).
  assert (0 <= count_escape_routes st (get_new_position hd dir) w h).
  { unfold count_escape_routes. cbn. repeat case_match; unfold wrap_u8;
      try apply Z.mod_pos_bound; lia. }
  unfold i32_min. lia.
Qed.

(** The outcome of the loop over [ds]: the first best score, if there is any. *)
Definition chosen (score_of : Direction -> option Z) (current : Direction)
    (ds : list Direction) (best : Direction) (score : Z) : Prop :=
  (best = current /\ score = i32_min /\ forall dir, dir ∈ ds -> score_of dir = None)
  \/ ((best ∈ ds) /\ score_of best = Some score
     /\ forall dir sc, dir ∈ ds -> score_of dir = Some sc -> sc <= score).

Lemma choose_chosen st hd target w h current ds best score :
  choose st hd target w h current ds = (best, score) ->
  chosen (score_direction st hd target w h) current ds best score.
Proof.
  unfold choose. revert best score.
  induction ds as [|dir ds IH] using rev_ind; intros best score.
  { intros [= <- <-]. left. split; [done|]. split; [done|]. intros dir Hd.
    by apply elem_of_nil in Hd. }
  rewrite foldl_app. cbn [foldl]. destruct (foldl _ _ ds) as [b0 s0].
  specialize (IH b0 s0 eq_refl). unfold chosen in *. setoid_rewrite elem_of_app.
  setoid_rewrite list_elem_of_singleton.
  destruct (score_direction st hd target w h dir) as [sc|] eqn:Es.
  - pose proof (score_above_min _ _ _ _ _ _ _ Es) as Hmin.
    destruct (Z.ltb_spec s0 sc) as [Hlt|Hge]; intros [= <- <-].
    + right. split; [by right|]. split; [done|]. intros dir' sc' [Hd| ->] E'; [|rewrite Es in E'; by injection E' as ->].
      destruct IH as [(_ & _ & Hnone)|(_ & _ & Hmax)]; [by rewrite Hnone in E'|].
      specialize (Hmax dir' sc' Hd E'). lia.
    + destruct IH as [(_ & -> & _)|(Hin & E0 & Hmax)]; [lia|]. right. split; [by left|].
      split; [done|]. intros dir' sc' [Hd| ->] E'; [by eapply Hmax|]. rewrite Es in E'.
      by injection E' as <-.
  - intros [= <- <-]. destruct IH as [(-> & -> & Hnone)|(Hin & E0 & Hmax)].
    + left. split; [done|]. split; [done|]. intros dir' [Hd| ->]; [by apply Hnone|done].
    + right. split; [by left|]. split; [done|]. intros dir' sc' [Hd| ->] E'; [by eapply Hmax|].
      congruence.
Qed.

(** C30. The bot's breadth-first search always ends within its fuel, and what
    it finds is right: a goal in the arena no farther than any other one, or
    nothing when there is no goal. *)
Theorem search_finds_the_nearest goal start w h :
  0 < w <= i16_max -> 0 < h <= i16_max -> is_within_bounds start w h = true ->
  exists r, bfs goal start w h = Some r
    /\ match r with
       | Some p => is_within_bounds p w h = true /\ goal p = true
                   /\ forall q, is_within_bounds q w h = true -> goal q = true ->
                      manhattan start p <= manhattan start q
       | None => forall q, is_within_bounds q w h = true -> goal q = false
       end.
Proof. apply bfs_spec. Qed.

Lemma search_finds_the_nearest_witness :
  exists r, bfs (fun p => bool_decide (p = mkPos 4 1) || bool_decide (p = mkPos 0 2)) (mkPos 1 1) 6 5
    = Some r /\ r = Some (mkPos 0 2).
Proof.
  destruct (search_finds_the_nearest
    (fun p => bool_decide (p = mkPos 4 1) || bool_decide (p = mkPos 0 2)) (mkPos 1 1) 6 5)
    as (r & E & _).
  - vm_compute. split; [reflexivity|discriminate].
  - vm_compute. split; [reflexivity|discriminate].
  - reflexivity.
  - exists r. split; [exact E|]. vm_compute in E. injection E as <-. reflexivity.
Defined.

(** The bot never reverses and never walks into a dead cell it could
    avoid: the move it chooses is not opposite to its direction, and whenever
    some allowed direction leads to a cell in the arena that no living snake
    covers and that has a way out, the chosen move leads to such a cell;
    otherwise it keeps its direction. *)
Theorem bot_moves_are_safe st i current s h move :
  vec_get (gs_snakes st) i = Some s -> head s = Ok h ->
  calculate_ai_move st i current = Some move ->
  is_opposite current move = false
  /\ ((exists dir, is_opposite current dir = false /\ safe_cell st (get_new_position h dir)) ->
      safe_cell st (get_new_position h move))
  /\ ((forall dir, is_opposite current dir = false -> ~ safe_cell st (get_new_position h dir)) ->
      move = current).
Proof.
  intros Hs Hh. unfold calculate_ai_move. rewrite Hs, Hh. destruct (is_alive s); [|done].
  cbn [negb]. set (w := wrap_i16 (width (gs_arena st))). set (hh := wrap_i16 (height (gs_arena st))).
  destruct (ai_target st s h w hh) as [target|]; [|done].
  set (ds := filter (fun d => is_opposite current d = false) all_directions).
  destruct (choose st h target w hh current ds) as [best score] eqn:Ec.
  assert (Hds : forall dir, dir ∈ ds <-> is_opposite current dir = false).
  { intros dir. unfold ds. rewrite list_elem_of_filter. split; [tauto|]. split; [done|].
    unfold all_directions. destruct dir; set_solver. }
  assert (Hself : is_opposite current current = false) by by destruct current.
  intros [= <-]. apply choose_chosen in Ec as [(-> & -> & Hnone)|(Hin & E & _)].
  - assert (Hn : forall dir, is_opposite current dir = false ->
      ~ safe_cell st (get_new_position h dir)).
    { intros dir Hd Hsafe. apply (score_direction_some st h target) in Hsafe as [sc Esc].
      apply Hds in Hd. fold w hh in Esc. by rewrite Hnone in Esc. }
    rewrite Z.eqb_refl. split; [done|]. split; [|done]. intros (dir & Hd & Hsafe).
    by destruct (Hn dir Hd).
  - pose proof (score_above_min _ _ _ _ _ _ _ E) as Hmin.
    rewrite (proj2 (Z.eqb_neq score i32_min)) by lia. apply Hds in Hin.
    assert (Hsafe : safe_cell st (get_new_position h best)).
    { apply (score_direction_some st h target). eauto. }
    split; [done|]. split; [done|]. intros Hn. by destruct (Hn best Hin).
Qed.

Lemma bot_moves_are_safe_witness :
  exists move, calculate_ai_move duel 0 Right = Some move /\ is_opposite Right move = false.
Proof.
  destruct (calculate_ai_move duel 0 Right) as [move|] eqn:E; [|vm_compute in E; discriminate].
  destruct (vec_get (gs_snakes duel) 0) as [s|] eqn:Es; [|vm_compute in Es; discriminate].
  destruct (head s) as [h|x|x] eqn:Eh;
    [|vm_compute in Es; injection Es as <-; vm_compute in Eh; discriminate..].
  exists move. split; [reflexivity|].
  apply (bot_moves_are_safe duel 0 Right s h move Es Eh E).
Defined.
