(* ===== verification/SyncTheorems.v ===== *)
(** * Theorems on the synchronisation fingerprint

    What equal fingerprints say about two states, and what a fingerprint does
    not depend on. *)

From Stdlib Require Import ZArith.
From stdpp Require Import prelude strings countable list gmap sorting relations.
From S2P Require Import Prelude Snake Arena CommandQueue GameState GameSetup Events.
From S2P Require Import Validate Tick MatchTheorems Fingerprint FingerprintFacts.
Open Scope Z_scope.

(** C19. The byte stream under the fingerprint is unambiguous: two states whose
    fields are within their machine words and whose streams are equal agree on
    the tick, the status, the arena, every snake, the pads and the food, the
    owners, all scores and counters, the activity clocks, the removed users,
    the properties and the pending confirmed commands. A collision of two
    different games can only come from the hash. *)
Theorem stream_determines_the_game st1 st2 :
  sync_fits st1 = true -> sync_fits st2 = true -> sync_stream st1 = sync_stream st2 ->
  same_game st1 st2
  /\ sync_commands (authoritative_commands (gs_command_queue st1))
     = sync_commands (authoritative_commands (gs_command_queue st2)).
Proof. apply stream_determines. Qed.

Lemma stream_determines_the_game_witness :
  gs_snakes duel = gs_snakes (with_event_sequence 9 duel).
Proof.
  apply sg_snakes. apply (stream_determines_the_game duel (with_event_sequence 9 duel));
    vm_compute; reflexivity.
Defined.

(** Any difference in a single byte of the stream changes the fingerprint:
    a replica that is off by one tick, one cell of a body or one flag is
    always detected. The fingerprint itself exists for every state. *)
Theorem one_byte_is_detected st1 st2 l a b r :
  sync_stream st1 = l ++ a :: r -> sync_stream st2 = l ++ b :: r -> a <> b ->
  exists h1 h2, sync_hash st1 = Ok h1 /\ sync_hash st2 = Ok h2 /\ h1 <> h2.
Proof.
  unfold sync_stream, sync_hash. destruct (sync_view_total st1) as [v1 ->], (sync_view_total st2) as [v2 ->].
  intros E1 E2 Hne. eexists _, _. split; [reflexivity|]. split; [reflexivity|].
  pose proof (enc_bytes viewc v1) as B1. pose proof (enc_bytes viewc v2) as B2.
  rewrite E1 in B1 |- *. rewrite E2 in B2 |- *.
  apply Forall_app in B1 as [_ [Ha Hr]%Forall_cons], B2 as [_ [Hb _]%Forall_cons].
  by apply one_byte_differs.
Qed.

Lemma one_byte_is_detected_witness :
  exists h1 h2, sync_hash duel = Ok h1 /\ sync_hash (with_tick 1 duel) = Ok h2 /\ h1 <> h2.
Proof.
  apply (one_byte_is_detected duel (with_tick 1 duel) [] 0 1 (tail (sync_stream duel))).
  - vm_compute. reflexivity.
  - vm_compute. reflexivity.
  - discriminate.
Defined.

(** The fingerprint compares games, not memories: the order of the food,
    predicted commands, the random generator, the names and skins of players,
    the spectators and the event counter do not enter it, so that a server and
    a replica that differ only in these agree. *)
Theorem fingerprint_ignores_local_data st f q rng names skins spectators seq :
  f ≡ₚ gs_food st ->
  filter (fun m => speculative m = false) (queue q)
  = filter (fun m => speculative m = false) (queue (gs_command_queue st)) ->
  sync_hash (with_food f (with_command_queue q (with_rng rng (with_usernames names
    (with_skins skins (with_spectators spectators (with_event_sequence seq st)))))))
  = sync_hash st.
Proof.
  intros Hf Hq. apply sync_hash_view.
  - exact (food_order_view st f Hf).
  - by apply authoritative_filter.
Qed.

Lemma fingerprint_ignores_local_data_witness :
  let st := with_food [mkPos 3 4; mkPos 5 6] duel in
  sync_hash (with_food [mkPos 5 6; mkPos 3 4]
    (with_command_queue (push CommandQueue_new (mkMsg (mkCommandId 0 1 0) None (Cmd_Turn 0 Up)))
      (with_rng None (with_usernames ∅ (with_skins ∅ (with_spectators ∅ (with_event_sequence 5 st)))))))
  = sync_hash st.
Proof.
  apply (fingerprint_ignores_local_data (with_food [mkPos 3 4; mkPos 5 6] duel)).
  - apply Permutation_swap.
  - vm_compute. reflexivity.
Defined.
