(* ===== verification/StreamId.v ===== *)
(** * Decimal numbers and Redis stream ids

    [validate_stream_id] and [stream_id_leq] of server/src/recovery.rs with
    what they use of the standard library: [str::parse] for unsigned integers,
    [str::split_once] and [u64]'s [Display]. A [str] is the string of its
    bytes. *)

From Stdlib Require Import ZArith Ascii.
From stdpp Require Import prelude strings pretty.
From S2P Require Import Prelude.
Open Scope Z_scope.

(** ** [str::parse] and [Display] *)

Definition digit_value (c : ascii) : option Z :=
  let n := Z.of_N (N_of_ascii c) in
  if (48 <=? n) && (n <=? 57) then Some (n - 48) else None.

(** [checked_mul] and [checked_add] digit by digit: a product above [max] is
    above it after the addition too. *)
Fixpoint parse_digits (max acc : Z) (s : string) : option Z :=
  match s with
  | EmptyString => Some acc
  | String c s' =>
      match digit_value c with
      | Some d =>
          if acc * 10 + d <=? max then parse_digits max (acc * 10 + d) s' else None
      | None => None
      end
  end.

(** [from_str_radix(10)] of an unsigned type: a leading [+] is accepted, a
    leading [-] is an invalid digit. *)
Definition parse_uint (max : Z) (s : string) : option Z :=
  match s with
  | EmptyString => None
  | String c s' =>
      if bool_decide (c = "+"%char)
      then match s' with EmptyString => None | _ => parse_digits max 0 s' end
      else parse_digits max 0 s
  end.

Definition display_uint (n : Z) : string := pretty (Z.to_N n).

(** [Display] of a signed integer. *)
Definition display_int (n : Z) : string :=
  if n <? 0 then "-" +:+ display_uint (- n) else display_uint n.

Fixpoint split_once (c : ascii) (s : string) : option (string * string) :=
  match s with
  | EmptyString => None
  | String a s' =>
      if bool_decide (a = c) then Some (EmptyString, s')
      else match split_once c s' with
           | Some (l, r) => Some (String a l, r)
           | None => None
           end
  end.

(** ** Stream ids *)

Definition validate_stream_id (id : string) : Result (Z * Z) :=
  '(ms, sequence) ← context "invalid Redis stream ID" (split_once "-"%char id);
  ms ← context "invalid Redis stream timestamp" (parse_uint u64_max ms);
  sequence ← context "invalid Redis stream sequence" (parse_uint u64_max sequence);
  Ok (ms, sequence).

(** The lexicographic order of pairs. *)
Definition pair_leb (a b : Z * Z) : bool :=
  (a.1 <? b.1) || ((a.1 =? b.1) && (a.2 <=? b.2)).

Definition stream_id_leq (left right : string) : Result bool :=
  l ← validate_stream_id left;
  r ← validate_stream_id right;
  Ok (pair_leb l r).

(** The id Redis prints for an entry. *)
Definition display_stream_id (ms sequence : Z) : string :=
  display_uint ms +:+ "-" +:+ display_uint sequence.

(** ** Digits *)

Definition is_digit (c : ascii) : bool :=
  match digit_value c with Some _ => true | None => false end.

Fixpoint all_digits (s : string) : bool :=
  match s with
  | EmptyString => true
  | String c s' => is_digit c && all_digits s'
  end.

Lemma digit_value_pretty x : (x < 10)%N -> digit_value (pretty_N_char x) = Some (Z.of_N x).
Proof.
  intros. assert (x = 0 \/ x = 1 \/ x = 2 \/ x = 3 \/ x = 4 \/ x = 5 \/ x = 6 \/ x = 7
    \/ x = 8 \/ x = 9)%N as H' by lia.
  destruct_or! H'; subst; reflexivity.
Qed.

Lemma parse_digits_pretty max x s :
  parse_digits max 0 (pretty_N_go x s)
  = if (x =? 0)%N then parse_digits max 0 s
    else if Z.of_N x <=? max then parse_digits max (Z.of_N x) s else None.
Proof.
  revert s. induction (N.lt_wf_0 x) as [x _ IH]; intros s.
  destruct (N.eqb_spec x 0) as [->|Hx]; [by rewrite pretty_N_go_0|].
  rewrite pretty_N_go_step by lia. rewrite IH by (apply N.div_lt; lia).
  cbn [parse_digits]. rewrite digit_value_pretty by (apply N.mod_lt; lia).
  assert (Hd : Z.of_N x = Z.of_N (x `div` 10) * 10 + Z.of_N (x `mod` 10)).
  { pose proof (N.div_mod x 10 ltac:(lia)). lia. }
  destruct (N.eqb_spec (x `div` 10) 0) as [E|E].
  - rewrite E in Hd. by replace (0 * 10 + Z.of_N (x `mod` 10)) with (Z.of_N x) by lia.
  - rewrite <-Hd. destruct (Z.leb_spec (Z.of_N (x `div` 10)) max); [done|].
    rewrite (proj2 (Z.leb_gt (Z.of_N x) max)); [done|].
    pose proof (N2Z.is_nonneg (x `div` 10)). pose proof (N2Z.is_nonneg (x `mod` 10)). nia.
Qed.

Lemma all_digits_pretty_go x s : all_digits s = true -> all_digits (pretty_N_go x s) = true.
Proof.
  revert s. induction (N.lt_wf_0 x) as [x _ IH]; intros s Hs.
  destruct (N.eqb_spec x 0) as [->|Hx]; [by rewrite pretty_N_go_0|].
  rewrite pretty_N_go_step by lia. apply IH; [apply N.div_lt; lia|].
  cbn [all_digits]. unfold is_digit. by rewrite digit_value_pretty by (apply N.mod_lt; lia).
Qed.

Lemma all_digits_display n : all_digits (display_uint n) = true.
Proof.
  unfold display_uint, pretty, pretty_N. case_decide; [done|by apply all_digits_pretty_go].
Qed.

Lemma parse_uint_digits max s :
  all_digits s = true -> s <> EmptyString -> parse_uint max s = parse_digits max 0 s.
Proof.
  destruct s as [|c s]; [done|]. cbn. intros [Hc _]%andb_true_iff _.
  rewrite bool_decide_false; [done|]. by intros ->.
Qed.

(** [str::parse] reads what [Display] writes. *)
Lemma display_uint_inj a b : 0 <= a -> 0 <= b -> display_uint a = display_uint b -> a = b.
Proof. unfold display_uint. intros ? ? H. apply (inj pretty) in H. lia. Qed.

Lemma parse_display max n : 0 <= n <= max -> parse_uint max (display_uint n) = Some n.
Proof.
  intros Hn. pose proof (all_digits_display n) as Hd. unfold display_uint in *.
  assert (Hp : parse_digits max 0 (pretty (Z.to_N n)) = Some n).
  { unfold pretty, pretty_N. case_decide as E.
    - change (parse_digits max 0 "0") with (if 0 <=? max then Some 0 else None).
      rewrite (proj2 (Z.leb_le _ _)) by lia. f_equal. lia.
    - rewrite parse_digits_pretty, (proj2 (N.eqb_neq _ _)) by done.
      rewrite Z2N.id, (proj2 (Z.leb_le _ _)) by lia. done. }
  rewrite parse_uint_digits; [done|done|]. intros E.
  rewrite E in Hp. injection Hp as <-. discriminate E.
Qed.

(** ** [split_once] *)

Fixpoint lacks (c : ascii) (s : string) : bool :=
  match s with
  | EmptyString => true
  | String a s' => negb (bool_decide (a = c)) && lacks c s'
  end.

Lemma lacks_digits c s : is_digit c = false -> all_digits s = true -> lacks c s = true.
Proof.
  intros Hc. induction s as [|a s IH]; cbn; [done|]. intros [Ha Hs]%andb_true_iff.
  rewrite (IH Hs), andb_true_r. rewrite bool_decide_false; [done|]. intros ->. congruence.
Qed.

Lemma split_once_app c l r :
  lacks c l = true -> split_once c (l +:+ String c r) = Some (l, r).
Proof.
  induction l as [|a l IH]; intros Hl.
  - change (EmptyString +:+ String c r) with (String c r). cbn [split_once].
    by rewrite bool_decide_true.
  - change (String a l +:+ String c r) with (String a (l +:+ String c r)).
    cbn [split_once lacks] in *. apply andb_true_iff in Hl as [Ha%negb_true_iff Hl].
    by rewrite Ha, IH.
Qed.

Lemma validate_display ms sequence :
  is_u64 ms -> is_u64 sequence ->
  validate_stream_id (display_stream_id ms sequence) = Ok (ms, sequence).
Proof.
  intros Hm Hs. unfold validate_stream_id, display_stream_id.
  change (display_uint ms +:+ "-" +:+ display_uint sequence)
    with (display_uint ms +:+ String "-"%char (display_uint sequence)).
  rewrite split_once_app by (apply lacks_digits; [done|apply all_digits_display]).
  cbn. rewrite !parse_display by done. done.
Qed.

Lemma pair_leb_spec a b : pair_leb a b = true <-> a.1 < b.1 \/ (a.1 = b.1 /\ a.2 <= b.2).
Proof. unfold pair_leb. rewrite orb_true_iff, andb_true_iff. lia. Qed.

Lemma pair_leb_total a b : pair_leb a b = false -> pair_leb b a = true.
Proof.
  intros H. apply pair_leb_spec. destruct (Z.lt_total a.1 b.1) as [?|[?|?]];
    destruct (Z.le_gt_cases a.2 b.2);
    try (apply not_true_iff_false in H; exfalso; apply H, pair_leb_spec; lia); lia.
Qed.

Lemma pair_leb_trans a b c : pair_leb a b = true -> pair_leb b c = true -> pair_leb a c = true.
Proof. rewrite !pair_leb_spec. lia. Qed.

Lemma display_uint_nonempty n : display_uint n <> EmptyString.
Proof.
  unfold display_uint, pretty, pretty_N. case_decide as H; [done|]. intros E.
  pose proof (parse_digits_pretty (Z.of_N (Z.to_N n)) (Z.to_N n) "") as P. rewrite E in P. cbn in P.
  destruct (N.eqb_spec (Z.to_N n) 0); [done|]. rewrite Z.leb_refl in P. injection P as P. lia.
Qed.

(** The sign tells negative numbers apart. *)
Lemma display_int_inj a b : display_int a = display_int b -> a = b.
Proof.
  assert (Hd : forall n m, "-" +:+ display_uint n <> display_uint m).
  { intros n m E. pose proof (all_digits_display m) as H. by rewrite <-E in H. }
  unfold display_int. destruct (Z.ltb_spec a 0), (Z.ltb_spec b 0); intros E.
  - injection E as E. apply display_uint_inj in E; lia.
  - by apply Hd in E.
  - symmetry in E. by apply Hd in E.
  - apply display_uint_inj in E; lia.
Qed.
