(* ===== verification/CommandLedger.v ===== *)
(** * Command outcomes: server/src/recovery.rs

    The logical outcome of every client command, kept per client session: the
    contiguous watermark, the recent exact results and the fence that closes a
    session, and the game-wide table of sessions.

    A [BTreeMap] is a [gmap]; its ordered reads, the least key and the count of
    a range, are [first_key] and the size of a filtered map. A method that
    mutates pairs its result with the value it leaves behind. The two loops of
    [record] have one round per recorded outcome, which [LedgerFacts] shows to
    be enough. *)

From Stdlib Require Import ZArith.
From stdpp Require Import prelude strings countable list gmap.
From S2P Require Import Prelude Snake Arena CommandQueue GameState StreamId.
Open Scope Z_scope.

Definition DEFAULT_MAX_RECORDED_OUTCOMES_PER_SESSION : Z := 128.
Definition MAX_RECORDED_COMMAND_SESSIONS_PER_GAME : Z := 64.
Definition MAX_CLIENT_GAME_SESSION_ID_BYTES : Z := 128.
Definition SPARSE_COMMAND_WINDOW_REJECTION_REASON : string :=
  "client command session exceeded its recoverable sparse sequence window".

Definition checked_add_u64 (a b : Z) : option Z :=
  if a + b <=? u64_max then Some (a + b) else None.

(** ** Identities and outcomes *)

Definition validate_client_command_identity (identity : ClientCommandIdentityV2)
  : Result unit :=
  ensure (negb (ci_sequence identity =? 0))
    "v2 client command sequence must start at one" ;;
  let session_len := Z.of_nat (String.length (ci_client_game_session_id identity)) in
  ensure (negb ((session_len =? 0) || (MAX_CLIENT_GAME_SESSION_ID_BYTES <? session_len)))
    "v2 client game session ID must contain 1..=128 bytes".

Inductive CommandOutcome :=
| CO_Scheduled (command : GameCommandMessage)
| CO_Rejected (reason : string) (command_id_client : option CommandId).

#[global] Instance GameStatus_eq_dec : EqDecision GameStatus.
Proof. solve_decision. Defined.
#[global] Instance GameCommand_eq_dec : EqDecision GameCommand.
Proof. solve_decision. Defined.
#[global] Instance GameCommandMessage_eq_dec : EqDecision GameCommandMessage.
Proof. solve_decision. Defined.
#[global] Instance CommandOutcome_eq_dec : EqDecision CommandOutcome.
Proof. solve_decision. Defined.
#[global] Instance ClientCommandIdentityV2_eq_dec : EqDecision ClientCommandIdentityV2.
Proof. solve_decision. Defined.

Definition rejection_reason (o : CommandOutcome) : option string :=
  match o with CO_Rejected reason _ => Some reason | CO_Scheduled _ => None end.

(** ** One session *)

Record SessionCommandRejectionFence := mkFence {
  from_sequence : Z;
  fence_reason : string
}.

Definition fence_validate (f : SessionCommandRejectionFence) : Result unit :=
  ensure (negb (from_sequence f =? 0))
    "command-session rejection fence must start at one" ;;
  ensure (negb (bool_decide (fence_reason f = EmptyString)))
    "command-session rejection fence reason cannot be empty".

Definition covers (f : SessionCommandRejectionFence) (sequence : Z) : bool :=
  from_sequence f <=? sequence.

Record SessionCommandOutcomes := mkSession {
  contiguous_through : Z;
  outcomes : gmap Z CommandOutcome;
  rejection_fence : option SessionCommandRejectionFence
}.

Definition SessionCommandOutcomes_default : SessionCommandOutcomes := mkSession 0 ∅ None.

Definition has_outcome (s : SessionCommandOutcomes) (sequence : Z) : bool :=
  bool_decide (is_Some (outcomes s !! sequence)).

(** [fence.as_ref().is_some_and(|fence| fence.covers(sequence))]. *)
Definition fenced (s : SessionCommandOutcomes) (sequence : Z) : bool :=
  match rejection_fence s with Some f => covers f sequence | None => false end.

Definition session_validate (s : SessionCommandOutcomes) : Result unit :=
  ensure (negb (has_outcome s 0)) "resolved client command sequence must start at one" ;;
  match rejection_fence s with Some f => fence_validate f | None => Ok tt end.

Definition session_get (s : SessionCommandOutcomes) (sequence : Z) : option CommandOutcome :=
  outcomes s !! sequence.

Definition session_resolved (s : SessionCommandOutcomes) (sequence : Z) : bool :=
  (0 <? sequence)
  && ((sequence <=? contiguous_through s) || has_outcome s sequence || fenced s sequence).

Definition session_fence_for (s : SessionCommandOutcomes) (sequence : Z)
  : option SessionCommandRejectionFence :=
  if (sequence =? 0) || (sequence <=? contiguous_through s) || has_outcome s sequence
  then None
  else match rejection_fence s with
       | Some f => if covers f sequence then Some f else None
       | None => None
       end.

(** The outcomes above the watermark: [range((Excluded(contiguous), Unbounded))]. *)
Definition sparse (s : SessionCommandOutcomes) : gmap Z CommandOutcome :=
  filter (fun kv => contiguous_through s < kv.1) (outcomes s).

Definition map_len {V} (m : gmap Z V) : Z := Z.of_nat (size m).

Definition session_window_full (s : SessionCommandOutcomes) (sequence max_results : Z) : bool :=
  (0 <? max_results)
  && negb (has_outcome s sequence)
  && match session_fence_for s sequence with None => true | Some _ => false end
  && negb (bool_decide (Some sequence = checked_add_u64 (contiguous_through s) 1))
  && (max_results <=? map_len (sparse s)).

Definition session_install_fence (s : SessionCommandOutcomes) (from : Z) (reason : string)
  : Result SessionCommandRejectionFence * SessionCommandOutcomes :=
  let proposed := mkFence from reason in
  match fence_validate proposed with
  | Ok _ =>
      match rejection_fence s with
      | Some existing =>
          if bool_decide (fence_reason existing = fence_reason proposed) then
            let f := mkFence (Z.min (from_sequence existing) (from_sequence proposed))
                       (fence_reason existing) in
            (Ok f, mkSession (contiguous_through s) (outcomes s) (Some f))
          else (Err "client command session has conflicting rejection fences", s)
      | None =>
          (Ok proposed, mkSession (contiguous_through s) (outcomes s) (Some proposed))
      end
  | Err e => (Err e, s)
  | Panic e => (Panic e, s)
  end.

Definition session_can_record (s : SessionCommandOutcomes) (sequence max_results : Z)
  : Result unit :=
  ensure (negb (sequence =? 0)) "v2 client command sequence must start at one" ;;
  ensure (negb (max_results =? 0)) "resolved command retention must be non-zero" ;;
  if has_outcome s sequence then Ok tt
  else
    ensure (negb (fenced s sequence))
      "client command identity is covered by its session rejection fence" ;;
    ensure (negb (session_window_full s sequence max_results))
      "too many sparse command outcomes; session must resynchronize".

(** [keys().next()]. *)
Definition first_key {V} (m : gmap Z V) : option Z :=
  map_fold (fun k _ acc => match acc with
                           | None => Some k
                           | Some a => Some (Z.min k a)
                           end) None m.

(** [while let Some(next) = contiguous_through.checked_add(1)]. *)
Fixpoint advance_contiguous (fuel : nat) (m : gmap Z CommandOutcome) (through : Z) : Z :=
  match fuel with
  | O => through
  | S fuel =>
      match checked_add_u64 through 1 with
      | None => through
      | Some next =>
          if bool_decide (is_Some (m !! next)) then advance_contiguous fuel m next else through
      end
  end.

(** [while self.outcomes.len() > max_results]. *)
Fixpoint prune_outcomes (fuel : nat) (through max_results : Z) (m : gmap Z CommandOutcome)
  : Result unit * gmap Z CommandOutcome :=
  match fuel with
  | O => (Ok tt, m)
  | S fuel =>
      if max_results <? map_len m then
        match first_key m with
        | None => (Ok tt, m)
        | Some oldest =>
            if through <? oldest
            then (Err "too many sparse command outcomes; session must resynchronize", m)
            else prune_outcomes fuel through max_results (delete oldest m)
        end
      else (Ok tt, m)
  end.

Definition session_record (s : SessionCommandOutcomes) (sequence : Z)
    (outcome : CommandOutcome) (max_results : Z)
  : Result CommandOutcome * SessionCommandOutcomes :=
  if sequence =? 0 then (Err "v2 client command sequence must start at one", s)
  else if max_results =? 0 then (Err "resolved command retention must be non-zero", s)
  else match outcomes s !! sequence with
  | Some existing =>
      if bool_decide (existing = outcome) then (Ok existing, s)
      else (Err "one client command identity resolved to conflicting outcomes", s)
  | None =>
      match session_can_record s sequence max_results with
      | Ok _ =>
          let m := <[sequence := outcome]> (outcomes s) in
          let through := advance_contiguous (size m) m (contiguous_through s) in
          let '(r, m) := prune_outcomes (size m) through max_results m in
          let s := mkSession through m (rejection_fence s) in
          match r with
          | Ok _ => (Ok outcome, s)
          | Err e => (Err e, s)
          | Panic e => (Panic e, s)
          end
      | Err e => (Err e, s)
      | Panic e => (Panic e, s)
      end
  end.

(** ** The sessions of a game *)

Abbreviation ResolvedCommandState := (gmap string SessionCommandOutcomes).

Definition session_key (identity : ClientCommandIdentityV2) : string :=
  display_uint (ci_user_id identity) +:+ ":" +:+ ci_client_game_session_id identity.

Definition resolved_get (r : ResolvedCommandState) (identity : ClientCommandIdentityV2)
  : option CommandOutcome :=
  match r !! session_key identity with
  | Some s => session_get s (ci_sequence identity)
  | None => None
  end.

Definition is_terminally_resolved (r : ResolvedCommandState)
    (identity : ClientCommandIdentityV2) : bool :=
  match r !! session_key identity with
  | Some s => session_resolved s (ci_sequence identity)
  | None => false
  end.

Definition rejection_fence_for (r : ResolvedCommandState)
    (identity : ClientCommandIdentityV2) : option SessionCommandRejectionFence :=
  match r !! session_key identity with
  | Some s => session_fence_for s (ci_sequence identity)
  | None => None
  end.

Definition sparse_window_is_full (r : ResolvedCommandState)
    (identity : ClientCommandIdentityV2) (max_results : Z) : bool :=
  match r !! session_key identity with
  | Some s => session_window_full s (ci_sequence identity) max_results
  | None => false
  end.

Definition install_rejection_fence (r : ResolvedCommandState)
    (identity : ClientCommandIdentityV2) (from : Z) (reason : string)
  : Result SessionCommandRejectionFence * ResolvedCommandState :=
  match validate_client_command_identity identity with
  | Ok _ =>
      if (from =? 0) || (ci_sequence identity <? from)
      then (Err "command-session rejection fence does not cover its command identity", r)
      else match r !! session_key identity with
      | None => (Err "cannot fence an unrecorded client command session", r)
      | Some s =>
          let '(f, s) := session_install_fence s from reason in
          (f, <[session_key identity := s]> r)
      end
  | Err e => (Err e, r)
  | Panic e => (Panic e, r)
  end.

Definition can_record (r : ResolvedCommandState) (identity : ClientCommandIdentityV2)
    (max_results : Z) : Result unit :=
  validate_client_command_identity identity ;;
  match r !! session_key identity with
  | Some s => session_can_record s (ci_sequence identity) max_results
  | None =>
      if max_results =? 0 then Err "resolved command retention must be non-zero"
      else if MAX_RECORDED_COMMAND_SESSIONS_PER_GAME <=? Z.of_nat (size r)
      then Err "too many client command sessions for one game; session must resynchronize"
      else Ok tt
  end.

(** [entry(key).or_default().record(..)]. *)
Definition resolved_record (r : ResolvedCommandState) (identity : ClientCommandIdentityV2)
    (outcome : CommandOutcome) (max_results : Z)
  : Result CommandOutcome * ResolvedCommandState :=
  match can_record r identity max_results with
  | Ok _ =>
      let s := default SessionCommandOutcomes_default (r !! session_key identity) in
      let '(o, s) := session_record s (ci_sequence identity) outcome max_results in
      (o, <[session_key identity := s]> r)
  | Err e => (Err e, r)
  | Panic e => (Panic e, r)
  end.
