(* ===== verification/LedgerFacts.v ===== *)
(** * Facts on the command ledger

    The abstract ledger of a session is the map [H] of every sequence number
    that was ever decided to its outcome. [session_repr] says that a session
    represents [H]: it has forgotten outcomes only below its watermark, and the
    watermark is the longest decided prefix. *)

From Stdlib Require Import ZArith Ascii.
From stdpp Require Import prelude strings countable list gmap.
From S2P Require Import Prelude Snake Arena CommandQueue GameState StreamId CommandLedger.
Open Scope Z_scope.

(** ** Ordered reads of a map *)

Lemma first_key_spec {V} (m : gmap Z V) :
  match first_key m with
  | None => m = ∅
  | Some k => is_Some (m !! k) /\ forall j, is_Some (m !! j) -> k <= j
  end.
Proof.
  unfold first_key.
  apply (map_fold_weak_ind (fun acc m => match acc with
    | None => m = ∅ | Some k => is_Some (m !! k) /\ forall j, is_Some (m !! j) -> k <= j end)).
  - done.
  - intros i x m' [a|] Hi IH.
    + destruct IH as [Ha Hl]. split.
      * destruct (Z.min_spec i a) as [[_ ->]|[_ ->]]; [by rewrite lookup_insert_eq|].
        destruct (decide (a = i)) as [->|]; [by rewrite lookup_insert_eq|].
        by rewrite lookup_insert_ne.
      * intros j. destruct (decide (j = i)) as [->|]; [lia|].
        rewrite lookup_insert_ne by done. intros Hj%Hl. lia.
    + subst m'. split; [by rewrite lookup_insert_eq|]. intros j.
      destruct (decide (j = i)) as [->|]; [lia|]. rewrite lookup_insert_ne by done. by intros [].
Qed.

(** The keys of [m] above [c]. *)
Definition above {V} (c : Z) (m : gmap Z V) : gmap Z V := filter (fun kv => c < kv.1) m.

Lemma lookup_above {V} c (m : gmap Z V) k :
  above c m !! k = if decide (c < k) then m !! k else None.
Proof.
  unfold above. rewrite map_lookup_filter. destruct (m !! k) as [v|]; cbn; case_decide;
    try done; by case_guard.
Qed.

Lemma above_step {V} c (m : gmap Z V) v :
  m !! (c + 1) = Some v -> above c m = <[c + 1 := v]> (above (c + 1) m).
Proof.
  intros Hv. apply map_eq. intros k. destruct (decide (k = c + 1)) as [->|].
  - rewrite lookup_insert_eq, lookup_above. by rewrite decide_True by lia.
  - rewrite lookup_insert_ne, !lookup_above by done.
    do 2 case_decide; try done; lia.
Qed.

Lemma size_above_step {V} c (m : gmap Z V) :
  is_Some (m !! (c + 1)) -> size (above c m) = S (size (above (c + 1) m)).
Proof.
  intros [v Hv]. rewrite (above_step _ _ _ Hv), map_size_insert_None; [done|].
  rewrite lookup_above. by rewrite decide_False by lia.
Qed.

Lemma size_subseteq {V} (m1 m2 : gmap Z V) : m1 ⊆ m2 -> (size m1 <= size m2)%nat.
Proof. intros H. rewrite <-!size_dom. by apply subseteq_size, subseteq_dom. Qed.

Lemma above_subseteq {V} c (m : gmap Z V) : above c m ⊆ m.
Proof. apply map_filter_subseteq. Qed.

Lemma above_mono {V} c c' (m m' : gmap Z V) :
  c <= c' -> above c' m ⊆ m' -> above c' m ⊆ above c m'.
Proof.
  intros Hc Hs. apply map_subseteq_spec. intros k v Hk.
  rewrite lookup_above. case_decide.
  - by apply (lookup_weaken _ _ _ _ Hk).
  - rewrite lookup_above in Hk. case_decide; [lia|done].
Qed.

(** ** The loops of [record] *)

Lemma advance_contiguous_spec fuel m c :
  c <= u64_max ->
  let t := advance_contiguous fuel m c in
  c <= t <= u64_max
  /\ (forall n, c < n <= t -> is_Some (m !! n))
  /\ ((size (above c m) <= fuel)%nat -> m !! (t + 1) = None \/ t = u64_max).
Proof.
  revert c. induction fuel as [|fuel IH]; intros c Hc; cbn zeta.
  - cbn. split; [lia|]. split; [lia|]. intros Hs. left.
    destruct (m !! (c + 1)) eqn:E; [|done].
    rewrite size_above_step in Hs by (by rewrite E). lia.
  - cbn [advance_contiguous]. unfold checked_add_u64.
    destruct (Z.leb_spec (c + 1) u64_max).
    2:{ split; [lia|]. split; [lia|]. right. lia. }
    destruct (bool_decide_reflect (is_Some (m !! (c + 1)))) as [E|E].
    + destruct (IH (c + 1) ltac:(lia)) as (H1 & H2 & H3). split; [lia|]. split.
      * intros n Hn. destruct (decide (n = c + 1)) as [->|]; [done|]. apply H2. lia.
      * intros Hs. apply H3. rewrite (size_above_step _ _ E) in Hs. lia.
    + split; [lia|]. split; [lia|]. left. by apply eq_None_not_Some.
Qed.

(** [prune_outcomes] drops the oldest keys, all at or below the watermark, and
    never reaches its error. *)
Lemma prune_outcomes_spec fuel through max m :
  (size m <= fuel)%nat -> Z.of_nat (size (above through m)) <= max ->
  exists m', prune_outcomes fuel through max m = (Ok tt, m')
    /\ m' ⊆ m /\ map_len m' <= max
    /\ (forall k, through < k -> m' !! k = m !! k)
    /\ (map_len m <= max -> m' = m)
    /\ (forall j k, is_Some (m' !! j) -> is_Some (m !! k) -> m' !! k = None -> k < j).
Proof.
  revert m. induction fuel as [|fuel IH]; intros m Hf Ha; cbn [prune_outcomes].
  - assert (m = ∅) as -> by (apply map_size_empty_iff; lia).
    exists ∅. unfold map_len. rewrite map_size_empty. split; [done|]. split; [done|].
    split; [lia|]. split; [done|]. split; [done|]. intros j k Hj. by destruct Hj.
  - unfold map_len. destruct (Z.ltb_spec max (Z.of_nat (size m))) as [Hm|Hm].
    2:{ exists m. split; [done|]. split; [done|]. split; [done|]. split; [done|]. split; [done|].
        intros j k _ [? Hk] Hn. congruence. }
    pose proof (first_key_spec m) as Hfk. destruct (first_key m) as [o|].
    2:{ subst m. rewrite map_size_empty in Hm. exists ∅. unfold map_len. rewrite map_size_empty.
        split; [done|]. split; [done|]. split; [lia|]. split; [done|]. split; [done|].
        intros j k Hj. by destruct Hj. }
    destruct Hfk as [Ho Hl]. destruct (Z.ltb_spec through o) as [Hto|Hto].
    { exfalso. assert (m ⊆ above through m) as Hs%size_subseteq; [|lia].
      apply map_subseteq_spec. intros k v Hk. rewrite lookup_above.
      rewrite decide_True; [done|]. specialize (Hl k ltac:(by rewrite Hk)). lia. }
    pose proof (map_size_delete_Some _ _ Ho) as Hsz.
    assert (size m <> 0)%nat as Hnz.
    { intros E%map_size_empty_iff. subst m. by destruct Ho. }
    destruct (IH (delete o m)) as (m' & -> & H1 & H2 & H3 & H4 & H5).
    { rewrite Hsz. lia. }
    { assert (above through (delete o m) ⊆ above through m) as Hs%size_subseteq; [|lia].
      apply above_mono; [lia|]. etrans; [apply above_subseteq|apply delete_subseteq]. }
    exists m'. split; [done|]. split; [etrans; [done|apply delete_subseteq]|]. split; [done|].
    split. { intros k Hk. rewrite H3 by done. rewrite lookup_delete_ne; [done|lia]. }
    split; [intros; unfold map_len in *; lia|].
    intros j k Hj Hk Hn. destruct (decide (k = o)) as [->|].
    + assert (j <> o).
      { intros ->. destruct Hj as [w Hw]. apply (lookup_weaken _ _ _ _ Hw) in H1.
        by rewrite lookup_delete_eq in H1. }
      assert (is_Some (m !! j)) as ?%Hl; [|lia]. destruct Hj as [w Hw]. exists w.
      apply (lookup_weaken _ _ _ _ Hw). etrans; [done|apply delete_subseteq].
    + apply (H5 j k Hj); [|done]. by rewrite lookup_delete_ne.
Qed.

(** ** A session and its history *)

Record session_repr (max : Z) (H : gmap Z CommandOutcome) (s : SessionCommandOutcomes)
  : Prop := mkRepr {
  sr_keys : forall k, is_Some (H !! k) -> 1 <= k <= u64_max;
  sr_through : 0 <= contiguous_through s <= u64_max;
  sr_below : forall n, 1 <= n <= contiguous_through s -> is_Some (H !! n);
  sr_gap : H !! (contiguous_through s + 1) = None;
  sr_sub : outcomes s ⊆ H;
  sr_sparse : forall n, contiguous_through s < n -> outcomes s !! n = H !! n;
  sr_size : map_len (outcomes s) <= max
}.

(** A client sequence number. *)
Definition is_seq (n : Z) : Prop := 1 <= n <= u64_max.

Lemma repr_default max : 0 <= max -> session_repr max ∅ SessionCommandOutcomes_default.
Proof.
  split; cbn; try done; unfold u64_max, map_len; try rewrite map_size_empty; try lia.
  - intros k. by intros [].
Qed.

(** The abstraction is exact: a sequence number is resolved exactly when it
    has been decided or the fence covers it. *)
Lemma repr_resolved max H s n :
  session_repr max H s ->
  session_resolved s n = true <-> is_Some (H !! n) \/ (0 < n /\ fenced s n = true).
Proof.
  intros R. unfold session_resolved, has_outcome.
  rewrite andb_true_iff, !orb_true_iff, Z.ltb_lt, Z.leb_le, bool_decide_eq_true. split.
  - intros (H0 & [[Hle|[o Ho]]|Hf]); [|left|by right].
    + left. apply (sr_below _ _ _ R). lia.
    + exists o. apply (lookup_weaken _ _ _ _ Ho), (sr_sub _ _ _ R).
  - intros [Hn|[H0 Hf]]; [|by auto]. pose proof (sr_keys _ _ _ R _ Hn). split; [lia|]. left.
    destruct (Z.le_gt_cases n (contiguous_through s)); [by left|right].
    by rewrite (sr_sparse _ _ _ R) by lia.
Qed.

Lemma fence_for_spec max H s n f :
  session_repr max H s ->
  session_fence_for s n = Some f <->
  H !! n = None /\ n <> 0 /\ ~ n <= contiguous_through s /\ rejection_fence s = Some f
  /\ covers f n = true.
Proof.
  intros R. unfold session_fence_for, has_outcome.
  destruct (Z.eqb_spec n 0); cbn; [naive_solver|].
  destruct (Z.leb_spec n (contiguous_through s)) as [|Hlt]; cbn; [split; [done|]; intros; lia|].
  rewrite (sr_sparse _ _ _ R) by lia. destruct (H !! n) as [o|] eqn:E.
  - rewrite bool_decide_true by done. naive_solver.
  - rewrite bool_decide_false by (by intros []).
    destruct (rejection_fence s) as [f'|]; [|naive_solver].
    destruct (covers f' n) eqn:Ec; split.
    + intros [= <-]. repeat split; try done; lia.
    + naive_solver.
    + done.
    + intros (_ & _ & _ & [= <-] & ?). congruence.
Qed.

(** When a fresh sequence number may be recorded. *)
Lemma can_record_fresh max H s n :
  session_repr max H s -> 0 < max -> is_seq n -> H !! n = None -> fenced s n = false ->
  session_can_record s n max = Ok tt <->
  n = contiguous_through s + 1 \/ map_len (sparse s) < max.
Proof.
  unfold is_seq. intros R Hmax Hn Hf Hfe. unfold session_can_record, session_window_full.
  assert (contiguous_through s < n) as Hlt.
  { destruct (Z.le_gt_cases n (contiguous_through s)) as [Hle|]; [|lia].
    destruct (sr_below _ _ _ R n ltac:(lia)) as [? E]. congruence. }
  assert (has_outcome s n = false) as ->.
  { unfold has_outcome. rewrite (sr_sparse _ _ _ R), Hf by lia.
    by apply bool_decide_false; intros []. }
  assert (session_fence_for s n = None) as ->.
  { destruct (session_fence_for s n) as [f|] eqn:E; [|done].
    apply (fence_for_spec _ _ _ _ _ R) in E as (_ & _ & _ & E & Hc). unfold fenced in Hfe.
    rewrite E in Hfe. congruence. }
  rewrite Hfe, !(proj2 (Z.eqb_neq _ _)) by lia. rewrite (proj2 (Z.ltb_lt 0 max) Hmax). cbn.
  unfold ensure. destruct (bool_decide_reflect (Some n = checked_add_u64 (contiguous_through s) 1))
    as [E|E]; cbn.
  - split; [|done]. intros _. left. unfold checked_add_u64 in E. case_match; naive_solver.
  - destruct (Z.leb_spec max (map_len (sparse s))); cbn; split; intros Hx; try done.
    + destruct Hx as [Hx|]; [|lia]. exfalso. apply E. unfold checked_add_u64.
      pose proof (sr_through _ _ _ R). unfold ensure in *. subst n.
      destruct (Z.leb_spec (contiguous_through s + 1) u64_max); [done|].
      exfalso. lia.
    + by right.
Qed.

(** The sparse outcomes after an admissible insertion fit the retention. *)
Lemma sparse_after max H s n o t :
  session_repr max H s -> contiguous_through s <= t ->
  n = contiguous_through s + 1 \/ map_len (sparse s) < max ->
  (n = contiguous_through s + 1 -> n <= t) ->
  Z.of_nat (size (above t (<[n := o]> (outcomes s)))) <= max.
Proof.
  intros R Ht Hn Hnt. destruct (decide (n = contiguous_through s + 1)) as [E|E].
  - specialize (Hnt E). assert (above t (<[n := o]> (outcomes s)) ⊆ outcomes s) as Hs.
    { apply map_subseteq_spec. intros k v. rewrite lookup_above. case_decide; [|done].
      by rewrite lookup_insert_ne by lia. }
    apply size_subseteq in Hs. pose proof (sr_size _ _ _ R). unfold map_len in *. lia.
  - destruct Hn as [|Hn]; [done|].
    assert (above t (<[n := o]> (outcomes s)) ⊆ <[n := o]> (sparse s)) as Hs.
    { apply map_subseteq_spec. intros k v. rewrite lookup_above. case_decide; [|done].
      destruct (decide (k = n)) as [->|]; [by rewrite !lookup_insert_eq|].
      rewrite !lookup_insert_ne by done. intros Hk. apply map_lookup_filter_Some. split; [done|].
      cbn. lia. }
    apply size_subseteq in Hs. rewrite (map_size_insert n o (sparse s)) in Hs.
    unfold map_len in *. destruct (sparse s !! n); cbn in Hs; lia.
Qed.

(** The watermark stops at the first sequence number that is not decided. *)
Lemma gap_after max H s n o t :
  session_repr max H s -> is_seq n -> contiguous_through s <= t ->
  <[n := o]> (outcomes s) !! (t + 1) = None \/ t = u64_max ->
  <[n := o]> H !! (t + 1) = None.
Proof.
  unfold is_seq. intros R Hn Ht [Hg| ->].
  - apply lookup_insert_None in Hg as [Hg Hne]. apply lookup_insert_None. split; [|done].
    rewrite <-(sr_sparse _ _ _ R) by lia. done.
  - rewrite lookup_insert_ne by lia. apply eq_None_not_Some. intros Hk%(sr_keys _ _ _ R). lia.
Qed.

(** What [session_record] does to a fresh sequence number that may be recorded. *)
Lemma record_fresh max H s n o :
  session_repr max H s -> 0 < max -> is_seq n -> H !! n = None -> fenced s n = false ->
  session_can_record s n max = Ok tt ->
  exists s', session_record s n o max = (Ok o, s')
    /\ session_repr max (<[n := o]> H) s'
    /\ rejection_fence s' = rejection_fence s
    /\ contiguous_through s <= contiguous_through s'.
Proof.
  intros R Hmax Hn Hf Hfe Hcan. pose proof (sr_through _ _ _ R) as Ht.
  assert (Hsp : outcomes s !! n = None).
  { destruct (outcomes s !! n) as [o'|] eqn:E; [|done].
    pose proof (lookup_weaken _ _ _ _ E (sr_sub _ _ _ R)). congruence. }
  unfold session_record. rewrite !(proj2 (Z.eqb_neq _ _)) by (unfold is_seq in *; lia).
  rewrite Hsp, Hcan. apply (can_record_fresh _ _ _ _ R Hmax Hn Hf Hfe) in Hcan.
  set (m := <[n := o]> (outcomes s)).
  destruct (advance_contiguous_spec (size m) m (contiguous_through s)) as (A1 & A2 & A3); [lia|].
  set (t := advance_contiguous (size m) m (contiguous_through s)) in *.
  specialize (A3 (size_subseteq _ _ (above_subseteq _ _))).
  destruct (prune_outcomes_spec (size m) t max m) as (m' & -> & P1 & P2 & P3 & _); [done| |].
  { apply (sparse_after _ _ _ _ _ _ R); [lia|done|]. intros ->.
    destruct A3 as [A3|A3]; [|unfold is_seq in *; lia].
    destruct (Z.le_gt_cases (contiguous_through s + 1) t); [done|].
    replace t with (contiguous_through s) in A3 by lia. unfold m in A3.
    by rewrite lookup_insert_eq in A3. }
  eexists. split; [reflexivity|]. split; [|split; [done|cbn; lia]].
  assert (Hm : m ⊆ <[n := o]> H) by (apply insert_mono, (sr_sub _ _ _ R)).
  split; cbn; try done.
  - intros k. destruct (decide (k = n)) as [->|]; [intros; exact Hn|].
    rewrite lookup_insert_ne by done. apply R.
  - lia.
  - intros k Hk. destruct (Z.le_gt_cases k (contiguous_through s)).
    + destruct (sr_below _ _ _ R k) as [o' Ho']; [lia|]. apply lookup_insert_is_Some'.
      right. by exists o'.
    + destruct (A2 k) as [o' Ho']; [lia|]. exists o'. by apply (lookup_weaken _ _ _ _ Ho').
  - apply (gap_after _ _ _ _ _ _ R Hn); [lia|done].
  - by etrans.
  - intros k Hk. rewrite P3 by done. unfold m. destruct (decide (k = n)) as [->|].
    + by rewrite !lookup_insert_eq.
    + rewrite !lookup_insert_ne by done. apply R. lia.
Qed.

(** A sequence number that was decided and is still remembered is idempotent. *)
Lemma record_remembered s n o o' max :
  n <> 0 -> max <> 0 -> outcomes s !! n = Some o' ->
  session_record s n o max
  = (if bool_decide (o' = o) then Ok o'
     else Err "one client command identity resolved to conflicting outcomes", s).
Proof.
  intros Hn Hm Ho. unfold session_record. rewrite !(proj2 (Z.eqb_neq _ _)), Ho by done.
  by case_bool_decide.
Qed.

(** A fence is only ever moved down, and keeps its reason. *)
Definition fence_le (s s' : SessionCommandOutcomes) : Prop :=
  forall f, rejection_fence s = Some f -> exists f', rejection_fence s' = Some f'
    /\ fence_reason f' = fence_reason f /\ from_sequence f' <= from_sequence f.

Lemma fence_le_refl s : fence_le s s.
Proof. intros f Hf. exists f. split; [done|]. split; [done|lia]. Qed.

Lemma fence_le_eq s s' : rejection_fence s' = rejection_fence s -> fence_le s s'.
Proof. intros E f Hf. exists f. rewrite E. split; [done|]. split; [done|lia]. Qed.

(** A fence closes a session from a number on and forgets nothing. *)
Lemma install_fence_repr max H s from reason r s' :
  session_repr max H s -> session_install_fence s from reason = (r, s') ->
  session_repr max H s'
  /\ fence_le s s'
  /\ (forall f, r = Ok f -> rejection_fence s' = Some f /\ from_sequence f <= from
        /\ fence_reason f = reason)
  /\ (is_ok r = false -> s' = s).
Proof.
  intros R. unfold session_install_fence.
  destruct (fence_validate _) as [u|e|e];
    [|intros [= <- <-]; split; [done|]; split; [apply fence_le_refl|done]..].
  destruct (rejection_fence s) as [f|] eqn:Ef.
  - case_bool_decide as Er.
    + intros [= <- <-]. split; [by destruct R|]. split.
      * intros f' E. rewrite Ef in E. injection E as <-. eexists. split; [done|]. cbn.
        split; [done|lia].
      * split; [|done].
        intros f' [= <-]. cbn. split; [done|]. split; [lia|done].
    + intros [= <- <-]. split; [done|]. split; [apply fence_le_refl|done].
  - intros [= <- <-]. split; [by destruct R|]. split; [intros f' E; congruence|].
    split; [|done].
    intros f' [= <-]. cbn. split; [done|]. split; [lia|done].
Qed.

(** ** The sessions of a game *)

(** The keys of two sessions differ: the user id is decimal, so the first
    colon ends it. *)
Lemma session_key_inj a b :
  is_u32 (ci_user_id a) -> is_u32 (ci_user_id b) -> session_key a = session_key b ->
  ci_user_id a = ci_user_id b /\ ci_client_game_session_id a = ci_client_game_session_id b.
Proof.
  intros Ha Hb E. apply (f_equal (split_once ":"%char)) in E. unfold session_key in E.
  change (?x +:+ ":" +:+ ?y) with (x +:+ String ":"%char y) in E.
  rewrite !split_once_app in E by (apply lacks_digits; [done|apply all_digits_display]).
  injection E as E1 E2. split; [|done].
  apply (f_equal (parse_uint u32_max)) in E1. rewrite !parse_display in E1 by done.
  by injection E1.
Qed.

Abbreviation History := (gmap string (gmap Z CommandOutcome)).

Definition decided (H : History) (identity : ClientCommandIdentityV2) : option CommandOutcome :=
  default ∅ (H !! session_key identity) !! ci_sequence identity.

Definition decide_once (H : History) (identity : ClientCommandIdentityV2)
    (o : CommandOutcome) : History :=
  <[session_key identity :=
      <[ci_sequence identity := o]> (default ∅ (H !! session_key identity))]> H.

Record ledger_repr (max : Z) (H : History) (r : ResolvedCommandState) : Prop := mkLedger {
  lr_sessions : forall k, match r !! k with
                | Some s => session_repr max (default ∅ (H !! k)) s
                | None => default ∅ (H !! k) = ∅
                end;
  lr_count : Z.of_nat (size r) <= MAX_RECORDED_COMMAND_SESSIONS_PER_GAME
}.

Lemma ledger_empty max : ledger_repr max ∅ ∅.
Proof.
  split; [|rewrite map_size_empty; done]. intros k. by rewrite !lookup_empty.
Qed.

Lemma valid_identity_seq identity :
  validate_client_command_identity identity = Ok tt -> is_u64 (ci_sequence identity) ->
  is_seq (ci_sequence identity).
Proof.
  unfold validate_client_command_identity, is_seq, is_u64. intros [E _]%ensure_bind_ok.
  apply negb_true_iff, Z.eqb_neq in E. lia.
Qed.

(** The session an identity belongs to, created on first use. *)
Definition session_of (r : ResolvedCommandState) (identity : ClientCommandIdentityV2)
  : SessionCommandOutcomes :=
  default SessionCommandOutcomes_default (r !! session_key identity).

Lemma ledger_session max H r identity :
  ledger_repr max H r -> 0 <= max ->
  session_repr max (default ∅ (H !! session_key identity)) (session_of r identity).
Proof.
  intros [Hs _] Hm. specialize (Hs (session_key identity)). unfold session_of.
  destruct (r !! session_key identity); [done|]. rewrite Hs. by apply repr_default.
Qed.

Lemma ledger_resolved max H r identity :
  ledger_repr max H r -> 0 <= max ->
  is_terminally_resolved r identity = true <->
  is_Some (decided H identity)
  \/ (0 < ci_sequence identity /\ fenced (session_of r identity) (ci_sequence identity) = true).
Proof.
  intros L Hm. unfold decided.
  rewrite <-(repr_resolved _ _ _ _ (ledger_session _ _ _ identity L Hm)).
  unfold is_terminally_resolved, session_of. destruct (r !! session_key identity) as [s|]; [done|].
  cbn. split; [done|]. intros E. apply andb_true_iff in E as [E%Z.ltb_lt E2].
  apply orb_true_iff in E2 as [E2|]; [|done].
  apply orb_true_iff in E2 as [?%Z.leb_le|E2]; [cbn in *; lia|done].
Qed.

Lemma ledger_get max H r identity o :
  ledger_repr max H r -> resolved_get r identity = Some o -> decided H identity = Some o.
Proof.
  intros [Hs _]. specialize (Hs (session_key identity)). unfold resolved_get, decided.
  destruct (r !! session_key identity) as [s|]; [|done]. intros E.
  by apply (lookup_weaken _ _ _ _ E), (sr_sub _ _ _ Hs).
Qed.

Lemma can_record_session r identity max :
  can_record r identity max = Ok tt ->
  0 < max -> is_u64 (ci_sequence identity) -> is_terminally_resolved r identity = false ->
  validate_client_command_identity identity = Ok tt
  /\ (r !! session_key identity = None ->
        Z.of_nat (size r) < MAX_RECORDED_COMMAND_SESSIONS_PER_GAME)
  /\ fenced (session_of r identity) (ci_sequence identity) = false
  /\ session_can_record (session_of r identity) (ci_sequence identity) max = Ok tt.
Proof.
  unfold can_record, is_terminally_resolved, session_of. intros E Hm Hu Hr.
  apply unit_bind_ok in E as [Hv E]. split; [done|].
  assert (Hn : ci_sequence identity <> 0).
  { unfold validate_client_command_identity in Hv. apply ensure_bind_ok in Hv as [Hv _].
    by apply negb_true_iff, Z.eqb_neq in Hv. }
  destruct (r !! session_key identity) as [s|] eqn:Es; cbn.
  - split; [done|]. split; [|done]. unfold session_can_record in E.
    apply ensure_bind_ok in E as [_ E]. apply ensure_bind_ok in E as [_ E].
    unfold session_resolved in Hr. destruct (has_outcome s (ci_sequence identity)) eqn:Ho.
    + unfold is_u64 in Hu. rewrite (proj2 (Z.ltb_lt 0 _)), orb_true_r in Hr by lia. done.
    + apply ensure_bind_ok in E as [E _]. by apply negb_true_iff in E.
  - rewrite (proj2 (Z.eqb_neq max 0)) in E by lia.
    destruct (Z.leb_spec MAX_RECORDED_COMMAND_SESSIONS_PER_GAME (Z.of_nat (size r))); [done|].
    split; [lia|]. split; [done|]. unfold session_can_record, session_window_full. cbn.
    rewrite !(proj2 (Z.eqb_neq _ _)) by lia. cbn.
    unfold sparse, map_len. cbn. rewrite map_filter_empty, map_size_empty.
    rewrite (proj2 (Z.leb_gt _ _)) by lia. by rewrite !andb_false_r.
Qed.

Definition same_identity (a b : ClientCommandIdentityV2) : bool :=
  bool_decide (session_key a = session_key b) && (ci_sequence a =? ci_sequence b).

Lemma decided_once H identity o other :
  decided (decide_once H identity o) other
  = if same_identity identity other then Some o else decided H other.
Proof.
  unfold decided, decide_once, same_identity. case_bool_decide as E; cbn.
  - rewrite E, lookup_insert_eq. cbn. destruct (Z.eqb_spec (ci_sequence identity) (ci_sequence other))
      as [->|]; [by rewrite lookup_insert_eq|by rewrite lookup_insert_ne].
  - by rewrite lookup_insert_ne.
Qed.

Lemma ledger_insert max H r k s h :
  ledger_repr max H r -> session_repr max h s ->
  (r !! k = None -> Z.of_nat (size r) < MAX_RECORDED_COMMAND_SESSIONS_PER_GAME) ->
  ledger_repr max (<[k := h]> H) (<[k := s]> r).
Proof.
  intros [Hs Hc] R Hk. split.
  - intros j. destruct (decide (j = k)) as [->|].
    + rewrite !lookup_insert_eq. exact R.
    + rewrite !lookup_insert_ne by done. apply Hs.
  - rewrite map_size_insert. destruct (r !! k); cbn; [lia|]. specialize (Hk eq_refl). lia.
Qed.

(** A command that is not resolved and may be recorded is recorded, exactly
    once, and no fence moves. *)
Lemma ledger_record max H r identity o :
  ledger_repr max H r -> 0 < max -> is_u64 (ci_sequence identity) ->
  is_terminally_resolved r identity = false -> can_record r identity max = Ok tt ->
  exists r', resolved_record r identity o max = (Ok o, r')
    /\ ledger_repr max (decide_once H identity o) r'
    /\ (forall other, rejection_fence (session_of r' other) = rejection_fence (session_of r other)).
Proof.
  intros L Hm Hu Hr Hcan. pose proof (ledger_session _ _ _ identity L ltac:(lia)) as R.
  destruct (can_record_session _ _ _ Hcan Hm Hu Hr) as (Hv & Hk & Hf & Hs).
  unfold resolved_record. rewrite Hcan. fold (session_of r identity).
  destruct (record_fresh max _ _ (ci_sequence identity) o R Hm) as (s' & -> & R' & F' & _);
    [by apply valid_identity_seq| |done|done|].
  { apply eq_None_not_Some. intros Hd. apply not_true_iff_false in Hr. apply Hr.
    apply (ledger_resolved _ _ _ _ L ltac:(lia)). by left. }
  eexists. split; [reflexivity|]. split; [by apply ledger_insert|].
  intros other. unfold session_of at 1. destruct (decide (session_key other = session_key identity)) as [E|].
  - rewrite E, lookup_insert_eq. cbn. rewrite F'. unfold session_of. by rewrite E.
  - by rewrite lookup_insert_ne.
Qed.

(** A refused record changes nothing. *)
Lemma ledger_refused max r identity o :
  is_ok (can_record r identity max) = false -> (resolved_record r identity o max).2 = r.
Proof. unfold resolved_record. by destruct (can_record r identity max). Qed.

Lemma ledger_fence max H r identity from reason f r' :
  ledger_repr max H r -> install_rejection_fence r identity from reason = (f, r') ->
  ledger_repr max H r'
  /\ (forall other, fence_le (session_of r other) (session_of r' other))
  /\ (is_ok f = false -> r' = r)
  /\ (forall f', f = Ok f' -> fenced (session_of r' identity) (ci_sequence identity) = true
        /\ rejection_fence (session_of r' identity) = Some f' /\ fence_reason f' = reason).
Proof.
  intros L. unfold install_rejection_fence.
  destruct (validate_client_command_identity identity) as [u|e|e];
    [|intros [= <- <-]; split; [done|]; split; [intros; apply fence_le_refl|done]..].
  destruct ((from =? 0) || (ci_sequence identity <? from)) eqn:Eg;
    [intros [= <- <-]; split; [done|]; split; [intros; apply fence_le_refl|done]|].
  apply orb_false_iff in Eg as [_ Hle%Z.ltb_ge].
  destruct (r !! session_key identity) as [s|] eqn:Es;
    [|intros [= <- <-]; split; [done|]; split; [intros; apply fence_le_refl|done]].
  destruct (session_install_fence s from reason) as [f0 s0] eqn:Ei. intros [= <- <-].
  pose proof (lr_sessions _ _ _ L (session_key identity)) as R. rewrite Es in R.
  destruct (install_fence_repr _ _ _ _ _ _ _ R Ei) as (R' & Hmono & Hok & Herr).
  split.
  { split.
    - intros j. destruct (decide (j = session_key identity)) as [->|].
      + by rewrite lookup_insert_eq.
      + rewrite lookup_insert_ne by done. apply L.
    - rewrite map_size_insert, Es. apply L. }
  split. { intros other. unfold session_of.
    destruct (decide (session_key other = session_key identity)) as [->|].
    - rewrite lookup_insert_eq, Es. apply Hmono.
    - rewrite lookup_insert_ne by done. apply fence_le_refl. }
  split. { intros Hf. rewrite (Herr Hf). by apply insert_id. }
  intros f' ->. destruct (Hok f' eq_refl) as (E1 & E2 & E3). unfold session_of.
  rewrite lookup_insert_eq. cbn. split; [|done]. unfold fenced, covers. rewrite E1.
  apply Z.leb_le. lia.
Qed.
