(* ===== verification/Recording.v ===== *)
(** * Replay archives: common/src/highlight.rs

    [GameRecordingV1]: state anchors, the recorded messages between them, and
    the fingerprint of the final state. A recording is replayed by running the
    nearest anchor through the messages that follow it.

    Serialisation ([json_u64_string], the serde defaults) is not modelled. The
    loops over simulation quanta carry the fuel of [Engine]. *)

From Stdlib Require Import ZArith.
From stdpp Require Import prelude strings countable list gmap.
From S2P Require Import Prelude RustFloat Util Snake Arena CommandQueue GameState GameSetup.
From S2P Require Import Events Validate Tick Fingerprint Engine.
Open Scope Z_scope.

Definition GAME_RECORDING_FORMAT_VERSION : Z := 1.
Definition HIGHLIGHT_CLIP_FORMAT_VERSION : Z := 1.
Definition GAMEPLAY_REPLAY_VERSION : Z := 12.

Inductive ReplayVisibility := RV_Public | RV_Private.

Record ReplayAnchor := mkAnchor {
  ra_tick : Z;
  ra_sequence : Z;
  ra_state : GameState
}.

Record RecordedGameMessage := mkRecorded {
  rm_tick : Z;
  rm_sequence : Z;
  rm_event : GameEvent
}.

Definition envelope_of (game_id : Z) (m : RecordedGameMessage) : GameEventMessage :=
  mkGameEventMessage game_id (rm_tick m) (rm_sequence m) 0 None (rm_event m).

Record GameRecordingV1 := mkRecording {
  gr_format_version : Z;
  gr_gameplay_version : Z;
  gr_game_id : Z;
  gr_visibility : ReplayVisibility;
  gr_anchors : list ReplayAnchor;
  gr_messages : list RecordedGameMessage;
  gr_end_tick : Z;
  gr_end_sync_hash : Z
}.

(** [windows(2).all(..)]. *)
Fixpoint windows_all {A} (f : A -> A -> bool) (l : list A) : bool :=
  match l with
  | x :: ((y :: _) as l') => f x y && windows_all f l'
  | _ => true
  end.

(** The position of a message or an anchor: [(tick, sequence)]. *)
Definition pos_ltb (a b : Z * Z) : bool := (a.1 <? b.1) || ((a.1 =? b.1) && (a.2 <? b.2)).
Definition pos_leb (a b : Z * Z) : bool := (a.1 <? b.1) || ((a.1 =? b.1) && (a.2 <=? b.2)).
Definition message_pos (m : RecordedGameMessage) : Z * Z := (rm_tick m, rm_sequence m).
Definition anchor_pos (a : ReplayAnchor) : Z * Z := (ra_tick a, ra_sequence a).

Definition recording_validate (r : GameRecordingV1) : Result unit :=
  ensure (gr_format_version r =? GAME_RECORDING_FORMAT_VERSION)
    "unsupported recording format" ;;
  ensure (gr_gameplay_version r =? GAMEPLAY_REPLAY_VERSION)
    "recording gameplay version is incompatible" ;;
  match gr_anchors r with
  | [] => Err "recording needs an activation anchor"
  | first :: _ =>
      ensure (windows_all (fun a b => ra_tick a <? ra_tick b) (gr_anchors r))
        "recording anchors must be strictly tick ordered" ;;
      for_each (gr_anchors r) (fun a =>
        ensure (ra_tick a =? gs_tick (ra_state a)) "anchor tick/state mismatch" ;;
        match validate_boost_invariants (ra_state a) with
        | Ok _ => Ok tt
        | Err _ => Err "recording anchor violates engine invariants"
        | Panic e => Panic e
        end) ;;
      ensure (windows_all (fun a b => pos_ltb (message_pos a) (message_pos b)) (gr_messages r))
        "recording messages must be strictly tick/sequence ordered" ;;
      ensure (forallb (fun m => (ra_tick first <=? rm_tick m) && (rm_tick m <=? gr_end_tick r))
                (gr_messages r))
        "recording message lies outside the replay span" ;;
      ensure (forallb (fun a => ra_tick a <=? gr_end_tick r) (gr_anchors r))
        "recording anchor lies beyond end_tick"
  end.

(** [partition_point] of a slice that the predicate partitions: the length of
    the prefix on which it holds. *)
Fixpoint partition_point {A} (f : A -> bool) (l : list A) : nat :=
  match l with
  | [] => 0
  | x :: l' => if f x then S (partition_point f l') else 0
  end.

(** [&l[first..last]]. *)
Definition slice {A} (l : list A) (first last : nat) : Result (list A) :=
  if (first <=? last)%nat && (last <=? length l)%nat
  then Ok (take (last - first) (drop first l))
  else Panic "slice index out of range".

Fixpoint replay_messages `{F32Libm} (fuel : nat) (game_id : Z) (st : GameState)
    (l : list RecordedGameMessage) : option (Result GameState) :=
  match l with
  | [] => Some (Ok st)
  | m :: l' =>
      match advance_and_apply_replicated_message fuel st (envelope_of game_id m) with
      | None => None
      | Some (Ok st') => replay_messages fuel game_id st' l'
      | Some r => Some r
      end
  end.

(** The last anchor at or before a tick: [iter().rev().find(..)]. *)
Definition anchor_before (anchors : list ReplayAnchor) (tick : Z) : option ReplayAnchor :=
  find (fun a => ra_tick a <=? tick) (rev anchors).

Definition state_at_tick_validated `{F32Libm} (fuel : nat) (r : GameRecordingV1)
    (target_tick : Z) : option (Result GameState) :=
  if negb (target_tick <=? gr_end_tick r)
  then Some (Err "target tick is beyond recording end")
  else match anchor_before (gr_anchors r) target_tick with
  | None => Some (Err "no replay anchor at or before target tick")
  | Some anchor =>
      let first := partition_point (fun m => pos_leb (message_pos m) (anchor_pos anchor))
                     (gr_messages r) in
      let last := partition_point (fun m => rm_tick m <=? target_tick) (gr_messages r) in
      match slice (gr_messages r) first last with
      | Ok l =>
          match replay_messages fuel (gr_game_id r) (ra_state anchor) l with
          | None => None
          | Some (Ok st) =>
              match run_state fuel true st target_tick with
              | None => None
              | Some (Ok _, st) => Some (Ok st)
              | Some (x, _) => Some (recast x)
              end
          | Some x => Some x
          end
      | Err e => Some (Err e)
      | Panic e => Some (Panic e)
      end
  end.

Definition state_at_tick `{F32Libm} (fuel : nat) (r : GameRecordingV1) (target_tick : Z)
  : option (Result GameState) :=
  match recording_validate r with
  | Ok _ => state_at_tick_validated fuel r target_tick
  | x => Some (recast x)
  end.

Definition verified_end_state `{F32Libm} (fuel : nat) (r : GameRecordingV1)
  : option (Result GameState) :=
  match recording_validate r with
  | Ok _ =>
      match state_at_tick_validated fuel r (gr_end_tick r) with
      | None => None
      | Some (Ok st) =>
          match sync_hash st with
          | Ok h => if h =? gr_end_sync_hash r then Some (Ok st)
                    else Some (Err "recording end hash mismatch")
          | x => Some (recast x)
          end
      | Some x => Some x
      end
  | x => Some (recast x)
  end.

Definition verify_end_hash `{F32Libm} (fuel : nat) (r : GameRecordingV1)
  : option (Result unit) :=
  match verified_end_state fuel r with
  | None => None
  | Some (Ok _) => Some (Ok tt)
  | Some x => Some (recast x)
  end.
