(* ===== verification/Journal.v ===== *)
(** * The replay recorder: server/src/recovery.rs

    [ReplayRecordingState] records the anchors and messages of a live match in
    three places: the complete archive, the append-only journal cells that a
    checkpoint has not covered yet, and a bounded ring for the selection of a
    highlight. [hydrate_journal] rebuilds a recorder from persisted cells.

    The size of a serialized entry and the process environment are not the
    program's: they are the class [RecorderEnv]. A method that mutates pairs
    its result with the recorder it leaves behind. *)

From Stdlib Require Import ZArith Ascii.
From stdpp Require Import prelude strings countable list gmap sorting.
From S2P Require Import Prelude RustFloat Util Snake Arena CommandQueue GameState GameSetup.
From S2P Require Import Events Validate Tick Fingerprint Engine StreamId CommandLedger Recording.
Open Scope Z_scope.

Definition REPLAY_ANCHOR_INTERVAL_MS : Z := 5000.
Definition POTG_SELECTION_RING_MAX_BYTES : Z := 6 * 1024 * 1024.
Definition POTG_SELECTION_RING_JSON_OVERHEAD_BYTES : Z := 256.
Definition REPLAY_JOURNAL_REFERENCE_SCHEMA_VERSION : Z := 1.

Definition sat_add_u64 (a b : Z) : Z := Z.min (a + b) u64_max.

Inductive ReplayJournalEntry :=
| JE_Anchor (a : ReplayAnchor)
| JE_Message (m : RecordedGameMessage).

Definition entry_tick (e : ReplayJournalEntry) : Z :=
  match e with JE_Anchor a => ra_tick a | JE_Message m => rm_tick m end.

(** [json_len e] is [serde_json::to_vec(e).len()], [None] an error of the
    serializer; the length of a vector is at most [isize::MAX]. [env_var] is
    [std::env::var(name).ok()]. *)
Class RecorderEnv := {
  json_len : ReplayJournalEntry -> option Z;
  env_var : string -> option string;
  json_len_bound : forall e n, json_len e = Some n -> 0 <= n <= 2 ^ 63 - 1
}.

Definition encoded_len `{RecorderEnv} (e : ReplayJournalEntry) : option Z :=
  match json_len e with Some n => Some (sat_add_u64 n 1) | None => None end.

(** ** Which games are recorded *)

Definition is_ascii_space (c : ascii) : bool :=
  let n := N_of_ascii c in ((9 <=? n) && (n <=? 13) || (n =? 32))%N.

Fixpoint trim_start (s : string) : string :=
  match s with
  | String c s' => if is_ascii_space c then trim_start s' else s
  | EmptyString => EmptyString
  end.

Fixpoint trim_end (s : string) : string :=
  match s with
  | EmptyString => EmptyString
  | String c s' =>
      match trim_end s' with
      | EmptyString => if is_ascii_space c then EmptyString else String c EmptyString
      | t => String c t
      end
  end.

(** [str::trim] on the ASCII white space. *)
Definition trim (s : string) : string := trim_end (trim_start s).

Definition ascii_lower (c : ascii) : ascii :=
  let n := N_of_ascii c in
  if ((65 <=? n) && (n <=? 90))%N then ascii_of_N (n + 32) else c.

Fixpoint to_ascii_lowercase (s : string) : string :=
  match s with
  | EmptyString => EmptyString
  | String c s' => String (ascii_lower c) (to_ascii_lowercase s')
  end.

Definition replay_recording_allowed_from_lookup (st : GameState)
    (lookup : string -> option string) : bool :=
  if gs_is_stress_test st then false
  else negb match lookup "SNAKETRON_TEST_MODE" with
       | Some value =>
           bool_decide (to_ascii_lowercase (trim value) ∈ ["1"; "true"; "yes"; "on"])
       | None => false
       end.

Definition replay_recording_allowed `{RecorderEnv} (st : GameState) : bool :=
  replay_recording_allowed_from_lookup st env_var.

(** ** State *)

Record ReplayJournalDelta := mkDelta {
  jd_cursor : Z;
  jd_entry : ReplayJournalEntry
}.

Record ReplayRecordingState := mkRecorder {
  rr_enabled : bool;
  rr_anchors : list ReplayAnchor;
  rr_messages : list RecordedGameMessage;
  rr_next_sequence : Z;
  rr_journal_cursor : Z;
  rr_pending_journal : list ReplayJournalDelta;
  rr_ring : list ReplayJournalEntry;
  rr_ring_bytes : Z;
  rr_ring_truncated : bool;
  rr_ring_evicted_through_tick : Z;
  rr_activation_tick : Z;
  rr_ring_max_bytes : Z
}.

(** The derived [Default]: the capacity is zero. *)
Definition recorder_default : ReplayRecordingState :=
  {| rr_enabled := false; rr_anchors := []; rr_messages := []; rr_next_sequence := 0;
     rr_journal_cursor := 0; rr_pending_journal := []; rr_ring := []; rr_ring_bytes := 0;
     rr_ring_truncated := false; rr_ring_evicted_through_tick := 0; rr_activation_tick := 0;
     rr_ring_max_bytes := 0 |}.

(** ** The selection ring *)

(** [pop_front] with its bookkeeping. *)
Definition note_evicted `{RecorderEnv} (e : ReplayJournalEntry) (ring : list ReplayJournalEntry)
    (r : ReplayRecordingState) : ReplayRecordingState :=
  {| r with rr_ring := ring;
            rr_ring_bytes := sat_sub (rr_ring_bytes r) (default 0 (encoded_len e));
            rr_ring_truncated := true;
            rr_ring_evicted_through_tick :=
              Z.max (rr_ring_evicted_through_tick r) (entry_tick e) |}.

(** [while bytes > budget]. *)
Fixpoint evict_over_budget `{RecorderEnv} (budget : Z) (ring : list ReplayJournalEntry)
    (r : ReplayRecordingState) : ReplayRecordingState :=
  if budget <? rr_ring_bytes r then
    match ring with
    | [] => {| r with rr_ring := []; rr_ring_bytes := 0 |}
    | e :: ring' => evict_over_budget budget ring' (note_evicted e ring' r)
    end
  else {| r with rr_ring := ring |}.

(** [while matches!(front, Some(Message(_)))]. *)
Fixpoint evict_unanchored `{RecorderEnv} (ring : list ReplayJournalEntry)
    (r : ReplayRecordingState) : ReplayRecordingState :=
  match ring with
  | JE_Message m :: ring' => evict_unanchored ring' (note_evicted (JE_Message m) ring' r)
  | _ => {| r with rr_ring := ring |}
  end.

Definition enforce_potg_selection_cap `{RecorderEnv} (r : ReplayRecordingState)
  : ReplayRecordingState :=
  let entry_budget := sat_sub (rr_ring_max_bytes r) POTG_SELECTION_RING_JSON_OVERHEAD_BYTES in
  let r := evict_over_budget entry_budget (rr_ring r) r in
  evict_unanchored (rr_ring r) r.

Definition push_potg_entry `{RecorderEnv} (r : ReplayRecordingState) (e : ReplayJournalEntry)
  : Result unit * ReplayRecordingState :=
  match encoded_len e with
  | None => (Err "serialization failed", r)
  | Some n =>
      (Ok tt, enforce_potg_selection_cap
                {| r with rr_ring_bytes := sat_add_u64 (rr_ring_bytes r) n;
                          rr_ring := rr_ring r ++ [e] |})
  end.

(** ** Construction *)

Definition recorder_new `{RecorderEnv} (st : GameState) : ReplayRecordingState :=
  if negb (replay_recording_allowed st) then recorder_default
  else
    let anchor := mkAnchor (gs_tick st) 0 st in
    let entry := JE_Anchor anchor in
    let initial_bytes :=
      default (sat_add_u64 POTG_SELECTION_RING_MAX_BYTES 1) (encoded_len entry) in
    enforce_potg_selection_cap
      {| rr_enabled := true; rr_anchors := [anchor]; rr_messages := [];
         rr_next_sequence := 1; rr_journal_cursor := 1;
         rr_pending_journal := [mkDelta 1 entry]; rr_ring := [entry];
         rr_ring_bytes := initial_bytes; rr_ring_truncated := false;
         rr_ring_evicted_through_tick := gs_tick st; rr_activation_tick := gs_tick st;
         rr_ring_max_bytes := POTG_SELECTION_RING_MAX_BYTES |}.

Definition checkpoint_seed `{RecorderEnv} (st : GameState) : ReplayRecordingState :=
  if negb (replay_recording_allowed st) then recorder_default
  else {| recorder_default with rr_enabled := true; rr_next_sequence := 1;
          rr_ring_max_bytes := POTG_SELECTION_RING_MAX_BYTES |}.

Definition checkpoint_view (r : ReplayRecordingState) : ReplayRecordingState :=
  {| recorder_default with
     rr_enabled := rr_enabled r; rr_next_sequence := rr_next_sequence r;
     rr_journal_cursor := rr_journal_cursor r; rr_pending_journal := rr_pending_journal r;
     rr_ring_max_bytes := POTG_SELECTION_RING_MAX_BYTES |}.

Definition mark_journal_persisted (r : ReplayRecordingState) (cursor : Z)
  : Result unit * ReplayRecordingState :=
  if rr_journal_cursor r <? cursor
  then (Err "persisted replay journal cursor exceeds recorder cursor", r)
  else (Ok tt, {| r with rr_pending_journal :=
                    filter (fun d => cursor < jd_cursor d) (rr_pending_journal r) |}).

(** ** Recording *)

Definition append_journal (r : ReplayRecordingState) (e : ReplayJournalEntry)
  : Result unit * ReplayRecordingState :=
  match checked_add_u64 (rr_journal_cursor r) 1 with
  | None => (Err "replay journal cursor overflow", r)
  | Some cursor =>
      (Ok tt, {| r with rr_pending_journal := rr_pending_journal r ++ [mkDelta cursor e];
                        rr_journal_cursor := cursor |})
  end.

Definition is_recorded (event : GameEvent) : bool :=
  match event with Ev_Snapshot _ | Ev_TickHash _ _ => false | _ => true end.

Definition record_event `{RecorderEnv} (r : ReplayRecordingState) (tick : Z) (event : GameEvent)
  : Result unit * ReplayRecordingState :=
  if negb (rr_enabled r) || negb (is_recorded event) then (Ok tt, r)
  else
    let sequence := rr_next_sequence r in
    match checked_add_u64 sequence 1 with
    | None => (Err "replay recording sequence overflow", r)
    | Some next =>
        let r := {| r with rr_next_sequence := next |} in
        let message := mkRecorded tick sequence event in
        match append_journal r (JE_Message message) with
        | (Ok _, r) =>
            push_potg_entry {| r with rr_messages := rr_messages r ++ [message] |}
              (JE_Message message)
        | (e, r) => (e, r)
        end
    end.

Fixpoint record_events `{RecorderEnv} (r : ReplayRecordingState)
    (events : list (Z * Z * GameEvent)) : Result unit * ReplayRecordingState :=
  match events with
  | [] => (Ok tt, r)
  | (tick, _, event) :: events' =>
      match record_event r tick event with
      | (Ok _, r) => record_events r events'
      | (e, r) => (e, r)
      end
  end.

(** [div_ceil] on [u32]; the divisor is at least one. *)
Definition div_ceil (a b : Z) : Z := (a + b - 1) / b.

Definition maybe_anchor `{RecorderEnv} (r : ReplayRecordingState) (st : GameState)
  : Result unit * ReplayRecordingState :=
  if negb (rr_enabled r) then (Ok tt, r)
  else
    let interval_ticks :=
      Z.max (div_ceil REPLAY_ANCHOR_INTERVAL_MS (Z.max (gs_tick_duration_ms st) 1)) 1 in
    let should_anchor :=
      match last (rr_anchors r) with
      | Some a => interval_ticks <=? sat_sub (gs_tick st) (ra_tick a)
      | None => true
      end in
    if should_anchor then
      let anchor := mkAnchor (gs_tick st) (sat_sub (rr_next_sequence r) 1) st in
      match append_journal r (JE_Anchor anchor) with
      | (Ok _, r) =>
          push_potg_entry {| r with rr_anchors := rr_anchors r ++ [anchor] |} (JE_Anchor anchor)
      | (e, r) => (e, r)
      end
    else (Ok tt, r).

(** ** Rebuilding the ring *)

(** [push_potg_entry(..)?] for each entry. *)
Fixpoint push_all `{RecorderEnv} (r : ReplayRecordingState) (l : list ReplayJournalEntry)
  : Result unit * ReplayRecordingState :=
  match l with
  | [] => (Ok tt, r)
  | e :: l' => match push_potg_entry r e with
               | (Ok _, r) => push_all r l'
               | (x, r) => (x, r)
               end
  end.

(** The order of the [while] loop over both archives: a message goes first
    when its position is at most that of the next anchor. *)
Fixpoint merge_archive (messages : list RecordedGameMessage)
  : list ReplayAnchor -> list ReplayJournalEntry :=
  fix merge_anchors (anchors : list ReplayAnchor) : list ReplayJournalEntry :=
    match messages, anchors with
    | m :: messages', a :: anchors' =>
        if pos_leb (message_pos m) (anchor_pos a)
        then JE_Message m :: merge_archive messages' anchors
        else JE_Anchor a :: merge_anchors anchors'
    | m :: messages', [] => JE_Message m :: merge_archive messages' []
    | [], a :: anchors' => JE_Anchor a :: merge_anchors anchors'
    | [], [] => []
    end.

Definition try_rebuild_potg_selection_ring `{RecorderEnv} (r : ReplayRecordingState)
    (st : GameState) : Result unit * ReplayRecordingState :=
  let activation :=
    match rr_anchors r with a :: _ => ra_tick a | [] => gs_tick st end in
  let r := {| r with rr_ring := []; rr_ring_bytes := 0; rr_ring_truncated := false;
                     rr_activation_tick := activation;
                     rr_ring_evicted_through_tick := activation |} in
  match rr_anchors r with
  | [] => push_potg_entry r
            (JE_Anchor (mkAnchor (gs_tick st) (sat_sub (rr_next_sequence r) 1) st))
  | a :: anchors =>
      push_all r (JE_Anchor a :: merge_archive (rr_messages r) anchors)
  end.

Definition rebuild_potg_selection_ring `{RecorderEnv} (r : ReplayRecordingState)
    (st : GameState) : ReplayRecordingState :=
  match try_rebuild_potg_selection_ring r st with
  | (Ok _, r) => r
  | (_, r) => {| r with rr_ring := []; rr_ring_bytes := 0; rr_ring_truncated := true;
                        rr_ring_evicted_through_tick := gs_tick st |}
  end.

(** ** Restoring *)

Definition is_empty {A} (l : list A) : bool := match l with [] => true | _ => false end.

Definition enable_from_checkpoint_if_needed `{RecorderEnv} (r : ReplayRecordingState)
    (st : GameState) : ReplayRecordingState :=
  if negb (replay_recording_allowed st) then recorder_default
  else if is_empty (rr_anchors r) && (rr_journal_cursor r =? 0)
          && (negb (rr_enabled r) || is_empty (rr_pending_journal r))
  then recorder_new st
  else if rr_enabled r && is_empty (rr_ring r) then rebuild_potg_selection_ring r st
  else if rr_enabled r then
    enforce_potg_selection_cap
      {| r with rr_ring_bytes :=
           foldl (fun acc e => sat_add_u64 acc (default u64_max (encoded_len e)))
             0 (rr_ring r) |}
  else r.

(** The entry of the first pending cell with cursor 1 is replaced. *)
Fixpoint replace_first_cell (e : ReplayJournalEntry) (l : list ReplayJournalDelta)
  : list ReplayJournalDelta :=
  match l with
  | [] => []
  | d :: l' => if jd_cursor d =? 1 then mkDelta 1 e :: l' else d :: replace_first_cell e l'
  end.

Definition replace_pristine_activation `{RecorderEnv} (r : ReplayRecordingState)
    (st : GameState) : ReplayRecordingState :=
  match rr_anchors r with
  | [_] =>
      if rr_enabled r && is_empty (rr_messages r) then
        let anchor := mkAnchor (gs_tick st) 0 st in
        let entry := JE_Anchor anchor in
        enforce_potg_selection_cap
          {| r with rr_anchors := [anchor];
                    rr_pending_journal := replace_first_cell entry (rr_pending_journal r);
                    rr_activation_tick := gs_tick st;
                    rr_ring := [entry];
                    rr_ring_bytes :=
                      default (sat_add_u64 (rr_ring_max_bytes r) 1) (encoded_len entry) |}
      else r
  | _ => r
  end.

Definition delta_le (a b : ReplayJournalDelta) : Prop := jd_cursor a <= jd_cursor b.

#[global] Instance delta_le_dec a b : Decision (delta_le a b).
Proof. unfold delta_le. apply _. Defined.

(** The cells in cursor order, distributed over the two archives. *)
Fixpoint load_cells (expected : Z) (deltas : list ReplayJournalDelta)
    (r : ReplayRecordingState) : Result unit * ReplayRecordingState :=
  match deltas with
  | [] => (Ok tt, r)
  | d :: deltas' =>
      if negb (jd_cursor d =? expected) then (Err "replay journal cursor gap", r)
      else load_cells (expected + 1) deltas'
             match jd_entry d with
             | JE_Anchor a => {| r with rr_anchors := rr_anchors r ++ [a] |}
             | JE_Message m => {| r with rr_messages := rr_messages r ++ [m] |}
             end
  end.

Definition hydrate_journal `{RecorderEnv} (r : ReplayRecordingState)
    (deltas : list ReplayJournalDelta) (checkpoint_state : GameState)
  : Result unit * ReplayRecordingState :=
  if negb (rr_enabled r) then
    if negb (rr_journal_cursor r =? 0) || negb (is_empty deltas)
    then (Err "disabled replay recorder references journal history", r)
    else (Ok tt, r)
  else
    let deltas := merge_sort delta_le deltas in
    if negb (vec_len deltas =? rr_journal_cursor r)
    then (Err "replay journal cell count does not match the checkpoint", r)
    else
      match load_cells 1 deltas {| r with rr_anchors := []; rr_messages := [] |} with
      | (Ok _, r) =>
          if (0 <? rr_journal_cursor r) && is_empty (rr_anchors r)
          then (Err "replay journal has no activation anchor", r)
          else
            let expected_next :=
              match last (rr_messages r) with
              | Some m => sat_add_u64 (rm_sequence m) 1
              | None => 1
              end in
            if negb (rr_next_sequence r =? expected_next)
            then (Err "replay journal next sequence does not follow", r)
            else (Ok tt, rebuild_potg_selection_ring {| r with rr_pending_journal := [] |}
                           checkpoint_state)
      | (e, r) => (e, r)
      end.

(** What a checkpoint keeps of a recorder: the fields that are not skipped by
    the serializer, the others at their declared defaults. *)
Definition restored_view (r : ReplayRecordingState) : ReplayRecordingState :=
  {| recorder_default with
     rr_enabled := rr_enabled r; rr_next_sequence := rr_next_sequence r;
     rr_journal_cursor := rr_journal_cursor r;
     rr_ring_max_bytes := POTG_SELECTION_RING_MAX_BYTES |}.

(** ** The reference a completion keeps *)

Record ReplayJournalReferenceV1 := mkReference {
  jr_schema_version : Z;
  jr_game_id : Z;
  jr_journal_cursor : Z;
  jr_next_sequence : Z;
  jr_end_tick : option Z;
  jr_end_sync_hash : option Z;
  jr_recording_sha256 : option string;
  jr_recording_bytes : option Z
}.

Definition reference_new (game_id journal_cursor next_sequence : Z) (final : GameState)
  : Result ReplayJournalReferenceV1 :=
  hash ← sync_hash final;
  Ok {| jr_schema_version := REPLAY_JOURNAL_REFERENCE_SCHEMA_VERSION;
        jr_game_id := game_id; jr_journal_cursor := journal_cursor;
        jr_next_sequence := next_sequence; jr_end_tick := Some (gs_tick final);
        jr_end_sync_hash := Some hash; jr_recording_sha256 := None;
        jr_recording_bytes := None |}.

Definition is_ascii_hexdigit (c : ascii) : bool :=
  let n := N_of_ascii c in
  (((48 <=? n) && (n <=? 57)) || ((65 <=? n) && (n <=? 70)) || ((97 <=? n) && (n <=? 102)))%N.

Fixpoint all_bytes (f : ascii -> bool) (s : string) : bool :=
  match s with EmptyString => true | String c s' => f c && all_bytes f s' end.

Definition reference_validate (j : ReplayJournalReferenceV1) : Result unit :=
  ensure (jr_schema_version j =? REPLAY_JOURNAL_REFERENCE_SCHEMA_VERSION)
    "unsupported replay journal reference schema version" ;;
  ensure (negb ((jr_journal_cursor j =? 0) || (jr_next_sequence j =? 0)))
    "replay journal reference cannot be empty" ;;
  match jr_end_tick j, jr_end_sync_hash j with
  | Some _, Some _ | None, None => Ok tt
  | _, _ => Err "replay journal reference has incomplete final-state metadata"
  end ;;
  match jr_recording_sha256 j, jr_recording_bytes j with
  | Some sha256, Some bytes =>
      ensure (negb (bytes =? 0)) "replay journal reference recording cannot be empty" ;;
      ensure (negb (negb (Z.of_nat (String.length sha256) =? 64)
                    || negb (all_bytes is_ascii_hexdigit sha256)))
        "replay journal reference SHA-256 is invalid"
  | None, None => Ok tt
  | _, _ => Err "replay journal reference has an incomplete legacy digest"
  end ;;
  ensure (negb (bool_decide (jr_end_tick j = None) && bool_decide (jr_recording_sha256 j = None)))
    "replay journal reference has no immutable recording boundary".

Definition journal_reference (r : ReplayRecordingState) (game_id : Z) (final : GameState)
  : Result (option ReplayJournalReferenceV1) :=
  if negb (rr_enabled r) then Ok None
  else
    reference ← reference_new game_id (rr_journal_cursor r) (rr_next_sequence r) final;
    reference_validate reference ;;
    Ok (Some reference).

Definition hydrate_reference `{RecorderEnv} (j : ReplayJournalReferenceV1)
    (deltas : list ReplayJournalDelta) (final : GameState) : Result ReplayRecordingState :=
  reference_validate j ;;
  match hydrate_journal
          {| recorder_default with
             rr_enabled := true; rr_next_sequence := jr_next_sequence j;
             rr_journal_cursor := jr_journal_cursor j;
             rr_ring_max_bytes := POTG_SELECTION_RING_MAX_BYTES |} deltas final with
  | (Ok _, r) => Ok r
  | (x, _) => recast x
  end.

(** ** Recordings *)

Definition assemble (r : ReplayRecordingState) (game_id : Z) (final : GameState)
  : Result (option GameRecordingV1) :=
  if rr_enabled r then
    hash ← sync_hash final;
    Ok (Some {| gr_format_version := GAME_RECORDING_FORMAT_VERSION;
                gr_gameplay_version := GAMEPLAY_REPLAY_VERSION;
                gr_game_id := game_id; gr_visibility := RV_Public;
                gr_anchors := rr_anchors r; gr_messages := rr_messages r;
                gr_end_tick := gs_tick final; gr_end_sync_hash := hash |})
  else Ok None.

Definition finish `{F32Libm} (fuel : nat) (r : ReplayRecordingState) (game_id : Z)
    (final : GameState) : option (Result (option GameRecordingV1)) :=
  if negb (rr_enabled r) then Some (Ok None)
  else match assemble r game_id final with
  | Ok (Some recording) =>
      match verify_end_hash fuel recording with
      | None => None
      | Some (Ok _) => Some (Ok (Some recording))
      | Some x => Some (recast x)
      end
  | Ok None => Some (Panic "enabled replay recorder assembles a recording")
  | Err e => Some (Err e)
  | Panic e => Some (Panic e)
  end.

Definition ring_anchors (l : list ReplayJournalEntry) : list ReplayAnchor :=
  omap (fun e => match e with JE_Anchor a => Some a | _ => None end) l.
Definition ring_messages (l : list ReplayJournalEntry) : list RecordedGameMessage :=
  omap (fun e => match e with JE_Message m => Some m | _ => None end) l.

Definition finish_potg_selection (r : ReplayRecordingState) (game_id : Z) (final : GameState)
  : Result (option GameRecordingV1) :=
  if negb (rr_enabled r) || is_empty (rr_ring r) then Ok None
  else if is_empty (ring_anchors (rr_ring r)) then Ok None
  else
    hash ← sync_hash final;
    Ok (Some {| gr_format_version := GAME_RECORDING_FORMAT_VERSION;
                gr_gameplay_version := GAMEPLAY_REPLAY_VERSION;
                gr_game_id := game_id; gr_visibility := RV_Public;
                gr_anchors := ring_anchors (rr_ring r);
                gr_messages := ring_messages (rr_ring r);
                gr_end_tick := gs_tick final; gr_end_sync_hash := hash |}).

Definition potg_ring_evicted_seconds (r : ReplayRecordingState) (tick_duration_ms : Z) : Z :=
  if negb (rr_ring_truncated r) then 0
  else
    let retained_tick :=
      match rr_ring r with e :: _ => entry_tick e | [] => rr_ring_evicted_through_tick r end in
    div_ceil (sat_mul_u64 (sat_sub retained_tick (rr_activation_tick r)) tick_duration_ms) 1000.

Definition potg_selection_ring_bytes (r : ReplayRecordingState) : Z :=
  sat_add_u64 (rr_ring_bytes r) POTG_SELECTION_RING_JSON_OVERHEAD_BYTES.
