(* ===== verification/JournalFacts.v ===== *)
(** * Facts on the replay recorder

    A recorder is an archive and a ring: the archive methods do not read the
    ring and the ring methods do not touch the archive. The journal is the
    numbered list of the recorded entries. *)

From Stdlib Require Import ZArith.
From stdpp Require Import prelude strings countable list gmap sorting.
From S2P Require Import Prelude RustFloat Util Snake Arena CommandQueue GameState GameSetup.
From S2P Require Import Events Validate Tick Fingerprint Engine StreamId CommandLedger Recording.
From S2P Require Import Journal.
Open Scope Z_scope.

(** ** Archive and ring *)

Definition archive_view (r : ReplayRecordingState) :=
  (rr_enabled r, rr_anchors r, rr_messages r, rr_next_sequence r, rr_journal_cursor r,
   rr_pending_journal r).

Definition ring_view (r : ReplayRecordingState) :=
  (rr_ring r, rr_ring_bytes r, rr_ring_truncated r, rr_ring_evicted_through_tick r,
   rr_activation_tick r, rr_ring_max_bytes r).

Lemma views_eq r q : archive_view r = archive_view q -> ring_view r = ring_view q -> r = q.
Proof. destruct r, q. unfold archive_view, ring_view. cbn. naive_solver. Qed.

Section recorder.
Context `{RecorderEnv}.

Lemma evict_over_budget_archive budget l r :
  archive_view (evict_over_budget budget l r) = archive_view r.
Proof.
  revert r. induction l as [|e l IH]; intros r; cbn [evict_over_budget]; case_match; try done.
  by rewrite IH.
Qed.

Lemma evict_unanchored_archive l r : archive_view (evict_unanchored l r) = archive_view r.
Proof.
  revert r. induction l as [|[a|m] l IH]; intros r; cbn [evict_unanchored]; try done. by rewrite IH.
Qed.

Lemma evict_over_budget_ring budget l r q :
  ring_view r = ring_view q ->
  ring_view (evict_over_budget budget l r) = ring_view (evict_over_budget budget l q).
Proof.
  revert r q. induction l as [|e l IH]; intros r q E; cbn [evict_over_budget];
    assert (rr_ring_bytes r = rr_ring_bytes q) as -> by (unfold ring_view in E; congruence);
    case_match; try (apply IH); unfold ring_view, note_evicted in *; cbn; congruence.
Qed.

Lemma evict_unanchored_ring l r q :
  ring_view r = ring_view q -> ring_view (evict_unanchored l r) = ring_view (evict_unanchored l q).
Proof.
  revert r q. induction l as [|[a|m] l IH]; intros r q E; cbn [evict_unanchored];
    try (apply IH); unfold ring_view, note_evicted in *; cbn; congruence.
Qed.

Lemma enforce_archive r : archive_view (enforce_potg_selection_cap r) = archive_view r.
Proof.
  unfold enforce_potg_selection_cap. by rewrite evict_unanchored_archive, evict_over_budget_archive.
Qed.

Lemma enforce_ring r q :
  ring_view r = ring_view q ->
  ring_view (enforce_potg_selection_cap r) = ring_view (enforce_potg_selection_cap q).
Proof.
  intros E. unfold enforce_potg_selection_cap.
  assert (rr_ring r = rr_ring q) as -> by (unfold ring_view in E; congruence).
  assert (rr_ring_max_bytes r = rr_ring_max_bytes q) as -> by (unfold ring_view in E; congruence).
  pose proof (evict_over_budget_ring (sat_sub (rr_ring_max_bytes q)
    POTG_SELECTION_RING_JSON_OVERHEAD_BYTES) (rr_ring q) r q E) as E'.
  set (r1 := evict_over_budget _ _ r) in *. set (q1 := evict_over_budget _ _ q) in *.
  assert (rr_ring r1 = rr_ring q1) as -> by (unfold ring_view in E'; congruence).
  by apply evict_unanchored_ring.
Qed.

Lemma push_spec r e n :
  encoded_len e = Some n ->
  exists r', push_potg_entry r e = (Ok tt, r') /\ archive_view r' = archive_view r
    /\ forall q, ring_view q = ring_view r ->
       exists q', push_potg_entry q e = (Ok tt, q') /\ ring_view q' = ring_view r'.
Proof.
  intros E. unfold push_potg_entry. rewrite E. eexists. split; [reflexivity|].
  split; [by rewrite enforce_archive|]. intros q Eq. eexists. split; [reflexivity|].
  apply enforce_ring. unfold ring_view in *. cbn. congruence.
Qed.

Lemma push_ok r e r' : push_potg_entry r e = (Ok tt, r') -> is_Some (encoded_len e).
Proof. unfold push_potg_entry. by destruct (encoded_len e). Qed.

(** The ring after a list of entries, started blank at an activation tick. *)
Definition blank (activation : Z) : ReplayRecordingState :=
  {| recorder_default with rr_ring_evicted_through_tick := activation;
     rr_activation_tick := activation;
     rr_ring_max_bytes := POTG_SELECTION_RING_MAX_BYTES |}.

Lemma push_all_app r l e :
  push_all r (l ++ [e]) = match push_all r l with
                          | (Ok _, r) => push_potg_entry r e
                          | (x, r) => (x, r)
                          end.
Proof.
  revert r. induction l as [|e' l IH]; intros r; cbn [app push_all].
  - destruct (push_potg_entry r e) as [[[]| |] ?]; done.
  - destruct (push_potg_entry r e') as [[[]| |] r']; [apply IH|done..].
Qed.

Lemma push_all_ring l r q r' :
  ring_view q = ring_view r -> push_all r l = (Ok tt, r') ->
  exists q', push_all q l = (Ok tt, q') /\ ring_view q' = ring_view r'
    /\ archive_view q' = archive_view q.
Proof.
  revert r q. induction l as [|e l IH]; intros r q E; cbn [push_all].
  - intros [= <-]. by exists q.
  - destruct (push_potg_entry r e) as [[[]| |] r1] eqn:Er; [|done..].
    destruct (push_ok _ _ _ Er) as [n Hn].
    destruct (push_spec q e n Hn) as (q1 & Eq & Aq & Hq). rewrite Eq.
    destruct (Hq r (eq_sym E)) as (r1' & Er' & Rr). rewrite Er in Er'. injection Er' as <-.
    intros Hl. destruct (IH r1 q1 (eq_sym Rr) Hl) as (q' & ? & ? & Aq'). exists q'.
    split; [done|]. split; [done|]. by rewrite Aq', Aq.
Qed.

(** ** The journal *)

Fixpoint cells_from (n : Z) (l : list ReplayJournalEntry) : list ReplayJournalDelta :=
  match l with [] => [] | e :: l' => mkDelta n e :: cells_from (n + 1) l' end.

Lemma cells_from_app n l1 l2 :
  cells_from n (l1 ++ l2) = cells_from n l1 ++ cells_from (n + vec_len l1) l2.
Proof.
  revert n. induction l1 as [|e l1 IH]; intros n; cbn; [unfold vec_len; cbn; by rewrite Z.add_0_r|].
  rewrite IH. unfold vec_len. cbn [length]. do 2 f_equal. f_equal. lia.
Qed.

Lemma cells_from_length n l : length (cells_from n l) = length l.
Proof. revert n. induction l as [|e l IH]; intros n; cbn; [done|]. by rewrite IH. Qed.

Lemma cells_from_cursor n l d : d ∈ cells_from n l -> n <= jd_cursor d < n + vec_len l.
Proof.
  revert n. induction l as [|e l IH]; intros n; cbn; [by intros ?%elem_of_nil|].
  unfold vec_len in *. cbn [length]. intros [->|Hd]%elem_of_cons; [cbn; lia|].
  specialize (IH _ Hd). lia.
Qed.

Lemma cells_from_sorted n l : StronglySorted delta_le (cells_from n l).
Proof.
  revert n. induction l as [|e l IH]; intros n; cbn; constructor; [done|].
  apply Forall_forall. intros d Hd. apply cells_from_cursor in Hd. unfold delta_le. cbn. lia.
Qed.

Lemma cells_from_unique n l a b :
  a ∈ cells_from n l -> b ∈ cells_from n l -> jd_cursor a = jd_cursor b -> a = b.
Proof.
  revert n. induction l as [|e l IH]; intros n; cbn; [by intros ?%elem_of_nil|].
  intros [->|Ha]%elem_of_cons [->|Hb]%elem_of_cons E; [done| | |by eapply IH].
  - apply cells_from_cursor in Hb. cbn in E. lia.
  - apply cells_from_cursor in Ha. cbn in E. lia.
Qed.

#[local] Instance delta_le_total : Total delta_le.
Proof. intros a b. unfold delta_le. lia. Qed.
#[local] Instance delta_le_trans : Transitive delta_le.
Proof. intros a b c. unfold delta_le. lia. Qed.

(** The store may return the cells in any order. *)
Lemma sort_cells n l cells : cells ≡ₚ cells_from n l -> merge_sort delta_le cells = cells_from n l.
Proof.
  intros Hp. apply (StronglySorted_unique_strong delta_le).
  - intros a b Ha Hb Hab Hba. eapply cells_from_unique; [|done|unfold delta_le in *; lia].
    by rewrite <-Hp, <-(merge_sort_Permutation delta_le cells).
  - apply (StronglySorted_merge_sort delta_le).
  - apply cells_from_sorted.
  - by rewrite merge_sort_Permutation.
Qed.

Lemma load_cells_from n l r :
  load_cells n (cells_from n l) r
  = (Ok tt, {| r with rr_anchors := rr_anchors r ++ ring_anchors l;
                      rr_messages := rr_messages r ++ ring_messages l |}).
Proof.
  revert n r. induction l as [|[a|m] l IH]; intros n r; cbn [cells_from load_cells jd_cursor jd_entry].
  - cbn. rewrite !app_nil_r. by destruct r.
  - rewrite Z.eqb_refl. cbn [negb]. rewrite IH. cbn. by rewrite <-app_assoc.
  - rewrite Z.eqb_refl. cbn [negb]. rewrite IH. cbn. by rewrite <-app_assoc.
Qed.

(** ** The order of the archive *)

Fixpoint journal_ordered (l : list ReplayJournalEntry) : Prop :=
  match l with
  | [] => True
  | JE_Anchor a :: l' =>
      Forall (fun m => pos_leb (message_pos m) (anchor_pos a) = false) (ring_messages l')
      /\ journal_ordered l'
  | JE_Message m :: l' =>
      Forall (fun a => pos_leb (message_pos m) (anchor_pos a) = true) (ring_anchors l')
      /\ journal_ordered l'
  end.

Lemma merge_ordered l :
  journal_ordered l -> merge_archive (ring_messages l) (ring_anchors l) = l.
Proof.
  induction l as [|[a|m] l IH]; [done|..]; intros [Hf Ho]; specialize (IH Ho).
  - change (ring_messages (JE_Anchor a :: l)) with (ring_messages l).
    change (ring_anchors (JE_Anchor a :: l)) with (a :: ring_anchors l).
    destruct (ring_messages l) as [|m ms] eqn:Em.
    + cbn [merge_archive]. f_equal. exact IH.
    + cbn [merge_archive]. apply Forall_cons in Hf as [-> _]. f_equal. exact IH.
  - change (ring_messages (JE_Message m :: l)) with (m :: ring_messages l).
    change (ring_anchors (JE_Message m :: l)) with (ring_anchors l).
    destruct (ring_anchors l) as [|a l'] eqn:Ea; cbn [merge_archive].
    + f_equal. exact IH.
    + apply Forall_cons in Hf as [-> _]. f_equal. exact IH.
Qed.

Lemma ring_anchors_app l1 l2 : ring_anchors (l1 ++ l2) = ring_anchors l1 ++ ring_anchors l2.
Proof. unfold ring_anchors. apply omap_app. Qed.
Lemma ring_messages_app l1 l2 : ring_messages (l1 ++ l2) = ring_messages l1 ++ ring_messages l2.
Proof. unfold ring_messages. apply omap_app. Qed.

Lemma ordered_anchor l a :
  journal_ordered l ->
  Forall (fun m => pos_leb (message_pos m) (anchor_pos a) = true) (ring_messages l) ->
  journal_ordered (l ++ [JE_Anchor a]).
Proof.
  induction l as [|[b|m] l IH]; cbn [app journal_ordered]; intros Ho Hf; [done| |].
  - destruct Ho as [Hb Ho]. split; [|by apply IH]. rewrite ring_messages_app. cbn. by rewrite app_nil_r.
  - destruct Ho as [Hb Ho]. change (ring_messages (JE_Message m :: l)) with (m :: ring_messages l) in Hf.
    apply Forall_cons in Hf as [Hm Hf]. split; [|by apply IH].
    rewrite ring_anchors_app. apply Forall_app. split; [done|]. by repeat constructor.
Qed.

Lemma ordered_message l m :
  journal_ordered l ->
  Forall (fun a => pos_leb (message_pos m) (anchor_pos a) = false) (ring_anchors l) ->
  journal_ordered (l ++ [JE_Message m]).
Proof.
  induction l as [|[b|m'] l IH]; cbn [app journal_ordered]; intros Ho Hf; [done| |].
  - destruct Ho as [Hb Ho]. change (ring_anchors (JE_Anchor b :: l)) with (b :: ring_anchors l) in Hf.
    apply Forall_cons in Hf as [Hm Hf]. split; [|by apply IH].
    rewrite ring_messages_app. apply Forall_app. split; [done|]. by repeat constructor.
  - destruct Ho as [Hb Ho]. split; [|by apply IH]. rewrite ring_anchors_app. cbn. by rewrite app_nil_r.
Qed.

(** ** A recorder at work

    The executor records events and anchors; a checkpoint hands the pending
    cells to the store and marks them persisted. *)

Inductive RecorderOp :=
| Op_Event (tick : Z) (event : GameEvent)
| Op_Anchor (st : GameState)
| Op_Checkpoint.

Definition recorder_step (r : ReplayRecordingState) (store : list ReplayJournalDelta)
    (op : RecorderOp) : Result (ReplayRecordingState * list ReplayJournalDelta) :=
  match op with
  | Op_Event tick event =>
      match record_event r tick event with (Ok _, r) => Ok (r, store) | (x, _) => recast x end
  | Op_Anchor st =>
      match maybe_anchor r st with (Ok _, r) => Ok (r, store) | (x, _) => recast x end
  | Op_Checkpoint =>
      match mark_journal_persisted r (rr_journal_cursor (checkpoint_view r)) with
      | (Ok _, r') => Ok (r', store ++ rr_pending_journal (checkpoint_view r))
      | (x, _) => recast x
      end
  end.

Fixpoint recorder_run (r : ReplayRecordingState) (store : list ReplayJournalDelta)
    (ops : list RecorderOp) : Result (ReplayRecordingState * list ReplayJournalDelta) :=
  match ops with
  | [] => Ok (r, store)
  | op :: ops' => '(r, store) ← recorder_step r store op; recorder_run r store ops'
  end.

(** The ticks of the operations never go back. *)
Fixpoint ops_ordered (t : Z) (ops : list RecorderOp) : Prop :=
  match ops with
  | [] => True
  | Op_Event tick _ :: ops' => t <= tick /\ ops_ordered tick ops'
  | Op_Anchor st :: ops' => t <= gs_tick st /\ ops_ordered (gs_tick st) ops'
  | Op_Checkpoint :: ops' => ops_ordered t ops'
  end.

Definition entry_sequence (e : ReplayJournalEntry) : Z :=
  match e with JE_Anchor a => ra_sequence a | JE_Message m => rm_sequence m end.

Record journal_ok (r : ReplayRecordingState) (store : list ReplayJournalDelta)
    (l : list ReplayJournalEntry) (t : Z) : Prop := mkJournalOk {
  jo_enabled : rr_enabled r = true;
  jo_cells : store ++ rr_pending_journal r = cells_from 1 l;
  jo_cursor : rr_journal_cursor r = vec_len l;
  jo_anchors : rr_anchors r = ring_anchors l;
  jo_messages : rr_messages r = ring_messages l;
  jo_next : rr_next_sequence r
            = match last (rr_messages r) with Some m => rm_sequence m + 1 | None => 1 end;
  jo_next_range : 1 <= rr_next_sequence r <= u64_max;
  jo_bound : Forall (fun e => entry_tick e <= t /\ entry_sequence e < rr_next_sequence r) l;
  jo_order : journal_ordered l;
  jo_ring : exists a l' q, l = JE_Anchor a :: l' /\ push_all (blank (ra_tick a)) l = (Ok tt, q)
              /\ ring_view r = ring_view q
}.

Lemma journal_ok_new st :
  replay_recording_allowed st = true ->
  is_Some (encoded_len (JE_Anchor (mkAnchor (gs_tick st) 0 st))) ->
  journal_ok (recorder_new st) [] [JE_Anchor (mkAnchor (gs_tick st) 0 st)] (gs_tick st).
Proof.
  intros Ha [n Hn]. unfold recorder_new. rewrite Ha, Hn. cbn [negb].
  set (e := JE_Anchor _) in *. set (r0 := mkRecorder _ _ _ _ _ _ _ _ _ _ _ _).
  pose proof (enforce_archive r0) as A. unfold archive_view in A. injection A as A1 A2 A3 A4 A5 A6.
  split; rewrite ?A1, ?A2, ?A3, ?A4, ?A5, ?A6; try done.
  - repeat constructor; cbn; lia.
  - exists (mkAnchor (gs_tick st) 0 st), []. cbn [push_all].
    unfold push_potg_entry. rewrite Hn. eexists. split; [done|]. split; [reflexivity|].
    apply enforce_ring. unfold ring_view, r0. cbn. unfold sat_add_u64.
    assert (n <= u64_max).
    { unfold encoded_len in Hn. destruct (json_len e); [|done]. injection Hn as <-.
      unfold sat_add_u64. lia. }
    by rewrite Z.min_l by lia.
Qed.

Lemma bound_anchors l t next :
  Forall (fun e => entry_tick e <= t /\ entry_sequence e < next) l ->
  Forall (fun a => ra_tick a <= t /\ ra_sequence a < next) (ring_anchors l).
Proof.
  intros Hf. apply Forall_forall. intros a (e & He & Ea)%list_elem_of_omap.
  rewrite Forall_forall in Hf. specialize (Hf _ He). destruct e; [|done]. by injection Ea as <-.
Qed.

Lemma bound_messages l t next :
  Forall (fun e => entry_tick e <= t /\ entry_sequence e < next) l ->
  Forall (fun m => rm_tick m <= t /\ rm_sequence m < next) (ring_messages l).
Proof.
  intros Hf. apply Forall_forall. intros m (e & He & Em)%list_elem_of_omap.
  rewrite Forall_forall in Hf. specialize (Hf _ He). destruct e; [done|]. by injection Em as <-.
Qed.

(** One more entry, appended to the journal and pushed to the ring. *)
Lemma journal_ok_push r store l t r' e q :
  journal_ok r store l t ->
  rr_journal_cursor r < u64_max ->
  push_potg_entry q e = (Ok tt, r') -> ring_view q = ring_view r ->
  rr_enabled q = true ->
  rr_pending_journal q = rr_pending_journal r ++ [mkDelta (rr_journal_cursor r + 1) e] ->
  store ++ rr_pending_journal r' = cells_from 1 (l ++ [e])
  /\ archive_view r' = archive_view q
  /\ exists a l' q', l ++ [e] = JE_Anchor a :: l'
       /\ push_all (blank (ra_tick a)) (l ++ [e]) = (Ok tt, q') /\ ring_view r' = ring_view q'.
Proof.
  intros J Hc Hp Hq He Hpend. destruct (push_ok _ _ _ Hp) as [n Hn].
  destruct (push_spec q e n Hn) as (r1 & E1 & A1 & R1). rewrite E1 in Hp. injection Hp as <-.
  split; [|split; [done|]].
  - assert (rr_pending_journal r1 = rr_pending_journal q) as -> by (unfold archive_view in A1; congruence).
    rewrite Hpend, app_assoc, (jo_cells _ _ _ _ J), cells_from_app, (jo_cursor _ _ _ _ J).
    cbn. do 2 f_equal. f_equal. lia.
  - destruct (jo_ring _ _ _ _ J) as (a & l' & q0 & -> & Hpush & Hv). exists a, (l' ++ [e]).
    rewrite push_all_app, Hpush. destruct (R1 q0) as (q' & Eq' & Vq'); [congruence|].
    exists q'. split; [done|]. split; done.
Qed.

Lemma append_ok r e r1 :
  append_journal r e = (Ok tt, r1) ->
  rr_journal_cursor r < u64_max
  /\ r1 = {| r with rr_pending_journal := rr_pending_journal r ++ [mkDelta (rr_journal_cursor r + 1) e];
                    rr_journal_cursor := rr_journal_cursor r + 1 |}.
Proof.
  unfold append_journal, checked_add_u64. destruct (Z.leb_spec (rr_journal_cursor r + 1) u64_max); [|done].
  intros [= <-]. split; [lia|done].
Qed.

Lemma journal_ok_skip r store l t t' : journal_ok r store l t -> t <= t' -> journal_ok r store l t'.
Proof.
  intros J Ht. destruct J. split; try done. eapply Forall_impl; [done|]. cbn. intros e []. lia.
Qed.

Lemma journal_ok_event r store l t tick event r' :
  journal_ok r store l t -> t <= tick -> record_event r tick event = (Ok tt, r') ->
  exists l', journal_ok r' store l' tick.
Proof.
  intros J Ht. unfold record_event. rewrite (jo_enabled _ _ _ _ J). cbn [negb orb].
  destruct (is_recorded event); [|intros [= <-]; exists l; by apply (journal_ok_skip _ _ _ t)].
  cbn [negb]. unfold checked_add_u64.
  destruct (Z.leb_spec (rr_next_sequence r + 1) u64_max) as [Hn|]; [|done].
  set (m := mkRecorded tick (rr_next_sequence r) event).
  destruct (append_journal _ _) as [[[]| |] r1] eqn:Ea; [|done..].
  apply append_ok in Ea as [Hc Er1]. cbn in Hc. intros Hp.
  edestruct (journal_ok_push r store l t r' (JE_Message m)) as (C & A & R);
    [exact J|exact Hc|exact Hp|by subst r1|subst r1; cbn; first [done|apply (jo_enabled _ _ _ _ J)]|by subst r1|].
  subst r1. unfold archive_view in A. cbn in A. injection A as A1 A2 A3 A4 A5 A6.
  pose proof (jo_next_range _ _ _ _ J) as Hr.
  exists (l ++ [JE_Message m]). split; rewrite ?A1, ?A2, ?A3, ?A4, ?A5; try done.
  - rewrite (jo_cursor _ _ _ _ J). unfold vec_len. rewrite length_app. cbn. lia.
  - rewrite ring_anchors_app. cbn. by rewrite app_nil_r, (jo_anchors _ _ _ _ J).
  - by rewrite ring_messages_app, (jo_messages _ _ _ _ J).
  - by rewrite last_snoc.
  - lia.
  - apply Forall_app. split.
    + eapply Forall_impl; [apply (jo_bound _ _ _ _ J)|]. cbn. intros e []. lia.
    + repeat constructor; cbn; lia.
  - apply ordered_message; [apply (jo_order _ _ _ _ J)|].
    eapply Forall_impl; [apply (bound_anchors _ _ _ (jo_bound _ _ _ _ J))|]. cbn.
    intros a []. unfold pos_leb, message_pos, anchor_pos. cbn.
    apply orb_false_iff. split; [apply Z.ltb_ge; lia|]. apply andb_false_iff.
    right. apply Z.leb_gt. lia.
Qed.

Lemma journal_ok_anchor r store l t st r' :
  journal_ok r store l t -> t <= gs_tick st -> maybe_anchor r st = (Ok tt, r') ->
  exists l', journal_ok r' store l' (gs_tick st).
Proof.
  intros J Ht. unfold maybe_anchor. rewrite (jo_enabled _ _ _ _ J). cbn [negb].
  destruct (match last (rr_anchors r) with Some _ => _ | None => _ end);
    [|intros [= <-]; exists l; by apply (journal_ok_skip _ _ _ t)].
  set (a := mkAnchor _ _ _).
  destruct (append_journal _ _) as [[[]| |] r1] eqn:Ea; [|done..].
  apply append_ok in Ea as [Hc Er1]. cbn in Hc. intros Hp.
  edestruct (journal_ok_push r store l t r' (JE_Anchor a)) as (C & A & R);
    [exact J|exact Hc|exact Hp|by subst r1|subst r1; cbn; first [done|apply (jo_enabled _ _ _ _ J)]|by subst r1|].
  subst r1. unfold archive_view in A. cbn in A. injection A as A1 A2 A3 A4 A5 A6.
  pose proof (jo_next_range _ _ _ _ J) as Hr.
  exists (l ++ [JE_Anchor a]). split; rewrite ?A1, ?A2, ?A3, ?A4, ?A5; try done.
  - apply (jo_enabled _ _ _ _ J).
  - rewrite (jo_cursor _ _ _ _ J). unfold vec_len. rewrite length_app. cbn. lia.
  - by rewrite ring_anchors_app, (jo_anchors _ _ _ _ J).
  - rewrite ring_messages_app. cbn. by rewrite app_nil_r, (jo_messages _ _ _ _ J).
  - apply (jo_next _ _ _ _ J).
  - apply Forall_app. split.
    + eapply Forall_impl; [apply (jo_bound _ _ _ _ J)|]. cbn. intros e []. lia.
    + repeat constructor; cbn; unfold sat_sub; lia.
  - apply ordered_anchor; [apply (jo_order _ _ _ _ J)|].
    eapply Forall_impl; [apply (bound_messages _ _ _ (jo_bound _ _ _ _ J))|]. cbn.
    intros m []. unfold pos_leb, message_pos, anchor_pos. cbn.
    apply orb_true_iff. rewrite Z.ltb_lt, andb_true_iff, Z.eqb_eq, Z.leb_le. unfold sat_sub. lia.
Qed.

Lemma journal_ok_checkpoint r store l t r' store' :
  journal_ok r store l t -> recorder_step r store Op_Checkpoint = Ok (r', store') ->
  journal_ok r' store' l t /\ rr_pending_journal r' = [] /\ ring_view r' = ring_view r.
Proof.
  intros J. unfold recorder_step, mark_journal_persisted.
  change (rr_journal_cursor (checkpoint_view r)) with (rr_journal_cursor r).
  change (rr_pending_journal (checkpoint_view r)) with (rr_pending_journal r).
  rewrite Z.ltb_irrefl. intros [= <- <-].
  assert (Hnil : filter (fun d => rr_journal_cursor r < jd_cursor d) (rr_pending_journal r) = []).
  { apply list_filter_none. intros d Hd.
    assert (d ∈ cells_from 1 l) as Hc.
    { rewrite <-(jo_cells _ _ _ _ J). apply elem_of_app. by right. }
    apply cells_from_cursor in Hc. rewrite (jo_cursor _ _ _ _ J). lia. }
  rewrite Hnil. split; [|done]. destruct J. by split; cbn; rewrite ?app_nil_r.
Qed.

Lemma journal_ok_run ops r store l t r' store' :
  journal_ok r store l t -> ops_ordered t ops -> recorder_run r store ops = Ok (r', store') ->
  exists l' t', journal_ok r' store' l' t'.
Proof.
  revert r store l t. induction ops as [|op ops IH]; intros r store l t J Ho; cbn [recorder_run].
  - intros [= <- <-]. eauto.
  - intros Hrun. apply bind_ok in Hrun as ([r1 store1] & E1 & Hrun).
    destruct op as [tick event|st|]; cbn [ops_ordered recorder_step] in *.
    + destruct (record_event r tick event) as [[[]| |] r2] eqn:E; [|done..].
      injection E1 as <- <-. destruct Ho as [Ht Ho].
      destruct (journal_ok_event _ _ _ _ _ _ _ J Ht E) as [l' J']. by apply (IH _ _ _ _ J' Ho).
    + destruct (maybe_anchor r st) as [[[]| |] r2] eqn:E; [|done..].
      injection E1 as <- <-. destruct Ho as [Ht Ho].
      destruct (journal_ok_anchor _ _ _ _ _ _ J Ht E) as [l' J']. by apply (IH _ _ _ _ J' Ho).
    + destruct (journal_ok_checkpoint r store l t r1 store1 J E1) as [J' _].
      by apply (IH _ _ _ _ J' Ho).
Qed.

(** A recorder whose cells are all persisted is rebuilt exactly. *)
Lemma hydrate_exact r store l t cells st :
  journal_ok r store l t -> rr_pending_journal r = [] -> cells ≡ₚ store ->
  hydrate_journal (restored_view r) cells st = (Ok tt, r).
Proof.
  intros J Hp Hperm. pose proof (jo_cells _ _ _ _ J) as Hcells. rewrite Hp, app_nil_r in Hcells.
  rewrite Hcells in Hperm. unfold hydrate_journal. cbn [rr_enabled restored_view].
  rewrite (jo_enabled _ _ _ _ J). cbn [negb].
  rewrite (sort_cells 1 l cells Hperm).
  assert (vec_len (cells_from 1 l) = rr_journal_cursor r) as Hlen.
  { rewrite (jo_cursor _ _ _ _ J). unfold vec_len. by rewrite cells_from_length. }
  cbn [rr_journal_cursor]. rewrite Hlen, Z.eqb_refl. cbn [negb].
  rewrite load_cells_from. cbn [rr_anchors rr_messages rr_journal_cursor rr_next_sequence app].
  rewrite <-(jo_anchors _ _ _ _ J), <-(jo_messages _ _ _ _ J).
  destruct (jo_ring _ _ _ _ J) as (a & l' & q & El & Hpush & Hv).
  assert (Ea : rr_anchors r = a :: ring_anchors l') by (by rewrite (jo_anchors _ _ _ _ J), El).
  assert (Em : rr_messages r = ring_messages l') by (by rewrite (jo_messages _ _ _ _ J), El).
  rewrite Ea at 1. cbn [is_empty]. rewrite andb_false_r.
  assert (match last (rr_messages r) with Some m => sat_add_u64 (rm_sequence m) 1 | None => 1 end
          = rr_next_sequence r) as ->.
  { pose proof (jo_next _ _ _ _ J) as E. pose proof (jo_next_range _ _ _ _ J).
    destruct (last (rr_messages r)); [|done]. unfold sat_add_u64. rewrite Z.min_l; lia. }
  rewrite Z.eqb_refl. cbn [negb]. f_equal.
  unfold rebuild_potg_selection_ring, try_rebuild_potg_selection_ring.
  cbn [rr_anchors rr_messages]. rewrite Ea.
  pose proof (jo_order _ _ _ _ J) as Ho. rewrite El in Ho. destruct Ho as [_ Ho].
  rewrite Em, (merge_ordered l' Ho), <-El.
  match goal with |- context [push_all ?x _] => set (r0 := x) end.
  destruct (push_all_ring l (blank (ra_tick a)) r0 q) as (q' & -> & Vq & Aq); [done|done|].
  apply views_eq; [|congruence]. rewrite Aq. unfold archive_view. cbn.
  by rewrite Hp, Ea, Em, (jo_enabled _ _ _ _ J).
Qed.

(** ** The bounded ring *)

(** The exact size of the retained entries. *)
Fixpoint ring_size (l : list ReplayJournalEntry) : Z :=
  match l with [] => 0 | e :: l' => default 0 (encoded_len e) + ring_size l' end.

Definition starts_with_anchor (l : list ReplayJournalEntry) : Prop :=
  match l with JE_Message _ :: _ => False | _ => True end.

Definition ring_budget : Z :=
  POTG_SELECTION_RING_MAX_BYTES - POTG_SELECTION_RING_JSON_OVERHEAD_BYTES.

Lemma encoded_len_bound e n : encoded_len e = Some n -> 1 <= n <= 2 ^ 63.
Proof.
  unfold encoded_len. destruct (json_len e) as [k|] eqn:E; [|done]. intros [= <-].
  apply json_len_bound in E. unfold sat_add_u64, u64_max. lia.
Qed.

Lemma ring_size_nonneg l : 0 <= ring_size l.
Proof.
  induction l as [|e l IH]; cbn; [lia|]. destruct (encoded_len e) as [n|] eqn:E; cbn; [|lia].
  apply encoded_len_bound in E. lia.
Qed.

Lemma ring_size_app l1 l2 : ring_size (l1 ++ l2) = ring_size l1 + ring_size l2.
Proof. induction l1 as [|e l1 IH]; cbn; [done|]. rewrite IH. lia. Qed.

(** What a sequence of evictions keeps: a suffix, its exact size, the flags. *)
Definition evicted (l : list ReplayJournalEntry) (r r' : ReplayRecordingState) : Prop :=
  exists k, rr_ring r' = drop k l /\ rr_ring_bytes r' = ring_size (rr_ring r')
    /\ rr_ring_max_bytes r' = rr_ring_max_bytes r
    /\ (rr_ring_truncated r' = false -> rr_ring_truncated r = false /\ rr_ring r' = l).

Lemma note_evicted_exact e l r :
  rr_ring_bytes r = ring_size (e :: l) -> rr_ring_bytes (note_evicted e l r) = ring_size l.
Proof.
  intros E. cbn. rewrite E. cbn. pose proof (ring_size_nonneg l).
  unfold sat_sub. destruct (encoded_len e); cbn; lia.
Qed.

Lemma evict_over_budget_spec budget l r :
  rr_ring_bytes r = ring_size l -> 0 <= budget ->
  evicted l r (evict_over_budget budget l r)
  /\ rr_ring_bytes (evict_over_budget budget l r) <= budget.
Proof.
  revert r. induction l as [|e l IH]; intros r E Hb; cbn [evict_over_budget].
  - cbn in E. rewrite E. rewrite (proj2 (Z.ltb_ge _ _)) by lia. split; [|cbn; lia].
    exists 0%nat. cbn. done.
  - destruct (Z.ltb_spec budget (rr_ring_bytes r)).
    + destruct (IH (note_evicted e l r)) as [(k & H1 & H2 & H3 & H4) Hle];
        [by apply note_evicted_exact|done|]. split; [|done].
      exists (S k). split; [done|]. split; [done|]. split; [done|]. intros Ht.
      apply H4 in Ht as [Ht _]. discriminate Ht.
    + split; [|done]. exists 0%nat. cbn. done.
Qed.

Lemma evict_unanchored_spec l r :
  rr_ring_bytes r = ring_size l ->
  evicted l r (evict_unanchored l r)
  /\ rr_ring_bytes (evict_unanchored l r) <= rr_ring_bytes r
  /\ starts_with_anchor (rr_ring (evict_unanchored l r)).
Proof.
  revert r. induction l as [|[a|m] l IH]; intros r E; cbn [evict_unanchored].
  - split; [by exists 0%nat|]. split; [cbn; lia|done].
  - split; [by exists 0%nat|]. split; [cbn; lia|done].
  - pose proof (note_evicted_exact _ _ _ E) as E'. pose proof (ring_size_nonneg l).
    destruct (IH _ E') as ((k & H1 & H2 & H3 & H4) & Hle & Hs). split.
    + exists (S k). split; [done|]. split; [done|]. split; [done|].
      intros Ht. apply H4 in Ht as [Ht _]. discriminate Ht.
    + split; [|done]. rewrite E' in Hle. rewrite E. cbn. destruct (encoded_len (JE_Message m)) eqn:En;
        cbn; [apply encoded_len_bound in En|]; lia.
Qed.

Record ring_ok (r : ReplayRecordingState) : Prop := mkRingOk {
  ro_max : rr_ring_max_bytes r = POTG_SELECTION_RING_MAX_BYTES;
  ro_bytes : rr_ring_bytes r = ring_size (rr_ring r);
  ro_cap : rr_ring_bytes r <= ring_budget;
  ro_anchor : starts_with_anchor (rr_ring r)
}.

Lemma enforce_spec r :
  rr_ring_max_bytes r = POTG_SELECTION_RING_MAX_BYTES -> rr_ring_bytes r = ring_size (rr_ring r) ->
  ring_ok (enforce_potg_selection_cap r)
  /\ evicted (rr_ring r) r (enforce_potg_selection_cap r).
Proof.
  intros Hm E. unfold enforce_potg_selection_cap. rewrite Hm.
  change (sat_sub POTG_SELECTION_RING_MAX_BYTES POTG_SELECTION_RING_JSON_OVERHEAD_BYTES)
    with ring_budget.
  destruct (evict_over_budget_spec ring_budget (rr_ring r) r E) as [(k & H1 & H2 & H3 & H4) Hle];
    [vm_compute; discriminate|].
  set (r1 := evict_over_budget _ _ r) in *.
  destruct (evict_unanchored_spec (rr_ring r1) r1 H2) as ((k' & G1 & G2 & G3 & G4) & Gle & Gs).
  split; [split; [congruence|done|lia|done]|].
  exists (k + k')%nat. split; [by rewrite G1, H1, drop_drop|]. split; [done|].
  split; [congruence|]. intros Ht. destruct (G4 Ht) as [Ht1 E1]. destruct (H4 Ht1) as [Ht2 E2].
  split; [done|congruence].
Qed.

Lemma push_ring_ok r e r' :
  ring_ok r -> push_potg_entry r e = (Ok tt, r') ->
  ring_ok r' /\ exists k, rr_ring r' = drop k (rr_ring r ++ [e])
    /\ (rr_ring_truncated r' = false ->
         rr_ring_truncated r = false /\ rr_ring r' = rr_ring r ++ [e]).
Proof.
  intros [Hm Hb Hc Ha]. unfold push_potg_entry. destruct (encoded_len e) as [n|] eqn:En; [|done].
  intros [= <-]. pose proof (encoded_len_bound _ _ En) as Hn.
  match goal with |- ring_ok (_ ?x) /\ _ => set (r0 := x) end.
  assert (Hs : ring_budget < 2 ^ 23) by (vm_compute; reflexivity).
  pose proof (ring_size_nonneg (rr_ring r)).
  destruct (enforce_spec r0) as [Ho (k & H1 & H2 & H3 & H4)]; [done| |].
  { cbn. rewrite ring_size_app. cbn. rewrite En, Hb. cbn. unfold sat_add_u64, u64_max.
    rewrite Z.min_l; lia. }
  split; [done|]. exists k. split; [done|]. exact H4.
Qed.

Lemma drop_suffix {A} k1 k2 (l1 l2 : list A) :
  exists k, drop k2 (drop k1 l1 ++ l2) = drop k (l1 ++ l2).
Proof.
  destruct (decide (k1 <= length l1)%nat).
  - exists (k1 + k2)%nat. by rewrite <-drop_drop, (drop_app_le l1 l2 k1).
  - exists (length l1 + k2)%nat. rewrite (drop_ge l1 k1) by lia. cbn.
    by rewrite <-drop_drop, drop_app_length.
Qed.

(** The ring after a list of entries is a suffix of it. *)
Lemma push_all_ring_ok l r r' :
  ring_ok r -> push_all r l = (Ok tt, r') ->
  ring_ok r' /\ exists k, rr_ring r' = drop k (rr_ring r ++ l)
    /\ (rr_ring_truncated r' = false ->
         rr_ring_truncated r = false /\ rr_ring r' = rr_ring r ++ l).
Proof.
  revert r. induction l as [|e l IH]; intros r Ho; cbn [push_all].
  - intros [= <-]. split; [done|]. exists 0%nat. rewrite app_nil_r. done.
  - destruct (push_potg_entry r e) as [[[]| |] r1] eqn:E; [|done..]. intros Hl.
    destruct (push_ring_ok _ _ _ Ho E) as (O1 & k1 & K1 & T1).
    destruct (IH _ O1 Hl) as (O2 & k2 & K2 & T2). split; [done|].
    destruct (drop_suffix k1 k2 (rr_ring r ++ [e]) l) as [k Hk].
    exists k. split; [rewrite K2, K1, Hk, <-app_assoc; done|].
    intros Ht. destruct (T2 Ht) as [Ht1 E2]. destruct (T1 Ht1) as [Ht0 E1].
    split; [done|]. by rewrite E2, E1, <-app_assoc.
Qed.
End recorder.
