(* ===== verification/Recovery.v ===== *)
(** * Recovery records: server/src/recovery.rs

    The write-ahead record of a command decision, the terminal marker of a game
    that cannot be recovered, the envelope a checkpoint writes, and the
    configuration of the checkpoints. Durations and instants are in
    nanoseconds. *)

From Stdlib Require Import ZArith.
From stdpp Require Import prelude strings countable list gmap.
From S2P Require Import Prelude RustFloat Util Snake Arena CommandQueue GameState GameSetup.
From S2P Require Import Events Validate Tick Fingerprint Engine StreamId CommandLedger Recording.
From S2P Require Import Journal.
Open Scope Z_scope.

Definition RECOVERY_SCHEMA_VERSION : Z := 8.
Definition RECOVERY_FAILURE_SCHEMA_VERSION : Z := 1.
Definition COMMAND_DECISION_SCHEMA_VERSION : Z := 1.
Definition EXECUTOR_PROTOCOL_VERSION : Z := 13.

(** ** Command decisions *)

Record CommandDecisionV1 := mkDecision {
  cd_schema_version : Z;
  cd_source_stream_id : string;
  cd_next_server_command_sequence : Z;
  cd_event : GameEventMessage
}.

Definition decision_new (source_stream_id : string) (next_sequence : Z)
    (event : GameEventMessage) : CommandDecisionV1 :=
  mkDecision COMMAND_DECISION_SCHEMA_VERSION source_stream_id next_sequence event.

Definition identity_and_outcome (d : CommandDecisionV1)
  : Result (ClientCommandIdentityV2 * CommandOutcome) :=
  match em_event (cd_event d) with
  | Ev_CommandScheduledV2 command_id command_message _ =>
      Ok (command_id, CO_Scheduled command_message)
  | Ev_CommandRejected command_id reason command_id_client _ =>
      Ok (command_id, CO_Rejected reason command_id_client)
  | _ => Err "command decision must contain a V2 command outcome"
  end.

Definition decision_validate (d : CommandDecisionV1) : Result unit :=
  ensure (cd_schema_version d =? COMMAND_DECISION_SCHEMA_VERSION)
    "unsupported command decision schema version" ;;
  validate_stream_id (cd_source_stream_id d) ;;
  ensure (negb (em_stream_seq (cd_event d) =? 0))
    "command decision event must have a sequenced stream watermark" ;;
  '(identity, outcome) ← identity_and_outcome d;
  validate_client_command_identity identity ;;
  ensure (ci_game_id identity =? em_game_id (cd_event d))
    "command decision game identity does not match its event" ;;
  match em_event (cd_event d) with
  | Ev_CommandRejected _ _ _ (Some from) =>
      ensure (negb ((from =? 0) || (ci_sequence identity <? from)))
        "command-session rejection fence does not cover its decision identity"
  | _ => Ok tt
  end ;;
  match outcome with
  | CO_Scheduled command =>
      server_id ← context "scheduled command decision has no server command ID"
                    (command_id_server command);
      ensure (negb (negb (cid_user_id server_id =? ci_user_id identity)
                    || negb (cid_user_id (command_id_client command) =? ci_user_id identity)))
        "scheduled command decision user identity does not match" ;;
      ensure (cid_sequence_number server_id <? cd_next_server_command_sequence d)
        "scheduled command decision does not advance the server counter"
  | CO_Rejected _ _ => Ok tt
  end.

(** ** Unrecoverable games *)

Record RecoveryFailureV1 := mkFailure {
  rf_schema_version : Z;
  rf_game_id : Z;
  rf_partition_id : Z;
  rf_detected_at_ms : Z;
  rf_diagnostic : string
}.

Definition failure_validate (f : RecoveryFailureV1) : Result unit :=
  ensure (rf_schema_version f =? RECOVERY_FAILURE_SCHEMA_VERSION)
    "unsupported recovery-failure schema version" ;;
  ensure (negb (bool_decide (rf_diagnostic f = EmptyString)))
    "recovery-failure diagnostic cannot be empty".

(** ** The envelope *)

Record RecoveryEnvelopeV2 := mkEnvelope {
  re_schema_version : Z;
  re_executor_protocol_version : Z;
  re_game_id : Z;
  re_partition_id : Z;
  re_game_state : GameState;
  re_command_cursor : string;
  re_resolved_client_commands : ResolvedCommandState;
  re_next_server_command_sequence : Z;
  re_next_event_stream_sequence : Z;
  re_replay_recording : ReplayRecordingState;
  re_planned_handoff_event_stream_watermark : option Z;
  re_checkpointed_at_ms : Z;
  re_source_lease_token : string
}.

Definition envelope_new `{RecorderEnv} (game_id partition_id : Z) (st : GameState)
    (cursor : string) (resolved : ResolvedCommandState) (next_command next_event : Z)
    (at_ms : Z) (token : string) : RecoveryEnvelopeV2 :=
  {| re_schema_version := RECOVERY_SCHEMA_VERSION;
     re_executor_protocol_version := EXECUTOR_PROTOCOL_VERSION;
     re_game_id := game_id; re_partition_id := partition_id; re_game_state := st;
     re_command_cursor := cursor; re_resolved_client_commands := resolved;
     re_next_server_command_sequence := next_command;
     re_next_event_stream_sequence := next_event;
     re_replay_recording := checkpoint_seed st;
     re_planned_handoff_event_stream_watermark := None;
     re_checkpointed_at_ms := at_ms; re_source_lease_token := token |}.

(** The sessions are walked in key order; a validation has no effect, so only
    which error is returned depends on the order. *)
Definition envelope_validate (v : RecoveryEnvelopeV2) : Result unit :=
  ensure (re_schema_version v =? RECOVERY_SCHEMA_VERSION)
    "unsupported recovery schema version" ;;
  ensure (re_executor_protocol_version v =? EXECUTOR_PROTOCOL_VERSION)
    "unsupported executor protocol version" ;;
  validate_stream_id (re_command_cursor v) ;;
  for_each ((map_to_list (re_resolved_client_commands v)).*2) session_validate ;;
  validate_boost_invariants (re_game_state v) ;;
  ensure (negb (gs_is_stress_test (re_game_state v) && rr_enabled (re_replay_recording v)))
    "stress-test recovery envelope cannot contain a replay recording".

(** What a reader of the stored envelope gets: the recorder without the fields
    the serializer skips, and no handoff marker. *)
Definition stored_envelope (v : RecoveryEnvelopeV2) : RecoveryEnvelopeV2 :=
  {| v with re_replay_recording := restored_view (re_replay_recording v);
            re_planned_handoff_event_stream_watermark := None |}.

(** ** Configuration *)

Definition from_millis (ms : Z) : Z := ms * 1000000.
Definition from_secs (s : Z) : Z := s * 1000000000.
Definition DEFAULT_RECOVERY_RETENTION : Z := from_secs (30 * 60).
Definition DEFAULT_CHECKPOINT_INTERVAL : Z := from_secs 1.
Definition DEFAULT_MAX_CHECKPOINT_AGE : Z := from_secs 10.

Record RecoveryConfig := mkRecoveryConfig {
  rc_retention : Z;
  rc_checkpoint_interval : Z;
  rc_max_checkpoint_age : Z;
  rc_max_recorded_outcomes_per_session : Z
}.

Definition RecoveryConfig_default : RecoveryConfig :=
  mkRecoveryConfig DEFAULT_RECOVERY_RETENTION DEFAULT_CHECKPOINT_INTERVAL
    DEFAULT_MAX_CHECKPOINT_AGE DEFAULT_MAX_RECORDED_OUTCOMES_PER_SESSION.

Definition duration_from_env (lookup : string -> option string) (name : string) (default : Z)
  : Result Z :=
  match lookup name with
  | None => Ok default
  | Some value =>
      millis ← context "must be milliseconds" (parse_uint u64_max value);
      Ok (from_millis millis)
  end.

Definition RecoveryConfig_from_env (lookup : string -> option string) : Result RecoveryConfig :=
  retention ← duration_from_env lookup "SNAKETRON_RECOVERY_RETENTION_MS"
                DEFAULT_RECOVERY_RETENTION;
  interval ← duration_from_env lookup "SNAKETRON_CHECKPOINT_INTERVAL_MS"
               DEFAULT_CHECKPOINT_INTERVAL;
  max_age ← duration_from_env lookup "SNAKETRON_MAX_CHECKPOINT_AGE_MS"
              DEFAULT_MAX_CHECKPOINT_AGE;
  ensure (negb (retention <? from_secs 60)) "recovery retention must be at least one minute" ;;
  ensure (negb ((from_secs 1 <? interval) || (interval <? from_millis 100)))
    "checkpoint interval must be between 100ms and 1s" ;;
  ensure (negb ((max_age <=? interval) || (retention <=? max_age)))
    "maximum checkpoint age must exceed its cadence and remain below retention" ;;
  Ok (mkRecoveryConfig retention interval max_age
        (rc_max_recorded_outcomes_per_session RecoveryConfig_default)).

Record CheckpointCadence := mkCadence {
  cc_interval : Z;
  cc_next : Z
}.

Definition CheckpointCadence_new (interval now : Z) : Result CheckpointCadence :=
  ensure (negb ((interval =? 0) || (from_secs 1 <? interval)))
    "checkpoint cadence must be non-zero and no greater than one second" ;;
  Ok (mkCadence interval (now + interval)).

Definition cadence_due (c : CheckpointCadence) (now : Z) : bool := cc_next c <=? now.

Definition cadence_mark (c : CheckpointCadence) (now : Z) : CheckpointCadence :=
  mkCadence (cc_interval c) (now + cc_interval c).
