(* ===== verification/Actor.v ===== *)
(** * The game actor: server/src/game_executor_v2.rs

    [GameActor] owns one match: it incorporates the deliveries of the command
    stream, publishes outcomes and events with consecutive stream sequence
    numbers, and checkpoints. With it, [authorize_game_command] and the
    deliveries of server/src/game_executor.rs and server/src/game_bus.rs, and
    the ordering of a batch of deliveries.

    Each write to the bus is an [Effect]; the effects that succeeded are the
    log. What the bus answers, whether a handoff has been requested and whether
    a completion could be materialized are not the program's: they are the
    class [ActorEnv], a function of the log. The retries of a checkpoint are
    one write whose answer is the loop's. Clock readings are arguments. Metrics
    and the answers to waiting gateways are left out, and so are the highlight and
    the ratings of a completion record, which its effect stands for. A handler
    reads the clock once, and a handoff cancels a commit before it starts.

    Code that threads the actor, writes and fails is written in the monad
    [Act]; [None] is a loop over quanta that is out of fuel. *)

From Stdlib Require Import ZArith.
From stdpp Require Import prelude strings countable list gmap.
From S2P Require Import Prelude RustFloat Util Snake Arena CommandQueue GameState GameSetup.
From S2P Require Import Events Validate Tick Fingerprint Engine StreamId CommandLedger Recording.
From S2P Require Import Journal Recovery.
Open Scope Z_scope.

(** ** Deliveries *)

Inductive StreamEvent :=
| SE_GameCreated (game_id : Z) (game_state : GameState)
| SE_GameCommandSubmittedV2 (game_id user_id : Z) (command_id : ClientCommandIdentityV2)
    (command : GameCommandMessage)
| SE_StatusUpdated (game_id : Z) (status : GameStatus)
| SE_PlayerReadySubmitted (game_id user_id : Z).

Inductive CommandDeliveryPayload :=
| Payload_Command (e : StreamEvent)
| Payload_Poison (raw : list Z) (reason : string).

Record CommandDelivery := mkDelivery {
  dl_stream_id : string;
  dl_payload : CommandDeliveryPayload;
  dl_decision : option CommandDecisionV1
}.

Definition with_client_user (user_id : Z) (m : GameCommandMessage) : GameCommandMessage :=
  let c := command_id_client m in
  mkMsg (mkCommandId (cid_tick c) user_id (cid_sequence_number c)) None (command m).

Definition authorize_game_command (st : GameState) (user_id : Z) (m : GameCommandMessage)
  : Result GameCommandMessage :=
  match command_snake (command m) with
  | Some snake_id =>
      match gs_players st !! user_id with
      | None => Err "user is not a player in this game"
      | Some player =>
          if is_player_idle_kicked st user_id then Err "player was removed for inactivity"
          else if negb (pl_snake_id player =? snake_id)
          then Err "snake is not owned by the submitting user"
          else Ok (with_client_user user_id m)
      end
  | None => Err "system command submitted over a client connection"
  end.

(** ** The actor *)

(** What a completion record holds of the match. *)
Record PendingCompletion := mkCompletion {
  pc_game_id : Z;
  pc_partition_id : Z;
  pc_final_state : GameState;
  pc_recording_journal : option ReplayJournalReferenceV1
}.

Record GameActor := mkActor {
  ac_server_id : Z;
  ac_game_id : Z;
  ac_partition : Z;
  ac_engine : GameEngine;
  ac_resolved : ResolvedCommandState;
  ac_command_cursor : string;
  ac_next_event_stream_sequence : Z;
  ac_replay_recording : ReplayRecordingState;
  ac_planned_handoff_watermark : option Z;
  ac_pending_stream_ids : list string;
  ac_snapshot_requested : bool;
  ac_live : bool;
  ac_deferred_ready_user_ids : list Z;
  ac_start_event_pending : bool;
  ac_pending_completion : option PendingCompletion;
  ac_completion_committed : bool;
  ac_idle_cleanup_complete : gset Z;
  ac_idle_cleanup_retry_at : option Z;
  ac_next_tick_hash_at : Z;
  ac_config : RecoveryConfig
}.

Definition set_engine v a := {| a with ac_engine := v |}.
Definition set_resolved v a := {| a with ac_resolved := v |}.
Definition set_cursor v a := {| a with ac_command_cursor := v |}.
Definition set_stream_sequence v a := {| a with ac_next_event_stream_sequence := v |}.
Definition set_recording v a := {| a with ac_replay_recording := v |}.
Definition set_watermark v a := {| a with ac_planned_handoff_watermark := v |}.
Definition set_pending v a := {| a with ac_pending_stream_ids := v |}.
Definition set_requested v a := {| a with ac_snapshot_requested := v |}.
Definition set_live v a := {| a with ac_live := v |}.
Definition set_deferred v a := {| a with ac_deferred_ready_user_ids := v |}.
Definition set_start_pending v a := {| a with ac_start_event_pending := v |}.
Definition set_pending_completion v a := {| a with ac_pending_completion := v |}.
Definition set_committed v a := {| a with ac_completion_committed := v |}.
Definition set_cleanup v a := {| a with ac_idle_cleanup_complete := v |}.
Definition set_cleanup_retry v a := {| a with ac_idle_cleanup_retry_at := v |}.
Definition set_tick_hash_at v a := {| a with ac_next_tick_hash_at := v |}.

Definition ac_state (a : GameActor) : GameState := committed_state (ac_engine a).
Definition max_outcomes (a : GameActor) : Z :=
  rc_max_recorded_outcomes_per_session (ac_config a).

(** ** Effects *)

Inductive Effect :=
| Fx_Decision (d : CommandDecisionV1)
| Fx_Event (m : GameEventMessage)
| Fx_Ack (ids : list string)
| Fx_Checkpoint (v : RecoveryEnvelopeV2) (covered : list string)
| Fx_RefreshTtl (game_id : Z)
| Fx_IdleCleanup (game_id user_id : Z)
| Fx_Completion (v : RecoveryEnvelopeV2) (covered : list string) (record : PendingCompletion)
    (terminal : GameEventMessage).

Class ActorEnv := {
  bus : list Effect -> Effect -> Result unit;
  handoff_requested : list Effect -> bool;
  materialized : list Effect -> GameState -> bool;
  record_validate : list Effect -> PendingCompletion -> Result unit
}.

Definition World : Type := GameActor * list Effect.
Definition Act (A : Type) : Type := World -> option (Result A * World).

#[global] Instance act_ret : MRet Act := fun A x w => Some (Ok x, w).
#[global] Instance act_bind : MBind Act := fun A B f m w =>
  match m w with
  | None => None
  | Some (Ok x, w) => f x w
  | Some (Err e, w) => Some (Err e, w)
  | Some (Panic e, w) => Some (Panic e, w)
  end.

Definition act_get : Act GameActor := fun w => Some (Ok w.1, w).
Definition act_modify (f : GameActor -> GameActor) : Act unit :=
  fun w => Some (Ok tt, (f w.1, w.2)).
Definition act_lift {A} (r : Result A) : Act A := fun w => Some (r, w).
Definition act_fail {A} (e : string) : Act A := act_lift (Err e).
Definition act_done : Act unit := mret tt.
Definition act_log : Act (list Effect) := fun w => Some (Ok w.2, w).

Section actor.
Context `{F32Libm} `{RecorderEnv} `{ActorEnv}.
Variable fuel : nat.

(** A write to the bus; it is logged when it succeeds. *)
Definition perform (fx : Effect) : Act unit := fun w =>
  match bus w.2 fx with
  | Ok _ => Some (Ok tt, (w.1, w.2 ++ [fx]))
  | r => Some (r, w)
  end.

Definition act_handoff : Act bool := fun w => Some (Ok (handoff_requested w.2), w).

(** A recorder, ledger or engine method run on the actor's field. *)
Definition on_recording (f : ReplayRecordingState -> Result unit * ReplayRecordingState)
  : Act unit := fun w =>
  let '(r, v) := f (ac_replay_recording w.1) in Some (r, (set_recording v w.1, w.2)).

Definition on_resolved {A} (f : ResolvedCommandState -> Result A * ResolvedCommandState)
  : Act A := fun w =>
  let '(r, v) := f (ac_resolved w.1) in Some (r, (set_resolved v w.1, w.2)).

Definition on_engine {A} (f : GameEngine -> option (Result A * GameEngine)) : Act A := fun w =>
  match f (ac_engine w.1) with
  | None => None
  | Some (r, v) => Some (r, (set_engine v w.1, w.2))
  end.

(** ** What the client of the bus refuses to send *)

Definition PARTITION_COUNT : Z := 25.

Definition decision_admissible (partition : Z) (d : CommandDecisionV1) : Result unit :=
  decision_validate d ;;
  ensure (em_game_id (cd_event d) mod PARTITION_COUNT =? partition)
    "command decision game does not belong to fenced partition".

Definition checkpoint_admissible (partition : Z) (token : string) (v : RecoveryEnvelopeV2)
    (covered_stream_ids : list string) : Result unit :=
  envelope_validate v ;;
  ensure (negb match re_planned_handoff_event_stream_watermark v with
               | Some watermark => re_next_event_stream_sequence v <? watermark
               | None => false
               end)
    "recovery checkpoint cannot retire an unmerged planned-handoff watermark" ;;
  ensure ((re_partition_id v =? partition)
          && (re_game_id v mod PARTITION_COUNT =? partition))
    "recovery envelope does not belong to fenced partition" ;;
  ensure (bool_decide (re_source_lease_token v = token))
    "recovery envelope source token is not the live guard" ;;
  for_each covered_stream_ids (fun id => validate_stream_id id ;; Ok tt).

Definition completion_admissible (partition : Z) (token : string) (v : RecoveryEnvelopeV2)
    (record : PendingCompletion) (retention : Z) : Result unit :=
  envelope_validate v ;;
  ensure (negb match re_planned_handoff_event_stream_watermark v with
               | Some watermark => re_next_event_stream_sequence v <? watermark
               | None => false
               end)
    "completion checkpoint cannot retire an unmerged planned-handoff watermark" ;;
  ensure ((pc_game_id record =? re_game_id v) && (pc_partition_id record =? partition)
          && (re_partition_id v =? partition)
          && bool_decide (re_source_lease_token v = token))
    "completion/checkpoint identity does not match fenced partition" ;;
  let retention_ms := retention / 1000000 in
  ensure (retention_ms <=? u64_max) "completion checkpoint retention exceeds Redis range" ;;
  ensure (negb (retention_ms =? 0)) "completion checkpoint retention must be non-zero" ;;
  ensure match pc_recording_journal record with
         | Some j => jr_journal_cursor j =? rr_journal_cursor (re_replay_recording v)
         | None => true
         end
    "completion replay reference does not match its checkpoint cursor".

(** ** Publication *)

Definition outcome_event (identity : ClientCommandIdentityV2) (outcome : CommandOutcome)
    (deduplicated_replay : bool) (session_rejected_from : option Z) : Result GameEvent :=
  match outcome with
  | CO_Scheduled cmd =>
      match session_rejected_from with
      | Some _ => Err "scheduled command outcome cannot carry a session rejection fence"
      | None => Ok (Ev_CommandScheduledV2 identity cmd deduplicated_replay)
      end
  | CO_Rejected reason id => Ok (Ev_CommandRejected identity reason id session_rejected_from)
  end.

Definition publish_outcome (stream_id : string) (identity : ClientCommandIdentityV2)
    (outcome : CommandOutcome) (deduplicated_replay : bool)
    (session_rejected_from : option Z) : Act unit :=
  event ← act_lift (outcome_event identity outcome deduplicated_replay session_rejected_from);
  a ← act_get;
  stream_seq ← act_lift (context "command outcome stream sequence overflow"
                           (checked_add_u64 (ac_next_event_stream_sequence a) 1));
  let message := mkGameEventMessage (ac_game_id a) (gs_tick (ac_state a))
                   (gs_event_sequence (ac_state a)) stream_seq None event in
  let decision := decision_new stream_id (command_counter (ac_engine a)) message in
  act_lift (decision_admissible (ac_partition a) decision) ;;
  perform (Fx_Decision decision) ;;
  on_recording (fun r => record_event r (em_tick (cd_event decision))
                           (em_event (cd_event decision))) ;;
  act_modify (set_stream_sequence stream_seq).

Definition publish_event_at (tick sequence : Z) (event : GameEvent) : Act unit :=
  a ← act_get;
  if is_complete (ac_state a) then act_done
  else
    stream_seq ← act_lift (context "game event stream sequence overflow"
                             (checked_add_u64 (ac_next_event_stream_sequence a) 1));
    act_modify (set_stream_sequence stream_seq) ;;
    perform (Fx_Event (mkGameEventMessage (ac_game_id a) tick sequence stream_seq None event)).

Definition publish_event (event : GameEvent) : Act unit :=
  a ← act_get;
  publish_event_at (gs_tick (ac_state a)) (gs_event_sequence (ac_state a)) event.

Fixpoint publish_events (events : list (Z * Z * GameEvent)) : Act unit :=
  match events with
  | [] => act_done
  | (tick, sequence, event) :: events' =>
      publish_event_at tick sequence event ;; publish_events events'
  end.

(** [TICK_HASH_INTERVAL] is one second. *)
Definition TICK_HASH_INTERVAL : Z := from_secs 1.

Definition publish_tick_hash_if_due (now server_ts_ms : Z) : Act unit :=
  a ← act_get;
  if now <? ac_next_tick_hash_at a then act_done
  else
    hash ← act_lift (sync_hash (ac_state a));
    publish_event_at (gs_tick (ac_state a)) (gs_event_sequence (ac_state a))
      (Ev_TickHash hash server_ts_ms) ;;
    act_modify (set_tick_hash_at (now + TICK_HASH_INTERVAL)).

(** ** Checkpoints *)

Definition actor_envelope (a : GameActor) (now_ms : Z) (token : string) : RecoveryEnvelopeV2 :=
  let v := envelope_new (ac_game_id a) (ac_partition a) (ac_state a) (ac_command_cursor a)
             (ac_resolved a) (command_counter (ac_engine a))
             (ac_next_event_stream_sequence a) now_ms token in
  {| v with re_replay_recording := checkpoint_view (ac_replay_recording a) |}.

Definition terminal_pending (a : GameActor) : bool :=
  is_complete (ac_state a) && negb (ac_completion_committed a).

Definition checkpoint (now_ms : Z) (token : string) : Act unit :=
  a ← act_get;
  if is_complete (ac_state a) then perform (Fx_RefreshTtl (ac_game_id a))
  else
    let v := actor_envelope a now_ms token in
    act_lift (checkpoint_admissible (ac_partition a) token v (ac_pending_stream_ids a)) ;;
    perform (Fx_Checkpoint v (ac_pending_stream_ids a)) ;;
    act_modify (set_pending []) ;;
    on_recording (fun r => mark_journal_persisted r
                             (rr_journal_cursor (re_replay_recording v))).

Definition snapshot_event (a : GameActor) : GameEvent := Ev_Snapshot (ac_state a).

Definition request_snapshot : Act unit := act_modify (set_requested true).

Definition checkpoint_and_publish_requested_snapshot (now_ms : Z) (token : string) : Act unit :=
  checkpoint now_ms token ;;
  a ← act_get;
  if negb (ac_snapshot_requested a) then act_done
  else if is_complete (ac_state a) then act_done
  else publish_event (snapshot_event a) ;; act_modify (set_requested false).

Definition publish_fresh_snapshot (now_ms : Z) (token : string) : Act unit :=
  a ← act_get;
  if is_complete (ac_state a) then act_done
  else checkpoint now_ms token ;; a ← act_get; publish_event (snapshot_event a).

(** ** Readiness *)

Definition GAME_START_COUNTDOWN_MS : Z := 3000.

Definition pre_match (event : GameEvent) : Act unit :=
  on_engine (fun e => Some (apply_pre_match_readiness_event e event)).

Definition record_now (event : GameEvent) : Act unit :=
  a ← act_get; on_recording (fun r => record_event r (gs_tick (ac_state a)) event).

Definition record_readiness_transition (event : GameEvent) : Act unit :=
  pre_match event ;; record_now event ;; publish_event event.

Definition resolve_readiness_gate_if_due (now_ms : Z) (token : string) : Act unit :=
  a ← act_get;
  if negb (readiness_gate_resolves_at (ac_state a) now_ms) then act_done
  else
    let event := Ev_MatchStartScheduled (wrap_i64 (now_ms + GAME_START_COUNTDOWN_MS)) in
    pre_match event ;; record_now event ;; checkpoint now_ms token ;; publish_event event ;;
    a ← act_get; publish_event (snapshot_event a).

Definition apply_readiness_confirmation (user_id now_ms : Z) (token : string) : Act unit :=
  a ← act_get;
  if negb (accepts_ready_from (ac_state a) user_id) then act_done
  else record_readiness_transition (Ev_PlayerReady user_id) ;;
       resolve_readiness_gate_if_due now_ms token.

Fixpoint confirm_all (users : list Z) (now_ms : Z) (token : string) : Act unit :=
  match users with
  | [] => act_done
  | u :: users' => apply_readiness_confirmation u now_ms token ;; confirm_all users' now_ms token
  end.

Definition drain_deferred_readiness (now_ms : Z) (token : string) : Act unit :=
  a ← act_get;
  act_modify (set_deferred []) ;;
  confirm_all (ac_deferred_ready_user_ids a) now_ms token.

(** ** Incorporating a command *)

Inductive V2Incorporation :=
| V2_Incorporated
| V2_PrunedDuplicate
| V2_Quarantine (reason : string).

Inductive DeliveryDisposition :=
| DD_Incorporated
| DD_Quarantine (reason : string).

(** The fence a recorded decision carries. *)
Definition decision_fence (d : CommandDecisionV1) : option (Z * string) :=
  match em_event (cd_event d) with
  | Ev_CommandRejected _ reason _ (Some from) => Some (from, reason)
  | _ => None
  end.

Definition incorporate_recorded_decision (identity : ClientCommandIdentityV2)
    (decision : CommandDecisionV1) : Act V2Incorporation :=
  act_lift (decision_validate decision) ;;
  '(recorded_identity, outcome) ← act_lift (identity_and_outcome decision);
  a ← act_get;
  if negb (bool_decide (recorded_identity = identity))
  then act_fail "durable command decision identity changed during replay"
  else if em_stream_seq (cd_event decision) <=? ac_next_event_stream_sequence a
  then act_fail "durable command decision event watermark does not strictly advance"
  else
    match decision_fence decision with
    | Some (from, reason) =>
        if negb (bool_decide (rejection_reason outcome = Some reason))
        then act_fail "command-session rejection fence has a non-rejection outcome"
        else _ ← on_resolved (fun r => install_rejection_fence r identity from reason); act_done
    | None => act_done
    end ;;
    a ← act_get;
    match resolved_get (ac_resolved a) identity with
    | Some existing =>
        if negb (bool_decide (existing = outcome))
        then act_fail "durable command decision conflicts with checkpointed outcome"
        else act_done
    | None =>
        match rejection_fence_for (ac_resolved a) identity with
        | Some fence =>
            if negb (bool_decide (rejection_reason outcome = Some (fence_reason fence)))
            then act_fail "durable command decision conflicts with session rejection fence"
            else act_done
        | None =>
            if is_terminally_resolved (ac_resolved a) identity then act_done
            else
              act_lift (can_record (ac_resolved a) identity (max_outcomes a)) ;;
              match outcome with
              | CO_Scheduled cmd =>
                  on_engine (fun e => replay_scheduled_command fuel e cmd
                                        (em_tick (cd_event decision)))
              | CO_Rejected _ _ => act_done
              end ;;
              _ ← on_resolved (fun r => resolved_record r identity outcome (max_outcomes a));
              act_done
        end
    end ;;
    a ← act_get;
    if negb (command_counter (ac_engine a) =? cd_next_server_command_sequence decision)
    then act_fail "durable command decision restored another server counter"
    else
      on_recording (fun r => record_event r (em_tick (cd_event decision))
                               (em_event (cd_event decision))) ;;
      act_modify (set_stream_sequence (em_stream_seq (cd_event decision))) ;;
      mret V2_Incorporated.

(** [if self.live { self.publish_outcome(..).await?; }]. *)
Definition publish_outcome_if_live (stream_id : string) (identity : ClientCommandIdentityV2)
    (outcome : CommandOutcome) (deduplicated_replay : bool) (from : option Z) : Act unit :=
  a ← act_get;
  if ac_live a then publish_outcome stream_id identity outcome deduplicated_replay from
  else act_done.

(** [engine.process_command] as an outcome. *)
Definition process_submitted (cmd : GameCommandMessage) (submitted : CommandId)
  : Act CommandOutcome := fun w =>
  match process_command (ac_engine w.1) cmd with
  | (Ok cmd, e) => Some (Ok (CO_Scheduled cmd), (set_engine e w.1, w.2))
  | (Err x, e) => Some (Ok (CO_Rejected x (Some submitted)), (set_engine e w.1, w.2))
  | (Panic x, e) => Some (Panic x, (set_engine e w.1, w.2))
  end.

(** The decision on a command that has none: authorization, then the engine. *)
Definition decide_command (identity : ClientCommandIdentityV2) (m : GameCommandMessage)
  : Act CommandOutcome :=
  a ← act_get;
  match authorize_game_command (ac_state a) (ci_user_id identity) m with
  | Ok cmd => process_submitted cmd (command_id_client m)
  | Err reason => mret (CO_Rejected reason (Some (command_id_client m)))
  | Panic x => act_lift (Panic x)
  end.

(** A command that reached an actor before its activation: the checkpoint is
    brought to the submission time; true when the match is over by then. *)
Definition catch_up_to_submission (stream_id : string) : Act bool :=
  '(submitted_at_ms, _) ← act_lift (validate_stream_id stream_id);
  if 2 ^ 63 - 1 <? submitted_at_ms
  then act_fail "command stream timestamp exceeds signed milliseconds"
  else
    events ← on_engine (fun e => run_until fuel e submitted_at_ms);
    on_recording (fun r => record_events r events) ;;
    a ← act_get;
    mret (is_complete (ac_state a)).

(** The rest of [incorporate_v2_command], for a command that is not resolved
    and may be recorded. *)
Definition incorporate_fresh_command (stream_id : string) (identity : ClientCommandIdentityV2)
    (m : GameCommandMessage) : Act V2Incorporation :=
  let submitted := Some (command_id_client m) in
  a ← act_get;
  over ← (if ac_live a then mret false else catch_up_to_submission stream_id);
  if (over : bool) then
    _ ← on_resolved (fun r => resolved_record r identity
          (CO_Rejected "command targets a completed game" submitted) (max_outcomes a));
    mret V2_Incorporated
  else
    outcome ← decide_command identity m;
    _ ← on_resolved (fun r => resolved_record r identity outcome (max_outcomes a));
    publish_outcome_if_live stream_id identity outcome false None ;;
    mret V2_Incorporated.

Definition incorporate_v2_command (stream_id : string) (identity : ClientCommandIdentityV2)
    (m : GameCommandMessage) (decision : option CommandDecisionV1) : Act V2Incorporation :=
  let submitted := Some (command_id_client m) in
  match decision with
  | Some d => incorporate_recorded_decision identity d
  | None =>
  a ← act_get;
  match resolved_get (ac_resolved a) identity with
  | Some outcome =>
      publish_outcome_if_live stream_id identity outcome true None ;; mret V2_Incorporated
  | None =>
  match rejection_fence_for (ac_resolved a) identity with
  | Some fence =>
      publish_outcome_if_live stream_id identity
        (CO_Rejected (fence_reason fence) submitted) true (Some (from_sequence fence)) ;;
      mret V2_Incorporated
  | None =>
  if is_terminally_resolved (ac_resolved a) identity then mret V2_PrunedDuplicate
  else if sparse_window_is_full (ac_resolved a) identity (max_outcomes a) then
    fence ← on_resolved (fun r => install_rejection_fence r identity (ci_sequence identity)
                                    SPARSE_COMMAND_WINDOW_REJECTION_REASON);
    publish_outcome_if_live stream_id identity
      (CO_Rejected (fence_reason fence) submitted) false (Some (from_sequence fence)) ;;
    mret V2_Incorporated
  else
  match can_record (ac_resolved a) identity (max_outcomes a) with
  | Err e => mret (V2_Quarantine e)
  | Panic e => act_lift (Panic e)
  | Ok _ =>
      incorporate_fresh_command stream_id identity m
  end end end end.

(** A command for a match that is over. *)
Definition incorporate_after_completion (stream_id : string)
    (identity : ClientCommandIdentityV2) (recorded : option CommandOutcome)
  : Act DeliveryDisposition :=
  a ← act_get;
  match resolved_get (ac_resolved a) identity with
  | Some existing =>
      if match recorded with Some o => negb (bool_decide (o = existing)) | None => false end
      then act_fail "completed game has a conflicting durable command decision"
      else perform (Fx_Ack [stream_id]) ;; mret DD_Incorporated
  | None =>
      if is_terminally_resolved (ac_resolved a) identity && bool_decide (recorded = None)
      then perform (Fx_Ack [stream_id]) ;; mret DD_Incorporated
      else match recorded with
           | Some _ =>
               act_fail "unresolved durable command decision targets a completed checkpoint"
           | None => mret (DD_Quarantine "command targets a completed game")
           end
  end.

(** The outcome of the decision attached to a delivery. *)
Definition recorded_outcome (stream_id : string) (game_id : Z)
    (command_id : ClientCommandIdentityV2) (decision : option CommandDecisionV1)
  : Result (option CommandOutcome) :=
  match decision with
  | None => Ok None
  | Some d =>
      decision_validate d ;;
      '(recorded_identity, outcome) ← identity_and_outcome d;
      ensure (negb (negb (bool_decide (recorded_identity = command_id))
                    || negb (bool_decide (cd_source_stream_id d = stream_id))
                    || negb (em_game_id (cd_event d) =? game_id)))
        "durable command decision does not match its stream delivery" ;;
      Ok (Some outcome)
  end.

(** The end of [incorporate]: the cursor moves and the entry awaits its
    checkpoint; a duplicate whose outcome was pruned is answered by a snapshot. *)
Definition settle_delivery (stream_id : string) (publish_resolution_snapshot : bool)
    (now_ms : Z) (token : string) : Act DeliveryDisposition :=
  act_modify (fun a => set_pending (ac_pending_stream_ids a ++ [stream_id])
                         (set_cursor stream_id a)) ;;
  (if publish_resolution_snapshot then
     requested ← act_handoff;
     if (requested : bool) then act_done else publish_fresh_snapshot now_ms token
   else act_done) ;;
  mret DD_Incorporated.

Definition no_decision (d : option CommandDecisionV1) (msg : string) : Act unit :=
  match d with Some _ => act_fail msg | None => act_done end.

Definition incorporate (delivery : CommandDelivery) (now_ms : Z) (token : string)
  : Act DeliveryDisposition :=
  let stream_id := dl_stream_id delivery in
  let decision := dl_decision delivery in
  a ← act_get;
  covered ← act_lift (stream_id_leq stream_id (ac_command_cursor a));
  if (covered : bool) then perform (Fx_Ack [stream_id]) ;; mret DD_Incorporated
  else
    match dl_payload delivery with
    | Payload_Poison _ _ => act_fail "poison delivery must be disposed by the partition executor"
    | Payload_Command (SE_GameCreated game_id _) =>
        no_decision decision "command decision journal was attached to GameCreated" ;;
        (if negb (game_id =? ac_game_id a) then act_fail "GameCreated routed to the wrong actor"
         else act_done) ;;
        settle_delivery stream_id false now_ms token
    | Payload_Command (SE_GameCommandSubmittedV2 game_id user_id command_id m) =>
        if negb (game_id =? ac_game_id a) then act_fail "v2 command routed to the wrong actor"
        else if negb (ci_game_id command_id =? game_id)
                || negb (ci_user_id command_id =? user_id)
        then act_fail "v2 command identity was not canonicalized before actor delivery"
        else
          recorded ← act_lift (recorded_outcome stream_id game_id command_id decision);
          if is_complete (ac_state a)
          then incorporate_after_completion stream_id command_id recorded
          else
            r ← incorporate_v2_command stream_id command_id m decision;
            match r with
            | V2_Incorporated => settle_delivery stream_id false now_ms token
            | V2_PrunedDuplicate =>
                b ← act_get; settle_delivery stream_id (ac_live b) now_ms token
            | V2_Quarantine reason => mret (DD_Quarantine reason)
            end
    | Payload_Command (SE_PlayerReadySubmitted game_id user_id) =>
        no_decision decision
          "command decision journal was attached to a readiness confirmation" ;;
        if negb (game_id =? ac_game_id a)
        then act_fail "readiness confirmation routed to the wrong actor"
        else
          (if ac_live a then apply_readiness_confirmation user_id now_ms token
           else if accepts_ready_from (ac_state a) user_id
                   && negb (bool_decide (user_id ∈ ac_deferred_ready_user_ids a))
           then act_modify (fun a => set_deferred (ac_deferred_ready_user_ids a ++ [user_id]) a)
           else act_done) ;;
          settle_delivery stream_id false now_ms token
    | Payload_Command (SE_StatusUpdated _ _) =>
        no_decision decision "command decision journal was attached to a status marker" ;;
        act_fail "status marker routed to a live game actor"
    end.

(** ** The life of an actor *)

(** [from_envelope], under the lease of [partition]: a stored match that was never
    started is started here. *)
Definition from_envelope (server_id partition : Z) (v : RecoveryEnvelopeV2) (config : RecoveryConfig)
    (now : Z) : Result GameActor :=
  let st := re_game_state v in
  let start_event_pending := match gs_status st with Stopped => true | _ => false end in
  let st := if start_event_pending then with_status (Started server_id) st else st in
  let recording := enable_from_checkpoint_if_needed (re_replay_recording v) st in
  let recording :=
    if start_event_pending then replace_pristine_activation recording st else recording in
  engine ← new_from_state_with_command_counter (re_game_id v) st
             (re_next_server_command_sequence v);
  Ok {| ac_server_id := server_id; ac_game_id := re_game_id v;
        ac_partition := partition; ac_engine := engine;
        ac_resolved := re_resolved_client_commands v;
        ac_command_cursor := re_command_cursor v;
        ac_next_event_stream_sequence := re_next_event_stream_sequence v;
        ac_replay_recording := recording;
        ac_planned_handoff_watermark := re_planned_handoff_event_stream_watermark v;
        ac_pending_stream_ids := []; ac_snapshot_requested := false; ac_live := false;
        ac_deferred_ready_user_ids := []; ac_start_event_pending := start_event_pending;
        ac_pending_completion := None;
        ac_completion_committed := false; ac_idle_cleanup_complete := ∅;
        ac_idle_cleanup_retry_at := None;
        ac_next_tick_hash_at := now + TICK_HASH_INTERVAL; ac_config := config |}.

(** A record is made once and kept for every retry; [false] when the database
    could not be read. *)
Definition materialize_pending : Act bool :=
  a ← act_get;
  match ac_pending_completion a with
  | Some _ => mret true
  | None =>
      log ← act_log;
      if materialized log (ac_state a) then
        reference ← act_lift (journal_reference (ac_replay_recording a) (ac_game_id a)
                                (ac_state a));
        let record := mkCompletion (ac_game_id a) (ac_partition a) (ac_state a) reference in
        act_lift (record_validate log record) ;;
        act_modify (set_pending_completion (Some record)) ;;
        mret true
      else mret false
  end.

(** The snapshot that ends the stream; the bus client numbers it. *)
Definition terminal_message (v : RecoveryEnvelopeV2) (record : PendingCompletion)
  : Result GameEventMessage :=
  let final := pc_final_state record in
  stream_seq ← context "terminal snapshot stream sequence overflow"
                 (checked_add_u64 (re_next_event_stream_sequence v) 1);
  Ok (mkGameEventMessage (pc_game_id record) (gs_tick final) (gs_event_sequence final)
        stream_seq None (Ev_Snapshot final)).

Definition commit_completion (now_ms : Z) (token : string) : Act unit :=
  ready ← materialize_pending;
  if (ready : bool) then
    a ← act_get;
    record ← act_lift (context "terminal game has no materialized completion record"
                         (ac_pending_completion a));
    let v := actor_envelope a now_ms token in
    act_lift (completion_admissible (ac_partition a) token v record
                (rc_retention (ac_config a))) ;;
    terminal ← act_lift (terminal_message v record);
    perform (Fx_Completion v (ac_pending_stream_ids a) record terminal) ;;
    act_modify (fun a => set_committed true (set_pending [] a))
  else act_done.

Definition commit_completion_until_handoff (now_ms : Z) (token : string) : Act unit :=
  requested ← act_handoff;
  if (requested : bool) then act_modify (set_live false) else commit_completion now_ms token.

Definition IDLE_MAPPING_CLEANUP_RETRY_INTERVAL : Z := from_secs 1.

(** A failed cleanup is retried after an interval and fails nothing else. *)
Fixpoint cleanup_users (users : list Z) (now : Z) : Act unit :=
  match users with
  | [] => act_modify (set_cleanup_retry None)
  | u :: users' => fun w =>
      match perform (Fx_IdleCleanup (ac_game_id w.1) u) w with
      | Some (Ok _, w) =>
          cleanup_users users' now (set_cleanup ({[u]} ∪ ac_idle_cleanup_complete w.1) w.1, w.2)
      | Some (Err _, w) =>
          Some (Ok tt, (set_cleanup_retry (Some (now + IDLE_MAPPING_CLEANUP_RETRY_INTERVAL)) w.1,
                        w.2))
      | r => r
      end
  end.

Definition cleanup_idle_player_matchmaking (now : Z) : Act unit :=
  a ← act_get;
  if is_complete (ac_state a)
     || match ac_idle_cleanup_retry_at a with Some t => now <? t | None => false end
  then act_done
  else cleanup_users (filter (fun u => u ∉ ac_idle_cleanup_complete a)
                        (gs_idle_kicked_user_ids (ac_state a))) now.

Definition activate (now_ms now : Z) (token : string) : Act unit :=
  events ← on_engine (fun e => run_until fuel e now_ms);
  on_recording (fun r => record_events r events) ;;
  act_modify (fun a =>
    match ac_planned_handoff_watermark a with
    | Some w => set_watermark None
                  (set_stream_sequence (Z.max (ac_next_event_stream_sequence a) w) a)
    | None => a
    end) ;;
  a ← act_get;
  if terminal_pending a
  then act_modify (set_live true) ;; commit_completion_until_handoff now_ms token
  else
    on_recording (fun r => maybe_anchor r (ac_state a)) ;;
    checkpoint now_ms token ;;
    (if ac_start_event_pending a
     then publish_event (Ev_StatusUpdated (Started (ac_server_id a))) ;;
          act_modify (set_start_pending false)
     else act_done) ;;
    a ← act_get;
    publish_event (snapshot_event a) ;;
    cleanup_idle_player_matchmaking now ;;
    act_modify (set_live true) ;;
    drain_deferred_readiness now_ms token.

Definition new_idle_kick (before after : GameState) : bool :=
  existsb (fun u => negb (bool_decide (u ∈ gs_idle_kicked_user_ids before)))
    (gs_idle_kicked_user_ids after).

Definition advance_live (now_ms now : Z) (token : string) : Act unit :=
  a ← act_get;
  (if is_awaiting_readiness (ac_state a)
   then resolve_readiness_gate_if_due now_ms token else act_done) ;;
  before ← act_get;
  events ← on_engine (fun e => match run_until_observing_boost fuel e now_ms with
                               | Some (r, e, _) => Some (r, e)
                               | None => None
                               end);
  on_recording (fun r => record_events r events) ;;
  a ← act_get;
  if terminal_pending a then commit_completion_until_handoff now_ms token
  else
    on_recording (fun r => maybe_anchor r (ac_state a)) ;;
    (if new_idle_kick (ac_state before) (ac_state a) then checkpoint now_ms token
     else act_done) ;;
    publish_events events ;;
    cleanup_idle_player_matchmaking now ;;
    publish_tick_hash_if_due now now_ms.
End actor.

(** ** Batches of deliveries *)

Definition delivery_game_id (p : CommandDeliveryPayload) : option Z :=
  match p with
  | Payload_Poison _ _ => None
  | Payload_Command (SE_GameCreated game_id _)
  | Payload_Command (SE_GameCommandSubmittedV2 game_id _ _ _)
  | Payload_Command (SE_PlayerReadySubmitted game_id _)
  | Payload_Command (SE_StatusUpdated game_id _) => Some game_id
  end.

Definition is_parallel_actor_delivery (p : CommandDeliveryPayload) : bool :=
  match p with
  | Payload_Command (SE_GameCommandSubmittedV2 _ _ _ _)
  | Payload_Command (SE_PlayerReadySubmitted _ _) => true
  | _ => false
  end.

(** The queue of a game, in order of first appearance. *)
Fixpoint push_game_queue (game_id : Z) (d : CommandDelivery)
    (queues : list (Z * list CommandDelivery)) : list (Z * list CommandDelivery) :=
  match queues with
  | [] => [(game_id, [d])]
  | (g, q) :: queues' =>
      if g =? game_id then (g, q ++ [d]) :: queues'
      else (g, q) :: push_game_queue game_id d queues'
  end.

(** [None] is the [expect] on a delivery without a game. *)
Fixpoint game_queues (run : list CommandDelivery) (queues : list (Z * list CommandDelivery))
  : option (list (Z * list CommandDelivery)) :=
  match run with
  | [] => Some queues
  | d :: run' =>
      match delivery_game_id (dl_payload d) with
      | Some g => game_queues run' (push_game_queue g d queues)
      | None => None
      end
  end.

(** One turn: the front of every queue. *)
Definition turn (queues : list (list CommandDelivery))
  : list CommandDelivery * list (list CommandDelivery) :=
  (omap (@hd_error _) queues, (@tl _) <$> queues).

(** [loop { .. if !appended { break } }], one round per delivery. *)
Fixpoint round_robin (fuel : nat) (queues : list (list CommandDelivery))
  : list CommandDelivery :=
  match fuel with
  | O => []
  | S fuel =>
      let '(out, rest) := turn queues in
      match out with [] => [] | _ => out ++ round_robin fuel rest end
  end.

Definition append_round_robin_game_delivery_run (run : list CommandDelivery)
  : Result (list CommandDelivery) :=
  match game_queues run [] with
  | Some queues => Ok (round_robin (length run) queues.*2)
  | None => Panic "round-robin run contains only addressable game deliveries"
  end.

Fixpoint round_robin_runs (deliveries run : list CommandDelivery)
  : Result (list CommandDelivery) :=
  match deliveries with
  | [] => append_round_robin_game_delivery_run run
  | d :: deliveries' =>
      match delivery_game_id (dl_payload d) with
      | Some _ => round_robin_runs deliveries' (run ++ [d])
      | None =>
          reordered ← append_round_robin_game_delivery_run run;
          rest ← round_robin_runs deliveries' [];
          Ok (reordered ++ d :: rest)
      end
  end.

Definition round_robin_game_delivery_runs (deliveries : list CommandDelivery)
  : Result (list CommandDelivery) := round_robin_runs deliveries [].

Definition advance_cursor_monotonically (cursors : gmap Z string) (game_id : Z)
    (stream_id : string) : Result unit * gmap Z string :=
  match (match cursors !! game_id with
         | Some cursor => stream_id_leq stream_id cursor
         | None => Ok false
         end) with
  | Ok true => (Ok tt, cursors)
  | Ok false =>
      match validate_stream_id stream_id with
      | Ok _ => (Ok tt, <[game_id := stream_id]> cursors)
      | r => (recast r, cursors)
      end
  | r => (recast r, cursors)
  end.

(** Each delivery takes the decision journaled under its stream id. *)
Fixpoint attach_command_decisions (deliveries : list CommandDelivery)
    (decisions : gmap string CommandDecisionV1)
  : list CommandDelivery * gmap string CommandDecisionV1 :=
  match deliveries with
  | [] => ([], decisions)
  | d :: deliveries' =>
      let '(rest, others) :=
        attach_command_decisions deliveries' (delete (dl_stream_id d) decisions) in
      (mkDelivery (dl_stream_id d) (dl_payload d) (decisions !! dl_stream_id d) :: rest, others)
  end.
