(* ===== verification/DecisionFacts.v ===== *)
(** * One verdict per command

    The invariant behind the promise of the command protocol: every decision
    the actor has published agrees with the ledger; with the lemmas on single
    handlers of the actor it needs. *)

From Stdlib Require Import ZArith.
From stdpp Require Import prelude strings countable list gmap.
From S2P Require Import Prelude RustFloat Util Snake Arena CommandQueue GameState GameSetup.
From S2P Require Import Events Validate Tick Fingerprint Engine StreamId CommandLedger.
From S2P Require Import LedgerFacts Recording Journal Recovery Actor.
Open Scope Z_scope.

Definition preserves {A} (R : World -> World -> Prop) (m : Act A) : Prop :=
  forall w r w', m w = Some (r, w') -> R w w'.

Create HintDb actor.

Section frame.
Context {R : World -> World -> Prop} `{!PreOrder R}.

Lemma preserves_ret {A} (x : A) : preserves R (mret x).
Proof. intros w r w' [= <- <-]. reflexivity. Qed.

Lemma preserves_bind {A B} (m : Act A) (k : A -> Act B) :
  preserves R m -> (forall x, preserves R (k x)) -> preserves R (m ≫= k).
Proof.
  intros Hm Hk w r w'. unfold mbind, act_bind.
  destruct (m w) as [[[x|e|e] w1]|] eqn:E; [|by intros [= <- <-]; eapply Hm..|done].
  intros Hr. etrans; [by eapply Hm|by eapply Hk].
Qed.

Lemma preserves_get : preserves R act_get.
Proof. intros w r w' [= <- <-]. reflexivity. Qed.

Lemma preserves_lift {A} (x : Result A) : preserves R (act_lift x).
Proof. intros w r w' [= <- <-]. reflexivity. Qed.

Lemma preserves_fail {A} e : preserves R (@act_fail A e).
Proof. apply preserves_lift. Qed.

Lemma preserves_done : preserves R act_done.
Proof. apply preserves_ret. Qed.

Lemma preserves_handoff `{ActorEnv} : preserves R act_handoff.
Proof. intros w r w' [= <- <-]. reflexivity. Qed.

Lemma preserves_log : preserves R act_log.
Proof. intros w r w' [= <- <-]. reflexivity. Qed.

Lemma preserves_if {A} (b : bool) (m k : Act A) :
  preserves R m -> preserves R k -> preserves R (if b then m else k).
Proof. by destruct b. Qed.
End frame.

#[export] Hint Resolve preserves_ret preserves_bind preserves_get preserves_lift preserves_fail
  preserves_done preserves_handoff preserves_log preserves_if : actor.

(** Runs through the binds, conditionals and matches of a handler. *)
Ltac frame :=
  repeat match goal with
  | |- preserves _ (_ ≫= _) => apply preserves_bind; [|intros ?]
  | |- preserves _ (if _ then _ else _) => apply preserves_if
  | |- preserves _ (match ?x with _ => _ end) => destruct x
  | |- preserves _ _ => solve [eauto 3 with actor typeclass_instances]
  end.

(** Uses the frame of the operation that was run. *)
Ltac by_frame R E :=
  match type of E with
  | ?m ?w = Some (?x, ?w') => refine ((fun Hp : preserves R m => Hp w x w' E) _); clear E
  end.

(** ** Two frames *)

(** The game, the ledger, the cursor and the identity of the actor are kept. *)
Definition same_core (w w' : World) : Prop :=
  ac_engine w'.1 = ac_engine w.1 /\ ac_resolved w'.1 = ac_resolved w.1
  /\ ac_command_cursor w'.1 = ac_command_cursor w.1 /\ ac_game_id w'.1 = ac_game_id w.1
  /\ ac_config w'.1 = ac_config w.1.

#[global] Instance same_core_preorder : PreOrder same_core.
Proof.
  split; [done|]. intros x y z (?&?&?&?&?) (?&?&?&?&?). repeat split; congruence.
Qed.

(** Effects that are not decisions on a command. *)
Definition not_decision (fx : Effect) : Prop :=
  match fx with Fx_Decision _ => False | _ => True end.

Definition no_decisions (w w' : World) : Prop :=
  exists l, w'.2 = w.2 ++ l /\ Forall not_decision l.

#[global] Instance no_decisions_preorder : PreOrder no_decisions.
Proof.
  split.
  - intros w. exists []. by rewrite app_nil_r.
  - intros x y z (l1 & E1 & F1) (l2 & E2 & F2). exists (l1 ++ l2).
    rewrite E2, E1, app_assoc. split; [done|]. by apply Forall_app.
Qed.

Definition quiet (w w' : World) : Prop := same_core w w' /\ no_decisions w w'.

#[global] Instance quiet_preorder : PreOrder quiet.
Proof.
  split; [by intros w; split|]. intros x y z [? ?] [? ?]. split; by etrans.
Qed.

Section actor.
Context {FL : F32Libm} {RE : RecorderEnv} {AE : ActorEnv}.

Lemma quiet_perform fx : not_decision fx -> preserves quiet (perform fx).
Proof.
  intros Hn w r w'. unfold perform. destruct (bus w.2 fx); intros [= <- <-]; try reflexivity.
  split; [done|]. exists [fx]. split; [done|]. by constructor.
Qed.

Lemma quiet_modify f :
  (forall a, ac_engine (f a) = ac_engine a /\ ac_resolved (f a) = ac_resolved a
     /\ ac_command_cursor (f a) = ac_command_cursor a /\ ac_game_id (f a) = ac_game_id a
     /\ ac_config (f a) = ac_config a) ->
  preserves quiet (act_modify f).
Proof.
  intros Hf w r w' [= <- <-]. split; [apply Hf|]. exists []. by rewrite app_nil_r.
Qed.

Lemma quiet_recording f : preserves quiet (on_recording f).
Proof.
  intros w r w'. unfold on_recording. destruct (f _). intros [= <- <-].
  split; [done|]. exists []. by rewrite app_nil_r.
Qed.

Lemma core_perform fx : preserves same_core (perform fx).
Proof. intros w r w'. unfold perform. by destruct (bus w.2 fx); intros [= <- <-]. Qed.

Lemma core_quiet {A} (m : Act A) : preserves quiet m -> preserves same_core m.
Proof. intros Hm w r w' E. by destruct (Hm _ _ _ E). Qed.
End actor.

#[export] Hint Resolve quiet_recording : actor.
#[export] Hint Extern 1 (preserves quiet (act_modify _)) => apply quiet_modify; done : actor.
#[export] Hint Extern 1 (preserves quiet (perform _)) => apply quiet_perform; exact I : actor.

Section handlers.
Context {FL : F32Libm} {RE : RecorderEnv} {AE : ActorEnv}.
Variable fuel : nat.

Lemma quiet_publish_event_at tick sequence event :
  preserves quiet (publish_event_at tick sequence event).
Proof. unfold publish_event_at. frame. Qed.

Lemma quiet_publish_event event : preserves quiet (publish_event event).
Proof. unfold publish_event. frame. apply quiet_publish_event_at. Qed.

Lemma quiet_publish_events l : preserves quiet (publish_events l).
Proof.
  induction l as [|[[tick sequence] event] l IH]; cbn [publish_events]; frame.
  apply quiet_publish_event_at.
Qed.

Lemma quiet_checkpoint now_ms token : preserves quiet (checkpoint now_ms token).
Proof. unfold checkpoint. frame. Qed.

Lemma quiet_tick_hash now ts : preserves quiet (publish_tick_hash_if_due now ts).
Proof. unfold publish_tick_hash_if_due. frame. apply quiet_publish_event_at. Qed.

Lemma quiet_fresh_snapshot now_ms token : preserves quiet (publish_fresh_snapshot now_ms token).
Proof.
  unfold publish_fresh_snapshot. frame; [apply quiet_checkpoint|apply quiet_publish_event].
Qed.

Lemma quiet_cleanup users now : preserves quiet (cleanup_users users now).
Proof.
  induction users as [|u users IH]; cbn [cleanup_users]; [frame|]. intros w r w'.
  destruct (perform _ w) as [[[[]|e|e] w1]|] eqn:E; [|intros [= <- <-]..|done].
  - intros E2. pose proof (quiet_perform (Fx_IdleCleanup (ac_game_id w.1) u) I _ _ _ E) as Q1.
    specialize (IH _ _ _ E2) as Q2. etrans; [exact Q1|]. etrans; [|exact Q2].
    split; [done|]. exists []. by rewrite app_nil_r.
  - pose proof (quiet_perform (Fx_IdleCleanup (ac_game_id w.1) u) I _ _ _ E) as Q1.
    etrans; [exact Q1|]. split; [done|]. exists []. by rewrite app_nil_r.
  - by eapply (quiet_perform (Fx_IdleCleanup (ac_game_id w.1) u) I).
Qed.

Lemma quiet_cleanup_idle now : preserves quiet (cleanup_idle_player_matchmaking now).
Proof. unfold cleanup_idle_player_matchmaking. frame. apply quiet_cleanup. Qed.

Lemma quiet_commit now_ms token : preserves quiet (commit_completion_until_handoff now_ms token).
Proof.
  unfold commit_completion_until_handoff, commit_completion, materialize_pending. frame.
Qed.
End handlers.

#[export] Hint Resolve quiet_publish_event_at quiet_publish_event quiet_publish_events
  quiet_checkpoint quiet_tick_hash quiet_fresh_snapshot quiet_cleanup_idle quiet_commit : actor.

(** The verdict on a command: what the history says, or a fence of its session. *)
Definition verdict_for (H : History) (r : ResolvedCommandState)
    (identity : ClientCommandIdentityV2) (o : CommandOutcome) : Prop :=
  decided H identity = Some o
  \/ (decided H identity = None /\ 0 < ci_sequence identity
      /\ exists f c, rejection_fence (session_of r identity) = Some f
         /\ covers f (ci_sequence identity) = true /\ o = CO_Rejected (fence_reason f) c).

Definition verdict_ok (H : History) (r : ResolvedCommandState) (d : CommandDecisionV1) : Prop :=
  exists identity o, identity_and_outcome d = Ok (identity, o) /\ verdict_for H r identity o.

Definition fx_ok (H : History) (r : ResolvedCommandState) (fx : Effect) : Prop :=
  match fx with Fx_Decision d => verdict_ok H r d | _ => True end.

Record world_ok (max : Z) (H : History) (w : World) : Prop := mkWorldOk {
  wo_max : max_outcomes w.1 = max;
  wo_pos : 0 < max;
  wo_ledger : ledger_repr max H (ac_resolved w.1);
  wo_log : Forall (fx_ok H (ac_resolved w.1)) w.2
}.

Definition history_le (H H' : History) : Prop :=
  forall identity o, decided H identity = Some o -> decided H' identity = Some o.

#[global] Instance history_le_preorder : PreOrder history_le.
Proof. split; [by intros h i o|]. intros x y z Hxy Hyz i o E. by apply Hyz, Hxy. Qed.

(** ** What leaves the ledger alone *)

Definition ledger_kept (w w' : World) : Prop :=
  ac_resolved w'.1 = ac_resolved w.1 /\ ac_config w'.1 = ac_config w.1 /\ no_decisions w w'.

#[global] Instance ledger_kept_preorder : PreOrder ledger_kept.
Proof.
  split.
  - intros w. split; [done|]. split; [done|reflexivity].
  - intros x y z (?&?&?) (?&?&?). split; [congruence|]. split; [congruence|]. by etrans.
Qed.

Lemma kept_quiet w w' : quiet w w' -> ledger_kept w w'.
Proof. intros [(_ & ? & _ & _ & ?) ?]. by split. Qed.

Lemma world_ok_kept max H w w' : world_ok max H w -> ledger_kept w w' -> world_ok max H w'.
Proof.
  intros [Hm Hp Hl Hf] (Er & Ec & l & El & Fl). split; [|done| |].
  - unfold max_outcomes in *. by rewrite Ec.
  - by rewrite Er.
  - rewrite El, Er. apply Forall_app. split; [done|]. eapply Forall_impl; [done|]. by intros [].
Qed.

Section actor.
Context {FL : F32Libm} {RE : RecorderEnv} {AE : ActorEnv}.
Variable fuel : nat.

Lemma kept_of_quiet {A} (m : Act A) : preserves quiet m -> preserves ledger_kept m.
Proof. intros Hm w r w' E. by apply kept_quiet, (Hm _ _ _ E). Qed.

Lemma kept_engine {A} (f : GameEngine -> option (Result A * GameEngine)) :
  preserves ledger_kept (on_engine f).
Proof.
  intros w r w'. unfold on_engine. destruct (f _) as [[x e]|]; [|done]. intros [= <- <-].
  split; [done|]. split; [done|]. exists []. by rewrite app_nil_r.
Qed.
End actor.

#[export] Hint Resolve kept_engine : actor.
#[export] Hint Extern 2 (preserves ledger_kept _) =>
  apply kept_of_quiet; solve [eauto 3 with actor typeclass_instances] : actor.
#[export] Hint Extern 2 (preserves ledger_kept (act_modify _)) =>
  apply kept_of_quiet, quiet_modify; intros []; done : actor.

Section handlers.
Context {FL : F32Libm} {RE : RecorderEnv} {AE : ActorEnv}.
Variable fuel : nat.

Lemma kept_gate now_ms token : preserves ledger_kept (resolve_readiness_gate_if_due now_ms token).
Proof. unfold resolve_readiness_gate_if_due, pre_match, record_now. frame. Qed.

Lemma kept_confirmation u now_ms token :
  preserves ledger_kept (apply_readiness_confirmation u now_ms token).
Proof.
  unfold apply_readiness_confirmation, record_readiness_transition, pre_match, record_now. frame.
  apply kept_gate.
Qed.

Lemma kept_confirm_all users now_ms token :
  preserves ledger_kept (confirm_all users now_ms token).
Proof.
  induction users as [|u users IH]; cbn [confirm_all]; frame. apply kept_confirmation.
Qed.

Lemma kept_drain now_ms token : preserves ledger_kept (drain_deferred_readiness now_ms token).
Proof. unfold drain_deferred_readiness. frame. apply kept_confirm_all. Qed.

Lemma kept_activate now_ms now token : preserves ledger_kept (activate fuel now_ms now token).
Proof.
  unfold activate. frame; [|apply kept_drain..]. apply kept_of_quiet, quiet_modify. intros a.
  by destruct (ac_planned_handoff_watermark a).
Qed.

Lemma kept_advance now_ms now token : preserves ledger_kept (advance_live fuel now_ms now token).
Proof. unfold advance_live. frame; apply kept_gate. Qed.

Lemma kept_requested_snapshot now_ms token :
  preserves ledger_kept (checkpoint_and_publish_requested_snapshot now_ms token).
Proof. unfold checkpoint_and_publish_requested_snapshot. frame. Qed.

Lemma kept_settle stream_id b now_ms token :
  preserves ledger_kept (settle_delivery stream_id b now_ms token).
Proof.
  unfold settle_delivery. frame.
  intros w r w' [= <- <-]. split; [done|]. split; [done|]. exists []. by rewrite app_nil_r.
Qed.
End handlers.

(** ** Publication *)

Section publish.
Context {FL : F32Libm} {RE : RecorderEnv} {AE : ActorEnv}.

Lemma outcome_event_decision sid n g t q ss identity o dd from ev :
  outcome_event identity o dd from = Ok ev ->
  identity_and_outcome (decision_new sid n (mkGameEventMessage g t q ss None ev)) = Ok (identity, o).
Proof.
  unfold outcome_event. destruct o; [destruct from|]; intros E; by simplify_eq.
Qed.

(** [publish_outcome] logs at most one decision, for the identity and the
    outcome it was given. *)
Lemma publish_outcome_any sid identity o dd from w x w' :
  publish_outcome sid identity o dd from w = Some (x, w') ->
  ac_resolved w'.1 = ac_resolved w.1 /\ ac_config w'.1 = ac_config w.1
  /\ (w'.2 = w.2 \/ exists d, w'.2 = w.2 ++ [Fx_Decision d]
        /\ identity_and_outcome d = Ok (identity, o)).
Proof.
  unfold publish_outcome, act_lift, act_get, mbind, act_bind.
  destruct (outcome_event identity o dd from) as [ev|e|e] eqn:Ee;
    [|intros [= <- <-]; by auto..].
  destruct (context _ _) as [ss|e|e]; [|intros [= <- <-]; by auto..].
  destruct (decision_admissible _ _) as [?|e|e]; [|intros [= <- <-]; by auto..].
  unfold perform. destruct (bus _ _) as [u|e|e]; [|intros [= <- <-]; by auto..].
  unfold on_recording. destruct (record_event _ _ _) as [[u'|e|e] r] eqn:Er; intros [= <- <-];
    (split; [done|]; split; [done|]; right; eexists; split; [reflexivity|];
     by eapply outcome_event_decision).
Qed.

Lemma publish_verdict max H sid identity o dd from w x w' :
  world_ok max H w -> verdict_for H (ac_resolved w.1) identity o ->
  publish_outcome_if_live sid identity o dd from w = Some (x, w') -> world_ok max H w'.
Proof.
  intros [Hm Hp Hl Hf] Hv. unfold publish_outcome_if_live, act_get, mbind, act_bind.
  destruct (ac_live w.1).
  - intros E. apply publish_outcome_any in E as (Er & Ec & Elog). split; [|done| |].
    + unfold max_outcomes in *. by rewrite Ec.
    + by rewrite Er.
    + rewrite Er. destruct Elog as [->|(d & -> & Ed)]; [done|]. apply Forall_app. split; [done|].
      repeat constructor. by exists identity, o.
  - intros [= <- <-]. by split.
Qed.

(** ** The ledger moves *)

(** Published verdicts survive a fence that moves down. *)
Lemma verdict_fence H r r' identity o :
  (forall other, fence_le (session_of r other) (session_of r' other)) ->
  verdict_for H r identity o -> verdict_for H r' identity o.
Proof.
  intros Hle [?|(Hn & H0 & f & c & Hf & Hc & ->)]; [by left|right]. split; [done|]. split; [done|].
  destruct (Hle identity f Hf) as (f' & Hf' & Er & Efrom). exists f', c.
  split; [done|]. split; [|by rewrite Er]. unfold covers in *. apply Z.leb_le in Hc.
  apply Z.leb_le. lia.
Qed.

(** A command that is not resolved is not the subject of a published verdict,
    so deciding it contradicts none. *)
Lemma verdict_decide max H r r' identity o0 other o :
  ledger_repr max H r -> 0 < max -> is_terminally_resolved r identity = false ->
  (forall i, rejection_fence (session_of r' i) = rejection_fence (session_of r i)) ->
  verdict_for H r other o -> verdict_for (decide_once H identity o0) r' other o.
Proof.
  intros L Hm Hr Hfe Hv. unfold verdict_for. rewrite decided_once.
  destruct (same_identity identity other) eqn:Es.
  - exfalso. apply andb_true_iff in Es as [Ek Eseq].
    apply bool_decide_eq_true in Ek. apply Z.eqb_eq in Eseq.
    apply not_true_iff_false in Hr. apply Hr. unfold is_terminally_resolved.
    rewrite Ek, Eseq. change (is_terminally_resolved r other = true).
    apply (ledger_resolved _ _ _ _ L ltac:(lia)).
    destruct Hv as [Hd|(_ & H0 & f & c & Hf & Hc & _)]; [left; by rewrite Hd|right].
    split; [done|]. unfold fenced. by rewrite Hf.
  - rewrite Hfe. exact Hv.
Qed.

Lemma world_ok_decide max H w identity o r' :
  world_ok max H w -> is_terminally_resolved (ac_resolved w.1) identity = false ->
  ledger_repr max (decide_once H identity o) r' ->
  (forall i, rejection_fence (session_of r' i) = rejection_fence (session_of (ac_resolved w.1) i)) ->
  world_ok max (decide_once H identity o) (set_resolved r' w.1, w.2)
  /\ history_le H (decide_once H identity o).
Proof.
  intros [Hm Hp Hl Hf] Hr L' Hfe. split.
  - split; [done|done|done|]. cbn. eapply Forall_impl; [exact Hf|]. intros [] Hfx; try done.
    destruct Hfx as (i & o' & Ei & Hv). exists i, o'. split; [done|].
    by eapply verdict_decide.
  - intros i o' Hd. rewrite decided_once. destruct (same_identity identity i) eqn:Es; [|done].
    exfalso. apply andb_true_iff in Es as [Ek Eseq].
    apply bool_decide_eq_true in Ek. apply Z.eqb_eq in Eseq.
    apply not_true_iff_false in Hr. apply Hr. unfold is_terminally_resolved.
    rewrite Ek, Eseq. change (is_terminally_resolved (ac_resolved w.1) i = true).
    apply (ledger_resolved _ _ _ _ Hl ltac:(lia)). left. by rewrite Hd.
Qed.

Lemma world_ok_fence max H w r' :
  world_ok max H w -> ledger_repr max H r' ->
  (forall other, fence_le (session_of (ac_resolved w.1) other) (session_of r' other)) ->
  world_ok max H (set_resolved r' w.1, w.2).
Proof.
  intros [Hm Hp Hl Hf] L' Hle. split; [done|done|done|]. cbn.
  eapply Forall_impl; [exact Hf|]. intros [] Hfx; try done.
  destruct Hfx as (i & o' & Ei & Hv). exists i, o'. split; [done|]. by eapply verdict_fence.
Qed.
End publish.

(** ** A delivered command *)

Lemma act_bind_inv {A B} (m : Act A) (k : A -> Act B) w x w' :
  (m ≫= k) w = Some (x, w') ->
  (exists v w1, m w = Some (Ok v, w1) /\ k v w1 = Some (x, w'))
  \/ (exists e, m w = Some (Err e, w') /\ x = Err e)
  \/ (exists e, m w = Some (Panic e, w') /\ x = Panic e).
Proof.
  unfold mbind, act_bind. destruct (m w) as [[[v|e|e] w1]|]; [|intros [= <- <-]..|done]; eauto 6.
Qed.

Section deliver.
Context {FL : F32Libm} {RE : RecorderEnv} {AE : ActorEnv}.
Variable fuel : nat.

Lemma kept_decide identity m : preserves ledger_kept (decide_command identity m).
Proof.
  unfold decide_command. frame. intros w r w'. unfold process_submitted.
  destruct (process_command _ _) as [[] ?]; intros [= <- <-];
    (split; [done|]; split; [done|]; exists []; by rewrite app_nil_r).
Qed.

Lemma kept_catch_up sid : preserves ledger_kept (catch_up_to_submission fuel sid).
Proof. unfold catch_up_to_submission. frame. Qed.

(** Recording an outcome for a command that is not resolved. *)
Lemma record_step max H w identity o n x w' :
  world_ok max H w -> n = max -> is_u64 (ci_sequence identity) ->
  is_terminally_resolved (ac_resolved w.1) identity = false ->
  can_record (ac_resolved w.1) identity max = Ok tt ->
  on_resolved (fun r => resolved_record r identity o n) w = Some (x, w') ->
  x = Ok o /\ world_ok max (decide_once H identity o) w'
  /\ history_le H (decide_once H identity o) /\ ac_live w'.1 = ac_live w.1.
Proof.
  intros W -> Hu Hr Hc. unfold on_resolved.
  destruct (ledger_record _ _ _ _ o (wo_ledger _ _ _ W) (wo_pos _ _ _ W) Hu Hr Hc)
    as (r' & -> & L' & Hf). intros [= <- <-]. split; [done|].
  destruct (world_ok_decide _ _ _ _ _ _ W Hr L' Hf) as [W' Hle]. by split.
Qed.

(** The verdict of a fence. *)
Lemma fenced_verdict max H r identity f c :
  ledger_repr max H r -> 0 < max -> is_u64 (ci_sequence identity) ->
  rejection_fence_for r identity = Some f ->
  verdict_for H r identity (CO_Rejected (fence_reason f) c).
Proof.
  intros L Hp Hu Ef. pose proof (ledger_session _ _ _ identity L ltac:(lia)) as R.
  unfold rejection_fence_for in Ef. unfold verdict_for, session_of in *.
  destruct (r !! session_key identity) as [s|]; [|done]. cbn in *.
  apply (fence_for_spec _ _ _ _ _ R) in Ef as (Hd & Hn & _ & Hrf & Hc). right.
  split; [done|]. split; [unfold is_u64 in Hu; lia|]. eauto.
Qed.

Lemma fence_step max H w identity reason y w1 :
  world_ok max H w -> is_u64 (ci_sequence identity) -> decided H identity = None ->
  on_resolved (fun r => install_rejection_fence r identity (ci_sequence identity) reason) w
    = Some (y, w1) ->
  world_ok max H w1
  /\ forall f c, y = Ok f ->
     verdict_for H (ac_resolved w1.1) identity (CO_Rejected (fence_reason f) c).
Proof.
  intros W Hu Hd. unfold on_resolved. destruct (install_rejection_fence _ _ _ _) as [f r'] eqn:Ei.
  intros [= <- <-].
  destruct (ledger_fence _ _ _ _ _ _ _ _ (wo_ledger _ _ _ W) Ei) as (L' & Hle & _ & Hok).
  split; [by apply world_ok_fence|]. intros f' c ->. destruct (Hok f' eq_refl) as (Hc & Hrf & _).
  right. split; [done|]. split.
  { unfold is_u64 in Hu. destruct (decide (ci_sequence identity = 0)) as [E0|]; [|lia].
    exfalso. unfold install_rejection_fence, validate_client_command_identity in Ei.
    rewrite E0 in Ei. cbn in Ei. congruence. }
  exists f', c. unfold fenced in Hc. by rewrite Hrf in Hc.
Qed.

(** A command that is not resolved and may be recorded is decided once. *)
Lemma fresh_step max H w sid identity m x w' :
  world_ok max H w -> is_u64 (ci_sequence identity) ->
  is_terminally_resolved (ac_resolved w.1) identity = false ->
  can_record (ac_resolved w.1) identity max = Ok tt ->
  incorporate_fresh_command fuel sid identity m w = Some (x, w') ->
  exists H', world_ok max H' w' /\ history_le H H'.
Proof.
  intros W Hu Er Ec E. unfold incorporate_fresh_command in E.
  apply act_bind_inv in E as [(a & w0 & [= <- <-] & E)|[(e & [=] & _)|(e & [=] & _)]].
  rewrite (wo_max _ _ _ W) in E.
  assert (Hover : forall y w1, (if ac_live w.1 then mret false else catch_up_to_submission fuel sid) w
    = Some (y, w1) -> ledger_kept w w1).
  { intros y w1. destruct (ac_live w.1); [intros [= <- <-]; reflexivity|apply kept_catch_up]. }
  apply act_bind_inv in E as [(over & w1 & E1 & E)|[(e & E & _)|(e & E & _)]];
    [|exists H; split; [|reflexivity]; eapply world_ok_kept; [exact W|by eapply Hover]..].
  apply Hover in E1 as K1. pose proof (world_ok_kept _ _ _ _ W K1) as W1.
  destruct K1 as (R1 & C1 & _). destruct over.
  { apply act_bind_inv in E as [(u & w2 & E & [= <- <-])|[(e & E & _)|(e & E & _)]];
      (eapply record_step in E as (? & W' & Hle & _);
       [by eauto|exact W1|done|done|by rewrite R1|by rewrite R1]). }
  apply act_bind_inv in E as [(o & w2 & E2 & E)|[(e & E & _)|(e & E & _)]];
    [|exists H; split; [|reflexivity]; eapply world_ok_kept; [exact W1|by eapply kept_decide]..].
  apply kept_decide in E2 as K2. pose proof (world_ok_kept _ _ _ _ W1 K2) as W2.
  destruct K2 as (R2 & C2 & _). exists (decide_once H identity o).
  assert (Hrec : forall y w3, on_resolved (fun r => resolved_record r identity o max) w2 = Some (y, w3) ->
    world_ok max (decide_once H identity o) w3 /\ history_le H (decide_once H identity o)).
  { intros y w3 E3. eapply record_step in E3 as (? & W' & Hle & _);
      [by eauto|exact W2|done|done|by rewrite R2, R1|by rewrite R2, R1]. }
  apply act_bind_inv in E as [(u & w3 & E3 & E)|[(e & E & _)|(e & E & _)]];
    [|destruct (Hrec _ _ E); by eauto..].
  destruct (Hrec _ _ E3) as [W3 Hle]. split; [|done].
  assert (Hv : verdict_for (decide_once H identity o) (ac_resolved w3.1) identity o).
  { left. rewrite decided_once. unfold same_identity. by rewrite bool_decide_true, Z.eqb_refl. }
  apply act_bind_inv in E as [(u' & w4 & E & [= <- <-])|[(e & E & _)|(e & E & _)]];
    (by eapply publish_verdict).
Qed.

Lemma v2_step max H w sid identity m x w' :
  world_ok max H w -> is_u64 (ci_sequence identity) ->
  incorporate_v2_command fuel sid identity m None w = Some (x, w') ->
  exists H', world_ok max H' w' /\ history_le H H'.
Proof.
  intros W Hu. unfold incorporate_v2_command. intros E.
  apply act_bind_inv in E as [(a & w1 & [= <- <-] & E)|[(e & [=] & _)|(e & [=] & _)]].
  pose proof (wo_ledger _ _ _ W) as L. pose proof (wo_pos _ _ _ W) as Hp.
  destruct (resolved_get (ac_resolved w.1) identity) as [o|] eqn:Eg.
  { exists H. split; [|reflexivity].
    apply act_bind_inv in E as [(u & w1 & E & [= <- <-])|[(e & E & _)|(e & E & _)]];
      (eapply publish_verdict; [exact W| |exact E]; left; by apply (ledger_get _ _ _ _ _ L)). }
  destruct (rejection_fence_for (ac_resolved w.1) identity) as [f|] eqn:Ef.
  { exists H. split; [|reflexivity].
    apply act_bind_inv in E as [(u & w1 & E & [= <- <-])|[(e & E & _)|(e & E & _)]];
      (eapply publish_verdict; [exact W|by eapply fenced_verdict|exact E]). }
  destruct (is_terminally_resolved (ac_resolved w.1) identity) eqn:Er.
  { injection E as <- <-. exists H. by split. }
  destruct (sparse_window_is_full (ac_resolved w.1) identity (max_outcomes w.1)) eqn:Ew.
  { exists H. split; [|reflexivity].
    assert (Hd : decided H identity = None).
    { apply eq_None_not_Some. intros Hd. apply not_true_iff_false in Er. apply Er.
      apply (ledger_resolved _ _ _ _ L ltac:(lia)). by left. }
    apply act_bind_inv in E as [(f & w1 & E1 & E)|[(e & E & _)|(e & E & _)]];
      [|by eapply (fence_step _ _ _ _ _ _ _ W Hu Hd E)..].
    destruct (fence_step _ _ _ _ _ _ _ W Hu Hd E1) as [W1 Hv].
    apply act_bind_inv in E as [(u & w2 & E & [= <- <-])|[(e & E & _)|(e & E & _)]];
      (eapply publish_verdict; [exact W1|by apply Hv|exact E]). }
  rewrite (wo_max _ _ _ W) in E.
  destruct (can_record (ac_resolved w.1) identity max) as [[]|e|e] eqn:Ec;
    [|injection E as <- <-; exists H; by split..].
  by eapply fresh_step.
Qed.

(** ** Any delivery *)

Lemma kept_ack ids : preserves ledger_kept (perform (Fx_Ack ids)).
Proof. apply kept_of_quiet, quiet_perform, I. Qed.

Lemma kept_after_completion sid identity recorded :
  preserves ledger_kept (incorporate_after_completion sid identity recorded).
Proof. unfold incorporate_after_completion. frame; apply kept_ack. Qed.

Lemma deliver_step max H w d now_ms token x w' :
  world_ok max H w -> dl_decision d = None ->
  (forall g u c m, dl_payload d = Payload_Command (SE_GameCommandSubmittedV2 g u c m) ->
     is_u64 (ci_sequence c)) ->
  incorporate fuel d now_ms token w = Some (x, w') ->
  exists H', world_ok max H' w' /\ history_le H H'.
Proof.
  intros W Hn Hu. unfold incorporate. rewrite Hn. intros E.
  apply act_bind_inv in E as [(a & w1 & [= <- <-] & E)|[(e & [=] & _)|(e & [=] & _)]].
  assert (Hkept : ledger_kept w w' -> exists H', world_ok max H' w' /\ history_le H H').
  { intros K. exists H. split; [by eapply world_ok_kept|reflexivity]. }
  apply act_bind_inv in E as [(covered & w1 & E1 & E)|[(e & E & _)|(e & E & _)]];
    [|apply Hkept; by eapply (preserves_lift (R := ledger_kept))..].
  injection E1 as _ <-. destruct covered; [apply Hkept; by_frame ledger_kept E; frame; apply kept_ack|].
  destruct (dl_payload d) as [[g st|g u c m|g st|g u]|raw reason] eqn:Ep.
  - apply Hkept. by_frame ledger_kept E. cbn [no_decision]. frame; apply kept_settle.
  - destruct (negb (g =? ac_game_id w.1)); [apply Hkept; by_frame ledger_kept E; frame|].
    destruct (_ || _); [apply Hkept; by_frame ledger_kept E; frame|].
    apply act_bind_inv in E as [(rec & w1 & E1 & E)|[(e & E & _)|(e & E & _)]];
      [|apply Hkept; by eapply (preserves_lift (R := ledger_kept))..].
    injection E1 as _ <-. destruct (is_complete (ac_state w.1)).
    { apply Hkept. by_frame ledger_kept E. apply kept_after_completion. }
    apply act_bind_inv in E as [(y & w1 & E1 & E)|[(e & E & _)|(e & E & _)]];
      [|eapply v2_step; [exact W|by eapply Hu|exact E]..].
    destruct (v2_step _ _ _ _ _ _ _ _ W (Hu _ _ _ _ eq_refl) E1) as (H' & W' & Hle).
    exists H'. split; [|done]. eapply world_ok_kept; [exact W'|]. by_frame ledger_kept E.
    destruct y; frame; apply kept_settle.
  - apply Hkept. by_frame ledger_kept E. cbn [no_decision]. frame.
  - apply Hkept. by_frame ledger_kept E. cbn [no_decision]. frame; try apply kept_settle; apply kept_confirmation.
  - apply Hkept. by_frame ledger_kept E. frame.
Qed.
End deliver.
