(* ===== verification/FailoverFacts.v ===== *)
(** * A successor follows the incumbent

    An incumbent actor runs a match and journals its decisions; a successor
    built from an earlier checkpoint incorporates the same deliveries with the
    journaled decisions. [reaches] relates the committed states, [follows] the
    actors; each step of the incumbent keeps [follows]. *)

From Stdlib Require Import ZArith.
From stdpp Require Import prelude strings countable list gmap.
From S2P Require Import Prelude RustFloat Util Snake Arena CommandQueue GameState GameSetup.
From S2P Require Import Events Validate Tick StateInvariant Validity MatchLife EventOrder.
From S2P Require Import Fingerprint Engine EngineFacts StreamId CommandLedger LedgerFacts.
From S2P Require Import Recording Journal JournalFacts Recovery Actor DecisionFacts.
Open Scope Z_scope.

Lemma act_bind_ok {A B} (m : Act A) (k : A -> Act B) w x w' :
  (m ≫= k) w = Some (Ok x, w') ->
  exists v w1, m w = Some (Ok v, w1) /\ k v w1 = Some (Ok x, w').
Proof.
  intros E. apply act_bind_inv in E as [?|[(e & _ & [=])|(e & _ & [=])]]. done.
Qed.

Definition ok_preserves {A} (R : World -> World -> Prop) (m : Act A) : Prop :=
  forall w x w', m w = Some (Ok x, w') -> R w w'.

(** The stream sequence number of an effect. *)
Definition fx_seq (fx : Effect) : option Z :=
  match fx with
  | Fx_Decision d => Some (em_stream_seq (cd_event d))
  | Fx_Event m => Some (em_stream_seq m)
  | _ => None
  end.

Definition stream_of (log : list Effect) : list Z := omap fx_seq log.

(** What was published between two worlds is numbered on from the counter. *)
Definition streamed (w w' : World) : Prop :=
  exists l, w'.2 = w.2 ++ l
  /\ stream_of l = range_Z (ac_next_event_stream_sequence w.1 + 1) (length (stream_of l))
  /\ ac_next_event_stream_sequence w'.1
     = ac_next_event_stream_sequence w.1 + Z.of_nat (length (stream_of l)).

Lemma stream_of_app l1 l2 : stream_of (l1 ++ l2) = stream_of l1 ++ stream_of l2.
Proof. apply omap_app. Qed.

Lemma range_Z_app lo n m : range_Z lo (n + m) = range_Z lo n ++ range_Z (lo + Z.of_nat n) m.
Proof.
  unfold range_Z. rewrite seq_app, fmap_app. f_equal. cbn [Nat.add].
  apply list_eq. intros i. rewrite !list_lookup_fmap.
  destruct (decide (i < m)%nat).
  - rewrite !lookup_seq_lt by done. cbn. f_equal. lia.
  - rewrite !lookup_seq_ge by lia. done.
Qed.

#[global] Instance streamed_preorder : PreOrder streamed.
Proof.
  split.
  - intros w. exists []. rewrite app_nil_r. cbn. split; [done|]. split; [done|lia].
  - intros x y z (l1 & E1 & S1 & N1) (l2 & E2 & S2 & N2). exists (l1 ++ l2).
    rewrite E2, E1, app_assoc, stream_of_app, length_app. split; [done|]. split; [|lia].
    rewrite S1 at 1. rewrite S2 at 1. rewrite N1, range_Z_app. do 2 f_equal. lia.
Qed.

Section frame.
Context {R : World -> World -> Prop} `{!PreOrder R}.

Lemma ok_preserves_all {A} (m : Act A) : preserves R m -> ok_preserves R m.
Proof. intros Hm w x w' E. by eapply Hm. Qed.

Lemma ok_preserves_bind {A B} (m : Act A) (k : A -> Act B) :
  ok_preserves R m -> (forall x, ok_preserves R (k x)) -> ok_preserves R (m ≫= k).
Proof.
  intros Hm Hk w x w' E. apply act_bind_inv in E as [(v & w1 & E1 & E)|[(e & _ & [=])|(e & _ & [=])]].
  etrans; [by eapply Hm|by eapply Hk].
Qed.

Lemma ok_preserves_if {A} (b : bool) (m k : Act A) :
  ok_preserves R m -> ok_preserves R k -> ok_preserves R (if b then m else k).
Proof. by destruct b. Qed.
End frame.

Ltac ok_frame :=
  repeat match goal with
  | |- ok_preserves _ (_ ≫= _) => apply ok_preserves_bind; [|intros ?]
  | |- ok_preserves _ (if _ then _ else _) => apply ok_preserves_if
  | |- ok_preserves _ (match ?x with _ => _ end) => destruct x
  | |- ok_preserves _ _ => solve [eauto 3 with actor typeclass_instances
      | apply ok_preserves_all; solve [eauto 3 with actor typeclass_instances]]
  end.

(** Operations that publish nothing and leave the counter alone. *)
Lemma streamed_same w w' l :
  w'.2 = w.2 ++ l -> stream_of l = [] ->
  ac_next_event_stream_sequence w'.1 = ac_next_event_stream_sequence w.1 -> streamed w w'.
Proof. intros El Es En. exists l. rewrite Es, En. cbn. split; [done|]. split; [done|lia]. Qed.

Section actor.
Context {FL : F32Libm} {RE : RecorderEnv} {AE : ActorEnv}.
Variable fuel : nat.

Lemma streamed_modify f :
  (forall a, ac_next_event_stream_sequence (f a) = ac_next_event_stream_sequence a) ->
  preserves streamed (act_modify f).
Proof. intros Hf w x w' [= <- <-]. apply (streamed_same _ _ []); cbn; [by rewrite app_nil_r|done|done]. Qed.

Lemma streamed_recording f : preserves streamed (on_recording f).
Proof.
  intros w x w'. unfold on_recording. destruct (f _). intros [= <- <-].
  apply (streamed_same _ _ []); cbn; [by rewrite app_nil_r|done|done].
Qed.

Lemma streamed_resolved {A} (f : ResolvedCommandState -> Result A * ResolvedCommandState) :
  preserves streamed (on_resolved f).
Proof.
  intros w x w'. unfold on_resolved. destruct (f _). intros [= <- <-].
  apply (streamed_same _ _ []); cbn; [by rewrite app_nil_r|done|done].
Qed.

Lemma streamed_engine {A} (f : GameEngine -> option (Result A * GameEngine)) :
  preserves streamed (on_engine f).
Proof.
  intros w x w'. unfold on_engine. destruct (f _) as [[]|]; [|done]. intros [= <- <-].
  apply (streamed_same _ _ []); cbn; [by rewrite app_nil_r|done|done].
Qed.

Lemma streamed_perform fx : fx_seq fx = None -> preserves streamed (perform fx).
Proof.
  intros Hs w x w'. unfold perform. destruct (bus w.2 fx); intros [= <- <-]; [|reflexivity..].
  apply (streamed_same _ _ [fx]); [done|unfold stream_of; cbn; by rewrite Hs|done].
Qed.

(** One published message. *)
Lemma streamed_one w w' fx :
  w'.2 = w.2 ++ [fx] -> fx_seq fx = Some (ac_next_event_stream_sequence w'.1) ->
  ac_next_event_stream_sequence w'.1 = ac_next_event_stream_sequence w.1 + 1 -> streamed w w'.
Proof.
  intros El Es En. exists [fx]. rewrite El.
  assert (stream_of [fx] = [ac_next_event_stream_sequence w.1 + 1]) as ->.
  { unfold stream_of. cbn. by rewrite Es, En. }
  split; [done|]. split; [|cbn; lia]. unfold range_Z. cbn. f_equal. lia.
Qed.

Lemma checked_next n s msg :
  context msg (checked_add_u64 n 1) = Ok s -> s = n + 1 /\ n + 1 <= u64_max.
Proof.
  unfold checked_add_u64. destruct (Z.leb_spec (n + 1) u64_max); [|done]. by intros [= <-].
Qed.

Lemma streamed_publish_event_at tick sequence event :
  ok_preserves streamed (publish_event_at tick sequence event).
Proof.
  intros w x w' E. unfold publish_event_at in E.
  apply act_bind_inv in E as [(a & w1 & [= <- <-] & E)|[(e & [=] & _)|(e & [=] & _)]].
  destruct (is_complete _); [injection E as <- <-; reflexivity|].
  apply act_bind_inv in E as [(s & w1 & E1 & E)|[(e & _ & [=])|(e & _ & [=])]].
  injection E1 as E1 <-. apply checked_next in E1 as [-> _].
  apply act_bind_inv in E as [(u & w1 & [= <- <-] & E)|[(e & [=] & _)|(e & [=] & _)]].
  unfold perform in E. destruct (bus _ _); [|done..]. injection E as <- <-.
  eapply streamed_one; [reflexivity|done|done].
Qed.

(** What a published outcome leaves: the decision, valid and journaled, and the
    next stream number. *)
Lemma publish_outcome_ok sid identity o dd from w x w' :
  publish_outcome sid identity o dd from w = Some (Ok x, w') ->
  exists ev rec d,
    outcome_event identity o dd from = Ok ev
    /\ d = decision_new sid (command_counter (ac_engine w.1))
             (mkGameEventMessage (ac_game_id w.1) (gs_tick (ac_state w.1))
                (gs_event_sequence (ac_state w.1)) (ac_next_event_stream_sequence w.1 + 1)
                None ev)
    /\ decision_validate d = Ok tt
    /\ w' = (set_stream_sequence (ac_next_event_stream_sequence w.1 + 1)
               (set_recording rec w.1), w.2 ++ [Fx_Decision d]).
Proof.
  intros E. unfold publish_outcome in E.
  apply act_bind_ok in E as (ev & w1 & [= Hev <-] & E).
  apply act_bind_ok in E as (a & w1 & [= <- <-] & E).
  apply act_bind_ok in E as (s & w1 & [= Hs <-] & E).
  apply checked_next in Hs as [-> _]. cbv zeta in E.
  apply act_bind_ok in E as ([] & w1 & [= Ha <-] & E).
  apply act_bind_ok in E as (u & w1 & Hp & E).
  unfold perform in Hp. destruct (bus _ _); [|done..]. injection Hp as _ <-.
  apply act_bind_ok in E as (u' & w2 & E2 & E).
  unfold on_recording in E2. destruct (record_event _ _ _) as [rr rec]. injection E2 as _ <-.
  injection E as <- <-. exists ev, rec. eexists. split; [done|]. split; [reflexivity|].
  split; [|reflexivity]. unfold decision_admissible, mbind, result_bind in Ha.
  by destruct (decision_validate _) as [[]|?|?].
Qed.

Lemma streamed_publish_outcome sid identity o dd from :
  ok_preserves streamed (publish_outcome sid identity o dd from).
Proof.
  intros w x w' E. apply publish_outcome_ok in E as (ev & rec & d & _ & -> & _ & ->).
  eapply streamed_one; [reflexivity|done|done].
Qed.
End actor.

#[export] Hint Resolve streamed_recording streamed_resolved streamed_engine
  streamed_publish_event_at streamed_publish_outcome : actor.
#[export] Hint Extern 1 (preserves streamed (act_modify _)) =>
  apply streamed_modify; intros []; done : actor.
#[export] Hint Extern 1 (preserves streamed (perform _)) =>
  apply streamed_perform; reflexivity : actor.

Section handlers.
Context {FL : F32Libm} {RE : RecorderEnv} {AE : ActorEnv}.
Variable fuel : nat.

Lemma streamed_publish_event event : ok_preserves streamed (publish_event event).
Proof. unfold publish_event. ok_frame. Qed.

Lemma streamed_publish_events l : ok_preserves streamed (publish_events l).
Proof. induction l as [|[[? ?] ?] l IH]; cbn [publish_events]; ok_frame. Qed.

Lemma streamed_tick_hash now ts : ok_preserves streamed (publish_tick_hash_if_due now ts).
Proof. unfold publish_tick_hash_if_due. ok_frame. Qed.

Lemma streamed_checkpoint now_ms token : ok_preserves streamed (checkpoint now_ms token).
Proof. unfold checkpoint. ok_frame. Qed.

Lemma streamed_fresh_snapshot now_ms token :
  ok_preserves streamed (publish_fresh_snapshot now_ms token).
Proof.
  unfold publish_fresh_snapshot. ok_frame; [apply streamed_checkpoint|apply streamed_publish_event].
Qed.

Lemma streamed_gate now_ms token :
  ok_preserves streamed (resolve_readiness_gate_if_due now_ms token).
Proof.
  unfold resolve_readiness_gate_if_due, pre_match, record_now. ok_frame;
    first [apply streamed_checkpoint|apply streamed_publish_event].
Qed.

Lemma streamed_confirmation u now_ms token :
  ok_preserves streamed (apply_readiness_confirmation u now_ms token).
Proof.
  unfold apply_readiness_confirmation, record_readiness_transition, pre_match, record_now. ok_frame;
    first [apply streamed_gate|apply streamed_publish_event].
Qed.

Lemma streamed_cleanup users now : preserves streamed (cleanup_users users now).
Proof.
  induction users as [|u users IH]; cbn [cleanup_users]; [frame|]. intros w r w'.
  pose proof (streamed_perform (Fx_IdleCleanup (ac_game_id w.1) u) eq_refl w) as Hp.
  destruct (perform _ w) as [[[[]|e|e] w1]|] eqn:E; [|intros [= <- <-]..|done].
  - intros E2. specialize (IH _ _ _ E2). etrans; [by eapply Hp|]. etrans; [|exact IH].
    apply (streamed_same _ _ []); cbn; [by rewrite app_nil_r|done|done].
  - etrans; [by eapply Hp|]. apply (streamed_same _ _ []); cbn; [by rewrite app_nil_r|done|done].
  - by eapply Hp.
Qed.

Lemma streamed_cleanup_idle now : preserves streamed (cleanup_idle_player_matchmaking now).
Proof. unfold cleanup_idle_player_matchmaking. frame. apply streamed_cleanup. Qed.

Lemma streamed_commit now_ms token :
  preserves streamed (commit_completion_until_handoff now_ms token).
Proof.
  unfold commit_completion_until_handoff, commit_completion, materialize_pending. frame.
Qed.

Lemma streamed_advance now_ms now token :
  ok_preserves streamed (advance_live fuel now_ms now token).
Proof.
  unfold advance_live. ok_frame;
    first [apply streamed_gate|apply streamed_checkpoint|apply streamed_publish_events
          |apply streamed_tick_hash|apply ok_preserves_all, streamed_cleanup_idle
          |apply ok_preserves_all, streamed_commit].
Qed.

Lemma streamed_requested_snapshot now_ms token :
  ok_preserves streamed (checkpoint_and_publish_requested_snapshot now_ms token).
Proof.
  unfold checkpoint_and_publish_requested_snapshot. ok_frame;
    first [apply streamed_checkpoint|apply streamed_publish_event].
Qed.

Lemma streamed_settle sid b now_ms token :
  ok_preserves streamed (settle_delivery sid b now_ms token).
Proof. unfold settle_delivery. ok_frame. apply streamed_fresh_snapshot. Qed.

Lemma streamed_decide identity m : preserves streamed (decide_command identity m).
Proof.
  unfold decide_command. frame. intros w r w'. unfold process_submitted.
  destruct (process_command _ _) as [[] ?]; intros [= <- <-];
    (apply (streamed_same _ _ []); cbn; [by rewrite app_nil_r|done|done]).
Qed.

Lemma streamed_catch_up sid : preserves streamed (catch_up_to_submission fuel sid).
Proof. unfold catch_up_to_submission. frame. Qed.

Lemma streamed_v2 sid identity m :
  ok_preserves streamed (incorporate_v2_command fuel sid identity m None).
Proof.
  unfold incorporate_v2_command, publish_outcome_if_live. ok_frame.
  unfold incorporate_fresh_command, publish_outcome_if_live. ok_frame;
    first [apply ok_preserves_all, streamed_decide|apply ok_preserves_all, streamed_catch_up].
Qed.

Lemma streamed_incorporate d now_ms token :
  dl_decision d = None -> ok_preserves streamed (incorporate fuel d now_ms token).
Proof.
  intros Hn. unfold incorporate. rewrite Hn. unfold no_decision, incorporate_after_completion.
  ok_frame; first [apply streamed_settle|apply streamed_v2|apply streamed_confirmation].
Qed.
End handlers.

(** ** Committed states *)

Section states.
Context {FL : F32Libm}.

(** Quanta alone lead from one state to the other. *)
Definition reaches (st st' : GameState) : Prop :=
  exists n, replay_ticks n st (gs_tick st') = Some (Ok tt, st').

Lemma replay_stop n st : replay_ticks n st (gs_tick st) = Some (Ok tt, st).
Proof. destruct n; cbn; unfold current_tick; by rewrite Z.ltb_irrefl. Qed.

Lemma reaches_refl st : reaches st st.
Proof. exists 0%nat. apply replay_stop. Qed.

Lemma replay_more n m st t x : replay_ticks n st t = Some x -> replay_ticks (n + m) st t = Some x.
Proof.
  revert st. induction n as [|n IH]; intros st; cbn [replay_ticks Nat.add].
  - destruct m; cbn; by repeat case_match.
  - destruct (_ <? _); [|done]. destruct (is_complete st); [done|].
    destruct (tick_forward false st) as [[[ev|e|e] st1] obs]; [apply IH|done..].
Qed.

Lemma replay_trans n m st st1 t x :
  replay_ticks n st (gs_tick st1) = Some (Ok tt, st1) -> gs_tick st1 <= t ->
  replay_ticks m st1 t = Some x -> replay_ticks (n + m) st t = Some x.
Proof.
  intros E1 Ht E2. revert st E1. induction n as [|n IH]; intros st; cbn [replay_ticks Nat.add];
    unfold current_tick; destruct (Z.ltb_spec (gs_tick st) (gs_tick st1)) as [Hlt|Hge].
  - by destruct (is_complete st).
  - by intros [= ->].
  - rewrite (proj2 (Z.ltb_lt _ _)) by lia. destruct (is_complete st); [done|].
    destruct (tick_forward false st) as [[[ev|e|e] s] obs]; [apply IH|done..].
  - intros [= ->]. change (replay_ticks (S n + m) st1 t = Some x). rewrite Nat.add_comm.
    by apply replay_more.
Qed.

Lemma replay_ok_tick n st t st' : replay_ticks n st t = Some (Ok tt, st') -> t <= gs_tick st'.
Proof.
  revert st. induction n as [|n IH]; intros st; cbn [replay_ticks]; unfold current_tick;
    destruct (Z.ltb_spec (gs_tick st) t) as [Hlt|Hge]; try (by intros [= <-]);
    destruct (is_complete st); try done.
  destruct (tick_forward false st) as [[[ev|e|e] s] obs]; [apply IH|done..].
Qed.

Lemma reaches_tick st st' : reaches st st' -> gs_tick st <= gs_tick st'.
Proof.
  intros [n E]. destruct n as [|n]; cbn [replay_ticks] in E; unfold current_tick in E;
    destruct (Z.ltb_spec (gs_tick st) (gs_tick st')); try lia; injection E as ->; lia.
Qed.

Lemma reaches_trans st st1 st2 : reaches st st1 -> reaches st1 st2 -> reaches st st2.
Proof.
  intros [n En] H12. pose proof (reaches_tick _ _ H12) as Ht. destruct H12 as [m Em].
  exists (n + m)%nat. by eapply replay_trans.
Qed.

(** The authoritative loop only runs quanta. *)
Lemma run_committed_reaches n st t out obs out' st' obs' :
  life_ok st -> 0 <= gs_tick st -> t < u32_max ->
  run_committed n st t out obs = Some (Ok out', st', obs') ->
  replay_ticks n st (gs_tick st') = Some (Ok tt, st') /\ life_ok st' /\ gs_tick st <= gs_tick st'
  /\ epoch_fields st' = epoch_fields st /\ skeleton st' = skeleton st.
Proof.
  intros L H0 Hu. revert st out obs L H0. induction n as [|n IH]; intros st out obs L H0;
    cbn [run_committed]; unfold current_tick.
  - case_match; [done|]. intros [= <- <- <-]. by rewrite replay_stop.
  - destruct (is_complete st) eqn:Ec; cbn [negb andb];
      [intros [= <- <- <-]; by rewrite replay_stop|].
    destruct (Z.ltb_spec (gs_tick st) t) as [Hlt|_];
      [|intros [= <- <- <-]; by rewrite replay_stop].
    destruct (life_tick false st L Ec H0 ltac:(lia)) as (ev & st1 & seen & E1 & L1 & Et & Ek & Ee).
    rewrite E1. intros E. destruct (IH st1 _ _ L1 ltac:(lia) E) as (R & L' & Ht & Ee' & Ek').
    split; [|split; [done|split; [lia|split; congruence]]].
    cbn [replay_ticks]. unfold current_tick. rewrite (proj2 (Z.ltb_lt _ _)), Ec, E1 by lia. done.
Qed.

(** From a state that reaches another, the loop passes through it. *)
Lemma run_committed_through n m st st1 t out obs out1 obs1 out' st' obs' :
  replay_ticks n st (gs_tick st1) = Some (Ok tt, st1) -> gs_tick st1 <= t ->
  run_committed m st1 t out1 obs1 = Some (Ok out', st', obs') ->
  exists k out2 obs2, run_committed k st t out obs = Some (Ok out2, st', obs2).
Proof.
  intros E1 Ht E2. revert st out obs E1. induction n as [|n IH]; intros st out obs;
    cbn [replay_ticks]; unfold current_tick;
    (destruct (Z.ltb_spec (gs_tick st) (gs_tick st1)) as [Hlt|Hge];
     [destruct (is_complete st) eqn:Ec; [done|]|]).
  2,4: intros [= ->]; exists m; clear - E2; revert st1 out obs out1 obs1 E2;
    induction m as [|m IH]; intros st1 out obs out1 obs1; cbn [run_committed];
    (case_match; [|intros [= <- <- <-]; eauto]); try done;
    destruct (tick_forward false st1) as [[[ev|e|e] s] seen]; [apply IH|done..].
  - done.
  - destruct (tick_forward false st) as [[[ev|e|e] s] seen] eqn:Es; [|done..]. intros E.
    destruct (IH s (out ++ (label (gs_tick s) <$> ev)) (obs ++ seen) E) as (k & out2 & obs2 & Ek).
    exists (S k), out2, obs2. cbn [run_committed]. unfold current_tick.
    rewrite Ec, (proj2 (Z.ltb_lt _ _)), Es by lia. done.
Qed.
End states.

(** ** The fences of a ledger are named *)

Definition fence_named (s : SessionCommandOutcomes) : Prop :=
  match rejection_fence s with Some f => fence_reason f <> EmptyString | None => True end.

Definition fences_named (r : ResolvedCommandState) : Prop := map_Forall (fun _ => fence_named) r.

Lemma named_install r c from reason x r' :
  fences_named r -> reason <> EmptyString ->
  install_rejection_fence r c from reason = (x, r') -> fences_named r'.
Proof.
  intros F Hne. unfold install_rejection_fence.
  destruct (validate_client_command_identity c) as [u|e|e]; [|by intros [= <- <-]..].
  destruct (_ || _); [by intros [= <- <-]|].
  destruct (r !! session_key c) as [s|] eqn:Es; [|by intros [= <- <-]].
  destruct (session_install_fence s from reason) as [y s'] eqn:Ei. intros [= <- <-].
  apply map_Forall_insert_2; [|done]. pose proof (F _ _ Es) as Fs. revert Ei Fs.
  unfold session_install_fence, fence_named.
  destruct (fence_validate _) as [u'|e|e]; [|by intros [= <- <-]..].
  destruct (rejection_fence s) as [f|] eqn:Ef; [|by intros [= <- <-]].
  case_bool_decide; intros [= <- <-]; cbn; [done|by rewrite Ef].
Qed.

Lemma session_record_fence s n o max :
  rejection_fence (session_record s n o max).2 = rejection_fence s.
Proof.
  unfold session_record. destruct (n =? 0); [done|]. destruct (max =? 0); [done|].
  destruct (outcomes s !! n); [by case_bool_decide|].
  destruct (session_can_record s n max); [|done..].
  destruct (prune_outcomes _ _ _ _) as [[]]; done.
Qed.

Lemma named_record r c o max x r' :
  fences_named r -> resolved_record r c o max = (x, r') -> fences_named r'.
Proof.
  intros F. unfold resolved_record.
  destruct (can_record r c max) as [u|e|e]; [|by intros [= <- <-]..].
  destruct (session_record _ _ _ _) as [y s'] eqn:Er. intros [= <- <-].
  apply map_Forall_insert_2; [|done].
  apply (f_equal (fun p => rejection_fence p.2)) in Er. rewrite session_record_fence in Er.
  unfold fence_named. cbn in Er. rewrite <-Er.
  destruct (r !! session_key c) as [s|] eqn:Es; [by apply (F _ _ Es)|done].
Qed.

(** Installing a fence a second time changes nothing. *)
Lemma install_again r c s f :
  fences_named r -> validate_client_command_identity c = Ok tt ->
  r !! session_key c = Some s -> rejection_fence s = Some f ->
  from_sequence f <> 0 -> from_sequence f <= ci_sequence c ->
  install_rejection_fence r c (from_sequence f) (fence_reason f) = (Ok f, r).
Proof.
  intros F Hv Es Ef H0 Hle. unfold install_rejection_fence. rewrite Hv.
  rewrite (proj2 (Z.eqb_neq _ _) H0), (proj2 (Z.ltb_ge _ _) Hle). cbn [orb]. rewrite Es.
  pose proof (F _ _ Es) as Fs. unfold fence_named in Fs. rewrite Ef in Fs.
  unfold session_install_fence, fence_validate, ensure. cbn.
  rewrite (proj2 (Z.eqb_neq _ _) H0), bool_decide_false by done. cbn.
  rewrite Ef, bool_decide_true by done. rewrite Z.min_id. destruct f as [from reason]. cbn in *.
  f_equal. destruct s as [t os fo]. cbn in *. subst fo. by apply insert_id.
Qed.

(** ** Incorporating a journaled decision *)

Section actor.
Context {FL : F32Libm} {RE : RecorderEnv} {AE : ActorEnv}.

(** What a journaled outcome does to the engine and the ledger. *)
Inductive replays (k : nat) (d : CommandDecisionV1) (c : ClientCommandIdentityV2)
    (o : CommandOutcome) (max : Z) (e : GameEngine) (r : ResolvedCommandState)
  : GameEngine -> ResolvedCommandState -> Prop :=
| replays_known : resolved_get r c = Some o -> replays k d c o max e r e r
| replays_fenced f : resolved_get r c = None -> rejection_fence_for r c = Some f ->
    rejection_reason o = Some (fence_reason f) -> replays k d c o max e r e r
| replays_fresh e' r' : resolved_get r c = None -> rejection_fence_for r c = None ->
    is_terminally_resolved r c = false -> can_record r c max = Ok tt ->
    match o with
    | CO_Scheduled cmd =>
        replay_scheduled_command k e cmd (em_tick (cd_event d)) = Some (Ok tt, e')
    | CO_Rejected _ _ => e' = e
    end ->
    resolved_record r c o max = (Ok o, r') -> replays k d c o max e r e' r'.

(** The ledger after the fence of the decision. *)
Definition fence_replays (d : CommandDecisionV1) (c : ClientCommandIdentityV2)
    (o : CommandOutcome) (r r' : ResolvedCommandState) : Prop :=
  match decision_fence d with
  | Some (from, reason) => rejection_reason o = Some reason
      /\ exists f, install_rejection_fence r c from reason = (Ok f, r')
  | None => r' = r
  end.

Lemma replay_decision_ok k d c o b log r1 e2 r2 rec :
  decision_validate d = Ok tt -> identity_and_outcome d = Ok (c, o) ->
  ac_next_event_stream_sequence b < em_stream_seq (cd_event d) ->
  fence_replays d c o (ac_resolved b) r1 ->
  replays k d c o (max_outcomes b) (ac_engine b) r1 e2 r2 ->
  command_counter e2 = cd_next_server_command_sequence d ->
  record_event (ac_replay_recording b) (em_tick (cd_event d)) (em_event (cd_event d))
    = (Ok tt, rec) ->
  incorporate_recorded_decision k c d (b, log)
  = Some (Ok V2_Incorporated,
          (set_stream_sequence (em_stream_seq (cd_event d))
             (set_recording rec (set_resolved r2 (set_engine e2 b))), log)).
Proof.
  intros Hv Ho Hs Hf Hr Hc Hrec. unfold incorporate_recorded_decision, act_lift, act_get.
  unfold mbind, act_bind. rewrite Hv, Ho, bool_decide_true by done. cbn [negb fst snd].
  rewrite (proj2 (Z.leb_gt _ _) Hs). unfold fence_replays in Hf.
  assert (Efence : (match decision_fence d with
    | Some (from, reason) =>
        if negb (bool_decide (rejection_reason o = Some reason))
        then act_fail "command-session rejection fence has a non-rejection outcome"
        else _ ← on_resolved (fun r => install_rejection_fence r c from reason); act_done
    | None => act_done
    end) (b, log) = Some (Ok tt, (set_resolved r1 b, log))).
  { destruct (decision_fence d) as [[from reason]|].
    - destruct Hf as [Hr1 [f Hi]]. rewrite bool_decide_true by done. cbn [negb].
      unfold mbind, act_bind, on_resolved. cbn. by rewrite Hi.
    - subst r1. by destruct b. }
  unfold mbind, act_bind in Efence. rewrite Efence. clear Efence Hf.
  destruct b. cbn in *. destruct Hr as [Hg|f Hg Hff Hrr|e2 r2 Hg Hff Ht Hcan He Hrr].
  - cbn. rewrite Hg, bool_decide_true by done. cbn. rewrite Hc, Z.eqb_refl. cbn.
    unfold on_recording. cbn. by rewrite Hrec.
  - cbn. rewrite Hg, Hff, bool_decide_true by done. cbn. rewrite Hc, Z.eqb_refl. cbn.
    unfold on_recording. cbn. by rewrite Hrec.
  - cbn. rewrite Hg, Hff, Ht. unfold max_outcomes in *. cbn in *. rewrite Hcan.
    destruct o as [cmd|reason id].
    + unfold on_engine. cbn. rewrite He. unfold on_resolved. cbn. rewrite Hrr. cbn.
      rewrite Hc, Z.eqb_refl. cbn. unfold on_recording. cbn. by rewrite Hrec.
    + subst e2. unfold on_resolved. cbn. rewrite Hrr. cbn.
      rewrite Hc, Z.eqb_refl. cbn. unfold on_recording. cbn. by rewrite Hrec.
Qed.
End actor.

(** ** The relation between the actors *)

Section follow.
Context {FL : F32Libm} {RE : RecorderEnv} {AE : ActorEnv}.

Record follows (a b : GameActor) : Prop := mkFollows {
  fo_game : ac_game_id b = ac_game_id a;
  fo_max : max_outcomes b = max_outcomes a;
  fo_resolved : ac_resolved b = ac_resolved a;
  fo_counter : command_counter (ac_engine b) = command_counter (ac_engine a);
  fo_cursor : ac_command_cursor b = ac_command_cursor a;
  fo_reaches : reaches (ac_state b) (ac_state a);
  fo_seq : ac_next_event_stream_sequence b <= ac_next_event_stream_sequence a;
  fo_live : ac_live b = false
}.

Record incumbent_ok (a : GameActor) : Prop := mkIncumbentOk {
  io_life : life_ok (ac_state a);
  io_tick : 0 <= gs_tick (ac_state a);
  io_named : fences_named (ac_resolved a)
}.

(** The successor can take over an outcome that led the incumbent to the
    engine [e1] and the ledger [r1]. *)
Definition replayable (a : GameActor) (e1 : GameEngine) (r1 : ResolvedCommandState)
    (c : ClientCommandIdentityV2) (o : CommandOutcome) (dd : bool) (from : option Z) : Prop :=
  forall b d, follows a b -> decision_validate d = Ok tt ->
  outcome_event c o dd from = Ok (em_event (cd_event d)) ->
  em_tick (cd_event d) = gs_tick (committed_state e1) ->
  exists r' k e2, fence_replays d c o (ac_resolved b) r'
    /\ (forall j, replays (k + j) d c o (max_outcomes b) (ac_engine b) r' e2 r1)
    /\ command_counter e2 = command_counter e1
    /\ reaches (committed_state e2) (committed_state e1).

Lemma no_fence d c o dd :
  outcome_event c o dd None = Ok (em_event (cd_event d)) -> decision_fence d = None.
Proof. unfold outcome_event, decision_fence. destruct o; intros [= <-]; done. Qed.

Lemma replayable_known a c o :
  resolved_get (ac_resolved a) c = Some o ->
  replayable a (ac_engine a) (ac_resolved a) c o true None.
Proof.
  intros Hg b d F Hv Ho Ht. exists (ac_resolved b), 0%nat, (ac_engine b).
  unfold fence_replays. rewrite (no_fence _ _ _ _ Ho). split; [done|].
  split; [|split; [apply F|apply F]]. intros j. rewrite (fo_resolved _ _ F) in *.
  by apply replays_known.
Qed.

(** The fence of a valid decision covers its command. *)
Lemma decision_fence_valid d c reason id from :
  decision_validate d = Ok tt -> em_event (cd_event d) = Ev_CommandRejected c reason id (Some from) ->
  validate_client_command_identity c = Ok tt /\ from <> 0 /\ from <= ci_sequence c.
Proof.
  intros Hv Ee. unfold decision_validate, identity_and_outcome in Hv. rewrite Ee in Hv.
  apply ensure_bind_ok in Hv as [_ Hv]. cbn in Hv.
  destruct (validate_stream_id _) as [p|x|x]; cbn in Hv; [|done..].
  apply ensure_bind_ok in Hv as [_ Hv]. cbn in Hv.
  destruct (validate_client_command_identity c) as [[]|x|x]; cbn in Hv; [|done..].
  apply ensure_bind_ok in Hv as [_ Hv].
  unfold ensure in Hv. destruct (Z.eqb_spec from 0), (Z.ltb_spec (ci_sequence c) from);
    cbn in Hv; done.
Qed.

Lemma replayable_fenced a c f id :
  incumbent_ok a -> resolved_get (ac_resolved a) c = None ->
  rejection_fence_for (ac_resolved a) c = Some f ->
  replayable a (ac_engine a) (ac_resolved a) c (CO_Rejected (fence_reason f) id) true
    (Some (from_sequence f)).
Proof.
  intros I Hg Hf b d F Hv [= Ee] Ht. exists (ac_resolved a), 0%nat, (ac_engine b).
  unfold fence_replays, decision_fence. rewrite <-Ee.
  destruct (decision_fence_valid _ _ _ _ _ Hv (eq_sym Ee)) as (Hc & H0 & Hle).
  split; [|split; [|split; apply F]].
  - split; [done|]. exists f. rewrite (fo_resolved _ _ F).
    unfold rejection_fence_for in Hf. destruct (ac_resolved a !! session_key c) as [s|] eqn:Es; [|done].
    eapply install_again; [apply I|done|done| |done|done].
    unfold session_fence_for in Hf. destruct (_ || _); [done|].
    destruct (rejection_fence s) as [f'|]; [|done]. destruct (covers f' _); congruence.
  - intros j. by eapply replays_fenced.
Qed.

(** A fence installed for a command that was not resolved starts at it. *)
Lemma installed_fence r c reason f r' :
  0 < ci_sequence c -> is_terminally_resolved r c = false ->
  install_rejection_fence r c (ci_sequence c) reason = (Ok f, r') ->
  resolved_get r' c = None /\ rejection_fence_for r' c = Some f
  /\ f = mkFence (ci_sequence c) reason.
Proof.
  intros H0 Ht. unfold install_rejection_fence.
  destruct (validate_client_command_identity c) as [[]|x|x]; [|done..].
  destruct (_ || _) eqn:E0; [done|]. clear E0.
  unfold resolved_get, is_terminally_resolved, rejection_fence_for, session_get,
    session_resolved, session_fence_for, fenced, has_outcome in *.
  destruct (r !! session_key c) as [s|] eqn:Es; [|done].
  destruct (session_install_fence s (ci_sequence c) reason) as [y s'] eqn:Ei.
  intros [= -> <-]. rewrite lookup_insert_eq.
  rewrite (proj2 (Z.ltb_lt _ _) H0) in Ht. cbn [andb] in Ht.
  apply orb_false_iff in Ht as [[Hc Ho]%orb_false_iff Hf].
  assert (Hf' : f = mkFence (ci_sequence c) reason
                /\ s' = mkSession (contiguous_through s) (outcomes s) (Some f)).
  { unfold session_install_fence in Ei. destruct (fence_validate _); [|done..].
    destruct (rejection_fence s) as [g|]; [|by injection Ei as <- <-].
    case_bool_decide as Er; [|done]. injection Ei as <- <-. cbn in Er |- *. subst reason.
    apply Z.leb_gt in Hf. split; [|done]. f_equal. lia. }
  destruct Hf' as [-> ->]. cbn. apply bool_decide_eq_false in Ho.
  rewrite Hc, (bool_decide_false _ Ho), (proj2 (Z.eqb_neq _ _)) by lia. cbn.
  split; [by apply eq_None_not_Some|]. split; [|done].
  unfold covers. cbn. by rewrite Z.leb_refl.
Qed.

Lemma replayable_window a c f id r' reason :
  0 < ci_sequence c -> is_terminally_resolved (ac_resolved a) c = false ->
  install_rejection_fence (ac_resolved a) c (ci_sequence c) reason = (Ok f, r') ->
  replayable a (ac_engine a) r' c (CO_Rejected (fence_reason f) id) false
    (Some (from_sequence f)).
Proof.
  intros H0 Ht Hi b d F Hv [= Ee] Htick. exists r', 0%nat, (ac_engine b).
  destruct (installed_fence _ _ _ _ _ H0 Ht Hi) as (Hg & Hf & ->). cbn in *.
  unfold fence_replays, decision_fence. rewrite <-Ee, (fo_resolved _ _ F).
  split; [by eauto|]. split; [|split; apply F]. intros j. by eapply replays_fenced.
Qed.

Lemma unresolved_get r c :
  0 < ci_sequence c -> is_terminally_resolved r c = false ->
  resolved_get r c = None /\ rejection_fence_for r c = None.
Proof.
  intros H0. unfold resolved_get, is_terminally_resolved, rejection_fence_for, session_get,
    session_resolved, session_fence_for, fenced, has_outcome.
  destruct (r !! session_key c) as [s|]; [|done]. rewrite (proj2 (Z.ltb_lt _ _) H0). cbn [andb].
  intros [[Hc Ho]%orb_false_iff Hf]%orb_false_iff. apply bool_decide_eq_false in Ho.
  split; [by apply eq_None_not_Some|]. destruct (_ || _); [done|].
  destruct (rejection_fence s) as [f|]; [|done]. by rewrite Hf.
Qed.

Lemma replayable_rejected a c r' reason id :
  0 < ci_sequence c -> is_terminally_resolved (ac_resolved a) c = false ->
  can_record (ac_resolved a) c (max_outcomes a) = Ok tt ->
  resolved_record (ac_resolved a) c (CO_Rejected reason id) (max_outcomes a)
    = (Ok (CO_Rejected reason id), r') ->
  replayable a (ac_engine a) r' c (CO_Rejected reason id) false None.
Proof.
  intros H0 Ht Hc Hr b d F Hv Ho Htick. exists (ac_resolved b), 0%nat, (ac_engine b).
  destruct (unresolved_get _ _ H0 Ht) as [Hg Hf].
  unfold fence_replays. rewrite (no_fence _ _ _ _ Ho). split; [done|].
  split; [|split; apply F]. intros j. rewrite (fo_resolved _ _ F), (fo_max _ _ F).
  by apply replays_fresh.
Qed.

Lemma replayable_scheduled a c r' m cmd e1 :
  0 < ci_sequence c -> is_terminally_resolved (ac_resolved a) c = false ->
  can_record (ac_resolved a) c (max_outcomes a) = Ok tt ->
  0 <= command_counter (ac_engine a) < u32_max ->
  process_command (ac_engine a) m = (Ok cmd, e1) ->
  resolved_record (ac_resolved a) c (CO_Scheduled cmd) (max_outcomes a)
    = (Ok (CO_Scheduled cmd), r') ->
  replayable a e1 r' c (CO_Scheduled cmd) false None.
Proof.
  intros H0 Ht Hc Hcnt Hp Hr b d F Hv Ho Htick.
  destruct (unresolved_get _ _ H0 Ht) as [Hg Hf]. destruct (fo_reaches _ _ F) as [k Hk].
  pose proof (reaches_tick _ _ (fo_reaches _ _ F)) as Hle.
  unfold process_command in Hp. injection Hp as <- <-.
  assert (Htick' : em_tick (cd_event d) = gs_tick (ac_state a)).
  { rewrite Htick. cbn. apply schedule_tick. }
  exists (ac_resolved b), k. eexists.
  unfold fence_replays. rewrite (no_fence _ _ _ _ Ho). split; [done|]. split.
  - intros j. rewrite (fo_resolved _ _ F), (fo_max _ _ F). apply replays_fresh; try done.
    unfold replay_scheduled_command. rewrite Htick'. erewrite check_replay_ok;
      [|reflexivity|cbn; by rewrite (fo_counter _ _ F)|reflexivity|].
    2:{ cbn. unfold current_tick, ac_state in *. lia. }
    change (committed_state (ac_engine b)) with (ac_state b). rewrite (replay_more _ _ _ _ _ Hk).
    unfold checked_add_u32. cbn [command_counter with_predicted with_committed].
    rewrite (fo_counter _ _ F), (proj2 (Z.leb_le _ _)) by lia. reflexivity.
  - cbn. split; [|apply reaches_refl]. by rewrite wrap_u32_id by (unfold is_u32; lia).
Qed.
End follow.
