(* ===== verification/Failover.v ===== *)
(** * Runs of an incumbent and their recovery

    The steps of an incumbent, each matched by the successor: an advance needs
    no answer, a decided delivery is answered by the redelivery with its
    journaled decision. [incumbent_run] composes them, and the successor ends
    where the incumbent is. *)

From Stdlib Require Import ZArith.
From stdpp Require Import prelude strings countable list gmap.
From S2P Require Import Prelude RustFloat Util Snake Arena CommandQueue GameState GameSetup.
From S2P Require Import Events Validate Tick StateInvariant Validity MatchLife EventOrder.
From S2P Require Import Fingerprint Engine EngineFacts StreamId CommandLedger Recording Journal.
From S2P Require Import JournalFacts Recovery LedgerFacts Actor DecisionFacts.
From S2P Require Import FailoverFacts.
Open Scope Z_scope.

(** ** The recorder of the successor *)

(** Sequence numbers and cursors for [n] more entries. *)
Definition recorder_room (r : ReplayRecordingState) (n : Z) : Prop :=
  rr_next_sequence r + n <= u64_max /\ rr_journal_cursor r + n <= u64_max.

Definition serializer_total `{RecorderEnv} : Prop := forall e, is_Some (json_len e).

Lemma record_event_room `{RecorderEnv} r n t ev :
  serializer_total -> recorder_room r (n + 1) -> 0 <= n ->
  exists r', record_event r t ev = (Ok tt, r') /\ recorder_room r' n.
Proof.
  intros Hj [Hs Hc] Hn. unfold record_event. destruct (_ || _).
  { exists r. split; [done|]. split; lia. }
  unfold checked_add_u64. rewrite (proj2 (Z.leb_le _ _)) by lia.
  unfold append_journal, checked_add_u64. cbn [rr_journal_cursor].
  rewrite (proj2 (Z.leb_le _ _)) by lia. destruct (Hj (JE_Message (mkRecorded t (rr_next_sequence r) ev))) as [len El].
  edestruct push_spec as (r' & -> & Ha & _); [unfold encoded_len; by rewrite El|].
  exists r'. split; [done|]. unfold archive_view in Ha. cbn in Ha.
  injection Ha as _ _ _ E1 E2 _. split; [rewrite E1|rewrite E2]; lia.
Qed.

Lemma resolved_record_ok r c o max o' r' :
  resolved_record r c o max = (Ok o', r') -> o' = o.
Proof.
  unfold resolved_record, session_record. destruct (can_record _ _ _); [|done..].
  repeat (case_match; simplify_eq; try done); intros [= <- _]; simplify_eq; try done;
    by case_bool_decide.
Qed.

Section steps.
Context {FL : F32Libm} {RE : RecorderEnv} {AE : ActorEnv}.
Variable fuel : nat.

(** ** The incumbent advances *)

Definition lagged_target (e : GameEngine) (epoch ts : Z) : Z :=
  sat_sub (wallclock_target e epoch ts)
    (committed_state_lag_ms e / gs_tick_duration_ms (committed_state e)).

(** The match is asked to run for fewer than [u32::MAX] quanta. *)
Definition in_time (e : GameEngine) (ts : Z) : Prop :=
  forall epoch, simulation_start_ms (committed_state e) = Some epoch ->
  lagged_target e epoch ts < u32_max.

Lemma rebuild_keeps n e ts r e' :
  rebuild_predicted_state n e ts = Some (r, e') ->
  committed_state e' = committed_state e /\ command_counter e' = command_counter e.
Proof.
  unfold rebuild_predicted_state.
  destruct (_ <? 0); [destruct (prediction_needs_rebuild e); by intros [= _ <-]|].
  destruct (_ =? 0); [by intros [= _ <-]|].
  destruct (is_complete _); [by intros [= _ <-]|]. destruct (_ || _); [|by intros [= _ <-]].
  destruct (run_state _ _ _ _) as [[[]]|]; [..|done]; by intros [= _ <-].
Qed.

Lemma predicted_keeps n e t r e' :
  run_predicted n e t = Some (r, e') ->
  committed_state e' = committed_state e /\ command_counter e' = command_counter e.
Proof.
  unfold run_predicted. destruct (predicted_state e); [|by intros [= _ <-]].
  destruct (run_state _ _ _ _) as [[]|]; [|done]. by intros [= _ <-].
Qed.

Lemma run_until_reaches e ts out e' obs :
  life_ok (committed_state e) -> 0 <= gs_tick (committed_state e) -> in_time e ts ->
  run_until_observing_boost fuel e ts = Some (Ok out, e', obs) ->
  reaches (committed_state e) (committed_state e') /\ life_ok (committed_state e')
  /\ gs_tick (committed_state e) <= gs_tick (committed_state e')
  /\ command_counter e' = command_counter e.
Proof.
  intros L H0 Ht. unfold run_until_observing_boost.
  destruct (simulation_start_ms _) as [epoch|] eqn:Ee;
    [|intros [= _ <- _]; split; [apply reaches_refl|done]].
  destruct (_ <? 0); [intros [= _ <- _]; split; [apply reaches_refl|done]|].
  destruct (_ =? 0); [done|].
  destruct (run_committed _ _ _ _ _) as [[[[out'|x|x] st] ob]|] eqn:Er; [|done..].
  apply run_committed_reaches in Er as (R & L' & Hle & _ & _); [|done|done|by apply Ht].
  set (e1 := with_committed st e).
  destruct (if prediction_needs_rebuild e1 then rebuild_predicted_state fuel e1 ts
            else Some (Ok tt, e1)) as [[[u|x|x] e2]|] eqn:Eb; [|done..].
  assert (K2 : committed_state e2 = st /\ command_counter e2 = command_counter e).
  { destruct (prediction_needs_rebuild e1); [by apply rebuild_keeps in Eb|]. by injection Eb as _ <-. }
  destruct (run_predicted _ _ _) as [[[u'|x|x] e3]|] eqn:Ep; [|done..]. intros [= _ <- _].
  apply predicted_keeps in Ep as [Ec3 Ek3]. destruct K2 as [Ec2 Ek2].
  rewrite Ec3, Ec2, Ek3, Ek2. split; [by exists fuel|done].
Qed.

(** After the engine, an advance only publishes. *)
Lemma advance_split now_ms now token w x w' :
  is_awaiting_readiness (ac_state w.1) = false ->
  advance_live fuel now_ms now token w = Some (Ok x, w') ->
  exists events e obs, run_until_observing_boost fuel (ac_engine w.1) now_ms
    = Some (Ok events, e, obs) /\ quiet (set_engine e w.1, w.2) w'.
Proof.
  intros Ha E. unfold advance_live in E.
  apply act_bind_ok in E as (a & w1 & [= <- <-] & E). rewrite Ha in E.
  apply act_bind_ok in E as ([] & w1 & [= <-] & E).
  apply act_bind_ok in E as (before & w1 & [= <- <-] & E).
  apply act_bind_ok in E as (events & w1 & E1 & E). unfold on_engine in E1.
  destruct (run_until_observing_boost _ _ _) as [[[r e] obs]|] eqn:Er; [|done].
  injection E1 as -> <-. exists events, e, obs. split; [done|]. by_frame quiet E. frame.
Qed.

Lemma follows_advance now_ms now token w x w' b :
  incumbent_ok w.1 -> follows w.1 b -> is_awaiting_readiness (ac_state w.1) = false ->
  in_time (ac_engine w.1) now_ms ->
  advance_live fuel now_ms now token w = Some (Ok x, w') ->
  incumbent_ok w'.1 /\ follows w'.1 b /\ no_decisions w w'.
Proof.
  intros [L H0 N] F Ha Ht E. pose proof (streamed_advance _ _ _ _ _ _ _ E) as (l & _ & _ & Hn).
  apply advance_split in E as (events & e & obs & Er & (Ee & Err & Ec & Eg & Ecf) & Hd); [|done].
  apply run_until_reaches in Er as (R & L' & Hle & Ek); [|done..]. cbn in Ee.
  assert (Hs : ac_state w'.1 = committed_state e) by (unfold ac_state; by rewrite Ee).
  split; [|split; [|done]].
  - split; [by rewrite Hs|rewrite Hs; unfold ac_state in *; lia|by rewrite Err].
  - destruct F. split; unfold max_outcomes in *; rewrite ?Err, ?Ec, ?Eg, ?Ecf, ?Ee; cbn;
      try congruence; [|lia].
    rewrite Hs. by eapply reaches_trans.
Qed.

(** ** The incumbent decides *)

(** A command was answered by the decision [d], with the engine [e1] and the
    ledger [r1]. *)
Definition answers (sid : string) (c : ClientCommandIdentityV2) (w w' : World)
    (d : CommandDecisionV1) : Prop :=
  exists o dd from e1 r1 rec,
    outcome_event c o dd from = Ok (em_event (cd_event d))
    /\ d = decision_new sid (command_counter e1)
             (mkGameEventMessage (ac_game_id w.1) (gs_tick (committed_state e1))
                (gs_event_sequence (committed_state e1))
                (ac_next_event_stream_sequence w.1 + 1) None (em_event (cd_event d)))
    /\ decision_validate d = Ok tt
    /\ replayable w.1 e1 r1 c o dd from
    /\ life_ok (committed_state e1)
    /\ gs_tick (committed_state e1) = gs_tick (ac_state w.1)
    /\ fences_named r1
    /\ w' = (set_stream_sequence (ac_next_event_stream_sequence w.1 + 1)
               (set_recording rec (set_resolved r1 (set_engine e1 w.1))),
             w.2 ++ [Fx_Decision d]).

Lemma answers_publish sid c o dd from w e1 r1 x w' :
  replayable w.1 e1 r1 c o dd from -> life_ok (committed_state e1) ->
  gs_tick (committed_state e1) = gs_tick (ac_state w.1) -> fences_named r1 ->
  publish_outcome sid c o dd from (set_resolved r1 (set_engine e1 w.1), w.2)
    = Some (Ok x, w') ->
  exists d, answers sid c w w' d.
Proof.
  intros Hr Hl Ht Hn E. apply publish_outcome_ok in E as (ev & rec & d & Hev & Hd & Hv & ->).
  exists d. exists o, dd, from, e1, r1, rec.
  assert (em_event (cd_event d) = ev) as Ed by by rewrite Hd.
  rewrite Ed. by destruct w as [[]].
Qed.

Lemma same_actor (w : World) :
  w = (set_resolved (ac_resolved w.1) (set_engine (ac_engine w.1) w.1), w.2).
Proof. by destruct w as [[]]. Qed.

Lemma act_live {A} (m n : Act A) w :
  ac_live w.1 = true -> (a ← act_get; if ac_live a then m else n) w = m w.
Proof. intros Hl. unfold act_get, mbind, act_bind. by rewrite Hl. Qed.

Lemma fresh_answers sid c m w r w' :
  ac_live w.1 = true -> 0 < ci_sequence c -> incumbent_ok w.1 ->
  0 <= command_counter (ac_engine w.1) < u32_max ->
  is_terminally_resolved (ac_resolved w.1) c = false ->
  can_record (ac_resolved w.1) c (max_outcomes w.1) = Ok tt ->
  incorporate_fresh_command fuel sid c m w = Some (Ok r, w') ->
  r = V2_Incorporated /\ exists d, answers sid c w w' d.
Proof.
  intros Hl H0 [L Htick N] Hk Ht Hc E. unfold incorporate_fresh_command in E.
  apply act_bind_ok in E as (a & w1 & [= <- <-] & E). rewrite Hl in E.
  apply act_bind_ok in E as (over & w1 & [= <- <-] & E). cbv iota in E.
  apply act_bind_ok in E as (o & w1 & Ed & E). apply act_bind_ok in E as (o' & w2 & Er & E).
  unfold on_resolved in Er. destruct (resolved_record _ _ _ _) as [rr r1] eqn:Err.
  injection Er as -> <-. apply act_bind_ok in E as (u & w3 & Ep & [= <- <-]). split; [done|].
  unfold decide_command in Ed. apply act_bind_ok in Ed as (a & w0 & [= <- <-] & Ed).
  destruct (authorize_game_command _ _ _) as [cmd|reason|x]; [| |done].
  - unfold process_submitted in Ed. destruct (process_command _ _) as [[cmd'|x|x] e1] eqn:Epc;
      [|by unfold process_command in Epc..].
    injection Ed as <- <-. cbn in Err. pose proof (resolved_record_ok _ _ _ _ _ _ Err) as ->.
    unfold publish_outcome_if_live in Ep. rewrite act_live in Ep by done.
    eapply (answers_publish _ _ _ _ _ w e1 r1); [by eapply replayable_scheduled| | | |exact Ep].
    + unfold process_command in Epc. injection Epc as _ <-. cbn.
      eapply life_step; [apply step_schedule|done].
    + unfold process_command in Epc. injection Epc as _ <-. cbn. apply schedule_tick.
    + by eapply named_record.
  - injection Ed as <- <-. pose proof (resolved_record_ok _ _ _ _ _ _ Err) as ->.
    unfold publish_outcome_if_live in Ep. rewrite act_live in Ep by done.
    eapply (answers_publish _ _ _ _ _ w (ac_engine w.1) r1);
      [by eapply replayable_rejected|done|done|by eapply named_record|].
    by destruct w as [[]].
Qed.

(** What the incumbent made of a command: a duplicate whose outcome was pruned,
    a command it quarantines, or an answered command. *)
Lemma v2_answers sid c m w r w' :
  ac_live w.1 = true -> 0 < ci_sequence c -> incumbent_ok w.1 ->
  0 <= command_counter (ac_engine w.1) < u32_max ->
  incorporate_v2_command fuel sid c m None w = Some (Ok r, w') ->
  (r = V2_PrunedDuplicate /\ w' = w /\ resolved_get (ac_resolved w.1) c = None
     /\ rejection_fence_for (ac_resolved w.1) c = None
     /\ is_terminally_resolved (ac_resolved w.1) c = true)
  \/ (exists reason, r = V2_Quarantine reason)
  \/ (r = V2_Incorporated /\ exists d, answers sid c w w' d).
Proof.
  intros Hl H0 I Hk E. pose proof I as [L Htick N]. unfold incorporate_v2_command in E.
  apply act_bind_ok in E as (a & w1 & [= <- <-] & E).
  unfold publish_outcome_if_live in E.
  destruct (resolved_get (ac_resolved w.1) c) as [o|] eqn:Eg.
  { apply act_bind_ok in E as (u & w1 & E & [= <- <-]). rewrite act_live in E by done.
    right; right. split; [done|]. rewrite (same_actor w) in E.
    eapply answers_publish; [by apply replayable_known|done|done|done|exact E]. }
  destruct (rejection_fence_for (ac_resolved w.1) c) as [f|] eqn:Ef.
  { apply act_bind_ok in E as (u & w1 & E & [= <- <-]). rewrite act_live in E by done.
    right; right. split; [done|]. rewrite (same_actor w) in E.
    eapply answers_publish; [by apply replayable_fenced|done|done|done|exact E]. }
  destruct (is_terminally_resolved (ac_resolved w.1) c) eqn:Et.
  { injection E as <- <-. by left. }
  destruct (sparse_window_is_full _ _ _).
  { apply act_bind_ok in E as (f & w1 & Ei & E). unfold on_resolved in Ei.
    destruct (install_rejection_fence _ _ _ _) as [x r1] eqn:Eif. injection Ei as -> <-.
    apply act_bind_ok in E as (u & w2 & E & [= <- <-]). rewrite act_live in E by done.
    right; right. split; [done|].
    eapply (answers_publish _ _ _ _ _ w (ac_engine w.1) r1);
      [by eapply replayable_window|done|done|refine (named_install _ _ _ _ _ _ N _ Eif); by vm_compute|].
    by destruct w as [[]]. }
  destruct (can_record _ _ _) as [[]|x|x] eqn:Ec; [|injection E as <- <-; eauto|done].
  right; right. by eapply fresh_answers.
Qed.

(** ** A delivery on both sides *)

Definition decisions_of (log : list Effect) : list CommandDecisionV1 :=
  omap (fun fx => match fx with Fx_Decision d => Some d | _ => None end) log.

Lemma decisions_quiet l : Forall not_decision l -> decisions_of l = [].
Proof. induction 1 as [|[] l H]; done. Qed.

Lemma decisions_app l1 l2 : decisions_of (l1 ++ l2) = decisions_of l1 ++ decisions_of l2.
Proof. apply omap_app. Qed.

Lemma settle_ok sid pub now_ms token w x w' :
  settle_delivery sid pub now_ms token w = Some (Ok x, w') ->
  ac_engine w'.1 = ac_engine w.1 /\ ac_resolved w'.1 = ac_resolved w.1
  /\ ac_command_cursor w'.1 = sid /\ ac_game_id w'.1 = ac_game_id w.1
  /\ max_outcomes w'.1 = max_outcomes w.1 /\ no_decisions w w'
  /\ ac_next_event_stream_sequence w.1 <= ac_next_event_stream_sequence w'.1.
Proof.
  intros E. pose proof (streamed_settle _ _ _ _ _ _ _ E) as (l & _ & _ & Hn).
  unfold settle_delivery in E. apply act_bind_ok in E as ([] & w1 & [= <-] & E).
  assert (Q : quiet (set_pending (ac_pending_stream_ids w.1 ++ [sid]) (set_cursor sid w.1), w.2) w')
    by (by_frame quiet E; frame).
  destruct Q as [(Ee & Er & Ec & Eg & Ecf) Hd]. cbn in *. unfold max_outcomes.
  rewrite Ecf. split_and!; try done. lia.
Qed.

(** What a live actor does with a command that is not covered. *)
Lemma deliver_split sid g u c m now_ms token w w' :
  is_complete (ac_state w.1) = false -> stream_id_leq sid (ac_command_cursor w.1) = Ok false ->
  incorporate fuel (mkDelivery sid (Payload_Command (SE_GameCommandSubmittedV2 g u c m)) None)
    now_ms token w = Some (Ok DD_Incorporated, w') ->
  g = ac_game_id w.1 /\ ci_game_id c = g /\ ci_user_id c = u
  /\ exists r w1 pub, incorporate_v2_command fuel sid c m None w = Some (Ok r, w1)
     /\ (forall reason, r <> V2_Quarantine reason)
     /\ settle_delivery sid pub now_ms token w1 = Some (Ok DD_Incorporated, w').
Proof.
  intros Hc Hs E. unfold incorporate in E. cbn [dl_stream_id dl_payload dl_decision] in E.
  apply act_bind_ok in E as (a & w1 & [= <- <-] & E).
  apply act_bind_ok in E as (cov & w1 & Ecov & E). unfold act_lift in Ecov. rewrite Hs in Ecov.
  injection Ecov as <- <-. destruct (Z.eqb_spec g (ac_game_id w.1)) as [Eg|]; [|done].
  cbn [negb] in E. destruct (Z.eqb_spec (ci_game_id c) g); [|done]. cbn [negb orb] in E.
  destruct (Z.eqb_spec (ci_user_id c) u); [|done]. cbn [negb] in E.
  apply act_bind_ok in E as (rec & w1 & [= <- <-] & E). rewrite Hc in E.
  apply act_bind_ok in E as (r & w1 & Er & E). split; [done|]. split; [done|]. split; [done|].
  exists r, w1. destruct r as [| |reason]; [| |done].
  - exists false. by repeat split.
  - apply act_bind_ok in E as (b & w2 & [= <- <-] & E). exists (ac_live w1.1). by repeat split.
Qed.

Lemma reaches_complete st st' :
  reaches st st' -> is_complete st' = false -> is_complete st = false.
Proof.
  intros [n E] Hc. destruct n; cbn [replay_ticks] in E; unfold current_tick in E;
    (destruct (_ <? _); [by destruct (is_complete st)|by injection E as <-]).
Qed.

(** The successor on the redelivery, once its command step is known. *)
Lemma redeliver_decided k sid c m d o b b' log now_ms token :
  is_complete (ac_state b) = false -> stream_id_leq sid (ac_command_cursor b) = Ok false ->
  ci_game_id c = ac_game_id b -> cd_source_stream_id d = sid ->
  em_game_id (cd_event d) = ac_game_id b -> decision_validate d = Ok tt ->
  identity_and_outcome d = Ok (c, o) ->
  incorporate_recorded_decision k c d (b, log) = Some (Ok V2_Incorporated, (b', log)) ->
  incorporate k (mkDelivery sid
    (Payload_Command (SE_GameCommandSubmittedV2 (ac_game_id b) (ci_user_id c) c m)) (Some d))
    now_ms token (b, log)
  = Some (Ok DD_Incorporated,
          (set_pending (ac_pending_stream_ids b' ++ [sid]) (set_cursor sid b'), log)).
Proof.
  intros Hc Hs Hg Hsid Hem Hv Ho Er. unfold incorporate. cbn [dl_stream_id dl_payload dl_decision].
  unfold act_get, act_lift, mbind at 1, act_bind at 1. unfold mbind at 1, act_bind at 1.
  cbn [fst]. rewrite Hs, Z.eqb_refl, Hg, !Z.eqb_refl. cbn [negb orb].
  unfold mbind at 1, act_bind at 1, recorded_outcome.
  unfold mbind at 1, result_bind at 1. rewrite Hv. unfold mbind at 1, result_bind at 1. rewrite Ho.
  rewrite !bool_decide_true, Hem, Z.eqb_refl by done. cbn. rewrite Hc.
  unfold incorporate_v2_command, mbind, act_bind. by rewrite Er.
Qed.

Lemma redeliver_pruned k sid c m b log now_ms token :
  is_complete (ac_state b) = false -> stream_id_leq sid (ac_command_cursor b) = Ok false ->
  ci_game_id c = ac_game_id b -> ac_live b = false ->
  resolved_get (ac_resolved b) c = None -> rejection_fence_for (ac_resolved b) c = None ->
  is_terminally_resolved (ac_resolved b) c = true ->
  incorporate k (mkDelivery sid
    (Payload_Command (SE_GameCommandSubmittedV2 (ac_game_id b) (ci_user_id c) c m)) None)
    now_ms token (b, log)
  = Some (Ok DD_Incorporated,
          (set_pending (ac_pending_stream_ids b ++ [sid]) (set_cursor sid b), log)).
Proof.
  intros Hc Hs Hg Hl Hr Hf Ht. unfold incorporate. cbn [dl_stream_id dl_payload dl_decision].
  unfold act_get, act_lift, mbind, act_bind. cbn [fst].
  rewrite Hs, Z.eqb_refl, Hg, !Z.eqb_refl. cbn [negb orb recorded_outcome]. rewrite Hc.
  unfold incorporate_v2_command, act_get, mbind, act_bind. cbn [fst]. rewrite Hr, Hf, Ht.
  unfold mret, act_ret. cbn. destruct b. cbn in Hl. by subst.
Qed.

Lemma answers_identity sid c w w' d :
  answers sid c w w' d -> exists o, identity_and_outcome d = Ok (c, o).
Proof.
  intros (o & dd & from & _ & _ & _ & Ho & _). exists o. unfold identity_and_outcome.
  revert Ho. unfold outcome_event. destruct o; [destruct from|]; by intros [= <-].
Qed.

(** The successor takes over an answered command. *)
Lemma follows_answers sid c m w w' d b log n now_ms token :
  serializer_total -> follows w.1 b -> is_complete (ac_state w.1) = false ->
  stream_id_leq sid (ac_command_cursor w.1) = Ok false -> ci_game_id c = ac_game_id w.1 ->
  recorder_room (ac_replay_recording b) (n + 1) -> 0 <= n -> answers sid c w w' d ->
  exists k b', (forall j, incorporate (k + j) (mkDelivery sid
      (Payload_Command (SE_GameCommandSubmittedV2 (ac_game_id w.1) (ci_user_id c) c m)) (Some d))
      now_ms token (b, log) = Some (Ok DD_Incorporated, (b', log)))
    /\ ac_resolved b' = ac_resolved w'.1 /\ ac_game_id b' = ac_game_id w.1
    /\ max_outcomes b' = max_outcomes w.1
    /\ command_counter (ac_engine b') = command_counter (ac_engine w'.1)
    /\ ac_command_cursor b' = sid /\ reaches (ac_state b') (ac_state w'.1)
    /\ ac_next_event_stream_sequence b' = ac_next_event_stream_sequence w'.1
    /\ ac_live b' = false /\ recorder_room (ac_replay_recording b') n.
Proof.
  intros Hj F Hc Hs Hg Hroom Hn A. destruct (answers_identity _ _ _ _ _ A) as [o' Hid].
  destruct A as (o & dd & from & e1 & r1 & rec & Ho & Hd & Hv & Hr & _ & Ht & _ & ->).
  assert (o' = o) as ->.
  { revert Hid Ho. unfold identity_and_outcome, outcome_event.
    destruct o; [destruct from|]; intros Hid [= He]; rewrite <-He in Hid; congruence. }
  assert (Ed : em_tick (cd_event d) = gs_tick (committed_state e1)
    /\ cd_source_stream_id d = sid /\ em_game_id (cd_event d) = ac_game_id w.1
    /\ em_stream_seq (cd_event d) = ac_next_event_stream_sequence w.1 + 1
    /\ cd_next_server_command_sequence d = command_counter e1) by (rewrite Hd; done).
  destruct Ed as (Edt & Eds & Edg & Edq & Edn).
  destruct (Hr b d F Hv Ho Edt) as (r' & k & e2 & Hfe & Hrp & Hcnt & Hre).
  destruct (record_event_room (ac_replay_recording b) n (em_tick (cd_event d))
              (em_event (cd_event d)) Hj Hroom Hn) as (rec' & Erec & Hroom').
  exists k. eexists. split.
  - intros j. rewrite <-(fo_game _ _ F).
    eapply redeliver_decided; [eapply reaches_complete; [apply F|done]|by rewrite (fo_cursor _ _ F)
      |by rewrite (fo_game _ _ F)|done|by rewrite (fo_game _ _ F)|done|exact Hid|].
    eapply replay_decision_ok; [done|done| |exact Hfe|apply Hrp| |exact Erec].
    + pose proof (fo_seq _ _ F). lia.
    + congruence.
  - cbn. split_and!; try done; try apply F. 
Qed.

(** One delivered command, on both sides. *)
Lemma follows_deliver sid g u c m now_ms token w w' b log n now_ms' token' :
  serializer_total -> incumbent_ok w.1 -> follows w.1 b -> ac_live w.1 = true ->
  is_complete (ac_state w.1) = false -> 0 < ci_sequence c ->
  0 <= command_counter (ac_engine w.1) < u32_max ->
  stream_id_leq sid (ac_command_cursor w.1) = Ok false ->
  recorder_room (ac_replay_recording b) (n + 1) -> 0 <= n ->
  incorporate fuel (mkDelivery sid (Payload_Command (SE_GameCommandSubmittedV2 g u c m)) None)
    now_ms token w = Some (Ok DD_Incorporated, w') ->
  incumbent_ok w'.1 /\ ac_command_cursor w'.1 = sid
  /\ exists od l, w'.2 = w.2 ++ l /\ decisions_of l = option_list od
     /\ (forall d, od = Some d -> cd_source_stream_id d = sid)
     /\ exists k b', (forall j, incorporate (k + j)
          (mkDelivery sid (Payload_Command (SE_GameCommandSubmittedV2 g u c m)) od)
          now_ms' token' (b, log) = Some (Ok DD_Incorporated, (b', log)))
        /\ follows w'.1 b' /\ recorder_room (ac_replay_recording b') n.
Proof.
  intros Hj I F Hl Hc H0 Hk Hs Hroom Hn E.
  destruct (deliver_split _ _ _ _ _ _ _ _ _ Hc Hs E) as (-> & Hg & <- & r & w1 & pub & Er & Hq & Es).
  apply settle_ok in Es as (Ee & Err & Ec & Eg & Em & (l & El & Fl) & Hseq).
  destruct (v2_answers _ _ _ _ _ _ Hl H0 I Hk Er) as [(_ & -> & Hp1 & Hp2 & Hp3)|[[reason ->]|(_ & d & A)]];
    [| |].
  - split; [|split; [done|]].
    { destruct I. split; unfold ac_state in *; rewrite ?Ee, ?Err; done. }
    exists None, l. split; [done|]. split; [by rewrite decisions_quiet|]. split; [done|].
    exists 0%nat. eexists. split.
    { intros j. rewrite <-(fo_game _ _ F).
      apply redeliver_pruned; rewrite ?(fo_cursor _ _ F), ?(fo_game _ _ F), ?(fo_resolved _ _ F);
        try done; [|apply F]. eapply reaches_complete; [apply F|done]. }
    split; [|destruct Hroom; split; cbn; lia]. destruct F.
    split; unfold max_outcomes, ac_state in *; cbn; rewrite ?Ee, ?Err, ?Ec, ?Eg; try congruence; lia.
  - by destruct (Hq reason).
  - destruct (follows_answers _ _ m _ _ _ _ log n now_ms' token' Hj F Hc Hs Hg Hroom Hn A)
      as (k & b' & Hb & B1 & B2 & B3 & B4 & B5 & B6 & B7 & B8 & B9).
    destruct A as (o & dd & from & e1 & r1 & rec & Ho & Hd & Hv & Hr & L & Ht & N & ->).
    cbn in Ee, Err, Eg, El, Hseq, B1, B4, B6, B7. split; [|split; [done|]].
    { destruct I. split; unfold ac_state in *; rewrite ?Ee, ?Err; cbn; try done. lia. }
    exists (Some d), (Fx_Decision d :: l). split; [by rewrite El, <-app_assoc|].
    split; [cbn; by rewrite decisions_quiet|]. split; [intros ? [= <-]; by rewrite Hd|].
    exists k, b'. split; [done|]. split; [|done].
    split; unfold max_outcomes, ac_state in *; cbn in *; rewrite ?Ee, ?Err, ?Ec, ?Eg; try congruence.
Qed.
End steps.

(** ** Runs *)

Section runs.
Context {FL : F32Libm} {RE : RecorderEnv} {AE : ActorEnv}.
Variable fuel : nat.

(** What a live actor does between a checkpoint and its end, with the
    deliveries it incorporated. *)
Inductive incumbent_run (w0 : World) : list CommandDelivery -> World -> Prop :=
| run_start : incumbent_run w0 [] w0
| run_advance ds w w' now_ms now token :
    incumbent_run w0 ds w -> is_awaiting_readiness (ac_state w.1) = false ->
    in_time (ac_engine w.1) now_ms ->
    advance_live fuel now_ms now token w = Some (Ok tt, w') -> incumbent_run w0 ds w'
| run_snapshot ds w w' now_ms token :
    incumbent_run w0 ds w ->
    checkpoint_and_publish_requested_snapshot now_ms token w = Some (Ok tt, w') ->
    incumbent_run w0 ds w'
| run_deliver ds w w' sid g u c m now_ms token :
    incumbent_run w0 ds w -> ac_live w.1 = true -> is_complete (ac_state w.1) = false ->
    0 < ci_sequence c -> 0 <= command_counter (ac_engine w.1) < u32_max ->
    stream_id_leq sid (ac_command_cursor w.1) = Ok false ->
    incorporate fuel (mkDelivery sid (Payload_Command (SE_GameCommandSubmittedV2 g u c m)) None)
      now_ms token w = Some (Ok DD_Incorporated, w') ->
    incumbent_run w0
      (ds ++ [mkDelivery sid (Payload_Command (SE_GameCommandSubmittedV2 g u c m)) None]) w'.

(** The journal of decisions: one per stream entry, the first one kept. *)
Definition journal_of (log : list Effect) : gmap string CommandDecisionV1 :=
  list_to_map ((fun d => (cd_source_stream_id d, d)) <$> decisions_of log).

(** The successor incorporates a list of deliveries. *)
Fixpoint redeliver (k : nat) (ds : list CommandDelivery) (now_ms : Z) (token : string)
  : Act unit :=
  match ds with
  | [] => act_done
  | d :: ds' => _ ← incorporate k d now_ms token; redeliver k ds' now_ms token
  end.

Lemma redeliver_app k ds1 ds2 now_ms token w w1 :
  redeliver k ds1 now_ms token w = Some (Ok tt, w1) ->
  redeliver k (ds1 ++ ds2) now_ms token w = redeliver k ds2 now_ms token w1.
Proof.
  revert w. induction ds1 as [|d ds1 IH]; intros w; cbn [redeliver app]; [by intros [= ->]|].
  unfold mbind, act_bind. destruct (incorporate _ _ _ _ _) as [[[]]|]; try done. apply IH.
Qed.

Lemma snapshot_quiet now_ms token :
  preserves quiet (checkpoint_and_publish_requested_snapshot now_ms token).
Proof. unfold checkpoint_and_publish_requested_snapshot. frame. Qed.

Lemma follows_snapshot now_ms token w x w' b :
  incumbent_ok w.1 -> follows w.1 b ->
  checkpoint_and_publish_requested_snapshot now_ms token w = Some (Ok x, w') ->
  incumbent_ok w'.1 /\ follows w'.1 b /\ no_decisions w w'.
Proof.
  intros [L H0 N] F E. pose proof (streamed_requested_snapshot _ _ _ _ _ E) as (l & _ & _ & Hn).
  apply snapshot_quiet in E as [(Ee & Err & Ec & Eg & Ecf) Hd].
  split; [|split; [|done]].
  - split; unfold ac_state in *; rewrite ?Ee, ?Err; done.
  - destruct F. split; unfold max_outcomes, ac_state in *; rewrite ?Err, ?Ec, ?Eg, ?Ecf, ?Ee;
      try congruence; lia.
Qed.

(** *** Stream ids along a run *)

Lemma leq_step x y z :
  stream_id_leq x y = Ok true -> stream_id_leq z y = Ok false -> stream_id_leq x z = Ok true.
Proof.
  unfold stream_id_leq. destruct (validate_stream_id x) as [px|?|?]; [|done..].
  destruct (validate_stream_id z) as [pz|?|?]; [|done..].
  destruct (validate_stream_id y) as [py|?|?]; [|done..]. cbn. intros [= Hxy] [= Hzy].
  f_equal. eapply pair_leb_trans; [exact Hxy|by apply pair_leb_total].
Qed.

Lemma leq_self x y : stream_id_leq x y = Ok false -> stream_id_leq x x = Ok true.
Proof.
  unfold stream_id_leq. destruct (validate_stream_id x) as [px|?|?]; [|done..]. cbn.
  destruct (validate_stream_id y) as [py|?|?]; [|done..]. intros _. cbn. f_equal.
  apply pair_leb_spec. lia.
Qed.

(** What the journal says of each delivery of the run. *)
Definition journaled (log : list Effect) (d : CommandDelivery) : CommandDelivery :=
  mkDelivery (dl_stream_id d) (dl_payload d) (journal_of log !! dl_stream_id d).

Record run_inv (ds : list CommandDelivery) (w : World) : Prop := mkRunInv {
  ri_covered : Forall (fun d => stream_id_leq (dl_stream_id d) (ac_command_cursor w.1) = Ok true) ds;
  ri_sources : Forall (fun d => stream_id_leq (cd_source_stream_id d) (ac_command_cursor w.1) = Ok true)
                 (decisions_of w.2);
  ri_distinct : NoDup (dl_stream_id <$> ds)
}.

Lemma journal_quiet log l : Forall not_decision l -> journal_of (log ++ l) = journal_of log.
Proof.
  intros F. unfold journal_of. by rewrite decisions_app, (decisions_quiet _ F), app_nil_r.
Qed.

Lemma journal_old log l od sid other :
  decisions_of l = option_list od -> (forall d, od = Some d -> cd_source_stream_id d = sid) ->
  other <> sid -> journal_of (log ++ l) !! other = journal_of log !! other.
Proof.
  intros El Hod Hne. unfold journal_of. rewrite decisions_app, El, fmap_app, list_to_map_app.
  rewrite lookup_union_l; [done|]. destruct od as [d|]; cbn; [|apply lookup_empty].
  rewrite (Hod d eq_refl). rewrite lookup_insert_ne by done. apply lookup_empty.
Qed.

Lemma journal_new log l od sid :
  decisions_of l = option_list od -> (forall d, od = Some d -> cd_source_stream_id d = sid) ->
  Forall (fun d => cd_source_stream_id d <> sid) (decisions_of log) ->
  journal_of (log ++ l) !! sid = od.
Proof.
  intros El Hod Hf. unfold journal_of. rewrite decisions_app, El, fmap_app, list_to_map_app.
  rewrite lookup_union_r.
  - destruct od as [d|]; cbn; [|apply lookup_empty]. rewrite (Hod d eq_refl). apply lookup_insert_eq.
  - apply not_elem_of_list_to_map_1. rewrite <-list_fmap_compose. intros Hin.
    apply list_elem_of_fmap in Hin as (d & Ed & Hd). rewrite Forall_forall in Hf.
    by destruct (Hf d Hd).
Qed.

Lemma run_inv_quiet ds w w' :
  run_inv ds w -> no_decisions w w' -> ac_command_cursor w'.1 = ac_command_cursor w.1 ->
  run_inv ds w' /\ journaled w'.2 <$> ds = journaled w.2 <$> ds.
Proof.
  intros [V1 V2 V3] (l & El & Fl) Ec. split.
  - split; rewrite ?Ec; [done| |done].
    by rewrite El, decisions_app, (decisions_quiet _ Fl), app_nil_r.
  - apply list_fmap_ext. intros i d _. unfold journaled. by rewrite El, journal_quiet.
Qed.

Lemma run_inv_deliver ds w w' sid payload od l :
  run_inv ds w -> w'.2 = w.2 ++ l -> decisions_of l = option_list od ->
  (forall d, od = Some d -> cd_source_stream_id d = sid) ->
  stream_id_leq sid (ac_command_cursor w.1) = Ok false -> ac_command_cursor w'.1 = sid ->
  run_inv (ds ++ [mkDelivery sid payload None]) w'
  /\ journaled w'.2 <$> (ds ++ [mkDelivery sid payload None])
     = (journaled w.2 <$> ds) ++ [mkDelivery sid payload od].
Proof.
  intros [V1 V2 V3] El Hl Hod Hs Ec.
  assert (Hold : forall x, stream_id_leq x (ac_command_cursor w.1) = Ok true -> x <> sid)
    by (intros x Hx ->; congruence).
  assert (Hnew : Forall (fun d => dl_stream_id d <> sid) ds)
    by (eapply Forall_impl; [exact V1|]; intros d Hd; by apply Hold).
  split; [split|].
  - apply Forall_app. split; [|constructor; [rewrite Ec; eapply leq_self; exact Hs|constructor]].
    eapply Forall_impl; [exact V1|]. intros d Hd. rewrite Ec. eapply leq_step; [exact Hd|exact Hs].
  - rewrite El, decisions_app, Hl. apply Forall_app. split.
    + eapply Forall_impl; [exact V2|]. intros d Hd. rewrite Ec. eapply leq_step; [exact Hd|exact Hs].
    + destruct od as [d|]; cbn; [|constructor]. constructor; [|constructor].
      rewrite Ec, (Hod d eq_refl). eapply leq_self; exact Hs.
  - rewrite fmap_app. apply NoDup_app. split; [done|]. split; [|apply NoDup_singleton].
    intros x (d & -> & Hd)%list_elem_of_fmap Hx. apply list_elem_of_singleton in Hx.
    rewrite Forall_forall in Hnew. by apply (Hnew d Hd).
  - rewrite fmap_app, El. f_equal.
    + apply list_fmap_ext. intros i d Hd. unfold journaled. f_equal.
      eapply journal_old; [done|done|]. rewrite Forall_forall in Hnew.
      by apply Hnew, (list_elem_of_lookup_2 _ i).
    + cbn. unfold journaled. cbn. do 2 f_equal. eapply journal_new; [done|done|].
      eapply Forall_impl; [exact V2|]. intros d Hd. by apply Hold.
Qed.

(** *** The successor follows a whole run *)

Lemma follows_run w0 ds w b0 log now_ms token n :
  serializer_total -> incumbent_ok w0.1 -> w0.2 = [] -> follows w0.1 b0 -> 0 <= n ->
  incumbent_run w0 ds w -> recorder_room (ac_replay_recording b0) (vec_len ds + n) ->
  incumbent_ok w.1 /\ run_inv ds w
  /\ exists k b, (forall j, redeliver (k + j) (journaled w.2 <$> ds) now_ms token (b0, log)
                    = Some (Ok tt, (b, log)))
     /\ follows w.1 b /\ recorder_room (ac_replay_recording b) n.
Proof.
  intros Hj I0 Hw0 F0 Hn Hrun. revert n Hn. induction Hrun as
    [|ds w w' now1 now2 tok Hrun IH Ha Ht E|ds w w' now1 tok Hrun IH E
     |ds w w' sid g u c m now1 tok Hrun IH Hl Hc H0 Hk Hs E]; intros n Hn Hroom.
  - split; [done|]. split; [split; [constructor|by rewrite Hw0; constructor|constructor]|].
    exists 0%nat, b0. split; [by intros j|]. split; [done|]. exact Hroom.
  - destruct (IH n Hn Hroom) as (I & V & k & b & Hb & F & R).
    destruct (follows_advance _ _ _ _ _ _ _ _ I F Ha Ht E) as (I' & F' & Hd).
    apply advance_split in E as (ev & e & obs & _ & ((_ & _ & Ec & _) & _)); [|done].
    destruct (run_inv_quiet _ _ _ V Hd Ec) as [V' ->]. eauto 10.
  - destruct (IH n Hn Hroom) as (I & V & k & b & Hb & F & R).
    destruct (follows_snapshot _ _ _ _ _ _ I F E) as (I' & F' & Hd).
    apply snapshot_quiet in E as [(_ & _ & Ec & _) _].
    destruct (run_inv_quiet _ _ _ V Hd Ec) as [V' ->]. eauto 10.
  - destruct (IH (n + 1) ltac:(lia)) as (I & V & k & b & Hb & F & R).
    { unfold vec_len in *. rewrite length_app in Hroom. cbn in Hroom. destruct Hroom. split; lia. }
    destruct (follows_deliver _ _ _ _ _ _ _ _ _ _ _ log n now_ms token Hj I F Hl Hc H0 Hk Hs R Hn E)
      as (I' & Ec & od & l & El & Hdl & Hod & k' & b' & Hb' & F' & R').
    edestruct run_inv_deliver as [V' ->]; [exact V|exact El|exact Hdl|exact Hod|exact Hs|exact Ec|].
    split; [done|]. split; [exact V'|]. exists (k + k')%nat, b'. split; [|done]. intros j.
    erewrite redeliver_app by (rewrite <-Nat.add_assoc; apply Hb).
    cbn [redeliver]. unfold mbind, act_bind.
    replace (k + k' + j)%nat with (k' + (k + j))%nat by lia. by rewrite Hb'.
Qed.

(** Attaching the journal to deliveries with distinct ids. *)
Lemma attach_journal ds journal :
  NoDup (dl_stream_id <$> ds) ->
  (attach_command_decisions ds journal).1
  = (fun d => mkDelivery (dl_stream_id d) (dl_payload d) (journal !! dl_stream_id d)) <$> ds.
Proof.
  revert journal. induction ds as [|d ds IH]; intros journal; cbn; [done|].
  intros [Hnot Hd]%NoDup_cons. specialize (IH (delete (dl_stream_id d) journal) Hd).
  destruct (attach_command_decisions _ _) as [rest others]. cbn in *. rewrite IH. f_equal.
  apply list_fmap_ext. intros i x Hx. f_equal. apply lookup_delete_ne. intros E. apply Hnot.
  rewrite E. apply list_elem_of_fmap. exists x. split; [done|]. by eapply list_elem_of_lookup_2.
Qed.

(** A successor built from the stored checkpoint of a started match. *)
Lemma stored_follows a now_ms token server_id partition config now b :
  gs_status (ac_state a) <> Stopped -> max_outcomes a = rc_max_recorded_outcomes_per_session config ->
  from_envelope server_id partition (stored_envelope (actor_envelope a now_ms token)) config now = Ok b ->
  follows a b.
Proof.
  intros Hst Hm. unfold from_envelope. cbn.
  destruct (gs_status (ac_state a)) eqn:Es; [done|..].
  all: unfold new_from_state_with_command_counter, try_new_from_state_with_command_counter.
  all: destruct (validate_boost_invariants _) as [u|x|x]; cbn; [|done..]; intros [= <-].
  all: split; cbn; try done; apply reaches_refl.
Qed.
End runs.
