(* ===== verification/ActorTheorems.v ===== *)
(** * Theorems on the game actor

    One verdict per command, commands that execute once, a stream without gaps,
    and the recovery of a match by a successor. *)

From Stdlib Require Import ZArith.
From stdpp Require Import prelude strings countable list gmap.
From S2P Require Import Prelude RustFloat Util Snake SnakeTheorems Arena CommandQueue GameState.
From S2P Require Import GameSetup Events Validate Tick StateInvariant Validity MatchLife.
From S2P Require Import EventOrder Fingerprint Engine EngineFacts MatchTheorems EngineTheorems.
From S2P Require Import StreamId CommandLedger Recording Journal JournalFacts Recovery.
From S2P Require Import LedgerFacts Actor DecisionFacts FailoverFacts Failover.
Open Scope Z_scope.

(** ** A sample actor *)

Lemma sample_len (e : ReplayJournalEntry) n : Some 100 = Some n -> 0 <= n <= 2 ^ 63 - 1.
Proof. intros [= <-]. lia. Qed.

Definition sample_recorder : RecorderEnv :=
  {| json_len := fun _ => Some 100; env_var := fun _ => None; json_len_bound := sample_len |}.

(** A bus that accepts everything. *)
Definition calm_bus : ActorEnv :=
  {| bus := fun _ _ => Ok tt; handoff_requested := fun _ => false;
     materialized := fun _ _ => true; record_validate := fun _ _ => Ok tt |}.

Definition sample_actor : GameActor :=
  {| ac_server_id := 9; ac_game_id := 1; ac_partition := 1; ac_engine := duel_engine;
     ac_resolved := ∅; ac_command_cursor := "0-0"; ac_next_event_stream_sequence := 0;
     ac_replay_recording := @recorder_new sample_recorder duel;
     ac_planned_handoff_watermark := None; ac_pending_stream_ids := [];
     ac_snapshot_requested := false; ac_live := true; ac_deferred_ready_user_ids := [];
     ac_start_event_pending := false; ac_pending_completion := None;
     ac_completion_committed := false;
     ac_idle_cleanup_complete := ∅; ac_idle_cleanup_retry_at := None;
     ac_next_tick_hash_at := 5; ac_config := RecoveryConfig_default |}.

Definition first_identity : ClientCommandIdentityV2 := mkClientCommandIdentityV2 1 1 "tab" 1.

Definition first_command_at (sid : string) : CommandDelivery :=
  mkDelivery sid
    (Payload_Command (SE_GameCommandSubmittedV2 1 1 first_identity up_turn)) None.

(** The command is delivered, the match advances a second, and the command is
    delivered again. *)
Definition world_after {A} (r : option (Result A * World)) : World :=
  match r with Some (_, w) => w | None => (sample_actor, []) end.
Definition world_1 : World :=
  world_after (@incorporate identity_libm sample_recorder calm_bus 20 (first_command_at "500-0")
                 500 "t" (sample_actor, [])).
Definition world_2 : World :=
  world_after (@advance_live identity_libm sample_recorder calm_bus 20 1000 10 "t" world_1).
Definition world_3 : World :=
  world_after (@incorporate identity_libm sample_recorder calm_bus 20 (first_command_at "900-0")
                 900 "t" world_2).

Lemma step_1 : @incorporate identity_libm sample_recorder calm_bus 20 (first_command_at "500-0")
  500 "t" (sample_actor, []) = Some (Ok DD_Incorporated, world_1).
Proof. vm_compute. reflexivity. Qed.

Lemma step_2 : @advance_live identity_libm sample_recorder calm_bus 20 1000 10 "t" world_1
  = Some (Ok tt, world_2).
Proof. vm_compute. reflexivity. Qed.

Lemma step_3 : @incorporate identity_libm sample_recorder calm_bus 20 (first_command_at "900-0")
  900 "t" world_2 = Some (Ok DD_Incorporated, world_3).
Proof. vm_compute. reflexivity. Qed.

(** ** What happens to an actor *)

Definition delivery_u64 (d : CommandDelivery) : Prop :=
  match dl_payload d with
  | Payload_Command (SE_GameCommandSubmittedV2 _ _ c _) => is_u64 (ci_sequence c)
  | _ => True
  end.

Section runs.
Context {FL : F32Libm} {RE : RecorderEnv} {AE : ActorEnv}.
Variable fuel : nat.

(** Any operation, with any result: failures of the bus included. *)
Inductive actor_step (w w' : World) : Prop :=
| act_deliver d now_ms token x : dl_decision d = None -> delivery_u64 d ->
    incorporate fuel d now_ms token w = Some (x, w') -> actor_step w w'
| act_advance now_ms now token x :
    advance_live fuel now_ms now token w = Some (x, w') -> actor_step w w'
| act_activate now_ms now token x :
    activate fuel now_ms now token w = Some (x, w') -> actor_step w w'
| act_snapshot now_ms token x :
    checkpoint_and_publish_requested_snapshot now_ms token w = Some (x, w') -> actor_step w w'.

Lemma world_ok_step max H w w' :
  world_ok max H w -> actor_step w w' -> exists H', world_ok max H' w' /\ history_le H H'.
Proof.
  intros W [d now_ms token x Hn Hu E|now_ms now token x E|now_ms now token x E|now_ms token x E].
  - eapply deliver_step; [exact W|exact Hn| |exact E]. intros g u c m Ep.
    unfold delivery_u64 in Hu. by rewrite Ep in Hu.
  - exists H. split; [|reflexivity]. eapply world_ok_kept; [exact W|by eapply kept_advance].
  - exists H. split; [|reflexivity]. eapply world_ok_kept; [exact W|by eapply kept_activate].
  - exists H. split; [|reflexivity]. eapply world_ok_kept; [exact W|by eapply kept_requested_snapshot].
Qed.

Lemma world_ok_start (a : GameActor) :
  ac_resolved a = ∅ -> 0 < max_outcomes a -> world_ok (max_outcomes a) ∅ (a, []).
Proof.
  intros He Hm. split; [done|done| |constructor]. cbn. rewrite He. apply ledger_empty.
Qed.

Lemma world_ok_run max H w w' :
  rtc actor_step w w' -> world_ok max H w -> exists H', world_ok max H' w'.
Proof.
  intros Hr. revert H. induction Hr as [|w w1 w2 S Hr IH]; intros H W; [eauto|].
  destruct (world_ok_step _ _ _ _ W S) as (H' & W' & _). eauto.
Qed.

(** Successful operations of an activated actor: deliveries, quanta with the
    completion they may lead to, and requested snapshots. *)
Inductive live_step (w w' : World) : Prop :=
| live_deliver d now_ms token x : dl_decision d = None ->
    incorporate fuel d now_ms token w = Some (Ok x, w') -> live_step w w'
| live_advance now_ms now token x :
    advance_live fuel now_ms now token w = Some (Ok x, w') -> live_step w w'
| live_snapshot now_ms token x :
    checkpoint_and_publish_requested_snapshot now_ms token w = Some (Ok x, w') -> live_step w w'.

End runs.

(** ** Verdicts *)

(** The same outcome, or rejections for the same reason. *)
Definition same_verdict (o1 o2 : CommandOutcome) : Prop :=
  o1 = o2 \/ (is_Some (rejection_reason o1) /\ rejection_reason o1 = rejection_reason o2).

Lemma verdict_unique H r c1 c2 o1 o2 :
  session_key c1 = session_key c2 -> ci_sequence c1 = ci_sequence c2 ->
  verdict_for H r c1 o1 -> verdict_for H r c2 o2 -> same_verdict o1 o2.
Proof.
  intros Ek Es H1 H2. assert (Ed : decided H c1 = decided H c2) by (unfold decided; by rewrite Ek, Es).
  assert (Ess : session_of r c1 = session_of r c2) by (unfold session_of; by rewrite Ek).
  destruct H1 as [H1|(N1 & _ & f1 & i1 & F1 & _ & ->)], H2 as [H2|(N2 & _ & f2 & i2 & F2 & _ & ->)];
    try congruence.
  - left. congruence.
  - right. rewrite Ess in F1. simplify_eq. cbn. by eauto.
Qed.

(** ** Commands that are resolved *)

Definition same_engine (w w' : World) : Prop := ac_engine w'.1 = ac_engine w.1.

#[global] Instance same_engine_preorder : PreOrder same_engine.
Proof. split; [done|]. intros x y z ? ?. unfold same_engine in *. congruence. Qed.

Section resolved.
Context {FL : F32Libm} {RE : RecorderEnv} {AE : ActorEnv}.
Variable fuel : nat.

Lemma engine_quiet {A} (m : Act A) : preserves quiet m -> preserves same_engine m.
Proof. intros Hm w x w' E. apply Hm in E as [(E & _) _]. exact E. Qed.

Lemma engine_perform fx : preserves same_engine (perform fx).
Proof. intros w x w' E. by destruct (core_perform fx _ _ _ E). Qed.

Lemma engine_modify f :
  (forall a, ac_engine (f a) = ac_engine a) -> preserves same_engine (act_modify f).
Proof. intros Hf w x w' [= <- <-]. apply Hf. Qed.

Lemma engine_publish sid c o dd from : preserves same_engine (publish_outcome sid c o dd from).
Proof.
  unfold publish_outcome. frame; [apply engine_perform|apply engine_quiet, quiet_recording|].
  by apply engine_modify.
Qed.

Lemma engine_settle sid pub now_ms token :
  preserves same_engine (settle_delivery sid pub now_ms token).
Proof. unfold settle_delivery. frame; [by apply engine_modify|apply engine_quiet, quiet_fresh_snapshot]. Qed.

(** A command that is resolved never reaches the engine again. *)
Lemma resolved_is_inert sid g u c m now_ms token w x w' :
  is_terminally_resolved (ac_resolved w.1) c = true ->
  incorporate fuel (mkDelivery sid (Payload_Command (SE_GameCommandSubmittedV2 g u c m)) None)
    now_ms token w = Some (x, w') ->
  ac_engine w'.1 = ac_engine w.1.
Proof.
  intros Ht E. unfold incorporate in E. cbn [dl_stream_id dl_payload dl_decision] in E.
  apply act_bind_inv in E as [(a & w1 & [= <- <-] & E)|[(e & [=] & _)|(e & [=] & _)]].
  change (same_engine w w').
  apply act_bind_inv in E as [(cov & w1 & [= _ <-] & E)|[(e & [= _ <-] & _)|(e & [= _ <-] & _)]];
    [|reflexivity..].
  destruct cov; [by_frame same_engine E; frame; apply engine_perform|].
  destruct (negb _); [by_frame same_engine E; frame|].
  destruct (_ || _); [by_frame same_engine E; frame|].
  apply act_bind_inv in E as [(rec & w1 & [= _ <-] & E)|[(e & [= _ <-] & _)|(e & [= _ <-] & _)]];
    [|reflexivity..].
  destruct (is_complete _).
  { by_frame same_engine E. unfold incorporate_after_completion. frame; apply engine_perform. }
  unfold incorporate_v2_command in E. revert E.
  unfold mbind at 1, act_bind at 1. unfold mbind at 1, act_bind at 1, act_get at 1.
  intros E.
  assert (Hp : preserves same_engine
    (match resolved_get (ac_resolved w.1) c with
     | Some outcome => publish_outcome_if_live sid c outcome true None ;; mret V2_Incorporated
     | None => match rejection_fence_for (ac_resolved w.1) c with
       | Some fence => publish_outcome_if_live sid c
           (CO_Rejected (fence_reason fence) (Some (command_id_client m))) true
           (Some (from_sequence fence)) ;; mret V2_Incorporated
       | None => mret V2_PrunedDuplicate
       end
     end)).
  { unfold publish_outcome_if_live. frame; apply engine_publish. }
  destruct (resolved_get (ac_resolved w.1) c) as [o|];
    [|destruct (rejection_fence_for (ac_resolved w.1) c) as [f|]; [|rewrite Ht in E]].
  all: match type of E with match ?m with _ => _ end = _ =>
         destruct m as [[[y|e|e] w1]|] eqn:E1; [|injection E as _ <-..|done] end.
  all: apply Hp in E1; try exact E1.
  all: etrans; [exact E1|]; by_frame same_engine E; destruct y; frame; apply engine_settle.
Qed.
End resolved.

(** C4. One verdict per command: whatever an actor goes through (deliveries and
    redeliveries, quanta, checkpoints, failures of the bus), any two decisions
    it has journaled for one command of one client session are the same outcome
    or rejections for the same reason; a scheduled command is never also
    rejected, and never scheduled twice with different server numbers. *)
Theorem one_verdict_per_command {FL : F32Libm} {RE : RecorderEnv} {AE : ActorEnv}
    fuel a w d1 d2 c1 c2 o1 o2 :
  ac_resolved a = ∅ -> 0 < max_outcomes a -> rtc (actor_step fuel) (a, []) w ->
  d1 ∈ decisions_of w.2 -> d2 ∈ decisions_of w.2 ->
  identity_and_outcome d1 = Ok (c1, o1) -> identity_and_outcome d2 = Ok (c2, o2) ->
  ci_user_id c1 = ci_user_id c2 ->
  ci_client_game_session_id c1 = ci_client_game_session_id c2 ->
  ci_sequence c1 = ci_sequence c2 -> same_verdict o1 o2.
Proof.
  intros He Hm Hr H1 H2 E1 E2 Eu Es En.
  destruct (world_ok_run _ _ _ _ _ Hr (world_ok_start _ He Hm)) as (H & W).
  assert (Hv : forall d c o, d ∈ decisions_of w.2 -> identity_and_outcome d = Ok (c, o) ->
            verdict_for H (ac_resolved w.1) c o).
  { intros d c o (fx & Hfx & Ed)%list_elem_of_omap E. destruct fx; simplify_eq.
    pose proof (wo_log _ _ _ W) as Hl. rewrite Forall_forall in Hl.
    destruct (Hl _ Hfx) as (c' & o' & E' & ?). congruence. }
  eapply verdict_unique; [|exact En|by apply (Hv d1)|by apply (Hv d2)]. unfold session_key. by rewrite Eu, Es.
Qed.

Definition decided_identity (d : CommandDecisionV1) : option ClientCommandIdentityV2 :=
  match identity_and_outcome d with Ok (c, _) => Some c | _ => None end.

Definition scheduled_identity (d : CommandDecisionV1) : option ClientCommandIdentityV2 :=
  match identity_and_outcome d with Ok (c, CO_Scheduled _) => Some c | _ => None end.

Lemma sample_steps :
  rtc (@actor_step identity_libm sample_recorder calm_bus 20) (sample_actor, []) world_3.
Proof.
  eapply rtc_l; [eapply act_deliver; [| |exact step_1]; [done|unfold delivery_u64, is_u64, u64_max; cbn; lia]|].
  eapply rtc_l; [eapply act_advance, step_2|].
  eapply rtc_l; [eapply act_deliver; [| |exact step_3]; [done|unfold delivery_u64, is_u64, u64_max; cbn; lia]|].
  apply rtc_refl.
Qed.

Lemma one_verdict_per_command_witness :
  exists d1 d2 o1 o2, decisions_of world_3.2 = [d1; d2] /\ cd_source_stream_id d1 = "500-0"
    /\ cd_source_stream_id d2 = "900-0" /\ identity_and_outcome d1 = Ok (first_identity, o1)
    /\ identity_and_outcome d2 = Ok (first_identity, o2) /\ same_verdict o1 o2.
Proof.
  assert (Hs : cd_source_stream_id <$> decisions_of world_3.2 = ["500-0"; "900-0"])
    by (vm_compute; reflexivity).
  assert (Hi : decided_identity <$> decisions_of world_3.2
               = [Some first_identity; Some first_identity]) by (vm_compute; reflexivity).
  destruct (decisions_of world_3.2) as [|d1 [|d2 [|]]] eqn:Ed; try discriminate Hs.
  injection Hs as Hs1 Hs2. injection Hi as Hi1 Hi2. unfold decided_identity in Hi1, Hi2.
  destruct (identity_and_outcome d1) as [[c1 o1]|?|?] eqn:E1; try discriminate Hi1.
  destruct (identity_and_outcome d2) as [[c2 o2]|?|?] eqn:E2; try discriminate Hi2.
  injection Hi1 as ->. injection Hi2 as ->. exists d1, d2, o1, o2.
  do 5 (split; [by auto|]).
  assert (In1 : d1 ∈ decisions_of world_3.2) by (rewrite Ed; left).
  assert (In2 : d2 ∈ decisions_of world_3.2) by (rewrite Ed; right; left).
  exact (@one_verdict_per_command identity_libm sample_recorder calm_bus 20 sample_actor world_3
           d1 d2 first_identity first_identity o1 o2 eq_refl eq_refl sample_steps In1 In2 E1 E2
           eq_refl eq_refl eq_refl).
Defined.

(** A scheduled command executes once: after its decision is in the journal,
    any further delivery of the command (under any stream id, at any time,
    whatever the bus answers) leaves the engine as it is. *)
Theorem scheduled_commands_execute_once {FL : F32Libm} {RE : RecorderEnv} {AE : ActorEnv}
    fuel a w d c cmd c' sid g u m now_ms token x w' :
  ac_resolved a = ∅ -> 0 < max_outcomes a -> rtc (actor_step fuel) (a, []) w ->
  d ∈ decisions_of w.2 -> identity_and_outcome d = Ok (c, CO_Scheduled cmd) ->
  ci_user_id c' = ci_user_id c ->
  ci_client_game_session_id c' = ci_client_game_session_id c ->
  ci_sequence c' = ci_sequence c ->
  incorporate fuel (mkDelivery sid (Payload_Command (SE_GameCommandSubmittedV2 g u c' m)) None)
    now_ms token w = Some (x, w') ->
  ac_engine w'.1 = ac_engine w.1.
Proof.
  intros He Hm Hr (fx & Hfx & Ed)%list_elem_of_omap Hd Eu Es En E. destruct fx; simplify_eq.
  destruct (world_ok_run _ _ _ _ _ Hr (world_ok_start _ He Hm)) as (H & W).
  pose proof (wo_log _ _ _ W) as Hl. rewrite Forall_forall in Hl.
  destruct (Hl _ Hfx) as (c0 & o0 & E0 & Hv). rewrite Hd in E0. simplify_eq.
  destruct Hv as [Hdec|(_ & _ & f & i & _ & _ & [=])].
  eapply resolved_is_inert; [|exact E].
  apply (ledger_resolved _ _ _ _ (wo_ledger _ _ _ W) ltac:(pose proof (wo_pos _ _ _ W); lia)).
  left. unfold decided, session_key in *. by rewrite Eu, Es, En, Hdec.
Qed.

Lemma scheduled_commands_execute_once_witness :
  exists d cmd, d ∈ decisions_of world_3.2
    /\ identity_and_outcome d = Ok (first_identity, CO_Scheduled cmd)
    /\ ac_engine (world_after (@incorporate identity_libm sample_recorder calm_bus 20
                    (first_command_at "999-0") 999 "t" world_3)).1
       = ac_engine world_3.1.
Proof.
  assert (Hi : scheduled_identity <$> decisions_of world_3.2
               = [Some first_identity; Some first_identity]) by (vm_compute; reflexivity).
  destruct (decisions_of world_3.2) as [|d l] eqn:Ed; [discriminate Hi|].
  injection Hi as Hi _. unfold scheduled_identity in Hi.
  destruct (identity_and_outcome d) as [[c [cmd|]]|?|?] eqn:Eo; try discriminate Hi.
  injection Hi as ->. assert (Hin : d ∈ decisions_of world_3.2) by (rewrite Ed; left).
  exists d, cmd. split; [left|]. split; [exact Eo|].
  destruct (@incorporate identity_libm sample_recorder calm_bus 20
              (first_command_at "999-0") 999 "t" world_3) as [[x w']|] eqn:E.
  - exact (@scheduled_commands_execute_once identity_libm sample_recorder calm_bus 20 sample_actor
             world_3 d first_identity cmd first_identity "999-0" 1 1 up_turn 999 "t" x w'
             eq_refl eq_refl sample_steps Hin Eo eq_refl eq_refl eq_refl E).
  - exfalso. assert (N : @incorporate identity_libm sample_recorder calm_bus 20
      (first_command_at "999-0") 999 "t" world_3 <> None) by (vm_compute; discriminate).
    exact (N E).
Defined.

(** ** The stream *)

(** The stream number of a published message and whether it is a snapshot; the
    completion of a match publishes its terminal snapshot. *)
Definition fx_message (fx : Effect) : option (Z * bool) :=
  match fx with
  | Fx_Decision d => Some (em_stream_seq (cd_event d), is_snapshot_event (em_event (cd_event d)))
  | Fx_Event m => Some (em_stream_seq m, is_snapshot_event (em_event m))
  | Fx_Completion _ _ _ m => Some (em_stream_seq m, is_snapshot_event (em_event m))
  | _ => None
  end.

Definition messages (log : list Effect) : list (Z * bool) := omap fx_message log.

(** The number of the last message of an actor: the terminal snapshot is numbered
    by the client of the bus and does not move the counter. *)
Definition last_number (a : GameActor) : Z :=
  ac_next_event_stream_sequence a + if ac_completion_committed a then 1 else 0.

(** What was published between two worlds is numbered on from [n]. *)
Definition numbered (n : Z) (w w' : World) : Prop :=
  exists l, w'.2 = w.2 ++ l
  /\ (messages l).*1 = range_Z (n + 1) (length (messages l))
  /\ last_number w'.1 = n + Z.of_nat (length (messages l)).

Definition not_completion (fx : Effect) : Prop :=
  match fx with Fx_Completion _ _ _ _ => False | _ => True end.

(** No completion is committed. *)
Definition ongoing (w w' : World) : Prop :=
  ac_completion_committed w'.1 = ac_completion_committed w.1
  /\ exists l, w'.2 = w.2 ++ l /\ Forall not_completion l.

#[global] Instance ongoing_preorder : PreOrder ongoing.
Proof.
  split.
  - intros w. split; [done|]. exists []. by rewrite app_nil_r.
  - intros x y z (C1 & l1 & E1 & F1) (C2 & l2 & E2 & F2). split; [congruence|].
    exists (l1 ++ l2). rewrite E2, E1, app_assoc. split; [done|]. by apply Forall_app.
Qed.

(** Nothing is published. *)
Definition mute (w w' : World) : Prop :=
  last_number w'.1 = last_number w.1 /\ exists l, w'.2 = w.2 ++ l /\ messages l = [].

#[global] Instance mute_preorder : PreOrder mute.
Proof.
  split.
  - intros w. split; [done|]. exists []. by rewrite app_nil_r.
  - intros x y z (C1 & l1 & E1 & F1) (C2 & l2 & E2 & F2). split; [congruence|].
    exists (l1 ++ l2). rewrite E2, E1, app_assoc. split; [done|]. unfold messages in *. by rewrite omap_app, F1, F2.
Qed.

(** The match is over and its completion is committed. *)
Definition over (a : GameActor) : bool := is_complete (ac_state a) && ac_completion_committed a.

(** Once it is, nothing more is published. *)
Definition closed (w w' : World) : Prop := over w.1 = true -> over w'.1 = true /\ mute w w'.

#[global] Instance closed_preorder : PreOrder closed.
Proof.
  split; [by intros w|]. intros x y z H1 H2 Hx. destruct (H1 Hx) as [Hy M1], (H2 Hy) as [Hz M2].
  split; [done|]. by etrans.
Qed.

Lemma numbered_trans n w w1 w2 : numbered n w w1 -> numbered (last_number w1.1) w1 w2 -> numbered n w w2.
Proof.
  intros (l1 & E1 & S1 & N1) (l2 & E2 & S2 & N2). exists (l1 ++ l2). unfold messages in *.
  rewrite E2, E1, app_assoc, omap_app, fmap_app, length_app. split; [done|]. split; [|lia].
  rewrite S1, S2, N1, range_Z_app. do 2 f_equal. lia.
Qed.

Lemma mute_numbered w w' : mute w w' -> numbered (last_number w.1) w w'.
Proof. intros (N & l & E & M). exists l. rewrite M. cbn. split; [done|]. split; [done|lia]. Qed.

Lemma ongoing_messages l : Forall not_completion l -> (messages l).*1 = stream_of l.
Proof. induction 1 as [|[] l Hn _ IH]; cbn in *; try done; by f_equal. Qed.

(** While no completion is committed the numbers are those of the counter. *)
Lemma ongoing_numbered w w' :
  ac_completion_committed w.1 = false -> streamed w w' -> ongoing w w' -> numbered (last_number w.1) w w'.
Proof.
  intros C (l & E & S & N) (C' & l' & E' & F). rewrite E in E'. apply app_inv_head in E' as <-.
  apply ongoing_messages in F as M. exists l. unfold last_number. rewrite C', C, !Z.add_0_r, <-(length_fmap fst), M.
  split; [done|]. split; [exact S|exact N].
Qed.

Section numbering.
Context {FL : F32Libm} {RE : RecorderEnv} {AE : ActorEnv}.
Variable fuel : nat.

(** *** No completion *)

Lemma ongoing_modify f :
  (forall a, ac_completion_committed (f a) = ac_completion_committed a) -> preserves ongoing (act_modify f).
Proof. intros Hf w x w' [= <- <-]. split; [apply Hf|]. exists []. by rewrite app_nil_r. Qed.
Lemma ongoing_recording f : preserves ongoing (on_recording f).
Proof.
  intros w x w'. unfold on_recording. destruct (f _). intros [= <- <-]. split; [done|]. exists []. by rewrite app_nil_r.
Qed.
Lemma ongoing_resolved {A} (f : ResolvedCommandState -> Result A * ResolvedCommandState) :
  preserves ongoing (on_resolved f).
Proof.
  intros w x w'. unfold on_resolved. destruct (f _). intros [= <- <-]. split; [done|]. exists []. by rewrite app_nil_r.
Qed.
Lemma ongoing_engine {A} (f : GameEngine -> option (Result A * GameEngine)) : preserves ongoing (on_engine f).
Proof.
  intros w x w'. unfold on_engine. destruct (f _) as [[]|]; [|done]. intros [= <- <-].
  split; [done|]. exists []. by rewrite app_nil_r.
Qed.
Lemma ongoing_perform fx : not_completion fx -> preserves ongoing (perform fx).
Proof.
  intros Hn w x w'. unfold perform. destruct (bus w.2 fx); intros [= <- <-]; try reflexivity.
  split; [done|]. exists [fx]. split; [done|]. by constructor.
Qed.
Lemma ongoing_process cmd sub : preserves ongoing (process_submitted cmd sub).
Proof.
  intros w x w'. unfold process_submitted. destruct (process_command _ _) as [[] ?]; intros [= <- <-];
    (split; [done|]; exists []; by rewrite app_nil_r).
Qed.

#[local] Hint Resolve ongoing_recording ongoing_resolved ongoing_engine ongoing_process : actor.
#[local] Hint Extern 1 (preserves ongoing (act_modify _)) => apply ongoing_modify; intros []; done : actor.
#[local] Hint Extern 1 (preserves ongoing (perform _)) => apply ongoing_perform; exact I : actor.

Lemma ongoing_event_at t q e : preserves ongoing (publish_event_at t q e).
Proof. unfold publish_event_at. frame. Qed.
#[local] Hint Resolve ongoing_event_at : actor.
Lemma ongoing_event e : preserves ongoing (publish_event e).
Proof. unfold publish_event. frame. Qed.
Lemma ongoing_events l : preserves ongoing (publish_events l).
Proof. induction l as [|[[? ?] ?] l IH]; cbn [publish_events]; frame. Qed.
Lemma ongoing_checkpoint now_ms token : preserves ongoing (checkpoint now_ms token).
Proof. unfold checkpoint. frame. Qed.
Lemma ongoing_outcome sid i o dd from : preserves ongoing (publish_outcome_if_live sid i o dd from).
Proof. unfold publish_outcome_if_live, publish_outcome. frame. Qed.
#[local] Hint Resolve ongoing_event ongoing_events ongoing_checkpoint ongoing_outcome : actor.
Lemma ongoing_gate now_ms token : preserves ongoing (resolve_readiness_gate_if_due now_ms token).
Proof. unfold resolve_readiness_gate_if_due, pre_match, record_now. frame. Qed.
#[local] Hint Resolve ongoing_gate : actor.
Lemma ongoing_confirmation u now_ms token : preserves ongoing (apply_readiness_confirmation u now_ms token).
Proof. unfold apply_readiness_confirmation, record_readiness_transition, pre_match, record_now. frame. Qed.
#[local] Hint Resolve ongoing_confirmation : actor.
Lemma ongoing_drain now_ms token : preserves ongoing (drain_deferred_readiness now_ms token).
Proof.
  assert (H : forall l, preserves ongoing (confirm_all l now_ms token))
    by (induction l; cbn [confirm_all]; frame).
  unfold drain_deferred_readiness. frame.
Qed.
Lemma ongoing_cleanup now : preserves ongoing (cleanup_idle_player_matchmaking now).
Proof.
  assert (H : forall users, preserves ongoing (cleanup_users users now)).
  { induction users as [|u users IH]; cbn [cleanup_users]; [frame|]. intros w r w'.
    pose proof (ongoing_perform (Fx_IdleCleanup (ac_game_id w.1) u) I w) as Hp.
    destruct (perform _ w) as [[[[]|e|e] w1]|] eqn:E; [|intros [= <- <-]..|done].
    - intros E2. specialize (IH _ _ _ E2). etrans; [by eapply Hp|]. etrans; [|exact IH].
      split; [done|]. exists []. by rewrite app_nil_r.
    - etrans; [by eapply Hp|]. split; [done|]. exists []. by rewrite app_nil_r.
    - by eapply Hp. }
  unfold cleanup_idle_player_matchmaking. frame.
Qed.
Lemma ongoing_tick_hash now ts : preserves ongoing (publish_tick_hash_if_due now ts).
Proof. unfold publish_tick_hash_if_due. frame. Qed.
#[local] Hint Resolve ongoing_drain ongoing_cleanup ongoing_tick_hash : actor.
Lemma ongoing_requested now_ms token :
  preserves ongoing (checkpoint_and_publish_requested_snapshot now_ms token).
Proof. unfold checkpoint_and_publish_requested_snapshot. frame. Qed.
Lemma ongoing_settle sid b now_ms token : preserves ongoing (settle_delivery sid b now_ms token).
Proof. unfold settle_delivery, publish_fresh_snapshot. frame. Qed.
Lemma ongoing_v2 sid i m : preserves ongoing (incorporate_v2_command fuel sid i m None).
Proof.
  unfold incorporate_v2_command, incorporate_fresh_command, catch_up_to_submission, decide_command. frame.
Qed.
#[local] Hint Resolve ongoing_settle ongoing_v2 : actor.
Lemma ongoing_incorporate d now_ms token :
  dl_decision d = None -> preserves ongoing (incorporate fuel d now_ms token).
Proof. intros Hn. unfold incorporate. rewrite Hn. unfold no_decision, incorporate_after_completion. frame. Qed.

(** *** After the completion *)

Lemma closed_modify f :
  (forall a, ac_engine (f a) = ac_engine a /\ ac_completion_committed (f a) = ac_completion_committed a
     /\ ac_next_event_stream_sequence (f a) = ac_next_event_stream_sequence a) ->
  preserves closed (act_modify f).
Proof.
  intros Hf w x w' [= <- <-] Ho. destruct (Hf w.1) as (He & Hc & Hn). unfold over, mute, last_number, ac_state in *.
  cbn. rewrite He, Hc, Hn. split; [done|]. split; [done|]. exists []. by rewrite app_nil_r.
Qed.
Lemma closed_recording f : preserves closed (on_recording f).
Proof.
  intros w x w'. unfold on_recording. destruct (f _). intros [= <- <-] Ho. split; [done|].
  split; [done|]. exists []. by rewrite app_nil_r.
Qed.
Lemma closed_perform fx : fx_message fx = None -> preserves closed (perform fx).
Proof.
  intros Hn w x w'. unfold perform. destruct (bus w.2 fx); intros [= <- <-]; try reflexivity.
  intros Ho. split; [done|]. split; [done|]. exists [fx]. split; [done|]. unfold messages. cbn. by rewrite Hn.
Qed.
Lemma closed_engine {A} (f : GameEngine -> option (Result A * GameEngine)) :
  (forall e x e', f e = Some (x, e') -> is_complete (committed_state e) = true -> is_complete (committed_state e') = true) ->
  preserves closed (on_engine f).
Proof.
  intros Hf w x w'. unfold on_engine. destruct (f _) as [[r e']|] eqn:E; [|done]. intros [= <- <-] Ho.
  unfold over, ac_state in *. apply andb_true_iff in Ho as [Hc Hk]. cbn. rewrite (Hf _ _ _ E Hc), Hk.
  split; [done|]. split; [done|]. exists []. by rewrite app_nil_r.
Qed.
Lemma act_get_bind {A} (k : GameActor -> Act A) w : (act_get ≫= k) w = k w.1 w.
Proof. reflexivity. Qed.

Lemma closed_branch {A} (b : GameActor -> bool) (m k : GameActor -> Act A) :
  (forall a, over a = true -> b a = false) -> (forall a, preserves closed (k a)) ->
  preserves closed (a ← act_get; if b a then m a else k a).
Proof. intros Hb Hk w x w' E Ho. rewrite act_get_bind, (Hb _ Ho) in E. by eapply Hk. Qed.

Lemma over_complete a : over a = true -> is_complete (ac_state a) = true.
Proof. by intros [? _]%andb_true_iff. Qed.

Lemma closed_event_at t q e : preserves closed (publish_event_at t q e).
Proof.
  intros w x w' E Ho. unfold publish_event_at in E. rewrite act_get_bind, over_complete in E by done.
  by injection E as <- <-.
Qed.

Lemma rebuild_committed e ts r e' :
  rebuild_predicted_state fuel e ts = Some (r, e') -> committed_state e' = committed_state e.
Proof.
  unfold rebuild_predicted_state. cbv zeta. destruct (_ <? 0).
  { destruct (prediction_needs_rebuild e); by intros [= _ <-]. }
  destruct (_ =? 0); [by intros [= _ <-]|].
  destruct (is_complete _); [by intros [= _ <-]|].
  destruct (_ || _); [|by intros [= _ <-]].
  destruct (run_state _ _ _ _) as [[[] ?]|]; try done; by intros [= _ <-].
Qed.

Lemma run_until_over e ts r e' obs :
  run_until_observing_boost fuel e ts = Some (r, e', obs) ->
  is_complete (committed_state e) = true -> is_complete (committed_state e') = true.
Proof.
  intros E Hc. unfold run_until_observing_boost in E.
  destruct (simulation_start_ms _); [|by injection E as _ <-]. cbv zeta in E.
  destruct (_ <? 0); [by injection E as _ <-|]. destruct (_ =? 0); [by injection E as _ <-|].
  assert (Hr : forall t, run_committed fuel (committed_state e) t [] [] = Some (Ok [], committed_state e, []))
    by (intros t; destruct fuel; cbn [run_committed]; by rewrite Hc).
  rewrite Hr in E. cbn [prediction_needs_rebuild with_committed] in E.
  set (e1 := with_committed (committed_state e) e) in E.
  assert (Hb : forall r e2, (if prediction_needs_rebuild e then rebuild_predicted_state fuel e1 ts else Some (Ok tt, e1))
    = Some (r, e2) -> committed_state e2 = committed_state e).
  { intros r2 e2. destruct (prediction_needs_rebuild e); [|by intros [= _ <-]].
    intros Hb. by rewrite (rebuild_committed _ _ _ _ Hb). }
  destruct (if prediction_needs_rebuild e then _ else _) as [[r2 e2]|] eqn:E2; [|done].
  clear E2. specialize (Hb _ _ eq_refl) as E2.
  destruct r2; [|injection E as _ <-; by rewrite E2..].
  unfold run_predicted in E. destruct (predicted_state e2); [|injection E as _ <-; by rewrite E2].
  destruct (run_state _ _ _ _) as [[[] ?]|]; [| | |done]; injection E as _ <-; cbn; by rewrite E2.
Qed.

Lemma pre_match_over e event r e' :
  Some (apply_pre_match_readiness_event e event) = Some (r, e') ->
  is_complete (committed_state e) = true -> is_complete (committed_state e') = true.
Proof.
  intros [= E] Hc. unfold apply_pre_match_readiness_event in E.
  destruct event; try by injection E as _ <-.
  all: destruct (negb _); injection E as _ <-; [done|];
    cbn [committed_state with_rebuild with_committed apply_event]; by destruct (gs_readiness (committed_state e)).
Qed.

#[local] Hint Resolve closed_recording closed_event_at : actor.
#[local] Hint Extern 1 (preserves closed (act_modify _)) => apply closed_modify; intros []; done : actor.
#[local] Hint Extern 1 (preserves closed (perform _)) => apply closed_perform; reflexivity : actor.
#[local] Hint Extern 1 (preserves closed (on_engine _)) =>
  apply closed_engine; intros ? ? ?; first [apply pre_match_over | apply run_until_over] : actor.

Lemma closed_event e : preserves closed (publish_event e).
Proof. unfold publish_event. frame. Qed.
Lemma closed_events l : preserves closed (publish_events l).
Proof. induction l as [|[[? ?] ?] l IH]; cbn [publish_events]; frame. Qed.
Lemma closed_checkpoint now_ms token : preserves closed (checkpoint now_ms token).
Proof. unfold checkpoint. frame. Qed.
#[local] Hint Resolve closed_event closed_events closed_checkpoint : actor.
Lemma closed_gate now_ms token : preserves closed (resolve_readiness_gate_if_due now_ms token).
Proof. unfold resolve_readiness_gate_if_due, pre_match, record_now. frame. Qed.
#[local] Hint Resolve closed_gate : actor.
Lemma closed_confirmation u now_ms token : preserves closed (apply_readiness_confirmation u now_ms token).
Proof. unfold apply_readiness_confirmation, record_readiness_transition, pre_match, record_now. frame. Qed.
Lemma closed_tick_hash now ts : preserves closed (publish_tick_hash_if_due now ts).
Proof. unfold publish_tick_hash_if_due. frame. Qed.
Lemma closed_cleanup now : preserves closed (cleanup_idle_player_matchmaking now).
Proof.
  unfold cleanup_idle_player_matchmaking. intros w x w' E Ho.
  rewrite act_get_bind, over_complete in E by done. by injection E as <- <-.
Qed.
Lemma closed_settle sid b now_ms token : preserves closed (settle_delivery sid b now_ms token).
Proof. unfold settle_delivery, publish_fresh_snapshot. frame. Qed.
Lemma closed_requested now_ms token :
  preserves closed (checkpoint_and_publish_requested_snapshot now_ms token).
Proof. unfold checkpoint_and_publish_requested_snapshot. frame. Qed.
#[local] Hint Resolve closed_confirmation closed_tick_hash closed_cleanup closed_settle : actor.

Lemma closed_advance now_ms now token : preserves closed (advance_live fuel now_ms now token).
Proof.
  unfold advance_live. apply preserves_bind; [frame|intros a]. apply preserves_bind; [frame|intros _].
  apply preserves_bind; [frame|intros before]. apply preserves_bind.
  { apply closed_engine. intros e x e'. destruct (run_until_observing_boost _ _ _) as [[[r e1] obs]|] eqn:E; [|done].
    intros [= <- <-]. by eapply run_until_over. }
  intros events. apply preserves_bind; [frame|intros _].
  apply (closed_branch terminal_pending); [|intros b; frame].
  unfold over, terminal_pending. by intros b [_ ->]%andb_true_iff; rewrite andb_false_r.
Qed.

Lemma closed_incorporate d now_ms token :
  dl_decision d = None -> preserves closed (incorporate fuel d now_ms token).
Proof.
  intros Hn w x w' E Ho. unfold incorporate in E. rewrite Hn in E.
  rewrite act_get_bind, (over_complete _ Ho) in E. revert Ho. by_frame closed E.
  unfold no_decision, incorporate_after_completion. frame.
Qed.

(** *** Completion *)

(** A committed completion publishes the terminal snapshot, after the counter. *)
Lemma commit_numbered now_ms token w x w' :
  ac_completion_committed w.1 = false -> is_complete (ac_state w.1) = true ->
  commit_completion_until_handoff now_ms token w = Some (Ok x, w') ->
  numbered (last_number w.1) w w' /\ is_complete (ac_state w'.1) = true
  /\ Forall (fun m => m.2 = true) (messages (drop (length w.2) w'.2)).
Proof.
  intros Hc Hd E. unfold commit_completion_until_handoff in E.
  assert (Hs : forall w', w'.2 = w.2 -> numbered (last_number w.1) w w' <-> last_number w'.1 = last_number w.1).
  { intros u Eu. split.
    - intros (l & El & _ & N). rewrite Eu in El. rewrite <-(app_nil_r w.2) in El at 1. apply app_inv_head in El as <-.
      cbn in N. lia.
    - intros N. exists []. rewrite app_nil_r. cbn. split; [done|]. split; [done|lia]. }
  apply act_bind_ok in E as (h & w1 & [= Eh <-] & E). destruct h.
  { injection E as _ <-. cbn. rewrite drop_all. split; [by apply Hs|]. by split; [|constructor]. }
  unfold commit_completion in E. apply act_bind_ok in E as (ready & w1 & E1 & E).
  assert (H1 : ac_engine w1.1 = ac_engine w.1 /\ w1.2 = w.2 /\ ac_completion_committed w1.1 = false
               /\ ac_next_event_stream_sequence w1.1 = ac_next_event_stream_sequence w.1).
  { unfold materialize_pending in E1. apply act_bind_ok in E1 as (a & w2 & [= <- <-] & E1).
    destruct (ac_pending_completion w.1); [by injection E1 as _ <-|].
    apply act_bind_ok in E1 as (log & w2 & [= _ <-] & E1).
    destruct (materialized log (ac_state w.1)); [|by injection E1 as _ <-].
    apply act_bind_ok in E1 as (ref & w2 & [= _ <-] & E1). cbv zeta in E1.
    apply act_bind_ok in E1 as (u & w2 & [= _ <-] & E1).
    apply act_bind_ok in E1 as (u' & w2 & [= _ <-] & E1). by injection E1 as _ <-. }
  destruct H1 as (Ee & El & Ec & En). destruct ready.
  2:{ injection E as _ <-. rewrite El, drop_all. split; [apply Hs; [done|]|].
      - unfold last_number. by rewrite Ec, Hc, En.
      - unfold ac_state in *. rewrite Ee. by split; [|constructor]. }
  apply act_bind_ok in E as (a & w2 & [= <- <-] & E).
  apply act_bind_ok in E as (record & w2 & [= Hrec <-] & E). cbv zeta in E.
  apply act_bind_ok in E as (u & w2 & [= _ <-] & E).
  apply act_bind_ok in E as (terminal & w2 & [= Ht <-] & E).
  apply act_bind_ok in E as (u' & w2 & Hp & E). injection E as _ <-.
  unfold perform in Hp. destruct (bus _ _); [|done..]. injection Hp as _ <-. cbn.
  unfold terminal_message in Ht. cbv zeta in Ht.
  destruct (context _ (checked_add_u64 _ _)) as [q|?|?] eqn:Eq; cbn [mbind result_bind] in Ht; [|done..].
  injection Ht as <-.
  apply checked_next in Eq as [-> _]. cbn [re_next_event_stream_sequence actor_envelope envelope_new].
  rewrite El, drop_app_length. split; [|split; [unfold ac_state in *; cbn; by rewrite Ee|by repeat constructor]].
  eexists. split; [reflexivity|]. unfold last_number. cbn. rewrite Hc, En, Z.add_0_r. split; [|lia].
  unfold range_Z. cbn. f_equal. lia.
Qed.

(** *** Operations *)

Definition settled (a : GameActor) : Prop := ac_completion_committed a = true -> is_complete (ac_state a) = true.

(** Messages numbered by the counter, without a completion. *)
Definition flows (w w' : World) : Prop := streamed w w' /\ ongoing w w'.

#[local] Instance flows_preorder : PreOrder flows.
Proof. split; [by intros w|]. intros x y z [? ?] [? ?]. split; by etrans. Qed.

Lemma flows_both {A} (m : Act A) : ok_preserves streamed m -> preserves ongoing m -> ok_preserves flows m.
Proof. intros H1 H2 w x w' E. split; [by eapply H1|by eapply H2]. Qed.

Lemma flows_numbered w w' :
  ac_completion_committed w.1 = false -> flows w w' ->
  numbered (last_number w.1) w w' /\ ac_completion_committed w'.1 = false.
Proof. intros Hc [H1 H2]. split; [by apply ongoing_numbered|]. destruct H2 as [-> _]. done. Qed.

Lemma flows_settled w w' : ac_completion_committed w.1 = false -> flows w w' -> settled w'.1.
Proof. intros Hc Hf H. destruct (flows_numbered _ _ Hc Hf) as [_ H']. congruence. Qed.

Lemma advance_numbered now_ms now token w x w' :
  ac_completion_committed w.1 = false -> advance_live fuel now_ms now token w = Some (Ok x, w') ->
  numbered (last_number w.1) w w' /\ settled w'.1.
Proof.
  intros Hc E. unfold advance_live in E. apply act_bind_ok in E as (a & w1 & [= <- <-] & E).
  apply act_bind_ok in E as (u & w1 & E1 & E). apply act_bind_ok in E as (b & w2 & [= <- <-] & E).
  apply act_bind_ok in E as (events & w2 & E2 & E). apply act_bind_ok in E as (u' & w3 & E3 & E).
  apply act_bind_ok in E as (a & w4 & [= <- <-] & E).
  assert (Hf : flows w w3).
  { transitivity w1; [|transitivity w2].
    - split; [|by_frame ongoing E1; frame]. revert E1.
      destruct (is_awaiting_readiness _); [apply streamed_gate|]. by intros [= _ <-].
    - split; [by eapply streamed_engine|by eapply ongoing_engine].
    - split; [by eapply streamed_recording|by eapply ongoing_recording]. }
  destruct (flows_numbered _ _ Hc Hf) as [Hn Hc3]. destruct (terminal_pending w3.1) eqn:Et.
  - apply andb_true_iff in Et as [Hd _]. apply commit_numbered in E as (Hn' & Hd' & _); [|done..].
    split; [by eapply numbered_trans|]. by intros _.
  - assert (Hf' : flows w3 w').
    { split.
      - refine ((fun Hp : ok_preserves streamed _ => Hp w3 x w' E) _). clear E. ok_frame;
          first [apply streamed_checkpoint|apply streamed_publish_events|apply streamed_tick_hash
                |apply ok_preserves_all, streamed_cleanup_idle].
      - by_frame ongoing E. frame. }
    destruct (flows_numbered _ _ Hc3 Hf') as [Hn' Hc']. split; [by eapply numbered_trans|]. by eapply flows_settled.
Qed.

Lemma live_step_numbered w w' :
  live_step fuel w w' -> settled w.1 -> numbered (last_number w.1) w w' /\ settled w'.1.
Proof.
  intros S Hs. destruct (over w.1) eqn:Ho.
  - assert (Hcl : closed w w').
    { destruct S as [d now_ms token x Hn E|now_ms now token x E|now_ms token x E].
      - by eapply closed_incorporate.
      - by eapply closed_advance.
      - by eapply closed_requested. }
    destruct (Hcl Ho) as [Ho' Hm]. split; [by apply mute_numbered|]. intros _. by apply over_complete.
  - assert (Hc : ac_completion_committed w.1 = false).
    { destruct (ac_completion_committed w.1) eqn:E; [|done]. unfold over in Ho. rewrite (Hs E), E in Ho. done. }
    assert (Hsame : streamed w w' -> ongoing w w' -> numbered (last_number w.1) w w' /\ settled w'.1).
    { intros H1 H2. split; [by apply ongoing_numbered|]. intros H. destruct H2 as [H2 _]. congruence. }
    destruct S as [d now_ms token x Hn E|now_ms now token x E|now_ms token x E].
    + apply Hsame; [by eapply streamed_incorporate|by eapply ongoing_incorporate].
    + by eapply advance_numbered.
    + apply Hsame; [by eapply streamed_requested_snapshot|by eapply ongoing_requested].
Qed.

(** The number on which the stream goes on after an activation: the counter, or
    the watermark that the incumbent left when it handed the game over. *)
Definition stream_start (a : GameActor) : Z :=
  match ac_planned_handoff_watermark a with
  | Some w => Z.max (ac_next_event_stream_sequence a) w
  | None => ac_next_event_stream_sequence a
  end.

Lemma mute_checkpoint now_ms token : preserves mute (checkpoint now_ms token).
Proof.
  assert (Hq : forall fx, fx_message fx = None -> preserves mute (perform fx)).
  { intros fx Hn w x w'. unfold perform. destruct (bus w.2 fx); intros [= <- <-]; try reflexivity.
    split; [done|]. exists [fx]. split; [done|]. unfold messages. cbn. by rewrite Hn. }
  assert (Hs : forall w w' : World, last_number w'.1 = last_number w.1 -> w'.2 = w.2 -> mute w w').
  { intros w w' H1 H2. split; [done|]. exists []. by rewrite app_nil_r. }
  unfold checkpoint. frame; [by apply Hq..| |].
  - intros w r w' [= <- <-]. by apply Hs.
  - intros w r w'. unfold on_recording. destruct (_ (ac_replay_recording w.1)). intros [= <- <-]. by apply Hs.
Qed.

(** A message of a match that is not over. *)
Lemma publish_event_head event w x w' :
  is_complete (ac_state w.1) = false -> publish_event event w = Some (Ok x, w') ->
  exists q, messages w'.2 = messages w.2 ++ [(q, is_snapshot_event event)].
Proof.
  intros Hd E. unfold publish_event in E. rewrite act_get_bind in E. unfold publish_event_at in E.
  rewrite act_get_bind, Hd in E. apply act_bind_ok in E as (q & w1 & [= _ <-] & E).
  apply act_bind_ok in E as (u & w1 & [= _ <-] & E). unfold perform in E. destruct (bus _ _); [|done..].
  injection E as _ <-. exists q. unfold messages. cbn. by rewrite omap_app.
Qed.

Lemma flows_grows w w' : flows w w' -> exists l, messages w'.2 = messages w.2 ++ l.
Proof. intros [(l & E & _) _]. exists (messages l). unfold messages. by rewrite E, omap_app. Qed.

(** The part of [activate] behind its checkpoint: the first message is the start
    of the match when that is pending, and the snapshot otherwise. *)
Lemma activation_tail now_ms now token w x w' :
  is_complete (ac_state w.1) = false -> messages w.2 = [] ->
  ((if ac_start_event_pending w.1
    then publish_event (Ev_StatusUpdated (Started (ac_server_id w.1))) ;; act_modify (set_start_pending false)
    else act_done) ;;
   a ← act_get;
   publish_event (snapshot_event a) ;;
   cleanup_idle_player_matchmaking now ;;
   act_modify (set_live true) ;;
   drain_deferred_readiness now_ms token) w = Some (Ok x, w') ->
  flows w w' /\ (ac_start_event_pending w.1 = false -> hd_error (messages w'.2).*2 = Some true).
Proof.
  intros Hd Hm E. assert (Hdrain : ok_preserves streamed (drain_deferred_readiness now_ms token)).
  { assert (H : forall l, ok_preserves streamed (confirm_all l now_ms token))
      by (induction l; cbn [confirm_all]; ok_frame; apply streamed_confirmation).
    unfold drain_deferred_readiness. ok_frame. }
  apply act_bind_ok in E as (u & w1 & E1 & E). rewrite act_get_bind in E.
  apply act_bind_ok in E as (u2 & w2 & E2 & E).
  assert (F2 : flows w1 w2) by (split; [by eapply streamed_publish_event|by eapply ongoing_event]).
  assert (F3 : flows w2 w').
  { split; [|by_frame ongoing E; frame].
    refine ((fun Hp : ok_preserves streamed _ => Hp w2 x w' E) _). clear E. ok_frame;
      apply ok_preserves_all, streamed_cleanup_idle. }
  assert (F1 : flows w w1).
  { split; [|by_frame ongoing E1; frame].
    refine ((fun Hp : ok_preserves streamed _ => Hp w u w1 E1) _). clear E1. ok_frame. apply streamed_publish_event. }
  split; [by etrans; [|etrans]|]. intros Hs. rewrite Hs in E1. injection E1 as _ <-.
  apply publish_event_head in E2 as (q & Eq); [|done]. destruct (flows_grows _ _ F3) as (l & El).
  rewrite El, Eq, Hm. done.
Qed.

(** A checkpoint leaves the match, the identity and the pending start alone. *)
Definition same_match (w w' : World) : Prop :=
  ac_engine w'.1 = ac_engine w.1 /\ ac_start_event_pending w'.1 = ac_start_event_pending w.1
  /\ ac_server_id w'.1 = ac_server_id w.1.

#[local] Instance same_match_preorder : PreOrder same_match.
Proof. split; [done|]. intros x y z (? & ? & ?) (? & ? & ?). unfold same_match. intuition congruence. Qed.

Lemma checkpoint_keeps now_ms token : preserves same_match (checkpoint now_ms token).
Proof.
  assert (Hq : forall fx, preserves same_match (perform fx))
    by (intros fx w x w'; unfold perform; destruct (bus w.2 fx); by intros [= <- <-]).
  unfold checkpoint. frame; [apply Hq..| |].
  - by intros w r w' [= <- <-].
  - intros w r w'. unfold on_recording. destruct (_ (ac_replay_recording w.1)). by intros [= <- <-].
Qed.

Lemma activate_numbered now_ms now token a x w' :
  ac_completion_committed a = false -> activate fuel now_ms now token (a, []) = Some (Ok x, w') ->
  numbered (stream_start a) (a, []) w' /\ settled w'.1
  /\ (ac_start_event_pending a = false -> messages w'.2 = [] \/ hd_error (messages w'.2).*2 = Some true).
Proof.
  intros Hc E. unfold activate in E. apply act_bind_ok in E as (events & w1 & E1 & E).
  apply act_bind_ok in E as (u & w2 & E2 & E). apply act_bind_ok in E as (u2 & w3 & [= _ <-] & E).
  rewrite act_get_bind in E.
  assert (H2 : w2.2 = [] /\ ac_completion_committed w2.1 = false /\ stream_start w2.1 = stream_start a
    /\ ac_start_event_pending w2.1 = ac_start_event_pending a).
  { unfold on_engine in E1. destruct (run_until _ _ _) as [[r e]|]; [|done]. injection E1 as _ <-.
    unfold on_recording in E2. destruct (record_events _ _). injection E2 as _ <-. done. }
  destruct H2 as (El & Hc2 & Hs2 & Hp2). set (a3 := match ac_planned_handoff_watermark w2.1 with Some _ => _ | None => _ end) in *.
  assert (H3 : ac_completion_committed a3 = false /\ last_number a3 = stream_start a
    /\ ac_start_event_pending a3 = ac_start_event_pending a).
  { unfold last_number, a3. rewrite <-Hs2, <-Hp2. unfold stream_start.
    destruct (ac_planned_handoff_watermark w2.1); cbn; rewrite Hc2; (split; [done|]; split; [lia|done]). }
  destruct H3 as (Hc3 & Hn3 & Hp3). rewrite El in E. cbn [fst] in E. clearbody a3. clear E1 E2 El Hc2 Hs2 Hp2 w1 w2 events u.
  rewrite <-Hn3, <-Hp3. clear Hn3 Hp3 Hc.
  assert (Hstart : forall w, numbered (last_number a3) (a3, []) w -> numbered (last_number a3) (a, []) w).
  { intros w (l & E1 & H). exists l. done. }
  destruct (terminal_pending a3) eqn:Et.
  - apply andb_true_iff in Et as [Hd _]. apply act_bind_ok in E as (u & w4 & [= _ <-] & E).
    apply commit_numbered in E as (Hn & Hd' & Hall); [|done..]. cbn [length fst snd] in *. rewrite drop_0 in Hall.
    split; [by apply Hstart|]. split; [by intros _|]. intros _.
    destruct Hall as [|m l Hm _]; [by left|right]. cbn. by rewrite Hm.
  - assert (Hd : is_complete (ac_state a3) = false)
      by (unfold terminal_pending in Et; rewrite Hc3 in Et; by destruct (is_complete _)).
    apply act_bind_ok in E as (u & w4 & E4 & E). apply act_bind_ok in E as (u5 & w5 & E5 & E).
    assert (M : messages w5.2 = []).
    { apply mute_checkpoint in E5 as (_ & l & El & Ml). unfold on_recording in E4. destruct (maybe_anchor _ _).
      injection E4 as _ <-. rewrite El. exact Ml. }
    assert (F : flows (a3, []) w5).
    { transitivity w4; split; [by eapply streamed_recording|by eapply ongoing_recording
        |by eapply streamed_checkpoint|by eapply ongoing_checkpoint]. }
    assert (K : ac_engine w5.1 = ac_engine a3 /\ ac_start_event_pending w5.1 = ac_start_event_pending a3
                /\ ac_server_id w5.1 = ac_server_id a3).
    { unfold on_recording in E4. destruct (maybe_anchor _ _). injection E4 as _ <-. revert E5.
      by apply checkpoint_keeps. }
    destruct K as (Ke & Kp & Ki). rewrite <-Kp, <-Ki in E. apply activation_tail in E as [F' Hh]; [|..|done];
      [|unfold ac_state in *; by rewrite Ke].
    assert (F2 : flows (a3, []) w') by (by etrans).
    destruct (flows_numbered (a3, []) w' Hc3 F2) as [Hn Hc']. split; [by apply Hstart|].
    split; [by eapply (flows_settled (a3, []))|]. rewrite <-Kp. auto.
Qed.

End numbering.

(** A client accounts for every message it receives; [None] when it drops one. *)
Fixpoint account_all (s : SyncStatus) (l : list (Z * bool)) : option SyncStatus :=
  match l with
  | [] => Some s
  | (q, snap) :: l' =>
      match account_stream s q snap with Some s => account_all s l' | None => None end
  end.

Lemma account_next s n snap :
  0 <= n -> n + 1 <= u64_max -> last_stream_seq s = n ->
  account_stream s (n + 1) snap = Some {| s with last_stream_seq := n + 1 |}.
Proof.
  intros H0 Hu E. unfold account_stream. rewrite (proj2 (Z.ltb_lt _ _)) by lia. rewrite E.
  destruct (snap || _); [done|]. rewrite (proj2 (Z.leb_gt _ _)) by lia.
  rewrite wrap_u64_id by (unfold is_u64; lia). by rewrite Z.ltb_irrefl.
Qed.

Lemma account_range l s n :
  0 <= n -> n + Z.of_nat (length l) <= u64_max -> last_stream_seq s = n ->
  l.*1 = range_Z (n + 1) (length l) ->
  account_all s l = Some {| s with last_stream_seq := n + Z.of_nat (length l) |}.
Proof.
  revert s n. induction l as [|[q snap] l IH]; intros s n H0 Hu E El; cbn [account_all length].
  - rewrite Z.add_0_r, <-E. by destruct s.
  - cbn [length] in Hu, El. change (S (length l)) with (1 + length l)%nat in El.
    rewrite range_Z_app in El. injection El as Eq El. cbn in El.
    assert (q = n + 1) as -> by lia. rewrite account_next by (lia || done).
    rewrite (IH _ (n + 1)); [|lia|lia|done|].
    + f_equal. cbn. f_equal. lia.
    + exact El.
Qed.


(** An actor that takes over from an incumbent whose last message was the fifth:
    it is activated, decides a command and advances a second. *)
Definition successor : GameActor :=
  set_watermark (Some 5) (set_live false sample_actor).
Definition activated : World :=
  world_after (@activate identity_libm sample_recorder calm_bus 20 400 4 "t" (successor, [])).
Definition delivered : World :=
  world_after (@incorporate identity_libm sample_recorder calm_bus 20 (first_command_at "500-0") 500 "t" activated).
Definition advanced : World :=
  world_after (@advance_live identity_libm sample_recorder calm_bus 20 1000 10 "t" delivered).


(** ** Recovery by a successor *)

(** C3. A successor reproduces the match: an incumbent checkpoints, then
    advances, decides commands and checkpoints again; a successor built from the
    stored checkpoint that is given the same deliveries, with the decisions of
    the journal attached, incorporates all of them without a write to the bus
    and ends with the incumbent's ledger, command counter and cursor, and with a
    state from which the quanta up to any later tick end in the incumbent's
    state. *)
Theorem failover_reproduces_the_match {FL : F32Libm} {RE : RecorderEnv} {AE : ActorEnv}
    fuel a ds w server_id partition config now_ms now token b0 log now_ms' token' :
  serializer_total -> incumbent_ok a -> gs_status (ac_state a) <> Stopped ->
  max_outcomes a = rc_max_recorded_outcomes_per_session config ->
  incumbent_run fuel (a, []) ds w ->
  from_envelope server_id partition (stored_envelope (actor_envelope a now_ms token)) config now = Ok b0 ->
  recorder_room (ac_replay_recording b0) (vec_len ds) ->
  exists k b,
    redeliver k (attach_command_decisions ds (journal_of w.2)).1 now_ms' token' (b0, log)
      = Some (Ok tt, (b, log))
    /\ ac_resolved b = ac_resolved w.1
    /\ command_counter (ac_engine b) = command_counter (ac_engine w.1)
    /\ ac_command_cursor b = ac_command_cursor w.1
    /\ forall n target out st obs, gs_tick (ac_state w.1) <= target ->
       run_committed n (ac_state w.1) target [] [] = Some (Ok out, st, obs) ->
       exists n' out' obs', run_committed n' (ac_state b) target [] [] = Some (Ok out', st, obs').
Proof.
  intros Hj I Hst Hm Hrun Hb0 Hroom.
  pose proof (stored_follows _ _ _ _ _ _ _ _ Hst Hm Hb0) as F0.
  destruct (follows_run fuel (a, []) ds w b0 log now_ms' token' 0) as (_ & V & k & b & Hb & F & _);
    [done..|by rewrite Z.add_0_r|].
  exists k, b. split.
  { rewrite (attach_journal _ _ (ri_distinct _ _ V)). specialize (Hb 0%nat).
    by rewrite Nat.add_0_r in Hb. }
  destruct F as [_ _ Fr Fc Fcur [j Fre] _ _]. split; [done|]. split; [done|]. split; [done|].
  intros n target out st obs Ht E. by eapply run_committed_through.
Qed.

(** The sample incumbent after its first command and a second of play. *)
Lemma sample_incumbent : @incumbent_run identity_libm sample_recorder calm_bus 20 (sample_actor, [])
  [first_command_at "500-0"] world_2.
Proof.
  eapply run_advance; [| |intros epoch He|exact step_2].
  - apply (@run_deliver identity_libm sample_recorder calm_bus 20 (sample_actor, []) []
             (sample_actor, []) world_1 "500-0" 1 1 first_identity up_turn 500 "t");
      [constructor|reflexivity..|split; [discriminate|reflexivity]|reflexivity|exact step_1].
  - vm_compute. reflexivity.
  - assert (Es : simulation_start_ms (committed_state (ac_engine world_1.1)) = Some 0)
      by (vm_compute; reflexivity).
    rewrite Es in He. injection He as <-. vm_compute. reflexivity.
Qed.

Definition sample_envelope : RecoveryEnvelopeV2 :=
  stored_envelope (@actor_envelope sample_recorder sample_actor 400 "t").

Lemma failover_reproduces_the_match_witness :
  exists b0 k b, @from_envelope sample_recorder 10 1 sample_envelope RecoveryConfig_default 0 = Ok b0
    /\ @redeliver identity_libm sample_recorder calm_bus k
         (attach_command_decisions [first_command_at "500-0"] (journal_of world_2.2)).1
         2000 "u" (b0, []) = Some (Ok tt, (b, []))
    /\ command_counter (ac_engine b) = 1 /\ ac_command_cursor b = "500-0".
Proof.
  destruct (@from_envelope sample_recorder 10 1 sample_envelope RecoveryConfig_default 0)
    as [b0|x|x] eqn:Eb; [|vm_compute in Eb; discriminate..].
  assert (Hroom : recorder_room (ac_replay_recording b0) 1).
  { assert (Er : match @from_envelope sample_recorder 10 1 sample_envelope RecoveryConfig_default 0 with
                 | Ok b => rr_next_sequence (ac_replay_recording b) = 1
                           /\ rr_journal_cursor (ac_replay_recording b) = 1
                 | _ => False
                 end) by (vm_compute; split; reflexivity).
    rewrite Eb in Er.
    destruct Er as [E1 E2]. split; rewrite ?E1, ?E2; vm_compute; discriminate. }
  destruct (@failover_reproduces_the_match identity_libm sample_recorder calm_bus 20 sample_actor
              [first_command_at "500-0"] world_2 10 1 RecoveryConfig_default 400 0 "t" b0 [] 2000 "u")
    as (k & b & E & _ & Ec & Ecur & _).
  - intros e. by exists 100.
  - split; [exact (@reachable_life identity_libm _ duel_reachable)|vm_compute; discriminate|done].
  - vm_compute. discriminate.
  - reflexivity.
  - exact sample_incumbent.
  - exact Eb.
  - exact Hroom.
  - exists b0, k, b. split; [reflexivity|]. split; [exact E|]. rewrite Ec, Ecur.
    vm_compute. split; reflexivity.
Defined.
