(* ===== verification/RecoveryTheorems.v ===== *)
(** * Theorems on recovery

    Stream ids, the order of a batch, the ledger of resolved commands as a
    bounded memory of a history, and the journal of a recorder. *)

From Stdlib Require Import ZArith.
From stdpp Require Import prelude strings countable list gmap.
From S2P Require Import Prelude RustFloat Util Snake SnakeTheorems Arena CommandQueue GameState.
From S2P Require Import GameSetup Events Validate Tick Fingerprint Engine MatchTheorems.
From S2P Require Import EngineTheorems StreamId CommandLedger LedgerFacts Recording Journal.
From S2P Require Import JournalFacts Recovery Actor ActorTheorems.
Open Scope Z_scope.

Definition of_game (g : Z) (d : CommandDelivery) : Prop := delivery_game_id (dl_payload d) = Some g.
#[global] Instance of_game_dec g d : Decision (of_game g d).
Proof. unfold of_game. apply _. Defined.

(** The deliveries of a game, in order. *)
Abbreviation game_part g l := (filter (of_game g) l).

(** ** Queues *)

Fixpoint queue_of (g : Z) (queues : list (Z * list CommandDelivery)) : list CommandDelivery :=
  match queues with
  | [] => []
  | (g', q) :: queues' => if g' =? g then q else queue_of g queues'
  end.

Record labelled (queues : list (Z * list CommandDelivery)) : Prop := mkLabelled {
  la_games : NoDup (fst <$> queues);
  la_parts : Forall (fun gq => Forall (of_game gq.1) gq.2) queues
}.

Lemma labelled_cons g q queues :
  labelled ((g, q) :: queues) <->
  (g ∉ queues.*1) /\ Forall (of_game g) q /\ labelled queues.
Proof.
  split.
  - intros [Hn Hp]. cbn in Hn. apply NoDup_cons in Hn as [? ?]. apply Forall_cons in Hp as [? ?]. done.
  - intros (? & ? & []). split; [by apply NoDup_cons|by constructor].
Qed.

Lemma push_games g d queues x : x ∈ (push_game_queue g d queues).*1 <-> x = g \/ x ∈ (queues.*1).
Proof.
  induction queues as [|[g' q] queues IH]; cbn [push_game_queue].
  - cbn. set_solver.
  - destruct (Z.eqb_spec g' g) as [->|]; cbn; [set_solver|]. rewrite !elem_of_cons. rewrite IH. set_solver.
Qed.

Lemma push_labelled g d queues :
  labelled queues -> of_game g d -> labelled (push_game_queue g d queues).
Proof.
  intros L Hd. induction queues as [|[g' q] queues IH]; cbn [push_game_queue].
  - split; [apply NoDup_singleton|]. repeat constructor. exact Hd.
  - apply labelled_cons in L as (Hn & Hq & L). destruct (Z.eqb_spec g' g) as [->|Hne].
    + apply labelled_cons. split; [done|]. split; [|done]. apply Forall_app. by repeat constructor.
    + apply labelled_cons. split; [|by auto]. rewrite push_games. set_solver.
Qed.

Lemma push_queue g d queues h :
  queue_of h (push_game_queue g d queues) = queue_of h queues ++ (if g =? h then [d] else []).
Proof.
  induction queues as [|[g' q] queues IH]; cbn [push_game_queue queue_of].
  - by destruct (g =? h).
  - destruct (Z.eqb_spec g' g) as [->|]; cbn [queue_of].
    + destruct (g =? h); [done|]. by rewrite app_nil_r.
    + destruct (Z.eqb_spec g' h) as [->|]; [|exact IH].
      rewrite (proj2 (Z.eqb_neq g h)) by done. by rewrite app_nil_r.
Qed.

Lemma game_queues_spec run queues queues' :
  labelled queues -> game_queues run queues = Some queues' ->
  labelled queues' /\ forall g, queue_of g queues' = queue_of g queues ++ game_part g run.
Proof.
  revert queues. induction run as [|d run IH]; intros queues L; cbn [game_queues].
  - intros [= <-]. split; [done|]. intros g. by rewrite app_nil_r.
  - destruct (delivery_game_id (dl_payload d)) as [g0|] eqn:Ed; [|done]. intros E.
    destruct (IH _ (push_labelled _ _ _ L Ed) E) as [L' Hq]. split; [done|]. intros g.
    rewrite Hq, push_queue, <-app_assoc. f_equal. rewrite filter_cons.
    destruct (Z.eqb_spec g0 g) as [->|Hne].
    + by rewrite decide_True.
    + rewrite decide_False; [done|]. unfold of_game. congruence.
Qed.

(** ** One turn *)

Definition turn_queues (queues : list (Z * list CommandDelivery))
  : list (Z * list CommandDelivery) := (fun gq => (gq.1, tl gq.2)) <$> queues.

Lemma turn_labelled queues : labelled queues -> labelled (turn_queues queues).
Proof.
  induction queues as [|[g q] queues IH]; [done|]. intros (Hn & Hq & L)%labelled_cons.
  cbn. apply labelled_cons. split; [|split; [|by apply IH]].
  - unfold turn_queues. rewrite <-list_fmap_compose. exact Hn.
  - destruct Hq; [constructor|done].
Qed.

Lemma turn_rest queues : (turn queues.*2).2 = (turn_queues queues).*2.
Proof. cbn. unfold turn_queues. by rewrite <-!list_fmap_compose. Qed.

Lemma turn_queue_of g queues : queue_of g (turn_queues queues) = tl (queue_of g queues).
Proof.
  induction queues as [|[g' q] queues IH]; [done|]. cbn. by destruct (g' =? g).
Qed.

Lemma queue_fresh g queues : g ∉ (queues.*1) -> queue_of g queues = [].
Proof.
  induction queues as [|[g' q] queues IH]; [done|]. cbn. rewrite not_elem_of_cons. intros [? ?].
  rewrite (proj2 (Z.eqb_neq g' g)) by done. by apply IH.
Qed.

(** A turn serves every game at most once, and each that waits. *)
Lemma turn_part g queues :
  labelled queues -> game_part g (turn queues.*2).1 = take 1 (queue_of g queues).
Proof.
  intros L. change (game_part g (omap hd_error (queues.*2)) = take 1 (queue_of g queues)).
  induction queues as [|[g' q] queues IH]; [done|]. apply labelled_cons in L as (Hn & Hq & L).
  specialize (IH L). cbn [queue_of]. destruct q as [|d q].
  - change (omap hd_error (((g', []) :: queues).*2)) with (omap (@hd_error CommandDelivery) (queues.*2)).
    rewrite IH. destruct (Z.eqb_spec g' g) as [->|]; [|done]. by rewrite queue_fresh.
  - change (omap hd_error (((g', d :: q) :: queues).*2))
      with (d :: omap (@hd_error CommandDelivery) (queues.*2)).
    apply Forall_cons in Hq as [Hd _]. rewrite filter_cons.
    destruct (Z.eqb_spec g' g) as [->|Hne].
    + rewrite decide_True by done. by rewrite IH, queue_fresh.
    + rewrite decide_False; [done|]. unfold of_game in *. congruence.
Qed.

Lemma turn_empty queues : (turn queues).1 = [] -> Forall (fun q => q = []) queues.
Proof. cbn. induction queues as [|[|d q] queues IH]; cbn; [constructor|constructor; auto|done]. Qed.

Lemma all_empty g queues : Forall (fun q => q = []) queues.*2 -> queue_of g queues = [].
Proof.
  induction queues as [|[g' q] queues IH]; cbn; [done|]. intros [-> Hf]%Forall_cons.
  destruct (g' =? g); [done|by apply IH].
Qed.

(** ** The rounds *)

Definition fits (n : nat) (queues : list (list CommandDelivery)) : Prop :=
  Forall (fun q => (length q <= n)%nat) queues.

Lemma fits_turn n queues : fits (S n) queues -> fits n (turn queues).2.
Proof.
  unfold fits. cbn. induction 1 as [|q l Hq Hl IH]; cbn; constructor; [|done].
  destruct q; cbn in *; lia.
Qed.

(** Every game sees exactly its queue, in order. *)
Lemma round_robin_part g n queues :
  labelled queues -> fits n queues.*2 -> game_part g (round_robin n queues.*2) = queue_of g queues.
Proof.
  revert queues. induction n as [|n IH]; intros queues L Hf; cbn [round_robin].
  - symmetry. apply all_empty. eapply Forall_impl; [exact Hf|]. cbn. intros q Hq.
    apply nil_length_inv. lia.
  - pose proof (turn_part g queues L) as Hp. pose proof (fits_turn _ _ Hf) as Hf'.
    rewrite turn_rest in Hf'. destruct (turn queues.*2) as [out rest] eqn:Et.
    assert (Er : rest = (turn_queues queues).*2) by (rewrite <-turn_rest; by rewrite Et).
    destruct out as [|d out].
    + symmetry. apply all_empty, turn_empty. by rewrite Et.
    + rewrite filter_app. cbn [fst] in Hp. rewrite Hp, Er, IH, turn_queue_of;
        [|by apply turn_labelled|done]. by destruct (queue_of g queues).
Qed.

(** No delivery is lost or repeated. *)
Lemma turn_perm (queues : list (list CommandDelivery)) :
  (turn queues).1 ++ concat (turn queues).2 ≡ₚ concat queues.
Proof.
  cbn. induction queues as [|[|d q] queues IH]; cbn; [done|exact IH|].
  constructor. rewrite app_assoc, (Permutation_app_comm _ q), <-app_assoc. by rewrite IH.
Qed.

Lemma round_robin_perm n queues : fits n queues -> round_robin n queues ≡ₚ concat queues.
Proof.
  revert queues. induction n as [|n IH]; intros queues Hf; cbn [round_robin].
  - induction Hf as [|q l Hq Hl IHl]; cbn; [done|]. rewrite <-IHl.
    by assert (q = []) as -> by (apply nil_length_inv; lia).
  - pose proof (turn_perm queues) as Hp. pose proof (fits_turn _ _ Hf) as Hf'.
    destruct (turn queues) as [out rest] eqn:Et. cbn in Hp, Hf'. destruct out as [|d out].
    + assert (He : Forall (fun q => q = []) queues) by (apply turn_empty; by rewrite Et).
      clear -He. induction He as [|q l -> Hl IHl]; cbn; [done|exact IHl].
    + by rewrite (IH rest Hf').
Qed.

(** ** Fairness *)

(** How many deliveries of a game a list holds. *)
Definition served (g : Z) (l : list CommandDelivery) : nat := length (game_part g l).

Lemma served_app g l1 l2 : served g (l1 ++ l2) = (served g l1 + served g l2)%nat.
Proof. unfold served. by rewrite filter_app, length_app. Qed.

Lemma served_prefix g p l : p `prefix_of` l -> (served g p <= served g l)%nat.
Proof. intros [k ->]. rewrite served_app. lia. Qed.

(** While a game waits, no other game is more than one delivery ahead of it. *)
Lemma round_robin_fair g h n queues p :
  labelled queues -> fits n (queues.*2) -> p `prefix_of` round_robin n (queues.*2) ->
  (served g p < length (queue_of g queues))%nat -> (served h p <= S (served g p))%nat.
Proof.
  revert queues p. induction n as [|n IH]; intros queues p L Hf Hp Hlt; cbn [round_robin] in Hp.
  { apply prefix_nil_inv in Hp as ->. cbn. lia. }
  assert (Hg : forall x, served x (turn (queues.*2)).1 = length (take 1 (queue_of x queues))).
  { intros x. unfold served. by rewrite turn_part. }
  pose proof (fits_turn _ _ Hf) as Hf'. rewrite turn_rest in Hf'.
  pose proof (turn_rest queues) as Er.
  destruct (turn (queues.*2)) as [out rest] eqn:Et. cbn [fst snd] in Hg, Er. subst rest.
  assert (Hone : (served h out <= 1)%nat) by (rewrite Hg, length_take; lia).
  destruct out as [|d out']; [apply prefix_nil_inv in Hp as ->; cbn; lia|].
  remember (d :: out') as out eqn:Eout. clear Eout.
  destruct (decide (length p <= length out)%nat) as [Hle|Hgt].
  { assert (Hpre : p `prefix_of` out).
    { destruct Hp as [k Hk]. exists (drop (length p) out).
      apply (f_equal (take (length p))) in Hk. rewrite take_app_le, take_app_length in Hk by lia.
      rewrite <-Hk at 1. by rewrite take_drop. }
    pose proof (served_prefix h _ _ Hpre). lia. }
  assert (exists p', p = out ++ p' /\ p' `prefix_of` round_robin n ((turn_queues queues).*2))
    as (p' & -> & Hp').
  { destruct Hp as [k Hk]. exists (drop (length out) p).
    assert (Eo : take (length out) p = out).
    { apply (f_equal (take (length out))) in Hk. rewrite take_app_length, take_app_le in Hk by lia. done. }
    split; [rewrite <-Eo at 1; by rewrite take_drop|]. exists k.
    apply (f_equal (drop (length out))) in Hk.
    by rewrite drop_app_length, drop_app_le in Hk by lia. }
  rewrite !served_app in *. rewrite (Hg g), length_take in *.
  specialize (IH (turn_queues queues) p' (turn_labelled _ L) Hf' Hp').
  rewrite turn_queue_of in IH.
  assert (Htl : length (tl (queue_of g queues)) = (length (queue_of g queues) - 1)%nat)
    by (destruct (queue_of g queues); cbn; lia).
  lia.
Qed.

(** ** A run and a batch *)

Lemma labelled_queue g q queues : labelled queues -> (g, q) ∈ queues -> queue_of g queues = q.
Proof.
  induction queues as [|[g' q'] queues IH]; [by intros _ ?%elem_of_nil|].
  intros (Hn & _ & L)%labelled_cons [E|Hin]%elem_of_cons; cbn.
  - injection E as -> ->. by rewrite Z.eqb_refl.
  - destruct (Z.eqb_spec g' g) as [->|]; [|by apply IH]. exfalso. apply Hn.
    apply list_elem_of_fmap. by exists (g, q).
Qed.

Lemma labelled_nil : labelled [].
Proof. split; constructor. Qed.

Lemma run_fits run queues :
  game_queues run [] = Some queues -> labelled queues /\ fits (length run) (queues.*2)
  /\ forall g, queue_of g queues = game_part g run.
Proof.
  intros E. destruct (game_queues_spec _ _ _ labelled_nil E) as [L Hq]. cbn in Hq.
  split; [done|]. split; [|done]. apply Forall_fmap, Forall_forall. intros [g q] Hin. cbn.
  rewrite <-(labelled_queue _ _ _ L Hin), Hq. apply length_filter.
Qed.

Lemma game_queues_total run queues :
  Forall (fun d => is_Some (delivery_game_id (dl_payload d))) run ->
  is_Some (game_queues run queues).
Proof.
  intros Hf. revert queues. induction Hf as [|d run [g Hg] Hr IH]; intros queues;
    cbn [game_queues]; [by eexists|]. rewrite Hg. apply IH.
Qed.

Lemma queues_perm run queues queues' :
  game_queues run queues = Some queues' -> concat (queues'.*2) ≡ₚ concat (queues.*2) ++ run.
Proof.
  revert queues. induction run as [|d run IH]; intros queues; cbn [game_queues].
  - intros [= <-]. by rewrite app_nil_r.
  - destruct (delivery_game_id (dl_payload d)) as [g|]; [|done]. intros E.
    rewrite (IH _ E). assert (Hp : concat ((push_game_queue g d queues).*2) ≡ₚ concat (queues.*2) ++ [d]).
    { clear. induction queues as [|[g' q] queues IH]; cbn; [done|].
      destruct (g' =? g); cbn; [by rewrite <-!app_assoc, (Permutation_app_comm _ [d])|].
      by rewrite IH, app_assoc. }
    by rewrite Hp, <-app_assoc.
Qed.

Lemma run_ok run :
  Forall (fun d => is_Some (delivery_game_id (dl_payload d))) run ->
  exists out, append_round_robin_game_delivery_run run = Ok out /\ out ≡ₚ run
    /\ (forall g, game_part g out = game_part g run)
    /\ forall g h p, p `prefix_of` out -> (served g p < served g run)%nat ->
       (served h p <= S (served g p))%nat.
Proof.
  intros Hf. destruct (game_queues_total run [] Hf) as [queues Eq].
  unfold append_round_robin_game_delivery_run. rewrite Eq.
  destruct (run_fits _ _ Eq) as (L & Hfit & Hq). eexists. split; [done|]. split; [|split].
  - rewrite round_robin_perm by done. by rewrite (queues_perm _ _ _ Eq).
  - intros g. by rewrite round_robin_part.
  - intros g h p Hp Hlt. eapply round_robin_fair; [exact L|exact Hfit|exact Hp|]. by rewrite Hq.
Qed.

Lemma batch_ok deliveries run :
  Forall (fun d => is_Some (delivery_game_id (dl_payload d))) run ->
  exists out, round_robin_runs deliveries run = Ok out /\ out ≡ₚ run ++ deliveries
    /\ forall g, game_part g out = game_part g (run ++ deliveries).
Proof.
  revert run. induction deliveries as [|d ds IH]; intros run Hf; cbn [round_robin_runs].
  - destruct (run_ok run Hf) as (out & -> & Hp & Hg & _). exists out. by rewrite app_nil_r.
  - destruct (delivery_game_id (dl_payload d)) as [g0|] eqn:Ed.
    + destruct (IH (run ++ [d])) as (out & -> & Hp & Hg).
      { apply Forall_app. split; [done|]. repeat constructor. by eexists. }
      exists out. split; [done|]. by rewrite <-app_assoc in Hp, Hg.
    + destruct (run_ok run Hf) as (out1 & -> & Hp1 & Hg1 & _).
      destruct (IH [] (Forall_nil_2 _)) as (out2 & -> & Hp2 & Hg2). cbn in Hp2, Hg2 |- *.
      eexists. split; [done|]. split; [by rewrite Hp1, Hp2|]. intros g.
      rewrite !filter_app, !filter_cons, Hg1, Hg2. done.
Qed.

(** Batches of addressable deliveries are one run. *)
Lemma batch_addressable deliveries run :
  Forall (fun d => is_Some (delivery_game_id (dl_payload d))) deliveries ->
  round_robin_runs deliveries run = append_round_robin_game_delivery_run (run ++ deliveries).
Proof.
  intros Hf. revert run. induction Hf as [|d ds [g Hg] Hr IH]; intros run; cbn [round_robin_runs].
  - by rewrite app_nil_r.
  - rewrite Hg, IH, <-app_assoc. done.
Qed.

(** ** Stream ids *)

(** Stream ids round trip: the id Redis prints for an entry parses to its
    time and sequence number, and two printed ids compare as the pairs they
    stand for, time first. *)
Theorem stream_ids_round_trip ms1 seq1 ms2 seq2 :
  is_u64 ms1 -> is_u64 seq1 -> is_u64 ms2 -> is_u64 seq2 ->
  validate_stream_id (display_stream_id ms1 seq1) = Ok (ms1, seq1)
  /\ stream_id_leq (display_stream_id ms1 seq1) (display_stream_id ms2 seq2)
     = Ok (bool_decide (ms1 < ms2 \/ (ms1 = ms2 /\ seq1 <= seq2))).
Proof.
  intros H1 H2 H3 H4. split; [by apply validate_display|]. unfold stream_id_leq.
  rewrite !validate_display by done. cbn. f_equal.
  destruct (pair_leb _ _) eqn:E; symmetry.
  - apply pair_leb_spec in E. by apply bool_decide_eq_true.
  - apply bool_decide_eq_false. intros Hle.
    assert (pair_leb (ms1, seq1) (ms2, seq2) = true) by (by apply pair_leb_spec). congruence.
Qed.

Lemma stream_ids_round_trip_witness :
  display_stream_id 500 0 = "500-0"
  /\ stream_id_leq (display_stream_id 500 0) (display_stream_id 1700000000000 2) = Ok true.
Proof.
  split; [vm_compute; reflexivity|].
  destruct (stream_ids_round_trip 500 0 1700000000000 2) as [_ ->];
    [unfold is_u64, u64_max; lia..|]. vm_compute. reflexivity.
Defined.

(** ** Batches *)

(** A batch is reordered fairly: nothing is lost, repeated or refused; every
    game sees its deliveries in their order; and when every delivery is
    addressed to a game, at each point of the batch no game is more than one
    delivery ahead of a game that still waits. *)
Theorem batches_are_fair deliveries :
  exists out, round_robin_game_delivery_runs deliveries = Ok out /\ out ≡ₚ deliveries
    /\ (forall g, filter (of_game g) out = filter (of_game g) deliveries)
    /\ (Forall (fun d => is_Some (delivery_game_id (dl_payload d))) deliveries ->
        forall g h p, p `prefix_of` out -> (served g p < served g deliveries)%nat ->
        (served h p <= S (served g p))%nat).
Proof.
  destruct (batch_ok deliveries [] (Forall_nil_2 _)) as (out & E & Hp & Hg).
  exists out. split; [exact E|]. split; [exact Hp|]. split; [exact Hg|]. intros Hf.
  rewrite (batch_addressable _ _ Hf) in E.
  destruct (run_ok deliveries Hf) as (out' & E' & _ & _ & Hfair). cbn [app] in E.
  rewrite E' in E. injection E as <-. exact Hfair.
Qed.

(** ** The ledger *)

(** The ledger and the history it stands for: a command that is not resolved is
    decided, the first decision is the one that counts, and a fence refuses the
    rest of a session. *)
Inductive ledger_step (max : Z) : ResolvedCommandState * History
    -> ResolvedCommandState * History -> Prop :=
| ledger_decides r H c o r' : is_u64 (ci_sequence c) -> is_terminally_resolved r c = false ->
    resolved_record r c o max = (Ok o, r') -> ledger_step max (r, H) (r', decide_once H c o)
| ledger_refuses r H c o e r' : is_u64 (ci_sequence c) -> is_terminally_resolved r c = false ->
    resolved_record r c o max = (Err e, r') -> ledger_step max (r, H) (r', H)
| ledger_fences r H c from reason f r' :
    install_rejection_fence r c from reason = (f, r') -> ledger_step max (r, H) (r', H).

Lemma ledger_steps max rh rh' :
  0 < max -> rtc (ledger_step max) rh rh' -> ledger_repr max rh.2 rh.1 -> ledger_repr max rh'.2 rh'.1.
Proof.
  intros Hm Hr. induction Hr as [|x y z S Hr IH]; [done|]. intros L. apply IH. clear IH Hr z.
  destruct S as [r H c o r' Hu Ht E|r H c o e r' Hu Ht E|r H c from reason f r' E]; cbn in *.
  - assert (Hc : can_record r c max = Ok tt).
    { unfold resolved_record in E. by destruct (can_record r c max) as [[]| |]. }
    destruct (ledger_record _ _ _ _ o L Hm Hu Ht Hc) as (r1 & E1 & L1 & _).
    rewrite E in E1. by injection E1 as ->.
  - pose proof (ledger_refused max r c o) as Hr. rewrite E in Hr.
    destruct (can_record r c max) as [[]| |] eqn:Hc; [|specialize (Hr eq_refl); cbn in Hr; by subst r'..].
    destruct (ledger_record _ _ _ _ o L Hm Hu Ht Hc) as (r1 & E1 & _). congruence.
  - by destruct (ledger_fence _ _ _ _ _ _ _ _ L E).
Qed.

(** C24. The ledger refines the history of decisions: after any sequence of
    decisions, refused decisions and fences, a remembered outcome is the one the
    history has; a command is resolved exactly when the history has decided it
    or the fence of its session covers it, pruned outcomes included; and the
    memory stays bounded, by the retention of each session and by the number of
    sessions. *)
Theorem ledger_refines_history max r H c :
  0 < max -> rtc (ledger_step max) (∅, ∅) (r, H) ->
  (forall o, resolved_get r c = Some o -> decided H c = Some o)
  /\ (is_terminally_resolved r c = true <->
       is_Some (decided H c)
       \/ (0 < ci_sequence c /\ fenced (session_of r c) (ci_sequence c) = true))
  /\ map_len (outcomes (session_of r c)) <= max
  /\ Z.of_nat (size r) <= MAX_RECORDED_COMMAND_SESSIONS_PER_GAME.
Proof.
  intros Hm Hr. pose proof (ledger_steps _ _ _ Hm Hr (ledger_empty max)) as L. cbn in L.
  split; [intros o; by eapply ledger_get|]. split; [apply (ledger_resolved _ _ _ _ L); lia|].
  split; [|apply L]. eapply sr_size, ledger_session; [exact L|lia].
Qed.

Definition sample_ledger : ResolvedCommandState :=
  (resolved_record ∅ first_identity (CO_Rejected "late" None) 2).2.

Lemma ledger_refines_history_witness :
  decided (decide_once ∅ first_identity (CO_Rejected "late" None)) first_identity
  = Some (CO_Rejected "late" None).
Proof.
  apply (ledger_refines_history 2 sample_ledger _ first_identity).
  - lia.
  - eapply rtc_l; [|apply rtc_refl]. apply ledger_decides; [unfold is_u64, u64_max; cbn; lia|reflexivity|].
    vm_compute. reflexivity.
  - vm_compute. reflexivity.
Defined.

(** ** The journal of a recorder *)

Lemma cells_entries n l : jd_entry <$> cells_from n l = l.
Proof. revert n. induction l as [|e l IH]; intros n; cbn; [done|]. by rewrite IH. Qed.

(** C26. A checkpointed recording is restored exactly: whatever a recorder
    recorded and checkpointed, the recorder read back from a checkpoint, once it
    is hydrated with the stored cells in any order, is the recorder that was
    checkpointed, its selection ring included. *)
Theorem journal_round_trip `{RecorderEnv} st ops r1 store1 r store cells st' :
  replay_recording_allowed st = true ->
  is_Some (encoded_len (JE_Anchor (mkAnchor (gs_tick st) 0 st))) ->
  ops_ordered (gs_tick st) ops -> recorder_run (recorder_new st) [] ops = Ok (r1, store1) ->
  recorder_step r1 store1 Op_Checkpoint = Ok (r, store) -> cells ≡ₚ store ->
  hydrate_journal (restored_view (checkpoint_view r1)) cells st' = (Ok tt, r).
Proof.
  intros Ha Hl Ho Hrun Hcp Hperm.
  destruct (journal_ok_run _ _ _ _ _ _ _ (journal_ok_new _ Ha Hl) Ho Hrun) as (l & t & J).
  destruct (journal_ok_checkpoint _ _ _ _ _ _ J Hcp) as (J' & Hp & _).
  assert (Er : restored_view (checkpoint_view r1) = restored_view r).
  { unfold recorder_step, mark_journal_persisted in Hcp. destruct (_ <? _); [done|].
    by injection Hcp as <- <-. }
  rewrite Er. by eapply hydrate_exact.
Qed.

Definition sample_ops : list RecorderOp :=
  [Op_Event 3 (Ev_ScoreUpdated 0 3); Op_Checkpoint; Op_Event 5 (Ev_ScoreUpdated 1 2)].
Definition sample_recording : Result (ReplayRecordingState * list ReplayJournalDelta) :=
  @recorder_run sample_recorder (@recorder_new sample_recorder duel) [] sample_ops.

Lemma sample_ordered : ops_ordered (gs_tick duel) sample_ops.
Proof. vm_compute. repeat split; discriminate. Qed.

Lemma journal_round_trip_witness :
  exists r1 store1 r store, sample_recording = Ok (r1, store1)
    /\ @recorder_step sample_recorder r1 store1 Op_Checkpoint = Ok (r, store) /\ length store = 3%nat
    /\ @hydrate_journal sample_recorder (restored_view (checkpoint_view r1)) (rev store) duel
       = (Ok tt, r).
Proof.
  destruct sample_recording as [[r1 store1]|x|x] eqn:E1; [|vm_compute in E1; discriminate..].
  destruct (@recorder_step sample_recorder r1 store1 Op_Checkpoint) as [[r store]|x|x] eqn:E2.
  2,3: exfalso; assert (H : match sample_recording with
         | Ok (r1, store1) => is_ok (@recorder_step sample_recorder r1 store1 Op_Checkpoint)
         | _ => false end = true) by (vm_compute; reflexivity); rewrite E1, E2 in H; discriminate H.
  exists r1, store1, r, store. split; [reflexivity|]. split; [exact E2|]. split.
  - assert (H : match sample_recording with
         | Ok (r1, store1) => match @recorder_step sample_recorder r1 store1 Op_Checkpoint with
              | Ok (_, store) => length store | _ => 0%nat end
         | _ => 0%nat end = 3%nat) by (vm_compute; reflexivity). by rewrite E1, E2 in H.
  - apply (@journal_round_trip sample_recorder duel sample_ops r1 store1 r store).
    + vm_compute. reflexivity.
    + by exists 101.
    + exact sample_ordered.
    + exact E1.
    + exact E2.
    + symmetry. apply Permutation_rev.
Defined.

(** The selection ring is bounded: at any point of a recording the ring is a
    suffix of what was journaled, it starts with an anchor, its accounted size is
    the exact size of its entries and leaves room for the overhead under the
    limit, and while the truncation flag is clear it holds everything. *)
Theorem selection_ring_is_bounded `{RecorderEnv} st ops r store :
  replay_recording_allowed st = true ->
  is_Some (encoded_len (JE_Anchor (mkAnchor (gs_tick st) 0 st))) ->
  ops_ordered (gs_tick st) ops -> recorder_run (recorder_new st) [] ops = Ok (r, store) ->
  let journal := jd_entry <$> (store ++ rr_pending_journal r) in
  rr_ring r `suffix_of` journal /\ starts_with_anchor (rr_ring r)
  /\ rr_ring_bytes r = ring_size (rr_ring r)
  /\ rr_ring_bytes r + POTG_SELECTION_RING_JSON_OVERHEAD_BYTES <= POTG_SELECTION_RING_MAX_BYTES
  /\ (rr_ring_truncated r = false -> rr_ring r = journal).
Proof.
  intros Ha Hl Ho Hrun journal.
  destruct (journal_ok_run _ _ _ _ _ _ _ (journal_ok_new _ Ha Hl) Ho Hrun) as (l & t & J).
  assert (Ej : journal = l).
  { unfold journal. rewrite (jo_cells _ _ _ _ J). apply cells_entries. }
  destruct (jo_ring _ _ _ _ J) as (a & l' & q & El & Hpush & Hv). rewrite Ej. clear Ej journal.
  assert (Hb : ring_ok (blank (ra_tick a))) by (split; try done; vm_compute; discriminate).
  destruct (push_all_ring_ok _ _ _ Hb Hpush) as ([_ Hs Hc Han] & k & Hk & Ht).
  unfold ring_view in Hv. injection Hv as V1 V2 V3 V4 V5 V6. rewrite V1, V2, V3. cbn [app] in *.
  split; [rewrite Hk; exists (take k l); by rewrite take_drop|]. split; [done|]. split; [done|].
  split; [unfold ring_budget in Hc; lia|]. intros E. by apply Ht.
Qed.

Lemma selection_ring_is_bounded_witness :
  exists r store, sample_recording = Ok (r, store) /\ length (rr_ring r) = 3%nat
    /\ rr_ring_bytes r + POTG_SELECTION_RING_JSON_OVERHEAD_BYTES <= POTG_SELECTION_RING_MAX_BYTES.
Proof.
  destruct sample_recording as [[r store]|x|x] eqn:E; [|vm_compute in E; discriminate..].
  exists r, store. split; [reflexivity|]. split.
  - assert (H : match sample_recording with Ok (r, _) => length (rr_ring r) | _ => 0%nat end = 3%nat)
      by (vm_compute; reflexivity). by rewrite E in H.
  - apply (@selection_ring_is_bounded sample_recorder duel sample_ops r store).
    + vm_compute. reflexivity.
    + by exists 101.
    + exact sample_ordered.
    + exact E.
Defined.
