(* ===== verification/Partition.v ===== *)
(** * Placement of partitions: server/src/partition_assignment.rs

    [balanced_minimal_movement] assigns the partitions to the eligible tasks,
    [AssignmentDocument::validate] checks an assignment, and [AssignmentStore]
    writes it under a coordinator lease; with the eligibility of a member of
    server/src/cluster_membership.rs.

    A [BootIdentity] is a string with the order of its bytes. A [BTreeMap] keyed
    by the eligible members is the list of its entries in key order, since the
    eligible members are collected through a [BTreeSet]. The Redis keys of an
    [AssignmentStore] are the record [AssignmentKeys], its scripts are functions
    on it; a document and its JSON are identified, and the failures of the
    connection are left out. [None] is a loop out of fuel. *)

From Stdlib Require Import ZArith.
From stdpp Require Import prelude strings countable list gmap sorting.
From S2P Require Import Prelude RustFloat Util Snake Arena CommandQueue GameState GameSetup.
From S2P Require Import Events Validate Tick Fingerprint Engine StreamId CommandLedger Recording.
From S2P Require Import Journal Recovery.
Open Scope Z_scope.

Definition ASSIGNMENT_SCHEMA_VERSION : Z := 2.

Definition BootIdentity := string.
#[global] Instance BootIdentity_eq_dec : EqDecision BootIdentity := String.string_dec.

Definition boot_le (a b : BootIdentity) : Prop := String.leb a b = true.
#[global] Instance boot_le_dec a b : Decision (boot_le a b).
Proof. unfold boot_le. apply _. Defined.

Abbreviation Owners := (gmap Z BootIdentity).

Record AssignmentDocument := mkAssignment {
  ad_schema_version : Z;
  ad_version : Z;
  ad_region : string;
  ad_computed_at_ms : Z;
  ad_eligible_members : list BootIdentity;
  ad_owners : Owners
}.

Definition desired_owner (d : AssignmentDocument) (partition : Z) : option BootIdentity :=
  ad_owners d !! partition.

(** ** Counts *)

(** How many partitions a member owns. *)
Definition owned (m : BootIdentity) (owners : Owners) : Z :=
  Z.of_nat (size (filter (fun kv => kv.2 = m) owners)).

Definition owner_counts (owners : Owners) (eligible : list BootIdentity)
  : list (BootIdentity * Z) := (fun m => (m, owned m owners)) <$> eligible.

(** [counts.values().min()] and [max()]. *)
Definition min_value (counts : list (BootIdentity * Z)) : option Z :=
  match counts with
  | [] => None
  | (_, n) :: rest => Some (foldl (fun acc c => Z.min acc c.2) n rest)
  end.

Definition max_value (counts : list (BootIdentity * Z)) : option Z :=
  match counts with
  | [] => None
  | (_, n) :: rest => Some (foldl (fun acc c => Z.max acc c.2) n rest)
  end.

(** ** Validation *)

Definition document_validate (d : AssignmentDocument) (partition_count : Z) : Result unit :=
  ensure (ad_schema_version d =? ASSIGNMENT_SCHEMA_VERSION)
    "unsupported assignment schema version" ;;
  ensure (bool_decide (NoDup (ad_eligible_members d)))
    "assignment contains duplicate eligible members" ;;
  if bool_decide (ad_eligible_members d = []) then
    ensure (bool_decide (ad_owners d = ∅))
      "assignment without eligible members must not have owners"
  else
    for_each (range_Z 0 (Z.to_nat partition_count)) (fun partition =>
      owner ← context "partition has no desired owner" (ad_owners d !! partition);
      ensure (bool_decide (owner ∈ ad_eligible_members d))
        "partition is assigned to an ineligible task") ;;
    ensure (bool_decide (map_Forall (fun partition _ => partition < partition_count) (ad_owners d)))
      "assignment contains an out-of-range partition" ;;
    let counts := owner_counts (ad_owners d) (ad_eligible_members d) in
    match min_value counts, max_value counts with
    | Some mn, Some mx => ensure (negb (1 <? mx - mn)) "assignment owner counts differ by more than one"
    | _, _ => Ok tt
    end.

(** ** Placement *)

(** [collect::<BTreeSet<_>>()]. *)
Definition sorted_members (eligible : list BootIdentity) : list BootIdentity :=
  merge_sort boot_le (remove_dups eligible).

(** The owners of a previous assignment that are in range and eligible. *)
Definition retained (partition_count : Z) (previous : option AssignmentDocument)
    (eligible : list BootIdentity) : Owners :=
  match previous with
  | Some d => filter (fun kv => kv.1 < partition_count /\ kv.2 ∈ eligible) (ad_owners d)
  | None => ∅
  end.

(** The first member with a count, the last member with a count. *)
Definition first_with (n : Z) (counts : list (BootIdentity * Z)) : option BootIdentity :=
  fst <$> hd_error (filter (fun c => c.2 = n) counts).
Definition last_with (n : Z) (counts : list (BootIdentity * Z)) : option BootIdentity :=
  fst <$> last (filter (fun c => c.2 = n) counts).

(** [min_by_key(|(member, count)| (count, member))]: the entries are in the order
    of the members, so it is the first of the least loaded. *)
Definition least_loaded (counts : list (BootIdentity * Z)) : option BootIdentity :=
  match min_value counts with Some n => first_with n counts | None => None end.

Definition fill_partition (eligible : list BootIdentity) (owners : Owners) (partition : Z)
  : Result Owners :=
  match owners !! partition with
  | Some _ => Ok owners
  | None =>
      match least_loaded (owner_counts owners eligible) with
      | Some target => Ok (<[partition := target]> owners)
      | None => Panic "eligible is non-empty"
      end
  end.

Fixpoint fill_partitions (eligible : list BootIdentity) (owners : Owners) (partitions : list Z)
  : Result Owners :=
  match partitions with
  | [] => Ok owners
  | p :: rest => owners ← fill_partition eligible owners p; fill_partitions eligible owners rest
  end.

(** The greatest partition of an owner: [filter(..).next_back()]. *)
Definition last_partition (owners : Owners) (m : BootIdentity) : option Z :=
  map_fold (fun p _ acc => match acc with None => Some p | Some a => Some (Z.max p a) end) None
    (filter (fun kv => kv.2 = m) owners).

Fixpoint rebalance (fuel : nat) (eligible : list BootIdentity) (owners : Owners)
  : option (Result Owners) :=
  let counts := owner_counts owners eligible in
  match min_value counts, max_value counts with
  | Some min_count, Some max_count =>
      if max_count - min_count <=? 1 then Some (Ok owners)
      else
        match fuel with
        | O => None
        | S fuel =>
            match last_with max_count counts, first_with min_count counts with
            | Some donor, Some recipient =>
                match last_partition owners donor with
                | Some partition => rebalance fuel eligible (<[partition := recipient]> owners)
                | None => Some (Panic "donor owns a partition")
                end
            | None, _ => Some (Panic "max owner exists")
            | _, None => Some (Panic "min owner exists")
            end
        end
  | _, _ => Some (Panic "eligible is non-empty")
  end.

Definition place (partition_count : Z) (previous : option AssignmentDocument)
    (eligible : list BootIdentity) : option (Result Owners) :=
  let owners := retained partition_count previous eligible in
  if bool_decide (eligible = []) then Some (Ok owners)
  else
    match fill_partitions eligible owners (range_Z 0 (Z.to_nat partition_count)) with
    | Ok owners => rebalance (Z.to_nat partition_count) eligible owners
    | r => Some r
    end.

Definition balanced_minimal_movement (partition_count : Z) (previous : option AssignmentDocument)
    (eligible : list BootIdentity) (region : string) (version now_ms : Z)
  : option (Result AssignmentDocument) :=
  let eligible := sorted_members eligible in
  match place partition_count previous eligible with
  | None => None
  | Some r => Some (owners ← r; Ok (mkAssignment ASSIGNMENT_SCHEMA_VERSION version region now_ms
                                      eligible owners))
  end.

(** ** Members *)

Inductive TaskLifecycle := Warming | Active | Draining.
#[global] Instance TaskLifecycle_eq_dec : EqDecision TaskLifecycle.
Proof. solve_decision. Defined.

Record TaskMembership := mkMembership {
  tm_schema_version : Z;
  tm_boot_id : BootIdentity;
  tm_server_id : Z;
  tm_ecs_task_id : option string;
  tm_task_definition : option string;
  tm_executor_protocol_version : Z;
  tm_lifecycle : TaskLifecycle;
  tm_heartbeat_at_ms : Z;
  tm_expires_at_ms : Z
}.

Definition is_assignment_eligible (m : TaskMembership) (now_ms : Z) : bool :=
  bool_decide (tm_lifecycle m = Active)
  && (now_ms <? tm_expires_at_ms m)
  && (tm_executor_protocol_version m =? EXECUTOR_PROTOCOL_VERSION).

(** ** The store *)

Inductive AssignmentWrite := Written | VersionConflict | CoordinatorLeaseLost.

(** The keys of a region: the coordinator's lease, the assignment, and its copy
    for each partition. *)
Record AssignmentKeys := mkKeys {
  ak_lease : option string;
  ak_assignment : option AssignmentDocument;
  ak_views : gmap Z AssignmentDocument
}.

(** A store of one process. *)
Record AssignmentStore := mkStore {
  as_region : string;
  as_last_synced_view_version : Z
}.

#[global] Instance AssignmentDocument_eq_dec : EqDecision AssignmentDocument.
Proof. solve_decision. Defined.

(** The script of [compare_and_set]. *)
Definition write_assignment (keys : AssignmentKeys) (token : string) (expected : option Z)
    (next : AssignmentDocument) : AssignmentWrite * AssignmentKeys :=
  if negb (bool_decide (ak_lease keys = Some token)) then (CoordinatorLeaseLost, keys)
  else
    let unchanged :=
      match expected, ak_assignment keys with
      | None, None => true
      | Some v, Some current => ad_version current =? v
      | _, _ => false
      end in
    if unchanged then (Written, mkKeys (ak_lease keys) (Some next) (ak_views keys))
    else (VersionConflict, keys).

(** [map_or(1, |version| version + 1)]. *)
Definition next_version (previous : option Z) : Z :=
  match previous with Some v => wrap_u64 (v + 1) | None => 1 end.

Definition compare_and_set (s : AssignmentStore) (keys : AssignmentKeys) (token : string)
    (expected : option Z) (next : AssignmentDocument) : Result AssignmentWrite * AssignmentKeys :=
  if negb (bool_decide (ad_region next = as_region s))
  then (Err "assignment region does not match its key namespace", keys)
  else if negb (ad_version next =? next_version expected)
  then (Err "assignment version must increment exactly once", keys)
  else let '(w, keys) := write_assignment keys token expected next in (Ok w, keys).

(** The script of [sync_partition_views]; [false] is its result -1. *)
Definition write_view (views : gmap Z AssignmentDocument) (partition : Z)
    (d : AssignmentDocument) : bool * gmap Z AssignmentDocument :=
  match views !! partition with
  | Some current =>
      if ad_version d <? ad_version current then (true, views)
      else if ad_version current =? ad_version d then (bool_decide (current = d), views)
      else (true, <[partition := d]> views)
  | None => (true, <[partition := d]> views)
  end.

Fixpoint sync_views (partitions : list Z) (views : gmap Z AssignmentDocument)
    (d : AssignmentDocument) : Result unit * gmap Z AssignmentDocument :=
  match partitions with
  | [] => (Ok tt, views)
  | p :: rest =>
      match write_view views p d with
      | (true, views) => sync_views rest views d
      | (false, views) => (Err "partition has a conflicting assignment at version", views)
      end
  end.

Definition with_views (views : gmap Z AssignmentDocument) (keys : AssignmentKeys)
  : AssignmentKeys := mkKeys (ak_lease keys) (ak_assignment keys) views.

Definition sync_partition_views (s : AssignmentStore) (keys : AssignmentKeys)
    (d : AssignmentDocument) (partition_count : Z)
  : Result unit * AssignmentStore * AssignmentKeys :=
  if as_last_synced_view_version s =? ad_version d then (Ok tt, s, keys)
  else
    match sync_views (range_Z 0 (Z.to_nat partition_count)) (ak_views keys) d with
    | (Ok _, views) => (Ok tt, mkStore (as_region s) (ad_version d), with_views views keys)
    | (r, views) => (r, s, with_views views keys)
    end.

Definition repair_partition_views (s : AssignmentStore) (keys : AssignmentKeys)
    (d : AssignmentDocument) (partition_count : Z)
  : Result unit * AssignmentStore * AssignmentKeys :=
  match document_validate d partition_count with
  | Ok _ => sync_partition_views s keys d partition_count
  | r => (r, s, keys)
  end.

(** [reconcile] after [load] returned [previous]; the keys may have changed since. *)
Definition reconcile (s : AssignmentStore) (keys : AssignmentKeys) (token : string)
    (partition_count : Z) (members : list TaskMembership) (now_ms : Z)
    (previous : option AssignmentDocument)
  : option (Result (AssignmentWrite * AssignmentDocument) * AssignmentStore * AssignmentKeys) :=
  let eligible := tm_boot_id <$> filter (fun m => is_assignment_eligible m now_ms = true) members in
  match balanced_minimal_movement partition_count previous eligible (as_region s)
          (next_version (ad_version <$> previous)) now_ms with
  | None => None
  | Some (Ok next) =>
      match document_validate next partition_count with
      | Ok _ =>
          match (match previous with
                 | Some p => if bool_decide (ad_eligible_members p = ad_eligible_members next)
                                && bool_decide (ad_owners p = ad_owners next)
                             then Some p else None
                 | None => None
                 end) with
          | Some p =>
              let '(r, s, keys) := sync_partition_views s keys p partition_count in
              Some (r ≫= (fun _ => Ok (Written, p)), s, keys)
          | None =>
              match compare_and_set s keys token (ad_version <$> previous) next with
              | (Ok Written, keys) =>
                  let '(r, s, keys) := sync_partition_views s keys next partition_count in
                  Some (r ≫= (fun _ => Ok (Written, next)), s, keys)
              | (Ok w, keys) => Some (Ok (w, next), s, keys)
              | (r, keys) => Some (recast r, s, keys)
              end
          end
      | r => Some (recast r, s, keys)
      end
  | Some r => Some (recast r, s, keys)
  end.
