(* ===== verification/PartitionTheorems.v ===== *)
(** * Theorems on placement

    The placement is always valid, moves as few partitions as any valid
    placement can, and a stale coordinator cannot overwrite it. *)

From Stdlib Require Import ZArith.
From stdpp Require Import prelude strings countable list gmap sorting.
From S2P Require Import Prelude RustFloat Util Snake Arena CommandQueue GameState GameSetup.
From S2P Require Import Events Validate Tick Fingerprint Engine StreamId CommandLedger Recording.
From S2P Require Import Journal Recovery Partition.
Open Scope Z_scope.

(** ** Counting *)

Section tally.
Implicit Types (P Q : Z * BootIdentity -> Prop) (o : Owners).

Definition tally P {HP : forall kv, Decision (P kv)} o : Z := Z.of_nat (size (filter P o)).

Lemma tally_fresh P {HP : forall kv, Decision (P kv)} o p x :
  o !! p = None -> tally P (<[p := x]> o) = tally P o + (if decide (P (p, x)) then 1 else 0).
Proof.
  intros Hn. unfold tally. destruct (decide (P (p, x))) as [Hp|Hp].
  - rewrite map_filter_insert_True by done. rewrite map_size_insert_None; [lia|].
    apply map_lookup_filter_None. by left.
  - rewrite map_filter_insert_False by done. rewrite delete_id by done. lia.
Qed.

Lemma tally_replace P {HP : forall kv, Decision (P kv)} o p x y :
  o !! p = Some y ->
  tally P (<[p := x]> o)
  = tally P o + (if decide (P (p, x)) then 1 else 0) - (if decide (P (p, y)) then 1 else 0).
Proof.
  intros Hy. assert (Eo : o = <[p := y]> (delete p o)) by by rewrite insert_delete_id.
  assert (Hn : delete p o !! p = None) by apply lookup_delete_eq.
  rewrite Eo at 1. rewrite insert_insert_eq. rewrite Eo at 2.
  rewrite !tally_fresh by done. lia.
Qed.

Lemma tally_empty P {HP : forall kv, Decision (P kv)} : tally P ∅ = 0.
Proof. unfold tally. by rewrite map_filter_empty, map_size_empty. Qed.

Lemma tally_nonneg P {HP : forall kv, Decision (P kv)} o : 0 <= tally P o.
Proof. unfold tally. lia. Qed.

Lemma tally_ext P Q {HP : forall kv, Decision (P kv)} {HQ : forall kv, Decision (Q kv)} o :
  (forall p x, o !! p = Some x -> P (p, x) <-> Q (p, x)) -> tally P o = tally Q o.
Proof.
  intros H. unfold tally. do 2 f_equal. apply map_filter_ext. exact H.
Qed.

Lemma tally_split P Q {HP : forall kv, Decision (P kv)} {HQ : forall kv, Decision (Q kv)} o :
  tally P o = tally (fun kv => P kv /\ Q kv) o + tally (fun kv => P kv /\ ~ Q kv) o.
Proof.
  induction o as [|p x o Hn IH] using map_ind; [by rewrite !tally_empty|].
  rewrite !tally_fresh by done. rewrite IH.
  repeat case_decide; naive_solver lia.
Qed.

Lemma tally_zero P {HP : forall kv, Decision (P kv)} o p x :
  tally P o = 0 -> o !! p = Some x -> ~ P (p, x).
Proof.
  unfold tally. intros H0 Hx Hp. assert (Hs : size (filter P o) = 0%nat) by lia.
  apply map_size_empty_inv in Hs.
  assert (Hf : filter P o !! p = Some x) by by apply map_lookup_filter_Some.
  by rewrite Hs, lookup_empty in Hf.
Qed.

Lemma tally_all P Q {HP : forall kv, Decision (P kv)} {HQ : forall kv, Decision (Q kv)} o p x :
  tally (fun kv => P kv /\ Q kv) o = tally P o -> o !! p = Some x -> P (p, x) -> Q (p, x).
Proof.
  intros E Hx Hp. rewrite (tally_split P Q) in E.
  assert (H0 : tally (fun kv => P kv /\ ~ Q kv) o = 0) by lia.
  pose proof (tally_zero _ _ _ _ H0 Hx) as Hn. destruct (decide (Q (p, x))); [done|].
  by destruct Hn.
Qed.

Lemma tally_pos P {HP : forall kv, Decision (P kv)} o :
  0 < tally P o -> exists p x, o !! p = Some x /\ P (p, x).
Proof.
  intros H. unfold tally in H. destruct (decide (filter P o = ∅)) as [E|Hne].
  - rewrite E, map_size_empty in H. lia.
  - apply map_choose in Hne as (p & x & Hx). apply map_lookup_filter_Some in Hx. eauto.
Qed.

Lemma tally_true o : tally (fun _ => True) o = Z.of_nat (size o).
Proof. unfold tally. by rewrite map_filter_id. Qed.
End tally.

(** ** Sums over the members *)

Fixpoint total (f : BootIdentity -> Z) (E : list BootIdentity) : Z :=
  match E with [] => 0 | m :: E' => f m + total f E' end.

Lemma total_le f g E : (forall m, m ∈ E -> f m <= g m) -> total f E <= total g E.
Proof.
  induction E as [|m E IH]; intros H; cbn; [lia|].
  pose proof (H m (list_elem_of_here _ _)). specialize (IH (fun x Hx => H x (list_elem_of_further _ _ _ Hx))).
  lia.
Qed.

Lemma total_plus f g E : total (fun m => f m + g m) E = total f E + total g E.
Proof. induction E as [|m E IH]; cbn; [done|]. rewrite IH. lia. Qed.

Lemma total_ext f g E : (forall m, m ∈ E -> f m = g m) -> total f E = total g E.
Proof.
  intros H. apply Z.le_antisymm; apply total_le; intros m Hm; rewrite H by done; lia.
Qed.

Lemma total_point E x : NoDup E -> total (fun m => if decide (x = m) then 1 else 0) E
  = if decide (x ∈ E) then 1 else 0.
Proof.
  induction 1 as [|m E Hn Hd IH]; cbn; [done|]. rewrite IH.
  repeat case_decide; set_solver.
Qed.

(** Every entry is counted for exactly one member. *)
Lemma total_tally (Q : Z * BootIdentity -> Prop) {HQ : forall kv, Decision (Q kv)} E o :
  NoDup E -> (forall p x, o !! p = Some x -> x ∈ E) ->
  total (fun m => tally (fun kv => kv.2 = m /\ Q kv) o) E = tally Q o.
Proof.
  intros Hd. induction o as [|p x o Hn IH] using map_ind; intros Ho.
  - rewrite tally_empty. rewrite (total_ext _ (fun _ => 0)).
    + clear. induction E as [|m E IH]; cbn; [done|]. by rewrite IH.
    + intros m _. apply tally_empty.
  - rewrite tally_fresh by done. rewrite <-IH.
    2:{ intros p' x' H. apply (Ho p'). rewrite lookup_insert_ne; [done|]. intros ->. congruence. }
    rewrite (total_ext _ (fun m => tally (fun kv => kv.2 = m /\ Q kv) o
      + (if decide (Q (p, x)) then (if decide (x = m) then 1 else 0) else 0))).
    + rewrite total_plus. f_equal. case_decide.
      * rewrite total_point by done. rewrite decide_True; [done|]. apply (Ho p). apply lookup_insert_eq.
      * clear. induction E as [|m E IH]; cbn; [done|]. by rewrite IH.
    + intros m _. rewrite tally_fresh by done. cbn. repeat case_decide; naive_solver lia.
Qed.

(** ** The extremal members *)

Lemma fold_min_spec l n :
  foldl (fun acc (c : BootIdentity * Z) => Z.min acc c.2) n l <= n
  /\ Forall (fun c => foldl (fun acc (c : BootIdentity * Z) => Z.min acc c.2) n l <= c.2) l.
Proof.
  revert n. induction l as [|[m k] l IH]; intros n; cbn; [split; [lia|constructor]|].
  destruct (IH (Z.min n k)) as [H1 H2]. split; [lia|]. constructor; [cbn; lia|done].
Qed.

Lemma fold_min_in l n :
  foldl (fun acc (c : BootIdentity * Z) => Z.min acc c.2) n l = n
  \/ exists c, c ∈ l /\ c.2 = foldl (fun acc (c : BootIdentity * Z) => Z.min acc c.2) n l.
Proof.
  revert n. induction l as [|[m k] l IH]; intros n; cbn; [by left|].
  destruct (IH (Z.min n k)) as [E|(c & Hc & E)]; [|right; exists c; split; [by right|done]].
  rewrite E. destruct (Z.min_spec n k) as [[_ ->]|[_ ->]]; [by left|].
  right. exists (m, k). split; [left|done].
Qed.

Lemma fold_max_min l n :
  foldl (fun acc (c : BootIdentity * Z) => Z.max acc c.2) n l
  = - foldl (fun acc (c : BootIdentity * Z) => Z.min acc c.2) (- n) ((fun c => (c.1, - c.2)) <$> l).
Proof.
  revert n. induction l as [|[m k] l IH]; intros n; cbn; [lia|]. rewrite IH. do 2 f_equal. lia.
Qed.

Section extremes.
Variables (o : Owners) (E : list BootIdentity).
Let c m := owned m o.

Lemma min_value_spec mn :
  min_value (owner_counts o E) = Some mn ->
  (forall m, m ∈ E -> mn <= c m) /\ exists m, m ∈ E /\ c m = mn.
Proof.
  unfold owner_counts, min_value. destruct E as [|m0 E']; [done|]. cbn [fmap list_fmap].
  fold (owner_counts o E'). intros [= <-].
  destruct (fold_min_spec (owner_counts o E') (c m0)) as [H1 H2]. split.
  - intros m [->|Hm]%elem_of_cons; [done|]. rewrite Forall_forall in H2.
    apply (H2 (m, c m)). apply list_elem_of_fmap. by exists m.
  - destruct (fold_min_in (owner_counts o E') (c m0)) as [E0|(x & Hx & Ex)].
    + exists m0. split; [left|]. symmetry. exact E0.
    + apply list_elem_of_fmap in Hx as (m & -> & Hm). exists m. split; [by right|exact Ex].
Qed.

Lemma max_value_spec mx :
  max_value (owner_counts o E) = Some mx ->
  (forall m, m ∈ E -> c m <= mx) /\ exists m, m ∈ E /\ c m = mx.
Proof.
  unfold owner_counts, max_value. destruct E as [|m0 E']; [done|]. cbn [fmap list_fmap].
  fold (owner_counts o E'). intros [= <-]. rewrite fold_max_min.
  set (l := (fun c => (c.1, - c.2)) <$> owner_counts o E').
  destruct (fold_min_spec l (- c m0)) as [H1 H2]. split.
  - intros m [->|Hm]%elem_of_cons; [unfold c in *; lia|]. rewrite Forall_forall in H2.
    assert (Hin : (m, - c m) ∈ l).
    { apply list_elem_of_fmap. exists (m, c m). split; [done|]. apply list_elem_of_fmap. by exists m. }
    specialize (H2 _ Hin). cbn in H2. unfold c in *. lia.
  - destruct (fold_min_in l (- c m0)) as [E0|(x & Hx & Ex)].
    + exists m0. split; [left|]. unfold c in *. lia.
    + apply list_elem_of_fmap in Hx as (y & -> & Hy).
      apply list_elem_of_fmap in Hy as (m & -> & Hm). exists m. split; [by right|]. cbn in Ex. unfold c in *. lia.
Qed.

Lemma extremes_exist : E <> [] ->
  exists mn mx, min_value (owner_counts o E) = Some mn /\ max_value (owner_counts o E) = Some mx.
Proof. destruct E; [done|]. intros _. unfold owner_counts. cbn. eauto. Qed.

Lemma with_count n : (exists m, m ∈ E /\ c m = n) ->
  exists x y, first_with n (owner_counts o E) = Some x /\ last_with n (owner_counts o E) = Some y
    /\ x ∈ E /\ c x = n /\ y ∈ E /\ c y = n.
Proof.
  intros (m & Hm & Ec). unfold first_with, last_with.
  set (l := filter (fun x : BootIdentity * Z => x.2 = n) (owner_counts o E)).
  assert (Hl : forall x, x ∈ l -> x.1 ∈ E /\ c x.1 = n).
  { intros x (Hx & Hin)%list_elem_of_filter. apply list_elem_of_fmap in Hin as (z & -> & Hz). done. }
  assert (Hne : (m, n) ∈ l).
  { apply list_elem_of_filter. split; [done|]. apply list_elem_of_fmap. exists m. by rewrite <-Ec. }
  destruct l as [|x l'] eqn:El; [by apply elem_of_nil in Hne|].
  destruct (last (x :: l')) as [y|] eqn:Ey; [|by apply last_None in Ey].
  exists x.1, y.1. split; [done|]. split; [done|].
  destruct (Hl x (list_elem_of_here _ _)). destruct (Hl y) as [? ?]; [|done].
  apply last_Some in Ey as [l0 ->]. apply elem_of_app. right. left.
Qed.
End extremes.

Lemma last_partition_spec o m :
  0 < owned m o -> exists p, last_partition o m = Some p /\ o !! p = Some m.
Proof.
  intros Hpos. unfold last_partition.
  assert (Hsome : forall (f : Owners), (f = ∅ /\ map_fold (fun p _ acc => match acc with
      None => Some p | Some a => Some (Z.max p a) end) None f = None)
    \/ exists p x, map_fold (fun p _ acc => match acc with
      None => Some p | Some a => Some (Z.max p a) end) None f = Some p /\ f !! p = Some x).
  { intros f. apply (map_fold_weak_ind (fun r f => (f = ∅ /\ r = None)
      \/ exists p x, r = Some p /\ f !! p = Some x)).
    - by left.
    - intros p x f' acc Hn [[-> ->]|(p' & x' & -> & Hx')]; right.
      + exists p, x. by rewrite lookup_insert_eq.
      + destruct (Z.max_spec p p') as [[_ ->]|[_ ->]].
        * exists p', x'. split; [done|]. rewrite lookup_insert_ne; [done|]. intros ->. congruence.
        * exists p, x. by rewrite lookup_insert_eq. }
  destruct (Hsome (filter (fun kv => kv.2 = m) o)) as [[E _]|(p & x & -> & Hx)].
  - unfold owned in Hpos. rewrite E, map_size_empty in Hpos. lia.
  - apply map_lookup_filter_Some in Hx as [Hx Em]. cbn in Em. subst x. by exists p.
Qed.

(** ** The invariant *)

Section placement.
Variables (E : list BootIdentity) (r : Owners).
Hypothesis E_distinct : NoDup E.
Hypothesis r_owners : forall p m, r !! p = Some m -> m ∈ E.

(** The partitions a member still has of those it retained. *)
Definition kept (m : BootIdentity) (o : Owners) : Z :=
  tally (fun kv => kv.2 = m /\ r !! kv.1 = Some kv.2) o.

(** The retained partitions that have not moved. *)
Definition unmoved (o : Owners) : Z := tally (fun kv => r !! kv.1 = Some kv.2) o.

Record placement_ok (o : Owners) : Prop := mkPlacement {
  pl_owners : forall p m, o !! p = Some m -> m ∈ E;
  pl_kept : forall m, m ∈ E -> kept m o = Z.min (owned m o) (owned m r);
  pl_receiver : forall m m', m ∈ E -> m' ∈ E -> owned m r < owned m o ->
    owned m o <= owned m' o + 1;
  pl_loser : forall m m', m ∈ E -> m' ∈ E -> owned m o < owned m r ->
    owned m' o <= owned m o + 1;
  pl_apart : forall m m', m ∈ E -> m' ∈ E -> owned m o < owned m r ->
    owned m' r < owned m' o -> owned m' o <= owned m o
}.

Lemma owned_tally m o : owned m o = tally (fun kv => kv.2 = m) o.
Proof. done. Qed.

Lemma kept_retained m : kept m r = owned m r.
Proof.
  rewrite owned_tally. apply tally_ext. intros p x Hx. cbn. split; [by intros [? _]|]. intros ->. by split.
Qed.

Lemma placement_start : placement_ok r.
Proof.
  split; [done|intros m _; rewrite kept_retained; lia|intros; lia..].
Qed.

Lemma owned_fresh m o p x :
  o !! p = None -> owned m (<[p := x]> o) = owned m o + (if decide (x = m) then 1 else 0).
Proof. intros Hn. rewrite !owned_tally, tally_fresh by done. done. Qed.

Lemma owned_replace m o p x y :
  o !! p = Some y ->
  owned m (<[p := x]> o)
  = owned m o + (if decide (x = m) then 1 else 0) - (if decide (y = m) then 1 else 0).
Proof. intros Hy. rewrite !owned_tally, (tally_replace _ _ _ _ _ Hy). done. Qed.

(** Nobody has lost a partition. *)
Definition lossless (o : Owners) : Prop := forall m, m ∈ E -> owned m r <= owned m o.

(** An orphaned partition goes to a least loaded member. *)
Lemma placement_fill o p x :
  placement_ok o -> lossless o -> o !! p = None -> r !! p = None -> x ∈ E ->
  (forall m, m ∈ E -> owned x o <= owned m o) ->
  placement_ok (<[p := x]> o) /\ lossless (<[p := x]> o).
Proof.
  intros P L Hn Hr Hx Hmin.
  assert (Hk : forall m, kept m (<[p := x]> o) = kept m o).
  { intros m. unfold kept. rewrite tally_fresh by done. rewrite decide_False; [lia|].
    cbn. intros [_ Hr']. congruence. }
  assert (Hc : forall m, owned m (<[p := x]> o) = owned m o + (if decide (x = m) then 1 else 0))
    by (intros m; by apply owned_fresh).
  assert (L' : lossless (<[p := x]> o)).
  { intros m Hm. rewrite Hc. specialize (L m Hm). case_decide; lia. }
  split; [|done]. split.
  - intros p' m. destruct (decide (p' = p)) as [->|].
    + rewrite lookup_insert_eq. by intros [= <-].
    + rewrite lookup_insert_ne by done. apply P.
  - intros m Hm. rewrite Hk, (pl_kept _ P m Hm), Hc. specialize (L m Hm). case_decide; lia.
  - intros m m' Hm Hm'. rewrite !Hc. pose proof (Hmin m' Hm'). pose proof (L m Hm).
    pose proof (pl_receiver _ P m m' Hm Hm'). repeat case_decide; subst; lia.
  - intros m m' Hm Hm' Hl. specialize (L' m Hm). lia.
  - intros m m' Hm Hm' Hl. specialize (L' m Hm). lia.
Qed.

(** A move from a most loaded to a least loaded member. *)
Lemma placement_move o p d x :
  placement_ok o -> d ∈ E -> x ∈ E -> o !! p = Some d ->
  (forall m, m ∈ E -> owned x o <= owned m o) -> (forall m, m ∈ E -> owned m o <= owned d o) ->
  owned x o + 2 <= owned d o ->
  placement_ok (<[p := x]> o) /\ unmoved (<[p := x]> o) = unmoved o - 1.
Proof.
  intros P Hd Hx Hp Hmin Hmax Hgap.
  assert (Hne : x <> d) by (intros ->; lia).
  assert (Hret : owned d o <= owned d r).
  { destruct (Z.le_gt_cases (owned d o) (owned d r)); [done|].
    pose proof (pl_receiver _ P d x Hd Hx). lia. }
  assert (Hrp : r !! p = Some d).
  { assert (Ek : kept d o = owned d o) by (rewrite (pl_kept _ P d Hd); lia).
    unfold kept in Ek. rewrite owned_tally in Ek.
    by apply (tally_all (fun kv => kv.2 = d) (fun kv => r !! kv.1 = Some kv.2) o p d Ek Hp). }
  assert (Hxr : owned x r <= owned x o).
  { destruct (Z.le_gt_cases (owned x r) (owned x o)); [done|].
    pose proof (pl_loser _ P x d Hx Hd). lia. }
  assert (Hk : forall m, kept m (<[p := x]> o) = kept m o - (if decide (d = m) then 1 else 0)).
  { intros m. unfold kept. rewrite (tally_replace _ _ _ _ _ Hp). cbn.
    repeat case_decide; try lia; naive_solver. }
  assert (Hc := fun m => owned_replace m o p x d Hp).
  split.
  - split.
    + intros p' m. destruct (decide (p' = p)) as [->|].
      * rewrite lookup_insert_eq. by intros [= <-].
      * rewrite lookup_insert_ne by done. apply P.
    + intros m Hm. rewrite Hk, (pl_kept _ P m Hm), Hc. repeat case_decide; subst; lia || done.
    + intros m m' Hm Hm'. rewrite !Hc. pose proof (Hmin m' Hm'). pose proof (Hmax m Hm).
      pose proof (pl_receiver _ P m m' Hm Hm'). pose proof (pl_receiver _ P m x Hm Hx).
      repeat case_decide; subst; lia.
    + intros m m' Hm Hm'. rewrite !Hc. pose proof (Hmax m' Hm').
      pose proof (pl_loser _ P m m' Hm Hm'). pose proof (pl_loser _ P m d Hm Hd).
      repeat case_decide; subst; lia.
    + intros m m' Hm Hm'. rewrite !Hc. pose proof (pl_apart _ P m m' Hm Hm').
      pose proof (pl_loser _ P m d Hm Hd). pose proof (pl_receiver _ P m' x Hm' Hx).
      repeat case_decide; subst; lia.
  - unfold unmoved. rewrite (tally_replace _ _ _ _ _ Hp). cbn.
    rewrite decide_False by congruence. rewrite decide_True by done. lia.
Qed.

(** ** The loops *)

Lemma fill_spec ps o :
  E <> [] -> placement_ok o -> lossless o ->
  (forall p, r !! p <> None -> o !! p <> None) ->
  exists o', fill_partitions E o ps = Ok o' /\ placement_ok o' /\ lossless o'
    /\ (forall p m, o !! p = Some m -> o' !! p = Some m)
    /\ (forall p, o' !! p <> None <-> o !! p <> None \/ p ∈ ps).
Proof.
  intros Hne. revert o. induction ps as [|p ps IH]; intros o P L Hr; cbn [fill_partitions].
  - exists o. split; [done|]. split; [done|]. split; [done|]. split; [done|]. intros p. set_solver.
  - unfold fill_partition. destruct (o !! p) as [m|] eqn:Ep; cbn [mbind result_bind].
    + destruct (IH o P L Hr) as (o' & -> & P' & L' & Hs & Hd). exists o'.
      split; [done|]. split; [done|]. split; [done|]. split; [done|]. intros q. rewrite Hd, elem_of_cons.
      split; [naive_solver|]. intros [?|[->|?]]; [by left|left; congruence|by right].
    + destruct (extremes_exist o E Hne) as (mn & mx & Emn & _). unfold least_loaded. rewrite Emn.
      destruct (min_value_spec _ _ _ Emn) as [Hmin Hex].
      destruct (with_count o E mn Hex) as (x & y & -> & _ & Hx & Ecx & _).
      cbn. destruct (placement_fill o p x P L Ep) as [P1 L1]; [|done|intros m Hm; rewrite Ecx; auto|].
      { destruct (r !! p) eqn:Erp; [|done]. exfalso. apply (Hr p); congruence. }
      destruct (IH (<[p := x]> o) P1 L1) as (o' & -> & P' & L' & Hs & Hd).
      { intros q Hq. destruct (decide (q = p)) as [->|]; [by rewrite lookup_insert_eq|].
        rewrite lookup_insert_ne by done. auto. }
      exists o'. split; [done|]. split; [done|]. split; [done|]. split.
      * intros q m Hq. apply Hs. rewrite lookup_insert_ne; [done|]. intros ->. congruence.
      * intros q. rewrite Hd, elem_of_cons. destruct (decide (q = p)) as [->|].
        -- rewrite lookup_insert_eq. naive_solver.
        -- rewrite lookup_insert_ne by done. naive_solver.
Qed.

Definition balanced (o : Owners) : Prop :=
  forall m m', m ∈ E -> m' ∈ E -> owned m o <= owned m' o + 1.

(** Every move displaces a retained partition, so there are few. *)
Lemma rebalance_spec fuel o :
  E <> [] -> placement_ok o -> unmoved o <= Z.of_nat fuel ->
  exists o', rebalance fuel E o = Some (Ok o') /\ placement_ok o' /\ balanced o'
    /\ dom o' = dom o.
Proof.
  intros Hne. revert o. induction fuel as [|fuel IH]; intros o P Hf; cbn [rebalance].
  all: destruct (extremes_exist o E Hne) as (mn & mx & Emn & Emx); rewrite Emn, Emx.
  all: destruct (min_value_spec _ _ _ Emn) as [Hmin Hexn]; destruct (max_value_spec _ _ _ Emx) as [Hmax Hexx].
  all: destruct (Z.leb_spec (mx - mn) 1) as [Hle|Hgt].
  1,3: exists o; split; [done|]; split; [done|]; split; [|done]; intros m m' Hm Hm';
    pose proof (Hmax m Hm); pose proof (Hmin m' Hm'); lia.
  all: destruct (with_count o E mx Hexx) as (_x & d & _ & Ed & _ & _ & Hd & Ecd).
  all: destruct (with_count o E mn Hexn) as (x & _y & Ex & _ & Hx & Ecx & _).
  all: assert (H0 : 0 <= owned x o) by (unfold owned; lia).
  all: destruct (last_partition_spec o d ltac:(lia)) as (p & Ep & Hp).
  all: destruct (placement_move o p d x P Hd Hx Hp) as [P' Hu];
    [intros m Hm; rewrite Ecx; auto|intros m Hm; rewrite Ecd; auto|lia|].
  - pose proof (tally_nonneg (fun kv => r !! kv.1 = Some kv.2) (<[p := x]> o)).
    unfold unmoved in *. lia.
  - rewrite Ed, Ex, Ep. destruct (IH (<[p := x]> o) P' ltac:(lia)) as (o' & -> & P2 & B & D).
    exists o'. split; [done|]. split; [done|]. split; [done|]. rewrite D. apply dom_insert_lookup_L.
    by eexists.
Qed.
End placement.

(** ** Valid documents *)

(** Owners of all partitions, and of nothing else. *)
Definition covers_all (n : Z) (E : list BootIdentity) (o : Owners) : Prop :=
  (forall p, 0 <= p < n -> exists m, m ∈ E /\ o !! p = Some m)
  /\ (forall p m, o !! p = Some m -> p < n).

Definition nonneg_keys (o : Owners) : Prop := forall p m, o !! p = Some m -> 0 <= p.

Lemma covers_dom n E o : covers_all n E o -> nonneg_keys o -> 0 <= n ->
  dom o = list_to_set (range_Z 0 (Z.to_nat n)).
Proof.
  intros [H1 H2] H0 Hn. apply set_eq. intros p. rewrite elem_of_dom, elem_of_list_to_set, elem_of_range_Z.
  split.
  - intros [m Hm]. pose proof (H2 _ _ Hm). pose proof (H0 _ _ Hm). lia.
  - intros Hp. destruct (H1 p ltac:(lia)) as (m & _ & Hm). by eexists.
Qed.

Lemma covers_owners n E o : covers_all n E o -> nonneg_keys o ->
  forall p m, o !! p = Some m -> m ∈ E.
Proof.
  intros [H1 H2] H0 p m Hm. destruct (H1 p) as (m' & Hm' & E'); [|congruence].
  pose proof (H2 _ _ Hm). pose proof (H0 _ _ Hm). lia.
Qed.

Lemma balanced_extremes E o mn mx :
  min_value (owner_counts o E) = Some mn -> max_value (owner_counts o E) = Some mx ->
  balanced E o <-> mx - mn <= 1.
Proof.
  intros Emn Emx. destruct (min_value_spec _ _ _ Emn) as [Hmin (a & Ha & Ea)].
  destruct (max_value_spec _ _ _ Emx) as [Hmax (b & Hb & Eb)]. split.
  - intros B. pose proof (B b a Hb Ha). lia.
  - intros Hle m m' Hm Hm'. pose proof (Hmax m Hm). pose proof (Hmin m' Hm'). lia.
Qed.

Lemma document_validate_iff d n :
  ad_eligible_members d <> [] ->
  document_validate d n = Ok tt <->
  ad_schema_version d = ASSIGNMENT_SCHEMA_VERSION /\ NoDup (ad_eligible_members d)
  /\ covers_all n (ad_eligible_members d) (ad_owners d)
  /\ balanced (ad_eligible_members d) (ad_owners d).
Proof.
  intros Hne. unfold document_validate. rewrite !ensure_bind_ok, Z.eqb_eq, bool_decide_eq_true.
  rewrite (bool_decide_false (_ = [])) by done.
  destruct (extremes_exist (ad_owners d) _ Hne) as (mn & mx & Emn & Emx).
  rewrite (balanced_extremes _ _ _ _ Emn Emx).
  rewrite unit_bind_ok, ensure_bind_ok, for_each_ok, bool_decide_eq_true, Emn, Emx.
  assert (Hens : ensure (negb (1 <? mx - mn)) "assignment owner counts differ by more than one" = Ok tt
                 <-> mx - mn <= 1).
  { unfold ensure. destruct (Z.ltb_spec 1 (mx - mn)); cbn; split; try done; lia. }
  rewrite Hens. clear Hens. unfold covers_all. rewrite Forall_forall.
  assert (Hall : (forall p, p ∈ range_Z 0 (Z.to_nat n) ->
      (owner ← context "partition has no desired owner" (ad_owners d !! p);
       ensure (bool_decide (owner ∈ ad_eligible_members d))
         "partition is assigned to an ineligible task") = Ok tt)
    <-> forall p, 0 <= p < n -> exists m, m ∈ ad_eligible_members d /\ ad_owners d !! p = Some m).
  { split; intros H p Hp.
    - assert (Hin : p ∈ range_Z 0 (Z.to_nat n)) by (apply elem_of_range_Z; lia).
      specialize (H p Hin). destruct (ad_owners d !! p) as [m|]; [|done]. cbn in H.
      exists m. split; [|done]. case_bool_decide; [done|]. done.
    - apply elem_of_range_Z in Hp. destruct (H p ltac:(lia)) as (m & Hm & ->). cbn.
      by rewrite bool_decide_true. }
  rewrite Hall. unfold map_Forall. naive_solver.
Qed.

(** ** The placement *)

Definition previous_owners (previous : option AssignmentDocument) : Owners :=
  match previous with Some d => ad_owners d | None => ∅ end.

(** The partitions whose owner changes. *)
Definition moved (previous : option AssignmentDocument) (o : Owners) : Z :=
  tally (fun kv => previous_owners previous !! kv.1 <> Some kv.2) o.

Lemma retained_spec n previous E p m :
  retained n previous E !! p = Some m <->
  previous_owners previous !! p = Some m /\ p < n /\ m ∈ E.
Proof.
  unfold retained, previous_owners. destruct previous; [|set_solver].
  rewrite map_lookup_filter_Some. cbn. tauto.
Qed.

Lemma retained_nobody n previous E : E = [] -> retained n previous E = ∅.
Proof.
  intros ->. apply map_empty. intros p. apply eq_None_not_Some. intros [m Hm].
  apply retained_spec in Hm as (_ & _ & Hm). by apply elem_of_nil in Hm.
Qed.

Lemma sorted_members_spec l : NoDup (sorted_members l) /\ forall m, m ∈ sorted_members l <-> m ∈ l.
Proof.
  unfold sorted_members. split.
  - rewrite merge_sort_Permutation. apply NoDup_remove_dups.
  - intros m. rewrite merge_sort_Permutation. apply elem_of_remove_dups.
Qed.

Lemma size_covered n E o :
  covers_all n E o -> nonneg_keys o -> 0 <= n -> Z.of_nat (size o) = n.
Proof.
  intros Hc H0 Hn. rewrite <-size_dom, (covers_dom _ _ _ Hc H0 Hn), size_list_to_set.
  - unfold range_Z. rewrite length_fmap, length_seq. lia.
  - unfold range_Z. apply NoDup_fmap_2; [intros ? ?; lia|apply NoDup_ListNoDup, seq_NoDup].
Qed.

Lemma place_spec n previous E :
  0 <= n -> NoDup E -> E <> [] -> nonneg_keys (previous_owners previous) ->
  exists o, place n previous E = Some (Ok o) /\ placement_ok E (retained n previous E) o
    /\ balanced E o /\ covers_all n E o /\ nonneg_keys o.
Proof.
  intros Hn Hd Hne H0. unfold place. rewrite bool_decide_false by done.
  set (r := retained n previous E).
  assert (Hr : forall p m, r !! p = Some m -> 0 <= p < n /\ m ∈ E).
  { intros p m Hm. apply retained_spec in Hm as (Hp & ? & ?). pose proof (H0 _ _ Hp). done. }
  assert (Hown : forall p m, r !! p = Some m -> m ∈ E) by (intros p m Hm; by apply (Hr p m)).
  destruct (fill_spec E r Hd Hown (range_Z 0 (Z.to_nat n)) r Hne (placement_start E r Hown))
    as (o1 & -> & P1 & L1 & _ & D1); [intros m Hm; lia|done|].
  assert (C1 : covers_all n E o1 /\ nonneg_keys o1).
  { assert (Hdom : forall p, o1 !! p <> None -> 0 <= p < n).
    { intros p [Hp|Hp]%D1; [|apply elem_of_range_Z in Hp; lia].
      destruct (r !! p) eqn:Ep; [by apply (Hr p) in Ep as [? _]|done]. }
    repeat split.
    - intros p Hp. destruct (o1 !! p) as [m|] eqn:Em.
      + exists m. split; [by eapply pl_owners|done].
      + exfalso. apply (proj2 (D1 p)); [right; apply elem_of_range_Z; lia|done].
    - intros p m Hm. apply (Hdom p). congruence.
    - intros p m Hm. apply (Hdom p). congruence. }
  destruct C1 as [C1 N1].
  destruct (rebalance_spec E r (Z.to_nat n) o1 Hne P1) as (o & E' & P & B & D).
  { unfold unmoved. etrans; [|apply Z.eq_le_incl, (eq_sym (Z2Nat.id n Hn))].
    rewrite <-(size_covered _ _ _ C1 N1 Hn), <-tally_true.
    rewrite (tally_split (fun _ => True) (fun kv => r !! kv.1 = Some kv.2)).
    pose proof (tally_nonneg (fun kv => True /\ ~ r !! kv.1 = Some kv.2) o1).
    rewrite (tally_ext (fun kv => True /\ r !! kv.1 = Some kv.2) (fun kv => r !! kv.1 = Some kv.2));
      [lia|naive_solver]. }
  exists o. split; [exact E'|]. split; [done|]. split; [done|].
  assert (Hdom : forall p, is_Some (o !! p) <-> is_Some (o1 !! p)).
  { intros p. rewrite <-!elem_of_dom, D. done. }
  repeat split.
  - intros p Hp. destruct (proj1 C1 p Hp) as (m1 & _ & H1).
    destruct (proj2 (Hdom p) (ex_intro _ m1 H1)) as [m Hm]. exists m. split; [by eapply pl_owners|done].
  - intros p m Hm. destruct (proj1 (Hdom p) (ex_intro _ m Hm)) as [m1 H1]. by eapply C1.
  - intros p m Hm. destruct (proj1 (Hdom p) (ex_intro _ m Hm)) as [m1 H1]. by eapply N1.
Qed.

(** ** Optimality *)

Lemma total_owned E o :
  NoDup E -> (forall p m, o !! p = Some m -> m ∈ E) ->
  total (fun m => owned m o) E = Z.of_nat (size o).
Proof.
  intros Hd Ho. rewrite <-tally_true, <-(total_tally (fun _ => True) E o Hd Ho).
  apply total_ext. intros m _. rewrite owned_tally. apply tally_ext. naive_solver.
Qed.

Lemma total_unmoved E r o :
  NoDup E -> (forall p m, o !! p = Some m -> m ∈ E) ->
  total (fun m => kept r m o) E = unmoved r o.
Proof. intros Hd Ho. apply (total_tally (fun kv => r !! kv.1 = Some kv.2) E o Hd Ho). Qed.

Lemma kept_bound r m g : kept r m g <= Z.min (owned m g) (owned m r).
Proof.
  apply Z.min_glb.
  - rewrite owned_tally, (tally_split (fun kv => kv.2 = m) (fun kv => r !! kv.1 = Some kv.2) g).
    pose proof (tally_nonneg (fun kv => kv.2 = m /\ ~ r !! kv.1 = Some kv.2) g). unfold kept. lia.
  - unfold kept, tally, owned. apply inj_le, map_subseteq_size, map_subseteq_spec. intros p x.
    rewrite !map_lookup_filter_Some. cbn. naive_solver.
Qed.

(** No balanced placement of the same partitions keeps more. *)
Lemma placement_optimal E r o g :
  NoDup E -> placement_ok E r o -> (forall p m, g !! p = Some m -> m ∈ E) -> balanced E g ->
  size g = size o -> unmoved r g <= unmoved r o.
Proof.
  intros Hd P Hg Bg Hs. pose proof (pl_owners _ _ _ P) as Ho.
  rewrite <-(total_unmoved E r g Hd Hg), <-(total_unmoved E r o Hd Ho).
  assert (Ht : total (fun m => owned m g) E = total (fun m => owned m o) E)
    by (rewrite !total_owned by done; lia).
  destruct (decide (Forall (fun m => owned m r < owned m o -> owned m o <= owned m g) E))
    as [Ha|Hb].
  - rewrite Forall_forall in Ha.
    assert (Hle : total (fun m => kept r m g + owned m o) E <= total (fun m => kept r m o + owned m g) E).
    { apply total_le. intros m Hm. rewrite (pl_kept _ _ _ P m Hm). pose proof (kept_bound r m g).
      specialize (Ha m Hm). lia. }
    rewrite !total_plus in Hle. lia.
  - apply not_Forall_Exists in Hb; [|apply _]. apply Exists_exists in Hb as (m' & Hm' & Hb).
    assert (Hb' : owned m' r < owned m' o /\ owned m' g < owned m' o).
    { destruct (decide (owned m' r < owned m' o)), (decide (owned m' g < owned m' o)); try done;
        destruct Hb; lia. }
    apply total_le. intros m Hm. rewrite (pl_kept _ _ _ P m Hm). pose proof (kept_bound r m g).
    pose proof (pl_apart _ _ _ P m m' Hm Hm'). pose proof (Bg m m' Hm Hm'). lia.
Qed.

Lemma moved_unmoved n previous E o :
  (forall p m, o !! p = Some m -> p < n /\ m ∈ E) ->
  moved previous o = Z.of_nat (size o) - unmoved (retained n previous E) o.
Proof.
  intros Ho. unfold moved, unmoved.
  rewrite <-tally_true, (tally_split (fun _ => True) (fun kv => previous_owners previous !! kv.1 = Some kv.2)).
  rewrite (tally_ext (fun kv => retained n previous E !! kv.1 = Some kv.2)
             (fun kv => True /\ previous_owners previous !! kv.1 = Some kv.2)).
  2:{ intros p x Hx. cbn. rewrite retained_spec. specialize (Ho p x Hx). tauto. }
  rewrite (tally_ext (fun kv => previous_owners previous !! kv.1 <> Some kv.2)
             (fun kv => True /\ ~ previous_owners previous !! kv.1 = Some kv.2));
    [lia|naive_solver].
Qed.

(** ** Theorems *)

(** C16. Placement always succeeds with a valid assignment: for any previous
    assignment and any set of eligible tasks the loops end, no expectation
    fails, and the result passes [validate]: every partition has an eligible
    owner and the loads differ by at most one. *)
Theorem placement_is_valid n previous eligible region version now_ms :
  0 <= n -> nonneg_keys (previous_owners previous) ->
  exists d, balanced_minimal_movement n previous eligible region version now_ms = Some (Ok d)
    /\ document_validate d n = Ok tt /\ ad_version d = version /\ ad_region d = region
    /\ ad_eligible_members d = sorted_members eligible.
Proof.
  intros Hn H0. unfold balanced_minimal_movement.
  destruct (sorted_members_spec eligible) as [Hd _]. set (E := sorted_members eligible) in *.
  destruct (decide (E = [])) as [EE|Hne].
  - unfold place. rewrite bool_decide_true by done. eexists. split; [reflexivity|].
    split; [|done]. unfold document_validate. cbn [ad_schema_version ad_eligible_members ad_owners].
    rewrite (bool_decide_true (NoDup _)), (bool_decide_true (E = [])) by done.
    rewrite bool_decide_true; [done|]. by apply retained_nobody.
  - destruct (place_spec n previous E Hn Hd Hne H0) as (o & -> & P & B & C & _).
    eexists. split; [reflexivity|]. split; [|done]. by apply document_validate_iff.
Qed.

(** C27. Placement moves as little as possible: no valid assignment of the same
    eligible tasks changes the owner of fewer partitions. *)
Theorem placement_moves_least n previous eligible region version now_ms d other :
  0 <= n -> nonneg_keys (previous_owners previous) -> nonneg_keys (ad_owners other) ->
  balanced_minimal_movement n previous eligible region version now_ms = Some (Ok d) ->
  ad_eligible_members other = ad_eligible_members d -> document_validate other n = Ok tt ->
  moved previous (ad_owners d) <= moved previous (ad_owners other).
Proof.
  intros Hn H0 Hk E Hel Hv. unfold balanced_minimal_movement in E.
  destruct (sorted_members_spec eligible) as [Hd _]. set (M := sorted_members eligible) in *.
  destruct (decide (M = [])) as [EE|Hne].
  - unfold place in E. rewrite bool_decide_true in E by done. injection E as <-. cbn [ad_owners].
    cbn [ad_eligible_members] in Hel.
    unfold moved. rewrite (retained_nobody _ _ _ EE), tally_empty. apply tally_nonneg.
  - destruct (place_spec n previous M Hn Hd Hne H0) as (o & Eo & P & B & C & N).
    rewrite Eo in E. injection E as <-. cbn [ad_owners ad_eligible_members] in *.
    apply document_validate_iff in Hv as (_ & _ & C' & B'); [|by rewrite Hel]. rewrite Hel in *.
    pose proof (covers_owners _ _ _ C N) as Ho. pose proof (covers_owners _ _ _ C' Hk) as Ho'.
    assert (Hs : size (ad_owners other) = size o).
    { pose proof (size_covered _ _ _ C N Hn). pose proof (size_covered _ _ _ C' Hk Hn). lia. }
    rewrite !(moved_unmoved n _ M).
    + pose proof (placement_optimal M _ o (ad_owners other) Hd P Ho' B' Hs). lia.
    + intros p m Hm. split; [by eapply C'|by eapply Ho'].
    + intros p m Hm. split; [by eapply C|by eapply Ho].
Qed.

(** ** The store *)

(** No view goes back to an older assignment. *)
Definition views_advance (views views' : gmap Z AssignmentDocument) : Prop :=
  forall p v, views !! p = Some v ->
  exists v', views' !! p = Some v' /\ ad_version v <= ad_version v'.

#[global] Instance views_advance_preorder : PreOrder views_advance.
Proof.
  split.
  - intros views p v Hv. exists v. split; [done|lia].
  - intros x y z Hxy Hyz p v Hv. destruct (Hxy p v Hv) as (v1 & H1 & ?).
    destruct (Hyz p v1 H1) as (v2 & H2 & ?). exists v2. split; [done|lia].
Qed.

Lemma write_view_advances views p d : views_advance views (write_view views p d).2.
Proof.
  assert (Hins : (forall v, views !! p = Some v -> ad_version v <= ad_version d) ->
                 views_advance views (<[p := d]> views)).
  { intros Hle q v Hv. destruct (decide (q = p)) as [->|].
    - exists d. rewrite lookup_insert_eq. split; [done|by apply Hle].
    - exists v. rewrite lookup_insert_ne by done. split; [done|lia]. }
  unfold write_view. destruct (views !! p) as [c|] eqn:Ec.
  - destruct (Z.ltb_spec (ad_version d) (ad_version c)); [reflexivity|].
    destruct (_ =? _); [reflexivity|]. apply Hins. intros v [= <-]. done.
  - by apply Hins.
Qed.

Lemma sync_views_advance ps views d : views_advance views (sync_views ps views d).2.
Proof.
  revert views. induction ps as [|p ps IH]; intros views; cbn [sync_views]; [reflexivity|].
  pose proof (write_view_advances views p d) as H1.
  destruct (write_view views p d) as [[] views1]; [|exact H1]. etrans; [exact H1|apply IH].
Qed.

Lemma sync_partition_advances s keys d n r s' keys' :
  sync_partition_views s keys d n = (r, s', keys') ->
  ak_lease keys' = ak_lease keys /\ ak_assignment keys' = ak_assignment keys
  /\ views_advance (ak_views keys) (ak_views keys').
Proof.
  unfold sync_partition_views. destruct (_ =? _); [by intros [= <- <- <-]|].
  pose proof (sync_views_advance (range_Z 0 (Z.to_nat n)) (ak_views keys) d) as Hv.
  destruct (sync_views _ _ _) as [[] views]; intros [= <- <- <-]; done.
Qed.

(** The assignment changed only by the lease holder, from the version it read. *)
Definition guarded_write (n : Z) (token : string) (previous : option AssignmentDocument)
    (keys keys' : AssignmentKeys) : Prop :=
  ak_lease keys = Some token
  /\ ad_version <$> ak_assignment keys = ad_version <$> previous
  /\ exists d, ak_assignment keys' = Some d /\ document_validate d n = Ok tt
     /\ ad_version d = next_version (ad_version <$> previous).

Lemma compare_and_set_guarded s keys token n previous next w keys' :
  document_validate next n = Ok tt ->
  compare_and_set s keys token (ad_version <$> previous) next = (w, keys') ->
  ak_lease keys' = ak_lease keys /\ ak_views keys' = ak_views keys
  /\ (ak_assignment keys' = ak_assignment keys \/ guarded_write n token previous keys keys').
Proof.
  intros Hv. unfold compare_and_set, write_assignment.
  destruct (negb _); [intros [= <- <-]; by auto|].
  destruct (Z.eqb_spec (ad_version next) (next_version (ad_version <$> previous))) as [Ever|];
    cbn [negb]; [|intros [= <- <-]; by auto].
  case_bool_decide as El; cbn [negb]; [|intros [= <- <-]; by auto].
  destruct previous as [p|], (ak_assignment keys) as [c|] eqn:Ec; cbn in *;
    try (intros [= <- <-]; by auto).
  - destruct (Z.eqb_spec (ad_version c) (ad_version p)) as [Ep|];
      intros [= <- <-]; [|by auto].
    split; [done|]. split; [done|]. right. unfold guarded_write. rewrite Ec. cbn. split; [done|].
    split; [by f_equal|]. by eauto.
  - intros [= <- <-]. split; [done|]. split; [done|]. right. unfold guarded_write. rewrite Ec.
    split; [done|]. split; [done|]. by eauto.
Qed.

(** A stale coordinator cannot overwrite an assignment: whatever happened to
    the keys since a coordinator loaded the previous assignment, its
    reconciliation changes the assignment only while it holds the lease and only
    if the stored version is still the one it loaded; what it writes is valid
    and has the next version; and the view of no partition goes back to an older
    assignment. *)
Theorem stale_coordinators_write_nothing s keys token n members now_ms previous r s' keys' :
  0 <= n -> nonneg_keys (previous_owners previous) ->
  reconcile s keys token n members now_ms previous = Some (r, s', keys') ->
  ak_lease keys' = ak_lease keys
  /\ (ak_assignment keys' = ak_assignment keys \/ guarded_write n token previous keys keys')
  /\ views_advance (ak_views keys) (ak_views keys').
Proof.
  intros Hn H0. unfold reconcile.
  set (eligible := tm_boot_id <$> _). set (version := next_version _).
  destruct (balanced_minimal_movement n previous eligible (as_region s) version now_ms)
    as [[next|x|x]|]; [|intros [= <- <- <-]; split; [done|]; split; [by left|reflexivity]..|done].
  destruct (document_validate next n) as [[]|x|x] eqn:Ev;
    [|intros [= <- <- <-]; split; [done|]; split; [by left|reflexivity]..].
  destruct (match previous with Some p => _ | None => None end) as [p|].
  - destruct (sync_partition_views s keys p n) as [[r1 s1] keys1] eqn:Es. intros [= <- <- <-].
    apply sync_partition_advances in Es as (? & ? & ?). auto.
  - destruct (compare_and_set s keys token (ad_version <$> previous) next) as [w keys1] eqn:Ec.
    destruct (compare_and_set_guarded _ _ _ _ _ _ _ _ Ev Ec) as (El & Evw & Ha).
    assert (Hrefl : views_advance (ak_views keys) (ak_views keys1)) by (by rewrite Evw).
    destruct w as [[| |]|x|x]; try (by intros [= <- <- <-]).
    destruct (sync_partition_views s keys1 next n) as [[r1 s1] keys2] eqn:Es. intros [= <- <- <-].
    apply sync_partition_advances in Es as (El2 & Ea2 & Hv2).
    split; [congruence|]. split; [|by rewrite <-Evw].
    destruct Ha as [Ha|Hg]; [left; congruence|right].
    destruct Hg as (Hl & Hver & d & Hd & ?). split; [done|]. split; [done|]. exists d.
    by rewrite Ea2.
Qed.

(** ** A sample cluster: five partitions of "a", and "b" joins *)

Definition alone : AssignmentDocument :=
  mkAssignment 2 1 "eu" 0 ["a"] (list_to_map ((fun p => (p, "a")) <$> range_Z 0 5)).
Definition swapped : AssignmentDocument :=
  mkAssignment 2 2 "eu" 0 ["a"; "b"]
    (list_to_map [(0, "b"); (1, "b"); (2, "b"); (3, "a"); (4, "a")]).

Lemma nonneg_checked (o : Owners) : forallb (fun kv => 0 <=? kv.1) (map_to_list o) = true -> nonneg_keys o.
Proof.
  intros H p m Hm. rewrite forallb_forall in H.
  assert (Hin : (p, m) ∈ map_to_list o) by by apply elem_of_map_to_list.
  apply list_elem_of_In in Hin. specialize (H _ Hin). by apply Z.leb_le in H.
Qed.

Lemma placement_is_valid_witness :
  exists d, balanced_minimal_movement 5 (Some alone) ["b"; "a"; "b"] "eu" 2 7 = Some (Ok d)
    /\ document_validate d 5 = Ok tt /\ ad_eligible_members d = ["a"; "b"]
    /\ ad_owners d = list_to_map [(0, "a"); (1, "a"); (2, "a"); (3, "b"); (4, "b")].
Proof.
  destruct (placement_is_valid 5 (Some alone) ["b"; "a"; "b"] "eu" 2 7) as (d & E & Hv & _ & _ & Em).
  - lia.
  - apply nonneg_checked. vm_compute. reflexivity.
  - exists d. split; [exact E|]. split; [exact Hv|]. split; [rewrite Em; vm_compute; reflexivity|].
    vm_compute in E. injection E as <-. vm_compute. reflexivity.
Defined.

Lemma placement_moves_least_witness :
  exists d, balanced_minimal_movement 5 (Some alone) ["b"; "a"] "eu" 2 7 = Some (Ok d)
    /\ moved (Some alone) (ad_owners d) = 2 /\ moved (Some alone) (ad_owners swapped) = 3
    /\ moved (Some alone) (ad_owners d) <= moved (Some alone) (ad_owners swapped).
Proof.
  destruct (balanced_minimal_movement 5 (Some alone) ["b"; "a"] "eu" 2 7) as [[d|x|x]|] eqn:E;
    [|vm_compute in E; discriminate..].
  exists d. split; [reflexivity|].
  assert (Hd : moved (Some alone) (ad_owners d) = 2 /\ ad_eligible_members d = ["a"; "b"]).
  { vm_compute in E. injection E as <-. vm_compute. split; reflexivity. }
  destruct Hd as [Hm He]. split; [exact Hm|]. split; [vm_compute; reflexivity|].
  apply (placement_moves_least 5 (Some alone) ["b"; "a"] "eu" 2 7 d swapped).
  - lia.
  - apply nonneg_checked. vm_compute. reflexivity.
  - apply nonneg_checked. vm_compute. reflexivity.
  - exact E.
  - rewrite He. reflexivity.
  - vm_compute. reflexivity.
Defined.

Definition member_b : TaskMembership := mkMembership 2 "b" 7 None None EXECUTOR_PROTOCOL_VERSION Active 0 100.

(** The coordinator read version 1; another one has since written version 2. *)
Lemma stale_coordinators_write_nothing_witness :
  exists r s' keys',
    reconcile (mkStore "eu" 0) (mkKeys (Some "token") (Some swapped) ∅) "token" 5 [member_b] 50
      (Some alone) = Some (r, s', keys')
    /\ r = Ok (VersionConflict, mkAssignment 2 2 "eu" 50 ["b"]
                (list_to_map ((fun p => (p, "b")) <$> range_Z 0 5)))
    /\ ak_assignment keys' = Some swapped.
Proof.
  destruct (reconcile (mkStore "eu" 0) (mkKeys (Some "token") (Some swapped) ∅) "token" 5 [member_b]
              50 (Some alone)) as [[[r s'] keys']|] eqn:E; [|vm_compute in E; discriminate].
  exists r, s', keys'. split; [reflexivity|].
  split; [vm_compute in E; injection E as <- <- <-; vm_compute; reflexivity|].
  destruct (stale_coordinators_write_nothing (mkStore "eu" 0)
    (mkKeys (Some "token") (Some swapped) ∅) "token" 5 [member_b] 50 (Some alone) r s' keys')
    as (_ & Ha & _).
  - lia.
  - apply nonneg_checked. vm_compute. reflexivity.
  - exact E.
  - destruct Ha as [Ha|(_ & Hver & _)]; [exact Ha|]. vm_compute in Hver. discriminate Hver.
Defined.
