(* ===== verification/Lease.v ===== *)
(** * Leases: server/src/partition_lease.rs

    The lease of a partition is a Redis key that holds the token of one
    acquisition and expires; its scripts are functions of the time at which
    Redis runs them. With it, the watchdog of an executor
    (server/src/game_executor_v2.rs), which stops work before the lease can have
    expired. A [Uuid] is its text. The failures of the connection are left out. *)

From Stdlib Require Import ZArith.
From stdpp Require Import prelude strings countable list gmap.
From S2P Require Import Prelude StreamId Partition.
Open Scope Z_scope.

Record LeaseToken := mkToken {
  lt_boot_id : BootIdentity;
  lt_acquisition_id : string
}.

Definition token_encode (t : LeaseToken) : string :=
  lt_boot_id t +:+ ":" +:+ lt_acquisition_id t.

(** A key with an expiry: [GET] and [EXISTS] see it before it expires. *)
Record LeaseKey := mkLeaseKey { lk_value : string; lk_expires_at : Z }.

Definition key_get (key : option LeaseKey) (now : Z) : option string :=
  match key with
  | Some k => if now <? lk_expires_at k then Some (lk_value k) else None
  | None => None
  end.

(** ** Scripts *)

Definition try_acquire_script (assignment : option AssignmentDocument) (partition : Z)
    (boot_id : BootIdentity) (encoded : string) (ttl now : Z) (key : option LeaseKey)
  : Z * option LeaseKey :=
  match assignment with
  | None => (-2, key)
  | Some d =>
      if negb (bool_decide (desired_owner d partition = Some boot_id)) then (0, key)
      else match key_get key now with
           | Some _ => (0, key)
           | None => (1, Some (mkLeaseKey encoded (now + ttl)))
           end
  end.

(** [PEXPIRE] on a key that is there. *)
Definition renew_for_handoff_script (encoded : string) (ttl now : Z) (key : option LeaseKey)
  : Z * option LeaseKey :=
  if negb (bool_decide (key_get key now = Some encoded)) then (0, key)
  else (1, Some (mkLeaseKey encoded (now + ttl))).

Definition renew_script (assignment : option AssignmentDocument) (partition : Z)
    (boot_id : BootIdentity) (encoded : string) (ttl now : Z) (key : option LeaseKey)
  : Z * option LeaseKey :=
  match assignment with
  | None => (0, key)
  | Some d =>
      if negb (bool_decide (desired_owner d partition = Some boot_id)) then (0, key)
      else renew_for_handoff_script encoded ttl now key
  end.

Definition validate_script (encoded : string) (now : Z) (key : option LeaseKey) : Z :=
  if bool_decide (key_get key now = Some encoded) then 1 else 0.

Definition release_script (encoded : string) (now : Z) (key : option LeaseKey)
  : Z * option LeaseKey :=
  if negb (bool_decide (key_get key now = Some encoded)) then (0, key) else (1, None).

(** ** The store *)

Record PartitionLeaseStore := mkLeaseStore {
  ls_ttl : Z;
  ls_operation_timeout : Z
}.

Definition PartitionLeaseStore_new (ttl operation_timeout : Z) : Result PartitionLeaseStore :=
  ensure (negb (ttl <? 1000)) "partition lease TTL must be at least one second" ;;
  ensure (negb (ttl <=? operation_timeout))
    "coordination operation timeout must be shorter than lease TTL" ;;
  Ok (mkLeaseStore ttl operation_timeout).

(** The answer of the acquisition script. *)
Definition acquire_result (code : Z) : Result bool :=
  if code =? 1 then Ok true
  else if code =? 0 then Ok false
  else if code =? -2 then Err "partition assignment is missing"
  else if code =? -3 then Err "partition assignment is malformed"
  else Err "unknown partition lease result".

(** ** The watchdog *)

Record LeaseWatchdogBudget := mkBudget {
  wb_last_confirmed_at : Z;
  wb_ttl : Z;
  wb_operation_timeout : Z
}.

Definition fail_closed_at (b : LeaseWatchdogBudget) : Z :=
  wb_last_confirmed_at b + (wb_ttl b - wb_operation_timeout b).

Definition confirm_at (b : LeaseWatchdogBudget) (confirmed_at : Z) : LeaseWatchdogBudget :=
  mkBudget confirmed_at (wb_ttl b) (wb_operation_timeout b).

Definition can_retry_at (b : LeaseWatchdogBudget) (now : Z) : bool := now <? fail_closed_at b.

Inductive LeaseWatchdogEvent := AssignmentMoved | AuthorityLost.

(** A probe renews; if the assignment has moved it refreshes the token once. The
    second script runs at [now'] on the key the first one left. *)
Definition probe_partition_lease (s : PartitionLeaseStore) (assignment : option AssignmentDocument)
    (partition : Z) (boot_id : BootIdentity) (encoded : string) (now now' : Z)
    (key : option LeaseKey) : option LeaseWatchdogEvent * option LeaseKey :=
  match renew_script assignment partition boot_id encoded (ls_ttl s) now key with
  | (1, key) => (None, key)
  | (_, key) =>
      match renew_for_handoff_script encoded (ls_ttl s) now' key with
      | (1, key) => (Some AssignmentMoved, key)
      | (_, key) => (Some AuthorityLost, key)
      end
  end.

(** ** Executors at work

    [ex_pending] holds, for a token whose script succeeded and whose response is
    on its way, the time Redis ran the script; [ex_budget] holds the watchdogs. *)

Record Executors := mkExecutors {
  ex_now : Z;
  ex_key : option LeaseKey;
  ex_tokens : gset string;
  ex_pending : gmap string Z;
  ex_budget : gmap string LeaseWatchdogBudget
}.

Section executors.
Variables (s : PartitionLeaseStore) (partition : Z).

Inductive executor_step (x : Executors) : Executors -> Prop :=
| ex_tick now : ex_now x <= now ->
    executor_step x (mkExecutors now (ex_key x) (ex_tokens x) (ex_pending x) (ex_budget x))
| ex_acquire assignment boot_id token key :
    token ∉ ex_tokens x ->
    try_acquire_script assignment partition boot_id token (ls_ttl s) (ex_now x) (ex_key x)
      = (1, key) ->
    executor_step x (mkExecutors (ex_now x) key ({[token]} ∪ ex_tokens x)
                       (<[token := ex_now x]> (ex_pending x)) (ex_budget x))
| ex_renew assignment boot_id token key :
    renew_script assignment partition boot_id token (ls_ttl s) (ex_now x) (ex_key x) = (1, key) ->
    executor_step x (mkExecutors (ex_now x) key (ex_tokens x)
                       (<[token := ex_now x]> (ex_pending x)) (ex_budget x))
| ex_handoff token key :
    renew_for_handoff_script token (ls_ttl s) (ex_now x) (ex_key x) = (1, key) ->
    executor_step x (mkExecutors (ex_now x) key (ex_tokens x) (ex_pending x) (ex_budget x))
| ex_confirm token e :
    ex_pending x !! token = Some e -> ex_now x <= e + ls_operation_timeout s ->
    executor_step x (mkExecutors (ex_now x) (ex_key x) (ex_tokens x) (delete token (ex_pending x))
      (<[token := mkBudget (ex_now x) (ls_ttl s) (ls_operation_timeout s)]> (ex_budget x)))
| ex_release token :
    executor_step x (mkExecutors (ex_now x) (release_script token (ex_now x) (ex_key x)).2
                       (ex_tokens x) (delete token (ex_pending x)) (delete token (ex_budget x))).

(** A token whose executor accepts work. *)
Definition accepts_work (x : Executors) (token : string) : Prop :=
  exists b, ex_budget x !! token = Some b /\ can_retry_at b (ex_now x) = true.
End executors.

Definition idle_executors : Executors := mkExecutors 0 None ∅ ∅ ∅.

(** ** One executor per partition *)

Section safety.
Variables (s : PartitionLeaseStore) (partition : Z).
Hypothesis timeout_short : 0 <= ls_operation_timeout s < ls_ttl s.

(** The lease is held by a token until at least a time. *)
Definition held_until (x : Executors) (token : string) (t : Z) : Prop :=
  exists k, ex_key x = Some k /\ lk_value k = token /\ t <= lk_expires_at k.

Record lease_ok (x : Executors) : Prop := mkLeaseOk {
  lo_budget : forall token b, ex_budget x !! token = Some b -> ex_now x < fail_closed_at b ->
    held_until x token (fail_closed_at b);
  lo_pending : forall token e, ex_pending x !! token = Some e ->
    ex_now x <= e + ls_operation_timeout s -> held_until x token (e + ls_ttl s);
  lo_key : forall k, ex_key x = Some k -> lk_expires_at k <= ex_now x + ls_ttl s
}.

(** Until then Redis answers with the token. *)
Lemma held_get x token t :
  held_until x token t -> ex_now x < t -> key_get (ex_key x) (ex_now x) = Some token.
Proof.
  intros (k & -> & <- & Hle) Hlt. unfold key_get. by rewrite (proj2 (Z.ltb_lt _ _)) by lia.
Qed.

(** A script that writes the key for the token Redis answers with, or for any
    token when Redis has none, keeps every promise. *)
Lemma lease_ok_extend x token tokens pend :
  lease_ok x ->
  (forall other, key_get (ex_key x) (ex_now x) = Some other -> other = token) ->
  (forall other e, pend !! other = Some e ->
     ex_pending x !! other = Some e \/ (other = token /\ e = ex_now x)) ->
  lease_ok (mkExecutors (ex_now x) (Some (mkLeaseKey token (ex_now x + ls_ttl s)))
              tokens pend (ex_budget x)).
Proof.
  intros [Hb Hp Hk] Hkey Hpend.
  assert (Hold : forall other t, held_until x other t -> ex_now x < t ->
            held_until (mkExecutors (ex_now x) (Some (mkLeaseKey token (ex_now x + ls_ttl s)))
                          tokens pend (ex_budget x)) other t).
  { intros other t Hh Hlt. pose proof (Hkey _ (held_get _ _ _ Hh Hlt)) as ->.
    destruct Hh as (k & Ek & _ & Hle). specialize (Hk k Ek).
    eexists. split; [reflexivity|]. split; [done|]. cbn. lia. }
  split; cbn.
  - intros other b Eb Hlt. apply Hold; [by apply Hb|done].
  - intros other e Ee Hle. destruct (Hpend _ _ Ee) as [Eo|[-> ->]].
    + apply Hold; [by apply Hp|lia].
    + eexists. split; [reflexivity|]. split; [done|]. cbn. lia.
  - intros k [= <-]. cbn. lia.
Qed.

Lemma handoff_script_ok token ttl now key key' :
  renew_for_handoff_script token ttl now key = (1, key') ->
  key_get key now = Some token /\ key' = Some (mkLeaseKey token (now + ttl)).
Proof.
  unfold renew_for_handoff_script. case_bool_decide; cbn [negb]; [|done]. by intros [= <-].
Qed.

Lemma renew_script_ok assignment boot_id token ttl now key key' :
  renew_script assignment partition boot_id token ttl now key = (1, key') ->
  key_get key now = Some token /\ key' = Some (mkLeaseKey token (now + ttl)).
Proof.
  unfold renew_script. destruct assignment as [d|]; [|done]. destruct (negb _); [done|].
  apply handoff_script_ok.
Qed.

Lemma acquire_script_ok assignment boot_id token ttl now key key' :
  try_acquire_script assignment partition boot_id token ttl now key = (1, key') ->
  key_get key now = None /\ key' = Some (mkLeaseKey token (now + ttl)).
Proof.
  unfold try_acquire_script. destruct assignment as [d|]; [|done]. destruct (negb _); [done|].
  destruct (key_get key now); [done|]. by intros [= <-].
Qed.

Lemma pending_insert (pend : gmap string Z) token now other e :
  <[token := now]> pend !! other = Some e -> pend !! other = Some e \/ (other = token /\ e = now).
Proof.
  destruct (decide (other = token)) as [->|].
  - rewrite lookup_insert_eq. intros [= <-]. by right.
  - rewrite lookup_insert_ne by done. by left.
Qed.

Lemma lease_ok_release x token :
  lease_ok x ->
  lease_ok (mkExecutors (ex_now x) (release_script token (ex_now x) (ex_key x)).2
              (ex_tokens x) (delete token (ex_pending x)) (delete token (ex_budget x))).
Proof.
  intros [Hb Hp Hk].
  assert (Hold : forall other t, other <> token -> held_until x other t -> ex_now x < t ->
            held_until (mkExecutors (ex_now x) (release_script token (ex_now x) (ex_key x)).2
              (ex_tokens x) (delete token (ex_pending x)) (delete token (ex_budget x))) other t).
  { intros other t Hne Hh Hlt. pose proof (held_get _ _ _ Hh Hlt) as Hg.
    unfold release_script. rewrite Hg, bool_decide_false by congruence. exact Hh. }
  split; cbn.
  - intros other b [Hne Eb]%lookup_delete_Some Hlt. apply Hold; [done|by apply Hb|done].
  - intros other e [Hne Ee]%lookup_delete_Some Hle. apply Hold; [done|by apply Hp|lia].
  - intros k. unfold release_script. destruct (negb _); cbn; [apply Hk|done].
Qed.

Lemma lease_ok_step x y : executor_step s partition x y -> lease_ok x -> lease_ok y.
Proof.
  intros St L. pose proof L as [Hb Hp Hk].
  destruct St as [now Hnow|assignment boot_id token key Hfresh E|assignment boot_id token key E
                 |token key E|token e Ee Hle|token].
  - split; cbn.
    + intros token b Eb Hlt. apply Hb; [done|lia].
    + intros token e Ee Hle. apply Hp; [done|lia].
    + intros k Ek. specialize (Hk k Ek). lia.
  - apply acquire_script_ok in E as [Hg ->].
    apply lease_ok_extend; [done|by rewrite Hg|apply pending_insert].
  - apply renew_script_ok in E as [Hg ->].
    apply lease_ok_extend; [done|rewrite Hg; congruence|apply pending_insert].
  - apply handoff_script_ok in E as [Hg ->].
    apply lease_ok_extend; [done|rewrite Hg; congruence|by left].
  - split; cbn; [|intros other e' [_ Ee']%lookup_delete_Some; by apply Hp|exact Hk].
    intros other b Eb Hlt. destruct (decide (other = token)) as [->|Hne].
    + rewrite lookup_insert_eq in Eb. injection Eb as <-. unfold fail_closed_at in *. cbn in *.
      destruct (Hp token e Ee Hle) as (k & ? & ? & ?). exists k. split_and!; [done|done|lia].
    + rewrite lookup_insert_ne in Eb by done. by apply Hb.
  - by apply lease_ok_release.
Qed.

Lemma lease_ok_run x : rtc (executor_step s partition) idle_executors x -> lease_ok x.
Proof.
  intros Hr. assert (L : lease_ok idle_executors) by by split.
  induction Hr as [|x y z Hs Hr IH]; [done|]. by apply IH, (lease_ok_step _ _ Hs).
Qed.

Lemma working_holds x token :
  rtc (executor_step s partition) idle_executors x -> accepts_work x token ->
  key_get (ex_key x) (ex_now x) = Some token.
Proof.
  intros Hr (b & Eb & Hc). apply Z.ltb_lt in Hc.
  eapply held_get; [|exact Hc]. by apply (lo_budget _ (lease_ok_run _ Hr)).
Qed.
End safety.

(** C17. One executor per partition: whatever the order of acquisitions,
    renewals, handoffs, releases, delayed responses and assignment changes, an
    executor that still accepts work holds the lease in Redis, so no two
    executors of a partition accept work at the same time. *)
Theorem one_executor_per_partition s partition ttl timeout x token1 token2 :
  PartitionLeaseStore_new ttl timeout = Ok s -> 0 <= timeout ->
  rtc (executor_step s partition) idle_executors x ->
  accepts_work x token1 -> accepts_work x token2 ->
  token1 = token2 /\ validate_script token1 (ex_now x) (ex_key x) = 1.
Proof.
  intros Hs H0 Hr H1 H2.
  assert (Ht : 0 <= ls_operation_timeout s < ls_ttl s).
  { unfold PartitionLeaseStore_new in Hs. apply ensure_bind_ok in Hs as [_ Hs].
    apply ensure_bind_ok in Hs as [Hlt [= <-]]. cbn. apply negb_true_iff, Z.leb_gt in Hlt. lia. }
  pose proof (working_holds _ _ Ht _ _ Hr H1) as G1. pose proof (working_holds _ _ Ht _ _ Hr H2) as G2.
  split; [congruence|]. unfold validate_script. by rewrite bool_decide_true.
Qed.

Definition lease_store : PartitionLeaseStore := mkLeaseStore 3000 750.
Definition owned_by_a : AssignmentDocument :=
  mkAssignment 2 1 "eu" 0 ["a"] {[ 4 := "a" ]}.

Lemma one_executor_per_partition_witness :
  exists x, rtc (executor_step lease_store 4) idle_executors x /\ accepts_work x "a:1"
    /\ validate_script "a:1" (ex_now x) (ex_key x) = 1.
Proof.
  assert (Hx : exists x, rtc (executor_step lease_store 4) idle_executors x
            /\ ex_budget x !! "a:1" = Some (mkBudget 700 3000 750) /\ ex_now x = 700).
  { eexists. split; [|split].
    - eapply rtc_l; [apply (ex_acquire lease_store 4 idle_executors (Some owned_by_a) "a" "a:1"
        (Some (mkLeaseKey "a:1" 3000))); [set_solver|vm_compute; reflexivity]|].
      eapply rtc_l; [apply (ex_tick lease_store 4 _ 700); vm_compute; discriminate|].
      eapply rtc_l; [|apply rtc_refl].
      eapply (ex_confirm lease_store 4 _ "a:1" 0); [vm_compute; reflexivity|vm_compute; discriminate].
    - vm_compute. reflexivity.
    - reflexivity. }
  destruct Hx as (x & Hr & Eb & En).
  assert (Hw : accepts_work x "a:1").
  { exists (mkBudget 700 3000 750). split; [exact Eb|]. rewrite En. reflexivity. }
  exists x. split; [exact Hr|]. split; [exact Hw|].
  apply (one_executor_per_partition lease_store 4 3000 750 x "a:1" "a:1");
    [reflexivity|lia|exact Hr|exact Hw|exact Hw].
Defined.
