(* ===== verification/Lifecycle.v ===== *)
(** * The lifecycle of a task: server/src/lifecycle.rs

    [TaskLifecycle] is shared by the threads of a process, so each of its atomic
    operations is a step: the threads interleave between the steps. A broadcast
    reaches the receivers that had subscribed. Durations are in milliseconds,
    clock readings are arguments; loads and stores are sequentially
    consistent. *)

From Stdlib Require Import ZArith.
From stdpp Require Import prelude strings countable list gmap relations.
From S2P Require Import Prelude.
Open Scope Z_scope.

Definition PHASE_STARTING : Z := 0.
Definition PHASE_ACTIVE : Z := 1.
Definition PHASE_DRAINING : Z := 2.
Definition PHASE_STOPPING : Z := 3.

Record DrainNotice := mkNotice {
  dn_task_boot_id : string;
  dn_deadline_unix_ms : Z
}.

Record TaskLifecycle := mkLifecycle {
  tl_task_boot_id : string;
  tl_phase : Z;
  tl_listener_bound : bool;
  tl_event_readers_ready : bool;
  tl_membership_ready : bool;
  tl_assignment_ready : bool;
  tl_critical_failure : bool;
  tl_last_redis_success_ms : Z;
  tl_redis_freshness_ms : Z;
  tl_active_websockets : Z;
  tl_socket_generation : Z;
  tl_drain_deadline_unix_ms : Z;
  tl_drain_announced : bool;
  tl_receivers : gmap Z (list DrainNotice)
}.

Definition TaskLifecycle_new (task_boot_id : string) : TaskLifecycle :=
  {| tl_task_boot_id := task_boot_id; tl_phase := PHASE_STARTING; tl_listener_bound := false;
     tl_event_readers_ready := false; tl_membership_ready := false;
     tl_assignment_ready := false; tl_critical_failure := false; tl_last_redis_success_ms := 0;
     tl_redis_freshness_ms := 5000; tl_active_websockets := 0; tl_socket_generation := 0;
     tl_drain_deadline_unix_ms := 0; tl_drain_announced := false; tl_receivers := ∅ |}.

(** ** Single stores *)

Definition set_redis_freshness (freshness_ms : Z) (l : TaskLifecycle) : TaskLifecycle :=
  {| l with tl_redis_freshness_ms := Z.min freshness_ms (2 ^ 63 - 1) |}.
Definition mark_listener_bound (l : TaskLifecycle) : TaskLifecycle :=
  {| l with tl_listener_bound := true |}.
Definition mark_event_readers_ready (ready : bool) (l : TaskLifecycle) : TaskLifecycle :=
  {| l with tl_event_readers_ready := ready |}.
Definition mark_membership_ready (ready : bool) (l : TaskLifecycle) : TaskLifecycle :=
  {| l with tl_membership_ready := ready |}.
Definition mark_assignment_ready (ready : bool) (l : TaskLifecycle) : TaskLifecycle :=
  {| l with tl_assignment_ready := ready |}.
Definition mark_redis_success_now (now_ms : Z) (l : TaskLifecycle) : TaskLifecycle :=
  {| l with tl_last_redis_success_ms := now_ms |}.
Definition mark_critical_failure (l : TaskLifecycle) : TaskLifecycle :=
  {| l with tl_critical_failure := true |}.

(** [compare_exchange(PHASE_STARTING, PHASE_ACTIVE)]. *)
Definition activate_task (l : TaskLifecycle) : TaskLifecycle :=
  if tl_phase l =? PHASE_STARTING then {| l with tl_phase := PHASE_ACTIVE |} else l.

Definition begin_stopping (l : TaskLifecycle) : TaskLifecycle :=
  {| l with tl_phase := PHASE_STOPPING |}.

Definition next_socket_generation (l : TaskLifecycle) : Z * TaskLifecycle :=
  let n := wrap_u64 (tl_socket_generation l + 1) in (n, {| l with tl_socket_generation := n |}).

Definition websocket_opened (l : TaskLifecycle) : Z * TaskLifecycle :=
  let n := wrap_u64 (tl_active_websockets l + 1) in (n, {| l with tl_active_websockets := n |}).

(** The exchange that succeeds: it saw the current value. *)
Definition websocket_closed (l : TaskLifecycle) : Z * TaskLifecycle :=
  if tl_active_websockets l =? 0 then (0, l)
  else let n := tl_active_websockets l - 1 in (n, {| l with tl_active_websockets := n |}).

(** ** Draining, step by step *)

(** The stores of [begin_draining]. *)
Definition store_deadline (deadline_unix_ms : Z) (l : TaskLifecycle) : TaskLifecycle :=
  {| l with tl_drain_deadline_unix_ms := deadline_unix_ms |}.
Definition store_draining (l : TaskLifecycle) : TaskLifecycle :=
  {| l with tl_phase := PHASE_DRAINING |}.
Definition begin_draining (deadline_unix_ms : Z) (l : TaskLifecycle)
  : DrainNotice * TaskLifecycle :=
  (mkNotice (tl_task_boot_id l) deadline_unix_ms, store_draining (store_deadline deadline_unix_ms l)).

(** The store and the send of [announce_drain]. *)
Definition store_announced (l : TaskLifecycle) : TaskLifecycle :=
  {| l with tl_drain_announced := true |}.
Definition send_notice (notice : DrainNotice) (l : TaskLifecycle) : TaskLifecycle :=
  {| l with tl_receivers := (fun q => q ++ [notice]) <$> tl_receivers l |}.
Definition announce_drain (notice : DrainNotice) (l : TaskLifecycle) : TaskLifecycle :=
  send_notice notice (store_announced l).

Definition subscribe_to_drain (receiver : Z) (l : TaskLifecycle) : TaskLifecycle :=
  {| l with tl_receivers := <[receiver := []]> (tl_receivers l) |}.

(** The deadline as [current_drain_notice] reads it. *)
Definition notice_of_deadline (l : TaskLifecycle) : option DrainNotice :=
  if 0 <? tl_drain_deadline_unix_ms l
  then Some (mkNotice (tl_task_boot_id l) (tl_drain_deadline_unix_ms l)) else None.
Definition current_drain_notice (l : TaskLifecycle) : option DrainNotice :=
  if negb (tl_drain_announced l) then None else notice_of_deadline l.

(** ** Queries *)

Definition is_draining (l : TaskLifecycle) : bool := PHASE_DRAINING <=? tl_phase l.

(** [saturating_sub] on [i64]. *)
Definition sat_sub_i64 (a b : Z) : Z := Z.max (- 2 ^ 63) (Z.min (2 ^ 63 - 1) (a - b)).

Definition is_task_eligible (now_ms : Z) (l : TaskLifecycle) : bool :=
  if negb (tl_phase l =? PHASE_ACTIVE) || negb (tl_listener_bound l) || tl_critical_failure l
  then false
  else if negb (tl_assignment_ready l) then false
  else (0 <? tl_last_redis_success_ms l)
       && (sat_sub_i64 now_ms (tl_last_redis_success_ms l) <=? tl_redis_freshness_ms l).

Definition is_ready (now_ms : Z) (l : TaskLifecycle) : bool :=
  if negb (is_task_eligible now_ms l) || negb (tl_event_readers_ready l) then false
  else tl_membership_ready l.

(** ** Draining is for good *)

Inductive lifecycle_op (l : TaskLifecycle) : TaskLifecycle -> Prop :=
| op_freshness ms : lifecycle_op l (set_redis_freshness ms l)
| op_listener : lifecycle_op l (mark_listener_bound l)
| op_readers ready : lifecycle_op l (mark_event_readers_ready ready l)
| op_membership ready : lifecycle_op l (mark_membership_ready ready l)
| op_assignment ready : lifecycle_op l (mark_assignment_ready ready l)
| op_redis now_ms : lifecycle_op l (mark_redis_success_now now_ms l)
| op_failure : lifecycle_op l (mark_critical_failure l)
| op_activate : lifecycle_op l (activate_task l)
| op_drain deadline : lifecycle_op l (begin_draining deadline l).2
| op_announce notice : lifecycle_op l (announce_drain notice l)
| op_stop : lifecycle_op l (begin_stopping l)
| op_subscribe receiver : lifecycle_op l (subscribe_to_drain receiver l)
| op_generation : lifecycle_op l (next_socket_generation l).2
| op_opened : lifecycle_op l (websocket_opened l).2
| op_closed : lifecycle_op l (websocket_closed l).2.

Lemma draining_step l l' : lifecycle_op l l' -> is_draining l = true -> is_draining l' = true.
Proof.
  intros [] Hd; cbn; try exact Hd; try reflexivity.
  - unfold activate_task. destruct (Z.eqb_spec (tl_phase l) PHASE_STARTING) as [E|]; [|done].
    unfold is_draining in Hd. by rewrite E in Hd.
  - unfold websocket_closed. by destruct (_ =? 0).
Qed.

(** Draining is for good: once a task drains, no later operation makes it
    eligible for placement or ready for traffic again, at any time. *)
Theorem draining_is_permanent l l' now_ms :
  is_draining l = true -> rtc lifecycle_op l l' ->
  is_draining l' = true /\ is_task_eligible now_ms l' = false /\ is_ready now_ms l' = false.
Proof.
  intros Hd Hr. assert (Hd' : is_draining l' = true).
  { induction Hr as [|x y z S Hr IH]; [done|]. by apply IH, (draining_step _ _ S). }
  split; [done|]. assert (He : is_task_eligible now_ms l' = false).
  { unfold is_task_eligible. destruct (Z.eqb_spec (tl_phase l') PHASE_ACTIVE) as [E|]; [|done].
    unfold is_draining in Hd'. by rewrite E in Hd'. }
  split; [done|]. unfold is_ready. by rewrite He.
Qed.

Lemma draining_is_permanent_witness :
  let l := (begin_draining 9000 (activate_task (TaskLifecycle_new "boot"))).2 in
  is_draining l = true /\ is_ready 100 (activate_task l) = false.
Proof.
  intros l. split; [reflexivity|]. apply (draining_is_permanent l); [reflexivity|].
  eapply rtc_l; [apply op_activate|apply rtc_refl].
Defined.

(** ** A connection and the drain

    The thread that drains stores the deadline, the phase and the announcement
    and then broadcasts; a connection subscribes, then reads the announcement,
    and the deadline if there is one. *)

Record DrainRace := mkRace {
  dr_task : TaskLifecycle;
  dr_drainer : nat;
  dr_connection : nat;
  dr_seen : bool;
  dr_replayed : option DrainNotice
}.

Section race.
Variables (deadline receiver : Z) (boot : string).

Definition with_task (l : TaskLifecycle) (x : DrainRace) : DrainRace := {| x with dr_task := l |}.
Definition drainer_at (n : nat) (x : DrainRace) : DrainRace := {| x with dr_drainer := n |}.
Definition connection_at (n : nat) (x : DrainRace) : DrainRace := {| x with dr_connection := n |}.

(** Operations of other threads; the drain is not theirs. *)
Inductive other_op (l : TaskLifecycle) : TaskLifecycle -> Prop :=
| other_mark f : (forall l, tl_task_boot_id (f l) = tl_task_boot_id l
    /\ tl_drain_deadline_unix_ms (f l) = tl_drain_deadline_unix_ms l
    /\ tl_drain_announced (f l) = tl_drain_announced l
    /\ tl_receivers (f l) = tl_receivers l) -> other_op l (f l)
| other_subscriber r : r <> receiver -> other_op l (subscribe_to_drain r l).

Inductive race_step (x : DrainRace) : DrainRace -> Prop :=
| race_other l : other_op (dr_task x) l -> race_step x (with_task l x)
| race_deadline : dr_drainer x = 0%nat ->
    race_step x (drainer_at 1 (with_task (store_deadline deadline (dr_task x)) x))
| race_phase : dr_drainer x = 1%nat ->
    race_step x (drainer_at 2 (with_task (store_draining (dr_task x)) x))
| race_announced : dr_drainer x = 2%nat ->
    race_step x (drainer_at 3 (with_task (store_announced (dr_task x)) x))
| race_send : dr_drainer x = 3%nat ->
    race_step x (drainer_at 4 (with_task (send_notice (mkNotice boot deadline) (dr_task x)) x))
| race_subscribe : dr_connection x = 0%nat ->
    race_step x (connection_at 1 (with_task (subscribe_to_drain receiver (dr_task x)) x))
| race_read : dr_connection x = 1%nat ->
    race_step x (connection_at 2 {| x with dr_seen := tl_drain_announced (dr_task x) |})
| race_replay : dr_connection x = 2%nat ->
    race_step x (connection_at 3 {| x with dr_replayed :=
      if dr_seen x then notice_of_deadline (dr_task x) else None |}).

Definition received (x : DrainRace) : Prop :=
  exists q, tl_receivers (dr_task x) !! receiver = Some q /\ mkNotice boot deadline ∈ q.

Record race_ok (x : DrainRace) : Prop := mkRaceOk {
  ra_boot : tl_task_boot_id (dr_task x) = boot;
  ra_deadline : (1 <= dr_drainer x)%nat -> tl_drain_deadline_unix_ms (dr_task x) = deadline;
  ra_announced : (3 <= dr_drainer x)%nat -> tl_drain_announced (dr_task x) = true;
  ra_quiet : (dr_drainer x < 3)%nat -> tl_drain_announced (dr_task x) = false;
  ra_seen : dr_seen x = true -> (3 <= dr_drainer x)%nat;
  ra_subscribed : (1 <= dr_connection x)%nat -> is_Some (tl_receivers (dr_task x) !! receiver);
  ra_notified : dr_drainer x = 4%nat -> (1 <= dr_connection x)%nat ->
    received x
    \/ (((2 <= dr_connection x)%nat -> dr_seen x = true)
        /\ (dr_connection x = 3%nat -> dr_replayed x = Some (mkNotice boot deadline)))
}.

(** The clauses a step does not touch. *)
Ltac race_auto :=
  split; unfold received in *; cbn in *; try done; intros; try lia; try (by auto);
  try match goal with
      | H : dr_seen _ = true, R : dr_seen _ = true -> _ |- _ => specialize (R H); lia
      | R : _ -> ?g |- ?g => apply R; lia
      end.

Lemma race_ok_step x y : 0 < deadline -> race_step x y -> race_ok x -> race_ok y.
Proof.
  intros Hpos St [R1 R2 R3 R4 R5 R6 R7].
  destruct St as [l Ho|E|E|E|E|E|E|E].
  - destruct Ho as [f Hf|r Hne].
    + destruct (Hf (dr_task x)) as (E1 & E2 & E3 & E4).
      split; unfold received in *; cbn; rewrite ?E1, ?E2, ?E3, ?E4; done.
    + split; unfold received in *; cbn; try done;
        by rewrite lookup_insert_ne by done.
  - race_auto.
  - race_auto.
  - race_auto.
  - race_auto.
    + rewrite lookup_fmap. destruct (R6 ltac:(lia)) as [q ->]. by eexists.
    + left. destruct (R6 ltac:(lia)) as [q Hq]. exists (q ++ [mkNotice boot deadline]).
      rewrite lookup_fmap, Hq. split; [done|]. apply elem_of_app. right. left.
  - race_auto. rewrite lookup_insert_eq. by eexists.
  - race_auto.
    + destruct (decide (3 <= dr_drainer x)%nat); [done|]. rewrite R4 in * by lia. done.
    + destruct (R7 ltac:(lia) ltac:(lia)) as [?|_]; [by left|right]. split; [|lia].
      intros _. apply R3. lia.
  - race_auto. destruct (R7 ltac:(lia) ltac:(lia)) as [?|[Hs _]]; [by left|right].
    split; [intros; apply Hs; lia|].
    intros _. rewrite Hs by lia. unfold notice_of_deadline. rewrite R1, R2 by lia.
    by rewrite (proj2 (Z.ltb_lt _ _) Hpos).
Qed.

Lemma race_ok_run x y : 0 < deadline -> rtc race_step x y -> race_ok x -> race_ok y.
Proof. intros Hpos. induction 1 as [|x y z S Hr IH]; [done|]. eauto using race_ok_step. Qed.
End race.

(** A race that has not begun. *)
Definition race_start (l : TaskLifecycle) : DrainRace := mkRace l 0 0 false None.

(** No connection misses the drain: however a connection that subscribes and
    then looks for a notice interleaves with the thread that drains, and with
    the operations of other threads, once both are done the connection has the
    notice, in its channel or replayed. *)
Theorem no_connection_misses_the_drain deadline receiver l x :
  0 < deadline -> tl_drain_announced l = false ->
  rtc (race_step deadline receiver (tl_task_boot_id l)) (race_start l) x ->
  dr_drainer x = 4%nat -> dr_connection x = 3%nat ->
  let notice := mkNotice (tl_task_boot_id l) deadline in
  (exists q, tl_receivers (dr_task x) !! receiver = Some q /\ notice ∈ q)
  \/ dr_replayed x = Some notice.
Proof.
  intros Hpos Ha Hr Hd Hc notice.
  assert (R : race_ok deadline receiver (tl_task_boot_id l) x).
  { apply (race_ok_run _ _ _ _ _ Hpos Hr). split; cbn; try done; lia. }
  destruct (ra_notified _ _ _ _ R Hd ltac:(lia)) as [?|[_ Hp]]; [by left|right]. by apply Hp.
Qed.

(** A socket that finishes its upgrade after the broadcast. *)
Lemma no_connection_misses_the_drain_witness :
  exists x, rtc (race_step 9000 1 "boot") (race_start (TaskLifecycle_new "boot")) x
    /\ dr_drainer x = 4%nat /\ dr_connection x = 3%nat
    /\ ((exists q, tl_receivers (dr_task x) !! 1 = Some q /\ mkNotice "boot" 9000 ∈ q)
        \/ dr_replayed x = Some (mkNotice "boot" 9000)).
Proof.
  assert (Hx : exists x, rtc (race_step 9000 1 "boot") (race_start (TaskLifecycle_new "boot")) x
            /\ dr_drainer x = 4%nat /\ dr_connection x = 3%nat).
  { eexists. split.
    - eapply rtc_l; [apply race_deadline; reflexivity|].
      eapply rtc_l; [apply race_phase; reflexivity|].
      eapply rtc_l; [apply race_announced; reflexivity|].
      eapply rtc_l; [apply race_send; reflexivity|].
      eapply rtc_l; [apply race_subscribe; reflexivity|].
      eapply rtc_l; [apply race_read; reflexivity|].
      eapply rtc_l; [apply race_replay; reflexivity|]. apply rtc_refl.
    - split; reflexivity. }
  destruct Hx as (x & Hr & Hd & Hc). exists x. split; [exact Hr|]. split; [exact Hd|].
  split; [exact Hc|].
  apply (no_connection_misses_the_drain 9000 1 (TaskLifecycle_new "boot") x);
    [lia|reflexivity|exact Hr|exact Hd|exact Hc].
Defined.
