(* ===== verification/SkinCatalog.v ===== *)
(** * Skins in a match: server/src/skin_catalog.rs, skin_store.rs, matchmaking.rs

    What a player has equipped is a text on the account; what enters a match is
    decided here. The built-in catalogue, the base skins, and the resolution of
    a player-authored skin to the content reference of one revision. The
    database answers through the class [SkinDb]; its write that records the
    exposure of a revision is left out, since its failure changes nothing. *)

From Stdlib Require Import ZArith Ascii.
From stdpp Require Import prelude strings list sorting.
From S2P Require Import Prelude StreamId Journal.
Open Scope Z_scope.

(** ** The catalogue *)

Definition DEFAULT_SKIN_REF : string := "classic@1".

Definition CATALOG : list string :=
  ["classic@1"; "aurora@1"; "ember@1"; "tidewave@1"; "voltage@1"; "lantern@1"; "breaker@1";
   "afterburn@1"; "cinder@1"; "floe@1"; "woodblock@1"; "bloom@1"; "slipstream@1"; "harrier@1";
   "argyle@1"; "serpentine@1"; "voltcore@1"; "marquee@1"; "basalt@1"; "ripple@1"; "moth@1";
   "prism@1"; "houndstooth@1"; "circuit@1"; "pinstripe@1"; "static@1"; "mosaic@1";
   "herringbone@1"; "carbon@1"; "tartan@1"; "coral@1"; "amber@1"; "geode@1"; "timber@1";
   "peacock@1"; "monarch@1"; "chrome@1"; "neon@1"; "camo@1"; "loom@1"; "delft@1"; "rosette@1";
   "gambit@1"; "harlequin@1"; "pitlane@1"].

Definition BASE_REF_PREFIX : string := "base:".

Definition BASE_SKINS : list string :=
  ["invaders@1"; "lightcycle@1"; "python@1"; "dragon@1"; "sharkbite@1"; "aquarium@1"; "surf@1";
   "fairway@1"; "destroyer@1"; "blockcraft@1"; "anime@1"; "kittens@1"; "bears@1";
   "barbershop@1"; "wizardry@1"; "harvest@1"; "yuletide@1"].

Definition MAX_SKIN_REF_LENGTH : Z := 96.

(** [str::strip_prefix]. *)
Fixpoint strip_prefix (prefix s : string) : option string :=
  match prefix, s with
  | EmptyString, _ => Some s
  | String c prefix', String d s' =>
      if bool_decide (c = d) then strip_prefix prefix' s' else None
  | String _ _, EmptyString => None
  end.

Definition byte_len (s : string) : Z := Z.of_nat (String.length s).

Definition is_known (skin_ref : string) : bool := bool_decide (skin_ref ∈ CATALOG).

Definition is_known_base_skin (id : string) : bool := bool_decide (id ∈ BASE_SKINS).

Definition is_known_base (base_ref : string) : bool :=
  match strip_prefix BASE_REF_PREFIX base_ref with
  | Some inner => is_known_base_skin inner || is_known inner
  | None => false
  end.

Definition resolve_skin_ref (requested : option string) : string :=
  match requested with
  | None => DEFAULT_SKIN_REF
  | Some requested =>
      let trimmed := trim requested in
      if bool_decide (trimmed = EmptyString) || (MAX_SKIN_REF_LENGTH <? byte_len trimmed)
      then DEFAULT_SKIN_REF
      else if is_known trimmed then trimmed else DEFAULT_SKIN_REF
  end.

Definition team_base_skin_ref (stored : option string) : option string :=
  match stored with
  | None => None
  | Some stored =>
      let trimmed := trim stored in
      if MAX_SKIN_REF_LENGTH <? byte_len trimmed then None
      else match strip_prefix BASE_REF_PREFIX trimmed with
           | Some inner => if is_known_base_skin inner then Some inner else None
           | None => None
           end
  end.

(** ** Authored skins *)

Inductive Publication := Private | Published | Unpublished | Disabled.

Definition is_renderable (p : Publication) : bool :=
  match p with Disabled => false | _ => true end.

Inductive SkinKind := KindSnake | KindBase.
Inductive SkinNamespace := Production | Evaluation.

Record Skin := mkSkin {
  sk_skin_id : Z;
  sk_kind : SkinKind;
  sk_namespace : SkinNamespace;
  sk_creator_user_id : Z;
  sk_creator_username : option string;
  sk_name : string;
  sk_publication : Publication;
  sk_pending_revision : option Z;
  sk_price_bux : Z;
  sk_head_revision : Z;
  sk_published_revision : option Z;
  sk_head_content_ref : string;
  sk_published_content_ref : option string;
  sk_created_at_ms : Z;
  sk_updated_at_ms : Z;
  sk_published_at_ms : option Z;
  sk_owner_count : Z;
  sk_wearer_count : Z
}.

Record SkinRevision := mkRevision {
  rv_skin_id : Z;
  rv_revision : Z;
  rv_content_ref : string;
  rv_document : string;
  rv_texture_refs : list string;
  rv_validated_schema : Z;
  rv_exposed_at_ms : option Z;
  rv_review_approved : bool;
  rv_review_rejected : bool;
  rv_contains_text : bool;
  rv_created_at_ms : Z
}.

Definition SKIN_ID_PREFIX : string := "skin:".

(** [str::parse::<i32>]: an optional sign, then digits. *)
Definition parse_i32 (s : string) : option Z :=
  match s with
  | String c (String _ _ as s') =>
      if bool_decide (c = "-"%char) then Z.opp <$> parse_digits (2 ^ 31) 0 s'
      else parse_uint (2 ^ 31 - 1) s
  | _ => parse_uint (2 ^ 31 - 1) s
  end.

Definition equipped_skin_id (value : string) : option Z :=
  match strip_prefix SKIN_ID_PREFIX value with
  | Some rest => parse_i32 rest
  | None => None
  end.

Class SkinDb := {
  get_skin : Z -> Result (option Skin);
  get_skin_revision : Z -> Z -> Result (option SkinRevision)
}.

Definition match_visible_revision (desired : SkinRevision) (fallback : option SkinRevision)
  : option SkinRevision :=
  if negb (rv_contains_text desired) || rv_review_approved desired then Some desired
  else match fallback with
       | Some r => if negb (rv_contains_text r) || rv_review_approved r then Some r else None
       | None => None
       end.

(** The failure of a lookup is [None] too. *)
Definition found {A} (r : Result (option A)) : option A :=
  match r with Ok o => o | _ => None end.

Definition resolve_authored_skin {DB : SkinDb} (skin_id user_id : Z) : option string :=
  match found (get_skin skin_id) with
  | None => None
  | Some skin =>
      if negb (is_renderable (sk_publication skin)) then None
      else
        desired_revision ← (if sk_creator_user_id skin =? wrap_i32 user_id
                            then Some (sk_head_revision skin) else sk_published_revision skin);
        desired ← found (get_skin_revision skin_id desired_revision);
        published_fallback ←
          (if rv_contains_text desired && negb (rv_review_approved desired) then
             published ← sk_published_revision skin;
             revision ← found (get_skin_revision skin_id published);
             Some (Some revision)
           else Some None);
        selected ← match_visible_revision desired published_fallback;
        Some (rv_content_ref selected)
  end.

Definition snapshot_skin_reference (requested authored : option string) : string :=
  match authored with Some r => r | None => resolve_skin_ref requested end.

(** What [apply_player_skin] puts in the match. *)
Definition player_skin_reference {DB : SkinDb} (user_id : Z) (requested : option string) : string :=
  let authored :=
    match requested with
    | Some value =>
        match equipped_skin_id value with
        | Some skin_id => resolve_authored_skin skin_id user_id
        | None => None
        end
    | None => None
    end in
  snapshot_skin_reference requested authored.

(** ** The base of a team *)

Record BaseClaim := mkClaim {
  bc_user_id : Z;
  bc_is_lobby_leader : bool;
  bc_base_skin_ref : option string
}.

(** The order of [sort_by_key(|claim| (!claim.is_lobby_leader, claim.user_id))]. *)
Definition claim_le (c d : BaseClaim) : Prop :=
  (bc_is_lobby_leader c = true /\ bc_is_lobby_leader d = false)
  \/ (bc_is_lobby_leader c = bc_is_lobby_leader d /\ bc_user_id c <= bc_user_id d).
#[global] Instance claim_le_dec c d : Decision (claim_le c d).
Proof. unfold claim_le. apply _. Defined.

Fixpoint find_map {A B} (f : A -> option B) (l : list A) : option B :=
  match l with
  | [] => None
  | x :: l' => match f x with Some y => Some y | None => find_map f l' end
  end.

Definition resolve_team_base (claims : list BaseClaim) : option string :=
  find_map bc_base_skin_ref (merge_sort claim_le claims).

(** ** What opponents can be shown *)

Lemma match_visible_ok desired fallback r :
  match_visible_revision desired fallback = Some r ->
  rv_contains_text r = false \/ rv_review_approved r = true.
Proof.
  unfold match_visible_revision. intros E.
  assert (V : negb (rv_contains_text r) || rv_review_approved r = true)
    by (destruct (negb _ || _) eqn:V; [congruence|]; destruct fallback as [f|]; [|done];
        destruct (negb (rv_contains_text f) || _) eqn:V'; congruence).
  apply orb_true_iff in V as [V|V]; [left; by apply negb_true_iff|by right].
Qed.

Lemma resolve_authored_inv {DB : SkinDb} skin_id user_id ref :
  resolve_authored_skin skin_id user_id = Some ref ->
  exists skin n r,
    get_skin skin_id = Ok (Some skin) /\ sk_publication skin <> Disabled
    /\ get_skin_revision skin_id n = Ok (Some r) /\ rv_content_ref r = ref
    /\ (sk_published_revision skin = Some n
        \/ (sk_creator_user_id skin = wrap_i32 user_id /\ sk_head_revision skin = n))
    /\ (rv_contains_text r = false \/ rv_review_approved r = true).
Proof.
  unfold resolve_authored_skin. destruct (get_skin skin_id) as [[skin|]|e|e]; try done. cbn [found].
  destruct (is_renderable (sk_publication skin)) eqn:Er; [|done]. cbn [negb].
  assert (Hp : sk_publication skin <> Disabled) by (intros E; by rewrite E in Er).
  intros (n & En & E)%bind_Some. apply bind_Some in E as (d & Ed & E).
  apply bind_Some in E as (fb & Ef & E). apply bind_Some in E as (r & Em & [= <-]).
  pose proof (match_visible_ok _ _ _ Em) as Hv.
  assert (Hn : sk_published_revision skin = Some n
               \/ (sk_creator_user_id skin = wrap_i32 user_id /\ sk_head_revision skin = n)).
  { destruct (Z.eqb_spec (sk_creator_user_id skin) (wrap_i32 user_id)); simplify_eq; auto. }
  assert (Hd : get_skin_revision skin_id n = Ok (Some d)).
  { unfold found in Ed. by destruct (get_skin_revision skin_id n); simplify_eq. }
  unfold match_visible_revision in Em.
  destruct (negb (rv_contains_text d) || rv_review_approved d); [simplify_eq; by eauto 12|].
  destruct fb as [f|]; [|done]. destruct (negb (rv_contains_text f) || _); simplify_eq.
  destruct (rv_contains_text d && _); [|done].
  apply bind_Some in Ef as (m & Epm & Ef). apply bind_Some in Ef as (x & Ex & [= <-]).
  exists skin, m, x. unfold found in Ex. destruct (get_skin_revision skin_id m); simplify_eq.
  by eauto 12.
Qed.
