(* ===== verification/Matchmaking.v ===== *)
(** * Matchmaking: server/src/matchmaking.rs

    The choice of the lobbies that form a game, the teams inside them, and the
    match built from them. A lobby waits in a queue for a game type; one pass
    takes the queue of a pool, picks a lobby, keeps those compatible with it,
    searches a combination and commits it, until nothing more fits.

    A [usize] that counts members or indexes a slice is a [nat]. Walking a
    [HashSet] is in an order of its own: the class [HashOrder]. The random
    picks, the clock and the answers of the commit are arguments; logs and the
    refresh of the lobby view are left out. *)

From Stdlib Require Import ZArith SpecFloat.
From stdpp Require Import prelude strings countable list gmap sorting.
From S2P Require Import Prelude RustFloat Util Snake Arena CommandQueue GameState GameSetup.
From S2P Require Import Validate Actor SkinCatalog.
Open Scope Z_scope.

Class HashOrder := {
  hash_order : list nat -> list nat;
  hash_order_perm : forall l, hash_order l ≡ₚ l
}.

(** ** Lobbies *)

Inductive MatchmakingPool := Public | Stress.
#[global] Instance MatchmakingPool_eq_dec : EqDecision MatchmakingPool.
Proof. solve_decision. Defined.

(** The fields of a member that matchmaking reads. *)
Record LobbyMember := mkMember {
  lm_user_id : Z;
  lm_username : string
}.

Record QueuedLobby := mkLobby {
  ql_lobby_code : string;
  ql_queue_token : string;
  ql_members : list LobbyMember;
  ql_avg_mmr : Z;
  ql_game_types : list GameType;
  ql_queue_mode : QueueMode;
  ql_queued_at : Z;
  ql_requesting_user_id : Z;
  ql_matchmaking_pool : MatchmakingPool
}.

Definition lobby_size (l : QueuedLobby) : nat := length (ql_members l).

Record TeamAssignment := mkTeam {
  ta_lobby_code : string;
  ta_member_indices : list nat;
  ta_team_id : TeamId
}.

Record MatchmakingCombination := mkCombination {
  mc_lobbies : list QueuedLobby;
  mc_team_assignments : list TeamAssignment;
  mc_spectators : list (string * list nat);
  mc_total_players : nat;
  mc_avg_mmr : Z
}.

Definition no_teams (c : MatchmakingCombination) : bool :=
  match mc_team_assignments c with [] => true | _ => false end.

Definition is_valid (c : MatchmakingCombination) (g : GameType) : bool :=
  match g with
  | Solo => (mc_total_players c =? 1)%nat && no_teams c
  | TeamMatch per_team =>
      let total_needed := Z.to_nat (wrap_u8 (per_team * 2)) in
      if negb (mc_total_players c =? total_needed)%nat then false
      else if no_teams c then false
      else (sum_list (length ∘ ta_member_indices <$> mc_team_assignments c) =? total_needed)%nat
  | FreeForAll max_players =>
      (2 <=? mc_total_players c)%nat && (mc_total_players c <=? Z.to_nat max_players)%nat
      && no_teams c
  | Custom _ => false
  end.

(** [iter().position(|m| m.user_id == lobby.requesting_user_id)]. *)
Definition requesting_index (l : QueuedLobby) : option nat :=
  fst <$> list_find (fun m => lm_user_id m = ql_requesting_user_id l) (ql_members l).

Definition option_list {A} (o : option A) : list A :=
  match o with Some x => [x] | None => [] end.

(** The loop over the members of a lobby that stops when the slots are taken and
    skips the host, who is already seated. *)
Fixpoint take_members (indices : list nat) (host : option nat) (slots : nat) : list nat :=
  match indices, slots with
  | [], _ | _, O => []
  | i :: rest, S slots' =>
      if bool_decide (Some i = host) then take_members rest host slots
      else i :: take_members rest host slots'
  end.

Definition seat_members (l : QueuedLobby) (first : list nat) (needed : nat) : list nat :=
  first ++ take_members (seq 0 (lobby_size l)) (requesting_index l) (needed - length first).

Definition team_players (l : QueuedLobby) (needed : nat) : list nat :=
  seat_members l (option_list (requesting_index l)) needed.

(** [(0..len).filter(|idx| !players.contains(idx))]. *)
Definition leftover (l : QueuedLobby) (players : list nat) : list nat :=
  filter (fun i => i ∉ players) (seq 0 (lobby_size l)).

(** ** Solo *)

Definition find_first (P : QueuedLobby -> bool) (lobbies : list QueuedLobby) : option QueuedLobby :=
  snd <$> list_find (fun l => P l = true) lobbies.

Definition find_solo_combination (lobbies : list QueuedLobby) : option MatchmakingCombination :=
  match find_first (fun l => lobby_size l =? 1)%nat lobbies with
  | Some l => Some (mkCombination [l] [] [] 1 (ql_avg_mmr l))
  | None =>
      match find_first (fun l => negb (lobby_size l =? 0)%nat) lobbies with
      | Some l =>
          let requesting := default 0%nat (requesting_index l) in
          let spectators := filter (fun i => i <> requesting) (seq 0 (lobby_size l)) in
          Some (mkCombination [l] []
                  (match spectators with
                   | [] => []
                   | _ => [(ql_lobby_code l, spectators)]
                   end) 1 (ql_avg_mmr l))
      | None => None
      end
  end.

(** ** Teams *)

(** [(lobby_idx, member_indices)]. *)
Abbreviation Team := (list (nat * list nat)) (only parsing).

Notation "a <|> b" := (match a with Some r => Some r | None => b end)
  (at level 60, right associativity).

(** The lobbies from [lobby_idx] on; the vectors a failed branch pushed to are
    popped again, so the teams are arguments. *)
Fixpoint backtrack_assign (rest : list QueuedLobby) (lobby_idx : nat) (team_a team_b : Team)
    (remaining_a remaining_b : nat) : option (Team * Team) :=
  if (remaining_a =? 0)%nat && (remaining_b =? 0)%nat then Some (team_a, team_b)
  else
    match rest with
    | [] => None
    | lobby :: rest' =>
        let n := lobby_size lobby in
        let next := backtrack_assign rest' (S lobby_idx) in
        next team_a team_b remaining_a remaining_b
        <|> (if (n <=? remaining_a)%nat
             then next (team_a ++ [(lobby_idx, seq 0 n)]) team_b (remaining_a - n)%nat remaining_b
             else None)
        <|> (if (n <=? remaining_b)%nat
             then next team_a (team_b ++ [(lobby_idx, seq 0 n)]) remaining_a (remaining_b - n)%nat
             else None)
        <|> find_map (fun split_point =>
               if (split_point <=? remaining_a)%nat && (n - split_point <=? remaining_b)%nat
               then next (team_a ++ [(lobby_idx, seq 0 split_point)])
                         (team_b ++ [(lobby_idx, seq split_point (n - split_point))])
                         (remaining_a - split_point)%nat (remaining_b - (n - split_point))%nat
               else None) (seq 1 (n - 1))
    end.

(** [lobbies[idx]]. *)
Definition lobby_at (lobbies : list QueuedLobby) (i : nat) : Result QueuedLobby :=
  match lobbies !! i with Some l => Ok l | None => Panic "index out of bounds" end.

Fixpoint assignments (lobbies : list QueuedLobby) (team : Team) (team_id : TeamId)
  : Result (list TeamAssignment) :=
  match team with
  | [] => Ok []
  | (i, indices) :: team' =>
      l ← lobby_at lobbies i;
      rest ← assignments lobbies team' team_id;
      Ok (mkTeam (ql_lobby_code l) indices team_id :: rest)
  end.

Fixpoint lobbies_at (lobbies : list QueuedLobby) (indices : list nat)
  : Result (list QueuedLobby) :=
  match indices with
  | [] => Ok []
  | i :: rest => l ← lobby_at lobbies i; ls ← lobbies_at lobbies rest; Ok (l :: ls)
  end.

(** The players of the assignments and their summed rating; [None] when a lobby
    is not found by its code. *)
Fixpoint weigh (lobbies : list QueuedLobby) (l : list TeamAssignment) (players : nat) (mmr : Z)
  : option (nat * Z) :=
  match l with
  | [] => Some (players, mmr)
  | a :: l' =>
      match find_first (fun l => bool_decide (ql_lobby_code l = ta_lobby_code a)) lobbies with
      | Some lobby =>
          let n := length (ta_member_indices a) in
          weigh lobbies l' (players + n)
            (wrap_i32 (mmr + wrap_i32 (ql_avg_mmr lobby * Z.of_nat n)))
      | None => None
      end
  end.

Definition average (total : Z) (players : nat) : Z :=
  if (0 <? players)%nat then Z.quot total (Z.of_nat players) else 0.

Definition build_combination {HO : HashOrder} (lobbies : list QueuedLobby) (team_a team_b : Team)
    (spectators : list (string * list nat)) : Result (option MatchmakingCombination) :=
  used_lobbies ← lobbies_at lobbies (hash_order (remove_dups (team_a.*1 ++ team_b.*1)));
  a ← assignments lobbies team_a 0;
  b ← assignments lobbies team_b 1;
  Ok match weigh lobbies (a ++ b) 0 0 with
     | Some (players, mmr) =>
         Some (mkCombination used_lobbies (a ++ b) spectators players (average mmr players))
     | None => None
     end.

Definition find_exact_team_match {HO : HashOrder} (lobbies : list QueuedLobby) (per_team : nat)
  : Result (option MatchmakingCombination) :=
  match backtrack_assign lobbies 0 [] [] per_team per_team with
  | Some (team_a, team_b) => build_combination lobbies team_a team_b []
  | None => Ok None
  end.

(** Two teams out of one lobby. *)
Definition one_lobby_teams (l : QueuedLobby) (team_a team_b : list nat)
    (spectators : list (string * list nat)) (total : nat) : MatchmakingCombination :=
  mkCombination [l] [mkTeam (ql_lobby_code l) team_a 0; mkTeam (ql_lobby_code l) team_b 1]
    spectators total (ql_avg_mmr l).

Definition find_single_lobby_split (lobbies : list QueuedLobby) (per_team total_needed : nat)
  : option MatchmakingCombination :=
  find_map (fun l =>
    if negb (lobby_size l =? total_needed)%nat then None
    else
      let players := team_players l total_needed in
      if (length players <? total_needed)%nat then None
      else
        let team_a := take per_team players in
        let team_b := take per_team (drop per_team players) in
        if (length team_a <? per_team)%nat || (length team_b <? per_team)%nat then None
        else Some (one_lobby_teams l team_a team_b [] total_needed)) lobbies.

Definition find_team_match_with_spectators (lobbies : list QueuedLobby)
    (per_team total_needed : nat) : option MatchmakingCombination :=
  find_map (fun l =>
    if (total_needed <=? lobby_size l)%nat then
      let players := team_players l total_needed in
      Some (one_lobby_teams l (take per_team players) (drop per_team players)
              [(ql_lobby_code l, leftover l players)] total_needed)
    else None) lobbies.

Definition find_team_combination {HO : HashOrder} (lobbies : list QueuedLobby) (per_team : nat)
  : Result (option MatchmakingCombination) :=
  let total_needed := (per_team * 2)%nat in
  exact ← find_exact_team_match lobbies per_team;
  Ok (exact
      <|> find_single_lobby_split lobbies per_team total_needed
      <|> find_team_match_with_spectators lobbies per_team total_needed).

(** ** Free for all *)

Definition FFA_MAX_RECURSION_DEPTH : nat := 8.

Definition seconds (ms : Z) : spec_float := f64_div (f64_of_Z ms) (f64_of_Z 1000).

Definition passes_wait_time_rules (player_count : nat) (longest_wait_ms : Z) (max_players : nat)
  : bool :=
  if (player_count <? 2)%nat then false
  else if (max_players <=? player_count)%nat then true
  else match player_count with
       | 2%nat => SFltb (f64_of_Z 30) (seconds longest_wait_ms)
       | 3%nat => SFltb (f64_of_Z 15) (seconds longest_wait_ms)
       | _ => true
       end.

Record FfaTally := mkTally {
  ft_lobbies : list QueuedLobby;
  ft_spectators : list (string * list nat);
  ft_remaining : nat;
  ft_players : nat;
  ft_mmr : Z
}.

Definition seat_ffa_lobby (t : FfaTally) (l : QueuedLobby) : FfaTally :=
  let first := if (0 <? ft_remaining t)%nat then option_list (requesting_index l) else [] in
  let playing := seat_members l first (ft_remaining t) in
  let n := length playing in
  let spectators := leftover l playing in
  mkTally (ft_lobbies t ++ [l])
    (match spectators with
     | [] => ft_spectators t
     | _ => ft_spectators t ++ [(ql_lobby_code l, spectators)]
     end)
    (ft_remaining t - n) (ft_players t + n) (wrap_i32 (ft_mmr t + ql_avg_mmr l * Z.of_nat n)).

Definition build_ffa_combination_from_selection (lobbies : list QueuedLobby)
    (selection : list nat) (max_players : nat) : Result MatchmakingCombination :=
  selected ← lobbies_at lobbies selection;
  let t := foldl seat_ffa_lobby (mkTally [] [] max_players 0 0) selected in
  Ok (mkCombination (ft_lobbies t) [] (ft_spectators t) (ft_players t)
        (average (ft_mmr t) (ft_players t))).

Fixpoint backtrack_ffa (lobbies : list QueuedLobby) (max_players : nat) (now_ms : Z)
    (rest : list QueuedLobby) (idx depth max_depth : nat) (selection : list nat)
    (total_members : nat) (longest_wait_ms : Z) : Result (option MatchmakingCombination) :=
  if match selection with [] => false | _ => true end
     && passes_wait_time_rules (total_members `min` max_players) longest_wait_ms max_players
  then c ← build_ffa_combination_from_selection lobbies selection max_players; Ok (Some c)
  else if (max_depth <=? depth)%nat then Ok None
  else
    match rest with
    | [] => Ok None
    | lobby :: rest' =>
        included ← backtrack_ffa lobbies max_players now_ms rest' (S idx) (S depth) max_depth
                     (selection ++ [idx]) (total_members + lobby_size lobby)
                     (Z.max longest_wait_ms (wrap_i64 (now_ms - ql_queued_at lobby)));
        match included with
        | Some c => Ok (Some c)
        | None => backtrack_ffa lobbies max_players now_ms rest' (S idx) (S depth) max_depth
                    selection total_members longest_wait_ms
        end
    end.

Definition find_ffa_combination (lobbies : list QueuedLobby) (max_players : nat) (now_ms : Z)
  : Result (option MatchmakingCombination) :=
  let max_depth := (length lobbies `min` FFA_MAX_RECURSION_DEPTH)%nat in
  let backtrack := backtrack_ffa lobbies max_players now_ms lobbies 0 0 max_depth [] 0 0 in
  match list_find (fun l => lobby_size l = max_players) lobbies with
  | Some (i, _) => c ← build_ffa_combination_from_selection lobbies [i] max_players; Ok (Some c)
  | None =>
      match lobbies with
      | [lobby] =>
          if passes_wait_time_rules (lobby_size lobby `min` max_players)
               (wrap_i64 (now_ms - ql_queued_at lobby)) max_players
          then c ← build_ffa_combination_from_selection lobbies [0%nat] max_players; Ok (Some c)
          else backtrack
      | _ => backtrack
      end
  end.

Definition find_best_lobby_combination {HO : HashOrder} (lobbies : list QueuedLobby)
    (g : GameType) (now_ms : Z) : Result (option MatchmakingCombination) :=
  match lobbies with
  | [] => Ok None
  | _ =>
      match g with
      | Solo => Ok (find_solo_combination lobbies)
      | TeamMatch per_team => find_team_combination lobbies (Z.to_nat per_team)
      | FreeForAll max_players => find_ffa_combination lobbies (Z.to_nat max_players) now_ms
      | Custom _ => Ok None
      end
  end.

(** ** Compatibility *)

Definition f64_sub (x y : spec_float) : spec_float := SFsub 53 1024 x y.

Definition calculate_max_mmr_diff (wait_seconds : spec_float) : spec_float :=
  if SFltb wait_seconds (f64_of_Z 10)
  then f64_add (f64_of_Z 100) (f64_mul (f64_div wait_seconds (f64_of_Z 10)) (f64_of_Z 200))
  else if SFltb wait_seconds (f64_of_Z 30)
  then f64_add (f64_of_Z 300)
         (f64_mul (f64_div (f64_sub wait_seconds (f64_of_Z 10)) (f64_of_Z 20)) (f64_of_Z 600))
  else f64_of_Z 9999.

Definition are_lobbies_compatible (lobby1 lobby2 : QueuedLobby) (now_ms : Z) : bool :=
  if negb (bool_decide (ql_matchmaking_pool lobby1 = ql_matchmaking_pool lobby2)) then false
  else
    let max_diff1 := calculate_max_mmr_diff (seconds (wrap_i64 (now_ms - ql_queued_at lobby1))) in
    let max_diff2 := calculate_max_mmr_diff (seconds (wrap_i64 (now_ms - ql_queued_at lobby2))) in
    let mmr_diff :=
      f64_of_Z (wrap_i32 (Z.abs (wrap_i32 (ql_avg_mmr lobby1 - ql_avg_mmr lobby2)))) in
    SFleb mmr_diff max_diff1 && SFleb mmr_diff max_diff2.

Definition filter_compatible_lobbies (reference : QueuedLobby) (lobbies : list QueuedLobby)
    (now_ms : Z) : list QueuedLobby :=
  filter (fun l => bool_decide (ql_lobby_code l = ql_lobby_code reference)
                   || are_lobbies_compatible reference l now_ms = true) lobbies.
