(* ===== verification/MatchCreation.v ===== *)
(** * From a combination of lobbies to a match: server/src/matchmaking.rs

    The state of a new match with its players, spectators, skins and bases
    ([prepare_game_from_lobbies]), and the pass that creates as many games as it
    can ([create_lobby_matches]); with them the inactivity policy of
    server/src/player_idle.rs. The database answers through [PlayerDb] and
    [SkinDb]; the clock is read where the source reads it. *)

From Stdlib Require Import ZArith.
From stdpp Require Import prelude strings countable list gmap sorting.
From S2P Require Import Prelude RustFloat Util Snake Arena CommandQueue GameState GameSetup.
From S2P Require Import Validate Engine StreamId CommandLedger Journal Actor SkinCatalog Matchmaking.
Open Scope Z_scope.

(** ** Inactivity policy *)

Record PlayerIdleConfig := mkIdleConfig {
  ic_idle_grace_ms : Z;
  ic_kick_countdown_ms : Z
}.

Definition DEFAULT_PLAYER_IDLE_GRACE_MS : Z := 10000.
Definition DEFAULT_PLAYER_IDLE_COUNTDOWN_MS : Z := 10000.

Definition PlayerIdleConfig_default : PlayerIdleConfig :=
  mkIdleConfig DEFAULT_PLAYER_IDLE_GRACE_MS DEFAULT_PLAYER_IDLE_COUNTDOWN_MS.

Definition PlayerIdleConfig_new (idle_grace_ms kick_countdown_ms : Z) : Result PlayerIdleConfig :=
  ensure (negb (idle_grace_ms =? 0)) "player idle grace period must be positive" ;;
  ensure (negb (kick_countdown_ms =? 0)) "player idle kick countdown must be positive" ;;
  ensure (idle_grace_ms + kick_countdown_ms <=? u32_max)
    "player idle grace period plus kick countdown exceeds u32 milliseconds" ;;
  Ok (mkIdleConfig idle_grace_ms kick_countdown_ms).

Definition total_timeout_ms (c : PlayerIdleConfig) : Z :=
  wrap_u32 (ic_idle_grace_ms c + ic_kick_countdown_ms c).

Definition parse_idle_ms (value : option string) (default : Z) : Result Z :=
  match value with
  | Some value => context "must be a positive number of milliseconds"
                    (parse_uint u32_max (trim value))
  | None => Ok default
  end.

Definition resolve_player_idle_config (idle_grace_ms kick_countdown_ms : option string)
  : Result PlayerIdleConfig :=
  grace ← parse_idle_ms idle_grace_ms DEFAULT_PLAYER_IDLE_GRACE_MS;
  countdown ← parse_idle_ms kick_countdown_ms DEFAULT_PLAYER_IDLE_COUNTDOWN_MS;
  PlayerIdleConfig_new grace countdown.

(** ** The state of a match *)

Definition mode_config (mode balance : BoostConfig) : BoostConfig :=
  {| mode with bc_speed_milli := bc_speed_milli balance;
               bc_capacity_ms := bc_capacity_ms balance;
               bc_packet_charge_ms := bc_packet_charge_ms balance;
               bc_pad_respawn_ms := bc_pad_respawn_ms balance;
               bc_rules_version := bc_rules_version balance |}.

Definition build_match_game_state (width height : Z) (g : GameType) (q : QueueMode)
    (rng_seed : option Z) (start_ms : Z) (boost_config : BoostConfig)
    (idle_config : PlayerIdleConfig) : Result GameState :=
  st ← match boost_config_for g width height with
       | Some mode => GameState_new_with_boost_config width height g q rng_seed start_ms
                        (mode_config mode boost_config)
       | None => GameState_new width height g q rng_seed start_ms
       end;
  let pr := gs_properties st in
  let st := with_properties
              {| pr with player_idle_timeout_ms := total_timeout_ms idle_config;
                         player_idle_warning_ms := ic_kick_countdown_ms idle_config |} st in
  validate_boost_invariants st ;;
  Ok st.

(** ** Players and spectators *)

Record QueuedPlayer := mkQueuedPlayer {
  qp_user_id : Z;
  qp_mmr : Z;
  qp_username : string
}.

Inductive MatchStatus := Waiting | MatchActive | Finished.

Record ActiveMatch := mkActiveMatch {
  am_players : list QueuedPlayer;
  am_spectators : list QueuedPlayer;
  am_lobby_codes : list string;
  am_game_type : GameType;
  am_status : MatchStatus;
  am_partition_id : Z;
  am_created_at : Z;
  am_matchmaking_pool : MatchmakingPool
}.

Record PreparedMatch := mkPrepared {
  pm_game_id : Z;
  pm_partition_id : Z;
  pm_game_state : GameState;
  pm_match_info : ActiveMatch
}.

Record PlayerEquipment := mkEquipment {
  selected_skin : option string;
  selected_base : option string
}.

Class PlayerDb := { get_user_by_id : Z -> Result (option PlayerEquipment) }.

Definition read_player_equipment {PD : PlayerDb} (user_id : Z) : PlayerEquipment :=
  default (mkEquipment None None) (found (get_user_by_id (wrap_i32 user_id))).

(** The match while its roster is filled in. *)
Record Roster := mkRoster {
  ro_state : GameState;
  ro_players : list QueuedPlayer;
  ro_spectators : list QueuedPlayer;
  ro_claims : gmap Z (list BaseClaim)
}.

Section prepare.
Context {FL : F32Libm} {HO : HashOrder} {DB : SkinDb} {PD : PlayerDb}.
Variable c : MatchmakingCombination.

Definition queued (m : LobbyMember) : QueuedPlayer :=
  mkQueuedPlayer (lm_user_id m) (mc_avg_mmr c) (lm_username m).

Definition spectate (ro : Roster) (m : LobbyMember) : Roster :=
  mkRoster (add_spectator (ro_state ro) (lm_user_id m) (Some (lm_username m)))
    (ro_players ro) (ro_spectators ro ++ [queued m]) (ro_claims ro).

(** A player joins, with the skin of the account; on a team the base of the
    account is a claim on the team's endzone. *)
Definition seat_player (ro : Roster) (l : QueuedLobby) (m : LobbyMember) (team : option TeamId)
  : Result Roster :=
  match add_player_with_team (ro_state ro) (lm_user_id m) (Some (lm_username m)) team with
  | (Ok _, st) =>
      let equipment := read_player_equipment (lm_user_id m) in
      let claims :=
        match team with
        | Some t =>
            let claim := mkClaim (lm_user_id m)
                           (lm_user_id m =? ql_requesting_user_id l)
                           (team_base_skin_ref (selected_base equipment)) in
            <[t := default [] (ro_claims ro !! t) ++ [claim]]> (ro_claims ro)
        | None => ro_claims ro
        end in
      let st := set_player_skin st (lm_user_id m)
                  (Some (player_skin_reference (lm_user_id m) (selected_skin equipment))) in
      Ok (mkRoster st (ro_players ro ++ [queued m]) (ro_spectators ro) claims)
  | (r, _) => recast r
  end.

Fixpoint seat_indices (ro : Roster) (l : QueuedLobby) (indices : list nat) (team : TeamId)
  : Result Roster :=
  match indices with
  | [] => Ok ro
  | i :: rest =>
      ro ← match ql_members l !! i with
           | Some m => seat_player ro l m (Some team)
           | None => Ok ro
           end;
      seat_indices ro l rest team
  end.

Fixpoint seat_teams (ro : Roster) (l : list TeamAssignment) : Result Roster :=
  match l with
  | [] => Ok ro
  | a :: rest =>
      lobby ← context "Lobby not found in combination"
                (find_first (fun l => bool_decide (ql_lobby_code l = ta_lobby_code a))
                   (mc_lobbies c));
      ro ← seat_indices ro lobby (ta_member_indices a) (ta_team_id a);
      seat_teams ro rest
  end.

(** The map from a lobby to the set of its spectators; a later entry replaces an
    earlier one. *)
Definition spectator_set (code : string) : option (list nat) :=
  match filter (fun e => e.1 = code) (rev (mc_spectators c)) with
  | (_, indices) :: _ => Some (remove_dups indices)
  | [] => None
  end.

Definition team_spectators (ro : Roster) (l : QueuedLobby) : Roster :=
  match spectator_set (ql_lobby_code l) with
  | Some indices => foldl spectate ro (omap (fun i => ql_members l !! i) (hash_order indices))
  | None => ro
  end.

Fixpoint seat_lobby (ro : Roster) (l : QueuedLobby) (members : list LobbyMember) (idx : nat)
  : Result Roster :=
  match members with
  | [] => Ok ro
  | m :: rest =>
      ro ← (if bool_decide (idx ∈ default [] (spectator_set (ql_lobby_code l)))
            then Ok (spectate ro m) else seat_player ro l m None);
      seat_lobby ro l rest (S idx)
  end.

Fixpoint seat_lobbies (ro : Roster) (lobbies : list QueuedLobby) : Result Roster :=
  match lobbies with
  | [] => Ok ro
  | l :: rest => ro ← seat_lobby ro l (ql_members l) 0; seat_lobbies ro rest
  end.

(** Each team's endzone, once its members are known. *)
Definition dress_bases (claims : gmap Z (list BaseClaim)) (st : GameState) : GameState :=
  map_fold (fun team cs st => set_team_base st team (resolve_team_base cs)) st claims.

Definition fill_roster (st : GameState) : Result Roster :=
  let ro := mkRoster st [] [] ∅ in
  if no_teams c then seat_lobbies ro (mc_lobbies c)
  else
    ro ← seat_teams ro (mc_team_assignments c);
    let st := dress_bases (ro_claims ro) (ro_state ro) in
    Ok (foldl team_spectators (mkRoster st (ro_players ro) (ro_spectators ro) (ro_claims ro))
          (mc_lobbies c)).

(** The configuration of the manager. *)
Record ManagerConfig := mkManagerConfig {
  mg_boost_config : BoostConfig;
  mg_player_idle_config : PlayerIdleConfig;
  mg_match_ready_window_ms : Z
}.

(** What one preparation reads: the durable id and four readings of the clock. *)
Record PrepareInput := mkPrepareInput {
  pi_durable_id : Result Z;
  pi_now_start : Z;
  pi_now_seed : Z;
  pi_now_ready : Z;
  pi_now_created : Z
}.

Definition generate_game_id (durable : Result Z) : Result Z :=
  id ← durable;
  ensure ((0 <=? id) && (id <=? u32_max)) "Durable game ID was outside the u32 range" ;;
  Ok id.

Definition arena_size (g : GameType) : Z * Z :=
  match g with TeamMatch _ => (60, 40) | _ => (40, 40) end.

(** [sort] and [dedup]. *)
Definition code_le (a b : string) : Prop := String.leb a b = true.
#[local] Instance code_le_dec a b : Decision (code_le a b).
Proof. unfold code_le. apply _. Defined.

Definition lobby_codes : list string :=
  remove_dups (merge_sort code_le (ql_lobby_code <$> mc_lobbies c)).

Definition prepare_game_from_lobbies (cfg : ManagerConfig) (i : PrepareInput) (g : GameType)
    (q : QueueMode) : Result PreparedMatch :=
  pool ← context "Cannot prepare a match without lobbies"
           (ql_matchmaking_pool <$> hd_error (mc_lobbies c));
  ensure (forallb (fun l => bool_decide (ql_matchmaking_pool l = pool)) (mc_lobbies c))
    "Cannot prepare a match from mixed matchmaking pools" ;;
  game_id ← generate_game_id (pi_durable_id i);
  let partition_id := game_id mod PARTITION_COUNT in
  let start_ms := pi_now_start i + GAME_START_COUNTDOWN_MS in
  let '(width, height) := arena_size g in
  let rng_seed := Some (Z.lxor (wrap_u64 (pi_now_seed i)) game_id) in
  st ← build_match_game_state width height g q rng_seed start_ms (mg_boost_config cfg)
         (mg_player_idle_config cfg);
  let stress := bool_decide (pool = Stress) in
  ro ← fill_roster {| st with gs_is_stress_test := stress |};
  let st := spawn_initial_food (ro_state ro) in
  st ← (if gs_is_stress_test st then Ok st
        else
          deadline ← context "match readiness deadline overflowed i64"
                       (let d := pi_now_ready i + mg_match_ready_window_ms cfg in
                        if (- 2 ^ 63 <=? d) && (d <=? 2 ^ 63 - 1) then Some d else None);
          Ok (arm_readiness_gate st deadline));
  Ok (mkPrepared game_id partition_id st
        (mkActiveMatch (ro_players ro) (ro_spectators ro) lobby_codes g Waiting
           partition_id (pi_now_created i) pool)).
End prepare.

(** ** A pass over a queue *)

Inductive MatchCommitOutcome :=
| Committed (outbox_id : string)
| AlreadyCommitted
| CommitConflict (reason : string).

Inductive MatchCreationOutcome :=
| MC_Committed (game_id : Z)
| MC_Conflict (game_id : Z) (reason : string).

Definition create_game_from_lobbies (prepared : Result PreparedMatch)
    (commit : PreparedMatch -> Result MatchCommitOutcome) : Result MatchCreationOutcome :=
  p ← prepared;
  outcome ← commit p;
  Ok match outcome with
     | Committed _ | AlreadyCommitted => MC_Committed (pm_game_id p)
     | CommitConflict reason => MC_Conflict (pm_game_id p) reason
     end.

(** What one round of the loop reads. *)
Record RoundInput := mkRoundInput {
  rd_longest_first : bool;
  rd_random : nat;
  rd_now_ms : Z;
  rd_create : MatchmakingCombination -> Result MatchCreationOutcome
}.

Definition priority_lobby (i : RoundInput) (available : list QueuedLobby) : option QueuedLobby :=
  if rd_longest_first i then available !! 0%nat
  else available !! (rd_random i mod length available)%nat.

Definition without_lobby (l : QueuedLobby) (available : list QueuedLobby) : list QueuedLobby :=
  filter (fun x => ql_lobby_code x <> ql_lobby_code l) available.

Definition without_identity (l : QueuedLobby) (available : list QueuedLobby)
  : list QueuedLobby :=
  filter (fun x => ql_lobby_code x <> ql_lobby_code l \/ ql_queue_token x <> ql_queue_token l)
    available.

Inductive RoundEnd :=
| Break
| Continue (available : list QueuedLobby) (created : option MatchmakingCombination).

Definition match_round {HO : HashOrder} (g : GameType) (now : Z) (i : RoundInput)
    (available : list QueuedLobby) : Result RoundEnd :=
  match priority_lobby i available with
  | None => Panic "index out of bounds"
  | Some priority =>
      let compatible := filter_compatible_lobbies priority available now in
      match compatible with
      | [] => Ok Break
      | _ =>
          best ← find_best_lobby_combination compatible g (rd_now_ms i);
          match best with
          | None => Ok Break
          | Some c =>
              if negb (is_valid c g) then Ok Break
              else match rd_create i c with
                   | Ok (MC_Committed _) =>
                       Ok (Continue (foldl (fun av l => without_lobby l av) available
                                       (mc_lobbies c)) (Some c))
                   | Ok (MC_Conflict _ _) =>
                       Ok (Continue (foldl (fun av l => without_identity l av) available
                                       (mc_lobbies c)) None)
                   | Err _ => Ok Break
                   | Panic e => Panic e
                   end
          end
      end
  end.

(** The loop; the games it created are its result. *)
Fixpoint match_rounds {HO : HashOrder} (fuel : nat) (g : GameType) (now : Z)
    (inputs : nat -> RoundInput) (round : nat) (available : list QueuedLobby)
    (created : list MatchmakingCombination) : option (Result (list MatchmakingCombination)) :=
  match available with
  | [] => Some (Ok created)
  | _ =>
      match fuel with
      | O => None
      | S fuel =>
          match match_round g now (inputs round) available with
          | Ok Break => Some (Ok created)
          | Ok (Continue available made) =>
              match_rounds fuel g now inputs (S round) available (created ++ option_list made)
          | Err e => Some (Err e)
          | Panic e => Some (Panic e)
          end
      end
  end.

Definition queued_before (a b : QueuedLobby) : Prop := ql_queued_at a <= ql_queued_at b.
#[global] Instance queued_before_dec a b : Decision (queued_before a b).
Proof. unfold queued_before. apply _. Defined.

Definition create_lobby_matches {HO : HashOrder} (g : GameType) (now : Z)
    (inputs : nat -> RoundInput) (queued : Result (list QueuedLobby))
  : option (Result (list MatchmakingCombination)) :=
  match queued with
  | Ok lobbies => match_rounds (length lobbies) g now inputs 0
                    (merge_sort queued_before lobbies) []
  | r => Some (recast r)
  end.
