(* ===== verification/MatchmakingFacts.v ===== *)
(** * Facts about matchmaking

    The search for exact teams is sound and complete for the ways to place
    lobbies whole or divided; the seats taken in a lobby and the seats left over
    are the lobby; a combination accounts for every member of its lobbies. *)

From Stdlib Require Import ZArith Lia.
From stdpp Require Import prelude strings countable list gmap sorting.
From S2P Require Import Prelude RustFloat Util Snake Arena CommandQueue GameState GameSetup.
From S2P Require Import Validate Actor SkinCatalog Matchmaking.
Open Scope nat_scope.

(** ** Searches *)

Lemma find_map_Some {A B} (f : A -> option B) l y :
  find_map f l = Some y -> exists x, x ∈ l /\ f x = Some y.
Proof.
  induction l as [|x l IH]; cbn; [done|]. destruct (f x) eqn:E.
  - intros [= <-]. exists x. split; [left|done].
  - intros H. destruct (IH H) as (z & Hz & Ez). exists z. split; [by right|done].
Qed.

Lemma find_map_is_Some {A B} (f : A -> option B) l x :
  x ∈ l -> is_Some (f x) -> is_Some (find_map f l).
Proof.
  induction l as [|z l IH]; [by intros ?%not_elem_of_nil|]. cbn. intros Hx Hf.
  destruct (f z) eqn:E; [done|]. apply elem_of_cons in Hx as [->|Hx]; [|by apply IH].
  rewrite E in Hf. by destruct Hf.
Qed.

Lemma find_first_Some P lobbies l :
  find_first P lobbies = Some l -> l ∈ lobbies /\ P l = true.
Proof.
  unfold find_first. destruct (list_find _ _) as [[i x]|] eqn:E; [|done]. intros [= <-].
  apply list_find_Some in E as (Hx & HP & _). split; [|done]. by eapply list_elem_of_lookup_2.
Qed.

Lemma find_first_is_Some P lobbies l : l ∈ lobbies -> P l = true -> is_Some (find_first P lobbies).
Proof.
  intros Hl HP. unfold find_first.
  destruct (list_find_elem_of (fun l => P l = true) lobbies l Hl HP) as [[i x] ->]. by eexists.
Qed.

(** ** Placing lobbies on two teams *)

Definition players (t : list (nat * list nat)) : nat := sum_list (length <$> t.*2).

(** The ways to put each lobby on neither team, on one, or across both. *)
Inductive assigns : list QueuedLobby -> nat -> list (nat * list nat) -> list (nat * list nat) -> Prop :=
| as_nil i : assigns [] i [] []
| as_skip l rest i a b : assigns rest (S i) a b -> assigns (l :: rest) i a b
| as_a l rest i a b : assigns rest (S i) a b ->
    assigns (l :: rest) i ((i, seq 0 (lobby_size l)) :: a) b
| as_b l rest i a b : assigns rest (S i) a b ->
    assigns (l :: rest) i a ((i, seq 0 (lobby_size l)) :: b)
| as_split l rest i a b k : 1 <= k < lobby_size l -> assigns rest (S i) a b ->
    assigns (l :: rest) i ((i, seq 0 k) :: a) ((i, seq k (lobby_size l - k)) :: b).

Lemma assigns_nothing rest i : assigns rest i [] [].
Proof. revert i. induction rest; intros i; by constructor. Qed.

Lemma players_cons i s t : players ((i, s) :: t) = length s + players t.
Proof. done. Qed.

Lemma backtrack_sound rest i a b ra rb a' b' :
  backtrack_assign rest i a b ra rb = Some (a', b') ->
  exists da db, a' = a ++ da /\ b' = b ++ db /\ assigns rest i da db
    /\ players da = ra /\ players db = rb.
Proof.
  revert i a b ra rb. induction rest as [|l rest IH]; intros i a b ra rb; cbn [backtrack_assign].
  - destruct ((ra =? 0) && (rb =? 0)) eqn:E; [|done]. intros [= <- <-].
    apply andb_true_iff in E as [->%Nat.eqb_eq ->%Nat.eqb_eq]. exists [], [].
    rewrite !app_nil_r. by repeat split; [constructor|..].
  - destruct ((ra =? 0) && (rb =? 0)) eqn:E.
    { intros [= <- <-]. apply andb_true_iff in E as [->%Nat.eqb_eq ->%Nat.eqb_eq]. exists [], [].
      rewrite !app_nil_r. repeat split; try done. apply assigns_nothing. }
    set (n := lobby_size l). intros H.
    destruct (backtrack_assign rest (S i) a b ra rb) as [[x y]|] eqn:E1.
    { injection H as <- <-. destruct (IH _ _ _ _ _ E1) as (da & db & -> & -> & ? & ? & ?).
      exists da, db. by repeat split; [constructor|..]. }
    destruct (if n <=? ra then _ else None) as [[x y]|] eqn:E2.
    { injection H as <- <-. destruct (Nat.leb_spec n ra); [|done].
      destruct (IH _ _ _ _ _ E2) as (da & db & -> & -> & ? & ? & ?).
      exists ((i, seq 0 n) :: da), db. rewrite <-app_assoc, players_cons, length_seq.
      repeat split; try done; [by constructor|lia]. }
    destruct (if n <=? rb then _ else None) as [[x y]|] eqn:E3.
    { injection H as <- <-. destruct (Nat.leb_spec n rb); [|done].
      destruct (IH _ _ _ _ _ E3) as (da & db & -> & -> & ? & ? & ?).
      exists da, ((i, seq 0 n) :: db). rewrite <-app_assoc, players_cons, length_seq.
      repeat split; try done; [by constructor|lia]. }
    apply find_map_Some in H as (k & Hk%elem_of_seq & H).
    destruct (Nat.leb_spec k ra); [|done]. destruct (Nat.leb_spec (n - k) rb); [|done].
    destruct (IH _ _ _ _ _ H) as (da & db & -> & -> & ? & ? & ?).
    exists ((i, seq 0 k) :: da), ((i, seq k (n - k)) :: db).
    rewrite <-!app_assoc, !players_cons, !length_seq.
    repeat split; try done; [constructor; [unfold n in *; lia|done]|lia|lia].
Qed.

Lemma or_else_r {A} (x y : option A) : is_Some y -> is_Some (x <|> y).
Proof. by destruct x. Qed.

Lemma or_else_l {A} (x y : option A) : is_Some x -> is_Some (x <|> y).
Proof. by destruct x; [|intros []]. Qed.

Lemma backtrack_complete rest i da db a b :
  assigns rest i da db ->
  is_Some (backtrack_assign rest i a b (players da) (players db)).
Proof.
  intros H. revert a b. induction H as [i|l rest i da db H IH|l rest i da db H IH
    |l rest i da db H IH|l rest i da db k Hk H IH]; intros a b; cbn [backtrack_assign].
  - done.
  - destruct (_ && _); [done|]. apply or_else_l, IH.
  - destruct (_ && _); [done|]. apply or_else_r, or_else_l.
    rewrite players_cons, length_seq. rewrite (proj2 (Nat.leb_le _ _)) by lia.
    replace (lobby_size l + players da - lobby_size l) with (players da) by lia. apply IH.
  - destruct (_ && _); [done|]. apply or_else_r, or_else_r, or_else_l.
    rewrite players_cons, length_seq. rewrite (proj2 (Nat.leb_le _ _)) by lia.
    replace (lobby_size l + players db - lobby_size l) with (players db) by lia. apply IH.
  - destruct (_ && _); [done|]. do 3 apply or_else_r.
    apply (find_map_is_Some _ _ k); [apply elem_of_seq; lia|].
    rewrite !players_cons, !length_seq.
    rewrite (proj2 (Nat.leb_le _ _)), (proj2 (Nat.leb_le _ _)) by lia. cbn [andb].
    replace (k + players da - k) with (players da) by lia.
    replace (lobby_size l - k + players db - (lobby_size l - k)) with (players db) by lia. apply IH.
Qed.

(** ** Who sits where *)

(** The seats a team has taken in the lobby at an index. *)
Definition seats (i : nat) (t : list (nat * list nat)) : list nat :=
  concat ((filter (fun e => e.1 = i) t).*2).

Lemma seats_cons_eq i s t : seats i ((i, s) :: t) = s ++ seats i t.
Proof. unfold seats. by rewrite filter_cons_True. Qed.

Lemma seats_cons_ne i j s t : i <> j -> seats i ((j, s) :: t) = seats i t.
Proof. intros H. unfold seats. by rewrite filter_cons_False by (cbn; congruence). Qed.

Lemma seats_none i t : i ∉ t.*1 -> seats i t = [].
Proof.
  induction t as [|[j s] t IH]; [done|]. rewrite fmap_cons. intros [Hj Ht]%not_elem_of_cons.
  rewrite seats_cons_ne by done. by apply IH.
Qed.

Lemma assigns_range rest i a b j :
  assigns rest i a b -> j ∈ (a.*1) ++ (b.*1) -> i <= j < i + length rest.
Proof.
  intros H. revert j. induction H as [|l rest i a b H IH|l rest i a b H IH|l rest i a b H IH
    |l rest i a b k Hk H IH]; intros j Hj; cbn [length].
  - by apply not_elem_of_nil in Hj.
  - specialize (IH _ Hj). lia.
  - cbn in Hj. apply elem_of_cons in Hj as [->|Hj]; [lia|]. specialize (IH _ Hj). lia.
  - cbn in Hj. rewrite <-Permutation_middle in Hj.
    apply elem_of_cons in Hj as [->|Hj]; [lia|]. specialize (IH _ Hj). lia.
  - cbn in Hj. rewrite <-Permutation_middle in Hj.
    apply elem_of_cons in Hj as [->|Hj]; [lia|].
    apply elem_of_cons in Hj as [->|Hj]; [lia|]. specialize (IH _ Hj). lia.
Qed.

(** Every lobby in use is seated whole, once. *)
Lemma assigns_seats rest i a b j l :
  assigns rest i a b -> rest !! j = Some l -> i + j ∈ (a.*1) ++ (b.*1) ->
  seats (i + j) a ++ seats (i + j) b = seq 0 (lobby_size l).
Proof.
  intros H. revert j l. induction H as [|x rest i a b H IH|x rest i a b H IH|x rest i a b H IH
    |x rest i a b k Hk H IH]; intros j l Hl Hj; [done|..].
  all: assert (Hi : (i ∉ a.*1) /\ (i ∉ b.*1))
         by (split; intros Hx; pose proof (assigns_range _ _ _ _ i H) as R;
             (assert (i ∈ (a.*1) ++ (b.*1)) as HR by (apply elem_of_app; auto)); specialize (R HR); lia).
  all: destruct Hi as [Ha Hb]; destruct j as [|j]; cbn in Hl; simplify_eq.
  all: rewrite ?Nat.add_0_r in *; rewrite <-?plus_n_Sm in *.
  all: rewrite ?seats_cons_eq; rewrite ?(seats_cons_ne (S _)) by lia;
       rewrite ?(seats_none i) by done.
  - apply elem_of_app in Hj as [?|?]; done.
  - by apply (IH j).
  - by rewrite !app_nil_r.
  - apply (IH j); [done|]. cbn in Hj. apply elem_of_cons in Hj as [Hj|Hj]; [lia|done].
  - by rewrite app_nil_r.
  - apply (IH j); [done|]. cbn in Hj. rewrite <-Permutation_middle in Hj.
    apply elem_of_cons in Hj as [Hj|Hj]; [lia|done].
  - rewrite !app_nil_r, <-seq_app. f_equal. lia.
  - apply (IH j); [done|]. cbn in Hj. rewrite <-Permutation_middle in Hj.
    apply elem_of_cons in Hj as [Hj|Hj]; [lia|]. apply elem_of_cons in Hj as [Hj|Hj]; [lia|done].
Qed.

(** ** Members taken from one lobby *)

Lemma take_members_eq l host s :
  take_members l host s = take s (filter (fun i => Some i <> host) l).
Proof.
  revert s. induction l as [|i l IH]; intros s; [by destruct s|]. destruct s as [|s].
  - cbn. by destruct (filter _ _).
  - cbn [take_members]. case_bool_decide as E.
    + rewrite filter_cons_False by (intros ?; done). apply IH.
    + rewrite filter_cons_True by done. cbn. by rewrite IH.
Qed.

Lemma requesting_index_lt l i : requesting_index l = Some i -> i < lobby_size l.
Proof.
  unfold requesting_index. destruct (list_find _ _) as [[j m]|] eqn:E; [|done]. intros [= <-].
  apply list_find_Some in E as (E & _ & _). by eapply lookup_lt_Some.
Qed.

Lemma leftover_perm (p s : list nat) :
  NoDup p -> p ⊆ s -> NoDup s -> p ++ filter (fun i => i ∉ p) s ≡ₚ s.
Proof.
  intros Hp Hs Hd. apply NoDup_Permutation; [|done|].
  - apply NoDup_app. split; [done|]. split; [|by apply NoDup_filter].
    intros x Hx [H _]%list_elem_of_filter. done.
  - intros x. rewrite elem_of_app, list_elem_of_filter.
    destruct (decide (x ∈ p)); set_solver.
Qed.

Lemma length_filter_ne (i : nat) s :
  NoDup s -> i ∈ s -> S (length (filter (fun j => Some j <> Some i) s)) = length s.
Proof.
  intros Hd Hi.
  assert (E : filter (fun j => Some j <> Some i) s = filter (fun j => j ∉ [i]) s)
    by (apply list_filter_iff; intros j; set_solver).
  assert (P : [i] ++ filter (fun j => j ∉ [i]) s ≡ₚ s)
    by (apply leftover_perm; [apply NoDup_singleton|set_solver|done]).
  rewrite E. by apply Permutation_length in P.
Qed.

Lemma take_NoDup {A} n (l : list A) : NoDup l -> NoDup (take n l).
Proof. rewrite <-(take_drop n l) at 1. by intros (? & _ & _)%NoDup_app. Qed.

Lemma team_players_spec l needed :
  requesting_index l = None \/ 1 <= needed ->
  let p := team_players l needed in
  NoDup p /\ p ⊆ seq 0 (lobby_size l) /\ length p = needed `min` lobby_size l
  /\ p ++ leftover l p ≡ₚ seq 0 (lobby_size l).
Proof.
  intros Hn p. assert (H : NoDup p /\ p ⊆ seq 0 (lobby_size l)
                           /\ length p = needed `min` lobby_size l).
  { unfold p, team_players, seat_members. rewrite take_members_eq.
    destruct (requesting_index l) as [i|] eqn:E; cbn [option_list length app].
    - apply requesting_index_lt in E as Hi. destruct Hn as [?|Hn]; [done|].
      pose proof (length_filter_ne i (seq 0 (lobby_size l)) (NoDup_seq _ _)
                    ltac:(apply elem_of_seq; lia)) as Hlen. rewrite length_seq in Hlen.
      set (f := filter _ _) in *. split; [|split].
      + constructor; [|apply take_NoDup, NoDup_filter, NoDup_seq].
        intros H%elem_of_take. destruct H as (j & Hj & _). apply list_elem_of_lookup_2 in Hj.
        apply list_elem_of_filter in Hj as [Hj _]. done.
      + intros x Hx. apply elem_of_cons in Hx as [->|Hx]; [apply elem_of_seq; lia|].
        apply elem_of_take in Hx as (j & Hj & _). apply list_elem_of_lookup_2 in Hj.
        by apply list_elem_of_filter in Hj as [_ Hj].
      + cbn. rewrite length_take. lia.
    - rewrite Nat.sub_0_r.
      rewrite filter_everything by (by apply Forall_forall).
      split; [apply take_NoDup, NoDup_seq|]. split; [|by rewrite length_take, length_seq].
      intros x Hx. apply elem_of_take in Hx as (j & Hj & _). by eapply list_elem_of_lookup_2. }
  destruct H as (H1 & H2 & H3). do 3 (split; [done|]). apply leftover_perm; [done..|apply NoDup_seq].
Qed.
