(* ===== verification/RosterFacts.v ===== *)
(** * A combination accounts for every member

    The roster of a combination: in each of its lobbies every member either
    plays, on one team, or watches. Each search of [Matchmaking] returns such a
    combination. *)

From Stdlib Require Import ZArith Lia.
From stdpp Require Import prelude strings countable list gmap sorting.
From S2P Require Import Prelude RustFloat Util Snake Arena CommandQueue GameState GameSetup.
From S2P Require Import Validate Actor SkinCatalog Matchmaking MatchmakingFacts.
Open Scope nat_scope.

(** The members of a lobby the assignments seat, and those that watch. *)
Definition seated (code : string) (ts : list TeamAssignment) : list nat :=
  concat (ta_member_indices <$> filter (fun a => ta_lobby_code a = code) ts).

Definition watching (c : MatchmakingCombination) (code : string) : list nat :=
  concat ((filter (fun e => e.1 = code) (mc_spectators c)).*2).

Definition playing (c : MatchmakingCombination) (l : QueuedLobby) : list nat :=
  if no_teams c
  then filter (fun i => i ∉ watching c (ql_lobby_code l)) (seq 0 (lobby_size l))
  else seated (ql_lobby_code l) (mc_team_assignments c).

Definition team_count (c : MatchmakingCombination) (t : TeamId) : nat :=
  sum_list (length ∘ ta_member_indices <$> filter (fun a => ta_team_id a = t)
              (mc_team_assignments c)).

Definition codes (ls : list QueuedLobby) : list string := ql_lobby_code <$> ls.

(** The game types with queues, and any other size within range. *)
Definition supported (g : GameType) : Prop :=
  match g with
  | Solo => True
  | TeamMatch per_team => (1 <= per_team < 128)%Z
  | FreeForAll max_players => (2 <= max_players)%Z
  | Custom _ => False
  end.

Record combination_ok (lobbies : list QueuedLobby) (g : GameType) (c : MatchmakingCombination)
  : Prop := {
  co_valid : is_valid c g = true;
  co_some : mc_lobbies c <> [];
  co_from : mc_lobbies c ⊆ lobbies;
  co_distinct : NoDup (codes (mc_lobbies c));
  co_members l : l ∈ mc_lobbies c ->
    playing c l ++ watching c (ql_lobby_code l) ≡ₚ seq 0 (lobby_size l);
  co_total : sum_list ((fun l => length (playing c l)) <$> mc_lobbies c) = mc_total_players c;
  co_teams : match g with
             | TeamMatch per_team => team_count c 0 = Z.to_nat per_team
                                     /\ team_count c 1 = Z.to_nat per_team
             | _ => no_teams c = true
             end;
  co_assigned : Forall (fun a => ta_lobby_code a ∈ codes (mc_lobbies c)) (mc_team_assignments c);
  co_entries : NoDup ((mc_spectators c).*1)
}.

(** ** Exact teams *)

Lemma lobby_at_ok lobbies i l : lobbies !! i = Some l -> lobby_at lobbies i = Ok l.
Proof. unfold lobby_at. by intros ->. Qed.

Lemma assignments_spec lobbies t id :
  (forall i, i ∈ t.*1 -> i < length lobbies) ->
  exists ts, assignments lobbies t id = Ok ts /\ (ta_member_indices <$> ts) = t.*2
    /\ Forall (fun a => ta_team_id a = id
                  /\ exists i l, i ∈ t.*1 /\ lobbies !! i = Some l
                     /\ ta_lobby_code a = ql_lobby_code l) ts
    /\ forall i l, NoDup (codes lobbies) -> lobbies !! i = Some l ->
       seated (ql_lobby_code l) ts = seats i t.
Proof.
  induction t as [|[i s] t IH]; intros Hr; cbn [assignments].
  { exists []. split; [done|]. split; [done|]. split; [done|]. intros. done. }
  destruct IH as (ts & -> & E2 & Hf & Hs). { intros j Hj. apply Hr. by right. }
  destruct (lookup_lt_is_Some_2 lobbies i) as [l Hl]. { apply Hr. left. }
  rewrite (lobby_at_ok _ _ _ Hl). cbn [mbind result_bind]. eexists. split; [reflexivity|].
  split; [cbn; by rewrite E2|]. split.
  { constructor.
    - split; [done|]. exists i, l. by split; [left|].
    - eapply Forall_impl; [exact Hf|]. intros a (? & j & x & Hj & ? & ?). split; [done|].
      exists j, x. by split; [right|]. }
  intros j l' Hd Hl'. destruct (decide (i = j)) as [->|Hne].
  - simplify_eq. rewrite seats_cons_eq. unfold seated. rewrite filter_cons_True by done.
    cbn. f_equal. by apply Hs.
  - rewrite seats_cons_ne by done. rewrite <-(Hs _ _ Hd Hl'). unfold seated.
    rewrite filter_cons_False; [done|]. cbn. intros E. apply Hne.
    eapply NoDup_lookup; [exact Hd|..]; unfold codes; rewrite list_lookup_fmap.
    + by rewrite Hl.
    + by rewrite Hl', E.
Qed.

Lemma lobbies_at_spec lobbies ix :
  (forall i, i ∈ ix -> i < length lobbies) ->
  exists ls, lobbies_at lobbies ix = Ok ls /\ Forall2 (fun i l => lobbies !! i = Some l) ix ls.
Proof.
  induction ix as [|i ix IH]; intros Hr; cbn [lobbies_at]; [by exists []; split; [|constructor]|].
  destruct (lookup_lt_is_Some_2 lobbies i) as [l Hl]. { apply Hr. left. }
  destruct IH as (ls & -> & Hf). { intros j Hj. apply Hr. by right. }
  rewrite (lobby_at_ok _ _ _ Hl). exists (l :: ls). by split; [|constructor].
Qed.

Lemma weigh_spec lobbies ts n m :
  Forall (fun a => ta_lobby_code a ∈ codes lobbies) ts ->
  exists m', weigh lobbies ts n m = Some (n + sum_list (length ∘ ta_member_indices <$> ts), m').
Proof.
  intros Hf. revert n m. induction Hf as [|a ts Ha _ IH]; intros n m; cbn [weigh].
  { exists m. by rewrite Nat.add_0_r. }
  apply list_elem_of_fmap in Ha as (l & El & Hl).
  destruct (find_first_is_Some (fun l => bool_decide (ql_lobby_code l = ta_lobby_code a))
              lobbies l Hl) as [x ->]; [by apply bool_decide_eq_true|].
  destruct (IH (n + length (ta_member_indices a))
              (wrap_i32 (m + wrap_i32 (ql_avg_mmr x * Z.of_nat (length (ta_member_indices a))))))
    as [m' ->]. exists m'. f_equal. f_equal. cbn. lia.
Qed.

Lemma sum_indices (ts : list TeamAssignment) t :
  (ta_member_indices <$> ts) = t.*2 ->
  sum_list (length ∘ ta_member_indices <$> ts) = players t.
Proof. intros E. unfold players. by rewrite list_fmap_compose, E. Qed.

Lemma sum_cons x l : sum_list (x :: l) = x + sum_list l.
Proof. done. Qed.

Lemma sum_app l k : sum_list (l ++ k) = sum_list l + sum_list k.
Proof. induction l as [|x l IH]; [done|]. cbn [app]. rewrite !sum_cons. lia. Qed.

Lemma seats_total (t : list (nat * list nat)) ix :
  NoDup ix -> t.*1 ⊆ ix -> sum_list ((fun i => length (seats i t)) <$> ix) = players t.
Proof.
  intros Hd. induction t as [|[j s] t IH]; intros Hs.
  - induction ix as [|i ix IHi]; [done|]. cbn. apply NoDup_cons in Hd as [_ Hd].
    apply IHi; [done|]. intros x Hx%not_elem_of_nil. done.
  - rewrite players_cons, <-IH by (intros x Hx; apply Hs; by right).
    assert (Hj : j ∈ ix) by (apply Hs; left). clear IH Hs.
    induction ix as [|i ix IHi]; [by apply not_elem_of_nil in Hj|].
    apply NoDup_cons in Hd as [Hn Hd]. rewrite !fmap_cons, !sum_cons.
    apply elem_of_cons in Hj as [->|Hj].
    + rewrite seats_cons_eq, length_app, <-Nat.add_assoc. do 3 f_equal. apply list_fmap_ext. intros k x Hx. apply list_elem_of_lookup_2 in Hx.
      by rewrite seats_cons_ne by (intros ->; done).
    + rewrite IHi by done. rewrite seats_cons_ne by (intros ->; done). lia.
Qed.

Lemma seated_app code ts us : seated code (ts ++ us) = seated code ts ++ seated code us.
Proof. unfold seated. by rewrite filter_app, fmap_app, concat_app. Qed.

Lemma count_team ts us (id other : TeamId) :
  id <> other -> Forall (fun a => ta_team_id a = id) ts ->
  Forall (fun a => ta_team_id a = other) us ->
  filter (fun a => ta_team_id a = id) (ts ++ us) = ts
  /\ filter (fun a => ta_team_id a = other) (ts ++ us) = us.
Proof.
  intros Hne Ht Hu. rewrite !filter_app. split.
  - rewrite (filter_everything _ ts), list_filter_none, app_nil_r; [done| |done].
    intros x Hx. rewrite Forall_forall in Hu. specialize (Hu _ Hx). congruence.
  - rewrite (filter_everything _ us), list_filter_none; [done| |done].
    intros x Hx. rewrite Forall_forall in Ht. specialize (Ht _ Hx). congruence.
Qed.

Lemma picked_from (lobbies : list QueuedLobby) (ix : list nat) ls :
  Forall2 (fun i l => lobbies !! i = Some l) ix ls -> ls ⊆ lobbies.
Proof.
  intros Hf l Hl. apply list_elem_of_lookup in Hl as [k Hk].
  destruct (Forall2_lookup_r _ _ _ _ _ Hf Hk) as (i & _ & Hi). by eapply list_elem_of_lookup_2.
Qed.

Lemma picked_distinct (lobbies : list QueuedLobby) (ix : list nat) ls :
  NoDup (codes lobbies) -> NoDup ix -> Forall2 (fun i l => lobbies !! i = Some l) ix ls ->
  NoDup (codes ls).
Proof.
  intros Hd Hi Hf. apply NoDup_alt. intros j k x Hj Hk. unfold codes in *.
  rewrite list_lookup_fmap in Hj, Hk.
  destruct (ls !! j) as [lj|] eqn:Ej; [|done]. destruct (ls !! k) as [lk|] eqn:Ek; [|done].
  destruct (Forall2_lookup_r _ _ _ _ _ Hf Ej) as (a & Ea & La).
  destruct (Forall2_lookup_r _ _ _ _ _ Hf Ek) as (b & Eb & Lb).
  assert (a = b) as ->.
  { eapply (NoDup_lookup _ _ _ x Hd); unfold codes; rewrite list_lookup_fmap.
    - by rewrite La. - by rewrite Lb. }
  by eapply NoDup_lookup.
Qed.

Lemma fmap_picked (lobbies : list QueuedLobby) {B} (f : QueuedLobby -> B) (g : nat -> B) ix ls :
  Forall2 (fun i l => lobbies !! i = Some l) ix ls ->
  (forall i l, lobbies !! i = Some l -> f l = g i) -> f <$> ls = g <$> ix.
Proof.
  intros Hf H. induction Hf as [|i l ix ls Hl _ IH]; [done|]. cbn. by rewrite IH, (H _ _ Hl).
Qed.

Lemma sum_of_sums (f g : nat -> nat) ix :
  sum_list ((fun i => f i + g i) <$> ix) = sum_list (f <$> ix) + sum_list (g <$> ix).
Proof. induction ix as [|i ix IH]; [done|]. rewrite !fmap_cons, !sum_cons. lia. Qed.

Lemma double_in_range per : (1 <= per < 128)%Z -> Z.to_nat (wrap_u8 (per * 2)) = Z.to_nat per * 2.
Proof. intros H. unfold wrap_u8. rewrite Z.mod_small by lia. lia. Qed.

Section exact.
Context {HO : HashOrder} (lobbies : list QueuedLobby) (per : Z).
Hypothesis distinct : NoDup (codes lobbies).
Hypothesis in_range : (1 <= per < 128)%Z.

Section combination.
Variables (a b : list (nat * list nat)) (used : list nat) (ls : list QueuedLobby).
Variables (ta tb : list TeamAssignment) (mmr : Z).
Hypothesis (Has : assigns lobbies 0 a b) (Ha : players a = Z.to_nat per)
  (Hb : players b = Z.to_nat per).
Hypothesis (Hd : NoDup used) (Hu : forall i, i ∈ used <-> i ∈ (a.*1) ++ (b.*1)).
Hypothesis Hls : Forall2 (fun i l => lobbies !! i = Some l) used ls.
Hypothesis (Ia : (ta_member_indices <$> ta) = a.*2) (Ib : (ta_member_indices <$> tb) = b.*2).
Hypothesis (Fa : Forall (fun a => ta_team_id a = 0%Z) ta).
Hypothesis (Fb : Forall (fun a => ta_team_id a = 1%Z) tb).
Hypothesis Sa : forall i l, lobbies !! i = Some l -> seated (ql_lobby_code l) ta = seats i a.
Hypothesis Sb : forall i l, lobbies !! i = Some l -> seated (ql_lobby_code l) tb = seats i b.
Hypothesis Hcodes : Forall (fun x => exists i l, i ∈ used /\ lobbies !! i = Some l
                                     /\ ta_lobby_code x = ql_lobby_code l) (ta ++ tb).

Let c := mkCombination ls (ta ++ tb) [] (Z.to_nat per * 2) mmr.

Lemma exact_sum : sum_list (length ∘ ta_member_indices <$> (ta ++ tb)) = Z.to_nat per * 2.
Proof.
  pose proof (sum_indices _ _ Ia) as X. pose proof (sum_indices _ _ Ib) as Y.
  rewrite fmap_app, sum_app. lia.
Qed.

Lemma exact_no_teams : no_teams c = false.
Proof.
  pose proof exact_sum as E. unfold no_teams. cbn. destruct (ta ++ tb); [cbn in E; lia|done].
Qed.

Lemma exact_playing i l :
  lobbies !! i = Some l -> playing c l = seats i a ++ seats i b.
Proof.
  intros Hl. unfold playing. rewrite exact_no_teams. cbn [mc_team_assignments c].
  by rewrite seated_app, (Sa _ _ Hl), (Sb _ _ Hl).
Qed.

Lemma exact_total : sum_list ((fun l => length (playing c l)) <$> ls) = Z.to_nat per * 2.
Proof.
  assert (E : (fun l => length (playing c l)) <$> ls
              = (fun i => length (seats i a) + length (seats i b)) <$> used).
  { apply (fmap_picked lobbies); [done|]. intros i l Hl.
    by rewrite (exact_playing _ _ Hl), length_app. }
  rewrite E, sum_of_sums, !seats_total; [lia|done| |done|].
  - intros i Hi. apply Hu, elem_of_app. by right.
  - intros i Hi. apply Hu, elem_of_app. by left.
Qed.

Lemma exact_combination_ok : combination_ok lobbies (TeamMatch per) c.
Proof.
  split; cbn [mc_lobbies c].
  - unfold is_valid. rewrite exact_no_teams, (double_in_range _ in_range).
    cbn [mc_total_players mc_team_assignments c]. by rewrite exact_sum, !Nat.eqb_refl.
  - intros E0. pose proof exact_total as E. rewrite E0 in E. cbn in E. lia.
  - by eapply picked_from.
  - by eapply picked_distinct.
  - intros l Hl. unfold watching. cbn. rewrite app_nil_r.
    apply list_elem_of_lookup in Hl as [k Hk].
    destruct (Forall2_lookup_r _ _ _ _ _ Hls Hk) as (i & Hi & Hl).
    rewrite (exact_playing _ _ Hl). apply reflexive_eq.
    apply (assigns_seats lobbies 0 a b i l Has Hl), Hu. by eapply list_elem_of_lookup_2.
  - apply exact_total.
  - unfold team_count. cbn [mc_team_assignments c].
    destruct (count_team ta tb 0 1) as [-> ->]; [done..|].
    by rewrite (sum_indices _ _ Ia), (sum_indices _ _ Ib).
  - cbn [mc_team_assignments c]. eapply Forall_impl; [exact Hcodes|].
    intros x (i & l & Hi & Hl & ->). apply list_elem_of_fmap_2.
    apply list_elem_of_lookup in Hi as [k Hk].
    destruct (Forall2_lookup_l _ _ _ _ _ Hls Hk) as (l' & Hl' & E). simplify_eq.
    by eapply list_elem_of_lookup_2.
  - constructor.
Qed.
End combination.

Lemma build_combination_ok a b :
  assigns lobbies 0 a b -> players a = Z.to_nat per -> players b = Z.to_nat per ->
  exists c, build_combination lobbies a b [] = Ok (Some c)
    /\ combination_ok lobbies (TeamMatch per) c
    /\ Forall2 (fun i l => lobbies !! i = Some l)
         (hash_order (remove_dups ((a.*1) ++ (b.*1)))) (mc_lobbies c).
Proof.
  intros Has Ha Hb. set (used := hash_order (remove_dups ((a.*1) ++ (b.*1)))).
  assert (Hu : forall i, i ∈ used <-> i ∈ (a.*1) ++ (b.*1)).
  { intros i. unfold used. by rewrite hash_order_perm, elem_of_remove_dups. }
  assert (Hd : NoDup used) by (unfold used; rewrite hash_order_perm; apply NoDup_remove_dups).
  assert (Hr : forall i, i ∈ (a.*1) ++ (b.*1) -> i < length lobbies).
  { intros i Hi. apply (assigns_range _ _ _ _ _ Has) in Hi. lia. }
  destruct (lobbies_at_spec lobbies used) as (ls & Els & Hls). { intros i Hi. by apply Hr, Hu. }
  destruct (assignments_spec lobbies a 0) as (ta & Eta & Ia & Fa & Sa).
  { intros i Hi. apply Hr, elem_of_app. by left. }
  destruct (assignments_spec lobbies b 1) as (tb & Etb & Ib & Fb & Sb).
  { intros i Hi. apply Hr, elem_of_app. by right. }
  assert (Hcodes : Forall (fun x => exists i l, i ∈ used /\ lobbies !! i = Some l
                                      /\ ta_lobby_code x = ql_lobby_code l) (ta ++ tb)).
  { apply Forall_app. split; [eapply Forall_impl; [exact Fa|]|eapply Forall_impl; [exact Fb|]];
      intros x (_ & i & l & Hi & H); exists i, l; (split; [apply Hu, elem_of_app; auto|exact H]). }
  destruct (weigh_spec lobbies (ta ++ tb) 0 0) as [mmr Em].
  { eapply Forall_impl; [exact Hcodes|]. intros x (i & l & _ & Hl & ->).
    apply list_elem_of_fmap_2. by eapply list_elem_of_lookup_2. }
  unfold build_combination. fold used. rewrite Els, Eta, Etb. cbn [mbind result_bind]. rewrite Em.
  rewrite (exact_sum a b ta tb) by done. cbn [Nat.add].
  eexists. split; [reflexivity|]. split; [|exact Hls].
  apply (exact_combination_ok a b used); eauto using Forall_impl.
  - eapply Forall_impl; [exact Fa|]. by intros ? [].
  - eapply Forall_impl; [exact Fb|]. by intros ? [].
Qed.

Lemma find_exact_ok r :
  find_exact_team_match lobbies (Z.to_nat per) = r ->
  exists o, r = Ok o /\ forall c, o = Some c -> combination_ok lobbies (TeamMatch per) c.
Proof.
  intros <-. unfold find_exact_team_match.
  destruct (backtrack_assign _ _ _ _ _ _) as [[a b]|] eqn:E; [|by eexists].
  destruct (backtrack_sound _ _ _ _ _ _ _ _ E) as (da & db & -> & -> & Has & Ha & Hb).
  destruct (build_combination_ok da db Has Ha Hb) as (c & Ec & Hok & _).
  exists (Some c). split; [exact Ec|]. by intros ? [= <-].
Qed.
End exact.

(** ** Two teams out of one lobby *)

Lemma one_lobby_ok lobbies per l a b spect :
  (1 <= per < 128)%Z -> l ∈ lobbies -> length a = Z.to_nat per -> length b = Z.to_nat per ->
  NoDup (spect.*1) ->
  (a ++ b) ++ concat ((filter (fun e => e.1 = ql_lobby_code l) spect).*2)
    ≡ₚ seq 0 (lobby_size l) ->
  combination_ok lobbies (TeamMatch per) (one_lobby_teams l a b spect (Z.to_nat per * 2)).
Proof.
  intros Hp Hl Ha Hb Hnd Hw. set (c := one_lobby_teams _ _ _ _ _).
  assert (Ep : playing c l = a ++ b).
  { unfold playing, seated. cbn. rewrite !decide_True by done. cbn. by rewrite app_nil_r. }
  split.
  - unfold is_valid. rewrite (double_in_range _ Hp). cbn. rewrite Ha, Hb, Nat.eqb_refl. cbn.
    apply Nat.eqb_eq. lia.
  - done.
  - intros x Hx. cbn in Hx. by apply list_elem_of_singleton in Hx as ->.
  - apply NoDup_singleton.
  - intros x Hx. cbn in Hx. apply list_elem_of_singleton in Hx as ->. by rewrite Ep.
  - cbn [mc_lobbies c one_lobby_teams]. rewrite fmap_cons, sum_cons, Ep, length_app. cbn. lia.
  - unfold team_count. cbn [mc_team_assignments c one_lobby_teams].
    rewrite (filter_cons_True _ (mkTeam _ a _)), (filter_cons_False _ (mkTeam _ b _)) by done.
    rewrite (filter_cons_False _ (mkTeam _ a _)), (filter_cons_True _ (mkTeam _ b _)) by done.
    cbn. lia.
  - cbn. repeat constructor.
  - done.
Qed.

Lemma single_split_ok lobbies per c :
  (1 <= per < 128)%Z ->
  find_single_lobby_split lobbies (Z.to_nat per) (Z.to_nat per * 2) = Some c ->
  combination_ok lobbies (TeamMatch per) c.
Proof.
  intros Hp (l & Hl & E)%find_map_Some.
  destruct (Nat.eqb_spec (lobby_size l) (Z.to_nat per * 2)) as [En|]; [|done]. cbn [negb] in E.
  destruct (team_players_spec l (Z.to_nat per * 2)) as (_ & _ & Hlen & Hperm); [right; lia|].
  set (p := team_players l _) in *.
  rewrite (proj2 (Nat.ltb_ge _ _)) in E by lia.
  destruct (_ || _); [done|]. injection E as <-.
  apply one_lobby_ok; try done;
    [rewrite length_take; lia|rewrite length_take, length_drop; lia|constructor|].
  cbn. rewrite app_nil_r, (take_ge (drop _ _)) by (rewrite length_drop; lia). rewrite take_drop.
  assert (Hz : leftover l p = []).
  { apply nil_length_inv. apply Permutation_length in Hperm.
    rewrite length_app, length_seq in Hperm. lia. }
  by rewrite Hz, app_nil_r in Hperm.
Qed.

Lemma with_spectators_ok lobbies per c :
  (1 <= per < 128)%Z ->
  find_team_match_with_spectators lobbies (Z.to_nat per) (Z.to_nat per * 2) = Some c ->
  combination_ok lobbies (TeamMatch per) c.
Proof.
  intros Hp (l & Hl & E)%find_map_Some.
  destruct (Nat.leb_spec (Z.to_nat per * 2) (lobby_size l)) as [Hn|]; [|done].
  destruct (team_players_spec l (Z.to_nat per * 2)) as (_ & _ & Hlen & Hperm); [right; lia|].
  set (p := team_players l _) in *. injection E as <-.
  apply one_lobby_ok; try done;
    [rewrite length_take; lia|rewrite length_drop; lia|apply NoDup_singleton|].
  rewrite take_drop. cbn. rewrite decide_True by done. cbn. by rewrite app_nil_r.
Qed.

Lemma team_search_ok {HO : HashOrder} lobbies per :
  NoDup (codes lobbies) -> (1 <= per < 128)%Z ->
  exists o, find_team_combination lobbies (Z.to_nat per) = Ok o
    /\ forall c, o = Some c -> combination_ok lobbies (TeamMatch per) c.
Proof.
  intros Hd Hp. unfold find_team_combination.
  destruct (find_exact_ok lobbies per Hd Hp _ eq_refl) as (o & -> & Ho). cbn [mbind result_bind].
  eexists. split; [reflexivity|]. intros c. destruct o as [c'|]; [intros [= <-]; by apply Ho|].
  destruct (find_single_lobby_split _ _ _) as [c'|] eqn:E.
  - intros [= <-]. by apply single_split_ok.
  - by apply with_spectators_ok.
Qed.

(** ** Games without teams *)

Definition watched (code : string) (spect : list (string * list nat)) : list nat :=
  concat ((filter (fun e => e.1 = code) spect).*2).

Lemma no_teams_ok lobbies g ls spect total mmr :
  let c := mkCombination ls [] spect total mmr in
  match g with TeamMatch _ => False | _ => True end ->
  is_valid c g = true -> ls <> [] -> ls ⊆ lobbies -> NoDup (codes ls) -> NoDup (spect.*1) ->
  (forall l, l ∈ ls -> NoDup (watched (ql_lobby_code l) spect)
                       /\ watched (ql_lobby_code l) spect ⊆ seq 0 (lobby_size l)) ->
  sum_list ((fun l => lobby_size l - length (watched (ql_lobby_code l) spect)) <$> ls) = total ->
  combination_ok lobbies g c.
Proof.
  intros c Hg Hv Hne Hs Hd Hnd Hw Ht.
  assert (Hm : forall l, l ∈ ls -> playing c l ++ watching c (ql_lobby_code l)
                                   ≡ₚ seq 0 (lobby_size l)).
  { intros l Hl. destruct (Hw l Hl) as [H1 H2]. unfold playing. cbn [no_teams mc_team_assignments c].
    rewrite (Permutation_app_comm (filter _ _)). apply leftover_perm; [done..|apply NoDup_seq]. }
  split; try done.
  - cbn [mc_lobbies mc_total_players c]. rewrite <-Ht. f_equal. apply list_fmap_ext. intros i l Hl.
    apply list_elem_of_lookup_2 in Hl. specialize (Hm l Hl). apply Permutation_length in Hm.
    rewrite length_app, length_seq in Hm. unfold watching in Hm. cbn [mc_spectators c] in Hm.
    unfold watched. lia.
  - by destruct g.
Qed.

Lemma solo_ok lobbies c : find_solo_combination lobbies = Some c -> combination_ok lobbies Solo c.
Proof.
  unfold find_solo_combination.
  destruct (find_first _ lobbies) as [l|] eqn:E1.
  { apply find_first_Some in E1 as [Hl Hn%Nat.eqb_eq]. intros [= <-].
    apply no_teams_ok; try done.
    - intros x Hx. by apply list_elem_of_singleton in Hx as ->.
    - apply NoDup_singleton.
    - constructor.
    - intros x Hx. split; [constructor|]. intros y Hy%not_elem_of_nil. done.
    - cbn. lia. }
  clear E1. destruct (find_first _ lobbies) as [l|] eqn:E; [|done].
  apply find_first_Some in E as [Hl Hn%negb_true_iff%Nat.eqb_neq]. intros [= <-].
  set (r := default 0 (requesting_index l)). set (w := filter _ _).
  assert (Hr : r < lobby_size l).
  { unfold r. destruct (requesting_index l) eqn:Er; cbn; [by apply requesting_index_lt|lia]. }
  assert (Hw : [r] ++ w ≡ₚ seq 0 (lobby_size l)).
  { rewrite <-(leftover_perm [r] (seq 0 (lobby_size l))); [|apply NoDup_singleton| |apply NoDup_seq].
    - cbn. apply reflexive_eq. f_equal. apply list_filter_iff. intros i. set_solver.
    - intros x ->%list_elem_of_singleton. apply elem_of_seq. lia. }
  assert (Ew : watched (ql_lobby_code l) (match w with
                 | [] => [] | _ :: _ => [(ql_lobby_code l, w)] end) = w).
  { destruct w eqn:Ex; [done|]. unfold watched. cbn.
    rewrite decide_True by done. cbn. by rewrite app_nil_r. }
  apply no_teams_ok; try done.
  - intros x Hx. by apply list_elem_of_singleton in Hx as ->.
  - apply NoDup_singleton.
  - destruct w; [constructor|apply NoDup_singleton].
  - intros x ->%list_elem_of_singleton. rewrite Ew. split.
    + apply NoDup_filter, NoDup_seq.
    + by intros y [_ ?]%list_elem_of_filter.
  - rewrite fmap_cons, sum_cons, Ew. apply Permutation_length in Hw.
    rewrite length_app, length_seq in Hw. cbn in *. lia.
Qed.

(** ** Free for all *)

Definition sizes (ls : list QueuedLobby) : nat := sum_list (lobby_size <$> ls).

Record tally_ok (max : nat) (ls : list QueuedLobby) (t : FfaTally) : Prop := {
  to_lobbies : ft_lobbies t = ls;
  to_players : ft_players t = max `min` sizes ls;
  to_remaining : ft_remaining t = max - ft_players t;
  to_codes e : e ∈ ft_spectators t -> e.1 ∈ codes ls;
  to_entries : NoDup ((ft_spectators t).*1);
  to_watched l : l ∈ ls -> NoDup (watched (ql_lobby_code l) (ft_spectators t))
    /\ watched (ql_lobby_code l) (ft_spectators t) ⊆ seq 0 (lobby_size l);
  to_sum : sum_list ((fun l => lobby_size l
             - length (watched (ql_lobby_code l) (ft_spectators t))) <$> ls) = ft_players t
}.

(** The seats of one lobby in a free for all. *)
Lemma seat_ffa_spec l slots :
  let p := seat_members l (if 0 <? slots then option_list (requesting_index l) else []) slots in
  length p = slots `min` lobby_size l /\ p ++ leftover l p ≡ₚ seq 0 (lobby_size l).
Proof.
  destruct (Nat.ltb_spec 0 slots) as [Hs|Hs]; cbn zeta.
  - destruct (team_players_spec l slots) as (_ & _ & ? & ?); [right; lia|done].
  - assert (slots = 0) as -> by lia. unfold seat_members. cbn [app length].
    rewrite take_members_eq. cbn. split; [done|]. unfold leftover.
    rewrite take_0. cbn [app]. rewrite filter_everything; [done|].
    apply Forall_forall. intros x _. apply not_elem_of_nil.
Qed.

Lemma watched_other code e spect :
  e.1 <> code -> watched code (spect ++ [e]) = watched code spect.
Proof.
  intros H. unfold watched. rewrite filter_app. rewrite filter_cons_False by done.
  by rewrite filter_nil, app_nil_r.
Qed.

Lemma watched_none code spect : (forall e, e ∈ spect -> e.1 <> code) -> watched code spect = [].
Proof. intros H. unfold watched. by rewrite list_filter_none. Qed.

Lemma watched_new code w spect :
  (forall e, e ∈ spect -> e.1 <> code) -> watched code (spect ++ [(code, w)]) = w.
Proof.
  intros H. unfold watched. rewrite filter_app, (list_filter_none _ spect H).
  rewrite filter_cons_True by done. cbn. by rewrite app_nil_r.
Qed.

Lemma tally_step max ls l t :
  NoDup (codes (ls ++ [l])) -> tally_ok max ls t -> tally_ok max (ls ++ [l]) (seat_ffa_lobby t l).
Proof.
  intros Hd T. destruct (seat_ffa_spec l (ft_remaining t)) as [Hlen Hp].
  set (p := seat_members _ _ _) in *.
  assert (Hfresh : ql_lobby_code l ∉ codes ls).
  { unfold codes in Hd. rewrite fmap_app in Hd. apply NoDup_app in Hd as (_ & Hd & _).
    intros H. apply (Hd _ H). cbn. by left. }
  assert (Hnone : forall e, e ∈ ft_spectators t -> e.1 <> ql_lobby_code l).
  { intros e He E. apply Hfresh. rewrite <-E. by apply (to_codes _ _ _ T). }
  set (spect := match leftover l p with [] => ft_spectators t
                | _ => ft_spectators t ++ [(ql_lobby_code l, leftover l p)] end).
  assert (Hw : watched (ql_lobby_code l) spect = leftover l p).
  { unfold spect. destruct (leftover l p) eqn:E; [by apply watched_none|]. by apply watched_new. }
  assert (Ho : forall x, x ∈ ls ->
            watched (ql_lobby_code x) spect = watched (ql_lobby_code x) (ft_spectators t)).
  { intros x Hx. unfold spect. destruct (leftover l p); [done|]. apply watched_other. cbn.
    intros E. apply Hfresh. rewrite E. by apply list_elem_of_fmap_2. }
  assert (Hpl : length (leftover l p) = lobby_size l - length p).
  { apply Permutation_length in Hp. rewrite length_app, length_seq in Hp. lia. }
  destruct T as [E1 E2 E3 E4 E7 E5 E6].
  assert (Hs : sizes (ls ++ [l]) = sizes ls + lobby_size l).
  { unfold sizes. rewrite fmap_app, sum_app. cbn. lia. }
  split; cbn [ft_lobbies ft_players ft_remaining ft_spectators seat_ffa_lobby]; fold p spect.
  - by rewrite E1.
  - lia.
  - lia.
  - intros e He. unfold codes. rewrite fmap_app. apply elem_of_app.
    unfold spect in He. destruct (leftover l p); [left; by apply E4|].
    apply elem_of_app in He as [He|He]; [left; by apply E4|]. right.
    apply list_elem_of_singleton in He as ->. cbn. by left.
  - unfold spect. destruct (leftover l p); [done|]. rewrite fmap_app. apply NoDup_app.
    split; [done|]. split; [|apply NoDup_singleton]. cbn. intros x Hx ->%list_elem_of_singleton.
    apply list_elem_of_fmap in Hx as (e & Ee & He). by apply (Hnone e He).
  - intros x Hx. apply elem_of_app in Hx as [Hx|Hx].
    + rewrite (Ho _ Hx). by apply E5.
    + apply list_elem_of_singleton in Hx as ->. rewrite Hw. split.
      * apply NoDup_filter, NoDup_seq.
      * by intros y [_ ?]%list_elem_of_filter.
  - rewrite fmap_app, sum_app. cbn [fmap list_fmap]. rewrite sum_cons, Hw, Hpl.
    rewrite <-E6. replace (sum_list []) with 0 by done.
    assert ((fun x => lobby_size x - length (watched (ql_lobby_code x) spect)) <$> ls
            = (fun x => lobby_size x - length (watched (ql_lobby_code x) (ft_spectators t))) <$> ls)
      as ->.
    { apply list_fmap_ext. intros i x Hx. apply list_elem_of_lookup_2 in Hx. by rewrite (Ho _ Hx). }
    lia.
Qed.

Lemma tally_fold max ls done t :
  NoDup (codes (done ++ ls)) -> tally_ok max done t ->
  tally_ok max (done ++ ls) (foldl seat_ffa_lobby t ls).
Proof.
  revert done t. induction ls as [|l ls IH]; intros done t Hd T; cbn [foldl].
  { by rewrite app_nil_r. }
  replace (done ++ l :: ls) with ((done ++ [l]) ++ ls) in * by (by rewrite <-app_assoc).
  apply IH; [done|]. apply tally_step; [|done].
  unfold codes in *. rewrite fmap_app in Hd. by apply NoDup_app in Hd as (? & _).
Qed.

Lemma sizes_picked (lobbies : list QueuedLobby) ix ls :
  Forall2 (fun i l => lobbies !! i = Some l) ix ls ->
  sizes ls = sum_list ((fun i => match lobbies !! i with Some l => lobby_size l | None => 0 end)
                       <$> ix).
Proof.
  intros H. unfold sizes. f_equal. apply (fmap_picked lobbies); [done|]. by intros i l ->.
Qed.

Section ffa.
Context (lobbies : list QueuedLobby) (max : Z).
Hypothesis distinct : NoDup (codes lobbies).
Hypothesis two_or_more : (2 <= max)%Z.

(** A selection that may be played: in range, without repetition. *)
Definition selection_ok (selection : list nat) (total : nat) : Prop :=
  NoDup selection /\ (forall i, i ∈ selection -> i < length lobbies)
  /\ total = sum_list ((fun i => match lobbies !! i with Some l => lobby_size l | None => 0 end)
                       <$> selection).

Lemma build_ffa_ok selection total :
  selection_ok selection total -> 2 <= total `min` Z.to_nat max ->
  exists c, build_ffa_combination_from_selection lobbies selection (Z.to_nat max) = Ok c
    /\ combination_ok lobbies (FreeForAll max) c.
Proof.
  intros (Hd & Hr & Ht) H2. unfold build_ffa_combination_from_selection.
  destruct (lobbies_at_spec lobbies selection Hr) as (ls & -> & Hls). cbn [mbind result_bind].
  eexists. split; [reflexivity|].
  assert (Hdl : NoDup (codes ls)) by (by eapply picked_distinct).
  assert (T : tally_ok (Z.to_nat max) ls
                (foldl seat_ffa_lobby (mkTally [] [] (Z.to_nat max) 0 0) ls)).
  { apply (tally_fold _ ls []); [done|]. split; cbn; try done.
    - unfold sizes. cbn. lia.
    - lia.
    - intros e He%not_elem_of_nil. done.
    - constructor.
    - intros l Hl%not_elem_of_nil. done. }
  set (t := foldl _ _ _) in *. destruct T as [E1 E2 E3 E4 E7 E5 E6].
  rewrite (sizes_picked _ _ _ Hls), <-Ht in E2. rewrite E1.
  apply no_teams_ok; try done.
  - unfold is_valid, no_teams. cbn [mc_total_players mc_team_assignments].
    rewrite (proj2 (Nat.leb_le _ _)), (proj2 (Nat.leb_le _ _)) by lia. done.
  - intros E0. clearbody t. rewrite E0 in E6. cbn in E6. lia.
  - by eapply picked_from.
Qed.

Lemma wait_rules_two n w m : passes_wait_time_rules n w m = true -> 2 <= n.
Proof. unfold passes_wait_time_rules. by destruct (Nat.ltb_spec n 2). Qed.

Lemma backtrack_ffa_ok now rest idx depth max_depth selection total wait :
  selection_ok selection total -> (forall i, i ∈ selection -> i < idx) -> drop idx lobbies = rest ->
  exists o, backtrack_ffa lobbies (Z.to_nat max) now rest idx depth max_depth selection total wait
            = Ok o
    /\ forall c, o = Some c -> combination_ok lobbies (FreeForAll max) c.
Proof.
  revert idx depth selection total wait.
  induction rest as [|l rest IH]; intros idx depth selection total wait Hs Hlt Hrest;
    cbn [backtrack_ffa].
  all: destruct (match selection with [] => false | _ => true end && _) eqn:Ev.
  1, 3: apply andb_true_iff in Ev as [_ Ev%wait_rules_two];
    destruct (build_ffa_ok _ _ Hs Ev) as (c & -> & Hc); cbn [mbind result_bind];
    eexists; (split; [reflexivity|]); by intros ? [= <-].
  all: destruct (max_depth <=? depth); [by eexists|].
  { by eexists. }
  assert (Hl : lobbies !! idx = Some l).
  { rewrite <-(Nat.add_0_r idx), <-lookup_drop, Hrest. done. }
  assert (Hrest' : drop (S idx) lobbies = rest).
  { replace (S idx) with (idx + 1) by lia. by rewrite <-drop_drop, Hrest. }
  destruct Hs as (Hd & Hr & Ht).
  destruct (IH (S idx) (S depth) (selection ++ [idx]) (total + lobby_size l)
              (wait `max` wrap_i64 (now - ql_queued_at l))%Z) as (o & -> & Ho).
  - split; [|split].
    + apply NoDup_app. split; [done|]. split; [|apply NoDup_singleton].
      intros i Hi ->%list_elem_of_singleton. specialize (Hlt _ Hi). lia.
    + intros i [Hi| ->%list_elem_of_singleton]%elem_of_app; [by apply Hr|].
      by eapply lookup_lt_Some.
    + rewrite fmap_app, sum_app, <-Ht. cbn. rewrite Hl. unfold id. lia.
  - intros i [Hi| ->%list_elem_of_singleton]%elem_of_app; [|lia]. specialize (Hlt _ Hi). lia.
  - done.
  - cbn [mbind result_bind]. destruct o as [c|].
    + eexists. split; [reflexivity|]. by intros ? [= <-]; apply Ho.
    + apply IH; [done| |done]. intros i Hi. specialize (Hlt _ Hi). lia.
Qed.

Lemma selection_one i l : lobbies !! i = Some l -> selection_ok [i] (lobby_size l).
Proof.
  intros Hl. split; [apply NoDup_singleton|]. split.
  - intros j ->%list_elem_of_singleton. by eapply lookup_lt_Some.
  - cbn. rewrite Hl. unfold id. lia.
Qed.

Lemma ffa_search_ok now :
  exists o, find_ffa_combination lobbies (Z.to_nat max) now = Ok o
    /\ forall c, o = Some c -> combination_ok lobbies (FreeForAll max) c.
Proof.
  assert (B : exists o, backtrack_ffa lobbies (Z.to_nat max) now lobbies 0 0
                (length lobbies `min` FFA_MAX_RECURSION_DEPTH) [] 0 0%Z = Ok o
              /\ forall c, o = Some c -> combination_ok lobbies (FreeForAll max) c).
  { apply backtrack_ffa_ok; [split; [constructor|]; split; [|done]| |done];
      by intros i Hi%not_elem_of_nil. }
  assert (S1 : forall i l, lobbies !! i = Some l -> 2 <= lobby_size l `min` Z.to_nat max ->
            exists o, (c ← build_ffa_combination_from_selection lobbies [i] (Z.to_nat max);
                       Ok (Some c)) = Ok o
              /\ forall c, o = Some c -> combination_ok lobbies (FreeForAll max) c).
  { intros i l Hl H2. destruct (build_ffa_ok [i] _ (selection_one _ _ Hl) H2) as (c & -> & Hc).
    cbn [mbind result_bind]. eexists. split; [reflexivity|]. by intros ? [= <-]. }
  unfold find_ffa_combination.
  destruct (list_find _ lobbies) as [[i l]|] eqn:E.
  { apply list_find_Some in E as (Hl & Hn & _). apply (S1 _ _ Hl). lia. }
  destruct lobbies as [|l [|l' ls]] eqn:El; [exact B| |exact B].
  destruct (passes_wait_time_rules _ _ _) eqn:Ew; [|exact B].
  apply (S1 0 l); [done|]. by apply wait_rules_two in Ew.
Qed.
End ffa.

(** ** The search *)

Lemma search_ok {HO : HashOrder} lobbies g now :
  NoDup (codes lobbies) -> supported g ->
  exists o, find_best_lobby_combination lobbies g now = Ok o
    /\ forall c, o = Some c -> combination_ok lobbies g c.
Proof.
  intros Hd Hg. unfold find_best_lobby_combination. destruct lobbies as [|l ls] eqn:El.
  { eexists. split; [reflexivity|]. done. }
  rewrite <-El in *. destruct g as [|per|max|s]; cbn in Hg.
  - eexists. split; [reflexivity|]. intros c. apply solo_ok.
  - by apply team_search_ok.
  - by apply ffa_search_ok.
  - done.
Qed.
