(* ===== verification/PassFacts.v ===== *)
(** * A pass over a queue

    Each round of [create_lobby_matches] stops the pass or takes the lobbies of
    its combination out of the queue, so the pass ends and no lobby is in two
    games. In a queue of single players for a duel, a round takes the two that
    joined last. *)

From Stdlib Require Import ZArith Lia.
From stdpp Require Import prelude strings countable list gmap sorting.
From S2P Require Import Prelude RustFloat Util Snake Arena CommandQueue GameState GameSetup.
From S2P Require Import Validate Engine Actor SkinCatalog Matchmaking MatchCreation.
From S2P Require Import MatchmakingFacts RosterFacts.
Open Scope nat_scope.

(** ** Taking lobbies out *)

Lemma without_lobbies ls av :
  foldl (fun av l => without_lobby l av) av ls
  = filter (fun x => ql_lobby_code x ∉ codes ls) av.
Proof.
  revert av. induction ls as [|l ls IH]; intros av; cbn [foldl].
  - rewrite filter_everything; [done|]. apply Forall_forall. intros x _. apply not_elem_of_nil.
  - rewrite IH. unfold without_lobby. rewrite list_filter_filter. apply list_filter_iff.
    intros x. cbn. rewrite not_elem_of_cons. naive_solver.
Qed.

Definition identity (l : QueuedLobby) : string * string := (ql_lobby_code l, ql_queue_token l).

Lemma without_identities ls av :
  foldl (fun av l => without_identity l av) av ls
  = filter (fun x => identity x ∉ identity <$> ls) av.
Proof.
  revert av. induction ls as [|l ls IH]; intros av; cbn [foldl].
  - rewrite filter_everything; [done|]. apply Forall_forall. intros x _. apply not_elem_of_nil.
  - rewrite IH. unfold without_identity. rewrite list_filter_filter. apply list_filter_iff.
    intros x. rewrite fmap_cons, not_elem_of_cons.
    assert (E : identity x <> identity l <-> ql_lobby_code x <> ql_lobby_code l
                                            \/ ql_queue_token x <> ql_queue_token l).
    { unfold identity. destruct (decide (ql_lobby_code x = ql_lobby_code l)) as [E1|];
        naive_solver congruence. }
    rewrite E. tauto.
Qed.

Lemma filter_shorter {A} (P : A -> Prop) `{HP : !forall x, Decision (P x)} l x :
  x ∈ l -> ~ P x -> length (filter P l) < length l.
Proof.
  intros Hx Hn. induction l as [|y l IH]; [by apply not_elem_of_nil in Hx|].
  pose proof (length_filter P l) as Hle. destruct (decide (P y)).
  - rewrite filter_cons_True by done. cbn. apply elem_of_cons in Hx as [->|Hx]; [done|].
    specialize (IH Hx). lia.
  - rewrite filter_cons_False by done. cbn. lia.
Qed.

Lemma codes_filter (P : QueuedLobby -> Prop) `{HP : !forall x, Decision (P x)} av :
  NoDup (codes av) -> NoDup (codes (filter P av)).
Proof.
  induction av as [|x av IH]; intros Hd; [constructor|]. cbn in Hd. apply NoDup_cons in Hd as [Hx Hd].
  destruct (decide (P x)); [|rewrite filter_cons_False by done; by apply IH].
  rewrite filter_cons_True by done. cbn. constructor; [|by apply IH].
  intros (y & Ey & [_ Hy]%list_elem_of_filter)%list_elem_of_fmap. apply Hx. rewrite Ey.
  by apply list_elem_of_fmap_2.
Qed.

(** ** One round *)

Lemma combination_ok_mono l1 l2 g c : l1 ⊆ l2 -> combination_ok l1 g c -> combination_ok l2 g c.
Proof. intros Hs []. split; try done. by etrans. Qed.

Lemma priority_some i av : av <> [] -> exists l, priority_lobby i av = Some l /\ l ∈ av.
Proof.
  intros Hne. unfold priority_lobby. assert (length av <> 0) by (by destruct av).
  destruct (rd_longest_first i).
  - destruct av as [|l av]; [done|]. exists l. split; [done|left].
  - destruct (lookup_lt_is_Some_2 av (rd_random i `mod` length av)) as [l Hl].
    { by apply Nat.mod_upper_bound. }
    exists l. split; [done|]. by eapply list_elem_of_lookup_2.
Qed.

Lemma compatible_from r av now : filter_compatible_lobbies r av now ⊆ av.
Proof. intros x [_ ?]%list_elem_of_filter. done. Qed.

Section pass.
Context {HO : HashOrder} (g : GameType) (now : Z) (inputs : nat -> RoundInput).
Hypothesis supported_g : supported g.
Hypothesis no_panic : forall n c e, rd_create (inputs n) c <> Panic e.

Lemma match_round_ok n av :
  av <> [] -> NoDup (codes av) ->
  match_round g now (inputs n) av = Ok Break
  \/ exists av' made, match_round g now (inputs n) av = Ok (Continue av' made)
     /\ length av' < length av /\ av' ⊆ av /\ NoDup (codes av')
     /\ forall c, made = Some c ->
          combination_ok av g c
          /\ forall x, x ∈ av' -> ql_lobby_code x ∉ codes (mc_lobbies c).
Proof.
  intros Hne Hd. unfold match_round. destruct (priority_some (inputs n) av Hne) as (p & -> & Hp).
  set (ok := filter_compatible_lobbies p av now).
  destruct ok as [|x ok'] eqn:Eok; [by left|]. rewrite <-Eok in *.
  destruct (search_ok ok g (rd_now_ms (inputs n))) as (o & -> & Ho).
  { by apply codes_filter. } { done. }
  cbn [mbind result_bind]. destruct o as [c|]; [|by left].
  destruct (is_valid c g); [|by left]. cbn [negb].
  assert (Hc : combination_ok av g c).
  { apply (combination_ok_mono ok); [apply compatible_from|]. by apply Ho. }
  destruct (mc_lobbies c) as [|l ls] eqn:El; [by destruct (co_some _ _ _ Hc)|].
  assert (Hl : l ∈ av) by (apply (co_from _ _ _ Hc); rewrite El; left).
  destruct (rd_create (inputs n) c) as [[id|id why]|e|e] eqn:Ec; [..|by left|by apply no_panic in Ec].
  all: right; rewrite ?without_lobbies, ?without_identities; do 2 eexists; (split; [reflexivity|]).
  all: (split; [apply (filter_shorter _ _ l Hl); intros H; apply H; left|]).
  all: (split; [by intros y [_ ?]%list_elem_of_filter|]); (split; [by apply codes_filter|]).
  - intros ? [= <-]. split; [done|]. rewrite El. by intros y [? _]%list_elem_of_filter.
  - done.
Qed.

Definition games_ok (av : list QueuedLobby) (games : list MatchmakingCombination) : Prop :=
  Forall (combination_ok av g) games /\ NoDup (mjoin (codes ∘ mc_lobbies <$> games)).

Lemma games_cons av av' c games :
  av' ⊆ av -> combination_ok av g c ->
  (forall x, x ∈ av' -> ql_lobby_code x ∉ codes (mc_lobbies c)) ->
  games_ok av' games -> games_ok av (c :: games).
Proof.
  intros Hs Hc Ho [Hf Hd]. split.
  - constructor; [done|]. eapply Forall_impl; [exact Hf|]. intros c'. by apply combination_ok_mono.
  - cbn. apply NoDup_app. split; [apply (co_distinct _ _ _ Hc)|]. split; [|done].
    intros code H1 H2. apply list_elem_of_join in H2 as (cs & H2 & H3).
    apply list_elem_of_fmap in H3 as (c' & -> & Hc'). rewrite Forall_forall in Hf.
    apply list_elem_of_fmap in H2 as (x & -> & Hx).
    apply (Ho x); [|done]. by apply (co_from _ _ _ (Hf _ Hc')).
Qed.

Lemma match_rounds_ok fuel n av created :
  length av <= fuel -> NoDup (codes av) ->
  exists games, match_rounds fuel g now inputs n av created = Some (Ok (created ++ games))
    /\ games_ok av games.
Proof.
  revert n av created. induction fuel as [|fuel IH]; intros n av created Hf Hd.
  all: destruct (decide (av = [])) as [->|Hne];
    [exists []; rewrite app_nil_r; split; [done|by split; constructor]|].
  { by destruct av; [|cbn in Hf; lia]. }
  assert (E : match_rounds (S fuel) g now inputs n av created =
    match match_round g now (inputs n) av with
    | Ok Break => Some (Ok created)
    | Ok (Continue av made) =>
        match_rounds fuel g now inputs (S n) av (created ++ option_list made)
    | Err e => Some (Err e)
    | Panic e => Some (Panic e)
    end) by (by destruct av).
  rewrite E. destruct (match_round_ok n av Hne Hd) as [->|(av' & made & -> & Hlt & Hs & Hd' & Hm)].
  { exists []. rewrite app_nil_r. split; [done|]. by split; constructor. }
  destruct (IH (S n) av' (created ++ option_list made)) as (games & -> & Hg); [lia|done|].
  exists (option_list made ++ games). rewrite app_assoc. split; [done|].
  destruct made as [c|]; cbn [option_list app].
  - destruct (Hm c eq_refl) as [Hc Ho]. by eapply games_cons.
  - destruct Hg as [Hg ?]. split; [|done]. eapply Forall_impl; [exact Hg|]. intros c.
    by apply combination_ok_mono.
Qed.
End pass.

(** ** Duels between single players *)

Section duels.
Context {HO : HashOrder}.

Definition single (l : QueuedLobby) : Prop := lobby_size l = 1.

(** The search skips a lobby before it tries to seat it. *)
Lemma backtrack_last_two rest i :
  Forall single rest -> 2 <= length rest ->
  backtrack_assign rest i [] [] 1 1
  = Some ([(i + (length rest - 2), [0])], [(i + (length rest - 1), [0])]).
Proof.
  revert i. induction rest as [|l rest IH]; intros i Hs Hn; [by cbn in Hn; lia|].
  apply Forall_cons in Hs as [Hl Hs]. unfold single in Hl.
  destruct (decide (2 <= length rest)) as [H2|H2].
  - cbn [backtrack_assign Nat.eqb andb]. rewrite (IH (S i) Hs H2). cbn [length].
    replace (S i + (length rest - 2)) with (i + (S (length rest) - 2)) by lia.
    by replace (S i + (length rest - 1)) with (i + (S (length rest) - 1)) by lia.
  - destruct rest as [|l' [|]]; cbn in Hn, H2; [lia| |lia]. apply Forall_cons in Hs as [Hs _].
    unfold single in Hs. cbn. rewrite Hl, Hs. cbn.
    by rewrite Nat.add_0_r, Nat.add_1_r.
Qed.

Lemma duel_of_the_newest l1 l2 older now :
  let lobbies := older ++ [l1; l2] in
  Forall single lobbies -> NoDup (codes lobbies) ->
  exists c, find_best_lobby_combination lobbies (TeamMatch 1) now = Ok (Some c)
    /\ is_valid c (TeamMatch 1) = true /\ mc_lobbies c ≡ₚ [l1; l2].
Proof.
  intros lobbies Hs Hd.
  assert (Hlen : length lobbies = length older + 2) by (unfold lobbies; rewrite length_app; done).
  pose proof (backtrack_last_two lobbies 0 Hs ltac:(lia)) as E.
  destruct (backtrack_sound _ _ _ _ _ _ _ _ E) as (a & b & Ea & Eb & Has & Ha & Hb).
  cbn [app] in Ea, Eb. rewrite <-Ea, <-Eb in *.
  destruct (build_combination_ok lobbies 1 Hd ltac:(lia) _ _ Has Ha Hb) as (c & Ec & Hok & Hls).
  exists c. split; [|split; [apply (co_valid _ _ _ Hok)|]].
  - unfold find_best_lobby_combination. destruct lobbies as [|x lobbies'] eqn:El; [cbn in Hlen; lia|].
    rewrite <-El in *. change (Z.to_nat 1) with 1. unfold find_team_combination, find_exact_team_match.
    by rewrite E, Ec.
  - cbn [fmap list_fmap app fst] in Hls. replace (length lobbies - 2) with (length older) in Hls by lia.
    replace (length lobbies - 1) with (S (length older)) in Hls by lia. cbn [Nat.add] in Hls.
    set (ix := hash_order _) in Hls.
    assert (Hp : ix ≡ₚ [length older; S (length older)]).
    { unfold ix. rewrite hash_order_perm. apply NoDup_Permutation; [apply NoDup_remove_dups| |].
      - apply NoDup_cons. split; [|apply NoDup_singleton]. intros H%list_elem_of_singleton. lia.
      - intros y. apply elem_of_remove_dups. }
    assert (Hl1 : lobbies !! length older = Some l1)
      by (unfold lobbies; by rewrite lookup_app_r, Nat.sub_diag).
    assert (Hl2 : lobbies !! S (length older) = Some l2)
      by (unfold lobbies; rewrite lookup_app_r by lia;
          by replace (S (length older) - length older) with 1 by lia).
    assert (Hq : (fun i => lobbies !! i) <$> ix ≡ₚ [Some l1; Some l2])
      by (rewrite Hp; cbn; by rewrite Hl1, Hl2).
    assert (Em : Some <$> mc_lobbies c = (fun i => lobbies !! i) <$> ix).
    { symmetry. clear -Hls. induction Hls as [|i l ix ls Hl _ IH]; [done|]. cbn. by rewrite Hl, IH. }
    assert (Hr : default l1 <$> (Some <$> mc_lobbies c) ≡ₚ [l1; l2]) by (by rewrite Em, Hq).
    assert (Ei : default l1 <$> (Some <$> mc_lobbies c) = mc_lobbies c)
      by (clear; induction (mc_lobbies c) as [|? ? IH]; cbn; [done|by rewrite IH]).
    by rewrite Ei in Hr.
Qed.
End duels.

Lemma filter_drops {B} `{EqDecision B} (f : QueuedLobby -> B) older l1 l2 ls :
  NoDup (f <$> (older ++ [l1; l2])) -> ls ≡ₚ [l1; l2] ->
  filter (fun x => f x ∉ f <$> ls) (older ++ [l1; l2]) = older.
Proof.
  intros Hd Hp. rewrite filter_app. rewrite fmap_app in Hd. apply NoDup_app in Hd as (_ & Hd & _).
  assert (Hin : forall x, x ∈ [l1; l2] -> f x ∈ f <$> ls)
    by (intros x Hx; apply list_elem_of_fmap_2; by rewrite Hp).
  rewrite filter_everything, (list_filter_none _ [l1; l2]), app_nil_r; [done| |].
  - intros x Hx H. by apply H, Hin.
  - apply Forall_forall. intros x Hx H. apply (Hd (f x)); [by apply list_elem_of_fmap_2|].
    apply list_elem_of_fmap in H as (y & -> & Hy). apply list_elem_of_fmap_2. by rewrite <-Hp.
Qed.

Lemma identity_distinct av : NoDup (codes av) -> NoDup (identity <$> av).
Proof.
  intros Hd. apply (NoDup_fmap_1 fst). rewrite <-list_fmap_compose. exact Hd.
Qed.

Section passed_over.
Context {HO : HashOrder} (now : Z) (inputs : nat -> RoundInput) (old : QueuedLobby).
Hypothesis no_panic : forall n c e, rd_create (inputs n) c <> Panic e.

(** A queue of single players that all accept each other. *)
Record duel_queue (av : list QueuedLobby) : Prop := {
  dq_single : Forall single av;
  dq_codes : NoDup (codes av);
  dq_compatible x y : x ∈ av -> y ∈ av -> are_lobbies_compatible x y now = true
}.

Lemma duel_queue_prefix older ls : duel_queue (older ++ ls) -> duel_queue older.
Proof.
  intros [H1 H2 H3]. split.
  - by apply Forall_app in H1 as [? _].
  - unfold codes in *. rewrite fmap_app in H2. by apply NoDup_app in H2 as (? & _).
  - intros x y Hx Hy. apply H3; apply elem_of_app; by left.
Qed.

Lemma all_compatible r av :
  duel_queue av -> r ∈ av -> filter_compatible_lobbies r av now = av.
Proof.
  intros Q Hr. apply filter_everything, Forall_forall. intros x Hx.
  rewrite (dq_compatible _ Q r x Hr Hx). apply orb_true_r.
Qed.

Lemma newest_round n older l1 l2 :
  duel_queue (older ++ [l1; l2]) ->
  (match_round (TeamMatch 1) now (inputs n) (older ++ [l1; l2]) = Ok Break
   /\ exists c e, rd_create (inputs n) c = Err e)
  \/ exists made,
     match_round (TeamMatch 1) now (inputs n) (older ++ [l1; l2]) = Ok (Continue older made)
     /\ match made with
        | Some c => mc_lobbies c ≡ₚ [l1; l2]
        | None => exists c id why, rd_create (inputs n) c = Ok (MC_Conflict id why)
        end.
Proof.
  intros Q. unfold match_round.
  destruct (priority_some (inputs n) (older ++ [l1; l2])) as (p & -> & Hp); [by destruct older|].
  rewrite (all_compatible _ _ Q Hp).
  destruct (duel_of_the_newest l1 l2 older (rd_now_ms (inputs n)) (dq_single _ Q) (dq_codes _ Q))
    as (c & Ec & Hv & Hl).
  destruct (older ++ [l1; l2]) as [|x av] eqn:Eav; [by destruct older|]. rewrite <-Eav in *.
  rewrite Ec. cbn [mbind result_bind]. rewrite Hv. cbn [negb].
  destruct (rd_create (inputs n) c) as [[id|id why]|e|e] eqn:E.
  - right. exists (Some c). split; [|done]. rewrite without_lobbies. do 2 f_equal.
    unfold codes. by apply filter_drops, Hl; apply (dq_codes _ Q).
  - right. exists None. split; [|by eauto]. rewrite without_identities. do 2 f_equal.
    apply filter_drops, Hl. by apply identity_distinct, (dq_codes _ Q).
  - left. split; [done|]. by eauto.
  - by apply no_panic in E.
Qed.

Lemma alone n : single old -> match_round (TeamMatch 1) now (inputs n) [old] = Ok Break.
Proof.
  intros H. unfold match_round.
  destruct (priority_some (inputs n) [old]) as (p & -> & ->%list_elem_of_singleton); [done|].
  unfold filter_compatible_lobbies. rewrite filter_cons_True
    by (by rewrite bool_decide_true by done). rewrite filter_nil.
  unfold find_best_lobby_combination, find_team_combination, find_exact_team_match.
  change (Z.to_nat 1) with 1. unfold single in H. cbn. by rewrite H.
Qed.

Lemma oldest_is_passed_over fuel n rest created :
  duel_queue (old :: rest) -> Nat.Even (length rest) -> length rest < fuel ->
  exists games, match_rounds fuel (TeamMatch 1) now inputs n (old :: rest) created
                = Some (Ok (created ++ games))
    /\ Forall (fun c => old ∉ mc_lobbies c) games
    /\ ((forall n c, exists id, rd_create (inputs n) c = Ok (MC_Committed id)) ->
        length games * 2 = length rest).
Proof.
  revert n rest created. induction fuel as [|fuel IH]; intros n rest created Q Hev Hf; [lia|].
  cbn [match_rounds]. destruct rest as [|x rest0] eqn:Er.
  { pose proof (dq_single _ Q) as Hs. apply Forall_cons in Hs as [Hs _]. rewrite (alone n Hs).
    exists []. by rewrite app_nil_r. }
  assert (exists older l1 l2, rest = older ++ [l1; l2]) as (older & l1 & l2 & E).
  { clear -Hev Er. subst rest. destruct (exists_last (l := x :: rest0)) as (l' & l2 & E); [done|].
    rewrite E in *. rewrite length_app in Hev. cbn in Hev.
    destruct l' as [|y l'']; [by destruct Hev as [k Hk]; cbn in Hk; lia|].
    destruct (exists_last (l := y :: l'')) as (l3 & l1 & E'); [done|]. rewrite E'.
    exists l3, l1, l2. by rewrite <-app_assoc. }
  rewrite <-Er, E in *. rewrite app_comm_cons in Q |- *.
  rewrite length_app in Hev, Hf. cbn [length] in Hev, Hf.
  assert (Hd : old ∉ [l1; l2]).
  { pose proof (dq_codes _ Q) as Hd. unfold codes in Hd. rewrite fmap_app in Hd.
    apply NoDup_app in Hd as (_ & Hd & _). intros H. apply (Hd (ql_lobby_code old)); [left|].
    by apply list_elem_of_fmap_2. }
  destruct (newest_round n _ _ _ Q) as [[-> (c & e & Ec)]|(made & -> & Hm)].
  { exists []. rewrite app_nil_r. split; [done|]. split; [constructor|]. intros Hc.
    exfalso. destruct (Hc n c) as [id Hid]. congruence. }
  destruct (IH (S n) older (created ++ option_list made)) as (games & -> & Hg & Hl).
  { by eapply duel_queue_prefix. } { destruct Hev as [k Hk]. exists (k - 1). lia. } { lia. }
  exists (option_list made ++ games). rewrite app_assoc. split; [done|]. split.
  - apply Forall_app. split; [|done]. destruct made as [c|]; cbn; [|constructor].
    constructor; [|constructor]. by rewrite Hm.
  - intros Hc. rewrite !length_app. specialize (Hl Hc). destruct made as [c|]; cbn; [lia|].
    destruct Hm as (c & id & why & Hm). destruct (Hc n c) as [id' Hid]. congruence.
Qed.
End passed_over.
