(* ===== verification/MatchCreationFacts.v ===== *)
(** * Facts about the preparation of a match

    The state [build_match_game_state] returns is the start of a match, and
    seating a roster keeps it one: every player gets a snake of the right team,
    in order, and every spectator is registered. *)

From Stdlib Require Import ZArith Lia.
From stdpp Require Import prelude strings countable list gmap sorting.
From S2P Require Import Prelude RustFloat Util Snake Arena CommandQueue GameState GameSetup.
From S2P Require Import Events Validate MeterInvariant StateInvariant TickInvariant Validity.
From S2P Require Import MatchLife Engine Actor SkinCatalog Matchmaking MatchCreation.
From S2P Require Import MatchmakingFacts RosterFacts.
Open Scope Z_scope.

(** ** The empty match *)

Record fresh (g : GameType) (st : GameState) : Prop := {
  fr_life : life_ok st;
  fr_readiness : gs_readiness st = None;
  fr_running : gs_completed_by_inactivity st = false;
  fr_tick : gs_tick st = 0;
  fr_type : gs_game_type st = g;
  fr_players : gs_players st = ∅;
  fr_snakes : gs_snakes st = [];
  fr_spectators : gs_spectators st = ∅
}.

(** What the types of the configuration guarantee. *)
Definition config_typed (b : BoostConfig) (i : PlayerIdleConfig) : Prop :=
  0 <= bc_capacity_ms b /\ 0 <= bc_pad_respawn_ms b /\ 0 <= bc_packet_charge_ms b
  /\ 0 <= ic_kick_countdown_ms i.

Lemma valid_life st : valid st -> wf_state st -> life_ok st.
Proof.
  intros Hv Hw. destruct (proj1 (valid_wf_iff st) (conj Hv Hw)) as (? & ? & ?).
  split; [done|]. split; [done|]. by eauto.
Qed.

(** A new state with its idle policy, and in a Boost mode its configuration and
    pads. *)
Definition configured (w h : Z) (g : GameType) (q : QueueMode) (seed : option Z) (ms : Z)
    (boost : option BoostConfig) (idle : PlayerIdleConfig) : GameState :=
  let st := new_game_state w h g q seed ms in
  let pr := gs_properties st in
  let st := match boost with
            | Some c => with_pads (boost_pad_layout (gs_arena st) c)
                          (with_properties {| pr with pr_boost := Some c |} st)
            | None => st
            end in
  let pr := gs_properties st in
  with_properties {| pr with player_idle_timeout_ms := total_timeout_ms idle;
                             player_idle_warning_ms := ic_kick_countdown_ms idle |} st.

Lemma configured_fields w h g q seed ms boost idle :
  let st := configured w h g q seed ms boost idle in
  gs_snakes st = [] /\ gs_players st = ∅ /\ gs_tick st = 0 /\ gs_game_type st = g
  /\ gs_spectators st = ∅ /\ gs_completed_by_inactivity st = false /\ gs_readiness st = None.
Proof.
  unfold configured, new_game_state. cbv zeta.
  destruct boost; destruct (boost_config_for g w h); destruct g; cbn; split_and!; done.
Qed.

Lemma configured_wf w h g q seed ms boost bc idle :
  creatable w h g -> config_typed bc idle ->
  boost = (fun mode => mode_config mode bc) <$> boost_config_for g w h ->
  wf_state (configured w h g q seed ms boost idle).
Proof.
  intros Hc (H1 & H2 & H3 & H4) Hb.
  pose proof (new_wf w h g q seed ms Hc) as [W1 W2 W3 W4 W5 W6 W7 W8 W9 W10].
  destruct (new_fields w h g q seed ms) as (Es & Ew & Eh & Eb & Ep & Eg & Epad & Epad0).
  destruct (boost_config_for g w h) as [mode|] eqn:Em; subst boost.
  - split; try done.
    + intros c [= <-]. done.
    + cbn. by apply layout_charges.
  - by split.
Qed.

Lemma build_match_inv w h g q seed ms bc idle st :
  build_match_game_state w h g q seed ms bc idle = Ok st ->
  st = configured w h g q seed ms ((fun mode => mode_config mode bc) <$> boost_config_for g w h) idle
  /\ valid st.
Proof.
  unfold build_match_game_state.
  assert (Hn : forall s, GameState_new w h g q seed ms = Ok s -> s = new_game_state w h g q seed ms).
  { intros s. unfold GameState_new. destruct (validate_boost_invariants _); congruence. }
  destruct (boost_config_for g w h) as [mode|] eqn:Em; cbn [fmap option_fmap option_map].
  - unfold GameState_new_with_boost_config. intros E.
    destruct (BoostConfig_validate _) as [?|?|?]; [|done..]. cbn [mbind result_bind] in E.
    destruct (ensure _ _) as [?|?|?]; [|done..]. cbn [mbind result_bind] in E.
    destruct (GameState_new _ _ _ _ _ _) as [s|?|?] eqn:Es; [|done..]. cbn [mbind result_bind] in E.
    specialize (Hn s eq_refl) as ->. destruct (validate_boost_invariants _) as [?|?|?]; [|done..].
    cbn [mbind result_bind] in E.
    destruct (validate_boost_invariants _) as [[]|?|?] eqn:Ev in E; [|done..].
    cbn [mbind result_bind] in E. injection E as <-. split; [done|exact Ev].
  - destruct (GameState_new _ _ _ _ _ _) as [s|?|?] eqn:Es; [|done..]. cbn [mbind result_bind].
    specialize (Hn s eq_refl) as ->. destruct (validate_boost_invariants _) as [[]|?|?] eqn:Ev; [|done..].
    cbn [mbind result_bind]. intros [= <-]. split; [done|exact Ev].
Qed.

Lemma built_fresh w h g q seed ms bc idle st :
  creatable w h g -> config_typed bc idle ->
  build_match_game_state w h g q seed ms bc idle = Ok st -> fresh g st.
Proof.
  intros Hc Ht E. destruct (build_match_inv _ _ _ _ _ _ _ _ _ E) as [-> Hv].
  destruct (configured_fields w h g q seed ms
              ((fun mode => mode_config mode bc) <$> boost_config_for g w h) idle)
    as (? & ? & ? & ? & ? & ? & ?).
  split; try done. apply valid_life; [done|]. by eapply configured_wf.
Qed.

(** ** The seed *)

(** The seed and the start of a match do not decide whether its configuration is
    accepted. *)
Lemma bind_ext {A B} (r : Result A) (f k : A -> Result B) :
  (forall a, f a = k a) -> (r ≫= f) = (r ≫= k).
Proof. intros E. destruct r; cbn; auto. Qed.

Section seed.
Variables (st : GameState) (r : option PseudoRandom) (ms : Z).
Let st' := {| st with gs_rng := r; gs_start_ms := ms |}.

Lemma cells_seed l rt cells seen : check_cells st' l rt cells seen = check_cells st l rt cells seen.
Proof. revert seen. induction cells as [|x xs IH]; intros seen; cbn [check_cells]; [done|].
  repeat (apply bind_ext; intros _). apply IH. Qed.

Lemma pads_seed c l rt pads ids seen :
  check_pads st' c l rt pads ids seen = check_pads st c l rt pads ids seen.
Proof.
  revert ids seen. induction pads as [|x xs IH]; intros ids seen; cbn [check_pads]; [done|].
  do 3 (apply bind_ext; intros _). rewrite cells_seed. apply bind_ext. intros s.
  apply bind_ext. intros _. apply IH.
Qed.

Lemma validate_seed : validate_boost_invariants st' = validate_boost_invariants st.
Proof.
  unfold validate_boost_invariants. 
  change (gs_boost st') with (gs_boost st).
  assert (E : forall e c, check_boost_config st' e c = check_boost_config st e c).
  { intros e c. unfold check_boost_config. do 7 (apply bind_ext; intros _).
    apply bind_ext. intros [l rt]. by rewrite pads_seed. }
  do 5 (apply bind_ext; intros _). destruct (gs_boost st); [rewrite E|]; reflexivity.
Qed.
End seed.

Lemma new_ok w h g q seed ms : GameState_new w h g q seed ms = Ok (new_game_state w h g q seed ms).
Proof. unfold GameState_new. pose proof (new_valid w h g q seed ms) as H. unfold valid in H. by rewrite H. Qed.

Lemma build_seed w h g q seed ms bc idle st seed' ms' :
  build_match_game_state w h g q seed ms bc idle = Ok st ->
  exists st', build_match_game_state w h g q seed' ms' bc idle = Ok st'.
Proof.
  intros E. destruct (build_match_inv _ _ _ _ _ _ _ _ _ E) as [_ Hv]. revert E Hv.
  unfold build_match_game_state, GameState_new_with_boost_config, valid. rewrite !new_ok.
  set (n := new_game_state w h g q seed ms).
  replace (new_game_state w h g q seed' ms')
    with {| n with gs_rng := PseudoRandom_new <$> seed'; gs_start_ms := ms' |}
    by (by unfold n, new_game_state; destruct g).
  destruct (boost_config_for g w h) as [mode|]; cbn [mbind result_bind]; cbv zeta.
  - destruct (BoostConfig_validate _) as [?|?|?]; [|done..]. cbn [mbind result_bind].
    destruct (ensure _ _) as [?|?|?]; [|done..]. cbn [mbind result_bind].
    set (pre0 := with_pads _ _). set (pre1 := with_pads _ (with_properties _ {| n with gs_rng := _; gs_start_ms := _ |})).
    change pre1 with {| pre0 with gs_rng := PseudoRandom_new <$> seed'; gs_start_ms := ms' |}.
    rewrite validate_seed. destruct (validate_boost_invariants pre0); [|done..]. cbn [mbind result_bind].
    set (full := with_properties _ pre0). intros E _.
    change (with_properties _ {| pre0 with gs_rng := _; gs_start_ms := _ |})
      with {| full with gs_rng := PseudoRandom_new <$> seed'; gs_start_ms := ms' |}.
    rewrite validate_seed. destruct (validate_boost_invariants full); [|done..]. by eexists.
  - set (full := with_properties _ n). intros E _.
    change (with_properties _ {| n with gs_rng := _; gs_start_ms := _ |})
      with {| full with gs_rng := PseudoRandom_new <$> seed'; gs_start_ms := ms' |}.
    rewrite validate_seed. destruct (validate_boost_invariants full); [|done..]. by eexists.
Qed.

(** ** Frames *)

Lemma life_frame st st' :
  life_ok st -> gs_snakes st' = gs_snakes st ->
  gs_completed_by_inactivity st' = gs_completed_by_inactivity st ->
  (forall K t T kl, ok K t T kl st -> ok K t T kl st') -> life_ok st'.
Proof.
  intros (Hs & HK & T & Ho & HT) Es Ec Hok.
  eapply life_intro; [exact Hs|exact HK| |rewrite Ec; exact HT].
  by apply (okx_frame _ _ _ (fun _ => st') st); [|done|auto].
Qed.

Lemma life_skin st u r : life_ok st -> life_ok (set_player_skin st u r).
Proof.
  intros H. apply (life_frame st); [done|by destruct r..|]. intros K t T kl Hk.
  destruct r; ok_frame Hk.
Qed.

Lemma life_base st t r : life_ok st -> life_ok (set_team_base st t r).
Proof.
  intros H. apply (life_frame st); [done|by destruct r..|]. intros K t' T kl Hk.
  destruct r; ok_frame Hk.
Qed.

Lemma life_stress st b : life_ok st -> life_ok {| st with gs_is_stress_test := b |}.
Proof. intros H. apply (life_frame st); [done..|]. intros K t T kl Hk. ok_frame Hk. Qed.

(** ** One player *)

Lemma starting_positions_teams st n :
  sn_team_id <$> gs_snakes (apply_starting_positions st n) = sn_team_id <$> gs_snakes st.
Proof.
  unfold apply_starting_positions. cbn. rewrite <-list_fmap_compose. unfold iter_snakes.
  rewrite <-(enumerate_snd (gs_snakes st)) at 2. rewrite <-list_fmap_compose.
  apply list_fmap_ext. intros k [i s] _. cbn. by destruct (vec_get _ i) as [[? ?]|].
Qed.

Lemma join_spec st u name team g :
  gs_players st !! u = None -> gs_tick st = 0 -> vec_len (gs_snakes st) < u32_max ->
  gs_game_type st = g ->
  exists st', add_player_with_team st u (Some name) team
              = (Ok (mkPlayer u (vec_len (gs_snakes st))), st')
    /\ gs_players st' = <[u := mkPlayer u (vec_len (gs_snakes st))]> (gs_players st)
    /\ gs_tick st' = 0 /\ gs_game_type st' = g /\ gs_spectators st' = gs_spectators st
    /\ gs_is_stress_test st' = gs_is_stress_test st /\ gs_readiness st' = gs_readiness st
    /\ sn_team_id <$> gs_snakes st'
       = (sn_team_id <$> gs_snakes st)
           ++ [if is_team_match g
               then Some (default (Z.of_nat (size (gs_players st)) mod 2) team) else None].
Proof.
  intros Hu Ht Hl Hg. unfold add_player_with_team.
  rewrite bool_decide_false by (by rewrite Hu; intros []). rewrite Ht. cbn [Z.eqb negb].
  unfold add_snake. cbn [gs_arena with_usernames].
  change (snakes (gs_arena st)) with (gs_snakes st).
  rewrite (proj2 (Z.leb_gt _ _)) by lia. eexists. split; [reflexivity|].
  do 6 (split; [done|]). rewrite starting_positions_teams. cbn. rewrite fmap_app. cbn. rewrite Hg.
  f_equal. f_equal. destruct (is_team_match g); [|done]. by destruct team.
Qed.

Section roster.
Context {FL : F32Libm} {HO : HashOrder} {DB : SkinDb} {PD : PlayerDb}.
Variables (c : MatchmakingCombination) (g : GameType) (stress : bool).

(** The seats are the users and teams in the order of the snakes. *)
Record roster_ok (seats : list (Z * option TeamId)) (watch : list Z) (ro : Roster) : Prop := {
  ri_life : life_ok (ro_state ro);
  ri_stress : gs_is_stress_test (ro_state ro) = stress;
  ri_readiness : gs_readiness (ro_state ro) = None;
  ri_running : gs_completed_by_inactivity (ro_state ro) = false;
  ri_tick : gs_tick (ro_state ro) = 0;
  ri_type : gs_game_type (ro_state ro) = g;
  ri_users : qp_user_id <$> ro_players ro = seats.*1;
  ri_distinct : NoDup (seats.*1);
  ri_teams : sn_team_id <$> gs_snakes (ro_state ro) = seats.*2;
  ri_players u p : gs_players (ro_state ro) !! u = Some p <->
    exists k, seats.*1 !! k = Some u /\ p = mkPlayer u (Z.of_nat k);
  ri_watchers : qp_user_id <$> ro_spectators ro = watch;
  ri_spectators : gs_spectators (ro_state ro) = list_to_set watch
}.

Definition team_of (team : option TeamId) : option TeamId :=
  if is_team_match g then team else None.

Lemma lookup_snoc_iff {A} (l : list A) x k y :
  (l ++ [x]) !! k = Some y <-> l !! k = Some y \/ (k = length l /\ x = y).
Proof.
  rewrite lookup_app_Some. split; intros [H|[H1 H2]]; [by left| |by left|right].
  - apply list_lookup_singleton_Some in H2 as [H2 <-]. right. split; [lia|done].
  - subst. split; [done|]. by rewrite Nat.sub_diag.
Qed.

Lemma seats_length seats watch ro :
  roster_ok seats watch ro -> vec_len (gs_snakes (ro_state ro)) = Z.of_nat (length seats).
Proof.
  intros R. unfold vec_len. f_equal. pose proof (ri_teams _ _ _ R) as E.
  apply (f_equal length) in E. by rewrite !length_fmap in E.
Qed.

Lemma players_snoc seats watch ro u :
  roster_ok seats watch ro -> u ∉ seats.*1 ->
  forall v p, <[u := mkPlayer u (Z.of_nat (length seats))]> (gs_players (ro_state ro)) !! v = Some p
  <-> exists k, (seats.*1 ++ [u]) !! k = Some v /\ p = mkPlayer v (Z.of_nat k).
Proof.
  intros R Hu v p. split.
  - destruct (decide (v = u)) as [->|Hne].
    + rewrite lookup_insert_eq. intros [= <-]. exists (length seats). split; [|done].
      apply lookup_snoc_iff. right. by rewrite length_fmap.
    + rewrite lookup_insert_ne by done. intros (k & Hk & ->)%(ri_players _ _ _ R).
      exists k. split; [|done]. apply lookup_snoc_iff. by left.
  - intros (k & [Hk|[-> <-]]%lookup_snoc_iff & ->).
    + rewrite lookup_insert_ne by (intros <-; apply Hu; by eapply list_elem_of_lookup_2).
      apply (ri_players _ _ _ R). by eauto.
    + by rewrite lookup_insert_eq, length_fmap.
Qed.

Lemma seat_player_ok seats watch ro l m team :
  roster_ok seats watch ro -> lm_user_id m ∉ seats.*1 -> Z.of_nat (length seats) < u32_max ->
  (is_team_match g = true -> is_Some team) ->
  exists ro', seat_player c ro l m team = Ok ro'
    /\ roster_ok (seats ++ [(lm_user_id m, team_of team)]) watch ro'.
Proof.
  intros R Hu Hl Ht. pose proof (seats_length _ _ _ R) as El.
  assert (Hn : gs_players (ro_state ro) !! lm_user_id m = None).
  { apply eq_None_not_Some. intros [p (k & Hk & _)%(ri_players _ _ _ R)]. apply Hu.
    by eapply list_elem_of_lookup_2. }
  destruct (join_spec (ro_state ro) (lm_user_id m) (lm_username m) team g Hn
              (ri_tick _ _ _ R) ltac:(lia) (ri_type _ _ _ R))
    as (st' & E & Ep & Et & Eg & Esp & Est & Erd & Etm).
  unfold seat_player. rewrite E. eexists. split; [reflexivity|].
  assert (Hlife : life_ok st').
  { eapply life_step; [eapply step_join, E|]. apply (ri_life _ _ _ R). }
  rewrite El in Ep. split; cbn [ro_state ro_players ro_spectators]; rewrite ?fmap_app.
  - by apply life_skin.
  - rewrite <-(ri_stress _ _ _ R). exact Est.
  - rewrite <-(ri_readiness _ _ _ R). exact Erd.
  - rewrite <-(ri_running _ _ _ R). by apply (join_marker _ _ _ _ _ _ E).
  - done.
  - done.
  - cbn. by rewrite (ri_users _ _ _ R).
  - cbn. apply NoDup_app. split; [apply (ri_distinct _ _ _ R)|]. split; [|apply NoDup_singleton].
    intros x Hx ->%list_elem_of_singleton. done.
  - transitivity (sn_team_id <$> gs_snakes st'); [done|].
    rewrite Etm, (ri_teams _ _ _ R). cbn [fmap list_fmap snd]. f_equal. f_equal. unfold team_of.
    destruct (is_team_match g); [|done]. by destruct (Ht eq_refl) as [t ->].
  - cbn [gs_players set_player_skin with_skins]. rewrite Ep. apply (players_snoc _ _ _ _ R Hu).
  - apply (ri_watchers _ _ _ R).
  - cbn. rewrite Esp. apply (ri_spectators _ _ _ R).
Qed.

Lemma spectate_ok seats watch ro m :
  roster_ok seats watch ro ->
  roster_ok seats (watch ++ [lm_user_id m]) (spectate c ro m).
Proof.
  intros [R1 Ra Rb R0 R2 R3 R4 R5 R6 R7 R8 R9].
  split; cbn [ro_state ro_players ro_spectators spectate]; try done.
  - eapply life_step; [apply step_spectate|done].
  - by rewrite fmap_app, R8.
  - cbn. rewrite R9, list_to_set_app_L. cbn. set_solver.
Qed.

Lemma spectate_all_ok seats watch ro ms :
  roster_ok seats watch ro ->
  roster_ok seats (watch ++ (lm_user_id <$> ms)) (foldl (spectate c) ro ms).
Proof.
  revert watch ro. induction ms as [|m ms IH]; intros watch ro R; cbn; [by rewrite app_nil_r|].
  rewrite (cons_middle (lm_user_id m)), app_assoc. by apply IH, spectate_ok.
Qed.

(** ** Seating the teams *)

Definition users (l : QueuedLobby) (ix : list nat) : list Z :=
  omap (fun i => lm_user_id <$> ql_members l !! i) ix.

Definition seats_of (l : QueuedLobby) (ix : list nat) (team : option TeamId)
  : list (Z * option TeamId) :=
  (fun u => (u, team_of team)) <$> users l ix.

Lemma seats_of_users l ix team : (seats_of l ix team).*1 = users l ix.
Proof. unfold seats_of. rewrite <-list_fmap_compose. apply list_fmap_id. Qed.

(** Room for more players: they are new, and the snakes can still be numbered. *)
Definition room (seats new : list (Z * option TeamId)) : Prop :=
  NoDup ((seats ++ new).*1) /\ Z.of_nat (length (seats ++ new)) <= u32_max.

Lemma room_split seats a b : room seats (a ++ b) -> room seats a /\ room (seats ++ a) b.
Proof.
  unfold room. rewrite app_assoc. intros [Hd Hl]. split; [|done].
  rewrite fmap_app in Hd. rewrite length_app in Hl.
  apply NoDup_app in Hd as (? & _ & _). split; [done|lia].
Qed.

Lemma seat_in_room seats watch ro l m team :
  roster_ok seats watch ro -> room seats [(lm_user_id m, team_of team)] ->
  (is_team_match g = true -> is_Some team) ->
  exists ro', seat_player c ro l m team = Ok ro'
    /\ roster_ok (seats ++ [(lm_user_id m, team_of team)]) watch ro'.
Proof.
  intros R [Hd Hl] Ht. apply seat_player_ok; [done| | |done].
  - rewrite fmap_app in Hd. apply NoDup_app in Hd as (_ & Hd & _). intros Hx. apply (Hd _ Hx).
    cbn. left.
  - rewrite length_app in Hl. cbn in Hl. lia.
Qed.

Lemma seat_indices_ok seats watch ro l ix t :
  roster_ok seats watch ro -> room seats (seats_of l ix (Some t)) ->
  exists ro', seat_indices c ro l ix t = Ok ro'
    /\ roster_ok (seats ++ seats_of l ix (Some t)) watch ro'.
Proof.
  revert seats ro. induction ix as [|i ix IH]; intros seats ro R Hr; cbn [seat_indices].
  { exists ro. by rewrite app_nil_r. }
  unfold seats_of, users in *. cbn [omap list_omap] in *.
  destruct (ql_members l !! i) as [m|]; cbn [fmap option_fmap option_map list_fmap] in *.
  - apply (room_split _ [_]) in Hr as [H1 H2].
    destruct (seat_in_room _ _ _ l m (Some t) R H1) as (ro' & -> & R'); [by eexists|].
    cbn [mbind result_bind]. rewrite (cons_middle _ seats), app_assoc. by apply IH.
  - cbn [mbind result_bind]. by apply IH.
Qed.

(** The seats of an assignment: its lobby is the one with its code. *)
Definition assigned_seats (a : TeamAssignment) : list (Z * option TeamId) :=
  match find_first (fun l => bool_decide (ql_lobby_code l = ta_lobby_code a)) (mc_lobbies c) with
  | Some l => seats_of l (ta_member_indices a) (Some (ta_team_id a))
  | None => []
  end.

Lemma seat_teams_ok seats watch ro ts :
  Forall (fun a => ta_lobby_code a ∈ codes (mc_lobbies c)) ts ->
  roster_ok seats watch ro -> room seats (concat (assigned_seats <$> ts)) ->
  exists ro', seat_teams c ro ts = Ok ro'
    /\ roster_ok (seats ++ concat (assigned_seats <$> ts)) watch ro'.
Proof.
  intros Hf. revert seats ro. induction Hf as [|a ts Ha _ IH]; intros seats ro R Hr; cbn [seat_teams].
  { exists ro. by rewrite app_nil_r. }
  cbn [fmap list_fmap concat] in *. apply room_split in Hr as [H1 H2].
  apply list_elem_of_fmap in Ha as (l & El & Hl). unfold assigned_seats at 1 in H1.
  unfold assigned_seats at 1 in H2. unfold assigned_seats at 1.
  destruct (find_first_is_Some (fun l => bool_decide (ql_lobby_code l = ta_lobby_code a))
              _ l Hl) as [x Ex]; [by apply bool_decide_eq_true|].
  rewrite Ex in *. cbn [context mbind result_bind].
  destruct (seat_indices_ok _ _ _ x (ta_member_indices a) (ta_team_id a) R H1) as (ro1 & -> & R1).
  cbn [mbind result_bind]. rewrite app_assoc. by apply IH.
Qed.

(** ** Seating lobbies without teams *)

Hypothesis entries : NoDup ((mc_spectators c).*1).

Lemma select_rev {A} (P : A -> Prop) `{!forall x, Decision (P x)} l :
  filter P (rev l) = rev (filter P l).
Proof.
  induction l as [|x l IH]; [done|]. cbn [rev]. rewrite filter_app, IH.
  destruct (decide (P x)).
  - by rewrite !filter_cons_True by done.
  - rewrite !filter_cons_False by done. by rewrite app_nil_r.
Qed.

Lemma watching_entry code s :
  (code, s) ∈ mc_spectators c ->
  filter (fun e => e.1 = code) (mc_spectators c) = [(code, s)].
Proof.
  revert entries. induction (mc_spectators c) as [|[k t] es IH]; intros Hd Hin.
  { by apply not_elem_of_nil in Hin. }
  cbn in Hd. apply NoDup_cons in Hd as [Hn Hd]. apply elem_of_cons in Hin as [E|Hin].
  - simplify_eq. rewrite filter_cons_True by done. rewrite list_filter_none; [done|].
    intros [k' t'] Hx E. cbn in E. subst. apply Hn. by apply (list_elem_of_fmap_2 fst _ _ Hx).
  - rewrite filter_cons_False; [by apply IH|]. cbn. intros ->. apply Hn.
    apply (list_elem_of_fmap_2 fst _ _ Hin).
Qed.

Lemma spectator_set_spec code : default [] (spectator_set c code) = remove_dups (watching c code).
Proof.
  unfold spectator_set, watching.
  destruct (decide (code ∈ (mc_spectators c).*1)) as [Hin|Hn].
  - apply list_elem_of_fmap in Hin as ([k s] & -> & Hin). cbn [fst].
    rewrite select_rev, (watching_entry _ _ Hin). cbn. by rewrite app_nil_r.
  - assert (E : filter (fun e => e.1 = code) (mc_spectators c) = []).
    { apply list_filter_none. intros e He <-. apply Hn. by apply list_elem_of_fmap_2. }
    by rewrite select_rev, E.
Qed.

(** The members from index [k] on who play, and those who watch. *)
Definition players_from (l : QueuedLobby) (k n : nat) : list nat :=
  filter (fun i => i ∉ watching c (ql_lobby_code l)) (seq k n).

Definition watchers_from (l : QueuedLobby) (k n : nat) : list nat :=
  filter (fun i => i ∈ watching c (ql_lobby_code l)) (seq k n).

Lemma seat_lobby_ok seats watch ro l ms k :
  is_team_match g = false -> drop k (ql_members l) = ms -> roster_ok seats watch ro ->
  room seats (seats_of l (players_from l k (length ms)) None) ->
  exists ro', seat_lobby c ro l ms k = Ok ro'
    /\ roster_ok (seats ++ seats_of l (players_from l k (length ms)) None)
                 (watch ++ users l (watchers_from l k (length ms))) ro'.
Proof.
  intros Hg. revert seats watch ro k.
  induction ms as [|m ms IH]; intros seats watch ro k Hk R Hr; cbn [seat_lobby].
  { exists ro. by rewrite !app_nil_r. }
  assert (Hm : ql_members l !! k = Some m).
  { rewrite <-(Nat.add_0_r k), <-lookup_drop, Hk. done. }
  assert (Hk' : drop (S k) (ql_members l) = ms).
  { replace (S k) with (k + 1)%nat by lia. by rewrite <-drop_drop, Hk. }
  unfold players_from, watchers_from, seats_of, users in *. cbn [length seq] in *.
  rewrite spectator_set_spec.
  destruct (decide (k ∈ watching c (ql_lobby_code l))) as [Hw|Hw].
  - rewrite filter_cons_False in Hr |- * by tauto. rewrite filter_cons_True by done.
    rewrite bool_decide_true by (by apply elem_of_remove_dups). cbn [mbind result_bind].
    cbn [omap list_omap]. rewrite Hm. cbn [fmap option_fmap option_map].
    rewrite (cons_middle _ watch), app_assoc. apply IH; [done|by apply spectate_ok|done].
  - rewrite filter_cons_True in Hr |- * by done. rewrite filter_cons_False by done.
    rewrite bool_decide_false by (by rewrite elem_of_remove_dups).
    cbn [omap list_omap] in *. rewrite Hm in *. cbn [fmap option_fmap option_map list_fmap] in *.
    apply (room_split _ [_]) in Hr as [H1 H2].
    destruct (seat_in_room _ _ _ l m None R H1) as (ro' & -> & R'); [by rewrite Hg|].
    cbn [mbind result_bind]. rewrite (cons_middle _ seats), app_assoc. by apply IH.
Qed.

Lemma seat_lobbies_ok seats watch ro ls :
  is_team_match g = false -> roster_ok seats watch ro ->
  room seats (concat ((fun l => seats_of l (players_from l 0 (lobby_size l)) None) <$> ls)) ->
  exists ro', seat_lobbies c ro ls = Ok ro'
    /\ roster_ok
         (seats ++ concat ((fun l => seats_of l (players_from l 0 (lobby_size l)) None) <$> ls))
         (watch ++ concat ((fun l => users l (watchers_from l 0 (lobby_size l))) <$> ls)) ro'.
Proof.
  intros Hg. revert seats watch ro.
  induction ls as [|l ls IH]; intros seats watch ro R Hr; cbn [seat_lobbies].
  { exists ro. by rewrite !app_nil_r. }
  cbn [fmap list_fmap concat] in *. apply room_split in Hr as [H1 H2].
  destruct (seat_lobby_ok _ _ _ l (ql_members l) 0 Hg eq_refl R H1) as (ro1 & -> & R1).
  cbn [mbind result_bind]. rewrite !app_assoc. by apply IH.
Qed.

(** ** Spectators of a team match *)

Lemma team_spectators_ok seats watch ro l :
  roster_ok seats watch ro ->
  exists ix, ix ≡ₚ remove_dups (watching c (ql_lobby_code l))
    /\ roster_ok seats (watch ++ users l ix) (team_spectators c ro l).
Proof.
  intros R. unfold team_spectators. pose proof (spectator_set_spec (ql_lobby_code l)) as E.
  destruct (spectator_set c (ql_lobby_code l)) as [s|]; cbn in E; rewrite <-E.
  - exists (hash_order s). split; [apply hash_order_perm|].
    replace (users l (hash_order s))
      with (lm_user_id <$> omap (fun i => ql_members l !! i) (hash_order s)).
    { by apply spectate_all_ok. }
    unfold users. induction (hash_order s) as [|i ix IH]; [done|]. cbn.
    destruct (ql_members l !! i); cbn; by rewrite IH.
  - exists []. split; [done|]. cbn. by rewrite app_nil_r.
Qed.

#[export] Instance users_proper l : Proper (Permutation ==> Permutation) (users l).
Proof. intros a b H. unfold users. by rewrite H. Qed.

Lemma all_spectators_ok seats watch ro ls :
  roster_ok seats watch ro ->
  exists more, more ≡ₚ concat ((fun l => users l (remove_dups (watching c (ql_lobby_code l)))) <$> ls)
    /\ roster_ok seats (watch ++ more) (foldl (team_spectators c) ro ls).
Proof.
  revert watch ro. induction ls as [|l ls IH]; intros watch ro R; cbn [foldl].
  { exists []. by rewrite app_nil_r. }
  destruct (team_spectators_ok _ _ _ l R) as (ix & Hix & R1).
  destruct (IH _ _ R1) as (more & Hm & R2). exists (users l ix ++ more).
  rewrite app_assoc. split; [|done]. cbn. by rewrite Hix, Hm.
Qed.

(** ** Dressing the bases *)

Lemma dress_frame claims st :
  life_ok st ->
  let st' := dress_bases claims st in
  life_ok st' /\ gs_tick st' = gs_tick st /\ gs_game_type st' = gs_game_type st
  /\ gs_snakes st' = gs_snakes st /\ gs_players st' = gs_players st
  /\ gs_spectators st' = gs_spectators st
  /\ gs_completed_by_inactivity st' = gs_completed_by_inactivity st
  /\ gs_is_stress_test st' = gs_is_stress_test st /\ gs_readiness st' = gs_readiness st.
Proof.
  intros H. unfold dress_bases.
  apply (map_fold_weak_ind (fun st' _ => life_ok st' /\ gs_tick st' = gs_tick st
    /\ gs_game_type st' = gs_game_type st /\ gs_snakes st' = gs_snakes st
    /\ gs_players st' = gs_players st /\ gs_spectators st' = gs_spectators st
    /\ gs_completed_by_inactivity st' = gs_completed_by_inactivity st
    /\ gs_is_stress_test st' = gs_is_stress_test st /\ gs_readiness st' = gs_readiness st)); [done|].
  intros t cs m st' _ (H1 & H2 & H3 & H4 & H5 & H6 & H7 & H8 & H9).
  split; [by apply life_base|]. by destruct (resolve_team_base cs).
Qed.

Lemma dress_ok seats watch ro :
  roster_ok seats watch ro ->
  roster_ok seats watch (mkRoster (dress_bases (ro_claims ro) (ro_state ro)) (ro_players ro)
                           (ro_spectators ro) (ro_claims ro)).
Proof.
  intros [R1 Ra Rb R0 R2 R3 R4 R5 R6 R7 R8 R9].
  destruct (dress_frame (ro_claims ro) (ro_state ro) R1) as (D1 & D2 & D3 & D4 & D5 & D6 & D7 & D8 & D9).
  split; cbn [ro_state ro_players ro_spectators]; try done.
  - by rewrite D8. - by rewrite D9. - by rewrite D7. - by rewrite D2. - by rewrite D3. - by rewrite D4. - by rewrite D5. - by rewrite D6.
Qed.
End roster.
