(* ===== verification/MatchReadyFacts.v ===== *)
(** * A prepared match holds the roster of its combination

    The users of a combination, grouped by assignment as the preparation seats
    them and by lobby as the search accounts for them; and what
    [fill_roster] and [prepare_game_from_lobbies] return on a combination of the
    search. *)

From Stdlib Require Import ZArith Lia.
From stdpp Require Import prelude strings countable list gmap sorting.
From S2P Require Import Prelude RustFloat Util Snake Arena CommandQueue GameState GameSetup.
From S2P Require Import Events Validate MeterInvariant StateInvariant TickInvariant Validity.
From S2P Require Import MatchLife Engine Actor SkinCatalog Matchmaking MatchCreation.
From S2P Require Import MatchmakingFacts RosterFacts MatchCreationFacts.
Open Scope Z_scope.

(** ** The users of a combination *)

Definition all_users (ls : list QueuedLobby) : list Z :=
  concat ((fun l => lm_user_id <$> ql_members l) <$> ls).

Definition at_play (c : MatchmakingCombination) : list Z :=
  concat ((fun l => users l (playing c l)) <$> mc_lobbies c).

Definition at_watch (c : MatchmakingCombination) : list Z :=
  concat ((fun l => users l (watching c (ql_lobby_code l))) <$> mc_lobbies c).

Lemma users_app l a b : users l (a ++ b) = users l a ++ users l b.
Proof. apply omap_app. Qed.

Lemma users_all l : users l (seq 0 (lobby_size l)) = lm_user_id <$> ql_members l.
Proof.
  unfold users, lobby_size. generalize (ql_members l) as ms. intros ms.
  assert (H : forall k rest, drop k ms = rest ->
            omap (fun i => lm_user_id <$> ms !! i) (seq k (length rest)) = lm_user_id <$> rest).
  { intros k rest. revert k. induction rest as [|m rest IH]; intros k Hk; [done|].
    cbn [length seq omap list_omap]. rewrite <-(Nat.add_0_r k) at 1. rewrite <-lookup_drop, Hk.
    cbn. f_equal. apply IH. replace (S k) with (k + 1)%nat by lia. by rewrite <-drop_drop, Hk. }
  by apply (H 0%nat ms).
Qed.

Lemma users_length l ix :
  (forall i, i ∈ ix -> (i < lobby_size l)%nat) -> length (users l ix) = length ix.
Proof.
  unfold users, lobby_size. induction ix as [|i ix IH]; intros H; [done|].
  cbn [omap list_omap]. destruct (lookup_lt_is_Some_2 (ql_members l) i) as [m Hm].
  { apply H. left. } rewrite Hm. cbn. f_equal. apply IH. intros j Hj. apply H. by right.
Qed.

Lemma concat_perm {A} (f k : QueuedLobby -> list A) ls :
  (forall l, l ∈ ls -> f l ≡ₚ k l) -> concat (f <$> ls) ≡ₚ concat (k <$> ls).
Proof.
  induction ls as [|l ls IH]; intros H; [done|]. cbn. rewrite (H l) by left.
  f_equiv. apply IH. intros x Hx. apply H. by right.
Qed.

Lemma concat_app_perm {A} (f k : QueuedLobby -> list A) ls :
  concat ((fun l => f l ++ k l) <$> ls) ≡ₚ concat (f <$> ls) ++ concat (k <$> ls).
Proof. induction ls as [|l ls IH]; [done|]. cbn. rewrite IH. solve_Permutation. Qed.

Lemma everyone lobbies g c :
  combination_ok lobbies g c -> at_play c ++ at_watch c ≡ₚ all_users (mc_lobbies c).
Proof.
  intros H. unfold at_play, at_watch, all_users. rewrite <-concat_app_perm.
  apply concat_perm. intros l Hl. by rewrite <-users_app, (co_members _ _ _ H l Hl), users_all.
Qed.

(** ** From assignments to lobbies *)

Lemma seated_cons code a ts :
  seated code (a :: ts)
  = (if decide (ta_lobby_code a = code) then ta_member_indices a else []) ++ seated code ts.
Proof. unfold seated. rewrite filter_cons. by destruct (decide _). Qed.

Lemma group_cons ls a ts x :
  NoDup (codes ls) -> x ∈ ls -> ql_lobby_code x = ta_lobby_code a ->
  concat ((fun l => users l (seated (ql_lobby_code l) (a :: ts))) <$> ls)
  ≡ₚ users x (ta_member_indices a)
       ++ concat ((fun l => users l (seated (ql_lobby_code l) ts)) <$> ls).
Proof.
  intros Hd Hx Ex. induction ls as [|l ls IH]; [by apply not_elem_of_nil in Hx|].
  cbn in Hd. apply NoDup_cons in Hd as [Hn Hd]. cbn [fmap list_fmap concat]. rewrite seated_cons.
  apply elem_of_cons in Hx as [->|Hx].
  - rewrite decide_True by done. rewrite users_app, <-app_assoc. f_equiv. f_equiv.
    apply concat_perm. intros k Hk. rewrite seated_cons, decide_False; [done|].
    rewrite <-Ex. intros E. apply Hn. rewrite E. by apply list_elem_of_fmap_2.
  - rewrite decide_False.
    + cbn. rewrite IH by done. solve_Permutation.
    + rewrite <-Ex. intros E. apply Hn. rewrite <-E. by apply list_elem_of_fmap_2.
Qed.

Lemma find_code ls a :
  ta_lobby_code a ∈ codes ls ->
  exists x, find_first (fun l => bool_decide (ql_lobby_code l = ta_lobby_code a)) ls = Some x
    /\ x ∈ ls /\ ql_lobby_code x = ta_lobby_code a.
Proof.
  intros (l & El & Hl)%list_elem_of_fmap.
  destruct (find_first_is_Some (fun l => bool_decide (ql_lobby_code l = ta_lobby_code a))
              ls l Hl) as [x Ex]; [by apply bool_decide_eq_true|].
  exists x. split; [done|]. by apply find_first_Some in Ex as [? ?%bool_decide_eq_true].
Qed.

Section teams.
Variables (c : MatchmakingCombination) (g : GameType).

Lemma group_seats ts :
  NoDup (codes (mc_lobbies c)) ->
  Forall (fun a => ta_lobby_code a ∈ codes (mc_lobbies c)) ts ->
  (concat (assigned_seats c g <$> ts)).*1
  ≡ₚ concat ((fun l => users l (seated (ql_lobby_code l) ts)) <$> mc_lobbies c).
Proof.
  intros Hd Hf. induction Hf as [|a ts Ha _ IH].
  { cbn. induction (mc_lobbies c) as [|l ls IHl]; [done|]. cbn in Hd.
    apply NoDup_cons in Hd as [_ Hd]. by apply IHl. }
  destruct (find_code _ _ Ha) as (x & Ex & Hx & Hc). rewrite (group_cons _ _ _ x Hd Hx Hc).
  cbn [fmap list_fmap concat]. rewrite fmap_app, IH. f_equiv.
  unfold assigned_seats. by rewrite Ex, seats_of_users.
Qed.

(** How many seats are of one team. *)
Definition seats_in (t : TeamId) (seats : list (Z * option TeamId)) : nat :=
  length (filter (fun s => s.2 = Some t) seats).

Lemma seats_in_app t a b : seats_in t (a ++ b) = (seats_in t a + seats_in t b)%nat.
Proof. unfold seats_in. by rewrite filter_app, length_app. Qed.

Lemma seats_in_of t l ix id :
  is_team_match g = true ->
  seats_in t (seats_of g l ix (Some id)) = if decide (id = t) then length (users l ix) else 0%nat.
Proof.
  intros Hg. unfold seats_in, seats_of, team_of. rewrite Hg.
  induction (users l ix) as [|u us IH]; cbn [fmap list_fmap]; [by destruct (decide _)|].
  rewrite filter_cons. cbn [snd]. destruct (decide (id = t)) as [->|Hne].
  - rewrite decide_True by done. cbn. by rewrite IH.
  - rewrite decide_False by congruence. done.
Qed.

Lemma seats_in_teams t ts :
  is_team_match g = true -> Forall (fun a => ta_lobby_code a ∈ codes (mc_lobbies c)) ts ->
  (forall a l i, a ∈ ts -> l ∈ mc_lobbies c -> ta_lobby_code a = ql_lobby_code l ->
     i ∈ ta_member_indices a -> (i < lobby_size l)%nat) ->
  seats_in t (concat (assigned_seats c g <$> ts))
  = sum_list (length ∘ ta_member_indices <$> filter (fun a => ta_team_id a = t) ts).
Proof.
  intros Hg Hf. induction Hf as [|a ts Ha _ IH]; intros Hr; [done|].
  destruct (find_code _ _ Ha) as (x & Ex & Hx & Hc).
  cbn [fmap list_fmap concat]. rewrite seats_in_app, IH.
  - unfold assigned_seats. rewrite Ex, seats_in_of by done. rewrite filter_cons.
    destruct (decide (ta_team_id a = t)); [|done].
    rewrite fmap_cons, sum_cons, users_length; [done|]. intros i Hi.
    eapply Hr; [left|exact Hx|done|done].
  - intros b l i Hb. apply Hr. by right.
Qed.

Lemma assigned_in_range lobbies :
  combination_ok lobbies g c -> no_teams c = false ->
  forall a l i, a ∈ mc_team_assignments c -> l ∈ mc_lobbies c ->
    ta_lobby_code a = ql_lobby_code l -> i ∈ ta_member_indices a -> (i < lobby_size l)%nat.
Proof.
  intros H Hn a l i Ha Hl Ec Hi.
  assert (Hp : i ∈ playing c l ++ watching c (ql_lobby_code l)).
  { apply elem_of_app. left. unfold playing. rewrite Hn. unfold seated.
    apply list_elem_of_In, in_concat. exists (ta_member_indices a).
    rewrite <-!list_elem_of_In. split; [|done].
    apply list_elem_of_fmap_2, list_elem_of_filter. done. }
  rewrite (co_members _ _ _ H l Hl) in Hp. apply elem_of_seq in Hp. lia.
Qed.
End teams.

(** ** The roster *)

Section ready.
Context {FL : F32Libm} {HO : HashOrder} {DB : SkinDb} {PD : PlayerDb}.
Variables (lobbies : list QueuedLobby) (c : MatchmakingCombination) (g : GameType).
Hypothesis combination : combination_ok lobbies g c.
Hypothesis users_distinct : NoDup (all_users (mc_lobbies c)).
Hypothesis size_in_range : Z.of_nat (mc_total_players c) <= u32_max.

Lemma play_distinct : NoDup (at_play c).
Proof.
  pose proof users_distinct as H. rewrite <-(everyone _ _ _ combination) in H.
  by apply NoDup_app in H as (? & _).
Qed.

Lemma play_length : length (at_play c) = mc_total_players c.
Proof.
  rewrite <-(co_total _ _ _ combination). unfold at_play.
  assert (H : forall ls, ls ⊆ mc_lobbies c ->
    length (concat ((fun l => users l (playing c l)) <$> ls))
    = sum_list ((fun l => length (playing c l)) <$> ls)); [|by apply H].
  induction ls as [|l ls IH]; intros Hs; [done|].
  cbn [fmap list_fmap concat]. rewrite length_app, sum_cons, IH by (intros x Hx; apply Hs; by right).
  f_equal. apply users_length. intros i Hi.
  assert (Hp : i ∈ playing c l ++ watching c (ql_lobby_code l)) by (apply elem_of_app; by left).
  rewrite (co_members _ _ _ combination l) in Hp by (apply Hs; left). apply elem_of_seq in Hp. lia.
Qed.

Lemma seats_room seats : seats.*1 ≡ₚ at_play c -> room [] seats.
Proof.
  intros E. split; cbn [app].
  - rewrite E. apply play_distinct.
  - apply Permutation_length in E. rewrite length_fmap, play_length in E. lia.
Qed.

Lemma watch_members l :
  l ∈ mc_lobbies c -> NoDup (watching c (ql_lobby_code l))
  /\ forall i, i ∈ watching c (ql_lobby_code l) -> (i < lobby_size l)%nat.
Proof.
  intros Hl. pose proof (co_members _ _ _ combination l Hl) as E. split.
  - assert (H : NoDup (playing c l ++ watching c (ql_lobby_code l))) by (rewrite E; apply NoDup_seq).
    by apply NoDup_app in H as (_ & _ & ?).
  - intros i Hi. assert (Hp : i ∈ playing c l ++ watching c (ql_lobby_code l))
      by (apply elem_of_app; by right).
    rewrite E in Hp. apply elem_of_seq in Hp. lia.
Qed.

Lemma remove_dups_distinct {A} `{!EqDecision A} (l : list A) : NoDup l -> remove_dups l = l.
Proof.
  induction 1 as [|x l Hx _ IH]; [done|]. cbn.
  destruct (decide_rel _ x l); [done|]. by rewrite IH.
Qed.

Lemma empty_roster st : fresh g st -> roster_ok g (gs_is_stress_test st) [] [] (mkRoster st [] [] ∅).
Proof.
  intros [F1 Fr F0 F2 F3 F4 F5 F6]. split; cbn [ro_state ro_players ro_spectators]; try done.
  - constructor. - by rewrite F5.
  - intros u p. rewrite F4, lookup_empty. split; [done|]. by intros (k & ? & _).
Qed.

(** The seats of the roster a combination asks for. *)
Record seats_ok (seats : list (Z * option TeamId)) (watch : list Z) : Prop := {
  se_players : seats.*1 ≡ₚ at_play c;
  se_watchers : watch ≡ₚ at_watch c;
  se_teams : match g with
             | TeamMatch per_team => seats_in 0 seats = Z.to_nat per_team
                                     /\ seats_in 1 seats = Z.to_nat per_team
             | _ => Forall (fun s => s.2 = None) seats
             end
}.

Lemma lobbies_seats :
  is_team_match g = false -> no_teams c = true ->
  seats_ok (concat ((fun l => seats_of g l (players_from c l 0 (lobby_size l)) None)
                      <$> mc_lobbies c))
           (concat ((fun l => users l (watchers_from c l 0 (lobby_size l))) <$> mc_lobbies c)).
Proof.
  intros Hg Hn. split.
  - clear users_distinct. apply reflexive_eq. unfold at_play. induction (mc_lobbies c) as [|l ls IH]; [done|].
    cbn [fmap list_fmap concat]. rewrite fmap_app, seats_of_users, IH. f_equal.
    unfold playing. by rewrite Hn.
  - apply concat_perm. intros l Hl. destruct (watch_members l Hl) as [Hd Hr]. f_equiv.
    apply NoDup_Permutation; [apply NoDup_filter, NoDup_seq|done|]. intros i.
    unfold watchers_from. rewrite list_elem_of_filter, elem_of_seq. split; [by intros []|].
    intros Hi. split; [done|]. specialize (Hr i Hi). lia.
  - assert (H : Forall (fun s => s.2 = None)
      (concat ((fun l => seats_of g l (players_from c l 0 (lobby_size l)) None) <$> mc_lobbies c))).
    { apply Forall_concat, Forall_fmap, Forall_forall. intros l _. apply Forall_fmap, Forall_forall.
      intros u _. cbn. unfold team_of. by rewrite Hg. }
    by destruct g.
Qed.

Lemma teams_seats watch :
  is_team_match g = true -> no_teams c = false -> watch ≡ₚ at_watch c ->
  seats_ok (concat (assigned_seats c g <$> mc_team_assignments c)) watch.
Proof.
  intros Hg Hn Hw. pose proof (co_teams _ _ _ combination) as Ht. split; [|done|].
  - rewrite group_seats by apply combination. apply concat_perm. intros l _.
    unfold playing. by rewrite Hn.
  - destruct g as [|per| |]; try done.
    rewrite !seats_in_teams; [done|done|apply combination| |done|apply combination|];
      by apply (assigned_in_range _ (TeamMatch per) lobbies).
Qed.

Lemma fill_roster_ok st :
  fresh g st -> is_team_match g = negb (no_teams c) ->
  exists ro seats watch, fill_roster c st = Ok ro /\ roster_ok g (gs_is_stress_test st) seats watch ro
    /\ seats_ok seats watch.
Proof.
  intros Hf Hg. pose proof (empty_roster st Hf) as R. unfold fill_roster.
  destruct (no_teams c) eqn:Hn; cbn in Hg.
  - pose proof (lobbies_seats Hg Hn) as S.
    destruct (seat_lobbies_ok c g _ (co_entries _ _ _ combination) [] [] _ (mc_lobbies c) Hg R)
      as (ro & -> & R1); [apply seats_room, S|].
    eexists _, _, _. split; [reflexivity|]. split; [exact R1|exact S].
  - destruct (seat_teams_ok c g _ [] [] _ (mc_team_assignments c)
                (co_assigned _ _ _ combination) R) as (ro & -> & R1).
    { apply seats_room. by apply (teams_seats (at_watch c)). }
    cbn [mbind result_bind]. apply dress_ok in R1.
    destruct (all_spectators_ok c g _ (co_entries _ _ _ combination) _ _ _ (mc_lobbies c) R1)
      as (more & Hm & R2). eexists _, _, _. split; [reflexivity|]. split; [exact R2|].
    apply teams_seats; [done..|]. cbn [app]. rewrite Hm. apply concat_perm. intros l Hl.
    f_equiv. apply reflexive_eq, remove_dups_distinct. by apply watch_members.
Qed.
End ready.

(** ** The preparation *)

Lemma initial_food_frame {FL : F32Libm} st :
  let st' := spawn_initial_food st in
  gs_players st' = gs_players st /\ gs_snakes st' = gs_snakes st
  /\ gs_spectators st' = gs_spectators st /\ gs_game_type st' = gs_game_type st
  /\ gs_is_stress_test st' = gs_is_stress_test st /\ gs_readiness st' = gs_readiness st.
Proof.
  cbv zeta. unfold spawn_initial_food. destruct (gs_rng st) as [?|]; [|done].
  generalize 1000%nat. intros n. revert st.
  induction n as [|n IH]; intros st; [done|]. cbn [spawn_initial_food_loop].
  case_match; [|done]. destruct (gs_rng st) as [rng|]; [|apply IH].
  destruct (sample_food_position rng _ _) as [x rng'].
  destruct (IH (if food_position_free (with_rng (Some rng') st) x
                then with_food (gs_food (with_rng (Some rng') st) ++ [x]) (with_rng (Some rng') st)
                else with_rng (Some rng') st)) as (E1 & E2 & E3 & E4 & E5 & E6).
  rewrite E1, E2, E3, E4, E5, E6. by destruct (food_position_free _ _).
Qed.

Lemma all_users_distinct ls lobbies :
  NoDup (codes ls) -> ls ⊆ lobbies -> NoDup (all_users lobbies) -> NoDup (all_users ls).
Proof.
  intros Hc Hs Hd. apply NoDup_fmap_1 in Hc.
  destruct (submseteq_Permutation ls lobbies) as [k Hk]. { by apply NoDup_submseteq. }
  assert (E : all_users lobbies ≡ₚ all_users ls ++ all_users k).
  { unfold all_users. by rewrite <-concat_app, <-fmap_app, <-!flat_map_concat_map, Hk. }
  rewrite E in Hd. by apply NoDup_app in Hd as (? & _).
Qed.

(** The sizes the types of the source allow. *)
Definition sized (g : GameType) : Prop :=
  match g with FreeForAll max_players => max_players < 256 | _ => True end.

Lemma total_in_range lobbies g c :
  combination_ok lobbies g c -> supported g -> sized g ->
  Z.of_nat (mc_total_players c) <= u32_max.
Proof.
  intros H Hg Hs. pose proof (co_valid _ _ _ H) as Hv. unfold is_valid in Hv. unfold u32_max.
  destruct g as [|per|max|s]; cbn in Hg, Hs; [..|done].
  - apply andb_true_iff in Hv as [Hv%Nat.eqb_eq _]. lia.
  - rewrite (double_in_range _ Hg) in Hv.
    destruct (Nat.eqb_spec (mc_total_players c) (Z.to_nat per * 2)); [lia|done].
  - apply andb_true_iff in Hv as [Hv _]. apply andb_true_iff in Hv as [_ Hv%Nat.leb_le]. lia.
Qed.

Lemma teams_match lobbies g c :
  combination_ok lobbies g c -> supported g -> is_team_match g = negb (no_teams c).
Proof.
  intros H Hg. pose proof (co_teams _ _ _ H) as Ht.
  destruct g as [|per|max|s]; cbn in Hg |- *; [by rewrite Ht| |by rewrite Ht|done].
  destruct Ht as [Ht _]. unfold no_teams, team_count in *.
  destruct (mc_team_assignments c); [cbn in Ht; lia|done].
Qed.

Lemma arena_creatable g : supported g -> creatable (arena_size g).1 (arena_size g).2 g.
Proof. unfold creatable, i16_max. by destruct g. Qed.

Lemma within lo x hi : lo <= x <= hi -> (lo <=? x) && (x <=? hi) = true.
Proof. intros. apply andb_true_iff. split; apply Z.leb_le; lia. Qed.

Section prepared.
Context {FL : F32Libm} {HO : HashOrder} {DB : SkinDb} {PD : PlayerDb}.
Variables (cfg : ManagerConfig) (q : QueueMode).

(** The server can build matches of this type with its configuration. *)
Definition accepted (g : GameType) : Prop :=
  exists st, build_match_game_state (arena_size g).1 (arena_size g).2 g q None 0
               (mg_boost_config cfg) (mg_player_idle_config cfg) = Ok st.

(** What the preparation reads is in range. *)
Definition readable (i : PrepareInput) (game_id : Z) : Prop :=
  pi_durable_id i = Ok game_id /\ 0 <= game_id <= u32_max
  /\ - 2 ^ 63 <= pi_now_ready i + mg_match_ready_window_ms cfg <= 2 ^ 63 - 1.

Variables (lobbies : list QueuedLobby) (c : MatchmakingCombination) (g : GameType).
Variables (i : PrepareInput) (game_id : Z) (pool : MatchmakingPool).
Hypothesis combination : combination_ok lobbies g c.
Hypothesis users_distinct : NoDup (all_users lobbies).
Hypothesis (g_supported : supported g) (g_sized : sized g) (g_accepted : accepted g).
Hypothesis typed : config_typed (mg_boost_config cfg) (mg_player_idle_config cfg).
Hypothesis readings : readable i game_id.
Hypothesis one_pool : Forall (fun l => ql_matchmaking_pool l = pool) lobbies.

Lemma prepare_ok :
  exists ro seats watch p, roster_ok g (bool_decide (pool = Stress)) seats watch ro /\ seats_ok c g seats watch
    /\ prepare_game_from_lobbies c cfg i g q = Ok p
    /\ pm_game_id p = game_id
    /\ (let st := spawn_initial_food (ro_state ro) in
        pm_game_state p = if bool_decide (pool = Stress) then st
                          else arm_readiness_gate st (pi_now_ready i + mg_match_ready_window_ms cfg))
    /\ am_players (pm_match_info p) = ro_players ro
    /\ am_spectators (pm_match_info p) = ro_spectators ro
    /\ am_matchmaking_pool (pm_match_info p) = pool.
Proof.
  destruct readings as (Hid & Hr & Hd). destruct g_accepted as [st0 E0].
  destruct (build_seed _ _ _ _ _ _ _ _ _ (Some (Z.lxor (wrap_u64 (pi_now_seed i)) game_id))
              (pi_now_start i + GAME_START_COUNTDOWN_MS) E0) as [st Est].
  pose proof (built_fresh _ _ _ _ _ _ _ _ _ (arena_creatable g g_supported) typed Est) as Hf.
  assert (Hf' : fresh g {| st with gs_is_stress_test := bool_decide (pool = Stress) |}).
  { destruct Hf as [F1 Fr F0 F2 F3 F4 F5 F6]. split; try done. by apply life_stress. }
  destruct (fill_roster_ok lobbies c g combination
              (all_users_distinct _ _ (co_distinct _ _ _ combination) (co_from _ _ _ combination)
                 users_distinct)
              (total_in_range _ _ _ combination g_supported g_sized)
              _ Hf' (teams_match _ _ _ combination g_supported)) as (ro & seats & watch & Ero & R & S).
  exists ro, seats, watch. unfold prepare_game_from_lobbies.
  pose proof (co_some _ _ _ combination) as Hne. pose proof (co_from _ _ _ combination) as Hfrom.
  assert (Hp : forallb (fun l => bool_decide (ql_matchmaking_pool l = pool)) (mc_lobbies c) = true).
  { apply forallb_forall. intros l Hl%list_elem_of_In. apply bool_decide_eq_true.
    rewrite Forall_forall in one_pool. by apply one_pool, Hfrom. }
  assert (Hgen : generate_game_id (pi_durable_id i) = Ok game_id).
  { unfold generate_game_id. rewrite Hid. cbn [mbind result_bind]. by rewrite (within _ _ _ Hr). }
  assert (Hh : ql_matchmaking_pool <$> hd_error (mc_lobbies c) = Some pool).
  { destruct (mc_lobbies c) as [|l ls]; [done|]. cbn in Hp |- *.
    apply andb_true_iff in Hp as [Hp _]. by apply bool_decide_eq_true in Hp as ->. }
  rewrite Hh. cbn [context mbind result_bind]. rewrite Hp. cbn [ensure mbind result_bind].
  rewrite Hgen. cbn [mbind result_bind].
  destruct (arena_size g) as [w h]. cbn [fst snd] in Est. rewrite Est. cbn [mbind result_bind].
  rewrite Ero. cbn [mbind result_bind].
  destruct (initial_food_frame (ro_state ro)) as (_ & _ & _ & _ & -> & _).
  rewrite (ri_stress _ _ _ _ _ R). cbn [gs_is_stress_test].
  destruct (bool_decide (pool = Stress)); cbn [mbind result_bind].
  - eexists. split; [exact R|]. by split.
  - rewrite (within _ _ _ Hd). cbn [context mbind result_bind]. eexists. split; [exact R|]. by split.
Qed.

(** A prepared match: it passes the validation of the rules, holds exactly the
    members of the combination, gives the k-th player the k-th snake, fills the
    teams, and waits for its players unless it is a stress test. *)
Record holds_roster (p : PreparedMatch) : Prop := {
  hr_valid : validate_boost_invariants (pm_game_state p) = Ok tt;
  hr_wf : wf_state (pm_game_state p);
  hr_players : qp_user_id <$> am_players (pm_match_info p) ≡ₚ at_play c;
  hr_watchers : qp_user_id <$> am_spectators (pm_match_info p) ≡ₚ at_watch c;
  hr_snakes u pl : gs_players (pm_game_state p) !! u = Some pl <->
    exists k, (qp_user_id <$> am_players (pm_match_info p)) !! k = Some u
              /\ pl = mkPlayer u (Z.of_nat k);
  hr_count : length (gs_snakes (pm_game_state p)) = length (am_players (pm_match_info p));
  hr_spectators :
    gs_spectators (pm_game_state p) = list_to_set (qp_user_id <$> am_spectators (pm_match_info p));
  hr_teams : match g with
             | TeamMatch per_team => forall t, t = 0 \/ t = 1 ->
                 length (filter (fun s => sn_team_id s = Some t) (gs_snakes (pm_game_state p)))
                 = Z.to_nat per_team
             | _ => Forall (fun s => sn_team_id s = None) (gs_snakes (pm_game_state p))
             end;
  hr_gate : is_awaiting_readiness (pm_game_state p) = negb (bool_decide (pool = Stress))
}.

Lemma filter_image {A B} (f : A -> B) v `{!EqDecision B} (l : list A) :
  length (filter (fun x => x = v) (f <$> l)) = length (filter (fun x => f x = v) l).
Proof.
  induction l as [|x l IH]; [done|]. cbn [fmap list_fmap]. rewrite !filter_cons.
  destruct (decide (f x = v)); cbn; by rewrite IH.
Qed.

Lemma seats_in_snakes seats watch ro t :
  roster_ok g (bool_decide (pool = Stress)) seats watch ro ->
  length (filter (fun s => sn_team_id s = Some t) (gs_snakes (ro_state ro))) = seats_in t seats.
Proof.
  intros R. unfold seats_in.
  rewrite <-(filter_image sn_team_id (Some t)), <-(filter_image snd (Some t)).
  by rewrite (ri_teams _ _ _ _ _ R).
Qed.

Lemma prepared_holds_roster :
  exists p, prepare_game_from_lobbies c cfg i g q = Ok p /\ pm_game_id p = game_id
    /\ holds_roster p.
Proof.
  destruct prepare_ok as (ro & seats & watch & p & R & S & E & Eid & Est & Epl & Esp & _).
  exists p. split; [done|]. split; [done|].
  destruct (initial_food_frame (ro_state ro)) as (F1 & F2 & F3 & _ & _ & F6).
  set (st0 := spawn_initial_food (ro_state ro)) in *.
  assert (Hl : life_ok (pm_game_state p) /\ gs_completed_by_inactivity (pm_game_state p) = false).
  { assert (L0 : life_ok st0).
    { eapply life_step; [apply step_initial_food|apply (ri_life _ _ _ _ _ R)]. }
    assert (M0 : gs_completed_by_inactivity st0 = false).
    { unfold st0. rewrite food_marker. apply (ri_running _ _ _ _ _ R). }
    rewrite Est. destruct (bool_decide _); [done|].
    split; [eapply life_step; [apply step_arm|exact L0]|done]. }
  assert (Hp : gs_players (pm_game_state p) = gs_players (ro_state ro)
            /\ gs_snakes (pm_game_state p) = gs_snakes (ro_state ro)
            /\ gs_spectators (pm_game_state p) = gs_spectators (ro_state ro)).
  { rewrite <-F1, <-F2, <-F3, Est. by destruct (bool_decide _). }
  destruct Hp as (P1 & P2 & P3). split; rewrite ?P1, ?P2, ?P3, ?Epl, ?Esp.
  - apply life_valid; apply Hl.
  - apply life_wf, Hl.
  - rewrite (ri_users _ _ _ _ _ R). apply S.
  - rewrite (ri_watchers _ _ _ _ _ R). apply S.
  - intros u pl. rewrite (ri_users _ _ _ _ _ R). apply (ri_players _ _ _ _ _ R).
  - apply Nat2Z.inj. transitivity (Z.of_nat (length seats)); [apply (seats_length _ _ _ _ _ R)|].
    pose proof (ri_users _ _ _ _ _ R) as X. apply (f_equal length) in X.
    rewrite !length_fmap in X. lia.
  - by rewrite (ri_watchers _ _ _ _ _ R), (ri_spectators _ _ _ _ _ R).
  - pose proof (se_teams _ _ _ _ S) as T. pose proof (ri_teams _ _ _ _ _ R) as X.
    pose proof (fun t => seats_in_snakes _ _ _ t R) as Y.
    assert (Z0 : Forall (fun s => s.2 = None) seats ->
                 Forall (fun s => sn_team_id s = None) (gs_snakes (ro_state ro))).
    { intros H. apply (Forall_fmap snd (fun o => o = None)) in H. rewrite <-X in H.
      by apply Forall_fmap in H. }
    destruct g; [by apply Z0| |by apply Z0|by apply Z0]. intros t [->| ->]; rewrite Y; apply T.
  - rewrite Est. destruct (bool_decide _); [|done]. unfold is_awaiting_readiness.
    by rewrite F6, (ri_readiness _ _ _ _ _ R).
Qed.
End prepared.
