(* ===== verification/MatchmakingTheorems.v ===== *)
(** * Theorems on matchmaking

    What the search for a game returns, what a pass over a queue does, in which
    order it serves the queue, and what a match may show of a player's skin. *)

From Stdlib Require Import ZArith Lia.
From stdpp Require Import prelude strings countable list gmap sorting.
From S2P Require Import Prelude RustFloat Util Snake Arena CommandQueue GameState GameSetup.
From S2P Require Import Validate Engine Actor SkinCatalog Matchmaking MatchCreation.
From S2P Require Import MatchmakingFacts RosterFacts PassFacts MatchCreationFacts MatchReadyFacts.
From S2P Require Import SnakeTheorems.
Open Scope Z_scope.

(** ** Sample lobbies *)

Definition insertion_order : HashOrder :=
  {| hash_order := fun l => l; hash_order_perm := fun l => Permutation_refl l |}.

(** A lobby with its host, who is the second member of a party. *)
Definition party (code : string) (mmr queued_at : Z) (users : list Z) : QueuedLobby :=
  {| ql_lobby_code := code; ql_queue_token := code;
     ql_members := (fun u => mkMember u "player") <$> users; ql_avg_mmr := mmr;
     ql_game_types := []; ql_queue_mode := Quickmatch; ql_queued_at := queued_at;
     ql_requesting_user_id := default (default 0 (users !! 0%nat)) (users !! 1%nat);
     ql_matchmaking_pool := Public |}.

(** ** The search *)

(** C25. A combination accounts for everyone: the search never panics, and what it
    returns is valid for the game type, is made of queued lobbies, and seats
    every member of each of its lobbies exactly once, as a player of one team or
    as a spectator; the teams have the size the game asks for. *)
Theorem every_member_has_a_place {HO : HashOrder} lobbies g now :
  NoDup (codes lobbies) -> supported g ->
  exists o, find_best_lobby_combination lobbies g now = Ok o /\ forall c, o = Some c ->
    is_valid c g = true /\ mc_lobbies c <> [] /\ mc_lobbies c ⊆ lobbies
    /\ NoDup (codes (mc_lobbies c))
    /\ (forall l, l ∈ mc_lobbies c ->
        playing c l ++ watching c (ql_lobby_code l) ≡ₚ seq 0 (lobby_size l))
    /\ sum_list ((fun l => length (playing c l)) <$> mc_lobbies c) = mc_total_players c
    /\ match g with
       | TeamMatch per_team => team_count c 0 = Z.to_nat per_team
                               /\ team_count c 1 = Z.to_nat per_team
       | _ => no_teams c = true
       end.
Proof.
  intros Hd Hg. destruct (search_ok lobbies g now Hd Hg) as (o & -> & Ho).
  exists o. split; [done|]. intros c Hc. by destruct (Ho c Hc).
Qed.

(** A party of three and one of two for a game of two against two: the search
    splits the first party and lets nobody of the second play. *)
Definition two_parties : list QueuedLobby :=
  [party "AAAA" 1000 0 [1; 2; 3; 4; 5]; party "BBBB" 1000 0 [6; 7; 8]].

Lemma every_member_has_a_place_witness :
  exists c, @find_best_lobby_combination insertion_order two_parties (TeamMatch 2) 0
            = Ok (Some c)
    /\ is_valid c (TeamMatch 2) = true /\ team_count c 0 = 2%nat /\ team_count c 1 = 2%nat.
Proof.
  destruct (@every_member_has_a_place insertion_order two_parties (TeamMatch 2) 0)
    as (o & E & Ho); [apply (bool_decide_unpack _); vm_compute; exact I|cbn; lia|].
  destruct o as [c|]; [|vm_compute in E; discriminate].
  exists c. destruct (Ho c eq_refl) as (H1 & _ & _ & _ & _ & _ & H2 & H3).
  split; [exact E|]. split; [exact H1|]. split; [exact H2|exact H3].
Defined.

(** The seats a lobby may get on the two teams: none, or all of its members. *)
Definition whole_lobby (l : QueuedLobby) (p : nat * nat) : Prop :=
  (p.1 + p.2 = 0 \/ p.1 + p.2 = lobby_size l)%nat.

Lemma assigns_of_places lobbies places i :
  Forall2 whole_lobby lobbies places ->
  exists a b, assigns lobbies i a b /\ players a = sum_list (places.*1)
    /\ players b = sum_list (places.*2).
Proof.
  intros H. revert i. induction H as [|l [x y] lobbies places Hp _ IH]; intros i.
  { exists [], []. split; [constructor|done]. }
  destruct (IH (S i)) as (a & b & Has & Ha & Hb). cbn [fmap list_fmap fst snd].
  rewrite !sum_cons. unfold whole_lobby in Hp. cbn in Hp.
  destruct (decide (x + y = 0)%nat) as [H0|H0].
  { exists a, b. split; [by constructor|]. lia. }
  assert (lobby_size l = x + y)%nat by lia.
  destruct (decide (y = 0)%nat) as [->|Hy].
  { eexists _, b. split; [by apply as_a|]. rewrite players_cons, length_seq. lia. }
  destruct (decide (x = 0)%nat) as [->|Hx].
  { eexists a, _. split; [by apply as_b|]. rewrite players_cons, length_seq. lia. }
  exists ((i, seq 0 x) :: a), ((i, seq x (lobby_size l - x)) :: b).
  split; [constructor; [lia|exact Has]|].
  rewrite !players_cons, !length_seq. lia.
Qed.

Lemma places_of_assigns lobbies i a b :
  assigns lobbies i a b ->
  exists places, Forall2 whole_lobby lobbies places /\ players a = sum_list (places.*1)
    /\ players b = sum_list (places.*2).
Proof.
  unfold whole_lobby. induction 1 as [|l rest i a b H IH|l rest i a b H IH|l rest i a b H IH
    |l rest i a b k Hk H IH]; [exists []; split; [constructor|done]|..].
  all: destruct IH as (places & Hf & E1 & E2).
  - exists ((0, 0)%nat :: places). split; [constructor; [by left|done]|].
    by rewrite E1, E2.
  - exists ((lobby_size l, 0)%nat :: places). split; [constructor; [right; cbn; lia|done]|].
    by rewrite players_cons, length_seq, E1, E2.
  - exists ((0, lobby_size l)%nat :: places). split; [constructor; [right; cbn; lia|done]|].
    by rewrite players_cons, length_seq, E1, E2.
  - exists ((k, lobby_size l - k)%nat :: places). split; [constructor; [right; cbn; lia|done]|].
    by rewrite !players_cons, !length_seq, E1, E2.
Qed.

(** C28. Exact teams are found whenever they exist: the backtracking returns a
    combination if and only if both teams can be filled exactly with lobbies
    taken whole, each on one side or divided between the two. *)
Theorem exact_teams_are_found {HO : HashOrder} lobbies per_team :
  NoDup (codes lobbies) -> 1 <= per_team < 128 ->
  (exists c, find_exact_team_match lobbies (Z.to_nat per_team) = Ok (Some c)) <->
  exists places, Forall2 whole_lobby lobbies places
    /\ sum_list (places.*1) = Z.to_nat per_team /\ sum_list (places.*2) = Z.to_nat per_team.
Proof.
  intros Hd Hp. unfold find_exact_team_match. split.
  - intros [c Hc]. destruct (backtrack_assign _ _ _ _ _ _) as [[a b]|] eqn:E; [|done].
    destruct (backtrack_sound _ _ _ _ _ _ _ _ E) as (da & db & _ & _ & Has & Ha & Hb).
    destruct (places_of_assigns _ _ _ _ Has) as (places & Hf & E1 & E2).
    exists places. split; [done|]. lia.
  - intros (places & Hf & E1 & E2).
    destruct (assigns_of_places _ _ 0 Hf) as (a & b & Has & Ha & Hb).
    destruct (backtrack_complete _ _ _ _ [] [] Has) as [[a' b'] E]. rewrite Ha, Hb, E1, E2 in E.
    rewrite E. destruct (backtrack_sound _ _ _ _ _ _ _ _ E) as (da & db & -> & -> & Has' & Ha' & Hb').
    destruct (build_combination_ok lobbies per_team Hd Hp _ _ Has' Ha' Hb') as (c & Ec & _).
    exists c. exact Ec.
Qed.

(** Three and one make two against two. *)
Lemma exact_teams_are_found_witness :
  exists c, @find_exact_team_match insertion_order
              [party "AAAA" 1000 0 [1; 2; 3]; party "BBBB" 1000 0 [4]] 2 = Ok (Some c).
Proof.
  apply (@exact_teams_are_found insertion_order
           [party "AAAA" 1000 0 [1; 2; 3]; party "BBBB" 1000 0 [4]] 2);
    [apply (bool_decide_unpack _); vm_compute; exact I|lia|].
  exists [(2, 1)%nat; (0, 1)%nat]. split; [|done].
  repeat constructor; right; reflexivity.
Defined.

(** ** A pass *)

(** C29. A pass ends and uses each lobby once: with a round per queued lobby the
    pass over a queue returns without an error, whatever it picks and whatever
    the commits answer; the games it created are valid, are made of queued
    lobbies, and no lobby is in two of them or twice in one. *)
Theorem no_lobby_in_two_games {HO : HashOrder} g now inputs queue :
  NoDup (codes queue) -> supported g ->
  (forall n c e, rd_create (inputs n) c <> Panic e) ->
  exists games, create_lobby_matches g now inputs (Ok queue) = Some (Ok games)
    /\ Forall (fun c => is_valid c g = true /\ mc_lobbies c ⊆ queue) games
    /\ NoDup (mjoin (codes ∘ mc_lobbies <$> games)).
Proof.
  intros Hd Hg Hp. unfold create_lobby_matches.
  pose proof (merge_sort_Permutation queued_before queue) as Hs.
  destruct (match_rounds_ok g now inputs Hg Hp (length queue) 0
              (merge_sort queued_before queue) []) as (games & -> & Hf & Hn).
  - by rewrite Hs.
  - unfold codes. by rewrite Hs.
  - exists games. split; [done|]. split; [|done]. eapply Forall_impl; [exact Hf|].
    intros c Hc. split; [apply (co_valid _ _ _ Hc)|]. intros l Hl. rewrite <-Hs.
    by apply (co_from _ _ _ Hc).
Qed.

(** Every commit succeeds. *)
Definition all_committed (n : nat) : RoundInput :=
  mkRoundInput true 0 0 (fun _ => Ok (MC_Committed 1)).

Definition three_singles : list QueuedLobby :=
  [party "NEW1" 1000 50000 [1]; party "OLD1" 1000 0 [2]; party "NEW2" 1000 60000 [3]].

Lemma no_lobby_in_two_games_witness :
  exists games, @create_lobby_matches insertion_order (TeamMatch 1) 60000 all_committed
                  (Ok three_singles) = Some (Ok games)
    /\ NoDup (mjoin (codes ∘ mc_lobbies <$> games)).
Proof.
  destruct (@no_lobby_in_two_games insertion_order (TeamMatch 1) 60000 all_committed three_singles)
    as (games & E & _ & H); [apply (bool_decide_unpack _); vm_compute; exact I|cbn; lia|done|].
  exists games. split; [exact E|exact H].
Defined.

(** The longest-waiting lobby is served last: in a queue of single players
    that all accept each other, odd in number, for a duel, a pass matches
    everybody except the one that has waited longest, whatever its random picks
    are. *)
Theorem longest_waiting_is_passed_over {HO : HashOrder} now inputs queue old rest :
  merge_sort queued_before queue = old :: rest -> Nat.Even (length rest) ->
  duel_queue now queue ->
  (forall n c, exists id, rd_create (inputs n) c = Ok (MC_Committed id)) ->
  exists games, create_lobby_matches (TeamMatch 1) now inputs (Ok queue) = Some (Ok games)
    /\ (length games * 2 = length rest)%nat /\ Forall (fun c => old ∉ mc_lobbies c) games.
Proof.
  intros E Hev Q Hc. pose proof (merge_sort_Permutation queued_before queue) as Hs. rewrite E in Hs.
  assert (Q' : duel_queue now (old :: rest)).
  { destruct Q as [H1 H2 H3]. split; [by rewrite Hs|unfold codes in *; by rewrite Hs|].
    intros x y. rewrite Hs. apply H3. }
  destruct (oldest_is_passed_over now inputs old) with (fuel := length queue) (n := 0%nat)
    (rest := rest) (created := @nil MatchmakingCombination) as (games & Eg & Hf & Hn); try done.
  - intros n c e He. destruct (Hc n c) as [id Hid]. congruence.
  - apply Permutation_length in Hs. cbn in Hs. lia.
  - exists games. unfold create_lobby_matches. rewrite E, Eg. split; [done|]. split; [|done].
    by apply Hn.
Qed.

Lemma longest_waiting_is_passed_over_witness :
  exists games, @create_lobby_matches insertion_order (TeamMatch 1) 60000 all_committed
                  (Ok three_singles) = Some (Ok games)
    /\ length games = 1%nat /\ Forall (fun c => party "OLD1" 1000 0 [2] ∉ mc_lobbies c) games.
Proof.
  destruct (@longest_waiting_is_passed_over insertion_order 60000 all_committed three_singles
              (party "OLD1" 1000 0 [2])
              [party "NEW1" 1000 50000 [1]; party "NEW2" 1000 60000 [3]]) as (games & E & Hn & Hf).
  - vm_compute. reflexivity.
  - exists 1%nat. reflexivity.
  - split; [repeat constructor|apply (bool_decide_unpack _); vm_compute; exact I|].
    intros x y Hx Hy. unfold three_singles in *.
    repeat match goal with H : _ ∈ _ :: _ |- _ => apply elem_of_cons in H as [->|H]
           | H : _ ∈ [] |- _ => by apply not_elem_of_nil in H end; vm_compute; reflexivity.
  - intros n c. exists 1. reflexivity.
  - exists games. split; [exact E|]. split; [cbn in Hn; lia|exact Hf].
Defined.

(** The rating limit holds towards one lobby only: three lobbies that have
    waited ten seconds accept a difference of 300; the outer two differ by 600,
    and a pass that starts from the middle one makes them play each other. *)
Theorem rating_limit_can_be_exceeded {HO : HashOrder} :
  let middle := party "MID1" 1000 0 [1] in
  let low := party "LOW1" 700 0 [2] in
  let high := party "HIGH" 1300 0 [3] in
  let inputs := fun _ => mkRoundInput true 0 0 (fun _ => Ok (MC_Committed 1)) in
  are_lobbies_compatible low high 10000 = false
  /\ exists c rest, match_round (TeamMatch 1) 10000 (inputs 0%nat) [middle; low; high]
                    = Ok (Continue rest (Some c))
       /\ mc_lobbies c ≡ₚ [low; high].
Proof.
  intros middle low high inputs. split; [vm_compute; reflexivity|].
  assert (Ef : filter_compatible_lobbies middle [middle; low; high] 10000 = [middle; low; high])
    by (vm_compute; reflexivity).
  destruct (duel_of_the_newest low high [middle] 0) as (c & Ec & Hv & Hl).
  { repeat constructor. } { apply (bool_decide_unpack _). vm_compute. exact I. }
  exists c. eexists. split; [|exact Hl]. unfold match_round, priority_lobby.
  cbn [rd_longest_first inputs lookup list_lookup rd_now_ms]. rewrite Ef. cbn [app] in Ec.
  rewrite Ec. cbn [mbind result_bind]. rewrite Hv. reflexivity.
Qed.

(** ** A prepared match *)

(** C18. What the search found can be played: from a combination the search
    returned, with distinct users, one pool, a configuration the server can
    build matches with and readings in range, the preparation succeeds; the
    match passes the validation of the rules, has as players and spectators
    exactly the members of the lobbies, with the k-th player on the k-th snake
    and as many snakes on each team as the game asks for, and waits for its
    players unless it is a stress test. *)
Theorem prepared_match_holds_the_roster {FL : F32Libm} {HO : HashOrder} {DB : SkinDb}
    {PD : PlayerDb} lobbies g now c cfg i q game_id pool :
  NoDup (codes lobbies) -> supported g -> sized g -> NoDup (all_users lobbies) ->
  Forall (fun l => ql_matchmaking_pool l = pool) lobbies ->
  config_typed (mg_boost_config cfg) (mg_player_idle_config cfg) -> accepted cfg q g ->
  readable cfg i game_id ->
  find_best_lobby_combination lobbies g now = Ok (Some c) ->
  at_play c ++ at_watch c ≡ₚ all_users (mc_lobbies c)
  /\ exists p, prepare_game_from_lobbies c cfg i g q = Ok p /\ pm_game_id p = game_id
       /\ holds_roster c g pool p.
Proof.
  intros Hd Hg Hz Hu Hp Ht Ha Hr E. destruct (search_ok lobbies g now Hd Hg) as (o & E' & Ho).
  assert (Hc : combination_ok lobbies g c) by (apply Ho; congruence).
  split; [by eapply everyone|]. by eapply prepared_holds_roster.
Qed.

Definition sample_config : ManagerConfig :=
  mkManagerConfig BoostConfig_default PlayerIdleConfig_default 30000.

Definition sample_input : PrepareInput := mkPrepareInput (Ok 7) 1000 1000 1000 1000.

#[local] Instance no_skins : SkinDb :=
  {| get_skin _ := Ok None; get_skin_revision _ _ := Ok None |}.
#[local] Instance no_accounts : PlayerDb := {| get_user_by_id _ := Ok None |}.

Lemma prepared_match_holds_the_roster_witness :
  exists c p, @find_best_lobby_combination insertion_order two_parties (TeamMatch 2) 0
              = Ok (Some c)
    /\ @prepare_game_from_lobbies identity_libm insertion_order no_skins no_accounts c
         sample_config sample_input (TeamMatch 2) Quickmatch = Ok p
    /\ length (gs_snakes (pm_game_state p)) = length (am_players (pm_match_info p)).
Proof.
  destruct (@find_best_lobby_combination insertion_order two_parties (TeamMatch 2) 0)
    as [[c|]|?|?] eqn:E; [|vm_compute in E; discriminate..].
  destruct (@prepared_match_holds_the_roster identity_libm insertion_order no_skins no_accounts
              two_parties (TeamMatch 2) 0 c sample_config sample_input Quickmatch 7 Public)
    as (_ & p & Ep & _ & Hp).
  - apply (bool_decide_unpack _). vm_compute. exact I.
  - cbn. lia.
  - exact I.
  - apply (bool_decide_unpack _). vm_compute. exact I.
  - repeat constructor.
  - repeat split; vm_compute; discriminate.
  - eexists. vm_compute. reflexivity.
  - split; [reflexivity|]. split; [vm_compute; split; discriminate|]. cbn. lia.
  - exact E.
  - exists c, p. split; [reflexivity|]. split; [exact Ep|]. apply (hr_count _ _ _ _ Hp).
Defined.

(** ** Skins *)

(** Only reviewed words enter a match: the skin a player is given is a
    built-in one, or one revision of the authored skin the account has equipped;
    that skin is not disabled, the revision is its published one or the
    creator's own head, and it carries no text unless that revision was
    approved. *)
Theorem only_reviewed_words_enter_a_match {DB : SkinDb} user_id requested :
  let ref := player_skin_reference user_id requested in
  ref ∈ CATALOG
  \/ exists value skin_id skin n r,
       requested = Some value /\ equipped_skin_id value = Some skin_id
       /\ get_skin skin_id = Ok (Some skin) /\ sk_publication skin <> Disabled
       /\ get_skin_revision skin_id n = Ok (Some r) /\ rv_content_ref r = ref
       /\ (sk_published_revision skin = Some n
           \/ (sk_creator_user_id skin = wrap_i32 user_id /\ sk_head_revision skin = n))
       /\ (rv_contains_text r = false \/ rv_review_approved r = true).
Proof.
  intros ref. unfold ref, player_skin_reference.
  assert (Hc : forall q, resolve_skin_ref q ∈ CATALOG).
  { assert (Hd : DEFAULT_SKIN_REF ∈ CATALOG) by (left).
    intros [q|]; [|exact Hd]. unfold resolve_skin_ref. destruct (_ || _); [exact Hd|].
    unfold is_known. case_bool_decide; done. }
  destruct requested as [value|]; [|left; apply Hc].
  destruct (equipped_skin_id value) as [skin_id|] eqn:Ei; [|left; apply Hc].
  destruct (resolve_authored_skin skin_id user_id) as [r|] eqn:Er; [|left; apply Hc].
  right. destruct (resolve_authored_inv _ _ _ Er) as (skin & n & rv & H). cbn.
  exists value, skin_id, skin, n, rv. tauto.
Qed.
