(* ===== verification/Rating.v ===== *)
(** * Ratings: server/src/mmr_persistence.rs

    The rating changes of a finished match and its winners. The rating
    algorithm (the skillratings crate) and the ratings stored in the database
    are parameters. [persist_player_mmr] and what only it calls are not modelled:
    nothing calls it since completion records carry the changes. *)

From Stdlib Require Import ZArith SpecFloat.
From stdpp Require Import prelude strings countable list gmap sorting.
From S2P Require Import Prelude RustFloat Util Snake Arena CommandQueue GameState.
Open Scope Z_scope.

(** ** The rating algorithm *)

Record WengLinRating := mkWengLin {
  wl_rating : spec_float;
  wl_uncertainty : spec_float
}.

Inductive Outcomes := WIN | LOSS | DRAW.

(** A result has the shape of its arguments. *)
Class WengLin := {
  weng_lin : WengLinRating -> WengLinRating -> Outcomes -> WengLinRating * WengLinRating;
  weng_lin_two_teams : list WengLinRating -> list WengLinRating -> Outcomes ->
    list WengLinRating * list WengLinRating;
  weng_lin_multi_team : list (list WengLinRating * nat) -> list (list WengLinRating);
  two_teams_shape a b o :
    length (weng_lin_two_teams a b o).1 = length a
    /\ length (weng_lin_two_teams a b o).2 = length b;
  multi_team_shape l : length <$> weng_lin_multi_team l = length ∘ fst <$> l
}.

(** The ranked and the casual rating of the users it knows. *)
Class RatingDb := { get_user_mmrs : list Z -> Result (gmap Z (Z * Z)) }.

(** [as i32] of a float: truncated, saturating, zero for a NaN. *)
Definition i32_max : Z := 2 ^ 31 - 1.

Definition f64_as_i32 (x : spec_float) : Z :=
  match x with
  | S754_zero _ | S754_nan => 0
  | S754_infinity s => if s then i32_min else i32_max
  | S754_finite s m e =>
      let a := if 0 <=? e then Zpos m * 2 ^ e else Zpos m / 2 ^ (- e) in
      Z.max i32_min (Z.min i32_max (if s then - a else a))
  end.

(** ** The outcome of a match *)

Record MmrEffectSpec := mkSpec {
  ms_user_id : Z;
  ms_delta : Z;
  ms_won : bool
}.

Inductive MmrOutcomeOverride :=
| ScoreBased
| NoContest
| WinningSnake (snake_id : Z).

#[global] Instance MmrOutcomeOverride_eq_dec : EqDecision MmrOutcomeOverride.
Proof. solve_decision. Defined.

Definition mmr_outcome_override (st : GameState) : Result MmrOutcomeOverride :=
  if negb (gs_completed_by_inactivity st) then Ok ScoreBased
  else match gs_status st with
       | Complete (Some snake_id) => Ok (WinningSnake snake_id)
       | Complete None => Ok NoContest
       | _ => Err "game marked completed by inactivity is not terminal"
       end.

Definition user_id_for_snake (st : GameState) (snake_id : Z) : Result Z :=
  match filter (fun e => pl_snake_id e.2 = snake_id) (map_to_list (gs_players st)) with
  | [] => Err "winning snake has no player"
  | [(user_id, _)] => Ok user_id
  | _ => Err "winning snake has multiple players"
  end.

(** [values().max()], and the only team that has it. *)
Definition max_value (l : list Z) : option Z :=
  match l with [] => None | x :: l => Some (foldl Z.max x l) end.

Definition unique_winning_team (team_scores : gmap Z Z) : option TeamId :=
  match max_value (map_to_list team_scores).*2 with
  | None => None
  | Some max_score =>
      match filter (fun e => e.2 = max_score) (map_to_list team_scores) with
      | [(team, _)] => Some team
      | _ => None
      end
  end.

Definition winning_team_for_mmr (st : GameState) : Result (option TeamId) :=
  outcome ← mmr_outcome_override st;
  match outcome with
  | ScoreBased =>
      team_scores ← context "Team scores missing for team match" (gs_team_scores st);
      Ok (unique_winning_team team_scores)
  | NoContest => Ok None
  | WinningSnake snake_id =>
      user_id_for_snake st snake_id ≫= fun _ =>
      s ← context "winning snake is missing" (vec_get (gs_snakes st) snake_id);
      team ← context "winning snake has no team" (sn_team_id s);
      Ok (Some team)
  end.

Definition score_of (st : GameState) (p : Player) : Z :=
  default 0 (gs_scores st !! pl_snake_id p).

(** ** Current ratings *)

Definition ensure_all_mmr_users_exist (mmr_map : gmap Z (Z * Z)) (user_ids : list Z)
  : Result unit :=
  ensure (forallb (fun u => bool_decide (is_Some (mmr_map !! u))) user_ids)
    "Cannot materialize MMR for missing user".

Definition get_mmr (st : GameState) (mmr_map : gmap Z (Z * Z)) (user_id : Z) : Result Z :=
  match mmr_map !! wrap_i32 user_id with
  | Some (ranked, casual) =>
      Ok match gs_queue_mode st with Competitive => ranked | Quickmatch => casual end
  | None => Panic "all participant MMRs checked above"
  end.

Definition f64_350 : spec_float := f64_of_Z 350.

Fixpoint get_ratings (st : GameState) (mmr_map : gmap Z (Z * Z)) (users : list Z)
  : Result (list WengLinRating) :=
  match users with
  | [] => Ok []
  | u :: users =>
      mmr ← get_mmr st mmr_map u;
      rest ← get_ratings st mmr_map users;
      Ok (mkWengLin (f64_of_Z mmr) f64_350 :: rest)
  end.

(** [deltas.insert(user_id, new_mmr - old_mmr)] for the users of one team, from
    index [i] on. *)
Fixpoint insert_deltas (st : GameState) (mmr_map : gmap Z (Z * Z)) (new : Z -> Result WengLinRating)
    (i : Z) (users : list Z) (deltas : gmap Z Z) : Result (gmap Z Z) :=
  match users with
  | [] => Ok deltas
  | u :: users =>
      old_mmr ← get_mmr st mmr_map u;
      rating ← new i;
      insert_deltas st mmr_map new (i + 1) users
        (<[u := wrap_i32 (f64_as_i32 (wl_rating rating) - old_mmr)]> deltas)
  end.

Definition suppress_idle_rating_gains (st : GameState) (deltas : gmap Z Z) : gmap Z Z :=
  foldl (fun m u => alter (fun d => Z.min d 0) u m) deltas (gs_idle_kicked_user_ids st).

(** ** Teams *)

Fixpoint team_rosters (st : GameState) (l : list (Z * Player)) (a b : list Z)
  : Result (list Z * list Z) :=
  match l with
  | [] => Ok (a, b)
  | (user_id, p) :: l =>
      s ← context "Player references a missing snake" (vec_get (gs_snakes st) (pl_snake_id p));
      match sn_team_id s with
      | Some 0 => team_rosters st l (a ++ [user_id]) b
      | Some 1 => team_rosters st l a (b ++ [user_id])
      | _ => team_rosters st l a b
      end
  end.

Section ratings.
Context {WL : WengLin} {RD : RatingDb}.

Definition calculate_team_match_mmr_deltas (st : GameState) : Result (gmap Z Z) :=
  winning_team ← winning_team_for_mmr st;
  '(a, b) ← team_rosters st (map_to_list (gs_players st)) [] [];
  let team_0_users := merge_sort Z.le a in
  let team_1_users := merge_sort Z.le b in
  ensure (match team_0_users, team_1_users with [], _ | _, [] => false | _, _ => true end)
    "One or both teams are empty" ;;
  let all_users := wrap_i32 <$> (team_0_users ++ team_1_users) in
  mmr_map ← get_user_mmrs all_users;
  ensure_all_mmr_users_exist mmr_map all_users ;;
  team_0_ratings ← get_ratings st mmr_map team_0_users;
  team_1_ratings ← get_ratings st mmr_map team_1_users;
  outcome ← match winning_team with
            | Some 0 => Ok WIN
            | Some 1 => Ok LOSS
            | None => Ok DRAW
            | Some _ => Err "Cannot calculate two-team MMR for winning team"
            end;
  let '(new_team_0, new_team_1) := weng_lin_two_teams team_0_ratings team_1_ratings outcome in
  deltas ← insert_deltas st mmr_map (index new_team_0) 0 team_0_users ∅;
  deltas ← insert_deltas st mmr_map (index new_team_1) 0 team_1_users deltas;
  Ok (suppress_idle_rating_gains st deltas).

(** ** Free for all *)

(** The comparison of [sort_by]: the forced winner first, removed players last,
    then the higher score, then the lower user id. *)
Definition bool_cmp (a b : bool) : comparison :=
  match a, b with false, true => Lt | true, false => Gt | _, _ => Eq end.

Definition then_with (c d : comparison) : comparison := match c with Eq => d | _ => c end.

Definition ffa_cmp (st : GameState) (forced : option Z) (left right : Z * Z) : comparison :=
  then_with (bool_cmp (bool_decide (forced = Some right.1)) (bool_decide (forced = Some left.1)))
  (then_with (bool_cmp (is_player_idle_kicked st left.1) (is_player_idle_kicked st right.1))
  (then_with (right.2 ?= left.2) (left.1 ?= right.1))).

Definition ffa_le (st : GameState) (forced : option Z) (left right : Z * Z) : Prop :=
  ffa_cmp st forced left right <> Gt.

#[global] Instance ffa_le_dec st forced l r : Decision (ffa_le st forced l r).
Proof. unfold ffa_le. destruct (ffa_cmp _ _ _ _); [left|left|right]; congruence. Defined.

Definition player_scores (st : GameState) : list (Z * Z) :=
  (fun e => (e.1, score_of st e.2)) <$> map_to_list (gs_players st).

Definition ordered_ffa_player_scores (st : GameState) : Result (list (Z * Z) * bool) :=
  outcome ← mmr_outcome_override st;
  match outcome with
  | NoContest => Ok ([], false)
  | ScoreBased => Ok (merge_sort (ffa_le st None) (player_scores st), false)
  | WinningSnake snake_id =>
      u ← user_id_for_snake st snake_id;
      Ok (merge_sort (ffa_le st (Some u)) (player_scores st), true)
  end.

(** The ranks of the players after the first one, with the rank and the player
    before them. *)
Fixpoint ranks_from (st : GameState) (forced_winner : bool) (index : nat) (rank : nat)
    (previous : Z * Z) (l : list (Z * Z)) : list nat :=
  match l with
  | [] => []
  | x :: l =>
      let rank :=
        if forced_winner && (index =? 1)%nat then 2%nat
        else if xorb (is_player_idle_kicked st x.1) (is_player_idle_kicked st previous.1)
                || (x.2 <? previous.2)
        then S index else rank in
      rank :: ranks_from st forced_winner (S index) rank x l
  end.

Definition ffa_ranks (st : GameState) (forced_winner : bool) (l : list (Z * Z)) : list nat :=
  match l with
  | [] => []
  | x :: l => 1%nat :: ranks_from st forced_winner 1 1 x l
  end.

Definition calculate_ffa_mmr_deltas (st : GameState) : Result (gmap Z Z) :=
  '(scores, forced_winner) ← ordered_ffa_player_scores st;
  let users := scores.*1 in
  let all_users := wrap_i32 <$> users in
  mmr_map ← get_user_mmrs all_users;
  ensure_all_mmr_users_exist mmr_map all_users ;;
  match scores with
  | [(user_0, score_0); (user_1, score_1)] =>
      mmr_0 ← get_mmr st mmr_map user_0;
      mmr_1 ← get_mmr st mmr_map user_1;
      let outcome := if negb forced_winner && (score_0 =? score_1) then DRAW else WIN in
      let '(new_0, new_1) := weng_lin (mkWengLin (f64_of_Z mmr_0) f64_350)
                               (mkWengLin (f64_of_Z mmr_1) f64_350) outcome in
      deltas ← insert_deltas st mmr_map (index [new_0; new_1]) 0 users ∅;
      Ok (suppress_idle_rating_gains st deltas)
  | _ =>
      ratings ← get_ratings st mmr_map users;
      let teams := zip ((fun r => [r]) <$> ratings) (ffa_ranks st forced_winner scores) in
      let new_ratings := weng_lin_multi_team teams in
      deltas ← insert_deltas st mmr_map (fun i => team ← index new_ratings i; index team 0)
                 0 users ∅;
      Ok (suppress_idle_rating_gains st deltas)
  end.

(** ** Winners *)

Definition get_team_match_winners (st : GameState) : Result (gset Z) :=
  winning_team ← winning_team_for_mmr st;
  Ok match winning_team with
     | None => ∅
     | Some team =>
         list_to_set (omap (fun '(user_id, p) =>
           match vec_get (gs_snakes st) (pl_snake_id p) with
           | Some s => if bool_decide (sn_team_id s = Some team)
                          && negb (is_player_idle_kicked st user_id)
                       then Some user_id else None
           | None => None
           end) (map_to_list (gs_players st)))
     end.

Definition get_ffa_winners (st : GameState) : Result (gset Z) :=
  outcome ← mmr_outcome_override st;
  match outcome with
  | NoContest => Ok ∅
  | WinningSnake snake_id => u ← user_id_for_snake st snake_id; Ok {[u]}
  | ScoreBased =>
      let scores := filter (fun e => is_player_idle_kicked st e.1 = false) (player_scores st) in
      let max_score := default 0 (max_value scores.*2) in
      Ok (list_to_set (filter (fun e => e.2 = max_score) scores).*1)
  end.

(** ** The rating effects *)

Definition calculate_mmr_effect_specs (st : GameState) : Result (list MmrEffectSpec) :=
  match gs_game_type st with
  | Solo => Ok []
  | g =>
      outcome ← mmr_outcome_override st;
      match outcome with
      | NoContest => Ok []
      | _ =>
          let teams := match g with
                       | TeamMatch _ => true
                       | Custom _ => match gs_team_scores st with Some _ => true | None => false end
                       | _ => false
                       end in
          deltas ← (if teams then calculate_team_match_mmr_deltas st
                    else calculate_ffa_mmr_deltas st);
          winners ← (if teams then get_team_match_winners st else get_ffa_winners st);
          Ok ((fun e => mkSpec e.1 e.2 (bool_decide (e.1 ∈ winners))) <$> map_to_list deltas)
      end
  end.
End ratings.
