(* ===== verification/Completion.v ===== *)
(** * Completion records: server/src/completion.rs and season.rs

    The immutable record of a finished match, with the effects it has outside
    the match, their validation, and the summary for the history of a player.
    The calendar and the environment variables are a parameter; a Uuid is its
    number, zero for the nil one. *)

From Stdlib Require Import ZArith SpecFloat.
From stdpp Require Import prelude strings countable list gmap sorting.
From S2P Require Import Prelude RustFloat Util Snake Arena CommandQueue GameState GameSetup.
From S2P Require Import Fingerprint Recording StreamId Journal Rating.
Open Scope Z_scope.

(** ** Seasons and regions *)

Definition SEASON_ZERO_YEAR : Z := 2026.
Definition SEASON_ZERO_QUARTER : Z := 2.
Definition QUARTERS_PER_YEAR : Z := 4.

(** The year and the month, from zero, of a timestamp in milliseconds; [None]
    outside the calendar's range. *)
Class CompletionEnv := {
  utc_date : Z -> option (Z * Z);
  region_var : string -> option string
}.

Definition get_season_at (date : Z * Z) : Result Z :=
  let quarter := date.2 / 3 in
  let quarter_index := date.1 * QUARTERS_PER_YEAR + quarter in
  let season_zero_index := SEASON_ZERO_YEAR * QUARTERS_PER_YEAR + SEASON_ZERO_QUARTER in
  let elapsed_quarters := Z.max (quarter_index - season_zero_index) 0 in
  if elapsed_quarters <=? u32_max then Ok elapsed_quarters
  else Panic "chrono's supported year range fits in the numeric season storage type".

Fixpoint first_region (l : list (option string)) : string :=
  match l with
  | [] => "us-east-1"
  | Some region :: l =>
      let region := trim region in
      if bool_decide (region = "") then first_region l else region
  | None :: l => first_region l
  end.

Definition resolve_storage_region (snaketron_aws aws legacy fallback : option string) : string :=
  first_region [snaketron_aws; aws; legacy; fallback].

Definition get_region {CE : CompletionEnv} : string :=
  resolve_storage_region (region_var "SNAKETRON_AWS_REGION") (region_var "AWS_REGION")
    (region_var "REGION") (region_var "SNAKETRON_REGION").

(** ** Equality of game types

    The derived equality compares the spawn rate as a float. *)

#[global] Instance QueueMode_eq_dec : EqDecision QueueMode.
Proof. solve_decision. Defined.
#[global] Instance GameMode_eq_dec : EqDecision GameMode.
Proof. solve_decision. Defined.

Definition settings_eqb (a b : CustomGameSettings) : bool :=
  (cg_arena_width a =? cg_arena_width b) && (cg_arena_height a =? cg_arena_height b)
  && (cg_tick_duration_ms a =? cg_tick_duration_ms b)
  && SFeqb (cg_food_spawn_rate a) (cg_food_spawn_rate b)
  && (cg_max_players a =? cg_max_players b)
  && bool_decide (cg_game_mode a = cg_game_mode b)
  && Bool.eqb (cg_is_private a) (cg_is_private b)
  && Bool.eqb (cg_allow_spectators a) (cg_allow_spectators b)
  && (cg_snake_start_length a =? cg_snake_start_length b).

Definition game_type_eqb (a b : GameType) : bool :=
  match a, b with
  | Solo, Solo => true
  | TeamMatch p, TeamMatch q => p =? q
  | FreeForAll p, FreeForAll q => p =? q
  | Custom s, Custom t => settings_eqb s t
  | _, _ => false
  end.

Definition is_solo (g : GameType) : bool := match g with Solo => true | _ => false end.

(** ** Effects *)

Inductive CompletionEffect :=
| PersistGame (id : string)
| AddXp (id : string) (user_id : Z) (username : string) (amount : Z)
| AddMmr (id : string) (user_id : Z) (username : string) (delta : Z) (queue_mode : QueueMode)
| UpdateRanking (id : string) (user_id : Z) (username : string) (queue_mode : QueueMode)
    (game_type : GameType) (region : string) (season : Z) (won : bool)
| InsertHighScore (id : string) (user_id : Z) (username : string) (score : Z)
    (game_type : GameType) (region : string) (season : Z).

Definition effect_id (e : CompletionEffect) : string :=
  match e with
  | PersistGame id | AddXp id _ _ _ | AddMmr id _ _ _ _ | UpdateRanking id _ _ _ _ _ _ _
  | InsertHighScore id _ _ _ _ _ _ => id
  end.

Definition effect_user_id (e : CompletionEffect) : option Z :=
  match e with
  | PersistGame _ => None
  | AddXp _ u _ _ | AddMmr _ u _ _ _ | UpdateRanking _ u _ _ _ _ _ _
  | InsertHighScore _ u _ _ _ _ _ => Some u
  end.

Definition effect_username (e : CompletionEffect) : option string :=
  match e with
  | PersistGame _ => None
  | AddXp _ _ n _ | AddMmr _ _ n _ _ | UpdateRanking _ _ n _ _ _ _ _
  | InsertHighScore _ _ n _ _ _ _ => Some n
  end.

Definition effect_season (e : CompletionEffect) : option Z :=
  match e with
  | UpdateRanking _ _ _ _ _ _ season _ | InsertHighScore _ _ _ _ _ _ season => Some season
  | _ => None
  end.

(** ** Records *)

Definition COMPLETION_SCHEMA_VERSION : Z := 1.
Definition MATCH_HISTORY_SCHEMA_VERSION : Z := 1.
Definition MAX_HISTORY_TRANSACTION_PLAYERS : Z := 96.
Definition MILLIS_PER_DAY : Z := 24 * 60 * 60 * 1000.

(** What a record reads of a clip. *)
Record ClipHeader := mkClip {
  hc_clip_format_version : Z;
  hc_gameplay_version : Z;
  hc_game_id : Z
}.

Record CompletionRecordV1 := mkCompletionRecord {
  cr_schema_version : Z;
  cr_game_id : Z;
  cr_partition_id : Z;
  cr_revision : Z;
  cr_ended_at_ms : Z;
  cr_server_id : Z;
  cr_season : option Z;
  cr_recording : option GameRecordingV1;
  cr_recording_canonical_bytes : option (list Z);
  cr_recording_journal : option ReplayJournalReferenceV1;
  cr_play_of_the_game : option ClipHeader;
  cr_final_state : GameState;
  cr_effects : list CompletionEffect
}.

Definition find_effect (c : CompletionRecordV1) (id : string) : option CompletionEffect :=
  snd <$> list_find (fun e => effect_id e = id) (cr_effects c).

Definition username_for (st : GameState) (user_id : Z) : string :=
  default ("User" +:+ display_uint user_id) (gs_usernames st !! user_id).

Definition validate_player (c : CompletionRecordV1) (user_id : Z) : Result unit :=
  ensure (bool_decide (is_Some (gs_players (cr_final_state c) !! user_id)))
    "completion effect references non-player user".

Definition expected_id (c : CompletionRecordV1) (e : CompletionEffect) : Result string :=
  let st := cr_final_state c in
  match e with
  | PersistGame _ => Ok "game"
  | AddXp _ user_id _ amount =>
      ensure (negb (amount =? 0)) "zero XP must not be materialized as an effect" ;;
      validate_player c user_id ;;
      ensure (negb ((i32_max <? amount)
                    || negb (bool_decide (gs_player_xp st !! user_id = Some amount))))
        "XP effect does not match the completed game state" ;;
      Ok ("xp:" +:+ display_uint user_id)
  | AddMmr _ user_id _ _ queue_mode =>
      validate_player c user_id ;;
      ensure (negb (negb (bool_decide (queue_mode = gs_queue_mode st))
                    || is_solo (gs_game_type st)))
        "MMR effect does not match the completed game mode" ;;
      Ok ("mmr:" +:+ display_uint user_id)
  | UpdateRanking _ user_id _ queue_mode game_type region _ _ =>
      validate_player c user_id ;;
      ensure (negb (negb (bool_decide (queue_mode = gs_queue_mode st))
                    || negb (game_type_eqb game_type (gs_game_type st))
                    || is_solo game_type || bool_decide (region = "")))
        "ranking effect does not match the completed game" ;;
      Ok ("ranking:" +:+ display_uint user_id)
  | InsertHighScore _ user_id _ score game_type region _ =>
      validate_player c user_id ;;
      match gs_players st !! user_id with
      | None => Panic "player checked above"
      | Some p =>
          ensure (negb (negb (game_type_eqb game_type (gs_game_type st))
                        || negb (is_solo game_type) || bool_decide (region = "")
                        || negb (score =? score_of st p) || (i32_max <? score)))
            "high-score effect does not match the completed solo game" ;;
          Ok ("high_score:" +:+ display_uint user_id)
      end
  end.

Definition validate_identity (c : CompletionRecordV1) (e : CompletionEffect) : Result unit :=
  expected ← expected_id c e;
  ensure (bool_decide (effect_id e = expected)) "completion effect id must be another" ;;
  ensure (match effect_user_id e with Some u => negb (i32_max <? u) | None => true end)
    "effect user id exceeds database range" ;;
  ensure (match effect_user_id e, effect_username e with
          | Some u, Some n => bool_decide (n = username_for (cr_final_state c) u)
          | _, _ => true
          end) "effect username does not match the completed game state".

Definition is_persist (e : CompletionEffect) : bool :=
  match e with PersistGame _ => true | _ => false end.

(** The loop over the effects, with the ids seen so far and the count of
    [PersistGame]. *)
Fixpoint check_effects (c : CompletionRecordV1) (l : list CompletionEffect) (ids : gset string)
    (persist_game_count : nat) : Result nat :=
  match l with
  | [] => Ok persist_game_count
  | e :: l =>
      ensure (negb (bool_decide (effect_id e = ""))) "completion effect id cannot be empty" ;;
      ensure (bool_decide (effect_id e ∉ ids)) "completion effect id is duplicated" ;;
      validate_identity c e ;;
      ensure (match cr_season c, effect_season e with
              | Some s, Some t => s =? t
              | _, _ => true
              end) "completion season does not match effect season" ;;
      check_effects c l ({[effect_id e]} ∪ ids)
        (if is_persist e then S persist_game_count else persist_game_count)
  end.

Definition is_xp_of (u : Z) (e : CompletionEffect) : bool :=
  match e with AddXp _ v _ _ => v =? u | _ => false end.
Definition is_mmr_of (u : Z) (e : CompletionEffect) : bool :=
  match e with AddMmr _ v _ _ _ => v =? u | _ => false end.
Definition is_ranking_of (u : Z) (e : CompletionEffect) : bool :=
  match e with UpdateRanking _ v _ _ _ _ _ _ => v =? u | _ => false end.
Definition is_high_score_of (u : Z) (e : CompletionEffect) : bool :=
  match e with InsertHighScore _ v _ _ _ _ _ => v =? u | _ => false end.

Definition count (f : CompletionEffect -> bool) (l : list CompletionEffect) : nat :=
  length (filter (fun e => f e = true) l).

Definition check_ranking (c : CompletionRecordV1) (e : CompletionEffect) : Result unit :=
  match e with
  | UpdateRanking _ u _ q _ _ _ _ =>
      ensure (count (fun e => match e with
                              | AddMmr _ v _ _ r => (v =? u)%Z && bool_decide (r = q)
                              | _ => false
                              end) (cr_effects c) =? 1)%nat
        "ranking effect must have exactly one matching MMR effect"
  | _ => Ok tt
  end.

Definition check_player_effects (c : CompletionRecordV1) (inactivity_abandoned : bool) (u : Z)
  : Result unit :=
  let st := cr_final_state c in
  let n f := count (f u) (cr_effects c) in
  let expected_xp := if 0 <? default 0 (gs_player_xp st !! u) then 1%nat else 0%nat in
  ensure (n is_xp_of =? expected_xp)%nat "completion has an incomplete XP effect set for user" ;;
  if is_solo (gs_game_type st) then
    ensure ((n is_mmr_of =? 0) && (n is_ranking_of =? 0) && (n is_high_score_of =? 1))%nat
      "completion has an incomplete solo effect set for user"
  else if inactivity_abandoned then
    ensure ((n is_mmr_of =? 0) && (n is_ranking_of =? 0) && (n is_high_score_of =? 0))%nat
      "abandoned inactivity completion cannot contain player progression effects"
  else
    ensure ((n is_mmr_of =? 1) && (n is_ranking_of =? 1) && (n is_high_score_of =? 0))%nat
      "completion has an incomplete MMR effect set for user".

Definition check_recording (c : CompletionRecordV1) (r : GameRecordingV1) : Result unit :=
  ensure (negb (negb (gr_format_version r =? GAME_RECORDING_FORMAT_VERSION)
                || negb (gr_gameplay_version r =? GAMEPLAY_REPLAY_VERSION)
                || match gr_anchors r with [] => true | _ => false end))
    "completion recording format is incompatible" ;;
  ensure (gr_game_id r =? cr_game_id c) "completion recording targets a different game" ;;
  ensure (gr_end_tick r =? gs_tick (cr_final_state c))
    "completion recording does not match final state" ;;
  hash ← sync_hash (cr_final_state c);
  ensure (gr_end_sync_hash r =? hash) "completion recording does not match final state".

Definition check_journal (c : CompletionRecordV1) (j : ReplayJournalReferenceV1) : Result unit :=
  reference_validate j ;;
  ensure (jr_game_id j =? cr_game_id c) "completion replay journal targets a different game" ;;
  ensure (match jr_end_tick j with
          | Some t => t =? gs_tick (cr_final_state c)
          | None => true
          end) "completion replay journal does not match final-state metadata" ;;
  match jr_end_sync_hash j with
  | Some h =>
      hash ← sync_hash (cr_final_state c);
      ensure (h =? hash) "completion replay journal does not match final-state metadata"
  | None => Ok tt
  end.

Definition is_some {A} (o : option A) : bool := match o with Some _ => true | None => false end.

Definition is_terminal (s : GameStatus) : bool := match s with Complete _ => true | _ => false end.

Definition completion_validate {CE : CompletionEnv} (c : CompletionRecordV1) : Result unit :=
  let st := cr_final_state c in
  ensure (cr_schema_version c =? COMPLETION_SCHEMA_VERSION)
    "unsupported completion schema version" ;;
  ensure (cr_game_id c <=? i32_max) "completion game id exceeds database range" ;;
  ensure (cr_server_id c <=? i32_max) "completion server id exceeds database range" ;;
  ensure (negb (cr_revision c =? 0)) "completion revision cannot be nil" ;;
  ensure (is_some (utc_date (cr_ended_at_ms c)))
    "completion timestamp is outside the supported range" ;;
  ensure (negb (cr_ended_at_ms c <? gs_start_ms st))
    "completion cannot end before the game starts" ;;
  ensure (is_terminal (gs_status st)) "completion record is not terminal" ;;
  match cr_recording c with Some r => check_recording c r | None => Ok tt end ;;
  ensure (negb (is_some (cr_recording c) && is_some (cr_recording_journal c)))
    "completion cannot contain both inline and journal replay sources" ;;
  ensure (negb (is_some (cr_recording_canonical_bytes c) && negb (is_some (cr_recording c))))
    "completion canonical replay bytes require a materialized recording" ;;
  match cr_recording_journal c with Some j => check_journal c j | None => Ok tt end ;;
  match cr_play_of_the_game c with
  | Some clip =>
      ensure (negb (negb (hc_clip_format_version clip =? HIGHLIGHT_CLIP_FORMAT_VERSION)
                    || negb (hc_gameplay_version clip =? GAMEPLAY_REPLAY_VERSION)))
        "completion highlight format is incompatible" ;;
      ensure (hc_game_id clip =? cr_game_id c) "completion highlight targets a different game"
  | None => Ok tt
  end ;;
  ensure (negb (gs_is_stress_test st
                && (is_some (cr_recording c) || is_some (cr_recording_journal c)
                    || is_some (cr_play_of_the_game c))))
    "stress-test completion must not contain replay artifacts" ;;
  persist_game_count ← check_effects c (cr_effects c) ∅ 0;
  ensure (persist_game_count =? 1)%nat
    "completion must contain exactly one persist-game effect" ;;
  ensure (negb (gs_is_stress_test st && negb (length (cr_effects c) =? 1)%nat))
    "stress-test completion must not contain progression or ranking effects" ;;
  ensure (negb (negb (gs_is_stress_test st)
                && (MAX_HISTORY_TRANSACTION_PLAYERS <? Z.of_nat (size (gs_players st)))))
    "completion has too many players to be persisted atomically with history" ;;
  for_each (cr_effects c) (check_ranking c) ;;
  for_each (map_to_list (gs_player_xp st)) (fun e =>
    ensure (negb ((0 <? e.2) && negb (bool_decide (is_Some (gs_players st !! e.1)))))
      "completed game awards XP to non-player user") ;;
  if gs_is_stress_test st then Ok tt
  else
    let inactivity_abandoned :=
      gs_completed_by_inactivity st
      && match gs_status st with Complete None => true | _ => false end in
    for_each (map_to_list (gs_players st)).*1 (check_player_effects c inactivity_abandoned).

Definition effect_eqb (a b : CompletionEffect) : bool :=
  match a, b with
  | PersistGame i, PersistGame j => bool_decide (i = j)
  | AddXp i u n x, AddXp j v m y => bool_decide (i = j /\ u = v /\ n = m /\ x = y)
  | AddMmr i u n d q, AddMmr j v m e r => bool_decide (i = j /\ u = v /\ n = m /\ d = e /\ q = r)
  | UpdateRanking i u n q g x s w, UpdateRanking j v m r h y t z =>
      bool_decide (i = j /\ u = v /\ n = m /\ q = r) && game_type_eqb g h
      && bool_decide (x = y /\ s = t /\ w = z)
  | InsertHighScore i u n x g a s, InsertHighScore j v m y h b t =>
      bool_decide (i = j /\ u = v /\ n = m /\ x = y) && game_type_eqb g h
      && bool_decide (a = b /\ s = t)
  | _, _ => false
  end.

Definition validate_effect {CE : CompletionEnv} (c : CompletionRecordV1) (e : CompletionEffect)
  : Result unit :=
  completion_validate c ;;
  match find_effect c (effect_id e) with
  | Some recorded =>
      ensure (effect_eqb recorded e) "completion effect does not match its durable payload"
  | None => Err "completion effect is not present in the durable record"
  end.

(** ** Materialization *)

Definition season_for_completion_timestamp {CE : CompletionEnv} (ended_at_ms : Z) : Result Z :=
  date ← context "invalid completion timestamp" (utc_date ended_at_ms);
  get_season_at date.

Definition xp_effects (st : GameState) (player_ids : list Z) : list CompletionEffect :=
  omap (fun u =>
    let amount := default 0 (gs_player_xp st !! u) in
    if amount =? 0 then None
    else Some (AddXp ("xp:" +:+ display_uint u) u (username_for st u) amount)) player_ids.

Fixpoint high_score_effects (st : GameState) (region : string) (season : Z) (player_ids : list Z)
  : Result (list CompletionEffect) :=
  match player_ids with
  | [] => Ok []
  | u :: player_ids =>
      match gs_players st !! u with
      | None => Panic "player id collected from same state"
      | Some p =>
          rest ← high_score_effects st region season player_ids;
          Ok (InsertHighScore ("high_score:" +:+ display_uint u) u (username_for st u)
                (score_of st p) (gs_game_type st) region season :: rest)
      end
  end.

Definition spec_le (a b : MmrEffectSpec) : Prop := ms_user_id a <= ms_user_id b.
#[global] Instance spec_le_dec a b : Decision (spec_le a b).
Proof. unfold spec_le. apply _. Defined.

Definition rating_effects (st : GameState) (region : string) (season : Z)
    (specs : list MmrEffectSpec) : list CompletionEffect :=
  concat ((fun s =>
    let u := ms_user_id s in
    [AddMmr ("mmr:" +:+ display_uint u) u (username_for st u) (ms_delta s) (gs_queue_mode st);
     UpdateRanking ("ranking:" +:+ display_uint u) u (username_for st u) (gs_queue_mode st)
       (gs_game_type st) region season (ms_won s)]) <$> merge_sort spec_le specs).

Definition player_ids (st : GameState) : list Z :=
  merge_sort Z.le (map_to_list (gs_players st)).*1.

(** The effects before and after [PersistGame]. *)
Definition progression_effects {CE : CompletionEnv} {WL : WengLin} {RD : RatingDb}
    (st : GameState) (season : Z) : Result (list CompletionEffect * list CompletionEffect) :=
  if gs_is_stress_test st then Ok ([], [])
  else
    let xp := xp_effects st (player_ids st) in
    if is_solo (gs_game_type st) then
      scores ← high_score_effects st get_region season (player_ids st);
      Ok (xp, scores)
    else
      specs ← calculate_mmr_effect_specs st;
      Ok (xp ++ rating_effects st get_region season specs, []).

Definition materialize_completion {CE : CompletionEnv} {WL : WengLin} {RD : RatingDb}
    (game_id partition_id server_id : Z) (final_state : GameState) (ended_at_ms revision : Z)
  : Result CompletionRecordV1 :=
  ensure (is_terminal (gs_status final_state))
    "cannot materialize completion for non-terminal game" ;;
  season ← season_for_completion_timestamp ended_at_ms;
  '(effects, post_persist_effects) ← progression_effects final_state season;
  let record :=
    {| cr_schema_version := COMPLETION_SCHEMA_VERSION; cr_game_id := game_id;
       cr_partition_id := partition_id; cr_revision := revision;
       cr_ended_at_ms := ended_at_ms; cr_server_id := server_id; cr_season := Some season;
       cr_recording := None; cr_recording_canonical_bytes := None;
       cr_recording_journal := None; cr_play_of_the_game := None;
       cr_final_state := final_state;
       cr_effects := effects ++ [PersistGame "game"] ++ post_persist_effects |} in
  completion_validate record ;;
  Ok record.

(** ** Application *)

Inductive EffectApplyResult := Applied | AlreadyApplied.

(** [db.apply_completion_effect] as a function to the database it leaves. *)
Fixpoint apply_each {D} (apply : D -> CompletionEffect -> Result (EffectApplyResult * D))
    (db : D) (l : list CompletionEffect) : Result (list (string * EffectApplyResult) * D) :=
  match l with
  | [] => Ok ([], db)
  | e :: l =>
      '(result, db) ← apply db e;
      '(rest, db) ← apply_each apply db l;
      Ok ((effect_id e, result) :: rest, db)
  end.

Definition apply_all_effects {CE : CompletionEnv} {D}
    (apply : CompletionRecordV1 -> D -> CompletionEffect -> Result (EffectApplyResult * D))
    (db : D) (c : CompletionRecordV1) : Result (list (string * EffectApplyResult) * D) :=
  completion_validate c ;;
  apply_each (apply c) db (cr_effects c).

(** ** The summary for the history *)

Record MatchHistoryPlayer := mkHistoryPlayer {
  hp_user_id : Z;
  hp_username : string;
  hp_team_id : option Z;
  hp_score : Z;
  hp_team_score : option Z;
  hp_xp_gained : Z;
  hp_mmr_delta : option Z;
  hp_outcome : string
}.

Record MatchHistorySummary := mkHistorySummary {
  hs_schema_version : Z;
  hs_game_id : Z;
  hs_started_at_ms : Z;
  hs_ended_at_ms : Z;
  hs_duration_ms : Z;
  hs_mode : string;
  hs_mode_label : string;
  hs_queue_mode : string;
  hs_is_private : bool;
  hs_is_stress_test : bool;
  hs_completed_by_inactivity : bool;
  hs_players : list MatchHistoryPlayer;
  hs_winner_user_ids : list Z;
  hs_snapshot_available_until_ms : Z
}.

Definition mode_names (g : GameType) : string * string :=
  match g with
  | Solo => ("solo", "Solo")
  | TeamMatch 1 => ("duel", "Duel")
  | TeamMatch 2 => ("2v2", "2v2")
  | TeamMatch per_team =>
      let name := display_uint per_team +:+ "v" +:+ display_uint per_team in (name, name)
  | FreeForAll _ => ("ffa", "Free for All")
  | Custom _ => ("custom", "Custom")
  end.

Definition ranking_winners (l : list CompletionEffect) : list Z :=
  omap (fun e => match e with UpdateRanking _ u _ _ _ _ _ true => Some u | _ => None end) l.

(** The players the terminal status names: the winner, and in a team match its
    team, without those removed. *)
Definition terminal_winners (st : GameState) : list Z :=
  match gs_status st with
  | Complete (Some winning_snake_id) =>
      let winning_team := vec_get (gs_snakes st) winning_snake_id ≫= sn_team_id in
      omap (fun '(user_id, p) =>
        if is_player_idle_kicked st user_id then None
        else match vec_get (gs_snakes st) (pl_snake_id p) with
             | None => None
             | Some s =>
                 let won := match winning_team with
                            | Some team => bool_decide (sn_team_id s = Some team)
                            | None => pl_snake_id p =? winning_snake_id
                            end in
                 if won then Some user_id else None
             end) (map_to_list (gs_players st))
  | _ => []
  end.

Definition winner_user_ids (c : CompletionRecordV1) : list Z :=
  let st := cr_final_state c in
  let ranked := ranking_winners (cr_effects c) in
  let winners := match ranked with
                 | [] => if is_solo (gs_game_type st) then [] else terminal_winners st
                 | _ => ranked
                 end in
  remove_dups (merge_sort Z.le winners).

Definition mmr_deltas (l : list CompletionEffect) : gmap Z Z :=
  foldl (fun m e => match e with AddMmr _ u _ d _ => <[u := d]> m | _ => m end) ∅ l.

Definition history_outcome (st : GameState) (winners : list Z) (user_id : Z) : string :=
  if is_solo (gs_game_type st) then "completed"
  else if is_player_idle_kicked st user_id then "removed"
  else if bool_decide (user_id ∈ winners) then "win"
  else match winners with
       | [] => if (1 <? size (gs_players st))%nat then "draw" else "completed"
       | _ => "loss"
       end.

Fixpoint history_players (c : CompletionRecordV1) (ids : list Z)
  : Result (list MatchHistoryPlayer) :=
  let st := cr_final_state c in
  match ids with
  | [] => Ok []
  | u :: ids =>
      match gs_players st !! u with
      | None => Panic "player id came from the same map"
      | Some p =>
          let team_id := vec_get (gs_snakes st) (pl_snake_id p) ≫= sn_team_id in
          rest ← history_players c ids;
          Ok ({| hp_user_id := u; hp_username := username_for st u; hp_team_id := team_id;
                 hp_score := score_of st p;
                 hp_team_score := t ← team_id; scores ← gs_team_scores st; scores !! t;
                 hp_xp_gained := default 0 (gs_player_xp st !! u);
                 hp_mmr_delta := mmr_deltas (cr_effects c) !! u;
                 hp_outcome := history_outcome st (winner_user_ids c) u |} :: rest)
      end
  end.

Definition sat_i64 (z : Z) : Z := Z.max (- 2 ^ 63) (Z.min (2 ^ 63 - 1) z).

Definition match_history_summary (c : CompletionRecordV1) (snapshot_retention_days : Z)
  : Result MatchHistorySummary :=
  let st := cr_final_state c in
  let '(mode, mode_label) := mode_names (gs_game_type st) in
  players ← history_players c (player_ids st);
  Ok {| hs_schema_version := MATCH_HISTORY_SCHEMA_VERSION; hs_game_id := cr_game_id c;
        hs_started_at_ms := default (gs_start_ms st) (gs_simulation_epoch_ms st);
        hs_ended_at_ms := cr_ended_at_ms c; hs_duration_ms := elapsed_match_ms st;
        hs_mode := mode; hs_mode_label := mode_label;
        hs_queue_mode := match gs_queue_mode st with
                         | Quickmatch => "quickmatch"
                         | Competitive => "competitive"
                         end;
        hs_is_private :=
          is_some (gs_game_code st)
          || match gs_game_type st with Custom settings => cg_is_private settings | _ => false end;
        hs_is_stress_test := gs_is_stress_test st;
        hs_completed_by_inactivity := gs_completed_by_inactivity st;
        hs_players := players; hs_winner_user_ids := winner_user_ids c;
        hs_snapshot_available_until_ms :=
          sat_i64 (cr_ended_at_ms c + sat_i64 (snapshot_retention_days * MILLIS_PER_DAY)) |}.
