(* ===== verification/RatingFacts.v ===== *)
(** * Facts about ratings

    When the rating effects of a match can be computed, whom they cover, and the
    places of a free for all. *)

From Stdlib Require Import ZArith Lia SpecFloat.
From stdpp Require Import prelude strings countable list gmap sorting.
From S2P Require Import Prelude RustFloat Util Snake Arena CommandQueue GameState Rating.
Open Scope Z_scope.

(** ** Rating changes *)

Section changes.
Variables (st : GameState) (m : gmap Z (Z * Z)).

Lemma get_mmr_ok u : is_Some (m !! wrap_i32 u) -> exists x, get_mmr st m u = Ok x.
Proof. intros [[r c] E]. unfold get_mmr. rewrite E. by eexists. Qed.

Definition known (users : list Z) : Prop := Forall (fun u => is_Some (m !! wrap_i32 u)) users.

Lemma known_exists users :
  known users -> ensure_all_mmr_users_exist m (wrap_i32 <$> users) = Ok tt.
Proof.
  intros H. unfold ensure_all_mmr_users_exist. apply ensure_ok, forallb_forall.
  intros x Hx%list_elem_of_In. apply list_elem_of_fmap in Hx as (u & -> & Hu).
  apply bool_decide_eq_true. unfold known in H. rewrite Forall_forall in H. by apply H.
Qed.

Lemma get_ratings_ok users :
  known users -> exists rs, get_ratings st m users = Ok rs /\ length rs = length users.
Proof.
  induction 1 as [|u users Hu _ (rs & E & El)]; cbn [get_ratings]; [by exists []|].
  destruct (get_mmr_ok u Hu) as [x Ex]. rewrite Ex, E. cbn. eexists. split; [done|].
  cbn. by rewrite El.
Qed.

Lemma insert_deltas_ok new i users deltas :
  known users -> (forall k, i <= k < i + Z.of_nat (length users) -> exists r, new k = Ok r) ->
  exists d, insert_deltas st m new i users deltas = Ok d
    /\ dom d = dom deltas ∪ list_to_set users.
Proof.
  revert i deltas. induction users as [|u users IH]; intros i deltas Hk Hn; cbn [insert_deltas].
  { exists deltas. split; [done|]. set_solver. }
  unfold known in Hk. apply Forall_cons in Hk as [Hu Hk].
  destruct (get_mmr_ok u Hu) as [x Ex]. destruct (Hn i) as [r Er]; [cbn [length]; lia|].
  rewrite Ex, Er. cbn [mbind result_bind].
  destruct (IH (i + 1) (<[u := wrap_i32 (f64_as_i32 (wl_rating r) - x)]> deltas) Hk)
    as (d & -> & Hd).
  { intros k Hki. apply Hn. cbn [length]. lia. }
  exists d. split; [done|]. rewrite Hd, dom_insert_L. cbn. set_solver.
Qed.

Lemma index_total {A} (l : list A) n k :
  length l = n -> 0 <= k < 0 + Z.of_nat n -> exists r, index l k = Ok r.
Proof.
  intros <- Hk. destruct (vec_get_lt_Some l k) as [r Er]; [unfold vec_len; lia|].
  exists r. by apply index_ok.
Qed.
End changes.

Lemma suppress_fold users (d : gmap Z Z) :
  let d' := foldl (fun m u => alter (fun d => Z.min d 0) u m) d users in
  dom d' = dom d
  /\ forall u x, d' !! u = Some x -> (u ∈ users -> x <= 0) /\ exists y, d !! u = Some y /\ x <= y.
Proof.
  revert d. induction users as [|v users IH]; intros d; cbn zeta; cbn [foldl].
  { split; [done|]. intros u x Hx. split; [by intros ?%not_elem_of_nil|]. by exists x. }
  destruct (IH (alter (fun d => Z.min d 0) v d)) as [E H]. split; [by rewrite E, dom_alter_L|].
  intros u x Hx. destruct (H u x Hx) as (H1 & y & Hy & Hle).
  destruct (decide (u = v)) as [->|Hne].
  - rewrite lookup_alter_eq in Hy. destruct (d !! v) as [z|]; [|done]. injection Hy as <-.
    split; [intros _; lia|]. exists z. split; [done|lia].
  - rewrite lookup_alter_ne in Hy by done. split; [|by exists y].
    intros [Hu|Hu]%elem_of_cons; [done|]. by apply H1.
Qed.

Lemma suppress_dom st d : dom (suppress_idle_rating_gains st d) = dom d.
Proof. apply suppress_fold. Qed.

Lemma suppress_idle st d u x :
  suppress_idle_rating_gains st d !! u = Some x -> is_player_idle_kicked st u = true -> x <= 0.
Proof.
  intros Hx Hi. apply bool_decide_eq_true in Hi.
  by apply (proj2 (suppress_fold (gs_idle_kicked_user_ids st) d) u x Hx).
Qed.

(** ** Matches that can be rated *)

Definition rated_in_teams (st : GameState) : bool :=
  match gs_game_type st with
  | TeamMatch _ => true
  | Custom _ => match gs_team_scores st with Some _ => true | None => false end
  | _ => false
  end.

Definition player_team (st : GameState) (p : Player) : option TeamId :=
  vec_get (gs_snakes st) (pl_snake_id p) ≫= sn_team_id.

(** Players own distinct snakes; a match that inactivity ended names the snake
    of a player who was not removed; teams are two, both have a player, and only
    they have scores. *)
Record rateable (st : GameState) : Prop := {
  rt_snakes u p : gs_players st !! u = Some p -> is_Some (vec_get (gs_snakes st) (pl_snake_id p));
  rt_distinct u v p q : gs_players st !! u = Some p -> gs_players st !! v = Some q ->
    pl_snake_id p = pl_snake_id q -> u = v;
  rt_terminal : is_complete st = true;
  rt_winner w : gs_completed_by_inactivity st = true -> gs_status st = Complete (Some w) ->
    exists u p, gs_players st !! u = Some p /\ pl_snake_id p = w
                /\ is_player_idle_kicked st u = false;
  rt_teams : rated_in_teams st = true ->
    (exists scores, gs_team_scores st = Some scores
                    /\ forall t, is_Some (scores !! t) -> t = 0 \/ t = 1)
    /\ (forall u p, gs_players st !! u = Some p ->
          player_team st p = Some 0 \/ player_team st p = Some 1)
    /\ (exists u p, gs_players st !! u = Some p /\ player_team st p = Some 0)
    /\ (exists u p, gs_players st !! u = Some p /\ player_team st p = Some 1)
}.

Section rated.
Variable st : GameState.
Hypothesis R : rateable st.

Lemma override_ok : exists o, mmr_outcome_override st = Ok o.
Proof.
  unfold mmr_outcome_override. pose proof (rt_terminal _ R) as H. unfold is_complete in H.
  destruct (gs_completed_by_inactivity st); [|by eexists].
  destruct (gs_status st) as [| |[w|]]; try done; by eexists.
Qed.

Lemma override_winner w :
  mmr_outcome_override st = Ok (WinningSnake w) ->
  exists u p, gs_players st !! u = Some p /\ pl_snake_id p = w
    /\ is_player_idle_kicked st u = false /\ user_id_for_snake st w = Ok u.
Proof.
  unfold mmr_outcome_override. destruct (gs_completed_by_inactivity st) eqn:Ec; [|done].
  destruct (gs_status st) as [| |[w'|]] eqn:Es; try done. intros [= ->].
  destruct (rt_winner _ R w Ec Es) as (u & p & Hp & Hw & Hk). exists u, p.
  split; [done|]. split; [done|]. split; [done|]. unfold user_id_for_snake.
  assert (Hf : forall e, e ∈ filter (fun e => pl_snake_id e.2 = w) (map_to_list (gs_players st)) ->
            e = (u, p)).
  { intros [v q] [Hq Hin]%list_elem_of_filter. cbn in Hq. apply elem_of_map_to_list in Hin.
    assert (v = u) as -> by (eapply (rt_distinct _ R); eauto; congruence). congruence. }
  assert (Hin : (u, p) ∈ filter (fun e => pl_snake_id e.2 = w) (map_to_list (gs_players st))).
  { apply list_elem_of_filter. split; [done|]. by apply elem_of_map_to_list. }
  assert (Hd : NoDup (filter (fun e => pl_snake_id e.2 = w) (map_to_list (gs_players st)))).
  { apply NoDup_filter, NoDup_map_to_list. }
  destruct (filter _ _) as [|[v q] [|[v' q'] l]]; [by apply not_elem_of_nil in Hin|..].
  - apply list_elem_of_singleton in Hin. by simplify_eq.
  - exfalso. apply NoDup_cons in Hd as [Hn _]. apply Hn.
    rewrite (Hf (v, q)) by left. rewrite (Hf (v', q')) by (right; left). left.
Qed.

Lemma unique_winning_in scores t :
  unique_winning_team scores = Some t -> is_Some (scores !! t).
Proof.
  unfold unique_winning_team. destruct (max_value _) as [mx|]; [|done].
  destruct (filter _ _) as [|[u x] [|? ?]] eqn:E; try done. intros [= <-].
  assert (H : (u, x) ∈ filter (fun e => e.2 = mx) (map_to_list scores)) by (rewrite E; left).
  apply list_elem_of_filter in H as [_ H]. apply elem_of_map_to_list in H. by eexists.
Qed.

Lemma winning_team_ok :
  rated_in_teams st = true ->
  exists o, winning_team_for_mmr st = Ok o /\ (o = None \/ o = Some 0 \/ o = Some 1).
Proof.
  intros Ht. destruct (rt_teams _ R Ht) as ((scores & Es & Hk) & Hp & _).
  unfold winning_team_for_mmr. destruct override_ok as [o Eo]. rewrite Eo. cbn [mbind result_bind].
  destruct o as [| |w].
  - rewrite Es. cbn. eexists. split; [done|].
    destruct (unique_winning_team scores) as [t|] eqn:Eu; [|by left].
    apply unique_winning_in, Hk in Eu as [-> | ->]; auto.
  - eexists. split; [done|]. by left.
  - destruct (override_winner w Eo) as (u & p & Hu & Hw & _ & ->). cbn [mbind result_bind].
    specialize (Hp u p Hu). unfold player_team in Hp. rewrite Hw in Hp.
    destruct (vec_get (gs_snakes st) w) as [s|]; cbn in Hp; [|by destruct Hp].
    cbn. destruct (sn_team_id s) as [t|]; cbn; [|by destruct Hp]. eexists. split; [done|].
    destruct Hp as [-> | ->]; auto.
Qed.
End rated.

(** ** Team matches *)

Section teams.
Context {WL : WengLin} {RD : RatingDb} (st : GameState).
Hypothesis R : rateable st.
Hypothesis in_teams : rated_in_teams st = true.

Lemma team_rosters_ok l a b :
  (forall e, e ∈ l -> player_team st e.2 = Some 0 \/ player_team st e.2 = Some 1) ->
  exists a' b', team_rosters st l a b = Ok (a ++ a', b ++ b') /\ a' ++ b' ≡ₚ l.*1
    /\ (forall u, u ∈ a' <-> exists p, (u, p) ∈ l /\ player_team st p = Some 0)
    /\ (forall u, u ∈ b' <-> exists p, (u, p) ∈ l /\ player_team st p = Some 1).
Proof.
  revert a b. induction l as [|[u p] l IH]; intros a b H; cbn [team_rosters].
  { exists [], []. rewrite !app_nil_r. split; [done|]. split; [done|].
    split; intros u; (split; [by intros ?%not_elem_of_nil|by intros (? & ?%not_elem_of_nil & _)]). }
  assert (Hp := H (u, p) ltac:(left)). unfold player_team in Hp. cbn [snd] in Hp.
  assert (Hl : forall e, e ∈ l -> player_team st e.2 = Some 0 \/ player_team st e.2 = Some 1).
  { intros e He. apply H. by right. }
  destruct (vec_get (gs_snakes st) (pl_snake_id p)) as [s|] eqn:Es; cbn in Hp; [|by destruct Hp].
  cbn [context mbind result_bind].
  destruct Hp as [Hp|Hp]; rewrite Hp.
  - destruct (IH (a ++ [u]) b Hl) as (a' & b' & -> & HP & HA & HB). exists (u :: a'), b'.
    rewrite <-app_assoc. split; [done|]. split; [cbn; by rewrite HP|]. split; intros v.
    + rewrite elem_of_cons, HA. setoid_rewrite elem_of_cons. split.
      * intros [->|(q & ? & ?)]; [exists p|exists q]; [|tauto]. split; [by left|].
        unfold player_team. by rewrite Es.
      * intros (q & [[= -> ->]|?] & ?); [by left|right; by exists q].
    + rewrite HB. setoid_rewrite elem_of_cons. split; [intros (q & ? & ?); exists q; tauto|].
      intros (q & [[= -> ->]|?] & Hq); [|by exists q]. unfold player_team in Hq.
      rewrite Es in Hq. cbn in Hq. congruence.
  - destruct (IH a (b ++ [u]) Hl) as (a' & b' & -> & HP & HA & HB). exists a', (u :: b').
    rewrite <-app_assoc. split; [done|]. split; [cbn; by rewrite <-HP, Permutation_middle|].
    split; intros v.
    + rewrite HA. setoid_rewrite elem_of_cons. split; [intros (q & ? & ?); exists q; tauto|].
      intros (q & [[= -> ->]|?] & Hq); [|by exists q]. unfold player_team in Hq.
      rewrite Es in Hq. cbn in Hq. congruence.
    + rewrite elem_of_cons, HB. setoid_rewrite elem_of_cons. split.
      * intros [->|(q & ? & ?)]; [exists p|exists q]; [|tauto]. split; [by left|].
        unfold player_team. by rewrite Es.
      * intros (q & [[= -> ->]|?] & ?); [by left|right; by exists q].
Qed.

Lemma sorted_nonempty (l : list Z) u : u ∈ l -> merge_sort Z.le l <> [].
Proof.
  intros Hu E. rewrite <-(merge_sort_Permutation Z.le l), E in Hu.
  by apply not_elem_of_nil in Hu.
Qed.

Definition db_knows : Prop :=
  forall users, (forall u, u ∈ users -> is_Some (gs_players st !! u)) ->
  exists m, get_user_mmrs (wrap_i32 <$> users) = Ok m /\ known m users.

Hypothesis knows : db_knows.

(** The two rosters are not empty and cover the players. *)
Lemma rosters_cover :
  exists a b, team_rosters st (map_to_list (gs_players st)) [] [] = Ok (a, b)
    /\ merge_sort Z.le a <> [] /\ merge_sort Z.le b <> []
    /\ forall u, u ∈ merge_sort Z.le a ++ merge_sort Z.le b <-> is_Some (gs_players st !! u).
Proof.
  destruct (rt_teams _ R in_teams) as (_ & Hp & (u0 & p0 & Hu0 & Ht0) & (u1 & p1 & Hu1 & Ht1)).
  destruct (team_rosters_ok (map_to_list (gs_players st)) [] []) as (a & b & Er & HP & HA & HB).
  { intros [u p] He%elem_of_map_to_list. by apply (Hp u). }
  exists a, b. split; [exact Er|]. split; [|split].
  - apply (sorted_nonempty _ u0), HA. exists p0. by rewrite elem_of_map_to_list.
  - apply (sorted_nonempty _ u1), HB. exists p1. by rewrite elem_of_map_to_list.
  - intros u. rewrite !(merge_sort_Permutation Z.le), HP, list_elem_of_fmap. split.
    + intros ([v p] & -> & Hv%elem_of_map_to_list). by eexists.
    + intros [p Hu]. exists (u, p). by rewrite elem_of_map_to_list.
Qed.

Lemma two_team_deltas m t0 t1 oc :
  known m (t0 ++ t1) ->
  exists d, (r0 ← get_ratings st m t0; r1 ← get_ratings st m t1; o ← Ok oc;
             let '(n0, n1) := weng_lin_two_teams r0 r1 o in
             d0 ← insert_deltas st m (index n0) 0 t0 ∅;
             d1 ← insert_deltas st m (index n1) 0 t1 d0;
             Ok (suppress_idle_rating_gains st d1)) = Ok d
    /\ (forall u, u ∈ dom d <-> u ∈ t0 ++ t1)
    /\ forall u x, d !! u = Some x -> is_player_idle_kicked st u = true -> x <= 0.
Proof.
  unfold known. intros [Hm0 Hm1]%Forall_app.
  destruct (get_ratings_ok st m t0 Hm0) as (r0 & -> & L0). cbn [mbind result_bind].
  destruct (get_ratings_ok st m t1 Hm1) as (r1 & -> & L1). cbn [mbind result_bind].
  pose proof (two_teams_shape r0 r1 oc) as [S0 S1].
  destruct (weng_lin_two_teams r0 r1 oc) as [n0 n1]. cbn [fst snd] in S0, S1.
  destruct (insert_deltas_ok st m (index n0) 0 t0 ∅ Hm0) as (d0 & -> & D0).
  { intros k Hk. apply (index_total _ (length t0)); [lia|done]. }
  cbn [mbind result_bind].
  destruct (insert_deltas_ok st m (index n1) 0 t1 d0 Hm1) as (d1 & -> & D1).
  { intros k Hk. apply (index_total _ (length t1)); [lia|done]. }
  cbn [mbind result_bind]. eexists. split; [reflexivity|]. split; [|intros u x; apply suppress_idle].
  intros u. rewrite suppress_dom, D1, D0, dom_empty_L, !elem_of_union, !elem_of_list_to_set.
  rewrite elem_of_empty, elem_of_app. tauto.
Qed.

Lemma team_deltas_ok :
  exists d, calculate_team_match_mmr_deltas st = Ok d /\ dom d = dom (gs_players st)
    /\ forall u x, d !! u = Some x -> is_player_idle_kicked st u = true -> x <= 0.
Proof.
  destruct (winning_team_ok st R in_teams) as (o & Eo & Ho).
  destruct rosters_cover as (a & b & Er & Ha & Hb & Hall).
  unfold calculate_team_match_mmr_deltas. rewrite Eo. cbn [mbind result_bind].
  rewrite Er. cbn [mbind result_bind].
  set (t0 := merge_sort Z.le a) in *. set (t1 := merge_sort Z.le b) in *.
  replace (ensure _ _) with (Ok tt : Result unit) by (by destruct t0, t1).
  cbn [mbind result_bind]. destruct (knows (t0 ++ t1)) as (m & -> & Hm); [apply Hall|].
  cbn [mbind result_bind]. rewrite (known_exists _ _ Hm). cbn [mbind result_bind].
  assert (Hoo : exists oc, match o with Some 0 => Ok WIN | Some 1 => Ok LOSS | None => Ok DRAW
     | Some _ => Err "Cannot calculate two-team MMR for winning team" end = Ok oc).
  { destruct Ho as [->|[->| ->]]; by eexists. }
  destruct Hoo as [oc ->]. destruct (two_team_deltas m t0 t1 oc Hm) as (d & -> & Hdom & Hi).
  exists d. split; [done|]. split; [|done]. apply set_eq. intros u.
  by rewrite Hdom, Hall, elem_of_dom.
Qed.
End teams.

(** ** Free for all *)

Section ffa.
Context {WL : WengLin} {RD : RatingDb} (st : GameState).
Hypothesis R : rateable st.
Hypothesis contested : mmr_outcome_override st <> Ok NoContest.
Hypothesis knows : db_knows st.

Lemma ordered_ok :
  exists scores forced, ordered_ffa_player_scores st = Ok (scores, forced)
    /\ scores ≡ₚ player_scores st.
Proof.
  unfold ordered_ffa_player_scores. destruct (override_ok st R) as [o Eo]. rewrite Eo in *.
  cbn [mbind result_bind]. destruct o as [| |w]; [|done|].
  - eexists _, _. split; [reflexivity|]. apply merge_sort_Permutation.
  - destruct (override_winner st R w Eo) as (u & p & _ & _ & _ & ->). cbn [mbind result_bind].
    eexists _, _. split; [reflexivity|]. apply merge_sort_Permutation.
Qed.

Lemma player_scores_users u : u ∈ (player_scores st).*1 <-> is_Some (gs_players st !! u).
Proof.
  unfold player_scores. rewrite <-list_fmap_compose, list_elem_of_fmap. split.
  - intros ([v p] & -> & Hv%elem_of_map_to_list). by eexists.
  - intros [p Hu]. exists (u, p). by rewrite elem_of_map_to_list.
Qed.

Lemma ranks_length forced i r x l : length (ranks_from st forced i r x l) = length l.
Proof. revert i r x. induction l as [|y l IH]; intros; [done|]. cbn. by rewrite IH. Qed.

Lemma ffa_ranks_length forced l : length (ffa_ranks st forced l) = length l.
Proof. destruct l; [done|]. cbn. by rewrite ranks_length. Qed.

(** Every team of one keeps one rating. *)
Lemma multi_team_index (rs : list WengLinRating) (ranks : list nat) k :
  length ranks = length rs -> 0 <= k < 0 + Z.of_nat (length rs) ->
  exists r, (team ← index (weng_lin_multi_team (zip ((fun r => [r]) <$> rs) ranks)) k;
             index team 0) = Ok r.
Proof.
  intros Hl Hk. set (teams := zip _ _).
  assert (E : length <$> weng_lin_multi_team teams = (fun _ => 1%nat) <$> rs).
  { rewrite multi_team_shape. unfold teams. rewrite list_fmap_compose.
    rewrite fst_zip by (rewrite length_fmap; lia). by rewrite <-list_fmap_compose. }
  assert (El : length (weng_lin_multi_team teams) = length rs).
  { apply (f_equal length) in E. by rewrite !length_fmap in E. }
  destruct (index_total (weng_lin_multi_team teams) (length rs) k El Hk) as [t Et]. rewrite Et.
  cbn [mbind result_bind]. apply index_ok in Et. unfold vec_get in Et.
  apply (f_equal (fun l => l !! Z.to_nat k)) in E. rewrite !list_lookup_fmap, Et in E. cbn in E.
  destruct (rs !! Z.to_nat k); [|done]. injection E as E.
  apply (index_total t 1); [done|lia].
Qed.

Lemma ffa_deltas_ok :
  exists d, calculate_ffa_mmr_deltas st = Ok d /\ dom d = dom (gs_players st)
    /\ forall u x, d !! u = Some x -> is_player_idle_kicked st u = true -> x <= 0.
Proof.
  destruct ordered_ok as (scores & forced & Eo & HP). unfold calculate_ffa_mmr_deltas.
  rewrite Eo. cbn [mbind result_bind].
  assert (Hall : forall u, u ∈ scores.*1 <-> is_Some (gs_players st !! u)).
  { intros u. by rewrite HP, player_scores_users. }
  destruct (knows (scores.*1)) as (m & -> & Hm); [apply Hall|]. cbn [mbind result_bind].
  rewrite (known_exists _ _ Hm). cbn [mbind result_bind].
  assert (Hfin : forall new, (forall k, 0 <= k < 0 + Z.of_nat (length scores.*1) ->
            exists r, new k = Ok r) ->
          exists d, (d0 ← insert_deltas st m new 0 scores.*1 ∅;
                     Ok (suppress_idle_rating_gains st d0)) = Ok d /\ dom d = dom (gs_players st)
            /\ forall u x, d !! u = Some x -> is_player_idle_kicked st u = true -> x <= 0).
  { intros new Hn. destruct (insert_deltas_ok st m new 0 _ ∅ Hm Hn) as (d & -> & Hd).
    cbn [mbind result_bind]. eexists. split; [reflexivity|]. split; [|intros u x; apply suppress_idle].
    apply set_eq. intros u. rewrite suppress_dom, Hd, dom_empty_L, elem_of_union, elem_of_empty.
    rewrite elem_of_list_to_set, Hall, elem_of_dom. tauto. }
  assert (Hmulti : exists d, (ratings ← get_ratings st m scores.*1;
      let teams := zip ((fun r => [r]) <$> ratings) (ffa_ranks st forced scores) in
      let new_ratings := weng_lin_multi_team teams in
      d0 ← insert_deltas st m (fun i => team ← index new_ratings i; index team 0) 0 scores.*1 ∅;
      Ok (suppress_idle_rating_gains st d0)) = Ok d /\ dom d = dom (gs_players st)
            /\ forall u x, d !! u = Some x -> is_player_idle_kicked st u = true -> x <= 0).
  { destruct (get_ratings_ok st m _ Hm) as (rs & -> & Lr). cbn [mbind result_bind]. cbv zeta.
    apply Hfin. intros k Hk. apply multi_team_index; [|lia].
    rewrite ffa_ranks_length. rewrite length_fmap in Lr. lia. }
  destruct scores as [|[u0 x0] [|[u1 x1] [|e l]]]; try exact Hmulti.
  unfold known in Hm. cbn [fmap list_fmap fst] in Hm. apply Forall_cons in Hm as [H0 Hm].
  apply Forall_cons in Hm as [H1 _].
  destruct (get_mmr_ok st m u0 H0) as [y0 ->]. destruct (get_mmr_ok st m u1 H1) as [y1 ->].
  cbn [mbind result_bind]. destruct (weng_lin _ _ _) as [n0 n1].
  apply Hfin. intros k Hk. by apply (index_total _ 2%nat).
Qed.
End ffa.

(** ** Places *)

Section places.
Variables (st : GameState) (w : option Z).

(** The tier of a player: the forced winner, the players who stayed, those who
    were removed, and in each group the score. *)
Definition tier_cmp (a b : Z * Z) : comparison :=
  then_with (bool_cmp (bool_decide (w = Some b.1)) (bool_decide (w = Some a.1)))
  (then_with (bool_cmp (is_player_idle_kicked st a.1) (is_player_idle_kicked st b.1))
  (b.2 ?= a.2)).

Definition ahead (a b : Z * Z) : Prop := tier_cmp a b = Lt.

#[global] Instance ahead_dec a b : Decision (ahead a b).
Proof. unfold ahead. destruct (tier_cmp a b); [right|left|right]; congruence. Defined.

Lemma ffa_le_tier a b :
  ffa_le st w a b <-> ahead a b \/ (tier_cmp a b = Eq /\ a.1 <= b.1).
Proof.
  unfold ffa_le, ffa_cmp, ahead, tier_cmp. generalize (bool_decide (w = Some a.1)).
  generalize (bool_decide (w = Some b.1)). intros x y.
  destruct x, y, (is_player_idle_kicked st a.1), (is_player_idle_kicked st b.1); cbn;
    destruct (Z.compare_spec b.2 a.2), (Z.compare_spec a.1 b.1); cbn;
    intuition (try discriminate; try lia).
Qed.

(** Reading a comparison of tiers. *)
Lemma tier_spec a b :
  let wa := bool_decide (w = Some a.1) in let wb := bool_decide (w = Some b.1) in
  let ka := is_player_idle_kicked st a.1 in let kb := is_player_idle_kicked st b.1 in
  match tier_cmp a b with
  | Lt => (wa = true /\ wb = false)
          \/ (wa = wb /\ ((ka = false /\ kb = true) \/ (ka = kb /\ b.2 < a.2)))
  | Eq => wa = wb /\ ka = kb /\ a.2 = b.2
  | Gt => (wa = false /\ wb = true)
          \/ (wa = wb /\ ((ka = true /\ kb = false) \/ (ka = kb /\ a.2 < b.2)))
  end.
Proof.
  cbv zeta. unfold tier_cmp. generalize (bool_decide (w = Some a.1)).
  generalize (bool_decide (w = Some b.1)). intros x y.
  destruct x, y, (is_player_idle_kicked st a.1), (is_player_idle_kicked st b.1); cbn;
    destruct (Z.compare_spec b.2 a.2); cbn; auto 10.
Qed.

Ltac tiers :=
  repeat match goal with
  | |- context [tier_cmp ?a ?b] =>
      let H := fresh in pose proof (tier_spec a b) as H; cbv zeta in H; destruct (tier_cmp a b)
  | H0 : context [tier_cmp ?a ?b] |- _ =>
      let H := fresh in pose proof (tier_spec a b) as H; cbv zeta in H; destruct (tier_cmp a b)
  end.

Lemma ahead_trans a b c : tier_cmp a b <> Gt -> ahead b c -> ahead a c.
Proof. unfold ahead. intros H1 H2. tiers; try done; intuition (congruence || lia). Qed.

Lemma ahead_eq a b c : tier_cmp b c = Eq -> ahead a b <-> ahead a c.
Proof. unfold ahead. intros H2. tiers; try done; intuition (congruence || lia). Qed.

Lemma ahead_irrefl a : ~ ahead a a.
Proof. unfold ahead. intros H. tiers; try done; intuition (congruence || lia). Qed.

#[global] Instance ffa_le_trans : Transitive (ffa_le st w).
Proof.
  intros a b c. rewrite !ffa_le_tier. unfold ahead.
  intros H1 H2. tiers; intuition (congruence || lia).
Qed.

#[global] Instance ffa_le_total : Total (ffa_le st w).
Proof.
  intros a b. rewrite !ffa_le_tier. unfold ahead.
  destruct (Z.le_ge_cases a.1 b.1); tiers; intuition (congruence || lia).
Qed.

Lemma le_not_gt a b : ffa_le st w a b -> tier_cmp a b <> Gt /\ ~ ahead b a.
Proof.
  rewrite ffa_le_tier. unfold ahead. intros H. split; tiers; try done; intuition (congruence || lia).
Qed.

(** Those ahead of a player in a list that is in order. *)
Definition ahead_of (l : list (Z * Z)) (x : Z * Z) : list (Z * Z) :=
  filter (fun y => ahead y x) l.

Definition in_order (l : list (Z * Z)) : Prop := StronglySorted (ffa_le st w) l.

Lemma in_order_before l1 x l2 :
  in_order (l1 ++ x :: l2) -> Forall (fun y => ffa_le st w y x) l1
    /\ Forall (fun y => ffa_le st w x y) l2 /\ in_order (x :: l2).
Proof.
  unfold in_order. induction l1 as [|y l1 IH]; cbn [app].
  - intros H. split; [constructor|]. split; [by apply StronglySorted_inv in H as [_ ?]|done].
  - intros [H Hy]%StronglySorted_inv. destruct (IH H) as (H1 & H2 & H3).
    split; [|done]. constructor; [|done]. rewrite Forall_forall in Hy. apply Hy.
    apply elem_of_app. right. left.
Qed.

Lemma ahead_of_app l1 x l2 :
  in_order (l1 ++ x :: l2) -> ahead_of (l1 ++ x :: l2) x = ahead_of l1 x.
Proof.
  intros H. destruct (in_order_before _ _ _ H) as (_ & H2 & _).
  unfold ahead_of. rewrite filter_app. rewrite (list_filter_none _ (x :: l2)); [by rewrite app_nil_r|].
  intros y [->|Hy]%elem_of_cons; [apply ahead_irrefl|]. rewrite Forall_forall in H2.
  by apply le_not_gt, H2.
Qed.

(** The next player is in the tier of the previous one, or behind all before. *)
Lemma next_place l1 p x l2 :
  in_order (l1 ++ p :: x :: l2) ->
  (tier_cmp p x = Eq /\ length (ahead_of (l1 ++ p :: x :: l2) x)
                        = length (ahead_of (l1 ++ p :: x :: l2) p))
  \/ (ahead p x /\ length (ahead_of (l1 ++ p :: x :: l2) x) = S (length l1)).
Proof.
  intros H. pose proof H as H'. rewrite (cons_middle p), app_assoc in H'.
  destruct (in_order_before _ _ _ H) as (Hb & Hp & _). apply Forall_cons in Hp as [Hp _].
  assert (E : ahead_of (l1 ++ p :: x :: l2) x = ahead_of (l1 ++ [p]) x).
  { rewrite (cons_middle p), app_assoc. by apply ahead_of_app. }
  rewrite E. destruct (proj1 (ffa_le_tier _ _) Hp) as [Ha|[Heq _]].
  - right. split; [done|]. unfold ahead_of. rewrite (filter_everything _ (l1 ++ [p])).
    + rewrite length_app. cbn. lia.
    + apply Forall_forall. intros y [Hy|Hy]%elem_of_app; [|apply list_elem_of_singleton in Hy as ->; done].
      rewrite Forall_forall in Hb. by eapply ahead_trans; [apply le_not_gt, Hb|].
  - left. split; [done|]. rewrite (ahead_of_app l1 p (x :: l2) H). unfold ahead_of.
    rewrite filter_app, (list_filter_none _ [p]).
    + rewrite app_nil_r. f_equal. apply list_filter_iff. intros y. symmetry. by apply ahead_eq.
    + intros y ->%list_elem_of_singleton Hy. apply (ahead_irrefl p). by apply (ahead_eq _ p x).
Qed.

(** A forced winner heads the list. *)
Definition led (forced : bool) (l : list (Z * Z)) : Prop :=
  NoDup l.*1
  /\ if forced then exists x l', l = x :: l' /\ w = Some x.1 else w = None.

Lemma led_tail forced l1 p l2 x :
  led forced (l1 ++ p :: l2) -> x ∈ l2 -> w <> Some x.1.
Proof.
  intros [Hd Hl] Hx. destruct forced; [|congruence]. destruct Hl as (y & l' & E & ->). intros [= Ey].
  assert (Hy : x ∈ l').
  { destruct l1 as [|z l1]; cbn in E; injection E as <- <-; [done|].
    apply elem_of_app. right. by right. }
  rewrite E in Hd. cbn in Hd. apply NoDup_cons in Hd as [Hn _]. apply Hn. rewrite Ey.
  by apply (list_elem_of_fmap_2 fst).
Qed.

Lemma led_previous forced l1 p l2 :
  led forced (l1 ++ p :: l2) -> forced && (S (length l1) =? 1)%nat = false -> w <> Some p.1.
Proof.
  intros [Hd Hl] Hf. destruct forced; [|congruence].
  destruct l1 as [|z l1]; [done|]. apply (led_tail true [] z (l1 ++ p :: l2)); [by split|].
  apply elem_of_app. right. left.
Qed.

Lemma ranks_from_spec forced l1 p l2 :
  in_order (l1 ++ p :: l2) -> led forced (l1 ++ p :: l2) ->
  ranks_from st forced (S (length l1)) (S (length (ahead_of (l1 ++ p :: l2) p))) p l2
  = (fun x => S (length (ahead_of (l1 ++ p :: l2) x))) <$> l2.
Proof.
  revert l1 p. induction l2 as [|x l2 IH]; intros l1 p Ho Hl; [done|].
  cbn [ranks_from fmap list_fmap].
  assert (Hx : bool_decide (w = Some x.1) = false).
  { apply bool_decide_eq_false, (led_tail _ _ _ _ x Hl). left. }
  assert (Er : (if forced && (S (length l1) =? 1)%nat then 2%nat
        else if xorb (is_player_idle_kicked st x.1) (is_player_idle_kicked st p.1)
                || (x.2 <? p.2) then S (S (length l1))
             else S (length (ahead_of (l1 ++ p :: x :: l2) p)))
     = S (length (ahead_of (l1 ++ p :: x :: l2) x))).
  { pose proof (tier_spec p x) as Hts. cbv zeta in Hts. rewrite Hx in Hts.
    destruct (forced && (S (length l1) =? 1)%nat) eqn:Ef.
    - apply andb_true_iff in Ef as [-> Ef%Nat.eqb_eq].
      destruct l1; [|cbn in Ef; lia]. destruct Hl as (_ & y & l' & [= <- <-] & Ew).
      rewrite (bool_decide_true (w = Some p.1)) in Hts by done.
      destruct (next_place [] p x l2 Ho) as [[E _]|[_ E]]; [|by rewrite E].
      rewrite E in Hts. by destruct Hts.
    - rewrite (bool_decide_false (w = Some p.1)) in Hts by (by eapply led_previous).
      destruct (next_place l1 p x l2 Ho) as [[E El]|[E El]]; rewrite El.
      + rewrite E in Hts. destruct Hts as (_ & -> & ->). rewrite Z.ltb_irrefl.
        by destruct (is_player_idle_kicked st x.1).
      + unfold ahead in E. rewrite E in Hts. destruct Hts as [[? _]|[_ [[-> ->]|[-> Hlt]]]]; [done|done|].
        rewrite (proj2 (Z.ltb_lt _ _)) by done. by rewrite orb_true_r. }
  rewrite Er. f_equal. specialize (IH (l1 ++ [p]) x). rewrite length_app in IH. cbn [length] in IH.
  rewrite Nat.add_1_r, <-app_assoc in IH. by apply IH.
Qed.

Lemma ffa_ranks_spec forced l :
  in_order l -> led forced l ->
  ffa_ranks st forced l = (fun x => S (length (ahead_of l x))) <$> l.
Proof.
  intros Ho Hl. destruct l as [|p l]; [done|]. cbn [ffa_ranks fmap list_fmap].
  assert (E : ahead_of (p :: l) p = []) by apply (ahead_of_app [] p l Ho).
  rewrite E. f_equal. pose proof (ranks_from_spec forced [] p l Ho Hl) as H. cbn [app length] in H.
  by rewrite E in H.
Qed.
End places.

(** The winner a free for all was forced to, if any. *)
Definition forced_winner_of (st : GameState) : option Z :=
  match mmr_outcome_override st with
  | Ok (WinningSnake w) => match user_id_for_snake st w with Ok u => Some u | _ => None end
  | _ => None
  end.

Lemma player_scores_distinct st : NoDup (player_scores st).*1.
Proof.
  unfold player_scores. rewrite <-list_fmap_compose.
  apply (NoDup_fmap_fst (map_to_list (gs_players st))); [|apply NoDup_map_to_list].
  intros u p q H1%elem_of_map_to_list H2%elem_of_map_to_list. congruence.
Qed.

Lemma ordered_spec st scores forced :
  rateable st -> ordered_ffa_player_scores st = Ok (scores, forced) ->
  mmr_outcome_override st <> Ok NoContest ->
  in_order st (forced_winner_of st) scores /\ led (forced_winner_of st) forced scores
  /\ scores ≡ₚ player_scores st.
Proof.
  intros R E Hc. unfold ordered_ffa_player_scores, forced_winner_of in *.
  destruct (override_ok st R) as [o Eo]. rewrite Eo in *. cbn [mbind result_bind] in E.
  assert (Hs : forall w, in_order st w (merge_sort (ffa_le st w) (player_scores st))).
  { intros w. apply StronglySorted_merge_sort; apply _. }
  assert (Hd : forall w, NoDup (merge_sort (ffa_le st w) (player_scores st)).*1).
  { intros w. rewrite merge_sort_Permutation. apply player_scores_distinct. }
  destruct o as [| |w]; [|done|].
  - injection E as <- <-. split; [apply Hs|]. split; [|apply merge_sort_Permutation].
    by split; [apply Hd|].
  - destruct (override_winner st R w Eo) as (u & p & Hu & _ & _ & Eu). rewrite Eu in *.
    cbn [mbind result_bind] in E. injection E as <- <-. split; [apply Hs|].
    split; [|apply merge_sort_Permutation]. split; [apply Hd|].
    assert (Hin : (u, score_of st p) ∈ merge_sort (ffa_le st (Some u)) (player_scores st)).
    { rewrite merge_sort_Permutation. unfold player_scores. apply list_elem_of_fmap.
      exists (u, p). by rewrite elem_of_map_to_list. }
    specialize (Hs (Some u)). unfold in_order in Hs.
    destruct (merge_sort _ _) as [|x l]; [by apply not_elem_of_nil in Hin|].
    exists x, l. split; [done|]. apply elem_of_cons in Hin as [<-|Hin]; [done|].
    apply StronglySorted_inv in Hs as [_ Hs]. rewrite Forall_forall in Hs. specialize (Hs _ Hin).
    apply ffa_le_tier in Hs. pose proof (tier_spec st (Some u) x (u, score_of st p)) as T.
    cbv zeta in T. cbn [fst] in T. rewrite (bool_decide_true (Some u = Some u)) in T by done.
    unfold ahead in Hs. destruct (tier_cmp _ _ _ _).
    + destruct T as [T _]. by apply bool_decide_eq_true in T.
    + destruct T as [[_ ?]|[T _]]; [done|]. by apply bool_decide_eq_true in T.
    + by destruct Hs as [?|[? _]].
Qed.

(** ** The effects *)

Section specs.
Context {WL : WengLin} {RD : RatingDb} (st : GameState).
Hypothesis R : rateable st.
Hypothesis knows : db_knows st.

Definition no_contest : bool :=
  gs_completed_by_inactivity st && match gs_status st with Complete None => true | _ => false end.

Lemma no_contest_spec : no_contest = true <-> mmr_outcome_override st = Ok NoContest.
Proof.
  unfold no_contest, mmr_outcome_override. destruct (gs_completed_by_inactivity st); [|done].
  destruct (gs_status st) as [| |[w|]]; cbn; split; congruence.
Qed.

Lemma winners_ok (teams : bool) :
  (teams = true -> rated_in_teams st = true) ->
  exists ws, (if teams then get_team_match_winners st else get_ffa_winners st) = Ok ws
    /\ forall u, u ∈ ws -> is_player_idle_kicked st u = false.
Proof.
  intros Ht. destruct teams.
  - unfold get_team_match_winners. destruct (winning_team_ok st R (Ht eq_refl)) as (o & -> & _).
    cbn [mbind result_bind]. eexists. split; [reflexivity|]. intros u. destruct o as [t|]; [|set_solver].
    rewrite elem_of_list_to_set, list_elem_of_omap. intros ([v p] & _ & E).
    destruct (vec_get _ _); [|done]. destruct (_ && _) eqn:Eb; [|done]. injection E as ->.
    apply andb_true_iff in Eb as [_ Eb]. by apply negb_true_iff in Eb.
  - unfold get_ffa_winners. destruct (override_ok st R) as [o Eo]. rewrite Eo. cbn [mbind result_bind].
    destruct o as [| |w].
    + eexists. split; [reflexivity|]. intros u. rewrite elem_of_list_to_set, list_elem_of_fmap.
      intros ([v x] & -> & Hv). apply list_elem_of_filter in Hv as [_ Hv].
      by apply list_elem_of_filter in Hv as [? _].
    + eexists. split; [reflexivity|]. set_solver.
    + destruct (override_winner st R w Eo) as (u & p & _ & _ & Hk & ->). cbn [mbind result_bind].
      eexists. split; [reflexivity|]. by intros v ->%elem_of_singleton.
Qed.

Definition spec_fair (s : MmrEffectSpec) : Prop :=
  is_player_idle_kicked st (ms_user_id s) = true -> ms_delta s <= 0 /\ ms_won s = false.

Lemma rated_specs (teams : bool) :
  teams = rated_in_teams st -> mmr_outcome_override st <> Ok NoContest ->
  exists specs,
    (deltas ← (if teams then calculate_team_match_mmr_deltas st else calculate_ffa_mmr_deltas st);
     winners ← (if teams then get_team_match_winners st else get_ffa_winners st);
     Ok ((fun e => mkSpec e.1 e.2 (bool_decide (e.1 ∈ winners))) <$> map_to_list deltas)) = Ok specs
    /\ ms_user_id <$> specs ≡ₚ (map_to_list (gs_players st)).*1 /\ Forall spec_fair specs.
Proof.
  intros Et Hc.
  assert (HD : exists d, (if teams then calculate_team_match_mmr_deltas st
                          else calculate_ffa_mmr_deltas st) = Ok d
      /\ dom d = dom (gs_players st)
      /\ forall u x, d !! u = Some x -> is_player_idle_kicked st u = true -> x <= 0).
  { destruct teams; [by apply team_deltas_ok|by apply ffa_deltas_ok]. }
  destruct HD as (d & -> & Hdom & Hd). destruct (winners_ok teams) as (ws & -> & Hw); [by intros ->|].
  cbn [mbind result_bind]. eexists. split; [reflexivity|]. split.
  - rewrite <-list_fmap_compose. change (_ ∘ _) with (@fst Z Z).
    apply NoDup_Permutation; [apply NoDup_fst_map_to_list..|]. intros u.
    rewrite !list_elem_of_fmap. rewrite set_eq in Hdom. specialize (Hdom u). rewrite !elem_of_dom in Hdom.
    split; intros ([v x] & -> & Hv%elem_of_map_to_list).
    + destruct (proj1 Hdom) as [y Hy]; [by eexists|]. exists (v, y). by rewrite elem_of_map_to_list.
    + destruct (proj2 Hdom) as [y Hy]; [by eexists|]. exists (v, y). by rewrite elem_of_map_to_list.
  - apply Forall_fmap, Forall_forall. intros [u x] Hx%elem_of_map_to_list Hk. cbn in Hk |- *.
    split; [by apply (Hd u)|]. apply bool_decide_eq_false. intros Hu. apply Hw in Hu. congruence.
Qed.

Lemma specs_ok :
  gs_game_type st <> Solo ->
  exists specs, calculate_mmr_effect_specs st = Ok specs
    /\ ms_user_id <$> specs ≡ₚ (if no_contest then [] else (map_to_list (gs_players st)).*1)
    /\ Forall spec_fair specs.
Proof.
  intros Hs. unfold calculate_mmr_effect_specs.
  destruct (override_ok st R) as [o Eo]. pose proof no_contest_spec as Hn.
  pose proof (rated_specs _ eq_refl) as Hr. unfold rated_in_teams in Hr. rewrite Eo in *.
  destruct (decide (o = NoContest)) as [->|Hne].
  { rewrite (proj2 Hn) by done. exists []. by destruct (gs_game_type st). }
  destruct no_contest; [by injection (proj1 Hn eq_refl)|].
  destruct Hr as (specs & Er & H); [congruence|]. exists specs. split; [|done].
  destruct (gs_game_type st), o; done.
Qed.
End specs.
