(* ===== verification/CompletionFacts.v ===== *)
(** * Facts about completion records

    The effects a finished match is given, and that the record that carries them
    passes its own validation. *)

From Stdlib Require Import ZArith Lia.
From stdpp Require Import prelude strings pretty countable list gmap sorting.
From S2P Require Import Prelude RustFloat Util Snake Arena CommandQueue GameState GameSetup.
From S2P Require Import Fingerprint Recording StreamId Journal Rating Completion RatingFacts.
Open Scope Z_scope.

(** ** Identifiers *)

Lemma first_region_nonempty l : first_region l <> "".
Proof.
  induction l as [|[r|] l IH]; cbn [first_region]; [done| |done].
  by case_bool_decide.
Qed.

(** ** Counting *)

Lemma count_app f a b : count f (a ++ b) = (count f a + count f b)%nat.
Proof. unfold count. by rewrite filter_app, length_app. Qed.

Lemma count_cons f e l : count f (e :: l) = ((if f e then 1 else 0) + count f l)%nat.
Proof. unfold count. rewrite filter_cons. destruct (f e); by repeat case_decide. Qed.

Lemma count_none f l : Forall (fun e => f e = false) l -> count f l = 0%nat.
Proof.
  intros H. unfold count. rewrite list_filter_none; [done|]. intros e He. rewrite Forall_forall in H.
  rewrite (H e He). done.
Qed.

Lemma occurs_once {A} (g : A -> Z) l u :
  NoDup (g <$> l) ->
  length (filter (fun x => (g x =? u) = true) l) = if decide (u ∈ g <$> l) then 1%nat else 0%nat.
Proof.
  induction l as [|x l IH]; intros Hd; cbn [fmap list_fmap].
  { rewrite decide_False by apply not_elem_of_nil. done. }
  cbn in Hd. apply NoDup_cons in Hd as [Hn Hd]. rewrite filter_cons.
  destruct (Z.eqb_spec (g x) u) as [E|E].
  - rewrite decide_True by done. cbn [length]. rewrite IH by done. subst u.
    rewrite decide_False by done. by rewrite decide_True by left.
  - rewrite decide_False by done. rewrite IH by done.
    destruct (decide (u ∈ g <$> l)) as [H|H].
    + by rewrite decide_True by (by right).
    + rewrite decide_False; [done|]. intros [->|?]%elem_of_cons; done.
Qed.

(** ** The effects of one record *)

Section effects.
Variables (st : GameState) (region : string) (season : Z).

Definition mmr_of (s : MmrEffectSpec) : CompletionEffect :=
  AddMmr ("mmr:" +:+ display_uint (ms_user_id s)) (ms_user_id s) (username_for st (ms_user_id s))
    (ms_delta s) (gs_queue_mode st).

Definition ranking_of (s : MmrEffectSpec) : CompletionEffect :=
  UpdateRanking ("ranking:" +:+ display_uint (ms_user_id s)) (ms_user_id s)
    (username_for st (ms_user_id s)) (gs_queue_mode st) (gs_game_type st) region season (ms_won s).

Definition pairs_of (l : list MmrEffectSpec) : list CompletionEffect :=
  concat ((fun s => [mmr_of s; ranking_of s]) <$> l).

Lemma rating_effects_pairs specs :
  rating_effects st region season specs = pairs_of (merge_sort spec_le specs).
Proof. done. Qed.

Lemma elem_of_pairs e l :
  e ∈ pairs_of l <-> exists s, s ∈ l /\ (e = mmr_of s \/ e = ranking_of s).
Proof.
  unfold pairs_of. induction l as [|s l IH]; cbn [fmap list_fmap concat].
  { split; [by intros ?%not_elem_of_nil|by intros (? & ?%not_elem_of_nil & _)]. }
  cbn [app]. rewrite !elem_of_cons, IH. setoid_rewrite elem_of_cons. split.
  - intros [->|[->|(x & ? & ?)]]; [exists s; auto..|exists x; auto].
  - intros (x & [->|Hx] & [->| ->]); auto; right; right; exists x; auto.
Qed.

Lemma count_pairs f fa fb l :
  (forall s, f (mmr_of s) = fa s) -> (forall s, f (ranking_of s) = fb s) ->
  count f (pairs_of l) = (length (filter (fun s => fa s = true) l)
                          + length (filter (fun s => fb s = true) l))%nat.
Proof.
  intros Ha Hb. unfold pairs_of. induction l as [|s l IH]; [done|].
  cbn [fmap list_fmap concat app]. rewrite !count_cons, IH, Ha, Hb, !filter_cons.
  destruct (fa s), (fb s); repeat case_decide; try done; cbn [length]; lia.
Qed.

Lemma pairs_distinct l :
  Forall (fun s => 0 <= ms_user_id s) l -> NoDup (ms_user_id <$> l) ->
  NoDup (effect_id <$> pairs_of l).
Proof.
  unfold pairs_of. induction l as [|s l IH]; intros Hp Hd; [constructor|].
  cbn in Hd. apply NoDup_cons in Hd as [Hn Hd]. apply Forall_cons in Hp as [Hs Hp].
  assert (Hfresh : forall x, x ∈ l -> display_uint (ms_user_id s) <> display_uint (ms_user_id x)).
  { intros x Hx E. rewrite Forall_forall in Hp. apply display_uint_inj in E; [|done|by apply Hp].
    apply Hn. rewrite E. by apply list_elem_of_fmap_2. }
  cbn [fmap list_fmap concat app]. apply NoDup_cons. split; [|apply NoDup_cons; split; [|by apply IH]].
  - intros [E|Hin]%elem_of_cons; [discriminate E|].
    apply list_elem_of_fmap in Hin as (e & E & He). apply elem_of_pairs in He as (x & Hx & [->| ->]).
    + injection E as E. by apply (Hfresh x).
    + discriminate E.
  - intros Hin. apply list_elem_of_fmap in Hin as (e & E & He).
    apply elem_of_pairs in He as (x & Hx & [->| ->]).
    + discriminate E.
    + injection E as E. by apply (Hfresh x).
Qed.

Definition xp_of (u amount : Z) : CompletionEffect :=
  AddXp ("xp:" +:+ display_uint u) u (username_for st u) amount.

Lemma xp_effects_cons u ids :
  xp_effects st (u :: ids)
  = let amount := default 0 (gs_player_xp st !! u) in
    if amount =? 0 then xp_effects st ids else xp_of u amount :: xp_effects st ids.
Proof. unfold xp_effects. cbn. by destruct (_ =? 0). Qed.

Lemma elem_of_xp e ids :
  e ∈ xp_effects st ids <->
  exists u, u ∈ ids /\ default 0 (gs_player_xp st !! u) <> 0
            /\ e = xp_of u (default 0 (gs_player_xp st !! u)).
Proof.
  unfold xp_effects. rewrite list_elem_of_omap. split.
  - intros (u & Hu & E). destruct (Z.eqb_spec (default 0 (gs_player_xp st !! u)) 0); [done|].
    injection E as <-. by exists u.
  - intros (u & Hu & Hne & ->). exists u. split; [done|].
    by destruct (Z.eqb_spec (default 0 (gs_player_xp st !! u)) 0).
Qed.

Lemma xp_distinct ids :
  Forall (fun u => 0 <= u) ids -> NoDup ids -> NoDup (effect_id <$> xp_effects st ids).
Proof.
  induction ids as [|u ids IH]; intros Hp Hd; [constructor|].
  apply NoDup_cons in Hd as [Hn Hd]. apply Forall_cons in Hp as [Hu Hp].
  rewrite xp_effects_cons. cbv zeta.
  destruct (_ =? 0); [by apply IH|]. cbn [fmap list_fmap]. apply NoDup_cons. split; [|by apply IH].
  intros Hin. apply list_elem_of_fmap in Hin as (e & E & He).
  apply elem_of_xp in He as (v & Hv & _ & ->). injection E as E. rewrite Forall_forall in Hp.
  apply display_uint_inj in E; [|done|by apply Hp]. by subst.
Qed.

Lemma count_xp u ids :
  NoDup ids -> u ∈ ids -> 0 <= default 0 (gs_player_xp st !! u) ->
  count (is_xp_of u) (xp_effects st ids)
  = if 0 <? default 0 (gs_player_xp st !! u) then 1%nat else 0%nat.
Proof.
  intros Hd Hu Hx. induction ids as [|v ids IH]; [by apply not_elem_of_nil in Hu|].
  apply NoDup_cons in Hd as [Hn Hd]. rewrite xp_effects_cons. cbv zeta.
  apply elem_of_cons in Hu as [<-|Hu].
  - assert (E0 : count (is_xp_of u) (xp_effects st ids) = 0%nat).
    { apply count_none, Forall_forall. intros e He. apply elem_of_xp in He as (w & Hw & _ & ->).
      apply Z.eqb_neq. by intros ->. }
    destruct (Z.eqb_spec (default 0 (gs_player_xp st !! u)) 0) as [E|E].
    + rewrite E0, E. done.
    + rewrite count_cons, E0. cbn. by rewrite Z.eqb_refl, (proj2 (Z.ltb_lt _ _)) by lia.
  - destruct (_ =? 0); [by apply IH|]. rewrite count_cons, IH by done. cbn.
    destruct (Z.eqb_spec v u); [by subst|done].
Qed.

Definition score_at (u : Z) : Z :=
  match gs_players st !! u with Some p => score_of st p | None => 0 end.

Definition high_score_of (u : Z) : CompletionEffect :=
  InsertHighScore ("high_score:" +:+ display_uint u) u (username_for st u) (score_at u)
    (gs_game_type st) region season.

Lemma high_score_effects_ok ids :
  (forall u, u ∈ ids -> is_Some (gs_players st !! u)) ->
  high_score_effects st region season ids = Ok (high_score_of <$> ids).
Proof.
  induction ids as [|u ids IH]; intros H; [done|]. cbn [high_score_effects fmap list_fmap].
  destruct (H u) as [p Hp]; [left|]. rewrite Hp, IH by (intros v Hv; apply H; by right).
  cbn. unfold high_score_of, score_at. by rewrite Hp.
Qed.

Lemma high_score_distinct ids :
  Forall (fun u => 0 <= u) ids -> NoDup ids -> NoDup (effect_id <$> (high_score_of <$> ids)).
Proof.
  intros Hp Hd. rewrite <-list_fmap_compose. apply NoDup_fmap_2_strong; [|done].
  intros u v Hu Hv E. cbn in E. injection E as E. rewrite Forall_forall in Hp.
  apply display_uint_inj in E; auto.
Qed.
End effects.

(** ** Validation *)

Lemma check_effects_ok c l ids n :
  NoDup (effect_id <$> l) -> (forall e, e ∈ l -> effect_id e ∉ ids) ->
  Forall (fun e => effect_id e <> "" /\ validate_identity c e = Ok tt
                   /\ match cr_season c, effect_season e with
                      | Some s, Some t => s = t
                      | _, _ => True
                      end) l ->
  check_effects c l ids n = Ok (n + count is_persist l)%nat.
Proof.
  intros Hd Hi Hf. revert ids n Hd Hi. induction Hf as [|e l (H1 & H2 & H3) _ IH]; intros ids n Hd Hi.
  { cbn. f_equal. unfold count. cbn. lia. }
  cbn in Hd. apply NoDup_cons in Hd as [Hn Hd]. cbn [check_effects].
  rewrite (bool_decide_false (effect_id e = "")) by done.
  rewrite (bool_decide_true (effect_id e ∉ ids)) by (apply Hi; left).
  cbn [negb ensure mbind result_bind]. rewrite H2. cbn [mbind result_bind].
  assert (Hs : match cr_season c, effect_season e with
               | Some s, Some t => s =? t | _, _ => true end = true).
  { destruct (cr_season c), (effect_season e); try done. by apply Z.eqb_eq. }
  rewrite Hs. cbn [ensure mbind result_bind]. rewrite IH; [|done|].
  - rewrite count_cons. destruct (is_persist e); f_equal; lia.
  - intros x Hx. rewrite elem_of_union, elem_of_singleton. intros [E|E].
    + apply Hn. rewrite <-E. by apply list_elem_of_fmap_2.
    + eapply Hi; [right; exact Hx|exact E].
Qed.

(** What a finished match needs for its record: ids the database can hold, room
    for the history, and awards to players only. *)
Record settleable (st : GameState) : Prop := {
  sl_rateable : rateable st;
  sl_type : game_type_eqb (gs_game_type st) (gs_game_type st) = true;
  sl_users u : is_Some (gs_players st !! u) -> 0 <= u <= i32_max;
  sl_size : gs_is_stress_test st = false -> Z.of_nat (size (gs_players st)) <= 96;
  sl_xp u x : gs_player_xp st !! u = Some x ->
    0 <= x <= i32_max /\ is_Some (gs_players st !! u);
  sl_scores u p : gs_game_type st = Solo -> gs_players st !! u = Some p -> score_of st p <= i32_max
}.

Lemma elem_of_player_ids st u : u ∈ player_ids st <-> is_Some (gs_players st !! u).
Proof.
  unfold player_ids. rewrite merge_sort_Permutation, list_elem_of_fmap. split.
  - intros ([v p] & -> & Hv%elem_of_map_to_list). by eexists.
  - intros [p Hu]. exists (u, p). by rewrite elem_of_map_to_list.
Qed.

Lemma player_ids_distinct st : NoDup (player_ids st).
Proof. unfold player_ids. rewrite merge_sort_Permutation. apply NoDup_fst_map_to_list. Qed.

Section record.
Context {CE : CompletionEnv}.
Variables (st : GameState) (c : CompletionRecordV1) (region : string) (season : Z).
Hypothesis S : settleable st.
Hypothesis (Ec : cr_final_state c = st) (Es : cr_season c = Some season) (Hreg : region <> "").

Lemma in_range u : is_Some (gs_players st !! u) -> negb (i32_max <? u) = true.
Proof. intros H%(sl_users _ S). apply negb_true_iff, Z.ltb_ge. lia. Qed.

Lemma player_valid u : is_Some (gs_players st !! u) -> validate_player c u = Ok tt.
Proof. intros H. unfold validate_player. rewrite Ec. by rewrite bool_decide_true. Qed.

Lemma identity_ok e :
  (exists id, expected_id c e = Ok id /\ effect_id e = id) ->
  (forall u, effect_user_id e = Some u -> is_Some (gs_players st !! u)
             /\ effect_username e = Some (username_for st u)) ->
  validate_identity c e = Ok tt.
Proof.
  intros (id & E & Ei) Hu. unfold validate_identity. rewrite E. cbn [mbind result_bind].
  rewrite bool_decide_true by done. cbn [ensure mbind result_bind].
  destruct (effect_user_id e) as [u|] eqn:Eu; [|done].
  destruct (Hu u eq_refl) as [Hp ->]. rewrite (in_range u Hp). cbn [ensure mbind result_bind].
  rewrite Ec. by rewrite bool_decide_true.
Qed.

Lemma xp_identity u :
  is_Some (gs_players st !! u) -> default 0 (gs_player_xp st !! u) <> 0 ->
  validate_identity c (xp_of st u (default 0 (gs_player_xp st !! u))) = Ok tt.
Proof.
  intros Hp Hx. apply identity_ok; [|by intros v [= <-]]. cbn [expected_id xp_of effect_id].
  destruct (gs_player_xp st !! u) as [x|] eqn:Ex; [|done]. cbn in Hx |- *.
  rewrite (proj2 (Z.eqb_neq _ _)) by done. cbn [negb ensure mbind result_bind].
  rewrite player_valid by done. cbn [mbind result_bind]. rewrite Ec, Ex.
  rewrite (bool_decide_true (Some x = Some x)) by done.
  rewrite (proj2 (Z.ltb_ge _ _)) by (apply (sl_xp _ S) in Ex; lia). by eexists.
Qed.

Lemma mmr_identity s :
  is_Some (gs_players st !! ms_user_id s) -> gs_game_type st <> Solo ->
  validate_identity c (mmr_of st s) = Ok tt.
Proof.
  intros Hp Hs. apply identity_ok; [|by intros v [= <-]]. cbn [expected_id mmr_of effect_id].
  rewrite player_valid by done. cbn [mbind result_bind]. rewrite Ec.
  rewrite bool_decide_true by done. destruct (gs_game_type st); [done|by eexists..].
Qed.

Lemma ranking_identity s :
  is_Some (gs_players st !! ms_user_id s) -> gs_game_type st <> Solo ->
  validate_identity c (ranking_of st region season s) = Ok tt.
Proof.
  intros Hp Hs. apply identity_ok; [|by intros v [= <-]]. cbn [expected_id ranking_of effect_id].
  rewrite player_valid by done. cbn [mbind result_bind]. rewrite Ec, (sl_type _ S).
  rewrite bool_decide_true, bool_decide_false by done.
  destruct (gs_game_type st); [done|by eexists..].
Qed.

Lemma high_score_identity u :
  is_Some (gs_players st !! u) -> gs_game_type st = Solo ->
  validate_identity c (high_score_of st region season u) = Ok tt.
Proof.
  intros Hp Hs. apply identity_ok; [|by intros v [= <-]]. cbn [expected_id high_score_of effect_id].
  rewrite player_valid by done. cbn [mbind result_bind]. unfold score_at. rewrite Ec.
  destruct (gs_players st !! u) as [p|] eqn:Ep; [|by destruct Hp].
  rewrite (sl_type _ S), Hs, (bool_decide_false (region = "")), Z.eqb_refl by done.
  rewrite (proj2 (Z.ltb_ge _ _)) by (by apply (sl_scores _ S u)). by eexists.
Qed.

Lemma persist_identity : validate_identity c (PersistGame "game") = Ok tt.
Proof. done. Qed.

(** What a record may carry. *)
Inductive settles : CompletionEffect -> Prop :=
| settles_game : settles (PersistGame "game")
| settles_xp u : is_Some (gs_players st !! u) -> default 0 (gs_player_xp st !! u) <> 0 ->
    settles (xp_of st u (default 0 (gs_player_xp st !! u)))
| settles_mmr s : is_Some (gs_players st !! ms_user_id s) -> gs_game_type st <> Solo ->
    settles (mmr_of st s)
| settles_ranking s : is_Some (gs_players st !! ms_user_id s) -> gs_game_type st <> Solo ->
    settles (ranking_of st region season s)
| settles_score u : is_Some (gs_players st !! u) -> gs_game_type st = Solo ->
    settles (high_score_of st region season u).

Lemma settles_ok e :
  settles e -> effect_id e <> "" /\ validate_identity c e = Ok tt
    /\ match cr_season c, effect_season e with Some s, Some t => s = t | _, _ => True end.
Proof.
  rewrite Es. intros H.
  destruct H; (split; [done|]); (split; [|done]);
    eauto using persist_identity, xp_identity, mmr_identity, ranking_identity, high_score_identity.
Qed.
End record.

(** ** The effects of a finished match *)

Section settlement.
Context {CE : CompletionEnv} {WL : WengLin} {RD : RatingDb} (st : GameState) (season : Z).
Hypothesis S : settleable st.
Hypothesis knows : db_knows st.

Let is_player (u : Z) : Prop := is_Some (gs_players st !! u).

Lemma ids_nonneg : Forall (fun u => 0 <= u) (player_ids st).
Proof. apply Forall_forall. intros u Hu%elem_of_player_ids%(sl_users _ S). lia. Qed.

Lemma xp_nonneg u : 0 <= default 0 (gs_player_xp st !! u).
Proof.
  destruct (gs_player_xp st !! u) as [x|] eqn:E; [|done]. cbn. apply (sl_xp _ S) in E. lia.
Qed.

(** What the validation asks of the effects [l] of a record. *)
Record admissible (l : list CompletionEffect) : Prop := {
  ac_distinct : NoDup (effect_id <$> l);
  ac_settles : Forall (settles st get_region season) l;
  ac_game : count is_persist l = 1%nat;
  ac_stress : gs_is_stress_test st = true -> length l = 1%nat;
  ac_ranking c : cr_effects c = l -> Forall (fun e => check_ranking c e = Ok tt) l;
  ac_players c u : cr_effects c = l -> cr_final_state c = st -> gs_is_stress_test st = false ->
    is_player u -> check_player_effects c (no_contest st) u = Ok tt
}.

Lemma admissible_stress : gs_is_stress_test st = true -> admissible [PersistGame "game"].
Proof.
  intros Hs. split; [apply NoDup_singleton|by repeat constructor|done|done| |congruence].
  intros c _. by repeat constructor.
Qed.

(** Experience comes before the game, high scores after it. *)
Lemma xp_settles : Forall (settles st get_region season) (xp_effects st (player_ids st)).
Proof.
  apply Forall_forall. intros e He. apply elem_of_xp in He as (u & Hu & Hx & ->).
  apply settles_xp; [by apply elem_of_player_ids|done].
Qed.

Lemma xp_count f :
  (forall u x, f (xp_of st u x) = false) -> count f (xp_effects st (player_ids st)) = 0%nat.
Proof.
  intros H. apply count_none, Forall_forall. intros e He. by apply elem_of_xp in He as (u & _ & _ & ->).
Qed.

Lemma xp_id_spec i :
  i ∈ effect_id <$> xp_effects st (player_ids st) -> exists s, i = "xp:" +:+ s.
Proof.
  intros (e & -> & He)%list_elem_of_fmap. apply elem_of_xp in He as (u & _ & _ & ->). by eexists.
Qed.

Lemma count_score f g ids :
  (forall u, f (high_score_of st get_region season u) = g u) ->
  count f (high_score_of st get_region season <$> ids)
  = length (filter (fun u => g u = true) ids).
Proof.
  intros H. induction ids as [|u ids IH]; [done|]. cbn [fmap list_fmap].
  rewrite count_cons, IH, H, filter_cons. destruct (g u); by repeat case_decide.
Qed.

Lemma one_of_ids u :
  is_player u -> length (filter (fun v => (v =? u) = true) (player_ids st)) = 1%nat.
Proof.
  intros Hu. rewrite (occurs_once id) by (rewrite list_fmap_id; apply player_ids_distinct).
  rewrite decide_True; [done|]. rewrite list_fmap_id. by apply elem_of_player_ids.
Qed.

Lemma admissible_solo :
  gs_is_stress_test st = false -> gs_game_type st = Solo ->
  admissible (xp_effects st (player_ids st) ++ [PersistGame "game"]
            ++ (high_score_of st get_region season <$> player_ids st)).
Proof.
  intros Hns Hsolo. split; [| | |congruence| |].
  - rewrite !fmap_app. apply NoDup_app. split; [apply xp_distinct; auto using ids_nonneg, player_ids_distinct|].
    split.
    + intros i [s ->]%xp_id_spec. rewrite elem_of_app. intros [Hi|Hi].
      * apply list_elem_of_singleton in Hi. discriminate Hi.
      * apply list_elem_of_fmap in Hi as (e & E & He). apply list_elem_of_fmap in He as (u & -> & _).
        discriminate E.
    + apply NoDup_app. split; [apply NoDup_singleton|]. split.
      * intros i ->%list_elem_of_singleton Hi.
        apply list_elem_of_fmap in Hi as (e & E & He). apply list_elem_of_fmap in He as (u & -> & _).
        discriminate E.
      * apply high_score_distinct; auto using ids_nonneg, player_ids_distinct.
  - apply Forall_app. split; [apply xp_settles|]. apply Forall_app. split; [repeat constructor|].
    apply Forall_fmap, Forall_forall. intros u Hu. apply settles_score; [by apply elem_of_player_ids|done].
  - rewrite !count_app, xp_count, (count_score _ (fun _ => false)), list_filter_none by done. done.
  - intros c _. apply Forall_app. split; [|apply Forall_app; split; [by repeat constructor|]].
    + apply Forall_forall. intros e He. by apply elem_of_xp in He as (u & _ & _ & ->).
    + by apply Forall_fmap, Forall_true.
  - intros c u El Ec _ Hu. unfold check_player_effects. rewrite El, Ec, Hsolo. cbn [is_solo].
    rewrite !count_app, count_xp
      by (apply player_ids_distinct || (by apply elem_of_player_ids) || apply xp_nonneg).
    rewrite !xp_count by done.
    rewrite (count_score (is_xp_of u) (fun _ => false)) by done.
    rewrite (count_score (is_mmr_of u) (fun _ => false)) by done.
    rewrite (count_score (is_ranking_of u) (fun _ => false)) by done.
    rewrite (count_score (is_high_score_of u) (fun v => v =? u)) by done.
    rewrite one_of_ids, list_filter_none, !count_cons by done. cbn.
    by rewrite Nat.add_0_r, Nat.eqb_refl.
Qed.

(** Ratings: one pair for each player, or none when nobody contested. *)
Lemma pair_id_spec l i :
  i ∈ effect_id <$> pairs_of st get_region season l ->
  exists s, i = "mmr:" +:+ s \/ i = "ranking:" +:+ s.
Proof.
  intros (e & -> & He)%list_elem_of_fmap.
  apply elem_of_pairs in He as (s & _ & [->| ->]); eexists; [left|right]; reflexivity.
Qed.

Section rated.
Variable specs : list MmrEffectSpec.
Hypothesis covers :
  ms_user_id <$> specs ≡ₚ if no_contest st then [] else (map_to_list (gs_players st)).*1.

Let pairs := pairs_of st get_region season (merge_sort spec_le specs).

Lemma sorted_users :
  ms_user_id <$> merge_sort spec_le specs
  ≡ₚ if no_contest st then [] else (map_to_list (gs_players st)).*1.
Proof. by rewrite merge_sort_Permutation. Qed.

Lemma sorted_user_player s : s ∈ merge_sort spec_le specs -> is_player (ms_user_id s).
Proof.
  intros Hs%(list_elem_of_fmap_2 ms_user_id). rewrite sorted_users in Hs.
  destruct (no_contest st); [by apply not_elem_of_nil in Hs|].
  apply list_elem_of_fmap in Hs as ([v p] & -> & Hv%elem_of_map_to_list). by eexists.
Qed.

Lemma sorted_users_distinct : NoDup (ms_user_id <$> merge_sort spec_le specs).
Proof.
  rewrite sorted_users. destruct (no_contest st); [constructor|]. apply NoDup_fst_map_to_list.
Qed.

Lemma pairs_of_user u :
  is_player u ->
  length (filter (fun s => (ms_user_id s =? u) = true) (merge_sort spec_le specs))
  = if no_contest st then 0%nat else 1%nat.
Proof.
  intros [p Hu]. rewrite occurs_once by apply sorted_users_distinct.
  destruct (decide _) as [H|H]; rewrite sorted_users in H; destruct (no_contest st); try done.
  - by apply not_elem_of_nil in H.
  - exfalso. apply H, list_elem_of_fmap. exists (u, p). by rewrite elem_of_map_to_list.
Qed.

Lemma pairs_count f fa fb :
  (forall s, f (mmr_of st s) = fa s) -> (forall s, f (ranking_of st get_region season s) = fb s) ->
  count f pairs = (length (filter (fun s => fa s = true) (merge_sort spec_le specs))
                   + length (filter (fun s => fb s = true) (merge_sort spec_le specs)))%nat.
Proof. apply count_pairs. Qed.

Lemma rated_distinct :
  NoDup (effect_id <$> ((xp_effects st (player_ids st) ++ pairs) ++ [PersistGame "game"])).
Proof.
  rewrite !fmap_app. apply NoDup_app. split; [|split; [|apply NoDup_singleton]].
  - apply NoDup_app. split; [apply xp_distinct; auto using ids_nonneg, player_ids_distinct|].
    split; [|apply pairs_distinct; [|apply sorted_users_distinct]].
    + intros i [s ->]%xp_id_spec [t [E|E]]%pair_id_spec; discriminate E.
    + apply Forall_forall. intros s Hs%sorted_user_player%(sl_users _ S). lia.
  - intros i Hi ->%list_elem_of_singleton. apply elem_of_app in Hi as [Hi|Hi].
    + apply xp_id_spec in Hi as [s E]. discriminate E.
    + apply pair_id_spec in Hi as [s [E|E]]; discriminate E.
Qed.

Lemma admissible_rated :
  gs_is_stress_test st = false -> gs_game_type st <> Solo ->
  admissible ((xp_effects st (player_ids st) ++ pairs) ++ [PersistGame "game"]).
Proof.
  intros Hns Hrated. split; [apply rated_distinct| | |congruence| |].
  - apply Forall_app. split; [|by repeat constructor]. apply Forall_app. split; [apply xp_settles|].
    apply Forall_forall. intros e (s & Hs%sorted_user_player & [->| ->])%elem_of_pairs;
      by constructor.
  - rewrite !count_app, xp_count, (pairs_count _ (fun _ => false) (fun _ => false)),
      list_filter_none by done. done.
  - intros c El. apply Forall_app. split; [apply Forall_app; split|by repeat constructor].
    + apply Forall_forall. intros e He. by apply elem_of_xp in He as (u & _ & _ & ->).
    + apply Forall_forall. intros e (s & Hs & [->| ->])%elem_of_pairs; [done|].
      cbn [check_ranking ranking_of]. rewrite El, !count_app, xp_count by done.
      rewrite (pairs_count _ (fun t => ms_user_id t =? ms_user_id s) (fun _ => false)).
      * rewrite pairs_of_user by (by apply sorted_user_player). rewrite list_filter_none by done.
        assert (Hc : no_contest st = false).
        { apply (list_elem_of_fmap_2 ms_user_id) in Hs. rewrite sorted_users in Hs.
          destruct (no_contest st); [by apply not_elem_of_nil in Hs|done]. }
        by rewrite Hc.
      * intros t. cbn. by rewrite bool_decide_true, andb_true_r.
      * done.
  - intros c u El Ec _ Hu. unfold check_player_effects. rewrite El, Ec.
    assert (Esolo : is_solo (gs_game_type st) = false) by (by destruct (gs_game_type st)).
    rewrite Esolo.
    rewrite !count_app, count_xp
      by (apply player_ids_distinct || (by apply elem_of_player_ids) || apply xp_nonneg).
    rewrite !xp_count by done.
    rewrite (pairs_count (is_xp_of u) (fun _ => false) (fun _ => false)) by done.
    rewrite (pairs_count (is_high_score_of u) (fun _ => false) (fun _ => false)) by done.
    rewrite (pairs_count (is_mmr_of u) (fun s => ms_user_id s =? u) (fun _ => false)) by done.
    rewrite (pairs_count (is_ranking_of u) (fun _ => false) (fun s => ms_user_id s =? u)) by done.
    rewrite pairs_of_user, list_filter_none, !count_cons by done. cbn.
    rewrite !Nat.add_0_r, Nat.eqb_refl. cbn. by destruct (no_contest st).
Qed.
End rated.

(** What the match is worth to the player [u]: the experience it earned; in a
    solo game its score; otherwise, unless nobody was left to contest it, a rating
    change and a ranking entry, which do a removed player no good. *)
Definition settled (l : list CompletionEffect) (u : Z) : Prop :=
  (default 0 (gs_player_xp st !! u) <> 0 ->
   xp_of st u (default 0 (gs_player_xp st !! u)) ∈ l)
  /\ match gs_game_type st with
     | Solo => high_score_of st get_region season u ∈ l
     | _ => if no_contest st then forall e, e ∈ l -> is_mmr_of u e = false /\ is_ranking_of u e = false
            else exists s, ms_user_id s = u /\ mmr_of st s ∈ l
                   /\ ranking_of st get_region season s ∈ l /\ spec_fair st s
     end.

Lemma xp_settled u l : is_player u -> default 0 (gs_player_xp st !! u) <> 0 ->
  xp_of st u (default 0 (gs_player_xp st !! u)) ∈ xp_effects st (player_ids st) ++ l.
Proof.
  intros Hu Hx. apply elem_of_app. left. apply elem_of_xp. exists u.
  by rewrite elem_of_player_ids.
Qed.

Lemma rated_settled specs u :
  gs_game_type st <> Solo -> is_player u -> Forall (spec_fair st) specs ->
  ms_user_id <$> specs ≡ₚ (if no_contest st then [] else (map_to_list (gs_players st)).*1) ->
  settled ((xp_effects st (player_ids st) ++ rating_effects st get_region season specs)
           ++ [PersistGame "game"]) u.
Proof.
  intros Hg Hu Hf Hc. split; [intros Hx; rewrite <-app_assoc; by apply xp_settled|].
  assert (G : if no_contest st
     then forall e, e ∈ (xp_effects st (player_ids st) ++ rating_effects st get_region season specs)
                        ++ [PersistGame "game"] -> is_mmr_of u e = false /\ is_ranking_of u e = false
     else exists s, ms_user_id s = u
       /\ mmr_of st s ∈ (xp_effects st (player_ids st) ++ rating_effects st get_region season specs)
                        ++ [PersistGame "game"]
       /\ ranking_of st get_region season s
            ∈ (xp_effects st (player_ids st) ++ rating_effects st get_region season specs)
              ++ [PersistGame "game"] /\ spec_fair st s).
  { destruct (no_contest st).
    - apply Permutation_nil_r, fmap_nil_inv in Hc as ->. intros e He.
      rewrite !elem_of_app in He. destruct He as [[He|He]|He].
      + by apply elem_of_xp in He as (v & _ & _ & ->).
      + by apply not_elem_of_nil in He.
      + by apply list_elem_of_singleton in He as ->.
    - assert (Hin : u ∈ ms_user_id <$> specs).
      { rewrite Hc. apply list_elem_of_fmap. destruct Hu as [p Hu]. exists (u, p).
        by rewrite elem_of_map_to_list. }
      apply list_elem_of_fmap in Hin as (s & -> & Hs). exists s. split; [done|].
      assert (He : forall e, e = mmr_of st s \/ e = ranking_of st get_region season s ->
                e ∈ (xp_effects st (player_ids st) ++ rating_effects st get_region season specs)
                      ++ [PersistGame "game"]).
      { intros e He. rewrite !elem_of_app. left. right. rewrite rating_effects_pairs.
        apply elem_of_pairs. exists s. by rewrite merge_sort_Permutation. }
      split; [auto|]. split; [auto|]. rewrite Forall_forall in Hf. by apply Hf. }
  by destruct (gs_game_type st).
Qed.

Lemma progression_ok :
  exists pre post, progression_effects st season = Ok (pre, post)
    /\ admissible (pre ++ [PersistGame "game"] ++ post)
    /\ (gs_is_stress_test st = false -> forall u, is_player u ->
        settled (pre ++ [PersistGame "game"] ++ post) u).
Proof.
  unfold progression_effects. destruct (gs_is_stress_test st) eqn:Es.
  { exists [], []. split; [done|]. split; [by apply admissible_stress|done]. }
  assert (Hg : gs_game_type st = Solo \/ gs_game_type st <> Solo)
    by (destruct (gs_game_type st); [by left|by right..]).
  destruct Hg as [Eg|Eg].
  - rewrite Eg. cbn [is_solo]. rewrite high_score_effects_ok by (intros u; apply elem_of_player_ids).
    eexists _, _. split; [reflexivity|]. split; [by apply admissible_solo|]. intros _ u Hu.
    split; [by apply xp_settled|]. rewrite Eg. rewrite !elem_of_app. right. right.
    by apply list_elem_of_fmap_2, elem_of_player_ids.
  - assert (Esolo : is_solo (gs_game_type st) = false) by (by destruct (gs_game_type st)).
    rewrite Esolo. destruct (specs_ok st (sl_rateable _ S) knows Eg) as (specs & -> & Hc & Hf).
    eexists _, _. split; [reflexivity|]. split; [by apply admissible_rated|].
    intros _ u Hu. by apply rated_settled.
Qed.

(** A record with these effects and a sound header passes its validation. *)
Record header_ok (c : CompletionRecordV1) : Prop := {
  hd_version : cr_schema_version c = COMPLETION_SCHEMA_VERSION;
  hd_game : cr_game_id c <= i32_max;
  hd_server : cr_server_id c <= i32_max;
  hd_revision : cr_revision c <> 0;
  hd_time : is_Some (utc_date (cr_ended_at_ms c));
  hd_order : gs_start_ms st <= cr_ended_at_ms c;
  hd_season : cr_season c = Some season;
  hd_bare : cr_recording c = None /\ cr_recording_canonical_bytes c = None
            /\ cr_recording_journal c = None /\ cr_play_of_the_game c = None;
  hd_state : cr_final_state c = st
}.

Lemma admissible_effects c :
  header_ok c -> admissible (cr_effects c) -> check_effects c (cr_effects c) ∅ 0 = Ok 1%nat.
Proof.
  intros H A. rewrite check_effects_ok.
  - by rewrite (ac_game _ A).
  - apply (ac_distinct _ A).
  - intros e _. apply not_elem_of_empty.
  - eapply Forall_impl; [apply (ac_settles _ A)|]. intros e He.
    eapply (settles_ok st c get_region season S (hd_state _ H) (hd_season _ H));
      [apply first_region_nonempty|done].
Qed.

Lemma validation_accepts c :
  header_ok c -> admissible (cr_effects c) -> completion_validate c = Ok tt.
Proof.
  intros H A. unfold completion_validate.
  pose proof (admissible_effects c H A) as E. pose proof (ac_ranking _ A c eq_refl) as Hr.
  pose proof (ac_players _ A c) as Hp. destruct H as [-> ? ? ? [d Hd] ? _ (-> & -> & -> & ->) Est].
  rewrite Est in *. rewrite (proj2 (Z.leb_le (cr_game_id c) _)) by done.
  rewrite (proj2 (Z.leb_le (cr_server_id c) _)), (proj2 (Z.eqb_neq (cr_revision c) 0)), Hd by done.
  rewrite (proj2 (Z.ltb_ge (cr_ended_at_ms c) _)) by done.
  assert (Ht : is_terminal (gs_status st) = true) by apply (rt_terminal _ (sl_rateable _ S)).
  rewrite Ht. cbn [Z.eqb Pos.eqb ensure is_some negb andb orb mbind result_bind]. rewrite andb_false_r.
  cbn [ensure negb mbind result_bind]. rewrite E. cbn [Nat.eqb ensure mbind result_bind].
  assert (Es : gs_is_stress_test st && negb (length (cr_effects c) =? 1)%nat = false).
  { destruct (gs_is_stress_test st) eqn:Es; [|done]. by rewrite (ac_stress _ A Es). }
  rewrite Es. cbn [negb ensure mbind result_bind].
  assert (Esz : negb (gs_is_stress_test st)
      && (MAX_HISTORY_TRANSACTION_PLAYERS <? Z.of_nat (size (gs_players st))) = false).
  { destruct (gs_is_stress_test st) eqn:Est'; [done|]. apply Z.ltb_ge, (sl_size _ S Est'). }
  rewrite Esz. cbn [negb ensure mbind result_bind].
  rewrite (proj2 (for_each_ok _ _) Hr). cbn [mbind result_bind].
  rewrite (proj2 (for_each_ok (map_to_list (gs_player_xp st)) _)).
  - cbn [mbind result_bind]. destruct (gs_is_stress_test st) eqn:Est'; [done|].
    apply for_each_ok, Forall_forall. intros u Hu. apply Hp; [done..|].
    apply list_elem_of_fmap in Hu as ([v p] & -> & Hv%elem_of_map_to_list). by eexists.
  - apply Forall_forall. intros [u x] Hx%elem_of_map_to_list. cbn [fst snd].
    rewrite bool_decide_true by (by apply (sl_xp _ S) in Hx as [_ ?]). by rewrite andb_false_r.
Qed.

(** *** The record of a finished match *)

Lemma game_type_same : game_type_eqb (gs_game_type st) (gs_game_type st) = true.
Proof. apply (sl_type _ S). Qed.

Lemma effect_same e : settles st get_region season e -> effect_eqb e e = true.
Proof.
  intros H. destruct H; cbn; rewrite ?game_type_same, ?bool_decide_true by done; done.
Qed.

Lemma find_distinct l e :
  NoDup (effect_id <$> l) -> e ∈ l ->
  exists i, list_find (fun x => effect_id x = effect_id e) l = Some (i, e).
Proof.
  intros Hd [i Hi]%list_elem_of_lookup_1. exists i. apply list_find_Some.
  split; [done|]. split; [done|]. intros j x Hj Hlt E.
  assert (i = j); [|lia]. eapply (NoDup_lookup _ _ _ (effect_id e) Hd).
  - by rewrite list_lookup_fmap, Hi.
  - rewrite list_lookup_fmap, Hj. cbn. by rewrite E.
Qed.

Lemma effect_accepted c e :
  header_ok c -> admissible (cr_effects c) -> e ∈ cr_effects c -> validate_effect c e = Ok tt.
Proof.
  intros H A He. unfold validate_effect. rewrite validation_accepts by done.
  cbn [mbind result_bind]. unfold find_effect.
  destruct (find_distinct _ _ (ac_distinct _ A) He) as [i ->]. cbn [fmap option_fmap option_map snd].
  rewrite effect_same; [done|]. pose proof (ac_settles _ A) as Hs. rewrite Forall_forall in Hs.
  by apply Hs.
Qed.

Lemma materialize_ok game_id partition_id server_id ended_at_ms revision :
  game_id <= i32_max -> server_id <= i32_max -> revision <> 0 ->
  season_for_completion_timestamp ended_at_ms = Ok season -> gs_start_ms st <= ended_at_ms ->
  exists c, materialize_completion game_id partition_id server_id st ended_at_ms revision = Ok c
    /\ header_ok c /\ admissible (cr_effects c)
    /\ (gs_is_stress_test st = false -> forall u, is_player u -> settled (cr_effects c) u).
Proof.
  intros Hg Hs Hr Ht Ho. unfold materialize_completion.
  assert (Hterm : is_terminal (gs_status st) = true) by apply (rt_terminal _ (sl_rateable _ S)).
  rewrite Hterm. cbn [ensure mbind result_bind]. rewrite Ht. cbn [mbind result_bind].
  destruct progression_ok as (pre & post & -> & A & U). cbn [mbind result_bind]. cbv zeta.
  assert (Hd : is_Some (utc_date ended_at_ms)).
  { unfold season_for_completion_timestamp in Ht. destruct (utc_date ended_at_ms); [by eexists|done]. }
  match goal with |- context [completion_validate ?r] => set (c := r) end.
  assert (H : header_ok c) by by split.
  exists c. rewrite (validation_accepts c H A). split; [done|]. split; [done|]. split; [exact A|exact U].
Qed.
End settlement.

(** ** The history of a record *)

Section history.
Context {CE : CompletionEnv} {WL : WengLin} {RD : RatingDb} (st : GameState).
Hypothesis S : settleable st.
Hypothesis knows : db_knows st.

Lemma materialize_inv game_id partition_id server_id ended_at_ms revision r :
  materialize_completion game_id partition_id server_id st ended_at_ms revision = Ok r ->
  exists season, cr_final_state r = st /\ admissible st season (cr_effects r)
    /\ (gs_is_stress_test st = false -> forall u, is_Some (gs_players st !! u) ->
        settled st season (cr_effects r) u).
Proof.
  unfold materialize_completion. rewrite unit_bind_ok, bind_ok. intros [_ (season & _ & E)].
  exists season. destruct (progression_ok st season S knows) as (pre & post & Ep & A & U).
  rewrite Ep in E. cbn [mbind result_bind] in E. cbv zeta in E. rewrite unit_bind_ok in E.
  destruct E as [_ [= <-]]. done.
Qed.

Lemma mmr_deltas_lookup l u d :
  (exists i n q, AddMmr i u n d q ∈ l) ->
  (forall i n q d', AddMmr i u n d' q ∈ l -> d' = d) -> mmr_deltas l !! u = Some d.
Proof.
  unfold mmr_deltas. generalize (∅ : gmap Z Z). intros m Hex Hu.
  assert (G : forall (l : list CompletionEffect) (m : gmap Z Z),
     (forall i n q d', AddMmr i u n d' q ∈ l -> d' = d) -> m !! u = Some d ->
     foldl (fun m e => match e with AddMmr _ u _ d _ => <[u := d]> m | _ => m end) m l !! u = Some d).
  { clear. intros l. induction l as [|e l IH]; intros m Hu Hm; [done|]. cbn [foldl].
    apply IH; [intros i n q d' H; eapply Hu; right; exact H|].
    destruct e as [| |i v n d' q| |]; try done. destruct (decide (v = u)) as [->|Hne].
    - rewrite lookup_insert_eq. f_equal. eapply Hu. left.
    - by rewrite lookup_insert_ne. }
  revert m. induction l as [|e l IH]; intros m.
  { destruct Hex as (? & ? & ? & H%not_elem_of_nil). done. }
  cbn [foldl]. destruct Hex as (i & n & q & [<-|H]%elem_of_cons).
  - apply G; [intros; eapply Hu; right; eassumption|]. apply lookup_insert_eq.
  - apply IH; [by eauto|]. intros; eapply Hu; right; eassumption.
Qed.

Lemma elem_of_ranking_winners u l :
  u ∈ ranking_winners l <-> exists i n q g x s, UpdateRanking i u n q g x s true ∈ l.
Proof.
  unfold ranking_winners. rewrite list_elem_of_omap. split.
  - intros (e & He & E). destruct e as [| | |i v n q g x s [|]|]; try done. injection E as ->. eauto 10.
  - intros (i & n & q & g & x & s & H). eexists. by split.
Qed.

Section settled_player.
Variables (season : Z) (l : list CompletionEffect) (s : MmrEffectSpec).
Hypothesis adm : admissible st season l.
Hypothesis (Hm : mmr_of st s ∈ l) (Hr : ranking_of st get_region season s ∈ l).

Lemma same_id e e' : e ∈ l -> e' ∈ l -> effect_id e = effect_id e' -> e = e'.
Proof.
  intros [i Hi]%list_elem_of_lookup_1 [j Hj]%list_elem_of_lookup_1 E.
  assert (i = j) as ->; [|congruence]. apply (NoDup_lookup _ _ _ (effect_id e) (ac_distinct _ _ _ adm)).
  - by rewrite list_lookup_fmap, Hi.
  - rewrite list_lookup_fmap, Hj. cbn. by rewrite E.
Qed.

Lemma settles_in e : e ∈ l -> settles st get_region season e.
Proof. intros He. pose proof (ac_settles _ _ _ adm) as H. rewrite Forall_forall in H. by apply H. Qed.

Lemma delta_shown : mmr_deltas l !! ms_user_id s = Some (ms_delta s).
Proof.
  apply mmr_deltas_lookup; [by eauto|]. intros i n q d H.
  assert (E : AddMmr i (ms_user_id s) n d q = mmr_of st s).
  { apply same_id; [done..|]. pose proof (settles_in _ H) as Hs. inversion Hs; subst. cbn. congruence. }
  unfold mmr_of in E. congruence.
Qed.

Lemma winner_shown : ms_user_id s ∈ ranking_winners l <-> ms_won s = true.
Proof.
  rewrite elem_of_ranking_winners. split.
  - intros (i & n & q & g & x & t & H).
    assert (E : UpdateRanking i (ms_user_id s) n q g x t true = ranking_of st get_region season s).
    { apply same_id; [done..|]. pose proof (settles_in _ H) as Hs. inversion Hs; subst. cbn. congruence. }
    unfold ranking_of in E. congruence.
  - intros Ew. unfold ranking_of in Hr. rewrite Ew in Hr. by eauto 10.
Qed.
End settled_player.

Lemma history_players_ok c ids :
  cr_final_state c = st -> (forall u, u ∈ ids -> is_Some (gs_players st !! u)) ->
  exists ps, history_players c ids = Ok ps /\ hp_user_id <$> ps = ids
    /\ forall e, e ∈ ps ->
        hp_xp_gained e = default 0 (gs_player_xp st !! hp_user_id e)
        /\ hp_mmr_delta e = mmr_deltas (cr_effects c) !! hp_user_id e
        /\ hp_outcome e = history_outcome st (winner_user_ids c) (hp_user_id e).
Proof.
  intros Ec. induction ids as [|u ids IH]; intros H; cbn [history_players].
  { exists []. split; [done|]. split; [done|]. by intros e ?%not_elem_of_nil. }
  rewrite Ec. destruct (H u) as [p Hp]; [left|]. rewrite Hp.
  destruct IH as (ps & -> & Ei & He); [intros v Hv; apply H; by right|]. cbn [mbind result_bind].
  eexists. split; [reflexivity|]. split; [cbn; by rewrite Ei|].
  intros e [->|Hin]%elem_of_cons; [done|]. by apply He.
Qed.
End history.
