(* ===== verification/SettlementFacts.v ===== *)
(** * What play does to the standing of a match

    The fields a settlement reads: the teams of the snakes, the players, the
    removed users, the scores of the teams, the awards and the status. Most of a
    quantum is quiet on them; the goal phase adds to the scores of the teams the
    snakes have, and the two ends of a match set the rest. *)

From Stdlib Require Import ZArith Lia.
From stdpp Require Import prelude strings countable list gmap sorting relations.
From S2P Require Import Prelude RustFloat Util Snake SnakeFacts Arena CommandQueue GameState.
From S2P Require Import GameSetup Events Validate Tick MeterInvariant.
Open Scope Z_scope.

Definition teams (st : GameState) : list (option TeamId) := sn_team_id <$> gs_snakes st.

(** Scores are of the two teams. *)
Definition two_sided (st : GameState) : Prop :=
  forall scores t, gs_team_scores st = Some scores -> is_Some (scores !! t) -> t = 0 \/ t = 1.

Definition standing (st : GameState) :=
  (teams st, gs_players st, gs_game_type st, gs_is_stress_test st,
   bool_decide (is_Some (gs_team_scores st)), gs_player_xp st, gs_status st,
   gs_completed_by_inactivity st, gs_idle_kicked_user_ids st, gs_start_ms st).

Definition quiet (st st' : GameState) : Prop :=
  standing st' = standing st /\ (two_sided st -> two_sided st').

#[global] Instance quiet_refl : Reflexive quiet.
Proof. done. Qed.
#[global] Instance quiet_trans : Transitive quiet.
Proof. intros a b c [E1 T1] [E2 T2]. split; [congruence|auto]. Qed.

(** ** Snakes *)

Lemma teams_alter (l : list Snake) id f :
  (forall s, sn_team_id (f s) = sn_team_id s) ->
  sn_team_id <$> vec_alter f l id = sn_team_id <$> l.
Proof.
  intros H. unfold vec_alter. apply list_eq. intros n. rewrite !list_lookup_fmap.
  destruct (decide (n = Z.to_nat id)) as [->|Hne].
  - rewrite list_lookup_alter_eq. destruct (l !! Z.to_nat id); [|done]. cbn. by rewrite H.
  - by rewrite list_lookup_alter_ne.
Qed.

Lemma teams_set (l : list Snake) id s s' :
  vec_get l id = Some s' -> sn_team_id s = sn_team_id s' ->
  sn_team_id <$> vec_set l id s = sn_team_id <$> l.
Proof.
  intros H E. unfold vec_set, vec_get in *. apply list_eq. intros n. rewrite !list_lookup_fmap.
  destruct (decide (n = Z.to_nat id)) as [->|Hne].
  - rewrite list_lookup_insert_eq by (by eapply lookup_lt_Some). rewrite H. cbn. by rewrite E.
  - by rewrite list_lookup_insert_ne.
Qed.

Lemma teams_map (l : list Snake) (f : Snake -> Snake) :
  (forall s, sn_team_id (f s) = sn_team_id s) -> sn_team_id <$> (f <$> l) = sn_team_id <$> l.
Proof. intros H. rewrite <-list_fmap_compose. apply list_fmap_ext. intros i s _. apply H. Qed.

Lemma quiet_snakes st l : sn_team_id <$> l = teams st -> quiet st (with_snakes l st).
Proof.
  intros E. split; [|done]. unfold standing, teams, gs_snakes in *. cbn in *. by rewrite E.
Qed.

Lemma quiet_update st id f :
  (forall s, sn_team_id (f s) = sn_team_id s) -> quiet st (update_snake id f st).
Proof. intros H. apply quiet_snakes. by apply teams_alter. Qed.

(** ** Events and commands *)

Definition quiet_event (e : GameEvent) : Prop :=
  match e with
  | Ev_Snapshot _ | Ev_PlayerIdleKicked _ _ | Ev_StatusUpdated _ | Ev_TeamScoreUpdated _ _
  | Ev_XPAwarded _ => False
  | _ => True
  end.

Lemma quiet_activity st m t : quiet st (record_player_activity_for_command st m t).
Proof. unfold record_player_activity_for_command. repeat (case_match; try done). Qed.

Lemma quiet_eat st id points chain : quiet st (eat_food st id points chain).
Proof.
  unfold eat_food.
  match goal with |- quiet _ (with_food_pickups _ (with_scores _ ?s)) => transitivity s; [|done] end.
  by apply quiet_update.
Qed.

Lemma quiet_apply e st : quiet_event e -> quiet st (apply_event e st).
Proof.
  intros He. destruct e; try done; cbn [apply_event];
    try (by repeat (case_match; try done)).
  - by apply quiet_update.
  - match goal with |- quiet _ (discard_commands_of _ ?s) => transitivity s; [|done] end.
    match goal with |- quiet _ (update_snake ?i ?f ?s) => transitivity s; [done|] end.
    by apply quiet_update.
  - case_match; [|done]. destruct (remove_food st position) as [[|] st1] eqn:E;
      unfold remove_food in E; injection E as _ <-; [|done].
    etransitivity; [|apply quiet_eat]. done.
  - match goal with |- context [with_pads ?l st] => set (st1 := with_pads l st) end.
    transitivity st1; [done|]. repeat (case_match; try done). by apply quiet_update.
  - match goal with |- quiet _ (with_command_queue _ ?s) => transitivity s; [|done] end.
    apply quiet_activity.
  - case_match; [done|].
    match goal with |- quiet _ (with_command_queue _ ?s) => transitivity s; [|done] end.
    apply quiet_activity.
  - match goal with |- quiet _ (discard_commands_of _ ?s) => transitivity s; [|done] end.
    by apply quiet_update.
Qed.

Lemma quiet_emit e so : quiet_event e -> quiet so.1 (emit e so).1.
Proof. destruct so as [st out]. intros He. cbn. etransitivity; [|by apply quiet_apply]. done. Qed.

Lemma quiet_fold {A} (f : GameState * Events -> A -> GameState * Events) so l :
  (forall so x, x ∈ l -> quiet so.1 (f so x).1) -> quiet so.1 (foldl f so l).1.
Proof.
  revert so. induction l as [|x l IH]; intros so H; [done|]. cbn [foldl].
  etransitivity; [apply (H so x); left|]. apply IH. intros so' y Hy. apply H. by right.
Qed.

Lemma quiet_action st id : quiet st (record_player_action_for_snake st id).
Proof. unfold record_player_action_for_snake. by case_match. Qed.

Lemma quiet_intent st id w : quiet st (gs_set_boost_intent st id w).
Proof.
  unfold gs_set_boost_intent. destruct (gs_boost st); [|done].
  destruct (vec_get (gs_snakes st) id) as [s|] eqn:E; [|done].
  assert (Et : sn_team_id (set_boost_intent s w).2 = sn_team_id s)
    by (unfold set_boost_intent; by case_match).
  destruct (set_boost_intent s w) as [c s']. cbn [snd] in Et.
  assert (H : quiet st (with_snakes (vec_set (gs_snakes st) id s') st))
    by (apply quiet_snakes; by apply (teams_set _ _ _ s)).
  destruct c; [|done]. etransitivity; [exact H|apply quiet_action].
Qed.

Lemma quiet_exec cmd st r st' : exec_command cmd st = (r, st') -> quiet st st'.
Proof.
  destruct cmd; cbn; try (intros [= _ <-]; done || by apply quiet_intent).
  repeat case_match; intros [= _ <-]; try done.
  etransitivity; [|apply quiet_action]. etransitivity; [|by apply quiet_update]. done.
Qed.

Lemma quiet_due fuel so turns so' turns' :
  due_commands_loop fuel so turns = (so', turns') -> quiet so.1 so'.1.
Proof.
  revert so turns. induction fuel as [|fuel IH]; intros [st out] turns; cbn [due_commands_loop].
  { by intros [= <- _]. }
  destruct (pop (gs_command_queue st) (gs_tick st)) as [[m|] q]; [|by intros [= <- _]].
  destruct (command m) eqn:Ec; try (intros E%IH; etransitivity; [|exact E]; done).
  all: match goal with |- context [exec_command ?c ?s] =>
         destruct (exec_command c s) as [[ev|?|?] st1] eqn:Ee end.
  all: intros E%IH; etransitivity; [|exact E]; apply quiet_exec in Ee; cbn [fst].
  all: etransitivity; [|exact Ee]; done.
Qed.

Lemma quiet_turns movers msgs so turned deferred so' d' :
  turns_loop movers msgs so turned deferred = (so', d') -> quiet so.1 so'.1.
Proof.
  revert so turned deferred.
  induction msgs as [|m msgs IH]; intros [st out] turned deferred; cbn [turns_loop].
  { by intros [= <- _]. }
  destruct (command m) eqn:Ec; try (by intros E%IH).
  case_match; [by intros E%IH|].
  destruct (exec_command (Cmd_Turn snake_id d) st) as [[ev|?|?] st1] eqn:Ee;
    intros E%IH; (etransitivity; [by eapply quiet_exec|exact E]).
Qed.

(** ** Movement *)

Lemma accrue_teams i l q n movers l' :
  accrue_all i l q n = Ok (movers, l') -> sn_team_id <$> l' = sn_team_id <$> l.
Proof.
  revert i movers l'. induction l as [|s l IH]; intros i movers l'; cbn [accrue_all].
  { by intros [= _ <-]. }
  rewrite bind_ok. intros ([b s1] & E1 & E). rewrite bind_ok in E.
  destruct E as ([m1 l1] & E2 & E). injection E as _ <-. apply IH in E2. cbn. rewrite E2. f_equal.
  unfold accrue_movement_credit in E1. repeat case_match; by simplify_eq.
Qed.

Lemma boosts_quiet st : quiet st (reserve_boosts (resolve_boosts st).1).
Proof.
  transitivity ((resolve_boosts st).1).
  - unfold resolve_boosts. destruct (gs_boost st) as [c|]; [|done]. cbn [fst]. apply quiet_snakes.
    unfold teams. rewrite <-!list_fmap_compose. apply list_fmap_ext. intros i s _. cbn.
    by destruct (activation_cases s (bc_speed_milli c) (bc_capacity_ms c) _ eq_refl)
      as [->|[(-> & _)| ->]].
  - unfold reserve_boosts. apply quiet_snakes, teams_map. intros s.
    unfold reserve_boost_quantum. by repeat case_match.
Qed.

Lemma quiet_tick_move st out movers so st' obs :
  tick_move st out = (Ok (movers, so), st', obs) -> quiet st so.1.
Proof.
  unfold tick_move. destruct (run_due_commands (st, out)) as [[st1 out1] turns] eqn:E1.
  apply quiet_due in E1. cbn [fst] in E1. pose proof (boosts_quiet st1) as E2.
  destruct (resolve_boosts st1) as [st2 obs2]. cbn [fst] in E2.
  destruct (accrue_all _ _ _ _) as [[mv l]| |] eqn:E3; try done.
  destruct (turns_loop _ _ _ _ _) as [[st4 out4] d] eqn:E4. apply quiet_turns in E4.
  intros [= <- <- _ _]. cbn [fst] in *. etransitivity; [exact E1|]. etransitivity; [exact E2|].
  etransitivity; [apply quiet_snakes; by eapply accrue_teams|]. etransitivity; [exact E4|done].
Qed.

Lemma move_quiet movers st : quiet st (move_snakes movers st).
Proof.
  unfold move_snakes. apply quiet_snakes. unfold teams, iter_snakes.
  rewrite <-(enumerate_snd (gs_snakes st)) at 2. rewrite <-!list_fmap_compose.
  apply list_fmap_ext. intros k [i s] _. cbn. case_match; [|done]. apply step_forward_meters.
Qed.

Lemma respawn_quiet st id e : respawn_event_for_snake st id = Some e -> quiet_event e.
Proof. unfold respawn_event_for_snake. repeat case_match; try done. by intros [= <-]. Qed.

Lemma kill_crashed_quiet old so c so' :
  sn_team_id <$> old = teams so.1 -> kill_crashed old so c = Ok so' -> quiet so.1 so'.1.
Proof.
  destruct so as [st out], c as [id [h cause]]. cbn [fst]. intros Ho. unfold kill_crashed.
  rewrite bind_ok. intros (o & Eo & E). apply bind_ok in E as (x & _ & E).
  apply bind_ok in E as (y & _ & E).
  assert (H0 : quiet st (with_snakes (vec_set (gs_snakes st) id o) st)).
  { unfold index in Eo. destruct (vec_get old id) as [o'|] eqn:Eg; [|done]. injection Eo as ->.
    assert (Ht : teams st !! Z.to_nat id = Some (sn_team_id o)).
    { rewrite <-Ho. unfold vec_get in Eg. by rewrite list_lookup_fmap, Eg. }
    unfold teams in Ht. rewrite list_lookup_fmap in Ht.
    destruct (gs_snakes st !! Z.to_nat id) as [s|] eqn:Es; [|done]. injection Ht as Ht.
    apply quiet_snakes. by eapply teams_set. }
  set (st1 := with_snakes _ st) in *. cbv zeta in E.
  match type of E with context [emit ?e ?s] =>
    assert (H1 : quiet st (emit e s).1); [|destruct (emit e s) as [st2 out2]] end.
  { etransitivity; [exact H0|]. etransitivity; [|by apply quiet_emit]. done. }
  cbn [fst] in H1. repeat case_match; simplify_eq; try done.
  match goal with H : respawn_event_for_snake st2 id = Some ?e |- _ =>
    etransitivity; [exact H1|]; apply (quiet_emit e (st2, out2)); by eapply respawn_quiet end.
Qed.

Lemma quiet_teams st st' : quiet st st' -> teams st' = teams st.
Proof. intros [E _]. unfold standing in E. congruence. Qed.

Lemma kill_all_quiet old so cs so' :
  sn_team_id <$> old = teams so.1 -> kill_all old so cs = Ok so' -> quiet so.1 so'.1.
Proof.
  revert so. induction cs as [|c cs IH]; intros so Ho; cbn [kill_all]; [by intros [= <-]|].
  destruct (kill_crashed old so c) as [so1| |] eqn:E; try done.
  apply kill_crashed_quiet in E; [|done]. intros E'. etransitivity; [exact E|].
  apply IH; [|done]. by rewrite (quiet_teams _ _ E).
Qed.

(** ** Food, pads and goals *)

Lemma eat_quiet so e : quiet so.1 (eat_one so e).1.
Proof.
  unfold eat_one. destruct e; try done. case_match; [|by apply quiet_emit].
  etransitivity; by apply quiet_emit.
Qed.

Lemma collect_quiet post config so pad : quiet so.1 (collect_pad post config so pad).1.
Proof.
  destruct so as [st out]. unfold collect_pad. destruct (pad_collector st pad) as [id|]; [|done].
  destruct (vec_get (gs_snakes st) id) as [s|] eqn:Es; [|done].
  assert (Et : sn_team_id (collect_boost_charge s (pad_charge_ms pad) (bc_capacity_ms config)).2
               = sn_team_id s) by (unfold collect_boost_charge; by case_match).
  destruct (collect_boost_charge _ _ _) as [charge s']. cbn [snd] in Et.
  assert (H : quiet st (with_snakes (vec_set (gs_snakes st) id s') st))
    by (apply quiet_snakes; by apply (teams_set _ _ _ s)).
  destruct charge; [|done]. cbn [fst]. etransitivity; [exact H|]. by apply quiet_emit.
Qed.

Lemma finalize_quiet st : quiet st (finalize_boosts st).1.
Proof.
  unfold finalize_boosts. cbn [fst]. apply quiet_snakes. unfold teams.
  rewrite <-!list_fmap_compose. apply list_fmap_ext. intros i s _. cbn.
  unfold finalize_boost_depletion. by case_match.
Qed.

Lemma spawn_quiet `{F32Libm} mo so : quiet so.1 (spawn_food mo so).1.
Proof.
  destruct so as [st out]. unfold spawn_food. repeat (case_match; try done).
  cbn [fst]. etransitivity; [|by apply quiet_emit]. done.
Qed.

Lemma cues_quiet old movers st : quiet st (record_goal_cues old movers st).
Proof. unfold record_goal_cues. by repeat case_match. Qed.

(** The teams of the snakes. *)
Definition sides (st : GameState) : Prop :=
  forall t, Some t ∈ teams st -> t = 0 \/ t = 1.

Lemma score_quiet team score so : team = 0 \/ team = 1 ->
  quiet so.1 (emit (Ev_TeamScoreUpdated team score) so).1.
Proof.
  destruct so as [st out]. intros Ht. cbn. destruct (gs_team_scores st) as [scores|] eqn:Es; [|done].
  split; [unfold standing; cbn; by rewrite Es, !bool_decide_true|].
  intros H sc t [= <-]. destruct (decide (t = team)) as [->|Hne]; [done|].
  rewrite lookup_insert_ne by done. by apply H.
Qed.

Lemma score_deltas_teams bs t :
  is_Some (score_deltas bs !! t) -> exists b, b ∈ bs /\ b.1.2 = t.
Proof.
  unfold score_deltas.
  assert (G : forall m : gmap Z Z, is_Some (foldl (fun (m : gmap Z Z) '(_, team, carried) =>
       <[team := wrap_u32 (default 0 (m !! team) + carried)]> m) m bs !! t) ->
       is_Some (m !! t) \/ exists b, b ∈ bs /\ b.1.2 = t).
  { induction bs as [|[[i team] carried] bs IH]; intros m H; [by left|]. cbn [foldl] in H.
    apply IH in H as [H|(b & Hb & E)].
    - destruct (decide (t = team)) as [->|Hne].
      + right. exists (i, team, carried). split; [left|done].
      + rewrite lookup_insert_ne in H by done. by left.
    - right. exists b. split; [by right|done]. }
  intros H. apply G in H as [H|H]; [|done]. rewrite lookup_empty in H. by destruct H.
Qed.

Lemma banker_team st b : b ∈ bankers st -> Some b.1.2 ∈ teams st.
Proof.
  unfold bankers, teams. rewrite list_elem_of_omap. intros ([i s] & Hs & E). unfold banking in E.
  repeat case_match; simplify_eq. cbn. apply list_elem_of_fmap. exists s. split; [done|].
  rewrite <-(enumerate_snd (gs_snakes st)). by apply (list_elem_of_fmap_2 snd _ (i, s)).
Qed.

Lemma goals_quiet so : sides so.1 -> quiet so.1 (score_goals so).1.
Proof.
  intros Hs. unfold score_goals. destruct (gs_team_scores so.1); [|done].
  destruct (is_team_match _); [|done]. cbv zeta. etransitivity; [|apply quiet_fold].
  - apply quiet_fold. intros so' [t d] Hin. unfold add_team_score. apply score_quiet.
    rewrite (merge_sort_Permutation key_le) in Hin. apply elem_of_map_to_list in Hin.
    destruct (score_deltas_teams (bankers so.1) t) as (b & Hb & <-); [by eexists|].
    by apply Hs, banker_team.
  - intros so' id _. unfold bank_and_respawn.
    set (so1 := emit (Ev_SnakeDied id DC_Banked) so').
    assert (H1 : quiet so'.1 so1.1) by by apply quiet_emit.
    destruct (respawn_event_for_snake so1.1 id) as [e|] eqn:E; [|done].
    etransitivity; [exact H1|]. apply quiet_emit. by eapply respawn_quiet.
Qed.

(** ** The standing of a match *)

(** Awards go to players and fit their type; only two teams have scores; a
    match that inactivity ended is over, and its winner was not removed. *)
Record fair (st : GameState) : Prop := {
  fa_xp u x : gs_player_xp st !! u = Some x -> 0 <= x <= u32_max /\ is_Some (gs_players st !! u);
  fa_scores : two_sided st;
  fa_over : gs_completed_by_inactivity st = true -> is_complete st = true;
  fa_winner w : gs_completed_by_inactivity st = true -> gs_status st = Complete (Some w) ->
    exists u p, gs_players st !! u = Some p /\ pl_snake_id p = w
                /\ is_player_idle_kicked st u = false
}.

(** What play never changes. *)
Definition roster (st : GameState) :=
  (teams st, gs_players st, gs_game_type st, gs_is_stress_test st,
   bool_decide (is_Some (gs_team_scores st)), gs_start_ms st).

Lemma quiet_roster st st' : quiet st st' -> roster st' = roster st.
Proof. intros [E _]. unfold standing, roster in *. congruence. Qed.

Lemma quiet_fair st st' : quiet st st' -> fair st -> fair st'.
Proof.
  intros [E T] [F1 F2 F3 F4]. unfold standing in E.
  injection E as _ E2 _ _ _ E6 E7 E8 E9 _. unfold is_complete, is_player_idle_kicked in *.
  by split; unfold is_complete, is_player_idle_kicked; rewrite ?E2, ?E6, ?E7, ?E8, ?E9; auto.
Qed.

Lemma roster_sides st st' : roster st' = roster st -> sides st -> sides st'.
Proof. intros E. unfold roster in E. unfold sides. by injection E as -> _ _ _ _ _. Qed.

(** *** The end by score or by the last death *)

Lemma team_xp_dom st wt l m u x :
  team_xp_awards st wt l = Ok m -> m !! u = Some x -> 0 <= x <= u32_max /\ u ∈ l.*1.
Proof.
  revert m. induction l as [|[v p] l IH]; intros m; cbn [team_xp_awards].
  { intros [= <-]. by rewrite lookup_empty. }
  rewrite bind_ok. intros (y & Ey & E). rewrite bind_ok in E. destruct E as (m' & Em & E).
  injection E as <-. destruct (decide (u = v)) as [->|Hne].
  - rewrite lookup_insert_eq. intros [= <-]. split; [|left]. unfold team_xp in Ey.
    destruct (is_player_idle_kicked st v); [injection Ey as <-; unfold u32_max; lia|].
    rewrite bind_ok in Ey. destruct Ey as (s & _ & Ey). injection Ey as <-. apply wrap_u32_range.
  - rewrite lookup_insert_ne by done. intros Hx. destruct (IH m' Em Hx). split; [done|by right].
Qed.

Lemma solo_xp_dom st u x :
  solo_xp_awards st !! u = Some x -> 0 <= x <= u32_max /\ is_Some (gs_players st !! u).
Proof.
  unfold solo_xp_awards. rewrite map_lookup_imap. destruct (gs_players st !! u) as [p|]; [|done].
  cbn. intros E. split; [|by eexists].
  destruct (is_player_idle_kicked st u); injection E as <-; [unfold u32_max; lia|].
  apply wrap_u32_range.
Qed.

Lemma finish_fair xp w so :
  fair so.1 -> gs_completed_by_inactivity so.1 = false ->
  (forall u x, xp !! u = Some x -> 0 <= x <= u32_max /\ is_Some (gs_players so.1 !! u)) ->
  fair (finish xp w so).1 /\ roster (finish xp w so).1 = roster so.1.
Proof.
  destruct so as [st out]. cbn [fst]. intros [F1 F2 F3 F4] Hc Hx. split; [|done]. split; cbn; try done.
  intros w' Hw. congruence.
Qed.

Lemma completion_fair so so' :
  fair so.1 -> gs_completed_by_inactivity so.1 = false -> check_completion so = Ok so' ->
  fair so'.1 /\ roster so'.1 = roster so.1.
Proof.
  intros F Hc. unfold check_completion. destruct (negb _); [by intros [= <-]|].
  destruct (is_team_match _).
  - destruct (score_limit _); [|by intros [= <-]].
    destruct (score_reached _ _); [|by intros [= <-]].
    rewrite bind_ok. intros (xp & Exp & [= <-]). apply finish_fair; [done..|].
    intros u x Hx. destruct (team_xp_dom _ _ _ _ _ _ Exp Hx) as [Hr Hu]. split; [done|].
    apply list_elem_of_fmap in Hu as ([v p] & -> & Hv%elem_of_map_to_list). by eexists.
  - destruct (existsb _ _); intros [= <-]; [done|]. apply finish_fair; [done..|]. apply solo_xp_dom.
Qed.

(** *** The end by inactivity *)

Lemma active_not_kicked st u p :
  (u, p) ∈ active_players st -> gs_players st !! u = Some p /\ is_player_idle_kicked st u = false.
Proof.
  unfold active_players. intros [H Hin]%list_elem_of_filter.
  apply elem_of_map_to_list in Hin. split; [done|]. unfold player_is_idle_contender in H.
  by destruct (is_player_idle_kicked st u).
Qed.

Lemma min_by_user_in l x : min_by_user l = Some x -> x ∈ l.
Proof.
  destruct l as [|y l]; [done|]. cbn. intros [= <-]. revert y.
  induction l as [|z l IH]; intros y; cbn [foldl]; [left|].
  destruct (z.1 <? y.1).
  - right. apply (IH z).
  - destruct (proj1 (elem_of_cons _ _ _) (IH y)) as [->|H]; [left|right; by right].
Qed.

Lemma inactivity_winner st w :
  inactivity_winning_snake_id st = Some (Some w) ->
  exists u p, gs_players st !! u = Some p /\ pl_snake_id p = w
              /\ is_player_idle_kicked st u = false.
Proof.
  unfold inactivity_winning_snake_id. destruct (team_scored st).
  - destruct (elements _) as [|t [|? ?]]; try done. intros E.
    match type of E with Some (snd <$> min_by_user ?l) = _ =>
      destruct (min_by_user l) as [[u s]|] eqn:Em; [|done] end.
    apply min_by_user_in in Em. injection E as ->. apply list_elem_of_omap in Em as ([v p] & Hv & E).
    case_bool_decide; [|done]. injection E as <- <-. apply active_not_kicked in Hv as [? ?]. eauto.
  - destruct (active_players st) as [|[u p] [|? ?]] eqn:Ea; try done. intros [= <-].
    assert (Hin : (u, p) ∈ active_players st) by (rewrite Ea; left).
    apply active_not_kicked in Hin as [? ?]. eauto.
Qed.

Lemma inactivity_xp_dom st w u x :
  inactivity_xp_awards st w !! u = Some x -> 0 <= x <= u32_max /\ is_Some (gs_players st !! u).
Proof.
  unfold inactivity_xp_awards. rewrite map_lookup_imap. destruct (gs_players st !! u) as [p|]; [|done].
  cbn. intros E. split; [|by eexists].
  destruct (is_player_idle_kicked st u); injection E as <-; [unfold u32_max; lia|].
  apply wrap_u32_range.
Qed.

Lemma kick_fair u id so :
  fair so.1 -> gs_completed_by_inactivity so.1 = false ->
  let so' := emit (Ev_PlayerIdleKicked u id) so in
  fair so'.1 /\ roster so'.1 = roster so.1 /\ gs_completed_by_inactivity so'.1 = false.
Proof.
  destruct so as [st out]. intros [F1 F2 F3 F4] Hc so'. cbn [fst] in *.
  assert (Hr : roster so'.1 = roster st /\ gs_completed_by_inactivity so'.1 = false
     /\ gs_player_xp so'.1 = gs_player_xp st /\ gs_players so'.1 = gs_players st
     /\ gs_team_scores so'.1 = gs_team_scores st).
  { unfold so'. cbn [emit fst apply_event].
    assert (Et : teams (update_snake id (fun s => set_boost SnakeBoost_default (kill_snake s)) st)
                 = teams st) by (by apply teams_alter).
    case_match; split_and!; try done;
      (unfold roster; repeat (apply pair_equal_spec; split); [exact Et|done..]). }
  destruct Hr as (Hr & Hm & Ex & Ep & Es). split; [|done].
  split; try congruence.
  - rewrite Ex, Ep. apply F1.
  - unfold two_sided. rewrite Es. apply F2.
Qed.

Lemma kicks_fair l so :
  fair so.1 -> gs_completed_by_inactivity so.1 = false ->
  let so' := foldl (fun so '(u, id) => emit (Ev_PlayerIdleKicked u id) so) so l in
  fair so'.1 /\ roster so'.1 = roster so.1 /\ gs_completed_by_inactivity so'.1 = false.
Proof.
  revert so. induction l as [|[u id] l IH]; intros so F Hc; cbn [foldl]; [done|].
  destruct (kick_fair u id so F Hc) as (F1 & R1 & H1). destruct (IH _ F1 H1) as (F2 & R2 & H2).
  split; [done|]. split; [congruence|done].
Qed.

Lemma inactivity_fair post so over so' :
  fair so.1 -> gs_completed_by_inactivity so.1 = false ->
  resolve_player_inactivity post so = (over, so') ->
  fair so'.1 /\ roster so'.1 = roster so.1
  /\ (over = false -> gs_completed_by_inactivity so'.1 = false).
Proof.
  destruct so as [st out]. cbn [fst]. intros F Hc. unfold resolve_player_inactivity.
  destruct (_ || _); [by intros [= <- <-]|].
  set (st1 := ensure_player_idle_tracking st).
  assert (F1 : fair st1) by (by apply (quiet_fair st)).
  destruct (expired_players st1 post) as [|e es]; [by intros [= <- <-]|].
  destruct (kicks_fair (e :: es) (st1, out) F1 Hc) as (F2 & R2 & H2).
  destruct (foldl _ (st1, out) (e :: es)) as [st2 out2]. cbn [fst] in *.
  destruct (inactivity_winning_snake_id st2) as [w|] eqn:Ew; intros [= <- <-]; [|done].
  split; [|done]. destruct F2 as [_ G2 _ _]. split; cbn; try done.
  - intros u x Hx. apply (inactivity_xp_dom (with_completed_by_inactivity true st2)) in Hx. done.
  - intros w' _ [= ->]. by apply inactivity_winner in Ew.
Qed.

(** *** A quantum *)

Lemma resolve_fair `{F32Libm} mo post old movers so obs out st' obs' :
  fair so.1 -> sides so.1 -> gs_completed_by_inactivity so.1 = false ->
  tick_resolve mo post old movers so obs = (Ok out, st', obs') ->
  fair st' /\ roster st' = roster so.1.
Proof.
  destruct so as [st out0]. cbn [fst]. intros F Hs Hc. unfold tick_resolve.
  destruct (food_events st _ ∅) as [es| |]; try done. cbn [tick_try].
  assert (Q1 : quiet st (foldl eat_one (st, out0) es).1)
    by (apply (quiet_fold _ (st, out0)); intros; apply eat_quiet).
  destruct (foldl eat_one (st, out0) es) as [st1 out1].
  assert (Q2 : quiet st (collect_pads post (st1, out1)).1).
  { etransitivity; [exact Q1|]. unfold collect_pads. cbn [fst]. case_match; [|done].
    apply (quiet_fold _ (st1, out1)). intros. apply collect_quiet. }
  destruct (collect_pads post (st1, out1)) as [st2 out2].
  pose proof (finalize_quiet st2) as Q3. destruct (finalize_boosts st2) as [st3 dep].
  pose proof (spawn_quiet mo (st3, out2)) as Q4. destruct (spawn_food mo (st3, out2)) as [st4 out4].
  pose proof (cues_quiet old movers st4) as Q5. cbn [fst] in *.
  assert (Q6 : quiet st (record_goal_cues old movers st4)).
  { etransitivity; [exact Q2|]. etransitivity; [exact Q3|]. by etransitivity. }
  destruct mo; cbn [tick_try].
  { intros [= _ <- _]. split; [by apply (quiet_fair st)|by apply (quiet_roster st)]. }
  pose proof (goals_quiet (record_goal_cues old movers st4, out4)) as Q7. cbn [fst] in Q7.
  assert (Q8 : quiet st (score_goals (record_goal_cues old movers st4, out4)).1).
  { etransitivity; [exact Q6|]. apply Q7. by apply (roster_sides st); [apply quiet_roster|]. }
  destruct (check_completion _) as [[st7 out7]| |] eqn:Ec; try done. cbn [tick_try].
  assert (Hc8 : gs_completed_by_inactivity (score_goals (record_goal_cues old movers st4, out4)).1
                = false) by (destruct Q8 as [E _]; unfold standing in E; congruence).
  apply completion_fair in Ec as [F7 R7]; [|by apply (quiet_fair st)|done].
  intros [= _ <- _]. cbn [fst] in *.
  assert (R8 : roster st7 = roster st) by (rewrite R7; by apply quiet_roster).
  split; [|exact R8]. by apply (quiet_fair st7).
Qed.

Lemma tick_fair `{F32Libm} mo st out st' obs :
  fair st -> sides st -> is_complete st = false -> tick_forward mo st = (Ok out, st', obs) ->
  fair st' /\ roster st' = roster st.
Proof.
  intros F Hs Hc. unfold tick_forward. rewrite Hc.
  assert (Hn : gs_completed_by_inactivity st = false).
  { pose proof (fa_over _ F) as Ho. destruct (gs_completed_by_inactivity st); [|done].
    rewrite Ho in Hc; done. }
  assert (Q1 : quiet st (first_tick_snapshot (prune_cues st, [])).1)
    by (unfold first_tick_snapshot; by case_match).
  destruct (first_tick_snapshot _) as [st1 out1]. cbn [fst] in Q1.
  destruct (resolve_player_inactivity _ (st1, out1)) as [over [st2 out2]] eqn:E2.
  assert (Hn1 : gs_completed_by_inactivity st1 = false)
    by (destruct Q1 as [E _]; unfold standing in E; congruence).
  apply inactivity_fair in E2 as (F2 & R2 & H2); [|by apply (quiet_fair st)|done]. cbn [fst] in *.
  rewrite (quiet_roster _ _ Q1) in R2. destruct over.
  { intros [= _ <- _]. split; [|exact R2]. by apply (quiet_fair st2). }
  specialize (H2 eq_refl).
  set (post := sat_add_u32 (gs_tick st1) 1).
  assert (Q3 : quiet st2 (respawn_pads post (drain_combos st2))).
  { transitivity (drain_combos st2); [|done]. apply quiet_snakes, teams_map. intros s.
    unfold drain_combo. by case_match. }
  destruct (tick_move _ out2) as [[[[mv [st4 out4]]| |] stx] obs4] eqn:E4; try done.
  apply quiet_tick_move in E4. cbn [tick_try fst] in *.
  destruct (find_crashes _ _ _ _) as [cs| |]; try done. cbn [tick_try].
  destruct (kill_all _ _ cs) as [so| |] eqn:E5; try done. cbn [tick_try].
  pose proof (move_quiet mv st4) as Q5.
  apply kill_all_quiet in E5; [|cbn [fst]; symmetry; by apply quiet_teams]. cbn [fst] in E5.
  assert (Q6 : quiet st2 so.1).
  { etransitivity; [exact Q3|]. etransitivity; [exact E4|]. by etransitivity. }
  intros E6. apply resolve_fair in E6 as [F7 R7].
  - split; [done|]. rewrite R7, (quiet_roster _ _ Q6). done.
  - by apply (quiet_fair st2).
  - apply (roster_sides st); [|done]. by rewrite (quiet_roster _ _ Q6).
  - destruct Q6 as [E _]. unfold standing in E. congruence.
Qed.
