(* ===== verification/Settlement.v ===== *)
(** * From a prepared match to its record

    The standing of a prepared match, play from there to the end, and that what
    is left can be rated and settled. *)

From Stdlib Require Import ZArith Lia.
From stdpp Require Import prelude strings countable list gmap sorting relations.
From S2P Require Import Prelude RustFloat Util Snake Arena CommandQueue GameState GameSetup.
From S2P Require Import Events Validate Tick MeterInvariant StateInvariant TickInvariant.
From S2P Require Import OutcomeInvariant Validity MatchLife.
From S2P Require Import Matchmaking SkinCatalog MatchCreation RosterFacts MatchCreationFacts.
From S2P Require Import MatchReadyFacts Recording Rating Completion RatingFacts CompletionFacts.
From S2P Require Import SettlementFacts.
Open Scope Z_scope.

(** ** Play *)

(** An operation of the server on a match whose roster is closed. *)
Definition play_step `{F32Libm} (st st' : GameState) : Prop :=
  match_step st st' /\ gs_players st' = gs_players st.

Lemma food_loop_quiet `{F32Libm} n st : quiet st (spawn_initial_food_loop n st).
Proof.
  revert st. induction n as [|n IH]; intros st; [done|]. cbn [spawn_initial_food_loop].
  case_match; [|done]. destruct (gs_rng st) as [rng|]; [|apply IH].
  destruct (sample_food_position rng _ _) as [p rng']. etransitivity; [|apply IH]. by case_match.
Qed.

Lemma initial_food_quiet `{F32Libm} st : quiet st (spawn_initial_food st).
Proof. unfold spawn_initial_food. case_match; [apply food_loop_quiet|done]. Qed.

Lemma schedule_quiet st m : quiet st (schedule_command st m).
Proof.
  unfold schedule_command. case_match; [done|].
  match goal with |- quiet _ (with_command_queue _ ?s) => transitivity s; [|done] end.
  apply quiet_activity.
Qed.

Lemma quiet_step st st' :
  quiet st st' -> fair st -> sides st -> fair st' /\ roster st' = roster st.
Proof. intros Q F _. split; [by apply (quiet_fair st)|by apply quiet_roster]. Qed.

Lemma play_step_fair `{F32Libm} st st' :
  play_step st st' -> life_ok st -> fair st -> sides st -> fair st' /\ roster st' = roster st.
Proof.
  intros [Hstep Hp] L F Hs. pose proof (life_step _ _ Hstep L) as L'.
  destruct Hstep as [st u name team p st' Hj|st u name|st|st d|st u|st e|st sid Hc|st m
                    |st mo r st' obs Hc H0 H1 Ht].
  - exfalso. unfold add_player_with_team in Hj. case_bool_decide as Hu; [done|].
    apply Hu. rewrite <-Hp. destruct (negb _); [done|].
    destruct (add_snake _ _) as [[i a]| |]; [|done..]. injection Hj as _ <-. cbn.
    rewrite lookup_insert_eq. by eexists.
  - apply quiet_step; [by destruct name|done..].
  - apply quiet_step; [apply initial_food_quiet|done..].
  - by apply quiet_step.
  - apply quiet_step; [cbn; by destruct (gs_readiness st)|done..].
  - apply quiet_step; [cbn; by destruct (gs_readiness st)|done..].
  - split; [|done]. destruct F as [F1 F2 F3 F4]. split; try done; cbn.
    intros Hm. apply F3 in Hm. congruence.
  - apply quiet_step; [apply schedule_quiet|done..].
  - destruct L as (_ & HK & T & Ho & HT). assert (T = gs_tick st) as ->.
    { destruct HT as [?|[_ Hm]]; [done|]. destruct Ho as (kl & _ & Hk & _).
      apply (ok_completed Hk) in Hm. congruence. }
    destruct (tick_forward_ok (skeleton st) HK mo (gs_tick st) st Ho Hc H0 H1)
      as (out & st2 & obs2 & E & _). rewrite Ht in E. simplify_eq. by eapply tick_fair.
Qed.

Lemma play_fair `{F32Libm} st st' :
  rtc play_step st st' -> life_ok st -> fair st -> sides st -> fair st' /\ roster st' = roster st.
Proof.
  induction 1 as [st|st st1 st2 H1 _ IH]; [done|]. intros L F Hs.
  destruct (play_step_fair _ _ H1 L F Hs) as [F1 R1].
  destruct IH as [F2 R2]; [eapply life_step; [apply H1|done]|done|by apply (roster_sides st)|].
  split; [done|congruence].
Qed.

(** ** Seats *)

(** Every snake has one player and every player one snake; teams are full, and
    only team matches have them. *)
Record well_seated (st : GameState) : Prop := {
  ws_owned u p : gs_players st !! u = Some p ->
    0 <= pl_snake_id p < Z.of_nat (length (teams st));
  ws_owner k : (k < length (teams st))%nat ->
    exists u p, gs_players st !! u = Some p /\ pl_snake_id p = Z.of_nat k;
  ws_distinct u v p q : gs_players st !! u = Some p -> gs_players st !! v = Some q ->
    pl_snake_id p = pl_snake_id q -> u = v;
  ws_standard : match gs_game_type st with Custom _ => False | _ => True end;
  ws_teams : is_team_match (gs_game_type st) = true ->
    is_Some (gs_team_scores st) /\ Some 0 ∈ teams st /\ Some 1 ∈ teams st
    /\ forall o, o ∈ teams st -> o = Some 0 \/ o = Some 1
}.

Lemma seated_roster st st' : roster st' = roster st -> well_seated st -> well_seated st'.
Proof.
  intros E [W1 W2 W3 W4 W5]. unfold roster in E. injection E as E1 E2 E3 _ E5 _.
  split; rewrite ?E1, ?E2, ?E3; try done. intros Ht. destruct (W5 Ht) as [Hs ?]. split; [|done].
  apply (proj1 (bool_decide_eq_true (is_Some (gs_team_scores st')))). rewrite E5.
  by apply bool_decide_eq_true.
Qed.

Lemma seated_team st u p :
  well_seated st -> gs_players st !! u = Some p ->
  exists s, vec_get (gs_snakes st) (pl_snake_id p) = Some s
    /\ sn_team_id s ∈ teams st.
Proof.
  intros W Hu. pose proof (ws_owned _ W u p Hu) as Ho. unfold teams in Ho. rewrite length_fmap in Ho.
  destruct (vec_get_lt_Some (gs_snakes st) (pl_snake_id p)) as [s Hs]; [unfold vec_len; lia|].
  exists s. split; [done|]. unfold vec_get in Hs. unfold teams.
  apply list_elem_of_fmap_2. by eapply list_elem_of_lookup_2.
Qed.

Lemma seated_on st t :
  well_seated st -> Some t ∈ teams st ->
  exists u p, gs_players st !! u = Some p /\ player_team st p = Some t.
Proof.
  intros W [k Hk]%list_elem_of_lookup_1.
  destruct (ws_owner _ W k) as (u & p & Hu & Hp); [by eapply lookup_lt_Some|].
  exists u, p. split; [done|]. unfold player_team, vec_get. rewrite Hp, Nat2Z.id.
  unfold teams in Hk. rewrite list_lookup_fmap in Hk.
  destruct (gs_snakes st !! k); [|done]. by injection Hk.
Qed.

Lemma played_rateable st :
  well_seated st -> fair st -> is_complete st = true -> rateable st.
Proof.
  intros W F Hc. split.
  - intros u p Hu. destruct (seated_team st u p W Hu) as (s & -> & _). by eexists.
  - apply (ws_distinct _ W).
  - done.
  - apply (fa_winner _ F).
  - intros Ht. assert (Hm : is_team_match (gs_game_type st) = true).
    { unfold rated_in_teams in Ht. pose proof (ws_standard _ W) as Hw.
      destruct (gs_game_type st); done. }
    destruct (ws_teams _ W Hm) as ([scores Es] & H0 & H1 & Hall). split.
    { exists scores. split; [done|]. intros t. by apply (fa_scores _ F). }
    split; [|split; by apply seated_on].
    intros u p Hu. destruct (seated_team st u p W Hu) as (s & Es' & Hin). unfold player_team.
    rewrite Es'. by apply Hall.
Qed.

(** ** A prepared match *)

(** What nothing before the start touches. *)
Definition account (st : GameState) :=
  (gs_player_xp st, gs_completed_by_inactivity st, gs_team_scores st, gs_status st,
   gs_game_type st).

Section prepared.
Context {FL : F32Libm} {HO : HashOrder} {DB : SkinDb} {PD : PlayerDb}.
Variable c : MatchmakingCombination.

Lemma join_account st u name team p st' :
  add_player_with_team st u name team = (Ok p, st') -> account st' = account st.
Proof.
  unfold add_player_with_team. case_bool_decide; [done|]. destruct (negb _); [done|].
  destruct (add_snake _ _) as [[i a]| |]; [|done..]. intros E. apply (f_equal snd) in E.
  cbn [snd] in E. rewrite <-E. by destruct name.
Qed.

Lemma seat_player_account ro l m team ro' :
  seat_player c ro l m team = Ok ro' -> account (ro_state ro') = account (ro_state ro).
Proof.
  unfold seat_player. destruct (add_player_with_team _ _ _ _) as [[j| |] st] eqn:E; [|done..].
  intros H. apply join_account in E. rewrite <-E.
  apply (f_equal (fun r => match r with Ok x => account (ro_state x) | _ => account st end)) in H.
  rewrite <-H. reflexivity.
Qed.

Lemma seat_indices_account ro l ix t ro' :
  seat_indices c ro l ix t = Ok ro' -> account (ro_state ro') = account (ro_state ro).
Proof.
  revert ro. induction ix as [|i ix IH]; intros ro; cbn [seat_indices]; [by intros [= <-]|].
  destruct (ql_members l !! i) as [m|]; [|apply IH].
  rewrite bind_ok. intros (ro1 & E1 & E2). rewrite (IH _ E2). by eapply seat_player_account.
Qed.

Lemma seat_teams_account ro ts ro' :
  seat_teams c ro ts = Ok ro' -> account (ro_state ro') = account (ro_state ro).
Proof.
  revert ro. induction ts as [|a ts IH]; intros ro; cbn [seat_teams]; [by intros [= <-]|].
  rewrite bind_ok. intros (l & _ & E). rewrite bind_ok in E. destruct E as (ro1 & E1 & E2).
  rewrite (IH _ E2). by eapply seat_indices_account.
Qed.

Lemma seat_lobbies_account ro ls ro' :
  seat_lobbies c ro ls = Ok ro' -> account (ro_state ro') = account (ro_state ro).
Proof.
  assert (H : forall l ms k ro ro', seat_lobby c ro l ms k = Ok ro' ->
            account (ro_state ro') = account (ro_state ro)).
  { intros l ms. induction ms as [|m ms IH]; intros k r r'; cbn [seat_lobby]; [by intros [= <-]|].
    rewrite bind_ok. intros (r1 & E1 & E2). rewrite (IH _ _ _ E2).
    case_bool_decide; [by injection E1 as <-|by eapply seat_player_account]. }
  revert ro. induction ls as [|l ls IH]; intros ro; cbn [seat_lobbies]; [by intros [= <-]|].
  rewrite bind_ok. intros (ro1 & E1 & E2). rewrite (IH _ E2). by eapply H.
Qed.

Lemma spectators_account ro ls :
  account (ro_state (foldl (team_spectators c) ro ls)) = account (ro_state ro).
Proof.
  revert ro. induction ls as [|l ls IH]; intros ro; [done|]. cbn [foldl]. rewrite IH.
  unfold team_spectators. case_match; [|done].
  match goal with |- context [foldl _ _ ?ms] => generalize ms; intros k end.
  revert ro. induction k as [|m k IHk]; intros ro; [done|]. cbn [foldl]. by rewrite IHk.
Qed.

Lemma fill_account st ro : fill_roster c st = Ok ro -> account (ro_state ro) = account st.
Proof.
  unfold fill_roster. destruct (no_teams c).
  - intros E. by rewrite (seat_lobbies_account _ _ _ E).
  - rewrite bind_ok. intros (r & E & [= <-]). rewrite spectators_account. cbn [ro_state].
    transitivity (account (ro_state r)); [|by rewrite (seat_teams_account _ _ _ E)].
    unfold dress_bases.
    apply (map_fold_weak_ind (fun s _ => account s = account (ro_state r))); [done|].
    intros t cs m s _ <-. by destruct (resolve_team_base cs).
Qed.

Lemma food_account st : account (spawn_initial_food st) = account st.
Proof.
  unfold spawn_initial_food. destruct (gs_rng st); [|done]. generalize 1000%nat. intros n. revert st.
  induction n as [|n IH]; intros st; [done|]. cbn [spawn_initial_food_loop].
  case_match; [|done]. destruct (gs_rng st) as [rng|]; [|apply IH].
  destruct (sample_food_position rng _ _) as [pos rng']. rewrite IH. by case_match.
Qed.

Lemma configured_account w h g q seed ms boost idle :
  account (configured w h g q seed ms boost idle)
  = (∅, false, if is_team_match g then Some (<[1 := 0]> (<[0 := 0]> ∅)) else None, Stopped, g).
Proof.
  unfold configured, new_game_state. cbv zeta.
  destruct boost; destruct (boost_config_for g w h); destruct g; cbn; reflexivity.
Qed.

Lemma prepared_account cfg i g q p :
  prepare_game_from_lobbies c cfg i g q = Ok p ->
  account (pm_game_state p)
  = (∅, false, if is_team_match g then Some (<[1 := 0]> (<[0 := 0]> ∅)) else None, Stopped, g).
Proof.
  unfold prepare_game_from_lobbies. rewrite bind_ok. intros (pool & _ & E).
  rewrite unit_bind_ok in E. destruct E as [_ E].
  rewrite bind_ok in E. destruct E as (id & _ & E). cbv zeta in E.
  destruct (arena_size g) as [w h]. rewrite bind_ok in E. destruct E as (st & Est & E).
  rewrite bind_ok in E. destruct E as (ro & Ero & E). rewrite bind_ok in E.
  destruct E as (st' & Est' & [= <-]). cbn [pm_game_state].
  assert (A1 : account st' = account (ro_state ro)).
  { transitivity (account (spawn_initial_food (ro_state ro))).
    - destruct (gs_is_stress_test _); [by injection Est' as <-|].
      rewrite bind_ok in Est'. by destruct Est' as (d & _ & [= <-]).
    - apply food_account. }
  rewrite A1, (fill_account _ _ Ero). apply build_match_inv in Est as [-> _].
  exact (configured_account w h g q _ _ _ _).
Qed.
End prepared.

(** Two values that together fill a list are its only values. *)
Lemma only_two {A} `{!EqDecision A} (a b : A) (l : list A) :
  a <> b ->
  (length l <= length (filter (fun x => x = a) l) + length (filter (fun x => x = b) l))%nat ->
  forall x, x ∈ l -> x = a \/ x = b.
Proof.
  intros Hab. induction l as [|y l IH]; intros Hl x Hx; [by apply not_elem_of_nil in Hx|].
  rewrite !filter_cons in Hl. cbn [length] in Hl.
  assert (Hsum : (length (filter (fun x => x = a) l) + length (filter (fun x => x = b) l)
                  <= length l)%nat).
  { clear - Hab. induction l as [|z l IH]; [done|]. rewrite !filter_cons.
    destruct (decide (z = a)), (decide (z = b)); cbn; try lia. congruence. }
  apply elem_of_cons in Hx. destruct (decide (y = a)) as [Ea|Ha], (decide (y = b)) as [Eb|Hb];
    cbn in Hl; [congruence|..|lia]; (destruct Hx as [->|Hx]; [auto|apply IH; [lia|done]]).
Qed.

Lemma some_of {A} `{!EqDecision A} (a : A) (l : list A) :
  (0 < length (filter (fun x => x = a) l))%nat -> a ∈ l.
Proof.
  intros H. destruct (filter (fun x => x = a) l) as [|x k] eqn:E; [cbn in H; lia|].
  assert (Hx : x ∈ filter (fun x => x = a) l) by (rewrite E; left).
  apply list_elem_of_filter in Hx as [-> ?]. done.
Qed.

Lemma team_filter (l : list Snake) t :
  length (filter (fun s => sn_team_id s = Some t) l)
  = length (filter (fun o => o = Some t) (sn_team_id <$> l)).
Proof. symmetry. apply filter_image. Qed.

Section seated.
Context {FL : F32Libm} {HO : HashOrder} {DB : SkinDb} {PD : PlayerDb}.
Variables (lobbies : list QueuedLobby) (c : MatchmakingCombination) (g : GameType).
Variables (cfg : ManagerConfig) (i : PrepareInput) (q : QueueMode) (pool : MatchmakingPool).
Variable p : PreparedMatch.
Hypothesis combination : combination_ok lobbies g c.
Hypothesis g_supported : supported g.
Hypothesis prepared : prepare_game_from_lobbies c cfg i g q = Ok p.
Hypothesis roster_held : holds_roster c g pool p.

#[local] Abbreviation st0 := (pm_game_state p).

Lemma prepared_size : length (teams st0) = mc_total_players c.
Proof.
  unfold teams. rewrite length_fmap, (hr_count _ _ _ _ roster_held).
  rewrite <-(play_length _ _ _ combination), <-(hr_players _ _ _ _ roster_held).
  by rewrite length_fmap.
Qed.

Lemma prepared_type : gs_game_type st0 = g.
Proof. pose proof (prepared_account c _ _ _ _ _ prepared) as A. unfold account in A. congruence. Qed.

Lemma prepared_players_spec u pl :
  gs_players st0 !! u = Some pl <->
  exists k, (qp_user_id <$> am_players (pm_match_info p)) !! k = Some u /\ pl = mkPlayer u (Z.of_nat k).
Proof. apply (hr_snakes _ _ _ _ roster_held). Qed.

Lemma users_in_order : length (teams st0) = length (qp_user_id <$> am_players (pm_match_info p)).
Proof. unfold teams. by rewrite !length_fmap, (hr_count _ _ _ _ roster_held). Qed.

Lemma prepared_seated : well_seated st0.
Proof.
  split.
  - intros u pl (k & Hk & ->)%prepared_players_spec. rewrite users_in_order.
    apply lookup_lt_Some in Hk. cbn. lia.
  - intros k Hk. rewrite users_in_order in Hk. apply lookup_lt_is_Some in Hk as [u Hu].
    exists u, (mkPlayer u (Z.of_nat k)). split; [|done]. apply prepared_players_spec. by exists k.
  - intros u v a b (k & Hk & ->)%prepared_players_spec (m & Hm & ->)%prepared_players_spec E.
    cbn in E. assert (k = m) as -> by lia. congruence.
  - rewrite prepared_type. by destruct g.
  - rewrite prepared_type. intros Ht. pose proof prepared_size as Hsz.
    destruct g as [|per| |]; try done.
    pose proof (prepared_account c _ _ _ _ _ prepared) as A. unfold account in A.
    pose proof (hr_teams _ _ _ _ roster_held) as T. cbn in T, g_supported.
    pose proof (T 0 (or_introl eq_refl)) as T0. pose proof (T 1 (or_intror eq_refl)) as T1.
    rewrite team_filter in T0, T1. fold (teams st0) in T0, T1.
    split; [exists (<[1 := 0]> (<[0 := 0]> ∅)); cbn in A; congruence|].
    split; [apply some_of; lia|]. split; [apply some_of; lia|].
    apply only_two; [done|]. rewrite Hsz.
    pose proof (co_valid _ _ _ combination) as Hv. unfold is_valid in Hv.
    rewrite (double_in_range _ g_supported) in Hv.
    destruct (Nat.eqb_spec (mc_total_players c) (Z.to_nat per * 2)); [lia|done].
Qed.

Lemma prepared_sides : sides st0.
Proof.
  intros t Ht. destruct (is_team_match g) eqn:Eg.
  - destruct (ws_teams _ prepared_seated) as (_ & _ & _ & H); [by rewrite prepared_type|].
    destruct (H _ Ht) as [[= ->]|[= ->]]; auto.
  - exfalso. pose proof (hr_teams _ _ _ _ roster_held) as T. unfold teams in Ht.
    apply list_elem_of_fmap in Ht as (s & Es & Hs).
    destruct g; try done; rewrite Forall_forall in T; rewrite (T s Hs) in Es; done.
Qed.

Lemma prepared_fair : fair st0.
Proof.
  pose proof (prepared_account c _ _ _ _ _ prepared) as A. unfold account in A.
  injection A as A1 A2 A3 A4 A5. split; rewrite ?A1, ?A2; try done.
  intros scores t Es. rewrite A3 in Es. destruct (is_team_match g); [|done]. injection Es as <-.
  destruct (decide (t = 1)) as [->|H1]; [by right|]. rewrite lookup_insert_ne by done.
  destruct (decide (t = 0)) as [->|H0]; [by left|]. rewrite lookup_insert_ne by done.
  rewrite lookup_empty. by intros [].
Qed.

Lemma prepared_life : life_ok st0.
Proof. apply valid_life; apply roster_held. Qed.

(** What is left of it when it is over can be rated. *)
Lemma played_to_the_end st :
  rtc play_step st0 st -> is_complete st = true ->
  rateable st /\ fair st /\ roster st = roster st0.
Proof.
  intros Hp Hc.
  destruct (play_fair _ _ Hp prepared_life prepared_fair prepared_sides) as [F R].
  split; [|done]. apply played_rateable; [|done..]. by apply (seated_roster st0); [|apply prepared_seated].
Qed.
End seated.

(** ** From the queue to the record *)

(** A match the search found and the server prepared. *)
Record matched {FL : F32Libm} {HO : HashOrder} {DB : SkinDb} {PD : PlayerDb}
    (lobbies : list QueuedLobby) (g : GameType) (now : Z) (cfg : ManagerConfig) (i : PrepareInput)
    (q : QueueMode) (c : MatchmakingCombination) (p : PreparedMatch) : Prop := {
  mt_codes : NoDup (codes lobbies);
  mt_supported : supported g;
  mt_sized : sized g;
  mt_users : NoDup (all_users lobbies);
  mt_pool : exists pool, Forall (fun l => ql_matchmaking_pool l = pool) lobbies;
  mt_typed : config_typed (mg_boost_config cfg) (mg_player_idle_config cfg);
  mt_accepted : accepted cfg q g;
  mt_readable : exists game_id, readable cfg i game_id;
  mt_found : find_best_lobby_combination lobbies g now = Ok (Some c);
  mt_prepared : prepare_game_from_lobbies c cfg i g q = Ok p
}.

(** The integers of the database hold what the match left. *)
Record recordable (st : GameState) : Prop := {
  rc_users u : is_Some (gs_players st !! u) -> 0 <= u <= i32_max;
  rc_size : Z.of_nat (size (gs_players st)) <= MAX_HISTORY_TRANSACTION_PLAYERS;
  rc_xp u x : gs_player_xp st !! u = Some x -> x <= i32_max;
  rc_scores u p : gs_players st !! u = Some p -> score_of st p <= i32_max
}.

Lemma matched_settleable {FL : F32Libm} {HO : HashOrder} {DB : SkinDb} {PD : PlayerDb}
    lobbies g now cfg i q c p st :
  matched lobbies g now cfg i q c p -> rtc play_step (pm_game_state p) st ->
  is_complete st = true -> recordable st -> settleable st.
Proof.
  intros [M1 M2 M3 M4 [pool M5] M6 M7 [id M8] M9 M10] Hp Hc [R1 R2 R3 R4].
  destruct (search_ok lobbies g now M1 M2) as (o & E & Ho).
  assert (C : combination_ok lobbies g c) by (apply Ho; congruence).
  destruct (prepared_holds_roster cfg q lobbies c g i id pool C M4 M2 M3 M7 M6 M8 M5)
    as (p' & Ep & _ & H).
  assert (p' = p) as -> by congruence.
  destruct (played_to_the_end lobbies c g cfg i q pool p C M2 M10 H st Hp Hc) as (Rt & F & R).
  assert (Eg : gs_game_type st = g).
  { unfold roster in R. injection R as _ _ -> _ _ _. by eapply prepared_type. }
  split; [done| |done|by intros _|..].
  - rewrite Eg. destruct g; cbn; try done; apply Z.eqb_refl.
  - intros u x Hx. destruct (fa_xp _ F u x Hx) as [[? _] ?]. split; [|done]. split; [done|by eapply R3].
  - intros u pl _. apply R4.
Qed.
