(* ===== verification/CompletionTheorems.v ===== *)
(** * Theorems on completion records

    Every match the server prepares and plays to its end is settled, what its
    history shows of it, and the places of a free for all. *)

From Stdlib Require Import ZArith Lia.
From stdpp Require Import prelude strings countable list gmap sorting relations.
From S2P Require Import Prelude RustFloat Util Snake Arena CommandQueue GameState GameSetup.
From S2P Require Import Events Validate Tick MatchLife Matchmaking SkinCatalog MatchCreation.
From S2P Require Import RosterFacts MatchCreationFacts MatchReadyFacts Recording Rating Completion.
From S2P Require Import RatingFacts CompletionFacts SettlementFacts Settlement.
From S2P Require Import SnakeTheorems MatchmakingTheorems.
Open Scope Z_scope.

(** ** A sample *)

(** Ratings that do not move, and a database that knows everybody. *)
#[local] Program Instance still : WengLin :=
  {| weng_lin a b _ := (a, b); weng_lin_two_teams a b _ := (a, b);
     weng_lin_multi_team l := l.*1 |}.
Next Obligation. done. Qed.
Next Obligation. intros l. by rewrite <-list_fmap_compose. Qed.

#[local] Instance everybody : RatingDb :=
  {| get_user_mmrs users := Ok (list_to_map ((fun u => (u, (1000, 1000))) <$> users)) |}.

#[local] Instance summer : CompletionEnv :=
  {| utc_date _ := Some (2026, 6); region_var _ := None |}.

#[local] Instance sample_libm : F32Libm := identity_libm.
#[local] Instance sample_order : HashOrder := insertion_order.
#[local] Instance sample_skins : SkinDb :=
  {| get_skin _ := Ok None; get_skin_revision _ _ := Ok None |}.
#[local] Instance sample_accounts : PlayerDb := {| get_user_by_id _ := Ok None |}.

(** A duel whose second player does nothing: removed after two quanta. *)
Definition rivals : list QueuedLobby := [party "AAAA" 1000 0 [1]; party "BBBB" 1000 0 [2]].

Definition strict : ManagerConfig :=
  mkManagerConfig BoostConfig_default (mkIdleConfig 50 50) 30000.

Definition readings : PrepareInput := mkPrepareInput (Ok 7) 1000 1000 1000 1000.

Definition pairing : MatchmakingCombination :=
  match find_best_lobby_combination rivals (TeamMatch 1) 0 with
  | Ok (Some c) => c
  | _ => mkCombination [] [] [] 0 0
  end.

Definition meeting : PreparedMatch :=
  match prepare_game_from_lobbies pairing strict readings (TeamMatch 1) Quickmatch with
  | Ok p => p
  | _ => mkPrepared 0 0 (new_game_state 0 0 Solo Quickmatch None 0)
           (mkActiveMatch [] [] [] Solo Waiting 0 0 Public)
  end.

Definition stepped (st : GameState) : GameState := (tick_forward false st).1.2.

Definition busy : GameCommandMessage :=
  mkMsg (mkCommandId 1 1 0) None (Cmd_PlayerActivity 0).

Definition meeting_1 : GameState := apply_event (Ev_StatusUpdated (Started 0)) (pm_game_state meeting).
Definition meeting_2 : GameState := stepped meeting_1.
Definition meeting_3 : GameState := schedule_command meeting_2 busy.
Definition decided : GameState := stepped meeting_3.

Lemma rivals_matched : matched rivals (TeamMatch 1) 0 strict readings Quickmatch pairing meeting.
Proof.
  split.
  - apply (bool_decide_unpack _). vm_compute. exact I.
  - cbn. lia.
  - exact I.
  - apply (bool_decide_unpack _). vm_compute. exact I.
  - exists Public. repeat constructor.
  - repeat split; vm_compute; discriminate.
  - eexists. vm_compute. reflexivity.
  - exists 7. split; [reflexivity|]. split; [vm_compute; split; discriminate|]. cbn. lia.
  - vm_compute. reflexivity.
  - vm_compute. reflexivity.
Qed.

Lemma stepped_play st :
  is_complete st = false -> 0 <= gs_tick st -> gs_tick st + 1 < u32_max ->
  gs_players (stepped st) = gs_players st -> play_step st (stepped st).
Proof.
  intros Hc H0 H1 Hp. split; [|done]. unfold stepped.
  destruct (tick_forward false st) as [[r st'] obs] eqn:E. by eapply step_tick.
Qed.

Lemma meeting_played : rtc play_step (pm_game_state meeting) decided.
Proof.
  eapply rtc_l; [split; [apply (step_start (pm_game_state meeting) 0)|]|]; [vm_compute; reflexivity..|].
  eapply rtc_l; [apply (stepped_play meeting_1); vm_compute; done|].
  eapply rtc_l; [split; [apply (step_schedule meeting_2 busy)|]|]; [vm_compute; reflexivity|].
  apply rtc_once, stepped_play; vm_compute; done.
Qed.

(** A test for [recordable] and for small user ids. *)
Definition within_bounds (st : GameState) : bool :=
  forallb (fun e => (0 <=? e.1) && (e.1 <=? 9) && (score_of st e.2 <=? i32_max))
    (map_to_list (gs_players st))
  && forallb (fun e => e.2 <=? i32_max) (map_to_list (gs_player_xp st))
  && (Z.of_nat (size (gs_players st)) <=? MAX_HISTORY_TRANSACTION_PLAYERS).

Lemma forallb_map {A} (f : Z * A -> bool) (m : gmap Z A) k x :
  forallb f (map_to_list m) = true -> m !! k = Some x -> f (k, x) = true.
Proof.
  rewrite forallb_forall. intros H Hx. by apply H, list_elem_of_In, elem_of_map_to_list.
Qed.

Lemma within_bounds_ok st : within_bounds st = true -> recordable st /\ db_knows st.
Proof.
  unfold within_bounds. rewrite !andb_true_iff. intros [[H1 H2] H3].
  assert (Hu : forall u p, gs_players st !! u = Some p ->
            0 <= u <= 9 /\ score_of st p <= i32_max).
  { intros u p Hp. apply (forallb_map _ _ _ _ H1) in Hp. cbn in Hp.
    rewrite !andb_true_iff, !Z.leb_le in Hp. lia. }
  split.
  - split.
    + intros u [p Hp]. apply Hu in Hp. unfold i32_max. lia.
    + by apply Z.leb_le.
    + intros u x Hx. apply (forallb_map _ _ _ _ H2) in Hx. by apply Z.leb_le.
    + intros u p Hp. by apply Hu in Hp as [_ ?].
  - intros users H. eexists. split; [reflexivity|]. unfold known. apply Forall_forall. intros u Hin.
    exists (1000, 1000). apply elem_of_list_to_map_1'.
    + intros y Hy. apply list_elem_of_fmap in Hy as (v & [= _ ->] & _). done.
    + apply list_elem_of_fmap. exists (wrap_i32 u). split; [done|]. by apply list_elem_of_fmap_2.
Qed.

Lemma decided_within : within_bounds decided = true.
Proof. vm_compute. reflexivity. Qed.

(** ** Settlement *)



(** ** History *)

(** What the ranking says of a player. *)
Definition verdict (st : GameState) (winners : list Z) (u : Z) (won : bool) : string :=
  if is_player_idle_kicked st u then "removed"
  else if won then "win"
  else match winners with
       | [] => if (1 <? size (gs_players st))%nat then "draw" else "completed"
       | _ => "loss"
       end.

Lemma outcome_verdict c st u won :
  cr_final_state c = st -> gs_game_type st <> Solo ->
  (ranking_winners (cr_effects c) <> [] \/ terminal_winners st = []) ->
  (u ∈ ranking_winners (cr_effects c) <-> won = true) ->
  history_outcome st (winner_user_ids c) u = verdict st (ranking_winners (cr_effects c)) u won.
Proof.
  intros Ec Hg Hw Hu. unfold history_outcome, verdict, winner_user_ids. rewrite Ec.
  assert (Esolo : is_solo (gs_game_type st) = false) by (by destruct (gs_game_type st)).
  rewrite Esolo. destruct (is_player_idle_kicked st u); [done|].
  set (rw := ranking_winners (cr_effects c)) in *.
  assert (Ews : match rw with [] => terminal_winners st | _ => rw end = rw)
    by (destruct rw; [by destruct Hw|done]).
  rewrite Ews. destruct won.
  - rewrite bool_decide_true; [done|]. apply elem_of_remove_dups. rewrite merge_sort_Permutation.
    by apply Hu.
  - rewrite bool_decide_false.
    + destruct rw as [|x rw']; [done|].
      assert (Hx : x ∈ remove_dups (merge_sort Z.le (x :: rw'))).
      { apply elem_of_remove_dups. rewrite merge_sort_Permutation. left. }
      by destruct (remove_dups _); [apply not_elem_of_nil in Hx|].
    + rewrite elem_of_remove_dups, merge_sort_Permutation. intros H%Hu. done.
Qed.

(** The history shows the settlement: the summary of a rated match can be
    computed, lists exactly the players in the order of their ids, and shows of
    each the experience and the rating change the record's effects apply, and an
    outcome that agrees with its ranking entry: removed players as removed, those
    ranked as winners as having won, the others as having lost, or drawn when
    nobody won. *)
Theorem history_shows_the_settlement {CE : CompletionEnv} {WL : WengLin} {RD : RatingDb}
    game_id partition_id server_id st ended_at_ms revision r days :
  settleable st -> db_knows st -> gs_is_stress_test st = false -> gs_game_type st <> Solo ->
  no_contest st = false ->
  materialize_completion game_id partition_id server_id st ended_at_ms revision = Ok r ->
  ranking_winners (cr_effects r) <> [] \/ terminal_winners st = [] ->
  exists h, match_history_summary r days = Ok h
    /\ hp_user_id <$> hs_players h = player_ids st
    /\ forall e, e ∈ hs_players h -> exists s season,
         ms_user_id s = hp_user_id e
         /\ mmr_of st s ∈ cr_effects r /\ ranking_of st get_region season s ∈ cr_effects r
         /\ hp_mmr_delta e = Some (ms_delta s)
         /\ hp_xp_gained e = default 0 (gs_player_xp st !! hp_user_id e)
         /\ hp_outcome e
            = verdict st (ranking_winners (cr_effects r)) (hp_user_id e) (ms_won s).
Proof.
  intros S Hk Hs Hg Hn E Hw. destruct (materialize_inv st S Hk _ _ _ _ _ _ E) as (season & Ec & A & U).
  destruct (history_players_ok st r (player_ids st) Ec) as (ps & Ep & Ei & He).
  { intros u. apply elem_of_player_ids. }
  unfold match_history_summary. rewrite Ec, Ep. destruct (mode_names _) as [mode label]. cbn [mbind result_bind].
  eexists. split; [reflexivity|]. cbn [hs_players]. split; [done|]. intros e Hin.
  destruct (He e Hin) as (Hx & Hd & Ho).
  assert (Hp : is_Some (gs_players st !! hp_user_id e)).
  { apply elem_of_player_ids. rewrite <-Ei. by apply list_elem_of_fmap_2. }
  destruct (U Hs _ Hp) as [_ Hr]. rewrite Hn in Hr.
  assert (Hr' : exists s, ms_user_id s = hp_user_id e /\ mmr_of st s ∈ cr_effects r
     /\ ranking_of st get_region season s ∈ cr_effects r) 
    by (destruct (gs_game_type st); [done|destruct Hr as (s & ? & ? & ? & _); eauto..]).
  destruct Hr' as (s & Eu & Hm & Hrk). exists s, season. split; [done|]. split; [done|].
  split; [done|]. split; [rewrite Hd, <-Eu; by eapply delta_shown|]. split; [done|].
  rewrite Ho. apply outcome_verdict; [done..|]. rewrite <-Eu. by eapply winner_shown.
Qed.

Lemma decided_settleable : settleable decided.
Proof.
  eapply matched_settleable; [exact rivals_matched|exact meeting_played|vm_compute; reflexivity|].
  apply within_bounds_ok, decided_within.
Qed.

Lemma history_shows_the_settlement_witness :
  exists r h, materialize_completion 7 7 3 decided 90000 5 = Ok r
    /\ match_history_summary r 30 = Ok h
    /\ hp_outcome <$> hs_players h = ["win"; "removed"]
    /\ hp_user_id <$> hs_players h = player_ids decided.
Proof.
  destruct (materialize_completion 7 7 3 decided 90000 5) as [r|e|e] eqn:E;
    [|vm_compute in E; discriminate..].
  destruct (history_shows_the_settlement 7 7 3 decided 90000 5 r 30) as (h & Eh & Hu & _).
  - exact decided_settleable.
  - apply within_bounds_ok, decided_within.
  - vm_compute. reflexivity.
  - vm_compute. discriminate.
  - vm_compute. reflexivity.
  - exact E.
  - left. assert (X : match materialize_completion 7 7 3 decided 90000 5 with
                      | Ok r => ranking_winners (cr_effects r) | _ => [] end = [1])
      by (vm_compute; reflexivity).
    rewrite E in X. rewrite X. discriminate.
  - exists r, h. split; [reflexivity|]. split; [exact Eh|]. split; [|exact Hu].
    assert (X : match materialize_completion 7 7 3 decided 90000 5 with
                | Ok r => match match_history_summary r 30 with
                          | Ok h => hp_outcome <$> hs_players h | _ => [] end
                | _ => [] end = ["win"; "removed"]) by (vm_compute; reflexivity).
    rewrite E, Eh in X. exact X.
Defined.

(** ** Places *)

(** The places of a free for all are competition ranks: the players are
    listed in order, each of them once, and the place of a player is one more
    than the number of players ahead of it, where the winner of a match that
    inactivity ended is ahead of everybody, players who stayed are ahead of those
    removed, and among equals the higher score is ahead. *)
Theorem places_are_competition_ranks st :
  rateable st -> mmr_outcome_override st <> Ok NoContest ->
  exists scores forced, ordered_ffa_player_scores st = Ok (scores, forced)
    /\ scores ≡ₚ player_scores st
    /\ ffa_ranks st forced scores
       = (fun x => S (length (ahead_of st (forced_winner_of st) scores x))) <$> scores.
Proof.
  intros R Hc. destruct (ordered_ok st R Hc) as (scores & forced & E & P).
  exists scores, forced. split; [done|]. split; [done|].
  destruct (ordered_spec st scores forced R E Hc) as (Ho & Hl & _). by apply ffa_ranks_spec.
Qed.

(** Three players, the first two with the same score. *)
Definition brawl : GameState :=
  let st := new_game_state 40 40 (FreeForAll 3) Quickmatch None 0 in
  let st := (add_player st 1 None).2 in
  let st := (add_player st 2 None).2 in
  let st := (add_player st 3 None).2 in
  with_scores (<[0 := 30]> (<[1 := 30]> (<[2 := 10]> ∅))) (with_status (Complete None) st).

Lemma scored_rateable st :
  forallb (fun e => is_some (vec_get (gs_snakes st) (pl_snake_id e.2)))
    (map_to_list (gs_players st)) = true ->
  NoDup ((fun e => pl_snake_id e.2) <$> map_to_list (gs_players st)) ->
  is_complete st = true -> gs_completed_by_inactivity st = false -> rated_in_teams st = false ->
  rateable st.
Proof.
  intros H1 H2 H3 H4 H5. split; [| |done|congruence|congruence].
  - intros u p Hp. apply (forallb_map _ _ _ _ H1) in Hp. cbn in Hp.
    destruct (vec_get _ _); [by eexists|done].
  - intros u v p q Hu%elem_of_map_to_list Hv%elem_of_map_to_list E.
    apply list_elem_of_lookup_1 in Hu as [a Ha]. apply list_elem_of_lookup_1 in Hv as [b Hb].
    assert (a = b) as ->; [|congruence].
    eapply (NoDup_lookup _ _ _ (pl_snake_id p) H2); rewrite list_lookup_fmap, ?Ha, ?Hb; [done|].
    cbn. by rewrite E.
Qed.

Lemma places_are_competition_ranks_witness :
  exists scores forced, ordered_ffa_player_scores brawl = Ok (scores, forced)
    /\ scores = [(1, 30); (2, 30); (3, 10)] /\ ffa_ranks brawl forced scores = [1; 1; 3]%nat.
Proof.
  destruct (places_are_competition_ranks brawl) as (scores & forced & E & _ & Er).
  - apply scored_rateable; try (vm_compute; reflexivity).
    apply (bool_decide_unpack _). vm_compute. exact I.
  - vm_compute. discriminate.
  - exists scores, forced. split; [exact E|]. vm_compute in E. injection E as <- <-.
    split; [reflexivity|]. rewrite Er. vm_compute. reflexivity.
Defined.

(** ** A match nobody is credited with *)

(** A free for all at 59.95 s: the second player crashed with a score, the first
    is alive and has been idle since the start. *)
Definition survivor : GameState :=
  let st := new_game_state 40 40 (FreeForAll 2) Quickmatch None 0 in
  let st := (add_player st 1 None).2 in
  let st := (add_player st 2 None).2 in
  let st := apply_event (Ev_StatusUpdated (Started 0)) st in
  let st := apply_event (Ev_SnakeDied 1 DC_Wall) st in
  with_scores (<[1 := 30]> ∅)
    (with_player_last_activity_ticks (<[1 := 0]> (<[2 := 900]> ∅)) (with_tick 1199 st)).

(** The last living player of a free for all voids it by idling: the match ends
    without a winner although the players did not expire in one quantum, and
    nobody is rated. *)
Example last_survivor_can_void_the_match {WL : WengLin} {RD : RatingDb} :
  validate_boost_invariants survivor = Ok tt /\ is_complete survivor = false
  /\ let st := stepped survivor in
     gs_status st = Complete None /\ gs_idle_kicked_user_ids st = [1]
     /\ gs_completed_by_inactivity st = true /\ calculate_mmr_effect_specs st = Ok [].
Proof. vm_compute. repeat split. Qed.
