(* ===== verification/Content.v ===== *)
(** * Content references: skin-schema/src/content.rs

    A document is named by the SHA-256 digest of its canonical JSON: keys sorted,
    no white space. The digest is written out in the source and evaluates here on
    the published vectors; how serde_json prints a scalar is the class [JsonEnv].

    The theorems show that a reference always has the shape [is_content_ref]
    accepts, and that the canonical bytes do not depend on the order in which any
    object of the document lists its keys. *)

From Stdlib Require Import ZArith Ascii Lia.
From stdpp Require Import prelude strings list sorting.
From S2P Require Import Prelude StreamId.
Open Scope Z_scope.

(** ** Bytes *)

Definition byte_of (c : ascii) : Z := Z.of_N (N_of_ascii c).

(** [str::as_bytes] and [str::bytes]. *)
Fixpoint as_bytes (s : string) : list Z :=
  match s with EmptyString => [] | String c s' => byte_of c :: as_bytes s' end.

Definition char_of (b : Z) : ascii := ascii_of_N (Z.to_N b).

(** [to_be_bytes] of a word of [n] bytes. *)
Fixpoint to_be_bytes (n : nat) (x : Z) : list Z :=
  match n with
  | O => []
  | S n => to_be_bytes n (x / 2 ^ 8) ++ [x mod 2 ^ 8]
  end.

(** [from_be_bytes]. *)
Definition from_be_bytes (l : list Z) : Z := foldl (fun acc b => acc * 2 ^ 8 + b) 0 l.

(** [chunks_exact(n)], with one unit of fuel for each chunk. *)
Fixpoint chunks_exact (fuel n : nat) (l : list Z) : list (list Z) :=
  match fuel with
  | O => []
  | S fuel => if (n <=? length l)%nat then take n l :: chunks_exact fuel n (drop n l) else []
  end.

(** ** SHA-256 *)

Definition rotate_right (x n : Z) : Z := Z.lor (Z.shiftr x n) (wrap_u32 (Z.shiftl x (32 - n))).
Definition wrapping_add (a b : Z) : Z := wrap_u32 (a + b).

(** [!x] on 32 bits. *)
Definition not_u32 (x : Z) : Z := u32_max - x.

(** The [n] 32-bit words of [z], the most significant first. *)
Definition words_u32 (n : nat) (z : Z) : list Z :=
  (fun i => wrap_u32 (Z.shiftr z (32 * Z.of_nat (n - S i)))) <$> seq 0 n.

(** The round constants, eight words to the row. *)
Definition sha256_K : list Z :=
  Eval vm_compute in
  mjoin (words_u32 8 <$>
  [0x428a2f98_71374491_b5c0fbcf_e9b5dba5_3956c25b_59f111f1_923f82a4_ab1c5ed5;
   0xd807aa98_12835b01_243185be_550c7dc3_72be5d74_80deb1fe_9bdc06a7_c19bf174;
   0xe49b69c1_efbe4786_0fc19dc6_240ca1cc_2de92c6f_4a7484aa_5cb0a9dc_76f988da;
   0x983e5152_a831c66d_b00327c8_bf597fc7_c6e00bf3_d5a79147_06ca6351_14292967;
   0x27b70a85_2e1b2138_4d2c6dfc_53380d13_650a7354_766a0abb_81c2c92e_92722c85;
   0xa2bfe8a1_a81a664b_c24b8b70_c76c51a3_d192e819_d6990624_f40e3585_106aa070;
   0x19a4c116_1e376c08_2748774c_34b0bcb5_391c0cb3_4ed8aa4a_5b9cca4f_682e6ff3;
   0x748f82ee_78a5636f_84c87814_8cc70208_90befffa_a4506ceb_bef9a3f7_c67178f2])%list.

(** The eight words of the state. *)
Record Sha256State := mkSha { sh_a : Z; sh_b : Z; sh_c : Z; sh_d : Z; sh_e : Z; sh_f : Z; sh_g : Z; sh_h : Z }.

Definition sha256_init : Sha256State :=
  mkSha 0x6a09e667 0xbb67ae85 0x3c6ef372 0xa54ff53a 0x510e527f 0x9b05688c 0x1f83d9ab 0x5be0cd19.

(** The loop pushes zeros until the length is 56 modulo 64. *)
Definition sha256_padding (len : Z) : list Z :=
  0x80 :: replicate (Z.to_nat ((55 - len) mod 64)) 0 ++ to_be_bytes 8 (wrap_u64 (len * 8)).

(** The next word of the schedule, from the words so far, [index] of them. *)
Definition schedule_word (w : list Z) (index : nat) : Z :=
  let at_ k := nth (index - k) w 0 in
  let s0 := Z.lxor (Z.lxor (rotate_right (at_ 15%nat) 7) (rotate_right (at_ 15%nat) 18))
              (Z.shiftr (at_ 15%nat) 3) in
  let s1 := Z.lxor (Z.lxor (rotate_right (at_ 2%nat) 17) (rotate_right (at_ 2%nat) 19))
              (Z.shiftr (at_ 2%nat) 10) in
  wrapping_add (wrapping_add (wrapping_add (at_ 16%nat) s0) (at_ 7%nat)) s1.

Definition schedule (chunk : list Z) : list Z :=
  foldl (fun w index => w ++ [schedule_word w index])
    (from_be_bytes <$> chunks_exact 16 4 chunk) (seq 16 48).

Definition sha256_round (s : Sha256State) (kw : Z * Z) : Sha256State :=
  let '(mkSha a b c d e f g h) := s in
  let s1 := Z.lxor (Z.lxor (rotate_right e 6) (rotate_right e 11)) (rotate_right e 25) in
  let ch := Z.lxor (Z.land e f) (Z.land (not_u32 e) g) in
  let temp1 := wrapping_add (wrapping_add (wrapping_add (wrapping_add h s1) ch) kw.1) kw.2 in
  let s0 := Z.lxor (Z.lxor (rotate_right a 2) (rotate_right a 13)) (rotate_right a 22) in
  let maj := Z.lxor (Z.lxor (Z.land a b) (Z.land a c)) (Z.land b c) in
  let temp2 := wrapping_add s0 maj in
  mkSha (wrapping_add temp1 temp2) a b c (wrapping_add d temp1) e f g.

Definition sha256_block (s : Sha256State) (chunk : list Z) : Sha256State :=
  let r := foldl sha256_round s (zip sha256_K (schedule chunk)) in
  mkSha (wrapping_add (sh_a s) (sh_a r)) (wrapping_add (sh_b s) (sh_b r))
        (wrapping_add (sh_c s) (sh_c r)) (wrapping_add (sh_d s) (sh_d r))
        (wrapping_add (sh_e s) (sh_e r)) (wrapping_add (sh_f s) (sh_f r))
        (wrapping_add (sh_g s) (sh_g r)) (wrapping_add (sh_h s) (sh_h r)).

Definition sha256_words (s : Sha256State) : list Z :=
  [sh_a s; sh_b s; sh_c s; sh_d s; sh_e s; sh_f s; sh_g s; sh_h s].

Definition sha256 (message : list Z) : list Z :=
  let padded := message ++ sha256_padding (Z.of_nat (length message)) in
  let state := foldl sha256_block sha256_init (chunks_exact (length padded) 64 padded) in
  mjoin (to_be_bytes 4 <$> sha256_words state).

(** ** References *)

Definition CONTENT_REF_PREFIX : string := "sha256:".
Definition CONTENT_REF_LENGTH : nat := String.length CONTENT_REF_PREFIX + 64.

(** [char::from_digit(nibble, 16)]. *)
Definition nibble_digit (nibble : Z) : ascii :=
  char_of (if nibble <? 10 then 48 + nibble else 97 + nibble - 10).

Fixpoint hex_bytes (l : list Z) : string :=
  match l with
  | [] => EmptyString
  | b :: l => String (nibble_digit (Z.shiftr b 4)) (String (nibble_digit (Z.land b 0x0f)) (hex_bytes l))
  end.

Definition reference_for_bytes (bytes : list Z) : string :=
  CONTENT_REF_PREFIX +:+ hex_bytes (sha256 bytes).

Fixpoint string_forallb (f : ascii -> bool) (s : string) : bool :=
  match s with EmptyString => true | String c s' => f c && string_forallb f s' end.

Definition is_lower_hex (c : ascii) : bool :=
  let b := byte_of c in ((48 <=? b) && (b <=? 57)) || ((97 <=? b) && (b <=? 102)).

Definition is_content_ref (reference : string) : bool :=
  (String.length reference =? CONTENT_REF_LENGTH)%nat
  && String.prefix CONTENT_REF_PREFIX reference
  && string_forallb is_lower_hex
       (String.substring (String.length CONTENT_REF_PREFIX) (String.length reference) reference).

(** ** Canonical JSON *)

(** [serde_json::Value]; a number is an integer or the text of a float. *)
Unset Elimination Schemes.
Inductive Value :=
| VNull
| VBool (b : bool)
| VInt (n : Z)
| VFloat (text : string)
| VString (s : string)
| VArray (items : list Value)
| VObject (entries : list (string * Value)).
Set Elimination Schemes.

(** [Value]'s [Display] on everything but arrays and objects. *)
Class JsonEnv := { scalar_to_string : Value -> string }.

Definition key_le (a b : string * Value) : Prop := String.leb a.1 b.1 = true.
#[global] Instance key_le_dec a b : Decision (key_le a b).
Proof. unfold key_le. apply _. Defined.

(** The keys of a map are distinct, so that [insert] appends. *)
Fixpoint sorted (value : Value) : Value :=
  match value with
  | VObject entries => VObject (merge_sort key_le ((fun kv => (kv.1, sorted kv.2)) <$> entries))
  | VArray items => VArray (sorted <$> items)
  | scalar => scalar
  end.

Section canonical.
Context {JE : JsonEnv}.

(** What is written between the brackets: the parts, separated by commas. *)
Fixpoint separated (parts : list string) : string :=
  match parts with
  | [] => ""
  | [p] => p
  | p :: parts => p +:+ "," +:+ separated parts
  end.

Fixpoint write_canonical (value : Value) : string :=
  match value with
  | VObject entries =>
      "{" +:+ separated ((fun kv => scalar_to_string (VString kv.1) +:+ ":" +:+ write_canonical kv.2)
                           <$> entries) +:+ "}"
  | VArray items => "[" +:+ separated (write_canonical <$> items) +:+ "]"
  | scalar => scalar_to_string scalar
  end.

(** Of a document whose conversion to a [Value] succeeded. *)
Definition canonical_bytes (doc : Value) : list Z := as_bytes (write_canonical (sorted doc)).

Definition content_ref (doc : Value) : string := reference_for_bytes (canonical_bytes doc).
End canonical.

(** ** The shape of a reference *)

Lemma to_be_bytes_length n x : length (to_be_bytes n x) = n.
Proof. revert x. induction n as [|n IH]; intros x; [done|]. cbn. rewrite length_app, IH. cbn. lia. Qed.

Lemma to_be_bytes_range n x : Forall is_u8 (to_be_bytes n x).
Proof.
  revert x. induction n as [|n IH]; intros x; [constructor|]. cbn [to_be_bytes].
  apply Forall_app. split; [apply IH|]. constructor; [|done]. unfold_widths.
  pose proof (Z.mod_pos_bound x (2 ^ 8)). lia.
Qed.

Lemma sha256_shape message : length (sha256 message) = 32%nat /\ Forall is_u8 (sha256 message).
Proof.
  unfold sha256. set (s := foldl _ _ _). clearbody s. split.
  - cbn [sha256_words fmap list_fmap mjoin list_join]. rewrite !length_app, !to_be_bytes_length. done.
  - cbn [sha256_words fmap list_fmap mjoin list_join].
    repeat (apply Forall_app; split; [apply to_be_bytes_range|]). constructor.
Qed.

Lemma nibble_lower_hex n : 0 <= n < 16 -> is_lower_hex (nibble_digit n) = true.
Proof.
  intros H. assert (Hn : n ∈ seqZ 0 16) by (apply elem_of_seqZ; lia).
  revert n Hn H. apply (Forall_forall (fun n => 0 <= n < 16 -> is_lower_hex (nibble_digit n) = true)).
  repeat (constructor; [by intros _; vm_compute|]). constructor.
Qed.

Lemma hex_bytes_shape l :
  Forall is_u8 l ->
  String.length (hex_bytes l) = (2 * length l)%nat /\ string_forallb is_lower_hex (hex_bytes l) = true.
Proof.
  induction 1 as [|b l Hb _ [IH1 IH2]]; [done|]. cbn. rewrite IH1, IH2. split; [lia|].
  rewrite !nibble_lower_hex; [done|..].
  - change 15 with (Z.ones 4). rewrite Z.land_ones by lia. apply Z.mod_pos_bound. lia.
  - rewrite Z.shiftr_div_pow2 by lia. unfold_widths. change (2 ^ 4) with 16.
    split; [apply Z.div_pos; lia|]. apply Z.div_lt_upper_bound; lia.
Qed.

Lemma substring_all s : String.substring 0 (String.length s) s = s.
Proof. induction s as [|c s IH]; [done|]. cbn. by rewrite IH. Qed.

Lemma substring_enough s n : (String.length s <= n)%nat -> String.substring 0 n s = s.
Proof.
  revert n. induction s as [|c s IH]; intros [|n] H; cbn in *; try done; [lia|]. rewrite IH by lia. done.
Qed.

(** The reference of any bytes is accepted by the shape check: the prefix, then 64 lower
    case hexadecimal digits. *)
Theorem references_are_well_shaped bytes : is_content_ref (reference_for_bytes bytes) = true.
Proof.
  destruct (sha256_shape bytes) as [Hl Hr]. destruct (hex_bytes_shape _ Hr) as [Hh1 Hh2].
  rewrite Hl in Hh1. unfold reference_for_bytes. revert Hh1 Hh2.
  generalize (hex_bytes (sha256 bytes)). intros h Hh1 Hh2. clear bytes Hl Hr.
  assert (Hlen : String.length (CONTENT_REF_PREFIX +:+ h) = CONTENT_REF_LENGTH)
    by (change (7 + String.length h = 71)%nat; rewrite Hh1; reflexivity).
  unfold is_content_ref. rewrite Hlen, Nat.eqb_refl.
  change (String.substring _ _ (CONTENT_REF_PREFIX +:+ h)) with (String.substring 0 71 h).
  rewrite substring_enough, Hh2 by (rewrite Hh1; lia). by destruct h.
Qed.

(** The published vectors. *)
Example sha256_matches_the_published_vectors :
  reference_for_bytes (as_bytes "")
    = "sha256:e3b0c44298fc1c149afbf4c8996fb92427ae41e4649b934ca495991b7852b855"
  /\ reference_for_bytes (as_bytes "abc")
     = "sha256:ba7816bf8f01cfea414140de5dae2223b00361a396177a9cb410ff61f20015ad"
  /\ reference_for_bytes (as_bytes "abcdbcdecdefdefgefghfghighijhijkijkljklmklmnlmnomnopnopq")
     = "sha256:248d6a61d20638b8e5c026930c3e6039a33ce45964ff2167f6ecedd419db06c1".
Proof. split_and!; vm_compute; reflexivity. Qed.

(** ** Key order *)

Section value_induction.
Variable P : Value -> Prop.
Hypothesis HNull : P VNull.
Hypothesis HBool : forall b, P (VBool b).
Hypothesis HInt : forall n, P (VInt n).
Hypothesis HFloat : forall t, P (VFloat t).
Hypothesis HString : forall s, P (VString s).
Hypothesis HArray : forall l, Forall P l -> P (VArray l).
Hypothesis HObject : forall l, Forall (fun kv => P kv.2) l -> P (VObject l).

Fixpoint Value_ind (v : Value) : P v :=
  match v with
  | VNull => HNull
  | VBool b => HBool b
  | VInt n => HInt n
  | VFloat t => HFloat t
  | VString s => HString s
  | VArray l =>
      HArray l ((fix go l : Forall P l :=
                   match l with [] => List.Forall_nil P | v :: l => List.Forall_cons P v l (Value_ind v) (go l) end) l)
  | VObject l =>
      HObject l ((fix go l : Forall (fun kv => P kv.2) l :=
                    match l with
                    | [] => List.Forall_nil _
                    | kv :: l => List.Forall_cons _ kv l (Value_ind kv.2) (go l)
                    end) l)
  end.
End value_induction.

(** Equality up to the order of the keys of objects, at any depth. *)
Inductive same_document : Value -> Value -> Prop :=
| same_refl v : same_document v v
| same_sym v w : same_document v w -> same_document w v
| same_trans u v w : same_document u v -> same_document v w -> same_document u w
| same_item l1 v w l2 :
    same_document v w -> same_document (VArray (l1 ++ v :: l2)) (VArray (l1 ++ w :: l2))
| same_entry l1 k v w l2 :
    same_document v w -> same_document (VObject (l1 ++ (k, v) :: l2)) (VObject (l1 ++ (k, w) :: l2))
| same_order l l' : l ≡ₚ l' -> NoDup l.*1 -> same_document (VObject l) (VObject l').

(** The text of a float has a point or an exponent; the keys of an object are
    distinct. *)
Definition float_char (c : ascii) : bool :=
  is_lower_hex c || bool_decide (c = "."%char) || bool_decide (c = "-"%char) || bool_decide (c = "+"%char).

Definition float_text (t : string) : bool :=
  string_forallb float_char t
  && negb (string_forallb (fun c => negb (bool_decide (c = "."%char)) && negb (bool_decide (c = "e"%char))) t).

Fixpoint well_formed (v : Value) : Prop :=
  match v with
  | VFloat t => float_text t = true
  | VArray l => foldr (fun v P => well_formed v /\ P) True l
  | VObject l => NoDup l.*1 /\ foldr (fun kv P => well_formed kv.2 /\ P) True l
  | _ => True
  end.

Lemma well_formed_items {A} (f : A -> Value) l :
  foldr (fun a P => well_formed (f a) /\ P) True l <-> Forall (fun a => well_formed (f a)) l.
Proof.
  induction l as [|a l IH]; cbn; [by split|]. rewrite IH. split; [intros []; by constructor|].
  by intros [??]%Forall_cons.
Qed.

Lemma leb_trans a b c : String.leb a b = true -> String.leb b c = true -> String.leb a c = true.
Proof.
  revert b c. induction a as [|x a IH]; intros [|y b] [|z c] H1 H2; try done.
  unfold String.leb in *. cbn in *. unfold Ascii.compare in *.
  destruct (N.compare_spec (N_of_ascii x) (N_of_ascii y)) as [E1|E1|E1]; [| |done];
  destruct (N.compare_spec (N_of_ascii y) (N_of_ascii z)) as [E2|E2|E2]; try done;
  destruct (N.compare_spec (N_of_ascii x) (N_of_ascii z)) as [E3|E3|E3]; try lia; try done.
  by eapply IH.
Qed.

#[global] Instance key_le_trans : Transitive key_le.
Proof. intros a b c. apply leb_trans. Qed.
#[global] Instance key_le_total : Total key_le.
Proof. intros a b. apply String.leb_total. Qed.

Lemma distinct_keys {A B : Type} (l : list (A * B)) k x y :
  NoDup l.*1 -> (k, x) ∈ l -> (k, y) ∈ l -> x = y.
Proof.
  induction l as [|[k' z] l IH]; cbn; [by intros _ ?%not_elem_of_nil|].
  intros [Hk Hn]%NoDup_cons. rewrite !elem_of_cons.
  intros [[= -> ->]|Hx] [[= ->]|Hy]; subst; try done; [| |by apply IH].
  - exfalso. apply Hk. by apply (list_elem_of_fmap_2 fst) in Hy.
  - exfalso. apply Hk. by apply (list_elem_of_fmap_2 fst) in Hx.
Qed.

Lemma key_sort_unique l l' :
  l ≡ₚ l' -> NoDup l.*1 -> merge_sort key_le l = merge_sort key_le l'.
Proof.
  intros Hp Hn. apply (StronglySorted_unique_strong key_le).
  - intros [k x] [k' x']. rewrite !merge_sort_Permutation, <-Hp. intros Hx Hx' H1 H2.
    assert (k = k') as <- by by apply String.leb_antisym.
    f_equal. exact (distinct_keys l k x x' Hn Hx Hx').
  - by apply (StronglySorted_merge_sort key_le _).
  - by apply (StronglySorted_merge_sort key_le _).
  - by rewrite !merge_sort_Permutation.
Qed.

Definition sort_entry (kv : string * Value) : string * Value := (kv.1, sorted kv.2).

Lemma sort_entry_keys l : (sort_entry <$> l).*1 = l.*1.
Proof. induction l as [|kv l IH]; [done|]. cbn. by rewrite IH. Qed.

Lemma sorted_same v w : same_document v w -> sorted v = sorted w.
Proof.
  induction 1 as [v|v w _ IH|u v w _ IH1 _ IH2|l1 v w l2 _ IH|l1 k v w l2 _ IH|l l' Hp Hn].
  - done.
  - done.
  - by rewrite IH1.
  - cbn. by rewrite !fmap_app, !fmap_cons, IH.
  - cbn. by rewrite !fmap_app, !fmap_cons; cbn; rewrite IH.
  - cbn [sorted]. f_equal. apply key_sort_unique; [by rewrite Hp|].
    change (NoDup (sort_entry <$> l).*1). by rewrite sort_entry_keys.
Qed.

Lemma same_items l l' :
  Forall2 same_document l l' -> forall p, same_document (VArray (p ++ l)) (VArray (p ++ l')).
Proof.
  induction 1 as [|v w l l' Hv _ IH]; intros p; [constructor|].
  eapply same_trans; [by apply same_item|].
  specialize (IH (p ++ [w])). by rewrite <-!app_assoc in IH.
Qed.

Lemma same_entries l l' :
  Forall2 (fun a b => a.1 = b.1 /\ same_document a.2 b.2) l l' ->
  forall p, same_document (VObject (p ++ l)) (VObject (p ++ l')).
Proof.
  induction 1 as [|[k v] [k' w] l l' [E Hv] _ IH]; intros p; [constructor|]. cbn in E, Hv. subst k'.
  eapply same_trans; [by apply same_entry|].
  specialize (IH (p ++ [(k, w)])). by rewrite <-!app_assoc in IH.
Qed.

Lemma same_sorted v : well_formed v -> same_document v (sorted v).
Proof.
  induction v as [| | | | |l IH|l IH] using Value_ind; intros Hw; try apply same_refl.
  - cbn [sorted]. apply (well_formed_items id) in Hw. refine (same_items l (sorted <$> l) _ []).
    apply Forall2_fmap_r.
    apply Forall_Forall2_diag. rewrite Forall_forall in IH, Hw |- *. intros v Hv. by apply IH, Hw.
  - cbn [sorted]. destruct Hw as [Hn Hw]. apply (well_formed_items snd) in Hw.
    eapply same_trans; [refine (same_entries l (sort_entry <$> l) _ [])|].
    + apply Forall2_fmap_r, Forall_Forall2_diag. rewrite Forall_forall in IH, Hw |- *.
      intros kv Hv. split; [done|]. by apply IH, Hw.
    + apply same_order; [by rewrite merge_sort_Permutation|].
      change (NoDup (sort_entry <$> l).*1). by rewrite sort_entry_keys.
Qed.

(** ** Canonical bytes determine the document *)

Definition is_scalar (v : Value) : bool :=
  match v with VArray _ | VObject _ => false | _ => true end.

Definition delimiter (c : ascii) : bool := bool_decide (c ∈ [","%char; "]"%char; "}"%char; ":"%char]).
Definition bracket (c : ascii) : bool := bool_decide (c ∈ ["["%char; "]"%char; "{"%char; "}"%char]).

(** What follows a value in a document. *)
Definition at_end (s : string) : bool :=
  match s with EmptyString => true | String c _ => delimiter c end.

(** What JSON says of scalars: the text of one does not start like an array or
    an object, and where it ends is determined. *)
Class JsonLaws {JE : JsonEnv} : Prop := {
  scalar_start v : is_scalar v = true -> well_formed v ->
      exists c t, scalar_to_string v = String c t /\ bracket c = false;
  scalar_cut v w x y : is_scalar v = true -> is_scalar w = true -> well_formed v -> well_formed w ->
      at_end x = true -> at_end y = true ->
      scalar_to_string v +:+ x = scalar_to_string w +:+ y -> v = w /\ x = y
}.

Section unique.
Context {JE : JsonEnv} {JL : JsonLaws}.

Lemma string_app_assoc (a b c : string) : (a +:+ b) +:+ c = a +:+ (b +:+ c).
Proof. induction a as [|x a IH]; [done|]. change (String x ((a +:+ b) +:+ c) = String x (a +:+ (b +:+ c))). by rewrite IH. Qed.

Lemma write_start v : well_formed v ->
  exists c t, write_canonical v = String c t /\ c <> "]"%char /\ c <> "}"%char.
Proof.
  intros Hw. destruct (is_scalar v) eqn:Es.
  - destruct (scalar_start v Es Hw) as (c & t & E & Hb). exists c, t.
    destruct v; try done; (split; [exact E|]); split; intros ->; done.
  - destruct v; try done; eexists _, _; (split; [reflexivity|done]).
Qed.

(** The rest of a list after its first part. *)
Definition remainder (parts : list string) (close : ascii) (x : string) : string :=
  match parts with
  | [] => String close x
  | _ => String ","%char (separated parts +:+ String close x)
  end.

Lemma separated_head p parts close x :
  separated (p :: parts) +:+ String close x = p +:+ remainder parts close x.
Proof.
  destruct parts as [|q parts]; [done|].
  change (separated (p :: q :: parts)) with (p +:+ ("," +:+ separated (q :: parts))).
  by rewrite !string_app_assoc.
Qed.

Lemma remainder_at_end parts close x : delimiter close = true -> at_end (remainder parts close x) = true.
Proof. by destruct parts. Qed.

(** A list whose parts have determined ends. *)
Lemma separated_cut {A} (f : A -> string) (close : ascii) l l' : forall x y,
  delimiter close = true -> close <> ","%char ->
  Forall (fun a => exists c t, f a = String c t /\ c <> close) l ->
  Forall (fun a => exists c t, f a = String c t /\ c <> close) l' ->
  Forall (fun a => forall b u v, b ∈ l' -> at_end u = true -> at_end v = true ->
                   f a +:+ u = f b +:+ v -> a = b /\ u = v) l ->
  separated (f <$> l) +:+ String close x = separated (f <$> l') +:+ String close y -> l = l' /\ x = y.
Proof.
  revert l'. induction l as [|a l IH]; intros [|b l'] x y Hc Hn Hs Hs' Ha E.
  - by injection E.
  - exfalso. apply Forall_cons in Hs' as [(c & t & Hf & Hd) _].
    cbn [fmap list_fmap] in E. rewrite (separated_head (f b)), Hf in E. injection E as E _. congruence.
  - exfalso. apply Forall_cons in Hs as [(c & t & Hf & Hd) _].
    cbn [fmap list_fmap] in E. rewrite (separated_head (f a)), Hf in E. injection E as E _. congruence.
  - apply Forall_cons in Hs as [_ Hs]. apply Forall_cons in Hs' as [_ Hs'].
    apply Forall_cons in Ha as [Hab Ha]. cbn [fmap list_fmap] in E. rewrite !separated_head in E.
    apply Hab in E as [<- E]; [|by left|by apply remainder_at_end..].
    assert (Ha' : Forall (fun a => forall b u v, b ∈ l' -> at_end u = true -> at_end v = true ->
                     f a +:+ u = f b +:+ v -> a = b /\ u = v) l).
    { eapply Forall_impl; [exact Ha|]. intros a' H' b' u v Hb'. apply H'. by right. }
    destruct l as [|a2 l], l' as [|b2 l']; cbn [list_fmap remainder] in E.
    + by injection E.
    + injection E as E _. congruence.
    + injection E as E _. congruence.
    + injection E as E. apply (IH (b2 :: l')) in E as [-> ->]; done.
Qed.

Lemma scalar_apart v w x y :
  is_scalar v = true -> is_scalar w = false -> well_formed v ->
  write_canonical v +:+ x <> write_canonical w +:+ y.
Proof.
  intros Hv Hw Hf E. destruct (scalar_start v Hv Hf) as (c & t & Ev & Hb).
  assert (Ew : write_canonical v = String c t) by by destruct v. rewrite Ew in E.
  destruct w; try done; injection E as -> _; done.
Qed.

(** The text of an entry. *)
Definition entry_text (kv : string * Value) : string :=
  scalar_to_string (VString kv.1) +:+ ":" +:+ write_canonical kv.2.

Definition cut_at (v : Value) : Prop := forall w x y,
  well_formed v -> well_formed w -> at_end x = true -> at_end y = true ->
  write_canonical v +:+ x = write_canonical w +:+ y -> v = w /\ x = y.

Lemma cut_items l : Forall cut_at l -> cut_at (VArray l).
Proof.
  intros IH w x y Hv Hw Hx Hy E. destruct (is_scalar w) eqn:Es.
  { destruct (scalar_apart w (VArray l) y x Es eq_refl Hw). by rewrite E. }
  destruct w as [| | | | |l'|l']; try discriminate.
  apply (well_formed_items id) in Hv, Hw. injection E as E. rewrite !string_app_assoc in E.
  assert (Hs : forall m, Forall (fun a => well_formed (id a)) m ->
    Forall (fun a => exists c t, write_canonical a = String c t /\ c <> "]"%char) m).
  { intros m Hm. eapply Forall_impl; [exact Hm|]. intros a (c & t & Ea & Hc & _)%write_start. eauto. }
  eapply (separated_cut write_canonical "]"%char) in E as [-> ->]; [done..|by apply Hs|by apply Hs|].
  rewrite Forall_forall in IH, Hv, Hw |- *. intros a Ha b u v Hb Hu Hv' E'.
  exact (IH a Ha b u v (Hv a Ha) (Hw b Hb) Hu Hv' E').
Qed.

Lemma entry_start kv : exists c t, entry_text kv = String c t /\ c <> "}"%char.
Proof.
  destruct (scalar_start (VString kv.1) eq_refl I) as (c & t & E & Hb).
  unfold entry_text. rewrite E. eexists c, _. split; [reflexivity|]. by intros ->.
Qed.

Lemma cut_entry kv kv' u v :
  cut_at kv.2 -> well_formed kv.2 -> well_formed kv'.2 -> at_end u = true -> at_end v = true ->
  entry_text kv +:+ u = entry_text kv' +:+ v -> kv = kv' /\ u = v.
Proof.
  intros IH Hw Hw' Hu Hv E. unfold entry_text in E. rewrite !string_app_assoc in E.
  apply scalar_cut in E as [Ek E]; [|done..]. injection Ek as Ek. injection E as E.
  apply IH in E as [Ev ->]; [|done..]. destruct kv, kv'. cbn in *. by subst.
Qed.

Lemma cut_entries l : Forall (fun kv => cut_at kv.2) l -> cut_at (VObject l).
Proof.
  intros IH w x y [_ Hv] Hw Hx Hy E. destruct (is_scalar w) eqn:Es.
  { destruct (scalar_apart w (VObject l) y x Es eq_refl Hw). by rewrite E. }
  destruct w as [| | | | |l'|l']; try discriminate.
  destruct Hw as [_ Hw]. apply (well_formed_items snd) in Hv, Hw.
  injection E as E. rewrite !string_app_assoc in E.
  eapply (separated_cut entry_text "}"%char) in E as [-> ->]; [done..| | |].
  - apply Forall_true. apply entry_start.
  - apply Forall_true. apply entry_start.
  - rewrite Forall_forall in IH, Hv, Hw |- *. intros a Ha b u v Hb Hu Hv' E'.
    by apply cut_entry in E'; auto.
Qed.

Lemma write_cut v : cut_at v.
Proof.
  induction v as [| | | | |l IH|l IH] using Value_ind; [..|by apply cut_items|by apply cut_entries];
    intros w x y Hv Hw Hx Hy E;
    (destruct (is_scalar w) eqn:Es; [|by apply scalar_apart in E]);
    apply scalar_cut; try done; destruct w; try done; exact E.
Qed.

Lemma as_bytes_inj s t : as_bytes s = as_bytes t -> s = t.
Proof.
  revert t. induction s as [|c s IH]; intros [|d t]; try done. cbn. intros [= H1 H2].
  apply IH in H2 as ->. f_equal. rewrite <-(ascii_N_embedding c), <-(ascii_N_embedding d). f_equal.
  unfold byte_of in H1. lia.
Qed.

Lemma string_app_empty (s : string) : s +:+ "" = s.
Proof. induction s as [|c s IH]; [done|]. change (String c (s +:+ "") = String c s). by rewrite IH. Qed.

Lemma write_inj v w : well_formed v -> well_formed w -> write_canonical v = write_canonical w -> v = w.
Proof.
  intros Hv Hw E. apply (write_cut v w "" "" Hv Hw eq_refl eq_refl). by rewrite !string_app_empty.
Qed.

Lemma sorted_well_formed v : well_formed v -> well_formed (sorted v).
Proof.
  induction v as [| | | | |l IH|l IH] using Value_ind; intros Hw; try done; cbn [sorted well_formed].
  - apply (well_formed_items id) in Hw. apply (well_formed_items id), Forall_fmap.
    rewrite Forall_forall in IH, Hw |- *. intros v Hv. by apply IH, Hw.
  - destruct Hw as [Hn Hw]. apply (well_formed_items snd) in Hw.
    rewrite (well_formed_items snd), merge_sort_Permutation. split.
    + change (NoDup (sort_entry <$> l).*1). by rewrite sort_entry_keys.
    + apply Forall_fmap. rewrite Forall_forall in IH, Hw |- *. intros kv Hv. by apply IH, Hw.
Qed.

(** C36. The canonical bytes of two documents are equal exactly when the documents differ at most
    in the order in which their objects list their keys: a document keeps its
    reference through any map, and one sequence of bytes names one document. *)
Theorem canonical_bytes_name_documents v w :
  well_formed v -> well_formed w ->
  canonical_bytes v = canonical_bytes w <-> same_document v w.
Proof.
  intros Hv Hw. unfold canonical_bytes. split.
  - intros E%as_bytes_inj. apply write_inj in E; [|by apply sorted_well_formed..].
    eapply same_trans; [by apply same_sorted|]. rewrite E. by apply same_sym, same_sorted.
  - intros E. by rewrite (sorted_same v w E).
Qed.
End unique.

(** ** A printer of scalars *)

Definition escape (c : ascii) : string :=
  if bool_decide (c = "034"%char) || bool_decide (c = "\"%char)
  then String "\"%char (String c "") else String c "".

Fixpoint escape_all (s : string) : string :=
  match s with EmptyString => "" | String c s' => escape c +:+ escape_all s' end.

Definition quoted (s : string) : string :=
  String "034"%char (escape_all s +:+ String "034"%char "").

#[local] Instance json_printer : JsonEnv := {|
  scalar_to_string v :=
    match v with
    | VNull => "null"
    | VBool b => if b then "true" else "false"
    | VInt n => display_int n
    | VFloat t => t
    | VString s => quoted s
    | _ => ""
    end
|}.

Lemma escape_cut c d x y : escape c +:+ x = escape d +:+ y -> c = d /\ x = y.
Proof. unfold escape. do 4 case_bool_decide; cbn; intros [=]; subst; done. Qed.

Lemma escape_quote c x : exists d t, escape c +:+ x = String d t /\ d <> "034"%char.
Proof.
  unfold escape. do 2 case_bool_decide; cbn; eexists _, _; (split; [reflexivity|]); try done.
Qed.

Lemma escape_all_cut s t x y :
  escape_all s +:+ String "034"%char x = escape_all t +:+ String "034"%char y -> s = t /\ x = y.
Proof.
  revert t. induction s as [|c s IH]; intros [|d t]; cbn [escape_all];
    rewrite ?string_app_assoc; intros E.
  - by injection E.
  - destruct (escape_quote d (escape_all t +:+ String "034"%char y)) as (d' & t' & E' & Hd).
    rewrite E' in E. injection E as E _. congruence.
  - destruct (escape_quote c (escape_all s +:+ String "034"%char x)) as (d' & t' & E' & Hd).
    rewrite E' in E. injection E as E _. congruence.
  - apply escape_cut in E as [-> E]. by apply IH in E as [-> ->].
Qed.

(** Text without delimiters. *)
Definition plain_char (c : ascii) : bool :=
  negb (delimiter c) && negb (bool_decide (c = "034"%char)) && negb (bracket c).

Lemma plain_cut a b x y :
  string_forallb plain_char a = true -> string_forallb plain_char b = true ->
  at_end x = true -> at_end y = true -> a +:+ x = b +:+ y -> a = b /\ x = y.
Proof.
  assert (Hno : forall c s z, plain_char c = true -> at_end z = true -> z <> String c s).
  { unfold plain_char. intros c s z Hc Hz ->. cbn in Hz. by rewrite Hz in Hc. }
  revert b. induction a as [|c a IH]; intros [|d b] Ha Hb Hx Hy E; cbn in Ha, Hb.
  - done.
  - apply andb_true_iff in Hb as [Hd _]. by destruct (Hno d (b +:+ y) x Hd Hx).
  - apply andb_true_iff in Ha as [Hd _]. by destruct (Hno c (a +:+ x) y Hd Hy).
  - apply andb_true_iff in Ha as [_ Ha]. apply andb_true_iff in Hb as [_ Hb].
    injection E as -> E. by apply IH in E as [-> ->].
Qed.

Lemma string_forallb_impl (f g : ascii -> bool) s :
  (forall c, f c = true -> g c = true) -> string_forallb f s = true -> string_forallb g s = true.
Proof.
  intros H. induction s as [|c s IH]; [done|]. cbn. rewrite !andb_true_iff. intros []. auto.
Qed.

(** The characters of a printed integer. *)
Definition int_char (c : ascii) : bool := is_digit c || bool_decide (c = "-"%char).

Lemma display_int_chars n : string_forallb int_char (display_int n) = true.
Proof.
  assert (H : forall m, string_forallb int_char (display_uint m) = true).
  { intros m. pose proof (all_digits_display m) as H. revert H. generalize (display_uint m).
    intros s. induction s as [|c s IH]; [done|]. cbn. rewrite !andb_true_iff. intros [Hc Hs].
    split; [|by apply IH]. unfold int_char. by rewrite Hc. }
  unfold display_int. case_match; [|apply H]. cbn. apply H.
Qed.

(** Every scalar but a string is plain. *)
Lemma scalar_plain v : is_scalar v = true -> well_formed v -> (forall s, v <> VString s) ->
  string_forallb plain_char (scalar_to_string v) = true /\ scalar_to_string v <> "".
Proof.
  assert (Hint : forall c, int_char c = true -> plain_char c = true)
    by (intros [[] [] [] [] [] [] [] []]; vm_compute; done).
  assert (Hfl : forall c, float_char c = true -> plain_char c = true)
    by (intros [[] [] [] [] [] [] [] []]; vm_compute; done).
  destruct v as [|[]|n|t|s| |]; intros Hs Hw Hn; try done; [| |by destruct (Hn s)]; cbn.
  - split; [eapply string_forallb_impl, display_int_chars; exact Hint|]. unfold display_int.
    case_match; [done|apply display_uint_nonempty].
  - apply andb_true_iff in Hw as [Hc Hw]. split; [by eapply string_forallb_impl|]. by intros ->.
Qed.

Lemma int_not_float n t : float_text t = true -> display_int n <> t.
Proof.
  intros [_ Hw]%andb_true_iff <-. apply negb_true_iff in Hw.
  rewrite (string_forallb_impl int_char) in Hw; [done| |apply display_int_chars].
  intros [[] [] [] [] [] [] [] []]; vm_compute; done.
Qed.

Lemma word_not_float w t : float_text t = true -> string_forallb float_char w = false -> w <> t.
Proof. intros [Ht _]%andb_true_iff Hw <-. congruence. Qed.

Lemma word_not_int w n : string_forallb int_char w = false -> w <> display_int n.
Proof. intros Hw E. rewrite E, display_int_chars in Hw. done. Qed.

Lemma plain_inj v w :
  is_scalar v = true -> is_scalar w = true -> well_formed v -> well_formed w ->
  (forall s, v <> VString s) -> (forall s, w <> VString s) ->
  scalar_to_string v = scalar_to_string w -> v = w.
Proof.
  intros Hv Hw Fv Fw Sv Sw E.
  destruct v as [|[]|n|t|s| |]; try done; try (by destruct (Sv s));
  destruct w as [|[]|m|u|s'| |]; try done; try (by destruct (Sw s')); cbn in E;
  try (exfalso; by apply word_not_int in E); try (exfalso; symmetry in E; by apply word_not_int in E);
  try (exfalso; by apply word_not_float in E);
  try (exfalso; symmetry in E; by apply word_not_float in E).
  - by apply display_int_inj in E as ->.
  - by apply int_not_float in E.
  - symmetry in E. by apply int_not_float in E.
  - by subst.
Qed.

Lemma quote_not_plain s a x y :
  string_forallb plain_char a = true -> a <> "" -> quoted s +:+ x <> a +:+ y.
Proof.
  destruct a as [|c a]; [done|]. cbn. intros [Hc _]%andb_true_iff _ [= <- _]. done.
Qed.

Lemma is_string v : {s | v = VString s} + {forall s, v <> VString s}.
Proof. destruct v; try (right; done). left. by eexists. Qed.

Lemma json_printer_laws : JsonLaws.
Proof.
  split.
  - intros v Hs Hw. destruct (is_string v) as [[s ->]|Hn]; [by eexists _, _|].
    destruct (scalar_plain v Hs Hw Hn) as [Hp He].
    destruct (scalar_to_string v) as [|c t]; [done|]. exists c, t. split; [done|].
    cbn in Hp. apply andb_true_iff in Hp as [Hc _]. unfold plain_char in Hc.
    by destruct (bracket c); [rewrite !andb_false_r in Hc|].
  - intros v w x y Hv Hw Fv Fw Hx Hy E.
    destruct (is_string v) as [[s ->]|Sv], (is_string w) as [[s' ->]|Sw].
    + cbn in E. unfold quoted in E. injection E as E. rewrite !string_app_assoc in E.
      by apply escape_all_cut in E as [-> ->].
    + destruct (scalar_plain w Hw Fw Sw) as [Hp He]. by apply quote_not_plain in E.
    + destruct (scalar_plain v Hv Fv Sv) as [Hp He]. symmetry in E. by apply quote_not_plain in E.
    + destruct (scalar_plain v Hv Fv Sv) as [Hp _], (scalar_plain w Hw Fw Sw) as [Hq _].
      apply plain_cut in E as [E ->]; [|done..]. split; [|done]. by apply plain_inj.
Qed.

(** Two spellings of one document. *)
Definition spelling_a : Value :=
  VObject [("b", VInt 1); ("a", VObject [("z", VArray [VInt 1; VInt 2]); ("y", VString "text")])].
Definition spelling_b : Value :=
  VObject [("a", VObject [("y", VString "text"); ("z", VArray [VInt 1; VInt 2])]); ("b", VInt 1)].

Lemma canonical_bytes_name_documents_witness : same_document spelling_a spelling_b.
Proof.
  apply (@canonical_bytes_name_documents json_printer json_printer_laws).
  - cbn. split_and!; [apply (bool_decide_unpack _); vm_compute; exact I..|done].
  - cbn. split_and!; [apply (bool_decide_unpack _); vm_compute; exact I..|done].
  - vm_compute. reflexivity.
Defined.
