(* ===== verification/EffectStore.v ===== *)
(** * The effects in the database: server/src/db/dynamodb.rs

    [apply_completion_effect] with everything it calls: the transactions it
    builds for each effect, the marker and the anchor that fence them, the
    classification of a failed transaction and the retries.

    Rows are maps of attributes. A transaction has the documented behaviour of
    the service: at most a hundred actions on distinct rows, all of them or none,
    and only if every condition holds; the answer of one that was executed can be
    lost. Between any two requests of a call the store may change. Uuids, times,
    serialization, the object store and the runtime configuration are parameters. *)

From Stdlib Require Import ZArith Ascii.
From stdpp Require Import prelude strings pretty countable list gmap sorting.
From S2P Require Import Prelude RustFloat Util Snake Arena CommandQueue GameState GameSetup.
From S2P Require Import Recording StreamId Journal Rating Completion.
Open Scope Z_scope.

(** ** Rows and conditions *)

Inductive Table := MainTable | UsernamesTable | RankingsTable | HighScoresTable.
#[global] Instance Table_eq_dec : EqDecision Table.
Proof. solve_decision. Defined.
#[global] Instance Table_countable : Countable Table.
Proof.
  apply (inj_countable' (fun t => match t with
                                  | MainTable => 0%nat | UsernamesTable => 1%nat
                                  | RankingsTable => 2%nat | HighScoresTable => 3%nat
                                  end)
           (fun n => match n with
                     | 0%nat => MainTable | 1%nat => UsernamesTable
                     | 2%nat => RankingsTable | _ => HighScoresTable
                     end)).
  by intros [].
Defined.

Inductive AttributeValue :=
| AV_S (s : string)
| AV_N (n : Z)
| AV_BOOL (b : bool)
| AV_SS (l : list string).
#[global] Instance AttributeValue_eq_dec : EqDecision AttributeValue.
Proof. solve_decision. Defined.

Abbreviation Item := (gmap string AttributeValue).

(** The table, the partition key and the sort key; the usernames table has no
    sort key. *)
Abbreviation Key := (Table * string * string)%type.
Abbreviation Store := (gmap Key Item).

(** A row with its key attributes. *)
Definition keyed (k : Key) (item : Item) : Item :=
  match k.1.1 with
  | UsernamesTable => <["username" := AV_S k.1.2]> item
  | _ => <["pk" := AV_S k.1.2]> (<["sk" := AV_S k.2]> item)
  end.

Definition get_item (s : Store) (k : Key) : option Item := keyed k <$> s !! k.

Inductive Condition :=
| Always
| AttributeNotExists (a : string)
| AttributeExists (a : string)
| Equals (a : string) (v : AttributeValue)
| Differs (a : string) (v : AttributeValue)
| AtLeast (a : string) (n : Z)
| AtMost (a : string) (n : Z)
| And (c d : Condition)
| Or (c d : Condition).

Fixpoint holds (c : Condition) (row : option Item) : bool :=
  let value a := row ≫= (fun item => item !! a) in
  match c with
  | Always => true
  | AttributeNotExists a => bool_decide (value a = None)
  | AttributeExists a => bool_decide (is_Some (value a))
  | Equals a v => bool_decide (value a = Some v)
  | Differs a v => bool_decide (value a <> Some v)
  | AtLeast a n => match value a with Some (AV_N m) => n <=? m | _ => false end
  | AtMost a n => match value a with Some (AV_N m) => m <=? n | _ => false end
  | And c d => holds c row && holds d row
  | Or c d => holds c row || holds d row
  end.

Definition row_absent : Condition := And (AttributeNotExists "pk") (AttributeNotExists "sk").
Definition row_present : Condition := And (AttributeExists "pk") (AttributeExists "sk").

(** ** Transactions *)

Inductive UpdateAction :=
| Set_ (a : string) (v : AttributeValue)
| SetIfNotExists (a : string) (v : AttributeValue)
| Add (a : string) (n : Z)
| Count (a : string) (initial increment : Z)
| Remove (a : string).

Inductive TransactWriteItem :=
| Put (k : Key) (item : Item) (c : option Condition)
| Update (k : Key) (actions : list UpdateAction) (c : Condition)
| Delete (k : Key) (c : Condition)
| ConditionCheck (k : Key) (c : Condition).

Definition tx_key (t : TransactWriteItem) : Key :=
  match t with Put k _ _ | Update k _ _ | Delete k _ | ConditionCheck k _ => k end.

Definition apply_action (item : Item) (a : UpdateAction) : Item :=
  match a with
  | Set_ a v => <[a := v]> item
  | SetIfNotExists a v => match item !! a with Some _ => item | None => <[a := v]> item end
  | Add a n => match item !! a with
               | Some (AV_N m) => <[a := AV_N (m + n)]> item
               | None => <[a := AV_N n]> item
               | Some _ => item
               end
  | Count a initial increment =>
      match item !! a with
      | Some (AV_N m) => <[a := AV_N (m + increment)]> item
      | None => <[a := AV_N (initial + increment)]> item
      | Some _ => item
      end
  | Remove a => delete a item
  end.

(** [ADD], and [+] after [if_not_exists], on an attribute that is not a number is
    an error. *)
Definition action_typed (item : Item) (a : UpdateAction) : bool :=
  match a with
  | Add a _ | Count a _ _ => match item !! a with Some (AV_N _) | None => true | Some _ => false end
  | _ => true
  end.

Definition tx_holds (s : Store) (t : TransactWriteItem) : bool :=
  match t with
  | Put k _ c => match c with Some c => holds c (get_item s k) | None => true end
  | Update k actions c =>
      holds c (get_item s k) && forallb (action_typed (default ∅ (s !! k))) actions
  | Delete k c | ConditionCheck k c => holds c (get_item s k)
  end.

Definition tx_write (s : Store) (t : TransactWriteItem) : Store :=
  match t with
  | Put k item _ => <[k := item]> s
  | Update k actions _ => <[k := foldl apply_action (default ∅ (s !! k)) actions]> s
  | Delete k _ => delete k s
  | ConditionCheck _ _ => s
  end.

Definition MAX_TRANSACTION_ACTIONS : nat := 100.

Definition tx_valid (l : list TransactWriteItem) : bool :=
  (length l <=? MAX_TRANSACTION_ACTIONS)%nat && bool_decide (NoDup (tx_key <$> l)).

Definition tx_runs (s : Store) (l : list TransactWriteItem) : bool :=
  tx_valid l && forallb (tx_holds s) l.

(** What becomes of a request. *)
Inductive Delivery := Delivered | ResponseLost | RequestLost.

Definition transact_write_items (d : Delivery) (l : list TransactWriteItem) (s : Store)
  : bool * Store :=
  match d with
  | RequestLost => (false, s)
  | _ => if tx_runs s l
         then (match d with Delivered => true | _ => false end, foldl tx_write s l)
         else (false, s)
  end.

(** ** Reading attributes *)

Definition extract_string (item : Item) (a : string) : option string :=
  match item !! a with Some (AV_S s) => Some s | _ => None end.

Definition extract_bool (item : Item) (a : string) : option bool :=
  match item !! a with Some (AV_BOOL b) => Some b | _ => None end.

Definition parse_i32 (s : string) : option Z :=
  match s with
  | String "-"%char s' => match s' with
                          | String "+"%char _ => None
                          | _ => Z.opp <$> parse_uint (i32_max + 1) s'
                          end
  | _ => parse_uint i32_max s
  end.

Definition extract_number (item : Item) (a : string) : option Z :=
  match item !! a with
  | Some (AV_N n) => if (i32_min <=? n) && (n <=? i32_max) then Some n else None
  | Some (AV_S s) => parse_i32 s
  | _ => None
  end.

(** ** Identity and fingerprints *)

Record CompletionIdentityView := mkIdentityView {
  iv_schema_version : Z;
  iv_game_id : Z;
  iv_partition_id : Z;
  iv_revision : Z;
  iv_ended_at_ms : Z;
  iv_server_id : Z;
  iv_season : option Z;
  iv_play_of_the_game : option ClipHeader;
  iv_final_state : GameState;
  iv_effects : list CompletionEffect
}.

Definition identity_of (r : CompletionRecordV1) : CompletionIdentityView :=
  {| iv_schema_version := cr_schema_version r; iv_game_id := cr_game_id r;
     iv_partition_id := cr_partition_id r; iv_revision := cr_revision r;
     iv_ended_at_ms := cr_ended_at_ms r; iv_server_id := cr_server_id r;
     iv_season := cr_season r; iv_play_of_the_game := cr_play_of_the_game r;
     iv_final_state := cr_final_state r; iv_effects := cr_effects r |}.

(** Metadata of a stored recording, with its canonical JSON. *)
Record ReplayObjectMetadata := mkReplayObject {
  ro_game_id : Z;
  ro_json : string;
  ro_valid : Result unit
}.

(** The canonical JSON of the two values that are fingerprinted, the JSON of the
    values that are stored, the display of a Uuid, which has always the same
    length, and of a time. *)
Class EffectEnv := {
  identity_json : CompletionIdentityView -> list Z;
  effect_json : CompletionIdentityView * CompletionEffect -> list Z;
  recording_json : GameRecordingV1 -> list Z;
  clip_json : ClipHeader -> string;
  state_json : GameState -> string;
  game_type_json : GameType -> string;
  summary_json : MatchHistorySummary -> string;
  uuid_display : Z -> string;
  uuid_display_inj a b :
    0 <= a < 2 ^ 128 -> 0 <= b < 2 ^ 128 -> uuid_display a = uuid_display b -> a = b;
  uuid_display_length a b : String.length (uuid_display a) = String.length (uuid_display b);
  rfc3339 : Z -> string;
  put_recording : option (Z -> list Z -> Result ReplayObjectMetadata)
}.

Definition fnv_step (hash byte : Z) : Z :=
  (Z.lxor hash byte * 0x0000000001000000000000000000013b) mod 2 ^ 128.

Definition hex_digit (n : Z) : string :=
  default "" (List.nth_error ["0"; "1"; "2"; "3"; "4"; "5"; "6"; "7"; "8"; "9"; "a"; "b"; "c"; "d";
                              "e"; "f"]%string (Z.to_nat n)).

Fixpoint hex_fixed (width : nat) (n : Z) : string :=
  match width with
  | O => ""
  | S width => hex_fixed width (n / 16) +:+ hex_digit (n mod 16)
  end.

Definition canonical_fingerprint (bytes : list Z) : string :=
  hex_fixed 32 (foldl fnv_step 0x6c62272e07bb014262b821756295c58d bytes).

(** [{n:0width}]. *)
Definition padded (width : nat) (n : Z) : string :=
  let s := display_uint n in
  String.string_of_list_ascii (replicate (width - String.length s) "0"%char) +:+ s.

Section effects.
Context {CE : CompletionEnv} {EE : EffectEnv}.

Definition completion_record_hash (r : CompletionRecordV1) : string :=
  canonical_fingerprint (identity_json (identity_of r)).

Definition completion_effect_hash (r : CompletionRecordV1) (e : CompletionEffect) : string :=
  canonical_fingerprint (effect_json (identity_of r, e)).

(** ** Keys *)

Definition game_row (r : CompletionRecordV1) (sk : string) : Key :=
  (MainTable, "GAME#" +:+ display_uint (cr_game_id r), sk).

Definition effect_row (r : CompletionRecordV1) (id : string) : Key :=
  game_row r ("EFFECT#" +:+ uuid_display (cr_revision r) +:+ "#" +:+ id).

Definition user_row (u : Z) (sk : string) : Key := (MainTable, "USER#" +:+ display_uint u, sk).

Definition revision_value (r : CompletionRecordV1) : AttributeValue :=
  AV_S (uuid_display (cr_revision r)).

(** ** Fences *)

Definition completion_revision_anchor (r : CompletionRecordV1) (record_hash : string)
  : TransactWriteItem :=
  Put (game_row r "COMPLETION")
    (list_to_map [("gameId", AV_N (cr_game_id r)); ("completionRevision", revision_value r);
                  ("completionHash", AV_S record_hash);
                  ("schemaVersion", AV_N (cr_schema_version r));
                  ("endedAtMs", AV_N (cr_ended_at_ms r))])
    (Some (Or (AttributeNotExists "pk")
              (And (Equals "completionRevision" (revision_value r))
                   (Equals "completionHash" (AV_S record_hash))))).

Definition game_completion_revision_guard (r : CompletionRecordV1) : TransactWriteItem :=
  ConditionCheck (game_row r "META")
    (Or (AttributeNotExists "completionRevision")
        (Equals "completionRevision" (revision_value r))).

Definition completion_effect_dependency_guard (r : CompletionRecordV1) (dependency_id : string)
  : Result TransactWriteItem :=
  dependency ← context "completion is missing dependency effect" (find_effect r dependency_id);
  Ok (ConditionCheck (effect_row r dependency_id)
        (Equals "effectHash" (AV_S (completion_effect_hash r dependency)))).

Definition completion_effect_marker (r : CompletionRecordV1) (e : CompletionEffect)
    (effect_hash : string) : TransactWriteItem :=
  Put (effect_row r (effect_id e))
    (list_to_map [("gameId", AV_N (cr_game_id r)); ("completionRevision", revision_value r);
                  ("effectId", AV_S (effect_id e)); ("effectHash", AV_S effect_hash);
                  ("appliedAtMs", AV_N (cr_ended_at_ms r))])
    (Some row_absent).

Definition completion_effect_marker_hash (r : CompletionRecordV1) (e : CompletionEffect) (s : Store)
  : option string :=
  get_item s (effect_row r (effect_id e)) ≫= fun item => extract_string item "effectHash".

Definition completion_anchor_identity (r : CompletionRecordV1) (s : Store)
  : option (string * string) :=
  item ← get_item s (game_row r "COMPLETION");
  revision ← extract_string item "completionRevision";
  hash ← extract_string item "completionHash";
  Some (revision, hash).

(** ** Experience and ratings *)

(** The current name, whether the user is a guest, and whether the usernames
    table mirrors its progress. *)
Definition completion_user_target (s : Store) (u : Z) : Result (string * bool * bool) :=
  item ← context "user disappeared before completion effect" (get_item s (user_row u "META"));
  username ← context "user has no username" (extract_string item "username");
  let is_guest := default false (extract_bool item "isGuest") in
  let uses_username_mirror :=
    negb is_guest && negb (bool_decide (extract_string item "authProvider" = Some "crazygames")) in
  Ok (username, is_guest, uses_username_mirror).

Definition progress_mutations (s : Store) (u : Z) (field : string) (delta : Z)
  : Result (list TransactWriteItem) :=
  '(current_username, is_guest, uses_username_mirror) ← completion_user_target s u;
  let main_update :=
    Update (user_row u "META") [Add field delta]
      (And row_present (And (Equals "username" (AV_S current_username))
                            (Equals "isGuest" (AV_BOOL is_guest)))) in
  let mirror_update :=
    Update (UsernamesTable, current_username, "") [Add field delta]
      (And (AttributeExists "username") (Equals "userId" (AV_N u))) in
  Ok (main_update :: if uses_username_mirror : bool then [mirror_update] else []).

Definition mmr_field (q : QueueMode) : string :=
  match q with Competitive => "rankedMmr" | Quickmatch => "casualMmr" end.

(** ** Rankings *)

(** What the effect reads of an entry. *)
Record RankingEntry := mkRankingEntry {
  re_user_id : Z;
  re_mmr : Z;
  re_games_played : Z;
  re_wins : Z;
  re_losses : Z
}.

Definition game_type_to_string (g : GameType) : string :=
  match g with
  | Solo => "solo"
  | TeamMatch 1 => "duel"
  | TeamMatch 2 => "2v2"
  | TeamMatch per_team => "team-" +:+ display_uint per_team
  | FreeForAll _ => "ffa"
  | Custom _ => "custom"
  end.

Definition queue_name (q : QueueMode) : string :=
  match q with Competitive => "ranked" | Quickmatch => "casual" end.

Definition ranking_pk (q : QueueMode) (g : GameType) (region : string) (season : Z) : string :=
  "RANKING#" +:+ queue_name q +:+ "#" +:+ game_type_to_string g +:+ "#" +:+ region +:+ "#"
  +:+ display_uint season.

Definition ranking_pointer_sk (user_id : Z) : string := "USER#" +:+ display_int user_id.

Definition user_ranking_from_item (item : Item) (user_id : Z) : option RankingEntry :=
  if bool_decide (extract_number item "userId" = Some user_id) then
    Some {| re_user_id := user_id;
            re_mmr := default 1000 (extract_number item "mmr");
            re_games_played := default 0 (extract_number item "gamesPlayed");
            re_wins := default 0 (extract_number item "wins");
            re_losses := default 0 (extract_number item "losses") |}
  else None.

Definition sort_key_le (a b : string * Item) : Prop := String.leb a.1 b.1 = true.
#[local] Instance sort_key_le_dec a b : Decision (sort_key_le a b).
Proof. unfold sort_key_le. apply _. Defined.

(** The rows of a ladder in the order of a query. *)
Definition ladder_rows (s : Store) (pk : string) : list Item :=
  snd <$> merge_sort sort_key_le
    (omap (fun e => match e.1 with
                    | (RankingsTable, pk', sk) =>
                        if bool_decide (pk' = pk) && String.prefix "MMR#" sk
                        then Some (sk, e.2) else None
                    | _ => None
                    end) (map_to_list s)).

(** [backfill_ranking_pointer]: a pointer is never overwritten, and a write that
    fails is ignored. *)
Definition backfill_ranking_pointer (delivered : bool) (pk : string) (user_id : Z) (item : Item)
    (s : Store) : Store :=
  let k := (RankingsTable, pk, ranking_pointer_sk user_id) in
  match s !! k with Some _ => s | None => if delivered then <[k := item]> s else s end.

Definition absent_ranking_pointer (now : string) : Item :=
  list_to_map [("absent", AV_BOOL true); ("updatedAt", AV_S now)].

(** The filter of the query and the test on its rows. *)
Definition is_row_of (user_id : Z) (item : Item) : bool :=
  bool_decide (item !! "userId" = Some (AV_N user_id)
               \/ item !! "userId" = Some (AV_S (display_int user_id)))
  && bool_decide (extract_number item "userId" = Some user_id).

(** The pointer of the user, or a scan of the ladder that leaves a pointer. The
    scan and the write are in one step here; a writer in between finds the
    condition of the write. *)
Definition get_user_ranking (delivered : bool) (s : Store) (now pk : string) (user_id : Z)
  : option RankingEntry * Store :=
  match get_item s (RankingsTable, pk, ranking_pointer_sk user_id) with
  | Some item =>
      (if bool_decide (extract_bool item "absent" = Some true) then None
       else user_ranking_from_item item user_id, s)
  | None =>
      match List.find (is_row_of user_id) (ladder_rows s pk) with
      | Some item =>
          (user_ranking_from_item item user_id,
           backfill_ranking_pointer delivered pk user_id item s)
      | None =>
          (None, backfill_ranking_pointer delivered pk user_id (absent_ranking_pointer now) s)
      end
  end.

Definition ladder_sk (mmr user_id : Z) : string :=
  "MMR#" +:+ padded 8 (99999999 - Z.max 0 (Z.min 99999999 mmr)) +:+ "#USER#" +:+ display_uint user_id.

Definition entry_unchanged (u : Z) (entry : RankingEntry) : Condition :=
  And (Equals "userId" (AV_N u))
    (And (Equals "mmr" (AV_N (re_mmr entry)))
       (And (Equals "gamesPlayed" (AV_N (re_games_played entry)))
          (And (Equals "wins" (AV_N (re_wins entry))) (Equals "losses" (AV_N (re_losses entry)))))).

Definition bool_int (b : bool) : Z := if b then 1 else 0.

(** The mmr the user has at the time of the read. *)
Definition current_mmr (s : Store) (u : Z) (q : QueueMode) : Result Z :=
  user_item ← context "user disappeared before ranking effect" (get_item s (user_row u "META"));
  Ok (default 1000 (extract_number user_item (mmr_field q))).

Definition ranking_mutations (r : CompletionRecordV1) (u : Z) (username : string) (q : QueueMode)
    (g : GameType) (region : string) (season : Z) (won : bool) (mmr : Z)
    (mmr_effect_guard : TransactWriteItem) (existing : option RankingEntry)
  : Result (list TransactWriteItem) :=
  let user_mmr_guard := ConditionCheck (user_row u "META") (Equals (mmr_field q) (AV_N mmr)) in
  let pk := ranking_pk q g region season in
  let new_sk := ladder_sk mmr u in
  let '(games, wins, losses) :=
    match existing with
    | None => (1, bool_int won, bool_int (negb won))
    | Some entry => (re_games_played entry + 1, re_wins entry + bool_int won,
                     re_losses entry + bool_int (negb won))
    end in
  context "invalid completion timestamp" (utc_date (cr_ended_at_ms r)) ≫= fun _ =>
  let now := rfc3339 (cr_ended_at_ms r) in
  let pointer : Item := list_to_map
    [("userId", AV_N u); ("username", AV_S username); ("mmr", AV_N mmr);
     ("gamesPlayed", AV_N games); ("wins", AV_N wins); ("losses", AV_N losses);
     ("region", AV_S region); ("queueMode", AV_S (queue_name q));
     ("gameType", AV_S (game_type_to_string g)); ("season", AV_N season);
     ("updatedAt", AV_S now)] in
  let item := <["gameTypeSeason" := AV_S (queue_name q +:+ "#" +:+ game_type_to_string g +:+ "#"
                                          +:+ display_uint season)]> pointer in
  let ladder :=
    match existing with
    | None => [Put (RankingsTable, pk, new_sk) item (Some row_absent)]
    | Some entry =>
        let old_sk := ladder_sk (re_mmr entry) u in
        if bool_decide (old_sk = new_sk) then
          [Update (RankingsTable, pk, new_sk)
             [Set_ "username" (AV_S username); Set_ "mmr" (AV_N mmr); Set_ "gamesPlayed" (AV_N games);
              Set_ "wins" (AV_N wins); Set_ "losses" (AV_N losses); Set_ "updatedAt" (AV_S now)]
             (entry_unchanged u entry)]
        else [Delete (RankingsTable, pk, old_sk) (entry_unchanged u entry);
              Put (RankingsTable, pk, new_sk) item (Some row_absent)]
    end in
  Ok (user_mmr_guard :: mmr_effect_guard :: ladder
        ++ [Put (RankingsTable, pk, ranking_pointer_sk (wrap_i32 u)) pointer None]).

(** ** High scores *)

Definition completed_game_item_is_news_eligible (row : option Item) : bool :=
  match row with
  | Some item =>
      bool_decide (extract_bool item "newsEligible" = Some true)
      && bool_decide (extract_bool item "isPrivate" = Some false)
      && bool_decide (extract_string item "gameCode" = None)
      && bool_decide (extract_string item "status" = Some "complete")
  | None => false
  end.

Definition high_score_mutations (r : CompletionRecordV1) (u : Z) (username : string) (score : Z)
    (g : GameType) (region : string) (season : Z) (news_eligible : bool)
  : Result (list TransactWriteItem) :=
  let name := game_type_to_string g in
  let pk := "SCORE#" +:+ name +:+ "#" +:+ display_uint season +:+ "#" +:+ region in
  let sk := "SCORE#" +:+ padded 8 (Z.max 0 (99999999 - score)) +:+ "#GAME#"
            +:+ display_uint (cr_game_id r) +:+ "#USER#" +:+ display_uint u in
  context "invalid completion timestamp" (utc_date (cr_ended_at_ms r)) ≫= fun _ =>
  Ok [Put (HighScoresTable, pk, sk)
        (list_to_map
           [("gameId", AV_S (display_uint (cr_game_id r))); ("userId", AV_S (display_uint u));
            ("username", AV_S username); ("score", AV_N score); ("region", AV_S region);
            ("gameType", AV_S name); ("season", AV_N season);
            ("gameTypeSeason", AV_S (name +:+ "#" +:+ display_uint season));
            ("timestamp", AV_S (rfc3339 (cr_ended_at_ms r)));
            ("completionRevision", revision_value r); ("newsEligible", AV_BOOL news_eligible)])
        (Some row_absent)].

(** ** The game itself *)

Definition MAX_DYNAMODB_REPLAY_METADATA_BYTES : Z := 8 * 1024.
Definition MAX_DYNAMODB_HIGHLIGHT_BYTES : Z := 256 * 1024.
Definition MAX_DYNAMODB_STATE_AND_HIGHLIGHT_BYTES : Z := 200 * 1024.

Record PersistableReplayArtifacts := mkArtifacts {
  pa_replay_object_json : option string;
  pa_play_of_the_game_json : option string;
  pa_split_play_of_the_game_json : option string
}.

Definition string_len (s : string) : Z := Z.of_nat (String.length s).

Definition stored_recording (r : CompletionRecordV1) (recording : GameRecordingV1)
  : Result ReplayObjectMetadata :=
  put ← context "completion contains a replay recording, but the bucket is not configured"
          put_recording;
  let recording_bytes := default (recording_json recording) (cr_recording_canonical_bytes r) in
  metadata ← put (cr_game_id r) recording_bytes;
  ro_valid metadata ;;
  ensure (ro_game_id metadata =? cr_game_id r) "replay store returned metadata for another game" ;;
  Ok metadata.

Definition prepare_replay_artifacts (r : CompletionRecordV1) : Result PersistableReplayArtifacts :=
  ensure (negb (is_some (cr_recording_journal r)))
    "PersistGame received an unmaterialized replay journal reference" ;;
  replay_object_json ←
    match cr_recording r with
    | Some recording =>
        metadata ← stored_recording r recording;
        ensure (string_len (ro_json metadata) <=? MAX_DYNAMODB_REPLAY_METADATA_BYTES)
          "replay metadata exceeds the byte DynamoDB limit" ;;
        Ok (Some (ro_json metadata))
    | None => Ok None
    end;
  let final_state_bytes := string_len (state_json (cr_final_state r)) in
  let '(inline, split) :=
    match cr_play_of_the_game r with
    | Some clip =>
        let json := clip_json clip in
        if MAX_DYNAMODB_HIGHLIGHT_BYTES <? string_len json then (None, None)
        else if MAX_DYNAMODB_STATE_AND_HIGHLIGHT_BYTES <? final_state_bytes + string_len json
        then (None, Some json) else (Some json, None)
    | None => (None, None)
    end in
  Ok (mkArtifacts replay_object_json inline split).

Record RuntimeHistoryConfig := mkHistoryConfig {
  snapshot_retention_days : Z;
  summary_retention_days : Z
}.

Definition RuntimeHistoryConfig_default : RuntimeHistoryConfig := mkHistoryConfig 30 365.

Definition SECONDS_PER_DAY : Z := 24 * 60 * 60.

Definition retention_ttl_seconds (ended_at_ms retention_days : Z) : Result Z :=
  ensure (negb (ended_at_ms <? 0))
    "Retention timestamps must be non-negative epoch milliseconds" ;;
  let expiry_ms := sat_i64 (ended_at_ms + sat_i64 (retention_days * (SECONDS_PER_DAY * 1000))) in
  Ok (sat_i64 (expiry_ms + 999) / 1000).

Definition history_sort_key (ended_at_ms game_id : Z) : Result string :=
  ensure (0 <=? ended_at_ms)
    "Match history timestamps must be non-negative epoch milliseconds" ;;
  Ok ("HISTORY#" +:+ padded 20 ended_at_ms +:+ "#GAME#" +:+ padded 10 game_id).

Definition runtime_game_identity (game_id : Z) (st : GameState) : string :=
  display_int game_id +:+ ":" +:+ display_int (gs_start_ms st).

Definition new_game_state_is_news_eligible (st : GameState) : bool :=
  negb (gs_is_stress_test st) && negb (is_some (gs_game_code st))
  && negb match gs_game_type st with Custom _ => true | _ => false end.

Definition source_game_item_is_news_eligible (row : option Item) (new_game_fallback : bool) : bool :=
  match row with
  | None => new_game_fallback
  | Some item =>
      let open := bool_decide (extract_bool item "isPrivate" = Some false)
                  && bool_decide (extract_string item "gameCode" = None) in
      if bool_decide (extract_string item "status" = Some "complete")
      then bool_decide (extract_bool item "newsEligible" = Some true) && open else open
  end.

Definition set_opt (a : string) (v : option AttributeValue) : list UpdateAction :=
  match v with Some v => [Set_ a v] | None => [] end.

Definition remove_unless (a : string) (v : option string) : list UpdateAction :=
  match v with Some _ => [] | None => [Remove a] end.

Definition completed_game_update (r : CompletionRecordV1) (art : PersistableReplayArtifacts)
    (news_eligible : bool) (created snapshot_ttl : Z) : TransactWriteItem :=
  let st := cr_final_state r in
  let ended := AV_S (rfc3339 (cr_ended_at_ms r)) in
  let id := AV_N (cr_game_id r) in
  let runtime := AV_S (runtime_game_identity (wrap_i32 (cr_game_id r)) st) in
  let complete := AV_S "complete" in
  Update (game_row r "META")
    ([Set_ "gsi1pk" (AV_S "GAME");
      Set_ "gsi1sk" (AV_S ("complete#" +:+ rfc3339 (cr_ended_at_ms r))); Set_ "id" id;
      Set_ "serverId" (AV_N (cr_server_id r));
      Set_ "gameType" (AV_S (game_type_json (gs_game_type st)));
      Set_ "gameState" (AV_S (state_json st)); Set_ "status" complete;
      Set_ "endedAt" ended; Set_ "lastActivity" ended; Set_ "createdAt" (AV_S (rfc3339 created));
      Set_ "gameMode" (AV_S match gs_game_type st with
                            | Custom _ => "custom" | _ => "matchmaking" end);
      SetIfNotExists "isPrivate" (AV_BOOL (is_some (gs_game_code st)));
      Set_ "runtimeIdentity" runtime; Set_ "completionRevision" (revision_value r);
      Set_ "newsEligible" (AV_BOOL news_eligible); Set_ "ttl" (AV_N snapshot_ttl)]
     ++ set_opt "gameCode" (AV_S <$> gs_game_code st) ++ set_opt "season" (AV_N <$> cr_season r)
     ++ set_opt "replayObject" (AV_S <$> pa_replay_object_json art)
     ++ set_opt "playOfTheGame" (AV_S <$> pa_play_of_the_game_json art)
     ++ set_opt "playOfTheGameSplit" ((fun _ => AV_BOOL true) <$> pa_split_play_of_the_game_json art)
     ++ remove_unless "replayObject" (pa_replay_object_json art)
     ++ remove_unless "playOfTheGame" (pa_play_of_the_game_json art)
     ++ remove_unless "playOfTheGameSplit" (pa_split_play_of_the_game_json art))
    (Or (AttributeNotExists "pk")
       (Or (Equals "completionRevision" (revision_value r))
          (And (AttributeNotExists "completionRevision")
             (Or (Equals "runtimeIdentity" runtime)
                (And (AttributeNotExists "runtimeIdentity")
                   (And (AttributeNotExists "gameState")
                      (And (Equals "id" id) (Differs "status" complete)))))))).

Definition history_row (r : CompletionRecordV1) (summary : string) (more : list (string * AttributeValue))
  : Item :=
  list_to_map ([("gameId", AV_N (cr_game_id r)); ("endedAtMs", AV_N (cr_ended_at_ms r));
                ("summaryJson", AV_S summary); ("completionRevision", revision_value r)] ++ more).

Definition persist_mutations (r : CompletionRecordV1) (art : PersistableReplayArtifacts)
    (config : RuntimeHistoryConfig) (news_eligible : bool) : Result (list TransactWriteItem) :=
  let st := cr_final_state r in
  context "invalid completion timestamp" (utc_date (cr_ended_at_ms r)) ≫= fun _ =>
  let created := match utc_date (gs_start_ms st) with
                 | Some _ => gs_start_ms st
                 | None => cr_ended_at_ms r
                 end in
  snapshot_ttl ← retention_ttl_seconds (cr_ended_at_ms r) (snapshot_retention_days config);
  summary_ttl ← retention_ttl_seconds (cr_ended_at_ms r) (summary_retention_days config);
  summary ← match_history_summary r (snapshot_retention_days config);
  let json := summary_json summary in
  history_sk ← history_sort_key (cr_ended_at_ms r) (cr_game_id r);
  let split_highlight :=
    match pa_split_play_of_the_game_json art with
    | Some clip =>
        [Put (game_row r "HIGHLIGHT")
           (list_to_map [("gameId", AV_N (cr_game_id r)); ("playOfTheGame", AV_S clip);
                         ("completionRevision", revision_value r); ("ttl", AV_N snapshot_ttl)])
           (Some (Or (AttributeNotExists "pk") (Equals "completionRevision" (revision_value r))))]
    | None => []
    end in
  let canonical_history :=
    Put (game_row r "HISTORY")
      (history_row r json [("gsi2pk", AV_S "MATCH_HISTORY"); ("gsi2sk", AV_S history_sk)])
      (Some row_absent) in
  let user_history :=
    if gs_is_stress_test st then []
    else (fun p => Put (user_row (hp_user_id p) history_sk)
                     (history_row r json [("ttl", AV_N summary_ttl)]) (Some row_absent))
           <$> hs_players summary in
  let games_played :=
    (fun u => Update (user_row u "META") [Add "gamesPlayed" 1] row_present)
      <$> (map_to_list (gs_players st)).*1 in
  Ok (completed_game_update r art news_eligible created snapshot_ttl
        :: split_highlight ++ [canonical_history] ++ user_history ++ games_played).

(** ** One effect *)

(** What one attempt meets: what the store becomes before and after its reads,
    before its transaction and before the two reads that classify a failure;
    which of the reads, and the write of a pointer, succeed; the fate of the
    transaction. *)
Record Attempt := mkAttempt {
  at_config : option RuntimeHistoryConfig;
  at_news_readable : bool;
  at_readable : bool;
  at_ranking_readable : bool;
  at_backfill_delivered : bool;
  at_marker_readable : bool;
  at_anchor_readable : bool;
  at_now : string;
  at_before : Store -> Store;
  at_between : Store -> Store;
  at_send : Store -> Store;
  at_marker : Store -> Store;
  at_anchor : Store -> Store;
  at_delivery : Delivery
}.

Definition effect_mutations (r : CompletionRecordV1) (e : CompletionEffect)
    (art : PersistableReplayArtifacts) (a : Attempt) (s : Store)
  : Result (list TransactWriteItem) * Store :=
  let game := get_item s (game_row r "META") in
  match e with
  | PersistGame _ =>
      let fallback := new_game_state_is_news_eligible (cr_final_state r) in
      let news_eligible := at_news_readable a && source_game_item_is_news_eligible game fallback in
      (persist_mutations r art (default RuntimeHistoryConfig_default (at_config a)) news_eligible, s)
  | AddXp _ u _ amount =>
      (ensure (at_readable a) "Failed to read completion effect user" ;;
       progress_mutations s u "xp" amount, s)
  | AddMmr _ u _ delta q =>
      (ensure (at_readable a) "Failed to read completion effect user" ;;
       progress_mutations s u (mmr_field q) delta, s)
  | UpdateRanking _ u username q g region season won =>
      match (ensure (at_readable a) "Failed to strongly read MMR for ranking effect" ;;
             mmr ← current_mmr s u q;
             guard ← completion_effect_dependency_guard r ("mmr:" +:+ display_uint u);
             Ok (mmr, guard)) with
      | Ok (mmr, guard) =>
          let s := at_between a s in
          if negb (at_ranking_readable a) then (Err "Failed to query rankings", s)
          else
            let '(existing, s) :=
              get_user_ranking (at_backfill_delivered a) s (at_now a) (ranking_pk q g region season)
                (wrap_i32 u) in
            (ranking_mutations r u username q g region season won mmr guard existing, s)
      | error => (recast error, s)
      end
  | InsertHighScore _ u username score g region season =>
      let news_eligible := at_news_readable a && completed_game_item_is_news_eligible game in
      (high_score_mutations r u username score g region season news_eligible, s)
  end.

(** The fences in front of the mutations of an effect. *)
Definition fenced (r : CompletionRecordV1) (e : CompletionEffect) (mutations : list TransactWriteItem)
  : Result (list TransactWriteItem) :=
  let marker := completion_effect_marker r e (completion_effect_hash r e) in
  let anchor := completion_revision_anchor r (completion_record_hash r) in
  match e with
  | InsertHighScore _ _ _ _ _ _ _ =>
      game_guard ← completion_effect_dependency_guard r "game";
      Ok (marker :: anchor :: game_completion_revision_guard r :: game_guard :: mutations)
  | _ => Ok (marker :: anchor :: mutations)
  end.

(** What a failed transaction means. *)
Definition classify_failure (r : CompletionRecordV1) (e : CompletionEffect) (a : Attempt) (s : Store)
  : Result EffectApplyResult * Store :=
  let s := at_marker a s in
  if negb (at_marker_readable a) then (Err "Failed to read completion effect marker", s)
  else
    match completion_effect_marker_hash r e s with
    | Some existing =>
        if bool_decide (existing = completion_effect_hash r e) then (Ok AlreadyApplied, s)
        else (Err "completion effect reused revision with a different payload", s)
    | None =>
        let s := at_anchor a s in
        if negb (at_anchor_readable a)
        then (Err "Failed to read immutable completion revision anchor", s)
        else
          match completion_anchor_identity r s with
          | Some (revision, hash) =>
              if bool_decide (revision <> uuid_display (cr_revision r)
                              \/ hash <> completion_record_hash r)
              then (Err "game already has immutable completion revision", s)
              else (Err "Failed to atomically apply completion effect", s)
          | None => (Err "Failed to atomically apply completion effect", s)
          end
    end.

Definition transact_completion_effect (r : CompletionRecordV1) (e : CompletionEffect) (a : Attempt)
    (mutations : list TransactWriteItem) (s : Store) : Result EffectApplyResult * Store :=
  match fenced r e mutations with
  | Ok l =>
      let '(ok, s) := transact_write_items (at_delivery a) l (at_send a s) in
      if ok : bool then (Ok Applied, s) else classify_failure r e a s
  | error => (recast error, s)
  end.

Definition COMPLETION_RANKING_MAX_ATTEMPTS : nat := 16.

(** The loop, with the attempts that are left and the number of the next one. *)
Fixpoint effect_attempts (remaining : nat) (r : CompletionRecordV1) (e : CompletionEffect)
    (art : PersistableReplayArtifacts) (inputs : nat -> Attempt) (attempt : nat) (s : Store)
  : Result EffectApplyResult * Store :=
  match remaining with
  | O => (Panic "completion effect attempt loop always returns", s)
  | S remaining =>
      let a := inputs attempt in
      match effect_mutations r e art a (at_before a s) with
      | (Ok mutations, s) =>
          match transact_completion_effect r e a mutations s with
          | (Err error, s) =>
              match remaining with
              | O => (Err error, s)
              | _ => effect_attempts remaining r e art inputs (S attempt) s
              end
          | result => result
          end
      | (error, s) => (recast error, s)
      end
  end.

Definition max_attempts (e : CompletionEffect) : nat :=
  match e with
  | AddXp _ _ _ _ | AddMmr _ _ _ _ _ | UpdateRanking _ _ _ _ _ _ _ _ =>
      COMPLETION_RANKING_MAX_ATTEMPTS
  | _ => 1
  end.

Definition no_artifacts : PersistableReplayArtifacts := mkArtifacts None None None.

Definition apply_completion_effect (r : CompletionRecordV1) (e : CompletionEffect)
    (inputs : nat -> Attempt) (s : Store) : Result EffectApplyResult * Store :=
  match (validate_effect r e ;;
         if is_persist e then prepare_replay_artifacts r else Ok no_artifacts) with
  | Ok art => effect_attempts (max_attempts e) r e art inputs 0 s
  | error => (recast error, s)
  end.

(** ** All effects of a record

    One record of [drain_pending_completions]: the effects already done are
    skipped, each of the others is applied and marked done, and the first
    failure leaves the rest for the next drain. The recording of a journal is
    read back for the game itself only. *)
Fixpoint drain_effects (r : CompletionRecordV1) (materialize : Result CompletionRecordV1)
    (mark_done : string -> Result unit) (inputs : string -> nat -> Attempt)
    (l : list CompletionEffect) (effects_done : gset string) (s : Store)
  : Result unit * (gset string * Store) :=
  match l with
  | [] => (Ok tt, (effects_done, s))
  | e :: l =>
      if bool_decide (effect_id e ∈ effects_done)
      then drain_effects r materialize mark_done inputs l effects_done s
      else
        let effect_record :=
          if is_some (cr_recording_journal r) && is_persist e then materialize else Ok r in
        match effect_record with
        | Ok effect_record =>
            match apply_completion_effect effect_record e (inputs (effect_id e)) s with
            | (Ok _, s) =>
                match mark_done (effect_id e) with
                | Ok _ => drain_effects r materialize mark_done inputs l
                            ({[effect_id e]} ∪ effects_done) s
                | error => (recast error, (effects_done, s))
                end
            | (error, s) => (recast error, (effects_done, s))
            end
        | error => (recast error, (effects_done, s))
        end
  end.
End effects.
