(* ===== verification/EffectLedger.v ===== *)
(** * The ledger of applied effects

    What the transactions of [EffectStore] do to the rows they share: a step
    relation on the store and on the list of the transactions executed so far,
    its invariant, and that a call of the code is a sequence of such steps. *)

From Stdlib Require Import ZArith Lia.
From stdpp Require Import prelude strings pretty countable list gmap sorting relations.
From S2P Require Import Prelude RustFloat Util Snake Arena CommandQueue GameState GameSetup.
From S2P Require Import Recording StreamId Rating Completion EffectStore.
Open Scope Z_scope.

(** ** Transactions *)

Definition writes (t : TransactWriteItem) : option Key :=
  match t with ConditionCheck _ _ => None | _ => Some (tx_key t) end.

Lemma tx_write_other s t k : writes t <> Some k -> tx_write s t !! k = s !! k.
Proof.
  destruct t as [k' ? ?|k' ? ?|k' ?|k' ?]; cbn; intros H; [..|done].
  - apply lookup_insert_ne. congruence.
  - apply lookup_insert_ne. congruence.
  - apply lookup_delete_ne. congruence.
Qed.

Lemma tx_writes_other l s k :
  Forall (fun t => writes t <> Some k) l -> foldl tx_write s l !! k = s !! k.
Proof.
  intros H. revert s. induction H as [|t l Ht _ IH]; intros s; cbn; [done|].
  by rewrite IH, tx_write_other.
Qed.

Lemma tx_write_local s s' t :
  s !! tx_key t = s' !! tx_key t -> tx_write s t !! tx_key t = tx_write s' t !! tx_key t.
Proof.
  destruct t; cbn; intros H; rewrite ?lookup_insert_eq, ?lookup_delete_eq, ?H; done.
Qed.

Lemma tx_holds_local s s' t :
  s !! tx_key t = s' !! tx_key t -> tx_holds s t = tx_holds s' t.
Proof. unfold tx_holds, get_item. destruct t as [? ? []|? ? ?|? ?|? ?]; cbn; intros H; rewrite ?H; done. Qed.

Lemma key_writes t k : tx_key t <> k -> writes t <> Some k.
Proof. destruct t; cbn; congruence. Qed.

Lemma tx_writes_once l s t :
  NoDup (tx_key <$> l) -> t ∈ l -> foldl tx_write s l !! tx_key t = tx_write s t !! tx_key t.
Proof.
  revert s. induction l as [|a l IH]; intros s Hn Hin; [by apply not_elem_of_nil in Hin|].
  cbn in Hn. apply NoDup_cons in Hn as [Ha Hn]. cbn. apply elem_of_cons in Hin as [->|Hin].
  - apply tx_writes_other, Forall_forall. intros b Hb. apply key_writes. intros E.
    apply Ha. rewrite <-E. by apply list_elem_of_fmap_2.
  - rewrite (IH _ Hn Hin). apply tx_write_local, tx_write_other, key_writes. intros E.
    apply Ha. rewrite E. by apply list_elem_of_fmap_2.
Qed.

Lemma tx_runs_inv s l :
  tx_runs s l = true -> NoDup (tx_key <$> l) /\ Forall (fun t => tx_holds s t = true) l.
Proof.
  unfold tx_runs, tx_valid. rewrite !andb_true_iff, bool_decide_eq_true, forallb_forall.
  intros [[_ Hn] Hh]. split; [done|]. apply Forall_forall. intros t Ht. by apply Hh, list_elem_of_In.
Qed.

(** ** Keys *)

(** The rows of markers and of anchors. *)
Definition fence_row (k : Key) : bool :=
  match k with
  | (MainTable, _, sk) => String.eqb sk "COMPLETION" || String.prefix "EFFECT#" sk
  | _ => false
  end.

Lemma user_row_inj u v sk : 0 <= u -> 0 <= v -> user_row u sk = user_row v sk -> u = v.
Proof.
  unfold user_row. intros Hu Hv [= H]. by apply display_uint_inj.
Qed.

Lemma app_inj_length (a b c d : string) :
  String.length a = String.length b -> a +:+ c = b +:+ d -> a = b /\ c = d.
Proof.
  revert b. induction a as [|x a IH]; intros [|y b] Hl H; try discriminate; [done|].
  injection Hl as Hl. change (String x (a +:+ c) = String y (b +:+ d)) in H.
  injection H as -> H. apply (IH _ Hl) in H as [-> ->]. done.
Qed.

Section ledger.
Context {CE : CompletionEnv} {EE : EffectEnv}.

Definition entry : Type := CompletionRecordV1 * CompletionEffect.

Definition marker_key (x : entry) : Key := effect_row x.1 (effect_id x.2).

Definition identity_key (x : entry) : Z * Z * string :=
  (cr_game_id x.1, cr_revision x.1, effect_id x.2).

Lemma effect_row_inj r r' id id' :
  0 <= cr_game_id r -> 0 <= cr_game_id r' -> 0 <= cr_revision r < 2 ^ 128 ->
  0 <= cr_revision r' < 2 ^ 128 -> effect_row r id = effect_row r' id' ->
  cr_game_id r = cr_game_id r' /\ cr_revision r = cr_revision r' /\ id = id'.
Proof.
  unfold effect_row, game_row. intros H H' Hv Hv' E.
  injection E as Hg Hs. apply display_uint_inj in Hg; [|done..]. split; [done|].
  change (uuid_display (cr_revision r) +:+ ("#" +:+ id)
          = uuid_display (cr_revision r') +:+ ("#" +:+ id')) in Hs.
  apply app_inj_length in Hs as [Hr Hi]; [|apply uuid_display_length].
  apply uuid_display_inj in Hr; [|done..]. injection Hi as Hi. done.
Qed.

Lemma game_row_inj r r' sk :
  0 <= cr_game_id r -> 0 <= cr_game_id r' -> game_row r sk = game_row r' sk ->
  cr_game_id r = cr_game_id r'.
Proof. unfold game_row. intros H H' [= E]. by apply display_uint_inj. Qed.

Lemma effect_row_prefix r id : String.prefix "EFFECT#" (effect_row r id).2 = true.
Proof.
  assert (prefix_nil : forall x, String.prefix "" x = true) by by intros [].
  exact (prefix_nil _).
Qed.

Lemma effect_row_fence r id : fence_row (effect_row r id) = true.
Proof. exact (effect_row_prefix r id). Qed.

Lemma effect_row_not_anchor r r' id : effect_row r id <> game_row r' "COMPLETION".
Proof. unfold effect_row, game_row. by intros [= _ H]. Qed.

(** ** What an effect writes *)

(** The user's row is only added to, the markers and anchors are left alone. *)
Definition plain (u : Z) (t : TransactWriteItem) : Prop :=
  match writes t with
  | Some k => fence_row k = false
              /\ (k = user_row u "META" -> exists a d c, t = Update k [Add a d] c)
  | None => True
  end.

Definition gain (u : Z) (f : string) (t : TransactWriteItem) : Z :=
  match t with
  | Update k [Add a d] _ => if bool_decide (k = user_row u "META" /\ a = f) then d else 0
  | _ => 0
  end.

Definition total {A} (g : A -> Z) (l : list A) : Z := foldr Z.add 0 (g <$> l).

Lemma total_app {A} (g : A -> Z) l l' : total g (l ++ l') = total g l + total g l'.
Proof. unfold total. rewrite fmap_app. induction (g <$> l) as [|x m IH]; cbn; lia. Qed.

Lemma total_cons {A} (g : A -> Z) x l : total g (x :: l) = g x + total g l.
Proof. done. Qed.

Lemma total_none {A} (g : A -> Z) l : Forall (fun x => g x = 0) l -> total g l = 0.
Proof. induction 1 as [|x l Hx _ IH]; [done|]. rewrite total_cons, Hx, IH. done. Qed.

(** A counter of a user: [ADD] starts from zero. *)
Definition counter (s : Store) (u : Z) (f : string) : Z :=
  match s !! user_row u "META" ≫= (fun item => item !! f) with Some (AV_N n) => n | _ => 0 end.

Definition present (s : Store) (u : Z) : Prop := is_Some (s !! user_row u "META").

Lemma counter_write s u f t :
  tx_holds s t = true -> (writes t = Some (user_row u "META") -> plain u t) ->
  counter (tx_write s t) u f = counter s u f + gain u f t.
Proof.
  intros Hh Hp. destruct (decide (writes t = Some (user_row u "META"))) as [E|E].
  - specialize (Hp E). unfold plain in Hp. rewrite E in Hp. destruct Hp as [_ Hp].
    destruct (Hp eq_refl) as (a & d & c & ->). clear Hp E. unfold counter. cbn.
    rewrite lookup_insert_eq. cbn in Hh |- *. apply andb_true_iff in Hh as [_ Hh].
    rewrite andb_true_r in Hh. unfold apply_action, action_typed in *.
    destruct (s !! user_row u "META") as [item|]; cbn in *.
    + destruct (decide (a = f)) as [->|Hf].
      * rewrite (bool_decide_true (_ /\ _)) by done.
        destruct (item !! f) as [[]|]; cbn; try discriminate; rewrite lookup_insert_eq; lia.
      * rewrite (bool_decide_false (_ /\ _)) by naive_solver. rewrite Z.add_0_r.
        destruct (item !! a) as [[]|]; cbn; try discriminate; by rewrite lookup_insert_ne.
    + rewrite lookup_empty. cbn. destruct (decide (a = f)) as [->|Hf].
      * rewrite (bool_decide_true (_ /\ _)) by done. rewrite lookup_insert_eq. lia.
      * rewrite (bool_decide_false (_ /\ _)) by naive_solver.
        by rewrite lookup_insert_ne, lookup_empty by done.
  - unfold counter. rewrite tx_write_other by done.
    enough (gain u f t = 0) by lia. destruct t as [| k [|[] [|]] ? | |]; cbn; try done.
    cbn in E. rewrite bool_decide_false; naive_solver.
Qed.

Lemma counter_writes l : forall s u f,
  NoDup (tx_key <$> l) -> Forall (fun t => tx_holds s t = true) l -> 
  Forall (fun t => writes t = Some (user_row u "META") -> plain u t) l ->
  counter (foldl tx_write s l) u f = counter s u f + total (gain u f) l.
Proof.
  induction l as [|t l IH]; intros s u f Hn Hh Hp; [cbn; lia|].
  cbn in Hn. apply NoDup_cons in Hn as [Ht Hn]. apply Forall_cons in Hh as [Ht' Hh].
  apply Forall_cons in Hp as [Hpt Hp]. cbn [foldl]. rewrite IH; [|done| |done].
  - rewrite (counter_write s u f t) by done. rewrite total_cons. lia.
  - rewrite Forall_forall in Hh |- *. intros b Hb. rewrite <-(Hh b Hb).
    apply tx_holds_local, tx_write_other, key_writes. intros E. apply Ht. rewrite E.
    by apply list_elem_of_fmap_2.
Qed.

Lemma present_write s u t :
  (writes t = Some (user_row u "META") -> plain u t) -> present s u -> present (tx_write s t) u.
Proof.
  intros Hp Hs. unfold present. destruct (decide (writes t = Some (user_row u "META"))) as [E|E].
  - specialize (Hp E). unfold plain in Hp. rewrite E in Hp. destruct Hp as [_ Hp].
    destruct (Hp eq_refl) as (a & d & c & ->). cbn. rewrite lookup_insert_eq. done.
  - by rewrite tx_write_other.
Qed.

Lemma present_writes l : forall s u,
  Forall (fun t => writes t = Some (user_row u "META") -> plain u t) l ->
  present s u -> present (foldl tx_write s l) u.
Proof.
  induction l as [|t l IH]; intros s u Hp Hs; [done|].
  apply Forall_cons in Hp as [Ht Hp]. cbn. apply IH; [done|]. by apply present_write.
Qed.

(** ** The effects *)

(** What an effect adds to a counter of a user. *)
Definition credit (u : Z) (f : string) (x : entry) : Z :=
  match x.2 with
  | PersistGame _ =>
      if bool_decide (is_Some (gs_players (cr_final_state x.1) !! u) /\ f = "gamesPlayed") then 1 else 0
  | AddXp _ v _ amount => if bool_decide (v = u /\ f = "xp") then amount else 0
  | AddMmr _ v _ delta q => if bool_decide (v = u /\ f = mmr_field q) then delta else 0
  | _ => 0
  end.

(** User and game ids are unsigned and a Uuid has 128 bits. *)
Record typed (r : CompletionRecordV1) (e : CompletionEffect) : Prop := {
  ty_game : 0 <= cr_game_id r;
  ty_revision : 0 <= cr_revision r < 2 ^ 128;
  ty_user u : effect_user_id e = Some u -> 0 <= u;
  ty_players u : is_Some (gs_players (cr_final_state r) !! u) -> 0 <= u
}.

Lemma plain_elsewhere u t k :
  tx_key t = k -> fence_row k = false -> k <> user_row u "META" -> plain u t.
Proof. intros <- Hf Hk. unfold plain. destruct t; cbn in *; naive_solver. Qed.

Lemma gain_elsewhere u f t : tx_key t <> user_row u "META" -> gain u f t = 0.
Proof.
  intros H. destruct t as [|k [|[] [|]] ?| |]; cbn in *; try done.
  rewrite bool_decide_false; naive_solver.
Qed.

(** Rows of other tables or of games. *)
Definition remote (t : TransactWriteItem) : Prop :=
  fence_row (tx_key t) = false /\ forall u, tx_key t <> user_row u "META".

Lemma remote_table t : (tx_key t).1.1 <> MainTable -> remote t.
Proof.
  unfold remote. destruct (tx_key t) as [[[] pk] sk]; intros H; [done|..];
    (split; [done|]); intros u [=].
Qed.
#[local] Hint Resolve remote_table : core.
#[local] Hint Extern 1 (_ <> MainTable) => discriminate : core.

Lemma remote_silent u f l : Forall remote l -> Forall (plain u) l /\ total (gain u f) l = 0.
Proof.
  intros H. split.
  - eapply Forall_impl; [exact H|]. intros t [H1 H2]. by eapply plain_elsewhere.
  - apply total_none. eapply Forall_impl; [exact H|]. intros t [H1 H2]. by apply gain_elsewhere.
Qed.

Lemma check_silent u f k c : plain u (ConditionCheck k c) /\ gain u f (ConditionCheck k c) = 0.
Proof. done. Qed.

Lemma progress_writes s v field d l u f :
  0 <= u -> 0 <= v -> progress_mutations s v field d = Ok l ->
  Forall (plain u) l
  /\ total (gain u f) l = if bool_decide (v = u /\ f = field) then d else 0.
Proof.
  unfold progress_mutations. intros Hu Hv H.
  destruct (completion_user_target s v) as [[[name guest] mirror]| |]; [|done..].
  cbn in H. injection H as <-.
  assert (Hm : Forall remote (if mirror : bool then
            [Update (UsernamesTable, name, "") [Add field d]
               (And (AttributeExists "username") (Equals "userId" (AV_N v)))] else [])).
  { destruct mirror; auto. }
  destruct (remote_silent u f _ Hm) as [Hp Hg]. split.
  - constructor; [|done]. split; [done|]. intros _. eauto.
  - rewrite total_cons, Hg. cbn. rewrite Z.add_0_r.
    rewrite (bool_decide_ext (_ /\ _) (v = u /\ f = field)); [done|].
    split; intros [E1 E2]; [|by subst]. apply user_row_inj in E1; [done|done..].
Qed.

Lemma dependency_check r id t :
  completion_effect_dependency_guard r id = Ok t ->
  exists h, t = ConditionCheck (effect_row r id) (Equals "effectHash" h).
Proof.
  unfold completion_effect_dependency_guard.
  destruct (find_effect r id) as [d|]; [|done]. intros [= <-]. by eexists.
Qed.

Lemma ranking_shape r v name q g region season won mmr k c existing l :
  ranking_mutations r v name q g region season won mmr (ConditionCheck k c) existing = Ok l ->
  exists a m, l = ConditionCheck (user_row v "META") a :: ConditionCheck k c :: m /\ Forall remote m.
Proof.
  unfold ranking_mutations. intros H.
  destruct existing as [entry|]; (destruct (utc_date _); [|done]);
    cbn [mbind result_bind context] in H; injection H as <-; eexists _, _; (split; [done|]).
  - apply Forall_app. split; [destruct (bool_decide _)|]; auto.
  - cbn; auto.
Qed.

Lemma ranking_writes r v name q g region season won mmr k c existing l u f :
  ranking_mutations r v name q g region season won mmr (ConditionCheck k c) existing = Ok l ->
  Forall (plain u) l /\ total (gain u f) l = 0.
Proof.
  intros (a & m & -> & Hm)%ranking_shape. destruct (remote_silent u f _ Hm) as [Hp Hg]. split.
  - by repeat constructor.
  - by rewrite !total_cons, Hg.
Qed.

(** What building the transaction of a ranking takes. *)
Lemma ranking_built r id v name q g region season won art a s l :
  (effect_mutations r (UpdateRanking id v name q g region season won) art a s).1 = Ok l ->
  exists mmr h existing, ranking_mutations r v name q g region season won mmr
    (ConditionCheck (effect_row r ("mmr:" +:+ display_uint v)) (Equals "effectHash" h)) existing = Ok l.
Proof.
  cbn [effect_mutations fst]. intros H. destruct (at_readable a); [|done].
  cbn [ensure mbind result_bind] in H. destruct (current_mmr _ _ _) as [mmr| |]; [|done..].
  cbn [mbind result_bind] in H.
  destruct (completion_effect_dependency_guard _ _) as [t| |] eqn:E; [|done..].
  apply dependency_check in E as [h ->]. cbn [mbind result_bind] in H.
  destruct (negb _); [done|]. destruct (get_user_ranking _ _ _ _ _) as [existing s'].
  exists mmr, h, existing. exact H.
Qed.

Lemma high_score_writes r v name score g region season news l u f :
  high_score_mutations r v name score g region season news = Ok l ->
  Forall (plain u) l /\ total (gain u f) l = 0.
Proof.
  unfold high_score_mutations. intros H. destruct (utc_date _); [|done].
  cbn [mbind result_bind context] in H. injection H as <-. apply remote_silent. auto.
Qed.

Lemma games_played_writes (l : list Z) u f :
  0 <= u -> Forall (Z.le 0) l -> NoDup l ->
  let updates := (fun v => Update (user_row v "META") [Add "gamesPlayed" 1] row_present) <$> l in
  Forall (plain u) updates
  /\ total (gain u f) updates = if bool_decide (u ∈ l /\ f = "gamesPlayed") then 1 else 0.
Proof.
  intros Hu Hl Hn. split.
  - apply Forall_fmap, Forall_true. intros v. split; [done|]. intros _. by eexists _, _, _.
  - induction Hl as [|v l Hv _ IH]; [done|].
    apply NoDup_cons in Hn as [Hv' Hn]. specialize (IH Hn). rewrite fmap_cons, total_cons, IH.
    cbn [gain]. clear IH. pose proof (user_row_inj v u "META" Hv Hu) as Hinj.
    destruct (decide (f = "gamesPlayed")) as [->|Hf].
    + rewrite (bool_decide_ext (user_row v "META" = user_row u "META" /\ _) (v = u)) by naive_solver.
      rewrite (bool_decide_ext (u ∈ l /\ _) (u ∈ l)) by naive_solver.
      rewrite (bool_decide_ext (u ∈ v :: l /\ _) (v = u \/ u ∈ l)) by set_solver.
      repeat case_bool_decide; naive_solver.
    + rewrite !bool_decide_false by naive_solver. done.
Qed.

Lemma history_sort_key_other ended g sk :
  history_sort_key ended g = Ok sk -> sk <> "META" /\ forall v, fence_row (user_row v sk) = false.
Proof.
  unfold history_sort_key. destruct (0 <=? ended); [|done]. intros [= <-].
  split; [by intros [=]|]. intros v. reflexivity.
Qed.

Lemma remote_game r t sk :
  tx_key t = game_row r sk -> fence_row (game_row r sk) = false -> remote t.
Proof. intros E H. unfold remote. rewrite E. split; [done|]. intros u [=]. Qed.

Lemma persist_writes r art config news l u f :
  0 <= u -> (forall v, is_Some (gs_players (cr_final_state r) !! v) -> 0 <= v) ->
  persist_mutations r art config news = Ok l ->
  Forall (plain u) l
  /\ total (gain u f) l
     = if bool_decide (is_Some (gs_players (cr_final_state r) !! u) /\ f = "gamesPlayed")
       then 1 else 0.
Proof.
  unfold persist_mutations. intros Hu Hv H.
  destruct (utc_date (cr_ended_at_ms r)); [|done]. cbn [mbind result_bind context] in H.
  destruct (retention_ttl_seconds _ (snapshot_retention_days _)) as [t1| |]; [|done..]. cbn [mbind result_bind] in H.
  destruct (retention_ttl_seconds _ _) as [t2| |]; [|done..]. cbn [mbind result_bind] in H.
  destruct (match_history_summary _ _) as [summary| |]; [|done..]. cbn [mbind result_bind] in H.
  destruct (history_sort_key _ _) as [sk| |] eqn:Esk; [|done..]. cbn [mbind result_bind] in H.
  apply history_sort_key_other in Esk as [Esk Esk']. injection H as <-.
  match goal with |- Forall _ (?a :: ?b ++ ?c :: ?d ++ ?e) /\ _ =>
    change (a :: b ++ c :: d ++ e) with ([a] ++ b ++ [c] ++ d ++ e);
    assert (Ha : Forall remote [a]);
    [|assert (Hb : Forall remote b); [|assert (Hc : Forall remote [c]);
      [|assert (Hd : Forall remote d)]]]
  end.
  - apply Forall_singleton. by eapply remote_game.
  - destruct (pa_split_play_of_the_game_json art); [|done]. apply Forall_singleton.
    by eapply remote_game.
  - apply Forall_singleton. by eapply remote_game.
  - destruct (gs_is_stress_test _); [done|]. apply Forall_fmap, Forall_true. intros player.
    split; [apply Esk'|]. intros v [= _ E]. by apply Esk.
  - destruct (remote_silent u f _ Ha) as [Ha1 Ha2]. destruct (remote_silent u f _ Hb) as [Hb1 Hb2].
    destruct (remote_silent u f _ Hc) as [Hc1 Hc2]. destruct (remote_silent u f _ Hd) as [Hd1 Hd2].
    destruct (games_played_writes (map_to_list (gs_players (cr_final_state r))).*1 u f Hu)
      as [Hg1 Hg2].
    { apply Forall_forall. intros v Hin. apply list_elem_of_fmap in Hin as ([v' x] & -> & Hin).
      apply elem_of_map_to_list in Hin. by apply Hv. }
    { apply NoDup_fst_map_to_list. }
    split; [by repeat apply Forall_app_2|].
    rewrite !total_app, Ha2, Hb2, Hc2, Hd2, Hg2.
    rewrite (bool_decide_ext (u ∈ _ /\ _)
               (is_Some (gs_players (cr_final_state r) !! u) /\ f = "gamesPlayed")); [done|].
    apply and_iff_compat_r. rewrite list_elem_of_fmap. split.
    + intros ([v x] & -> & Hin). apply elem_of_map_to_list in Hin. by exists x.
    + intros [x Hx]. exists (u, x). split; [done|]. by apply elem_of_map_to_list.
Qed.

Lemma effect_writes r e art a s l u f :
  typed r e -> 0 <= u -> (effect_mutations r e art a s).1 = Ok l ->
  Forall (plain u) l /\ total (gain u f) l = credit u f (r, e).
Proof.
  intros [Hg _ Hu' Hp] Hu H.
  destruct e as [id|id v name amount|id v name delta q|id v name q g region season won
                |id v name score g region season]; cbn [fst snd credit].
  - cbn [effect_mutations fst] in H. by eapply persist_writes.
  - cbn [effect_mutations fst] in H. destruct (at_readable a); [|done].
    exact (progress_writes _ _ _ _ _ _ _ Hu (Hu' _ eq_refl) H).
  - cbn [effect_mutations fst] in H. destruct (at_readable a); [|done].
    exact (progress_writes _ _ _ _ _ _ _ Hu (Hu' _ eq_refl) H).
  - apply ranking_built in H as (mmr & h & existing & H). by eapply ranking_writes.
  - cbn [effect_mutations fst] in H. by eapply high_score_writes.
Qed.

Definition is_check (t : TransactWriteItem) : Prop := writes t = None.

Lemma fenced_shape r e m l :
  fenced r e m = Ok l ->
  exists g, Forall is_check g
    /\ l = completion_effect_marker r e (completion_effect_hash r e)
            :: completion_revision_anchor r (completion_record_hash r) :: g ++ m.
Proof.
  unfold fenced. intros H. destruct e; try (injection H as <-; by exists []).
  unfold completion_effect_dependency_guard in H.
  destruct (find_effect r "game"); [|done]. cbn [context mbind result_bind] in H. injection H as <-.
  eexists [_; _]. split; [|done]. by apply Forall_cons; split; [|apply Forall_singleton].
Qed.

Lemma checks_silent u f g : Forall is_check g -> Forall (plain u) g /\ total (gain u f) g = 0.
Proof.
  intros H. split; [|apply total_none]; (eapply Forall_impl; [exact H|]);
    intros [] Ht; done.
Qed.

(** ** Steps *)

(** A transaction of an effect the code can send, built on any earlier view of
    the store. *)
Record sends (r : CompletionRecordV1) (e : CompletionEffect) (l : list TransactWriteItem) : Prop := {
  sd_valid : validate_effect r e = Ok tt;
  sd_typed : typed r e;
  sd_built : exists art a view m, (effect_mutations r e art a view).1 = Ok m /\ fenced r e m = Ok l
}.

Definition progress_fields : list string := ["xp"; "rankedMmr"; "casualMmr"; "gamesPlayed"]%string.

(** What the rest of the server does: anything but writing markers, anchors and
    the counters of existing users. *)
Definition bystander (s s' : Store) : Prop :=
  (forall k, fence_row k = true -> s' !! k = s !! k)
  /\ forall u, present s u ->
       present s' u /\ Forall (fun f => counter s' u f = counter s u f) progress_fields.

Inductive ledger_step : Store * list entry -> Store * list entry -> Prop :=
| step_commit r e l s log :
    sends r e l -> tx_runs s l = true ->
    ledger_step (s, log) (foldl tx_write s l, log ++ [(r, e)])
| step_other s s' log : bystander s s' -> ledger_step (s, log) (s', log).

Lemma bystander_refl s : bystander s s.
Proof. split; [done|]. intros u H. split; [done|]. by repeat constructor. Qed.

(** The effect that has to be applied before. *)
Definition dependency (e : CompletionEffect) : option string :=
  match e with
  | UpdateRanking _ u _ _ _ _ _ _ => Some ("mmr:" +:+ display_uint u)
  | InsertHighScore _ _ _ _ _ _ _ => Some "game"
  | _ => None
  end.

(** The rows of a commit. *)
Record committed (r : CompletionRecordV1) (e : CompletionEffect) (s s' : Store) : Prop := {
  cm_fresh : s !! marker_key (r, e) = None;
  cm_marker : exists item, s' !! marker_key (r, e) = Some item
                /\ item !! "effectHash" = Some (AV_S (completion_effect_hash r e));
  cm_anchor_before item : s !! game_row r "COMPLETION" = Some item ->
      item !! "completionRevision" = Some (revision_value r)
      /\ item !! "completionHash" = Some (AV_S (completion_record_hash r));
  cm_anchor : exists item, s' !! game_row r "COMPLETION" = Some item
      /\ item !! "completionRevision" = Some (revision_value r)
      /\ item !! "completionHash" = Some (AV_S (completion_record_hash r));
  cm_frame k : fence_row k = true -> k <> marker_key (r, e) -> k <> game_row r "COMPLETION" ->
      s' !! k = s !! k;
  cm_counter u f : 0 <= u -> counter s' u f = counter s u f + credit u f (r, e);
  cm_present u : 0 <= u -> present s u -> present s' u;
  cm_dependency d : dependency e = Some d -> is_Some (s !! effect_row r d)
}.

#[local] Arguments keyed : simpl never.

Lemma keyed_lookup k item a : a <> "pk" -> a <> "sk" -> a <> "username" ->
  keyed k item !! a = item !! a.
Proof. intros. unfold keyed. destruct k.1.1; rewrite ?lookup_insert_ne by done; done. Qed.

Lemma keyed_pk k item : k.1.1 = MainTable -> keyed k item !! "pk" = Some (AV_S k.1.2).
Proof. unfold keyed. intros ->. by rewrite lookup_insert_eq. Qed.

Lemma sends_shape r e l :
  sends r e l ->
  exists t, l = completion_effect_marker r e (completion_effect_hash r e)
                :: completion_revision_anchor r (completion_record_hash r) :: t
    /\ forall u f, 0 <= u -> Forall (plain u) t /\ total (gain u f) t = credit u f (r, e).
Proof.
  intros [_ Ht (art & a & view & m & Hm & Hf)]. apply fenced_shape in Hf as (g & Hg & ->).
  exists (g ++ m). split; [done|]. intros u f Hu.
  destruct (checks_silent u f g Hg) as [Hg1 Hg2].
  destruct (effect_writes r e art a view m u f Ht Hu Hm) as [Hm1 Hm2].
  split; [by apply Forall_app_2|]. by rewrite total_app, Hg2.
Qed.

Lemma sends_credits r e l u f :
  sends r e l -> 0 <= u ->
  Forall (fun t => writes t = Some (user_row u "META") -> plain u t) l
  /\ total (gain u f) l = credit u f (r, e).
Proof.
  intros Hs Hu. destruct (sends_shape r e l Hs) as (t & -> & Ht).
  destruct (Ht u f Hu) as [Hp Hg]. split; [|exact Hg].
  constructor; [by intros [=]|]. constructor; [by intros [=]|].
  eapply Forall_impl; [exact Hp|]. done.
Qed.

Lemma sends_dependency r e l d :
  sends r e l -> dependency e = Some d ->
  exists h, ConditionCheck (effect_row r d) (Equals "effectHash" h) ∈ l.
Proof.
  intros [_ _ (art & a & view & m & Hm & Hf)] Hd. destruct e; try discriminate.
  - injection Hd as <-. injection Hf as <-. apply ranking_built in Hm as (mmr & h & existing & Hm).
    apply ranking_shape in Hm as (c & m' & -> & _). exists h. set_solver.
  - injection Hd as <-. unfold fenced, completion_effect_dependency_guard in Hf.
    destruct (find_effect r "game") as [d|]; [|done]. cbn [mbind result_bind context] in Hf.
    injection Hf as <-. exists (AV_S (completion_effect_hash r d)). set_solver.
Qed.

Lemma plain_fence u t k : plain u t -> fence_row k = true -> writes t <> Some k.
Proof. unfold plain. intros H Hk E. rewrite E in H. destruct H. congruence. Qed.

Lemma marker_condition r e s :
  tx_holds s (completion_effect_marker r e (completion_effect_hash r e)) = true ->
  s !! marker_key (r, e) = None.
Proof.
  cbn. unfold get_item. rewrite andb_true_iff, !bool_decide_eq_true. intros [H _].
  change (s !! effect_row r (effect_id e) = None).
  destruct (s !! effect_row r (effect_id e)) as [item|]; [|done].
  cbn in H. by rewrite keyed_pk in H.
Qed.

Lemma anchor_condition r s item :
  tx_holds s (completion_revision_anchor r (completion_record_hash r)) = true ->
  s !! game_row r "COMPLETION" = Some item ->
  item !! "completionRevision" = Some (revision_value r)
  /\ item !! "completionHash" = Some (AV_S (completion_record_hash r)).
Proof.
  cbn. unfold get_item. intros H Hi. rewrite Hi in H. cbn in H.
  rewrite keyed_pk, !keyed_lookup in H by done.
  rewrite (bool_decide_false (Some _ = None)) in H by done. cbn in H.
  by rewrite andb_true_iff, !bool_decide_eq_true in H.
Qed.

Lemma commit_committed r e l s :
  sends r e l -> tx_runs s l = true -> committed r e s (foldl tx_write s l).
Proof.
  intros Hs Hr. apply tx_runs_inv in Hr as [Hn Hh].
  pose proof (fun d => sends_dependency r e l d Hs) as Hdep'.
  pose proof (fun u f => sends_credits r e l u f Hs) as Hfence.
  destruct (sends_shape r e l Hs) as (t & -> & Ht). pose proof Hh as Hh'.
  apply Forall_cons in Hh' as [Hm Hh']. apply Forall_cons in Hh' as [Ha _].
  split.
  - by apply marker_condition.
  - eexists. split; [|].
    + change (marker_key (r, e)) with
        (tx_key (completion_effect_marker r e (completion_effect_hash r e))).
      rewrite tx_writes_once by (done || set_solver). cbn. by rewrite lookup_insert_eq.
    + done.
  - intros item. by apply anchor_condition.
  - eexists. split.
    + change (game_row r "COMPLETION") with
        (tx_key (completion_revision_anchor r (completion_record_hash r))).
      rewrite tx_writes_once by (done || set_solver). cbn. by rewrite lookup_insert_eq.
    + done.
  - intros k Hk H1 H2. apply tx_writes_other.
    constructor; [apply key_writes; intros E; by apply H1|].
    constructor; [apply key_writes; intros E; by apply H2|]. destruct (Ht 0 "" ltac:(lia)) as [Hp _].
    eapply Forall_impl; [exact Hp|]. intros b Hb. by apply (plain_fence 0).
  - intros u f Hu. destruct (Hfence u f Hu) as [Hp Hg]. rewrite counter_writes by done. by rewrite Hg.
  - intros u Hu. apply present_writes. by destruct (Hfence u "" Hu).
  - intros d Hd. apply Hdep' in Hd as [h Hin]. rewrite Forall_forall in Hh. apply Hh in Hin.
    cbn in Hin. unfold get_item in Hin. destruct (s !! effect_row r d); [done|].
    cbn in Hin. by apply bool_decide_eq_true in Hin.
Qed.
End ledger.
