(* ===== verification/EffectTheorems.v ===== *)
(** * Theorems on the effects in the database

    Whatever is retried, lost or interleaved, an effect is applied once, in the
    order its dependencies ask for, and a drained record is applied whole; and the
    largest matches a record may describe do not fit a transaction. *)

From Stdlib Require Import ZArith Lia.
From stdpp Require Import prelude strings pretty countable list gmap sorting relations.
From S2P Require Import Prelude RustFloat Util Snake Arena CommandQueue GameState GameSetup.
From S2P Require Import Events Validate Recording StreamId Journal Rating Completion CompletionTheorems.
From S2P Require Import EffectStore EffectLedger.
Open Scope Z_scope.

#[local] Arguments keyed : simpl never.

Section runs.
Context {CE : CompletionEnv} {EE : EffectEnv}.

(** ** The invariant *)

Definition anchored (s : Store) (r : CompletionRecordV1) : Prop :=
  exists item, s !! game_row r "COMPLETION" = Some item
    /\ item !! "completionRevision" = Some (revision_value r)
    /\ item !! "completionHash" = Some (AV_S (completion_record_hash r)).

Definition marked (s : Store) (x : entry) : Prop :=
  exists item, s !! marker_key x = Some item
    /\ item !! "effectHash" = Some (AV_S (completion_effect_hash x.1 x.2)).

(** The log [log] against the stores before and after it. *)
Record ledger (s0 s : Store) (log : list entry) : Prop := {
  lg_typed x : x ∈ log -> typed x.1 x.2;
  lg_marked x : x ∈ log -> marked s x;
  lg_anchored x : x ∈ log -> anchored s x.1;
  lg_once : NoDup (marker_key <$> log);
  lg_only k : String.prefix "EFFECT#" k.2 = true -> fence_row k = true -> is_Some (s !! k) ->
      is_Some (s0 !! k) \/ k ∈ marker_key <$> log;
  lg_counter u : 0 <= u -> present s0 u ->
      present s u
      /\ Forall (fun f => counter s u f = counter s0 u f + total (credit u f) log) progress_fields;
  lg_order l1 x l2 d : log = l1 ++ x :: l2 -> dependency x.2 = Some d ->
      is_Some (s0 !! effect_row x.1 d) \/ effect_row x.1 d ∈ marker_key <$> l1
}.

Lemma ledger_start s : ledger s s [].
Proof.
  split; try (intros x Hx; by apply not_elem_of_nil in Hx).
  - constructor.
  - auto.
  - intros u _ H. split; [done|]. apply Forall_true. intros f. cbn. lia.
  - intros l1 x l2 d H. by destruct l1.
Qed.

Lemma marked_frame s s' x :
  s' !! marker_key x = s !! marker_key x -> marked s x -> marked s' x.
Proof. unfold marked. by intros ->. Qed.

Lemma anchored_frame s s' r :
  s' !! game_row r "COMPLETION" = s !! game_row r "COMPLETION" -> anchored s r -> anchored s' r.
Proof. unfold anchored. by intros ->. Qed.

Lemma ledger_other s0 s s' log : bystander s s' -> ledger s0 s log -> ledger s0 s' log.
Proof.
  intros [Hf Hb] H. split; try apply H.
  - intros x Hx. eapply marked_frame; [|by eapply lg_marked]. apply Hf, effect_row_fence.
  - intros x Hx. eapply anchored_frame; [|by eapply lg_anchored]. by apply Hf.
  - intros k Hp Hk Hs. rewrite Hf in Hs by done. by eapply lg_only.
  - intros u Hu Hp. destruct (lg_counter _ _ _ H u Hu Hp) as [Hp' Hc].
    destruct (Hb u Hp') as [Hp'' Hc']. split; [done|].
    rewrite Forall_forall in Hc, Hc' |- *. intros f Hin. by rewrite Hc', Hc.
Qed.

(** A commit leaves the marker and the anchor of every earlier entry. *)
Lemma commit_marked s s' r e x :
  committed r e s s' -> marked s x -> marked s' x.
Proof.
  intros H Hx. eapply marked_frame; [|exact Hx].
  apply (cm_frame _ _ _ _ H); [apply effect_row_fence| |apply effect_row_not_anchor].
  intros E. destruct Hx as (item & Hi & _). rewrite E, (cm_fresh _ _ _ _ H) in Hi. done.
Qed.

Lemma commit_anchored s s' r e r' :
  committed r e s s' -> anchored s r' -> anchored s' r'.
Proof.
  intros H Hx. destruct (decide (game_row r' "COMPLETION" = game_row r "COMPLETION")) as [E|E].
  - destruct Hx as (item & Hi & Hr & Hh). unfold anchored. rewrite E in Hi |- *.
    destruct (cm_anchor_before _ _ _ _ H item Hi) as [Hr' Hh'].
    destruct (cm_anchor _ _ _ _ H) as (item' & Hi' & Hr2 & Hh2). exists item'.
    rewrite Hr2, Hh2. split; [done|]. split; congruence.
  - eapply anchored_frame; [|exact Hx]. apply (cm_frame _ _ _ _ H); [done| |done].
    intros E'. symmetry in E'. by apply effect_row_not_anchor in E'.
Qed.

Lemma ledger_commit s0 s s' log r e :
  typed r e -> committed r e s s' -> ledger s0 s log -> ledger s0 s' (log ++ [(r, e)]).
Proof.
  intros Ht Hc H.
  assert (Hfresh : marker_key (r, e) ∉ marker_key <$> log).
  { intros Hin. apply list_elem_of_fmap in Hin as (x & E & Hin).
    destruct (lg_marked _ _ _ H x Hin) as (item & Hi & _).
    rewrite <-E, (cm_fresh _ _ _ _ Hc) in Hi. done. }
  split.
  - intros x [Hin| ->%list_elem_of_singleton]%elem_of_app; [by eapply lg_typed|done].
  - intros x [Hin| ->%list_elem_of_singleton]%elem_of_app.
    + eapply commit_marked; [done|]. by eapply lg_marked.
    + apply Hc.
  - intros x [Hin| ->%list_elem_of_singleton]%elem_of_app.
    + eapply commit_anchored; [done|]. by eapply lg_anchored.
    + apply Hc.
  - rewrite fmap_app. apply NoDup_app. split; [apply H|]. split; [|apply NoDup_singleton].
    intros k Hin ->%list_elem_of_singleton. done.
  - intros k Hp Hk Hs. destruct (decide (k = marker_key (r, e))) as [->|Hne].
    + right. rewrite fmap_app. set_solver.
    + rewrite (cm_frame _ _ _ _ Hc) in Hs; [|done|done|].
      * destruct (lg_only _ _ _ H k Hp Hk Hs) as [|Hin]; [by left|]. right. rewrite fmap_app.
        apply elem_of_app. by left.
      * intros ->. done.
  - intros u Hu Hp. destruct (lg_counter _ _ _ H u Hu Hp) as [Hp' Hf].
    split; [by apply (cm_present _ _ _ _ Hc)|]. eapply Forall_impl; [exact Hf|]. intros f E.
    cbn beta in E |- *. rewrite (cm_counter _ _ _ _ Hc u f Hu), E, total_app, total_cons.
    change (total (credit u f) []) with 0. lia.
  - intros l1 x l2 d E Hd. destruct l2 as [|y l2] using rev_ind.
    + apply app_inj_tail in E as [-> <-].
      apply (cm_dependency _ _ _ _ Hc) in Hd. apply (lg_only _ _ _ H); [apply effect_row_prefix|apply effect_row_fence|done].
    + rewrite app_comm_cons, app_assoc in E. apply app_inj_tail in E as [-> _]. by eapply lg_order.
Qed.

Lemma run_ledger s0 s log s' log' :
  ledger s0 s log -> rtc ledger_step (s, log) (s', log') -> ledger s0 s' log'.
Proof.
  intros H Hr. remember (s, log) as a eqn:Ea. remember (s', log') as b eqn:Eb.
  revert s log H Ea. induction Hr as [x|x y z Hs Hr IH]; intros s log H ->.
  - by injection Eb as -> ->.
  - inversion Hs as [r e l ? ? Hsend Hrun|? s1 ? Hb]; subst.
    + eapply IH; [done| |done]. eapply ledger_commit; [apply Hsend| |done]. by apply commit_committed.
    + eapply IH; [done| |done]. by eapply ledger_other.
Qed.

(** ** Calls are runs *)

(** What happens between two requests of a call. *)
Definition harmless (f : Store -> Store) : Prop :=
  forall s log, exists log', rtc ledger_step (s, log) (f s, log').

Record attempt_ok (a : Attempt) : Prop := {
  ao_before : harmless (at_before a);
  ao_between : harmless (at_between a);
  ao_send : harmless (at_send a);
  ao_marker : harmless (at_marker a);
  ao_anchor : harmless (at_anchor a)
}.

Lemma ranking_bystander b s now pk u : bystander s (get_user_ranking b s now pk u).2.
Proof.
  assert (Hb : forall item, bystander s (backfill_ranking_pointer b pk u item s)).
  { intros item. unfold backfill_ranking_pointer.
    destruct (s !! _); [apply bystander_refl|]. destruct b; [|apply bystander_refl]. split.
    - intros k Hk. apply lookup_insert_ne. intros <-. done.
    - intros v Hv. unfold present, counter. rewrite lookup_insert_ne by (intros [=]). 
      split; [done|]. by apply Forall_true. }
  unfold get_user_ranking. destruct (get_item _ _); [apply bystander_refl|].
  destruct (List.find _ _); apply Hb.
Qed.

Lemma mutations_run r e art a s log :
  attempt_ok a -> exists log', rtc ledger_step (s, log) ((effect_mutations r e art a s).2, log').
Proof.
  intros Ha. destruct e as [| | |id u name q g region season won|]; cbn [effect_mutations snd];
    try (exists log; done).
  destruct (ensure _ _ ≫= _) as [[mmr guard]| |]; try (exists log; done).
  destruct (ao_between _ Ha s log) as [log1 H1]. exists log1. destruct (negb _); [done|].
  destruct (get_user_ranking _ _ _ _ _) as [existing s'] eqn:E. cbn [snd].
  eapply rtc_r; [exact H1|]. constructor.
  pose proof (ranking_bystander (at_backfill_delivered a) (at_between a s) (at_now a) (ranking_pk q g region season)
                (wrap_i32 u)) as Hb. by rewrite E in Hb.
Qed.

Lemma marker_hash_marked r e s :
  completion_effect_marker_hash r e s = Some (completion_effect_hash r e) <-> marked s (r, e).
Proof.
  unfold completion_effect_marker_hash, get_item, marked, marker_key. cbn [fst snd].
  destruct (s !! effect_row r (effect_id e)) as [item|]; cbn.
  - unfold extract_string. rewrite keyed_lookup by done. split.
    + intros H. exists item. split; [done|]. destruct (item !! "effectHash") as [[]|]; naive_solver.
    + intros (item' & [= <-] & ->). done.
  - split; [done|]. intros (item & ? & _). done.
Qed.

Lemma classify_run r e a s log :
  attempt_ok a ->
  exists log', rtc ledger_step (s, log) ((classify_failure r e a s).2, log')
    /\ forall x, (classify_failure r e a s).1 = Ok x -> marked (classify_failure r e a s).2 (r, e).
Proof.
  intros Ha. destruct (ao_marker _ Ha s log) as [log1 H1]. unfold classify_failure.
  destruct (negb _); [by exists log1|].
  destruct (completion_effect_marker_hash r e (at_marker a s)) as [h|] eqn:E.
  - exists log1. case_bool_decide as Hh; (split; [done|]); intros x [=]. subst h.
    by apply marker_hash_marked.
  - destruct (ao_anchor _ Ha (at_marker a s) log1) as [log2 H2]. exists log2.
    assert (H : rtc ledger_step (s, log) (at_anchor a (at_marker a s), log2)) by by etrans.
    destruct (negb _); [done|].
    destruct (completion_anchor_identity _ _) as [[revision hash]|]; [|done].
    by case_bool_decide.
Qed.

(** A built transaction. *)
Definition built (r : CompletionRecordV1) (e : CompletionEffect) (m : list TransactWriteItem) : Prop :=
  exists art a view, (effect_mutations r e art a view).1 = Ok m.

Lemma transact_run r e a m s log :
  validate_effect r e = Ok tt -> typed r e -> attempt_ok a -> built r e m ->
  exists log', rtc ledger_step (s, log) ((transact_completion_effect r e a m s).2, log')
    /\ forall x, (transact_completion_effect r e a m s).1 = Ok x ->
         marked (transact_completion_effect r e a m s).2 (r, e).
Proof.
  intros Hv Ht Ha (art & b & view & Hm). unfold transact_completion_effect.
  destruct (fenced r e m) as [l| |] eqn:Ef; [|by exists log..].
  assert (Hs : sends r e l) by (split; [done|done|by eauto 10]).
  destruct (ao_send _ Ha s log) as [log1 H1]. set (s1 := at_send a s) in *.
  assert (Hrun : exists log', rtc ledger_step (s, log)
            ((transact_write_items (at_delivery a) l s1).2, log')
            /\ ((transact_write_items (at_delivery a) l s1).1 = true ->
                marked (transact_write_items (at_delivery a) l s1).2 (r, e))).
  { unfold transact_write_items. destruct (tx_runs s1 l) eqn:Er.
    - assert (Hstep : rtc ledger_step (s, log) (foldl tx_write s1 l, log1 ++ [(r, e)])).
      { eapply rtc_r; [exact H1|]. by constructor. }
      pose proof (cm_marker _ _ _ _ (commit_committed r e l s1 Hs Er)) as Hk.
      destruct (at_delivery a); cbn; [by exists (log1 ++ [(r, e)])..|by exists log1].
    - destruct (at_delivery a); by exists log1. }
  destruct Hrun as (log2 & H2 & Hmark).
  destruct (transact_write_items (at_delivery a) l s1) as [[] s2]; cbn [fst snd] in *.
  - exists log2. split; [done|]. intros x _. by apply Hmark.
  - destruct (classify_run r e a s2 log2 Ha) as (log3 & H3 & Hk). exists log3.
    split; [by etrans|done].
Qed.

Lemma attempts_run r e art inputs remaining : forall n s log,
  validate_effect r e = Ok tt -> typed r e -> (forall n, attempt_ok (inputs n)) ->
  exists log', rtc ledger_step (s, log) ((effect_attempts remaining r e art inputs n s).2, log')
    /\ forall x, (effect_attempts remaining r e art inputs n s).1 = Ok x ->
         marked (effect_attempts remaining r e art inputs n s).2 (r, e).
Proof.
  induction remaining as [|remaining IH]; intros n s log Hv Ht Ha; [by exists log|].
  cbn [effect_attempts]. set (a := inputs n).
  destruct (ao_before _ (Ha n) s log) as [log1 H1]. fold a in H1.
  destruct (mutations_run r e art a (at_before a s) log1 (Ha n)) as [log2 H2].
  assert (H12 : rtc ledger_step (s, log) ((effect_mutations r e art a (at_before a s)).2, log2))
    by by etrans.
  destruct (effect_mutations r e art a (at_before a s)) as [[m| |] s2] eqn:Em; cbn [snd] in H12;
    [|by exists log2..].
  assert (Hb : built r e m) by (exists art, a, (at_before a s); by rewrite Em).
  destruct (transact_run r e a m s2 log2 Hv Ht (Ha n) Hb) as (log3 & H3 & Hk).
  assert (H13 : rtc ledger_step (s, log) ((transact_completion_effect r e a m s2).2, log3))
    by by etrans.
  destruct (transact_completion_effect r e a m s2) as [[x|error|error] s3]; cbn [fst snd] in *.
  - exists log3. eauto.
  - destruct remaining; [by exists log3|].
    destruct (IH (S n) s3 log3 Hv Ht Ha) as (log4 & H4 & Hk'). exists log4. split; [by etrans|done].
  - by exists log3.
Qed.

Lemma apply_run r e inputs s log :
  typed r e -> (forall n, attempt_ok (inputs n)) ->
  exists log', rtc ledger_step (s, log) ((apply_completion_effect r e inputs s).2, log')
    /\ forall x, (apply_completion_effect r e inputs s).1 = Ok x ->
         marked (apply_completion_effect r e inputs s).2 (r, e).
Proof.
  intros Ht Ha. unfold apply_completion_effect.
  destruct (validate_effect r e) as [[]| |] eqn:Hv; [|by exists log..]. cbn [mbind result_bind].
  destruct (if is_persist e then _ else _) as [art| |]; [|by exists log..].
  by apply attempts_run.
Qed.

Lemma step_marked s log s' log' x : ledger_step (s, log) (s', log') -> marked s x -> marked s' x.
Proof.
  intros H Hx. inversion H as [r e l ? ? Hs Hr|? ? ? [Hf _]]; subst.
  - eapply commit_marked; [by apply commit_committed|done].
  - eapply marked_frame; [|done]. apply Hf, effect_row_fence.
Qed.

Lemma run_marked s log s' log' x :
  rtc ledger_step (s, log) (s', log') -> marked s x -> marked s' x.
Proof.
  intros Hr. remember (s, log) as a eqn:Ea. remember (s', log') as b eqn:Eb.
  revert s log Ea. induction Hr as [?|? [s1 log1] ? Hs Hr IH]; intros s log ->.
  - by injection Eb as -> ->.
  - intros Hx. eapply IH; [done..|]. by eapply step_marked.
Qed.

(** The recording is not part of the identity. *)
Lemma same_identity r r' e :
  identity_of r' = identity_of r ->
  (typed r e -> typed r' e) /\ forall s, marked s (r', e) -> marked s (r, e).
Proof.
  intros E.
  assert (Hg : cr_game_id r' = cr_game_id r) by exact (f_equal iv_game_id E).
  assert (Hr : cr_revision r' = cr_revision r) by exact (f_equal iv_revision E).
  assert (Hs : cr_final_state r' = cr_final_state r) by exact (f_equal iv_final_state E).
  split.
  - intros [H1 H2 H3 H4]. split; rewrite ?Hg, ?Hr, ?Hs; auto.
  - unfold marked, marker_key, effect_row, game_row, completion_effect_hash. cbn [fst snd].
    by rewrite Hg, Hr, E.
Qed.

(** What a drain of the effects [l] leaves. *)
Definition drained (r : CompletionRecordV1) (l : list CompletionEffect) (d : gset string) (s : Store)
    (log : list entry) (result : Result unit * (gset string * Store)) : Prop :=
  let '(res, (d', s')) := result in
  exists log', rtc ledger_step (s, log) (s', log')
    /\ d ⊆ d'
    /\ (forall id, id ∈ d' -> id ∈ d \/ exists e, e ∈ l /\ effect_id e = id /\ marked s' (r, e))
    /\ (res = Ok tt -> forall e, e ∈ l -> effect_id e ∈ d').

Lemma drained_stop r l d s log s' log' res :
  rtc ledger_step (s, log) (s', log') -> res <> Ok tt -> drained r l d s log (res, (d, s')).
Proof. intros H Hr. exists log'. split; [done|]. split; [done|]. split; [by left|done]. Qed.

Lemma drained_skip r e l d s log result :
  effect_id e ∈ d -> drained r l d s log result -> drained r (e :: l) d s log result.
Proof.
  destruct result as [res [d' s']]. intros Hd (log' & H1 & H2 & H3 & H4). exists log'.
  do 2 (split; [done|]). split.
  - intros id Hid. apply H3 in Hid as [|(e' & ? & ?)]; [by left|]. right. exists e'.
    split; [by right|done].
  - intros Hok e' [->|He']%elem_of_cons; [by apply H2|by apply H4].
Qed.

Lemma drained_next r e l d s log s1 log1 result :
  rtc ledger_step (s, log) (s1, log1) -> marked s1 (r, e) ->
  drained r l ({[effect_id e]} ∪ d) s1 log1 result -> drained r (e :: l) d s log result.
Proof.
  destruct result as [res [d' s']]. intros H1 Hk (log' & H2 & H3 & H4 & H5). exists log'.
  split; [by etrans|]. split; [set_solver|]. split.
  - intros id Hid'. apply H4 in Hid' as [Hid'|(e' & ? & ?)].
    + apply elem_of_union in Hid' as [->%elem_of_singleton|]; [|by left]. right. exists e.
      split; [by left|]. split; [done|]. by eapply run_marked.
    + right. exists e'. split; [by right|done].
  - intros Hok e' [->|He']%elem_of_cons; [apply H3; set_solver|by apply H5].
Qed.

Lemma drain_run r materialize mark_done inputs l : forall d s log,
  (forall e, e ∈ l -> typed r e) ->
  (forall r', materialize = Ok r' -> identity_of r' = identity_of r) ->
  (forall id n, attempt_ok (inputs id n)) ->
  drained r l d s log (drain_effects r materialize mark_done inputs l d s).
Proof.
  induction l as [|e l IH]; intros d s log Ht Hm Ha.
  { exists log. do 2 (split; [done|]). split; [by left|]. intros _ e He.
    by apply not_elem_of_nil in He. }
  assert (Htl : forall e', e' ∈ l -> typed r e') by (intros; apply Ht; by right).
  cbn [drain_effects]. case_bool_decide as Hd; [apply drained_skip; auto|].
  destruct (if _ : bool then materialize else Ok r) as [er| |] eqn:Eer;
    [|by eapply drained_stop..].
  assert (Hid : identity_of er = identity_of r).
  { destruct (_ && _); [by apply Hm|by injection Eer as ->]. }
  destruct (same_identity r er e Hid) as [Hty Hmk].
  destruct (apply_run er e (inputs (effect_id e)) s log) as (log1 & H1 & Hk);
    [apply Hty, Ht; by left|done|].
  destruct (apply_completion_effect er e (inputs (effect_id e)) s) as [[x| |] s1];
    cbn [fst snd] in *; [|by eapply drained_stop..].
  specialize (Hk x eq_refl). apply Hmk in Hk.
  destruct (mark_done (effect_id e)) as [u| |]; [|by eapply drained_stop..].
  eapply drained_next; [done..|]. by apply IH.
Qed.

(** ** What the invariant says *)

Lemma NoDup_finer {A B C} (f : A -> B) (g : A -> C) l :
  (forall x y, g x = g y -> f x = f y) -> NoDup (f <$> l) -> NoDup (g <$> l).
Proof.
  intros Hfg. induction l as [|x l IH]; cbn; [constructor|].
  rewrite !NoDup_cons. intros [Hx Hn]. split; [|by apply IH].
  intros Hin. apply Hx. apply list_elem_of_fmap in Hin as (y & E & Hy).
  apply list_elem_of_fmap. exists y. split; [by apply Hfg|done].
Qed.

Lemma identity_marker x y : identity_key x = identity_key y -> marker_key x = marker_key y.
Proof.
  destruct x as [r e], y as [r' e']. unfold identity_key, marker_key, effect_row, game_row. cbn.
  intros [= -> -> ->]. done.
Qed.

Lemma ledger_revision s0 s log x y :
  ledger s0 s log -> x ∈ log -> y ∈ log -> cr_game_id x.1 = cr_game_id y.1 ->
  cr_revision x.1 = cr_revision y.1 /\ completion_record_hash x.1 = completion_record_hash y.1.
Proof.
  intros H Hx Hy E. pose proof (lg_typed _ _ _ H x Hx) as Tx. pose proof (lg_typed _ _ _ H y Hy) as Ty.
  destruct (lg_anchored _ _ _ H x Hx) as (i & Hi & Hr & Hh).
  destruct (lg_anchored _ _ _ H y Hy) as (j & Hj & Hr' & Hh').
  unfold game_row in Hi, Hj. rewrite E, Hj in Hi. injection Hi as <-.
  rewrite Hr in Hr'. injection Hr' as Hr'. rewrite Hh in Hh'. injection Hh' as Hh'.
  split; [|done]. apply uuid_display_inj in Hr'; [done|apply Tx|apply Ty].
Qed.

Lemma ledger_logged s0 s log r e :
  ledger s0 s log -> typed r e -> s0 !! marker_key (r, e) = None -> marked s (r, e) ->
  exists x, x ∈ log /\ identity_key x = identity_key (r, e)
    /\ completion_effect_hash x.1 x.2 = completion_effect_hash r e.
Proof.
  intros H Ht H0 (item & Hi & Hh).
  destruct (lg_only _ _ _ H (marker_key (r, e))) as [[? H1]|Hin];
    [apply effect_row_prefix|apply effect_row_fence|by exists item|by rewrite H0 in H1|].
  apply list_elem_of_fmap in Hin as (x & E & Hx). exists x. split; [done|].
  pose proof (lg_typed _ _ _ H x Hx) as Tx.
  destruct (lg_marked _ _ _ H x Hx) as (item' & Hi' & Hh').
  rewrite <-E, Hi in Hi'. injection Hi' as <-. rewrite Hh in Hh'. injection Hh' as Hh'.
  split; [|done]. apply effect_row_inj in E as (E1 & E2 & E3); [|apply Ht|apply Tx|apply Ht|apply Tx].
  unfold identity_key. cbn in *. by rewrite E1, E2, E3.
Qed.

Lemma ledger_ordered s0 s log l1 x l2 d :
  ledger s0 s log -> log = l1 ++ x :: l2 -> dependency x.2 = Some d ->
  s0 !! effect_row x.1 d = None ->
  (cr_game_id x.1, cr_revision x.1, d) ∈ identity_key <$> l1.
Proof.
  intros H E Hd H0. destruct (lg_order _ _ _ H l1 x l2 d E Hd) as [[? H1]|Hin]; [by rewrite H0 in H1|].
  apply list_elem_of_fmap in Hin as (y & Ey & Hy). apply list_elem_of_fmap. exists y. split; [|done].
  assert (Tx : typed x.1 x.2) by (eapply lg_typed; [done|]; subst; set_solver).
  assert (Ty : typed y.1 y.2) by (eapply lg_typed; [done|]; subst; set_solver).
  apply effect_row_inj in Ey as (E1 & E2 & E3); [|apply Tx|apply Ty|apply Tx|apply Ty].
  unfold identity_key. by rewrite E1, E2, E3.
Qed.
End runs.

(** ** Sizes *)

Lemma history_players_users {CE : CompletionEnv} c ids ps :
  history_players c ids = Ok ps -> hp_user_id <$> ps = ids.
Proof.
  revert ps. induction ids as [|u ids IH]; cbn [history_players]; intros ps H.
  - by injection H as <-.
  - destruct (gs_players _ !! u); [|done].
    destruct (history_players c ids) as [rest| |]; [|done..]. cbn [mbind result_bind] in H.
    injection H as <-. cbn. by rewrite (IH rest).
Qed.

Lemma player_ids_length st : length (player_ids st) = size (gs_players st).
Proof. unfold player_ids. by rewrite merge_sort_Permutation, length_fmap, length_map_to_list. Qed.

Lemma summary_players {CE : CompletionEnv} c days h :
  match_history_summary c days = Ok h ->
  length (hs_players h) = size (gs_players (cr_final_state c)).
Proof.
  unfold match_history_summary. destruct (mode_names _).
  destruct (history_players c _) as [ps| |] eqn:E; [|done..]. cbn [mbind result_bind].
  intros [= <-]. cbn [hs_players]. apply history_players_users in E.
  by rewrite <-player_ids_length, <-E, length_fmap.
Qed.

(** The rows of the players in the transaction of the game. *)
Definition player_rows (r : CompletionRecordV1) : nat :=
  let n := size (gs_players (cr_final_state r)) in
  if gs_is_stress_test (cr_final_state r) then n else (2 * n)%nat.

Lemma persist_length {CE : CompletionEnv} {EE : EffectEnv} r art config news l :
  persist_mutations r art config news = Ok l ->
  length l = (2 + player_rows r + if is_some (pa_split_play_of_the_game_json art) then 1 else 0)%nat.
Proof.
  unfold persist_mutations, player_rows. intros H.
  destruct (utc_date (cr_ended_at_ms r)); [|done]. cbn [mbind result_bind context] in H.
  destruct (retention_ttl_seconds _ (snapshot_retention_days _)) as [t1| |]; [|done..].
  cbn [mbind result_bind] in H.
  destruct (retention_ttl_seconds _ _) as [t2| |]; [|done..]. cbn [mbind result_bind] in H.
  destruct (match_history_summary _ _) as [summary| |] eqn:Es; [|done..]. cbn [mbind result_bind] in H.
  destruct (history_sort_key _ _) as [sk| |]; [|done..]. cbn [mbind result_bind] in H.
  injection H as <-. apply summary_players in Es.
  cbn [length]. rewrite !length_app. cbn [length]. rewrite !length_app, !length_fmap, length_map_to_list.
  destruct (gs_is_stress_test _), (pa_split_play_of_the_game_json art);
    cbn [length is_some]; rewrite ?length_fmap, ?Es; lia.
Qed.

(** ** A sample *)

Lemma hex_digit_spec n : 0 <= n < 16 ->
  String.length (hex_digit n) = 1%nat
  /\ forall m, 0 <= m < 16 -> hex_digit n = hex_digit m -> n = m.
Proof.
  assert (D : forall z, 0 <= z < 16 -> z ∈ seqZ 0 16) by (intros; apply elem_of_seqZ; lia).
  intros Hn. apply D in Hn.
  assert (F : Forall (fun n => String.length (hex_digit n) = 1%nat
            /\ Forall (fun m => hex_digit n = hex_digit m -> n = m) (seqZ 0 16)) (seqZ 0 16))
    by (apply (bool_decide_unpack _); vm_compute; exact I).
  rewrite Forall_forall in F. destruct (F n Hn) as [Hl Hi]. split; [done|].
  intros m Hm. rewrite Forall_forall in Hi. by apply Hi, D.
Qed.

Lemma string_length_app (a b : string) :
  String.length (a +:+ b) = (String.length a + String.length b)%nat.
Proof.
  induction a as [|x a IH]; [done|].
  change (S (String.length (a +:+ b)) = S (String.length a + String.length b)). by rewrite IH.
Qed.

Lemma hex_fixed_length w : forall n, String.length (hex_fixed w n) = w.
Proof.
  induction w as [|w IH]; intros n; [done|]. cbn [hex_fixed]. rewrite string_length_app, IH.
  destruct (hex_digit_spec (n mod 16)) as [-> _]; [|lia]. apply Z.mod_pos_bound. lia.
Qed.

Lemma hex_fixed_inj w : forall n m,
  0 <= n < 16 ^ Z.of_nat w -> 0 <= m < 16 ^ Z.of_nat w -> hex_fixed w n = hex_fixed w m -> n = m.
Proof.
  induction w as [|w IH]; intros n m Hn Hm E; [cbn in *; lia|].
  rewrite Nat2Z.inj_succ, Z.pow_succ_r in Hn, Hm by lia. cbn [hex_fixed] in E.
  apply app_inj_length in E as [E1 E2]; [|by rewrite !hex_fixed_length].
  pose proof (Z.mod_pos_bound n 16 ltac:(lia)). pose proof (Z.mod_pos_bound m 16 ltac:(lia)).
  apply hex_digit_spec in E2; [|done..].
  apply IH in E1; [|split; [apply Z.div_pos|apply Z.div_lt_upper_bound]; lia..].
  pose proof (Z.div_mod n 16). pose proof (Z.div_mod m 16). lia.
Qed.

(** Nothing is serialized, and a Uuid is thirty-two digits. *)
#[local] Program Instance plain_text : EffectEnv :=
  {| identity_json i := [iv_game_id i]; effect_json x := [iv_game_id x.1]; recording_json _ := [];
     clip_json _ := ""; state_json _ := ""; game_type_json _ := ""; summary_json _ := "";
     uuid_display := hex_fixed 32; rfc3339 _ := ""; put_recording := None |}.
Next Obligation. intros a b Ha Hb. by apply hex_fixed_inj. Qed.
Next Obligation. intros a b. by rewrite !hex_fixed_length. Qed.

#[local] Existing Instance summer.
#[local] Existing Instance still.
#[local] Existing Instance everybody.

(** The record of the duel of [CompletionTheorems], and the rows of its players. *)
Definition duel_record : CompletionRecordV1 :=
  match materialize_completion 7 7 3 decided 90000 5 with
  | Ok r => r
  | _ => mkCompletionRecord 0 0 0 0 0 0 None None None None None decided []
  end.

Definition account_row (name : string) : Item :=
  list_to_map [("username", AV_S name); ("isGuest", AV_BOOL true); ("xp", AV_N 100);
               ("rankedMmr", AV_N 1000); ("casualMmr", AV_N 1000)].

Definition accounts : Store :=
  <[user_row 1 "META" := account_row "ann"]> (<[user_row 2 "META" := account_row "bob"]> ∅).

(** The answer of every first request is lost. *)
Definition lossy (n : nat) : Attempt :=
  mkAttempt None true true true true true true "" id id id id id
    match n with O => ResponseLost | _ => Delivered end.

Lemma lossy_ok n : attempt_ok (lossy n).
Proof. split; intros s log; by exists log. Qed.

Definition duel_drain : Result unit * (gset string * Store) :=
  drain_effects duel_record (Ok duel_record) (fun _ => Ok tt) (fun _ => lossy)
    (cr_effects duel_record) ∅ accounts.

(** A test for [typed]. *)
Definition widths_ok (r : CompletionRecordV1) : bool :=
  (0 <=? cr_game_id r) && (0 <=? cr_revision r) && (cr_revision r <? 2 ^ 128)
  && forallb (fun e => 0 <=? default 0 (effect_user_id e)) (cr_effects r)
  && forallb (fun e => 0 <=? e.1) (map_to_list (gs_players (cr_final_state r))).

Lemma widths_typed r e : widths_ok r = true -> e ∈ cr_effects r -> typed r e.
Proof.
  unfold widths_ok. rewrite !andb_true_iff, !Z.leb_le, Z.ltb_lt. intros [[[[Hg H0] H1] He] Hp] Hin.
  split; [done|done| |].
  - intros u Hu. rewrite forallb_forall in He. apply list_elem_of_In, He in Hin.
    rewrite Hu in Hin. by apply Z.leb_le.
  - intros u [p Hu]. by apply (forallb_map _ _ _ _ Hp), Z.leb_le in Hu.
Qed.

Lemma duel_typed e : e ∈ cr_effects duel_record -> typed duel_record e.
Proof. apply widths_typed. vm_compute. reflexivity. Qed.

Lemma same_record (r r' : CompletionRecordV1) : Ok r = Ok r' -> identity_of r' = identity_of r.
Proof. by intros [= <-]. Qed.

Lemma duel_drained :
  drained duel_record (cr_effects duel_record) ∅ accounts [] duel_drain.
Proof.
  unfold duel_drain.
  exact (drain_run duel_record (Ok duel_record) (fun _ => Ok tt) (fun _ => lossy)
           (cr_effects duel_record) ∅ accounts [] duel_typed (same_record duel_record)
           (fun _ => lossy_ok)).
Qed.

(** ** Theorems *)

(** C6. An effect is applied once: however the transactions of the server
    interleave, on however old a view they were built and whoever sends them
    again, no effect of a revision of a game is executed twice, all effects
    executed for a game are of one revision and of one record, the experience, the
    ratings and the number of games of a user have changed by exactly what the
    executed effects say, and a ranking is only updated after the rating, a high
    score only inserted after the game. *)
Theorem effects_are_applied_once {CE : CompletionEnv} {EE : EffectEnv} s0 s log :
  rtc ledger_step (s0, []) (s, log) ->
  NoDup (identity_key <$> log)
  /\ (forall x y, x ∈ log -> y ∈ log -> cr_game_id x.1 = cr_game_id y.1 ->
      cr_revision x.1 = cr_revision y.1
      /\ completion_record_hash x.1 = completion_record_hash y.1)
  /\ (forall u f, 0 <= u -> present s0 u -> f ∈ progress_fields ->
      counter s u f = counter s0 u f + total (credit u f) log)
  /\ (forall l1 x l2 d, log = l1 ++ x :: l2 -> dependency x.2 = Some d ->
      s0 !! effect_row x.1 d = None ->
      (cr_game_id x.1, cr_revision x.1, d) ∈ identity_key <$> l1).
Proof.
  intros Hr. pose proof (run_ledger _ _ _ _ _ (ledger_start s0) Hr) as H. split; [|split; [|split]].
  - eapply (NoDup_finer marker_key); [exact identity_marker|apply H].
  - intros x y. by eapply ledger_revision.
  - intros u f Hu Hp Hf. destruct (lg_counter _ _ _ H u Hu Hp) as [_ Hc].
    rewrite Forall_forall in Hc. by apply Hc.
  - intros l1 x l2 d. by eapply ledger_ordered.
Qed.

Lemma effects_are_applied_once_witness :
  exists log, rtc ledger_step (accounts, []) (duel_drain.2.2, log)
    /\ NoDup (identity_key <$> log)
    /\ counter accounts 1 "xp" = 100 /\ 150 = 100 + total (credit 1 "xp") log.
Proof.
  pose proof duel_drained as H. unfold drained in H.
  assert (Hc : counter duel_drain.2.2 1 "xp" = 150) by (vm_compute; reflexivity).
  destruct duel_drain as [res [d' s']]. destruct H as (log & Hr & _). exists log.
  destruct (effects_are_applied_once accounts s' log Hr) as (Hn & _ & Hx & _).
  split; [exact Hr|]. split; [exact Hn|]. split; [vm_compute; reflexivity|].
  change (counter s' 1 "xp" = 150) in Hc. rewrite <-Hc, Hx; [|lia| |].
  - f_equal.
  - exists (account_row "ann"). vm_compute. reflexivity.
  - left.
Defined.

(** C7. A drained record is applied whole: whatever other servers do between the
    requests and whichever requests and answers are lost, draining a record is a
    run of the ledger, an effect is only marked done when its marker with its
    fingerprint is in the database, and when the drain succeeds every effect of
    the record is in the ledger, with its fingerprint. *)
Theorem drained_records_are_applied {CE : CompletionEnv} {EE : EffectEnv}
    s0 s log r materialize mark_done inputs d res d' s' :
  rtc ledger_step (s0, []) (s, log) ->
  (forall e, e ∈ cr_effects r -> typed r e) -> NoDup (effect_id <$> cr_effects r) ->
  (forall e, e ∈ cr_effects r -> s0 !! effect_row r (effect_id e) = None) ->
  (forall r', materialize = Ok r' -> identity_of r' = identity_of r) ->
  (forall id n, attempt_ok (inputs id n)) ->
  (forall id, id ∈ d -> exists e, e ∈ cr_effects r /\ effect_id e = id /\ marked s (r, e)) ->
  drain_effects r materialize mark_done inputs (cr_effects r) d s = (res, (d', s')) ->
  exists log', rtc ledger_step (s, log) (s', log')
    /\ (forall id, id ∈ d' -> exists e, e ∈ cr_effects r /\ effect_id e = id /\ marked s' (r, e))
    /\ (res = Ok tt -> forall e, e ∈ cr_effects r -> exists x, x ∈ log'
        /\ identity_key x = identity_key (r, e)
        /\ completion_effect_hash x.1 x.2 = completion_effect_hash r e).
Proof.
  intros H0 Ht Hn Hfresh Hm Ha Hd E.
  pose proof (drain_run r materialize mark_done inputs (cr_effects r) d s log Ht Hm Ha) as Hdr.
  rewrite E in Hdr. destruct Hdr as (log' & Hr & _ & Hin & Hok). exists log'. split; [done|].
  assert (Hmark : forall id, id ∈ d' ->
            exists e, e ∈ cr_effects r /\ effect_id e = id /\ marked s' (r, e)).
  { intros id Hid. apply Hin in Hid as [Hid|]; [|done]. apply Hd in Hid as (e & ? & ? & ?).
    exists e. split; [done|]. split; [done|]. by eapply run_marked. }
  split; [done|]. intros Hres e He. apply (ledger_logged s0 s'); [|by apply Ht|by apply Hfresh|].
  - eapply run_ledger; [apply ledger_start|]. by etrans.
  - destruct (Hmark (effect_id e) (Hok Hres e He)) as (e' & He' & Ei & Hk).
    assert (e' = e) as ->; [|done].
    apply list_elem_of_lookup_1 in He as [i Hi], He' as [j Hj].
    assert (i = j) as <-; [|congruence].
    eapply (NoDup_lookup _ _ _ (effect_id e) Hn); rewrite list_lookup_fmap, ?Hi, ?Hj; cbn; congruence.
Qed.

Lemma drained_records_are_applied_witness :
  exists log, rtc ledger_step (accounts, []) (duel_drain.2.2, log)
    /\ forall e, e ∈ cr_effects duel_record -> exists x, x ∈ log
        /\ identity_key x = identity_key (duel_record, e)
        /\ completion_effect_hash x.1 x.2 = completion_effect_hash duel_record e.
Proof.
  assert (Hres : duel_drain.1 = Ok tt) by (vm_compute; reflexivity).
  destruct duel_drain as [res [d' s']] eqn:E. unfold duel_drain in E.
  destruct (drained_records_are_applied accounts accounts [] duel_record (Ok duel_record)
              (fun _ => Ok tt) (fun _ => lossy) ∅ res d' s') as (log & Hr & _ & Hx).
  - apply rtc_refl.
  - exact duel_typed.
  - apply (bool_decide_unpack _). vm_compute. exact I.
  - assert (F : Forall (fun e => accounts !! effect_row duel_record (effect_id e) = None)
                  (cr_effects duel_record)) by (apply (bool_decide_unpack _); vm_compute; exact I).
    intros e He. rewrite Forall_forall in F. exact (F e He).
  - exact (same_record duel_record).
  - exact (fun _ => lossy_ok).
  - intros id Hid. exact (False_ind _ (not_elem_of_empty id Hid)).
  - exact E.
  - exists log. split; [exact Hr|]. exact (Hx Hres).
Defined.

(** C39. The transaction that persists a game has two rows for each player of a
    regular match, the history and the number of games, and one row for each player
    of a stress test, next to four or five others. With more than ninety-six of
    these rows it is over the limit of a hundred actions and is executed on no
    store: a regular match of more than forty-eight players is never persisted,
    although its record may be valid up to ninety-six, and a stress test is not
    from ninety-seven players on. *)
Theorem large_matches_are_never_persisted {CE : CompletionEnv} {EE : EffectEnv} r e l :
  sends r e l -> is_persist e = true ->
  (4 + player_rows r <= length l <= 5 + player_rows r)%nat
  /\ ((96 < player_rows r)%nat -> forall s, tx_runs s l = false).
Proof.
  intros [_ _ (art & a & view & m & Hm & Hf)] He. destruct e; try discriminate.
  apply persist_length in Hm. injection Hf as <-.
  assert (H : (4 + player_rows r <= S (S (length m)) <= 5 + player_rows r)%nat)
    by (rewrite Hm; destruct (is_some _); lia).
  cbn [length]. split; [exact H|]. intros Hp s.
  unfold tx_runs, tx_valid, MAX_TRANSACTION_ACTIONS. cbn [length].
  rewrite (proj2 (Nat.leb_gt _ _)); [done|]. lia.
Qed.

(** A free for all of forty-nine players, and its record. *)
Definition crowd : GameState :=
  with_status (Complete None)
    (foldl (fun st u => (add_player st u None).2)
       (new_game_state 100 100 (FreeForAll 49) Quickmatch None 0) (seqZ 1 49)).

Definition crowd_record : CompletionRecordV1 :=
  match materialize_completion 7 7 3 crowd 90000 5 with
  | Ok r => r
  | _ => mkCompletionRecord 0 0 0 0 0 0 None None None None None crowd []
  end.

Definition crowd_transaction : list TransactWriteItem :=
  match (effect_mutations crowd_record (PersistGame "game") no_artifacts (lossy 0) ∅).1 with
  | Ok m => default [] match fenced crowd_record (PersistGame "game") m with
                       | Ok l => Some l | _ => None end
  | _ => []
  end.

Lemma found_effect r id e : find_effect r id = Some e -> e ∈ cr_effects r.
Proof.
  unfold find_effect. destruct (list_find _ _) as [[i x]|] eqn:E; [|done].
  intros [= ->]. apply list_find_Some in E as [Hi _]. by eapply list_elem_of_lookup_2.
Qed.

(** A transaction that was built. *)
Lemma built_sends {CE : CompletionEnv} {EE : EffectEnv} r e art a view l :
  validate_effect r e = Ok tt -> typed r e ->
  l = match (effect_mutations r e art a view).1 with
      | Ok m => default [] match fenced r e m with Ok l => Some l | _ => None end
      | _ => []
      end -> l <> [] -> sends r e l.
Proof.
  intros Hv Ht El Hl. split; [done|done|]. exists art, a, view.
  destruct (effect_mutations r e art a view).1 as [m| |]; [|done..]. exists m. split; [done|].
  destruct (fenced r e m) as [l'| |]; cbn in El; congruence.
Qed.

Lemma large_matches_are_never_persisted_witness :
  completion_validate crowd_record = Ok tt
  /\ size (gs_players (cr_final_state crowd_record)) = 49%nat
  /\ tx_runs accounts crowd_transaction = false.
Proof.
  split; [vm_compute; reflexivity|]. split; [vm_compute; reflexivity|].
  apply (large_matches_are_never_persisted crowd_record (PersistGame "game") crowd_transaction).
  - apply (built_sends crowd_record (PersistGame "game") no_artifacts (lossy 0) ∅).
    + vm_compute. reflexivity.
    + apply widths_typed; [vm_compute; reflexivity|].
      apply (found_effect _ "game"). vm_compute. reflexivity.
    + reflexivity.
    + assert (L : length crowd_transaction = 102%nat) by (vm_compute; reflexivity).
      intros E. rewrite E in L. discriminate L.
  - reflexivity.
  - assert (L : (96 <? player_rows crowd_record)%nat = true) by (vm_compute; reflexivity).
    apply Nat.ltb_lt. exact L.
Defined.
