(* ===== verification/Database.v ===== *)
(** * Calls to the database as programs: server/src/db/dynamodb.rs

    A method of the database is a sequence of requests in which each request may
    depend on the answers before it. [Db] is the tree of these choices; [run]
    plays it against a world that, before every request, may change the store,
    answer a read from a stale replica, lose a request or its response, or cancel
    a transaction for contention. [run] also returns the transactions of the call
    that were executed, whatever the call was told.

    [Sends P p] says that every transaction the program [p] can send satisfies [P],
    and [Trace P] is a sequence of such transactions, of any number of processes;
    a call is a piece of a trace ([run_trace]), which is how the properties of
    concurrent calls are proved from the shape of their transactions. *)

From Stdlib Require Import ZArith Lia.
From stdpp Require Import prelude strings countable list gmap.
From S2P Require Import Prelude RustFloat Util Snake Arena CommandQueue GameState GameSetup.
From S2P Require Import Recording StreamId Journal Rating Completion EffectStore EffectLedger.
Open Scope Z_scope.

(** ** Programs *)

(** The answer to a write: executed, cancelled (because a condition failed, or for
    another reason), or any other error. *)
Inductive TxResult := TxOk | TxCanceled (conditional : bool) | TxFailed.

(** [None] is a read that failed. The clock is read like everything else. *)
Inductive Db (A : Type) :=
| Ret (r : Result A)
| GetItem (consistent : bool) (k : Key) (cont : option (option Item) -> Db A)
| Query (pk : string) (limit : option nat) (cont : option (list Item) -> Db A)
| Transact (l : list TransactWriteItem) (cont : TxResult -> Db A)
| UpdateReturning (k : Key) (actions : list UpdateAction) (cont : option Item -> Db A)
| Now (cont : Z -> Db A).
Arguments Ret {A} r.
Arguments GetItem {A} consistent k cont.
Arguments Query {A} pk limit cont.
Arguments Transact {A} l cont.
Arguments UpdateReturning {A} k actions cont.
Arguments Now {A} cont.

Fixpoint db_bind {A B} (f : A -> Db B) (p : Db A) : Db B :=
  match p with
  | Ret (Ok a) => f a
  | Ret (Err e) => Ret (Err e)
  | Ret (Panic e) => Ret (Panic e)
  | GetItem c k cont => GetItem c k (fun r => db_bind f (cont r))
  | Query pk limit cont => Query pk limit (fun r => db_bind f (cont r))
  | Transact l cont => Transact l (fun r => db_bind f (cont r))
  | UpdateReturning k actions cont => UpdateReturning k actions (fun r => db_bind f (cont r))
  | Now cont => Now (fun r => db_bind f (cont r))
  end.
#[global] Instance db_mret : MRet Db := fun A a => Ret (Ok a).
#[global] Instance db_mbind : MBind Db := fun A B => db_bind.

Definition get (consistent : bool) (k : Key) (error : string) : Db (option Item) :=
  GetItem consistent k (fun r => Ret (context error r)).
Definition query (pk : string) (limit : option nat) (error : string) : Db (list Item) :=
  Query pk limit (fun r => Ret (context error r)).
Definition transact (l : list TransactWriteItem) : Db TxResult := Transact l (fun r => Ret (Ok r)).
Definition now : Db Z := Now (fun t => Ret (Ok t)).
Definition lift {A} (r : Result A) : Db A := Ret r.
Definition fail {A} (error : string) : Db A := Ret (Err error).

(** A request without a transaction, of which the failure is an error. *)
Definition write (l : list TransactWriteItem) (error : string) : Db unit :=
  r ← transact l;
  match r with TxOk => Ret (Ok tt) | _ => fail error end.

(** A call whose error is dropped, with what stands for its result then. *)
Fixpoint or_else {A : Type} (a : A) (p : Db A) : Db A :=
  match p with
  | Ret (Err _) => Ret (Ok a)
  | Ret r => Ret r
  | GetItem c k cont => GetItem c k (fun r => or_else a (cont r))
  | Query pk limit cont => Query pk limit (fun r => or_else a (cont r))
  | Transact l cont => Transact l (fun r => or_else a (cont r))
  | UpdateReturning k actions cont => UpdateReturning k actions (fun r => or_else a (cont r))
  | Now cont => Now (fun r => or_else a (cont r))
  end.
Definition ignore_errors (p : Db unit) : Db unit := or_else tt p.

(** [None] ends a call that returns an option. *)
Definition or_return {A B : Type} (p : Db (option A)) (f : A -> Db (option B)) : Db (option B) :=
  p ≫= fun o => match o with Some a => f a | None => mret None end.
Notation "x '←?' p ; q" := (or_return p (fun x => q))
  (at level 20, p at level 100, q at level 200, only parsing) : stdpp_scope.

(** ** The world *)

(** What happens before and to one request. *)
Record Moment := mkMoment {
  mo_change : Store -> Store;
  mo_stale : Store;
  mo_rows : list Item;
  mo_fails : bool;
  mo_conflict : bool;
  mo_delivery : Delivery;
  mo_now : Z
}.

(** The conditions of a transaction, without the types of its updates. *)
Definition tx_condition (s : Store) (t : TransactWriteItem) : bool :=
  match t with
  | Put k _ c => match c with Some c => holds c (get_item s k) | None => true end
  | Update k _ c | Delete k c | ConditionCheck k c => holds c (get_item s k)
  end.

(** Whether a transaction is executed, and what the caller is told. *)
Definition transact_result (m : Moment) (l : list TransactWriteItem) (s : Store) : TxResult * bool :=
  match mo_delivery m with
  | RequestLost => (TxFailed, false)
  | d =>
      if mo_conflict m then (TxCanceled false, false)
      else if tx_runs s l then (match d with Delivered => TxOk | _ => TxFailed end, true)
      else if tx_valid l
           then (match d with Delivered => TxCanceled (negb (forallb (tx_condition s) l)) | _ => TxFailed end,
                 false)
           else (TxFailed, false)
  end.

Fixpoint run {A} (p : Db A) (world : nat -> Moment) (n : nat) (s : Store)
  : Result A * Store * list (list TransactWriteItem) :=
  let m := world n in
  match p with
  | Ret r => (r, s, [])
  | GetItem consistent k cont =>
      let s := mo_change m s in
      let view := if consistent then s else mo_stale m in
      run (cont (if mo_fails m then None else Some (get_item view k))) world (S n) s
  | Query pk limit cont =>
      let s := mo_change m s in
      let rows := match limit with Some limit => take limit (mo_rows m) | None => mo_rows m end in
      run (cont (if mo_fails m then None else Some rows)) world (S n) s
  | Transact l cont =>
      let s := mo_change m s in
      let '(r, executed) := transact_result m l s in
      if executed : bool then
        let '(res, s', own) := run (cont r) world (S n) (foldl tx_write s l) in (res, s', l :: own)
      else run (cont r) world (S n) s
  | UpdateReturning k actions cont =>
      let s := mo_change m s in
      let l := [Update k actions Always] in
      let '(r, executed) := transact_result m l s in
      if executed : bool then
        let s' := foldl tx_write s l in
        let item := match r with TxOk => s' !! k | _ => None end in
        let '(res, s', own) := run (cont item) world (S n) s' in (res, s', l :: own)
      else run (cont None) world (S n) s
  | Now cont => run (cont (mo_now m)) world (S n) s
  end.

Definition outcome {A} (r : Result A * Store * list (list TransactWriteItem)) : Result A := r.1.1.
Definition final {A} (r : Result A * Store * list (list TransactWriteItem)) : Store := r.1.2.
Definition executed {A} (r : Result A * Store * list (list TransactWriteItem))
  : list (list TransactWriteItem) := r.2.

(** ** What a program can send *)

Section sends.
Variable P : list TransactWriteItem -> Prop.

Fixpoint Sends {A} (p : Db A) : Prop :=
  match p with
  | Ret _ => True
  | GetItem _ _ cont => forall r, Sends (cont r)
  | Query _ _ cont => forall r, Sends (cont r)
  | Transact l cont => P l /\ forall r, Sends (cont r)
  | UpdateReturning k actions cont => P [Update k actions Always] /\ forall r, Sends (cont r)
  | Now cont => forall t, Sends (cont t)
  end.

Lemma Sends_bind {A B} (p : Db A) (f : A -> Db B) :
  Sends p -> (forall a, Sends (f a)) -> Sends (p ≫= f).
Proof.
  intros Hp Hf. unfold mbind, db_mbind.
  induction p as [[]|c k cont IH|pk lim cont IH|l cont IH|k a cont IH|cont IH]; cbn in *; auto.
  - destruct Hp. auto.
  - destruct Hp. auto.
Qed.

Lemma Sends_get c k e : Sends (get c k e).
Proof. done. Qed.
Lemma Sends_query pk limit e : Sends (query pk limit e).
Proof. done. Qed.
Lemma Sends_now : Sends now.
Proof. done. Qed.
Lemma Sends_ret {A} (r : Result A) : Sends (Ret r).
Proof. done. Qed.
Lemma Sends_transact l : P l -> Sends (transact l).
Proof. done. Qed.
Lemma Sends_write l e : P l -> Sends (write l e).
Proof. intros H. apply Sends_bind; [done|]. by intros []. Qed.
Lemma Sends_or_else {A : Type} (x : A) p : Sends p -> Sends (or_else x p).
Proof.
  induction p as [[]|c k cont IH|pk lim cont IH|l cont IH|k a cont IH|cont IH]; cbn; try done; auto.
  - intros []. auto.
  - intros []. auto.
Qed.
Lemma Sends_or_return {A B : Type} (p : Db (option A)) (f : A -> Db (option B)) :
  Sends p -> (forall a, Sends (f a)) -> Sends (or_return p f).
Proof. intros Hp Hf. apply Sends_bind; [done|]. by intros [a|]; [apply Hf|]. Qed.

(** Programs that write nothing. *)
Fixpoint Reads {A : Type} (p : Db A) : Prop :=
  match p with
  | Ret _ => True
  | GetItem _ _ cont => forall r, Reads (cont r)
  | Query _ _ cont => forall r, Reads (cont r)
  | Transact _ _ | UpdateReturning _ _ _ => False
  | Now cont => forall t, Reads (cont t)
  end.

(** Transactions of any processes, in the order in which they are executed. *)
Inductive Trace : Store -> list (list TransactWriteItem) -> Store -> Prop :=
| trace_nil s : Trace s [] s
| trace_cons s l log s' :
    P l -> tx_runs s l = true -> Trace (foldl tx_write s l) log s' -> Trace s (l :: log) s'.

Lemma Trace_app s log s' log' s'' : Trace s log s' -> Trace s' log' s'' -> Trace s (log ++ log') s''.
Proof. induction 1; cbn; [done|]. constructor; auto. Qed.

Lemma Trace_one s l : P l -> tx_runs s l = true -> Trace s [l] (foldl tx_write s l).
Proof. repeat constructor; done. Qed.

(** A world in which only such transactions are executed. *)
Definition lawful (world : nat -> Moment) : Prop :=
  forall n s, exists log, Trace s log (mo_change (world n) s).

Lemma executed_runs m l s r : transact_result m l s = (r, true) -> tx_runs s l = true.
Proof.
  unfold transact_result. destruct (mo_delivery m), (mo_conflict m); try done;
    destruct (tx_runs s l); try done; destruct (tx_valid l); done.
Qed.

(** A call is a piece of a trace that contains what the call executed, in order. *)
Lemma run_trace {A} (p : Db A) world n s :
  Sends p -> lawful world ->
  exists log, Trace s log (final (run p world n s)) /\ executed (run p world n s) `sublist_of` log.
Proof.
  unfold final, executed. intros Hp Hw. revert n s.
  assert (step : forall (q : Db A) n s log, Trace s log (mo_change (world n) s) ->
    (exists log, Trace (mo_change (world n) s) log (run q world (S n) (mo_change (world n) s)).1.2
       /\ (run q world (S n) (mo_change (world n) s)).2 `sublist_of` log) ->
    exists log, Trace s log (run q world (S n) (mo_change (world n) s)).1.2
       /\ (run q world (S n) (mo_change (world n) s)).2 `sublist_of` log).
  { intros q n s log H (log' & H' & Hs). exists (log ++ log'). split; [by eapply Trace_app|].
    by apply sublist_inserts_l. }
  assert (commit : forall (q : Db A) n s log l, P l -> Trace s log (mo_change (world n) s) ->
    tx_runs (mo_change (world n) s) l = true ->
    let s1 := foldl tx_write (mo_change (world n) s) l in
    (exists log, Trace s1 log (run q world (S n) s1).1.2 /\ (run q world (S n) s1).2 `sublist_of` log) ->
    exists log, Trace s log (run q world (S n) s1).1.2 /\ l :: (run q world (S n) s1).2 `sublist_of` log).
  { intros q n s log l Hl H Hr s1 (log' & H' & Hs). exists (log ++ l :: log'). split.
    - eapply Trace_app; [exact H|]. by constructor.
    - apply sublist_inserts_l. by constructor. }
  induction p as [r|c k cont IH|pk lim cont IH|l cont IH|k a cont IH|cont IH]; intros n s; cbn [run].
  - exists []. split; constructor.
  - destruct (Hw n s) as [log Hlog]. apply (step _ n s log Hlog), IH, Hp.
  - destruct (Hw n s) as [log Hlog]. apply (step _ n s log Hlog), IH, Hp.
  - destruct Hp as [Hl Hp]. destruct (Hw n s) as [log Hlog].
    destruct (transact_result (world n) l (mo_change (world n) s)) as [r []] eqn:E.
    + apply executed_runs in E. pose proof (commit (cont r) n s log l Hl Hlog E) as H. cbn zeta in H.
      destruct (run (cont r) world (S n) (foldl tx_write (mo_change (world n) s) l)) as [[res s'] own] eqn:Er.
      cbn in H |- *. apply H. specialize (IH r (Hp r) (S n) (foldl tx_write (mo_change (world n) s) l)).
      by rewrite Er in IH.
    + apply (step _ n s log Hlog), IH, Hp.
  - destruct Hp as [Hl Hp]. destruct (Hw n s) as [log Hlog].
    destruct (transact_result (world n) [Update k a Always] (mo_change (world n) s)) as [r []] eqn:E.
    + apply executed_runs in E. set (item := match r with TxOk => _ | _ => None end).
      pose proof (commit (cont item) n s log _ Hl Hlog E) as H. cbn zeta in H.
      destruct (run (cont item) world (S n) (foldl tx_write (mo_change (world n) s) [Update k a Always]))
        as [[res s'] own] eqn:Er.
      cbn in H |- *. apply H.
      specialize (IH item (Hp item) (S n) (foldl tx_write (mo_change (world n) s) [Update k a Always])).
      by rewrite Er in IH.
    + apply (step _ n s log Hlog), IH, Hp.
  - apply IH, Hp.
Qed.

(** A program that only reads, in front of another one: the other one starts in a
    store that lawful transactions lead to. *)
Lemma read_then {A B : Type} (p : Db A) (f : A -> Db B) (world : nat -> Moment) (n : nat) (s : Store)
    (Q : Result B * Store * list (list TransactWriteItem) -> Prop) :
  Reads p -> lawful world ->
  (forall s1 n1 log a, Trace s log s1 -> Q (run (f a) world n1 s1)) ->
  (forall s1 log e, Trace s log s1 -> Q (Err e, s1, []) /\ Q (Panic e, s1, [])) ->
  Q (run (p ≫= f) world n s).
Proof.
  intros Hp Hw. unfold mbind, db_mbind. revert n s.
  induction p as [[a|e|e]|c k cont IH|pk lim cont IH|l cont IH|k a cont IH|cont IH]; intros n s Hok Herr;
    cbn [run db_bind].
  - eapply Hok. constructor.
  - eapply Herr. constructor.
  - eapply Herr. constructor.
  - destruct (Hw n s) as [log Hlog]. apply IH; [apply Hp|..].
    + intros s1 n1 log1 a Ht. eapply Hok, Trace_app; eauto.
    + intros s1 log1 e Ht. eapply Herr, Trace_app; eauto.
  - destruct (Hw n s) as [log Hlog]. apply IH; [apply Hp|..].
    + intros s1 n1 log1 a Ht. eapply Hok, Trace_app; eauto.
    + intros s1 log1 e Ht. eapply Herr, Trace_app; eauto.
  - by destruct Hp.
  - by destruct Hp.
  - apply IH; [apply Hp|done|done].
Qed.

Lemma read_only {A : Type} (p : Db A) world n s :
  Reads p -> executed (run p world n s) = [].
Proof.
  unfold executed. intros Hp. revert n s.
  induction p as [[a|e|e]|c k cont IH|pk lim cont IH|l cont IH|k a cont IH|cont IH]; intros n s; cbn [run];
    try done; try (apply IH, Hp); by destruct Hp.
Qed.
End sends.

Lemma Reads_bind {A B : Type} (p : Db A) (f : A -> Db B) : Reads p -> (forall a, Reads (f a)) -> Reads (p ≫= f).
Proof.
  intros Hp Hf. unfold mbind, db_mbind.
  induction p as [[]|c k cont IH|pk lim cont IH|l cont IH|k a cont IH|cont IH]; cbn in *; auto; done.
Qed.

Lemma Sends_mono {A : Type} (P Q : list TransactWriteItem -> Prop) (p : Db A) :
  (forall l, P l -> Q l) -> Sends P p -> Sends Q p.
Proof.
  intros H. induction p as [[]|c k cont IH|pk lim cont IH|l cont IH|k a cont IH|cont IH]; cbn; try done; auto.
  - intros [? ?]. auto.
  - intros [? ?]. auto.
Qed.

(** Goals [Sends P p]: follows the program down to its transactions. *)
Create HintDb sends.
#[export] Hint Resolve Sends_get Sends_query Sends_now Sends_ret Sends_transact Sends_write Sends_or_else
  : sends.
Ltac sends :=
  repeat first
    [ progress intros
    | solve [eauto 3 with sends]
    | match goal with
      | |- Sends _ (_ ≫= _) => apply Sends_bind
      | |- Sends _ (or_return _ _) => apply Sends_or_return
      | |- Sends _ (ignore_errors _) => apply Sends_or_else
      | |- Sends _ (or_else _ _) => apply Sends_or_else
      | |- Sends _ (match ?x with _ => _ end) => destruct x eqn:?
      | |- Sends _ (let '(_, _) := ?x in _) => destruct x
      end ].
