(* ===== verification/SkinStore.v ===== *)
(** * Authored skins in the database

    server/src/skin_store.rs (the names under which the states of a skin are
    stored, who sees and edits it), server/src/db/skins_dynamo.rs (the rows) and
    the skin methods of server/src/db/dynamodb.rs, as programs of [Database]:
    creation, revisions, metadata, review and publication, grants and equipment;
    and the handlers of server/src/api/skins.rs that request, cancel, decide and
    report, and the choice of the revision that a match is given
    (server/src/matchmaking.rs). The text gate of rows older than its attribute reads the document and
    is the class [SkinDocs]. *)

From Stdlib Require Import ZArith Ascii Lia.
From stdpp Require Import prelude strings countable list gmap sorting.
From S2P Require Import Prelude RustFloat Util Snake Arena CommandQueue GameState GameSetup.
From S2P Require Import Recording StreamId Journal Rating Completion Content EffectStore EffectLedger.
From S2P Require Import Database SkinCatalog.
Open Scope Z_scope.

#[global] Instance Publication_eq_dec : EqDecision Publication.
Proof. solve_decision. Defined.
#[global] Instance SkinKind_eq_dec : EqDecision SkinKind.
Proof. solve_decision. Defined.

(** ** Names *)

Definition kind_str (k : SkinKind) : string := match k with KindSnake => "snake" | KindBase => "base" end.

Definition kind_parse (value : string) : option SkinKind :=
  if bool_decide (value = "snake") then Some KindSnake
  else if bool_decide (value = "base") then Some KindBase else None.

Definition namespace_str (n : SkinNamespace) : string :=
  match n with Production => "production" | Evaluation => "evaluation" end.

Definition namespace_parse (value : string) : option SkinNamespace :=
  if bool_decide (value = "production") then Some Production
  else if bool_decide (value = "evaluation") then Some Evaluation else None.

Definition is_publishable (n : SkinNamespace) : bool :=
  match n with Production => true | Evaluation => false end.

Definition publication_str (p : Publication) : string :=
  match p with
  | Private => "private"
  | Published => "published"
  | Unpublished => "unpublished"
  | Disabled => "disabled"
  end.

Definition publication_parse (value : string) : option Publication :=
  if bool_decide (value = "private") then Some Private
  else if bool_decide (value = "published") then Some Published
  else if bool_decide (value = "unpublished") then Some Unpublished
  else if bool_decide (value = "disabled") then Some Disabled else None.

Definition is_browsable (p : Publication) : bool := match p with Published => true | _ => false end.

Inductive GrantSource := GrantPurchase | GrantOwnCreation | GrantGrant.

Definition grant_source_str (g : GrantSource) : string :=
  match g with
  | GrantPurchase => "purchase"
  | GrantOwnCreation => "ownCreation"
  | GrantGrant => "grant"
  end.

Definition grant_source_parse (value : string) : option GrantSource :=
  if bool_decide (value = "purchase") then Some GrantPurchase
  else if bool_decide (value = "ownCreation") then Some GrantOwnCreation
  else if bool_decide (value = "grant") then Some GrantGrant else None.

Record SkinGrant := mkGrant {
  sg_skin_id : Z;
  sg_acquired_at_ms : Z;
  sg_price_paid_bux : Z;
  sg_source : GrantSource
}.

Inductive SkinReviewDecision :=
| Publish
| Reject
| SetPublication (p : Publication).

Record NewRevision := mkNewRevision {
  nr_document : string;
  nr_content_ref : string;
  nr_texture_refs : list string;
  nr_validated_schema : Z;
  nr_contains_text : bool
}.

Record NewSkin := mkNewSkin {
  ns_creator_user_id : Z;
  ns_creator_username : option string;
  ns_kind : SkinKind;
  ns_namespace : SkinNamespace;
  ns_name : string;
  ns_revision : NewRevision;
  ns_idempotency_key : option string;
  ns_request_hash : option string
}.

(** The typed conflicts. *)
Definition HeadChanged : string := "skin head changed".
Definition ReviewTargetChanged : string :=
  "the reviewed revision or content hash no longer matches the request".
Definition IdempotencyKeyReused : string :=
  "the skin-create idempotency key was already used for different content".
Definition EvaluationOnly : string := "evaluation-only skins cannot enter the production catalogue".

(** ** Visibility *)

Definition content_ref_for (skin : Skin) (viewer_user_id : option Z) : option string :=
  if negb (is_renderable (sk_publication skin)) then None
  else if bool_decide (viewer_user_id = Some (sk_creator_user_id skin)) then Some (sk_head_content_ref skin)
  else if negb (is_publishable (sk_namespace skin)) then None
  else sk_published_content_ref skin.

Definition may_edit (skin : Skin) (user_id : Z) (is_admin : bool) : bool :=
  is_admin || (user_id =? sk_creator_user_id skin).

Definition may_view (skin : Skin) (user_id : option Z) (is_admin : bool) : bool :=
  if is_admin then true
  else if negb (is_publishable (sk_namespace skin))
  then bool_decide (user_id = Some (sk_creator_user_id skin))
  else if is_browsable (sk_publication skin) then true
  else match sk_publication skin with
       | Unpublished | Private | Disabled => bool_decide (user_id = Some (sk_creator_user_id skin))
       | Published => true
       end.

Definition skin_id_reference (skin_id : Z) : string := SKIN_ID_PREFIX +:+ display_int skin_id.

(** ** Rows *)

(** [{n:0width}] of a signed number: the sign counts. *)
Definition padded_int (width : nat) (n : Z) : string :=
  if n <? 0 then "-" +:+ padded (width - 1) (- n) else padded width n.

Definition sortable (ms : Z) : string := padded_int 20 ms.

Definition revision_sort_key (revision : Z) : string := "REV#" +:+ padded 6 revision.
Definition skin_partition (skin_id : Z) : string := "SKIN#" +:+ display_int skin_id.
Definition grant_sort_key (skin_id : Z) : string := "SKINOWN#" +:+ display_int skin_id.
Definition published_index_partition (kind : SkinKind) : string := "SKIN_PUBLISHED#" +:+ kind_str kind.
Definition owner_index_partition (user_id : Z) : string := "SKIN_OWNER#" +:+ display_int user_id.
Definition content_ref_index_partition (content_ref : string) : string := "SKINREF#" +:+ content_ref.
Definition create_idempotency_partition (user_id : Z) : string := "SKIN_CREATE#" +:+ display_int user_id.

(** [trim_start_matches]: what follows the prefix has no other one. *)
Definition digest_text (text : string) : string :=
  let digest := reference_for_bytes (as_bytes text) in
  default digest (strip_prefix CONTENT_REF_PREFIX digest).

Definition create_idempotency_sort_key (key : string) : string := "IDEMP#" +:+ digest_text key.

Definition REVIEW_QUEUE_PARTITION : string := "SKIN_REVIEW_QUEUE".
Definition REVIEW_QUEUE_SORT_KEY : string := "REVIEWQUEUE".

(** The rows of a skin and of a user. *)
Definition skin_row (skin_id : Z) (sk : string) : Key := (MainTable, skin_partition skin_id, sk).
Definition skin_meta (skin_id : Z) : Key := skin_row skin_id "META".
Definition revision_row (skin_id revision : Z) : Key := skin_row skin_id (revision_sort_key revision).
Definition account_row (user_id : Z) (sk : string) : Key := (MainTable, "USER#" +:+ display_int user_id, sk).
Definition grant_row (user_id skin_id : Z) : Key := account_row user_id (grant_sort_key skin_id).
Definition create_row (user_id : Z) (key : string) : Key :=
  (MainTable, create_idempotency_partition user_id, create_idempotency_sort_key key).

Definition create_idempotency_item (request_hash : string) (skin_id created_at_ms : Z) : Item :=
  list_to_map [("skinId", AV_N skin_id); ("requestHash", AV_S request_hash);
               ("createdAtMs", AV_N created_at_ms)].

Definition newline : string := String "010"%char EmptyString.

Definition review_decision_sort_key (publication : Publication) (revision : option Z)
    (content_ref : option string) (actor_user_id : Z) (reason : option string) : string :=
  let identity :=
    publication_str publication +:+ newline
    +:+ match revision with Some r => display_uint r | None => "" end +:+ newline
    +:+ default "" content_ref +:+ newline +:+ display_int actor_user_id +:+ newline
    +:+ default "" reason in
  "REVIEW#" +:+ digest_text identity.

(** An optional attribute. *)
Definition opt_attr (a : string) (v : option AttributeValue) : list (string * AttributeValue) :=
  match v with Some v => [(a, v)] | None => [] end.

Definition review_decision_item (publication : Publication) (revision : option Z)
    (content_ref : option string) (actor_user_id : Z) (reason : option string) (at_ms : Z) : Item :=
  list_to_map ([("publication", AV_S (publication_str publication));
                ("actorUserId", AV_N actor_user_id); ("atMs", AV_N at_ms)]
               ++ opt_attr "revision" (AV_N <$> revision)
               ++ opt_attr "contentRef" (AV_S <$> content_ref)
               ++ opt_attr "reason" (AV_S <$> reason)).

Definition review_queue_item (skin_id requested_at_ms : Z) : Item :=
  list_to_map [("skinId", AV_N skin_id); ("requestedAtMs", AV_N requested_at_ms);
               ("gsi1pk", AV_S REVIEW_QUEUE_PARTITION); ("gsi1sk", AV_S (sortable requested_at_ms))].

Definition skin_item (skin : Skin) : Item :=
  list_to_map
    ([("skinId", AV_N (sk_skin_id skin)); ("kind", AV_S (kind_str (sk_kind skin)));
      ("namespace", AV_S (namespace_str (sk_namespace skin)));
      ("creatorUserId", AV_N (sk_creator_user_id skin))]
     ++ opt_attr "creatorUsername" (AV_S <$> sk_creator_username skin)
     ++ [("name", AV_S (sk_name skin)); ("publication", AV_S (publication_str (sk_publication skin)))]
     ++ opt_attr "pendingRevision" (AV_N <$> sk_pending_revision skin)
     ++ [("priceBux", AV_N (sk_price_bux skin)); ("headRevision", AV_N (sk_head_revision skin));
         ("headContentRef", AV_S (sk_head_content_ref skin))]
     ++ opt_attr "publishedRevision" (AV_N <$> sk_published_revision skin)
     ++ opt_attr "publishedContentRef" (AV_S <$> sk_published_content_ref skin)
     ++ [("createdAtMs", AV_N (sk_created_at_ms skin)); ("updatedAtMs", AV_N (sk_updated_at_ms skin));
         ("ownerCount", AV_N (sk_owner_count skin)); ("wearerCount", AV_N (sk_wearer_count skin))]
     ++ opt_attr "publishedAtMs" (AV_N <$> sk_published_at_ms skin)
     ++ [("gsi2pk", AV_S (owner_index_partition (sk_creator_user_id skin)));
         ("gsi2sk", AV_S (sortable (sk_created_at_ms skin)))]
     ++ if is_publishable (sk_namespace skin) && is_browsable (sk_publication skin)
        then [("gsi1pk", AV_S (published_index_partition (sk_kind skin)));
              ("gsi1sk", AV_S (sortable (default (sk_updated_at_ms skin) (sk_published_at_ms skin))))]
        else []).

(** [read_number] at a type: what does not fit is [None]. *)
Definition read_number (lo hi : Z) (item : Item) (a : string) : option Z :=
  match item !! a with
  | Some (AV_N n) => if (lo <=? n) && (n <=? hi) then Some n else None
  | _ => None
  end.
Definition read_i32 : Item -> string -> option Z := read_number i32_min i32_max.
Definition read_u32 : Item -> string -> option Z := read_number 0 u32_max.
Definition read_i64 : Item -> string -> option Z := read_number (- 2 ^ 63) (2 ^ 63 - 1).

Definition read_flag (item : Item) (a : string) : bool := bool_decide (item !! a = Some (AV_BOOL true)).

Definition skin_from_item (item : Item) : Result Skin :=
  skin_id ← context "skin item has no id" (read_i32 item "skinId");
  kind ← context "skin item has no usable kind" (extract_string item "kind" ≫= kind_parse);
  creator ← context "skin item has no creator" (read_i32 item "creatorUserId");
  Ok {| sk_skin_id := skin_id;
        sk_kind := kind;
        sk_namespace := match extract_string item "namespace" with
                        | None => Production
                        | Some value => default Evaluation (namespace_parse value)
                        end;
        sk_creator_user_id := creator;
        sk_creator_username := extract_string item "creatorUsername";
        sk_name := default "" (extract_string item "name");
        sk_publication := default Disabled (extract_string item "publication" ≫= publication_parse);
        sk_pending_revision := read_u32 item "pendingRevision";
        sk_price_bux := default 0 (read_u32 item "priceBux");
        sk_head_revision := default 1 (read_u32 item "headRevision");
        sk_published_revision := read_u32 item "publishedRevision";
        sk_head_content_ref := default "" (extract_string item "headContentRef");
        sk_published_content_ref := extract_string item "publishedContentRef";
        sk_created_at_ms := default 0 (read_i64 item "createdAtMs");
        sk_updated_at_ms := default 0 (read_i64 item "updatedAtMs");
        sk_published_at_ms := read_i64 item "publishedAtMs";
        sk_owner_count := default 0 (read_u32 item "ownerCount");
        sk_wearer_count := default 0 (read_u32 item "wearerCount") |}.

Definition revision_item (skin_id revision : Z) (new : NewRevision) (created_at_ms : Z) : Item :=
  list_to_map
    ([("skinId", AV_N skin_id); ("revision", AV_N revision); ("contentRef", AV_S (nr_content_ref new));
      ("document", AV_S (nr_document new))]
     ++ match nr_texture_refs new with [] => [] | refs => [("textureRefs", AV_SS refs)] end
     ++ [("validatedSchema", AV_N (nr_validated_schema new)); ("reviewApproved", AV_BOOL false);
         ("containsText", AV_BOOL (nr_contains_text new)); ("createdAtMs", AV_N created_at_ms);
         ("gsi1pk", AV_S (content_ref_index_partition (nr_content_ref new)));
         ("gsi1sk", AV_S ("SKIN#" +:+ padded_int 10 skin_id +:+ "#" +:+ revision_sort_key revision))]).

(** [sort] and [dedup]. *)
Fixpoint dedup (l : list string) : list string :=
  match l with
  | [] => []
  | a :: l' => match l' with
               | b :: _ => if bool_decide (a = b) then dedup l' else a :: dedup l'
               | [] => [a]
               end
  end.
Definition string_le (a b : string) : Prop := String.leb a b = true.
#[global] Instance string_le_dec a b : Decision (string_le a b).
Proof. unfold string_le. apply _. Defined.
Definition canonical_refs (refs : list string) : list string := dedup (merge_sort string_le refs).

Class SkinDocs := { document_contains_authored_text : string -> bool }.

Section store.
Context {SD : SkinDocs}.

Definition revision_from_item (item : Item) : Result SkinRevision :=
  let document := default "" (extract_string item "document") in
  let contains_text :=
    match item !! "containsText" with
    | Some (AV_BOOL value) => value
    | _ => document_contains_authored_text document
    end in
  skin_id ← context "revision has no skin id" (read_i32 item "skinId");
  revision ← context "revision has no number" (read_u32 item "revision");
  content_ref ← context "revision has no content reference" (extract_string item "contentRef");
  Ok {| rv_skin_id := skin_id;
        rv_revision := revision;
        rv_content_ref := content_ref;
        rv_document := document;
        rv_texture_refs := match item !! "textureRefs" with
                           | Some (AV_SS refs) => canonical_refs refs
                           | _ => []
                           end;
        rv_validated_schema := default 1 (read_u32 item "validatedSchema");
        rv_exposed_at_ms := read_i64 item "exposedAtMs";
        rv_review_approved := read_flag item "reviewApproved";
        rv_review_rejected := read_flag item "reviewRejected";
        rv_contains_text := contains_text;
        rv_created_at_ms := default 0 (read_i64 item "createdAtMs") |}.

Definition grant_item (skin_id : Z) (source : GrantSource) (price_paid_bux acquired_at_ms : Z) : Item :=
  list_to_map [("skinId", AV_N skin_id); ("source", AV_S (grant_source_str source));
               ("pricePaidBux", AV_N price_paid_bux); ("acquiredAtMs", AV_N acquired_at_ms)].

Definition grant_from_item (item : Item) : option SkinGrant :=
  skin_id ← read_i32 item "skinId";
  Some {| sg_skin_id := skin_id;
          sg_acquired_at_ms := default 0 (read_i64 item "acquiredAtMs");
          sg_price_paid_bux := default 0 (read_u32 item "pricePaidBux");
          sg_source := default GrantGrant (extract_string item "source" ≫= grant_source_parse) |}.

(** ** Reads *)

Definition transpose {A} (f : Item -> Result A) (item : option Item) : Result (option A) :=
  match item with Some item => a ← f item; Ok (Some a) | None => Ok None end.

Definition get_skin_consistent (skin_id : Z) : Db (option Skin) :=
  item ← get true (skin_meta skin_id) "Failed to read skin consistently";
  lift (transpose skin_from_item item).

Definition get_skin (skin_id : Z) : Db (option Skin) :=
  item ← get true (skin_meta skin_id) "Failed to read skin";
  lift (transpose skin_from_item item).

Definition get_skin_revision_consistent (skin_id revision : Z) : Db (option SkinRevision) :=
  item ← get true (revision_row skin_id revision) "Failed to read skin revision consistently";
  lift (transpose revision_from_item item).

Definition get_skin_revision (skin_id revision : Z) : Db (option SkinRevision) :=
  item ← get true (revision_row skin_id revision) "Failed to read skin revision";
  lift (transpose revision_from_item item).

Definition revision_matches (stored : SkinRevision) (proposed : NewRevision) : bool :=
  bool_decide (rv_content_ref stored = nr_content_ref proposed)
  && bool_decide (rv_document stored = nr_document proposed)
  && bool_decide (rv_texture_refs stored = canonical_refs (nr_texture_refs proposed))
  && (rv_validated_schema stored =? nr_validated_schema proposed)
  && bool_decide (rv_contains_text stored = nr_contains_text proposed).

Definition get_skin_create_idempotency (user_id : Z) (key : string) : Db (option (Z * string)) :=
  item ← get true (create_row user_id key) "Failed to reconcile skin creation";
  mret (item ← item; skin_id ← extract_number item "skinId"; hash ← extract_string item "requestHash";
        Some (skin_id, hash)).

Definition generate_id_for_entity (entity_type : string) : Db Z :=
  UpdateReturning (MainTable, "COUNTER", entity_type) [Count "counter" 999 1] (fun r =>
    match r with
    | None => fail "Failed to generate ID"
    | Some attributes =>
        lift (context "Failed to extract counter value" (extract_number attributes "counter"))
    end).

(** ** Creation and revisions *)

(** The skin a creation marker names. *)
Definition reconcile_creation (user_id : Z) (idempotency : option (string * string))
  : Db (option Skin) :=
  match idempotency with
  | None => mret None
  | Some (key, request_hash) =>
      marker ← get_skin_create_idempotency user_id key;
      match marker with
      | None => mret None
      | Some (skin_id, stored_hash) =>
          if bool_decide (stored_hash <> request_hash) then fail IdempotencyKeyReused
          else
            skin ← get_skin_consistent skin_id;
            skin ← lift (context "Skin creation marker points to a missing skin" skin);
            mret (Some skin)
      end
  end.

Definition new_skin (draft : NewSkin) (skin_id now : Z) : Skin :=
  {| sk_skin_id := skin_id; sk_kind := ns_kind draft; sk_namespace := ns_namespace draft;
     sk_creator_user_id := ns_creator_user_id draft; sk_creator_username := ns_creator_username draft;
     sk_name := ns_name draft; sk_publication := Private; sk_pending_revision := None;
     sk_price_bux := 0; sk_head_revision := 1; sk_published_revision := None;
     sk_head_content_ref := nr_content_ref (ns_revision draft); sk_published_content_ref := None;
     sk_created_at_ms := now; sk_updated_at_ms := now; sk_published_at_ms := None;
     sk_owner_count := 1; sk_wearer_count := 0 |}.

Definition create_tx (draft : NewSkin) (idempotency : option (string * string)) (skin_id now : Z)
  : list TransactWriteItem :=
  [Put (skin_meta skin_id) (skin_item (new_skin draft skin_id now)) (Some (AttributeNotExists "pk"));
   Put (revision_row skin_id 1) (revision_item skin_id 1 (ns_revision draft) now) None;
   Put (grant_row (ns_creator_user_id draft) skin_id) (grant_item skin_id GrantOwnCreation 0 now) None]
  ++ match idempotency with
     | Some (key, request_hash) =>
         [Put (create_row (ns_creator_user_id draft) key)
            (create_idempotency_item request_hash skin_id now) (Some row_absent)]
     | None => []
     end.

Definition create_skin (draft : NewSkin) : Db Skin :=
  idempotency ← lift match ns_idempotency_key draft, ns_request_hash draft with
                     | Some key, Some request_hash => Ok (Some (key, request_hash))
                     | None, None => Ok None
                     | _, _ => Err "Skin create idempotency key and request hash must travel together"
                     end;
  existing ← reconcile_creation (ns_creator_user_id draft) idempotency;
  match existing with
  | Some skin => mret skin
  | None =>
      skin_id ← generate_id_for_entity "SKIN";
      now ← now;
      r ← transact (create_tx draft idempotency skin_id now);
      match r with
      | TxOk => mret (new_skin draft skin_id now)
      | _ =>
          resolved ← reconcile_creation (ns_creator_user_id draft) idempotency;
          match resolved with
          | Some skin => mret skin
          | None => fail "Failed to atomically create skin"
          end
      end
  end.

Definition revision_tx (skin_id expected_head next : Z) (revision : NewRevision) (now : Z)
  : list TransactWriteItem :=
  [Put (revision_row skin_id next) (revision_item skin_id next revision now) (Some row_absent);
   Update (skin_meta skin_id)
     [Set_ "headRevision" (AV_N next); Set_ "headContentRef" (AV_S (nr_content_ref revision));
      Set_ "updatedAtMs" (AV_N now)]
     (Equals "headRevision" (AV_N expected_head))].

(** Whether the head is [next] with exactly the proposed content. *)
Definition head_is (skin : Skin) (skin_id next : Z) (revision : NewRevision) : Db bool :=
  if (sk_head_revision skin =? next) && bool_decide (sk_head_content_ref skin = nr_content_ref revision)
  then
    stored ← get_skin_revision_consistent skin_id next;
    mret match stored with Some stored => revision_matches stored revision | None => false end
  else mret false.

Definition advanced (skin : Skin) (next : Z) (revision : NewRevision) (now : Z) : Skin :=
  {| skin with sk_head_revision := next; sk_head_content_ref := nr_content_ref revision;
               sk_updated_at_ms := now |}.

Definition put_skin_revision (skin_id expected_head : Z) (revision : NewRevision) : Db Skin :=
  skin ← get_skin_consistent skin_id;
  skin ← lift (context "Skin not found" skin);
  unchanged ←
    (if (sk_head_revision skin =? expected_head)
        && bool_decide (sk_head_content_ref skin = nr_content_ref revision)
     then
       stored ← get_skin_revision_consistent skin_id expected_head;
       stored ← lift (context "Skin head revision is missing" stored);
       mret (revision_matches stored revision)
     else mret false);
  if unchanged : bool then mret skin
  else
    next ← lift (if expected_head <? u32_max then Ok (expected_head + 1)
                 else Err "Skin revision counter overflowed");
    committed ← head_is skin skin_id next revision;
    if committed : bool then mret skin
    else if negb (sk_head_revision skin =? expected_head) then fail HeadChanged
    else
      now ← now;
      r ← transact (revision_tx skin_id expected_head next revision now);
      match r with
      | TxOk => mret (advanced skin next revision now)
      | _ =>
          current ← get_skin_consistent skin_id;
          current ← lift (context "Skin disappeared while appending a revision" current);
          committed ← head_is current skin_id next revision;
          if committed : bool then mret current
          else if negb (sk_head_revision current =? expected_head) then fail HeadChanged
          else fail "Failed to atomically append a skin revision"
      end.

Definition update_skin_metadata (skin_id : Z) (name : option string) (price_bux : option Z) : Db unit :=
  now ← now;
  write [Update (skin_meta skin_id)
           ([Set_ "updatedAtMs" (AV_N now)] ++ set_opt "name" (AV_S <$> name)
            ++ set_opt "priceBux" (AV_N <$> price_bux))
           (AttributeExists "pk")]
    "Failed to update skin metadata".

(** ** Review and publication *)

(** A publication that was decided, without a condition on the one before. *)
Definition publication_tx (skin_id : Z) (kind : SkinKind) (publication : Publication) (published : option (Z * string))
    (now : Z) : list TransactWriteItem :=
  [Update (skin_meta skin_id)
     ([Set_ "publication" (AV_S (publication_str publication)); Set_ "updatedAtMs" (AV_N now)]
      ++ match published with
         | Some (revision, content_ref) =>
             [Set_ "publishedRevision" (AV_N revision); Set_ "publishedContentRef" (AV_S content_ref);
              Set_ "publishedAtMs" (AV_N now)]
         | None => []
         end
      ++ if is_browsable publication
         then [Set_ "gsi1pk" (AV_S (published_index_partition kind));
               Set_ "gsi1sk" (AV_S (sortable now))]
         else [Remove "gsi1pk"; Remove "gsi1sk"])
     (AttributeExists "pk")].

Definition set_skin_publication (skin_id : Z) (publication : Publication)
    (published_revision : option Z) (actor_user_id : Z) (reason : option string) : Db unit :=
  now ← now;
  skin ← get_skin skin_id;
  skin ← lift (context "Skin not found" skin);
  published ←
    match published_revision with
    | Some revision =>
        stored ← get_skin_revision skin_id revision;
        stored ← lift (context "Cannot publish a revision that does not exist" stored);
        mret (Some (revision, rv_content_ref stored))
    | None => mret None
    end;
  write (publication_tx skin_id (sk_kind skin) publication published now)
    "Failed to change skin publication" ≫= fun _ =>
  write [Put (skin_row skin_id ("REVIEW#" +:+ sortable now))
           (list_to_map ([("publication", AV_S (publication_str publication));
                          ("actorUserId", AV_N actor_user_id); ("atMs", AV_N now)]
                         ++ opt_attr "reason" (AV_S <$> reason))) None]
    "Failed to record a skin publication decision".

Definition pending_tx (skin_id : Z) (revision : option Z) (now : Z) : list TransactWriteItem :=
  match revision with
  | Some revision =>
      [Update (skin_meta skin_id) [Set_ "pendingRevision" (AV_N revision)]
         (And (AttributeExists "pk")
            (Or (AttributeNotExists "pendingRevision") (Equals "pendingRevision" (AV_N revision))));
       Put (skin_row skin_id REVIEW_QUEUE_SORT_KEY) (review_queue_item skin_id now) None]
  | None =>
      [Update (skin_meta skin_id) [Remove "pendingRevision"]
         (And (AttributeExists "pk") (AttributeNotExists "pendingRevision"));
       Delete (skin_row skin_id REVIEW_QUEUE_SORT_KEY) Always]
  end.

Definition set_skin_pending_revision (skin_id : Z) (revision : option Z) : Db unit :=
  current ← get_skin_consistent skin_id;
  current ← lift (context "Skin not found" current);
  if bool_decide (sk_pending_revision current = revision) then mret tt
  else
    match revision with
    | Some revision =>
        stored ← get_skin_revision_consistent skin_id revision;
        lift (ensure (is_some stored) "Cannot review a revision that does not exist")
    | None => mret tt
    end ≫= fun _ =>
    (* The clock is read for the marker only. *)
    now ← now;
    r ← transact (pending_tx skin_id revision now);
    match r with
    | TxOk => mret tt
    | _ =>
        after ← get_skin_consistent skin_id;
        after ← lift (context "Skin disappeared while opening review" after);
        if bool_decide (sk_pending_revision after = revision) then mret tt
        else
          match r with
          | TxCanceled _ => fail ReviewTargetChanged
          | _ => if is_some revision && is_some (sk_pending_revision after) then fail ReviewTargetChanged
                 else fail "Failed to atomically update the pending review"
          end
    end.

Definition clear_tx (skin_id expected_revision : Z) : list TransactWriteItem :=
  [Update (skin_meta skin_id) [Remove "pendingRevision"]
     (And (AttributeExists "pk") (Equals "pendingRevision" (AV_N expected_revision)));
   Delete (skin_row skin_id REVIEW_QUEUE_SORT_KEY) Always].

Definition clear_skin_pending_revision_exact (skin_id expected_revision : Z) : Db unit :=
  current ← get_skin_consistent skin_id;
  current ← lift (context "Skin not found" current);
  match sk_pending_revision current with
  | None => mret tt
  | Some revision =>
      if negb (revision =? expected_revision) then fail ReviewTargetChanged
      else
        r ← transact (clear_tx skin_id expected_revision);
        match r with
        | TxOk => mret tt
        | _ =>
            after ← get_skin_consistent skin_id;
            after ← lift (context "Skin disappeared while cancelling review" after);
            match sk_pending_revision after with
            | None => mret tt
            | Some revision =>
                match r with
                | TxCanceled _ => fail ReviewTargetChanged
                | _ => if negb (revision =? expected_revision) then fail ReviewTargetChanged
                       else fail "Failed to atomically cancel the exact pending review"
                end
            end
        end
  end.

Definition approve_skin_revision (skin_id revision : Z) : Db unit :=
  write [Update (revision_row skin_id revision)
           [Set_ "reviewApproved" (AV_BOOL true); Remove "reviewRejected"] (AttributeExists "pk")]
    "Failed to approve a skin revision".

(** The transaction of a decision: the skin, the audit row, the queue and, for an
    exact target, the revision. *)
Definition decision_tx (skin_id : Z) (kind : SkinKind) (decision : SkinReviewDecision)
    (target : option (Z * string)) (audit : string * Item) (now : Z) : list TransactWriteItem :=
  let stamp := Set_ "updatedAtMs" (AV_N now) in
  let reviewed revision := And (AttributeExists "pk") (Equals "pendingRevision" (AV_N revision)) in
  let tail :=
    [Put (skin_row skin_id audit.1) audit.2 (Some row_absent);
     Delete (skin_row skin_id REVIEW_QUEUE_SORT_KEY) Always] in
  match decision, target with
  | Publish, Some (revision, content_ref) =>
      Update (skin_meta skin_id)
        [stamp; Set_ "publication" (AV_S (publication_str Published));
         Set_ "publishedRevision" (AV_N revision); Set_ "publishedContentRef" (AV_S content_ref);
         Set_ "publishedAtMs" (AV_N now);
         Set_ "gsi1pk" (AV_S (published_index_partition kind)); Set_ "gsi1sk" (AV_S (sortable now));
         Remove "pendingRevision"]
        (reviewed revision)
      :: tail
      ++ [Update (revision_row skin_id revision)
            [Set_ "reviewApproved" (AV_BOOL true); Remove "reviewRejected"]
            (And (AttributeExists "pk") (Equals "contentRef" (AV_S content_ref)))]
  | Reject, Some (revision, content_ref) =>
      Update (skin_meta skin_id) [stamp; Remove "pendingRevision"] (reviewed revision)
      :: tail
      ++ [Update (revision_row skin_id revision) [Set_ "reviewRejected" (AV_BOOL true)]
            (And (AttributeExists "pk")
               (And (Equals "contentRef" (AV_S content_ref))
                  (Or (AttributeNotExists "reviewApproved")
                      (Equals "reviewApproved" (AV_BOOL false)))))]
  | SetPublication publication, _ =>
      Update (skin_meta skin_id)
        [stamp; Set_ "publication" (AV_S (publication_str publication));
         Remove "pendingRevision"; Remove "gsi1pk"; Remove "gsi1sk"]
        (AttributeExists "pk")
      :: tail
  | _, None => []
  end.

(** An exact decision that is already in the store. *)
Definition already_decided (decision : SkinReviewDecision) (skin : Skin) (revision : Z)
    (content_ref : string) (stored : SkinRevision) : bool :=
  match decision with
  | Publish =>
      bool_decide (sk_publication skin = Published)
      && bool_decide (sk_published_revision skin = Some revision)
      && bool_decide (sk_published_content_ref skin = Some content_ref)
      && negb (is_some (sk_pending_revision skin)) && rv_review_approved stored
  | Reject =>
      negb (is_some (sk_pending_revision skin)) && rv_review_rejected stored
      && negb (rv_review_approved stored)
  | SetPublication _ => false
  end.

(** The target of a decision: [None] when there is nothing left to do. *)
Definition decision_target (skin : Skin) (skin_id : Z) (decision : SkinReviewDecision)
    (revision : option Z) (content_ref : option string) : Db (option (option (Z * string))) :=
  match decision with
  | SetPublication _ =>
      if is_some revision || is_some content_ref then fail ReviewTargetChanged else mret (Some None)
  | _ =>
      lift (ensure (match decision with Publish => is_publishable (sk_namespace skin) | _ => true end)
              EvaluationOnly) ≫= fun _ =>
      revision ← lift (context ReviewTargetChanged revision);
      content_ref ← lift (context ReviewTargetChanged content_ref);
      stored ← get_skin_revision_consistent skin_id revision;
      stored ← lift (context ReviewTargetChanged stored);
      if bool_decide (rv_content_ref stored <> content_ref) then fail ReviewTargetChanged
      else if already_decided decision skin revision content_ref stored then mret None
      else if bool_decide (sk_pending_revision skin <> Some revision) then fail ReviewTargetChanged
      else mret (Some (Some (revision, content_ref)))
  end.

(** Whether the store is as the decision leaves it. *)
Definition decision_converged (current : Skin) (skin_id : Z) (decision : SkinReviewDecision)
    (target : option (Z * string)) : Db bool :=
  match decision, target with
  | Publish, Some (revision, content_ref) =>
      if bool_decide (sk_publication current = Published)
         && bool_decide (sk_published_revision current = Some revision)
         && bool_decide (sk_published_content_ref current = Some content_ref)
         && negb (is_some (sk_pending_revision current))
      then
        stored ← get_skin_revision_consistent skin_id revision;
        mret match stored with
             | Some stored => rv_review_approved stored && bool_decide (rv_content_ref stored = content_ref)
             | None => false
             end
      else mret false
  | Reject, Some (revision, content_ref) =>
      if negb (is_some (sk_pending_revision current)) then
        stored ← get_skin_revision_consistent skin_id revision;
        mret match stored with
             | Some stored => bool_decide (rv_content_ref stored = content_ref)
                              && rv_review_rejected stored && negb (rv_review_approved stored)
             | None => false
             end
      else mret false
  | SetPublication publication, _ =>
      mret (bool_decide (sk_publication current = publication)
            && negb (is_some (sk_pending_revision current)))
  | _, None => fail ReviewTargetChanged
  end.

Definition audit_publication (decision : SkinReviewDecision) : Publication :=
  match decision with Publish => Published | Reject => Private | SetPublication p => p end.

Definition decide_skin_review (skin_id : Z) (decision : SkinReviewDecision) (revision : option Z)
    (content_ref : option string) (actor_user_id : Z) (reason : option string) : Db unit :=
  skin ← get_skin_consistent skin_id;
  skin ← lift (context "Skin not found" skin);
  match decision with
  | SetPublication Published => fail ReviewTargetChanged
  | _ =>
      target ← decision_target skin skin_id decision revision content_ref;
      match target with
      | None => mret tt
      | Some target =>
          now ← now;
          let publication := audit_publication decision in
          let audit :=
            (review_decision_sort_key publication revision content_ref actor_user_id reason,
             review_decision_item publication revision content_ref actor_user_id reason now) in
          r ← transact (decision_tx skin_id (sk_kind skin) decision target audit now);
          match r with
          | TxOk => mret tt
          | _ =>
              current ← get_skin_consistent skin_id;
              current ← lift (context "Skin disappeared while finishing review" current);
              converged ← decision_converged current skin_id decision target;
              if converged : bool then mret tt
              else
                match r with
                | TxCanceled _ => fail ReviewTargetChanged
                | _ => fail "Failed to atomically finish skin review"
                end
          end
      end
  end.

Definition mark_revision_exposed (skin_id revision at_ms : Z) : Db unit :=
  r ← transact [Update (revision_row skin_id revision) [Set_ "exposedAtMs" (AV_N at_ms)]
                  (And (AttributeExists "pk") (AttributeNotExists "exposedAtMs"))];
  match r with
  | TxOk | TxCanceled true => mret tt
  | _ => fail "Failed to record skin exposure"
  end.

(** ** Grants and equipment *)

Definition grant_tx (user_id skin_id : Z) (source : GrantSource) (price_paid_bux now : Z)
  : list TransactWriteItem :=
  [Put (grant_row user_id skin_id) (grant_item skin_id source price_paid_bux now)
     (Some (AttributeNotExists "pk"));
   Update (skin_meta skin_id) [Add "ownerCount" 1] Always].

Definition grant_skin (user_id skin_id : Z) (source : GrantSource) (price_paid_bux : Z) : Db unit :=
  now ← now;
  r ← transact (grant_tx user_id skin_id source price_paid_bux now);
  match r with
  | TxOk | TxCanceled true => mret tt
  | _ => fail "Failed to grant a skin"
  end.

Definition adjust_skin_wearers (skin_id delta : Z) : Db unit :=
  r ← transact [Update (skin_meta skin_id) [Add "wearerCount" delta] (AttributeExists "pk")];
  match r with
  | TxOk | TxCanceled true => mret tt
  | _ => fail "Failed to adjust a skin wearer count"
  end.

Definition list_skin_grants (user_id : Z) : Db (list SkinGrant) :=
  query ("USER#" +:+ display_int user_id) None "Failed to list skin grants" ≫= fun items : list Item =>
  mret (omap grant_from_item items).

(** Read without consistency. *)
Definition has_skin_grant (user_id skin_id : Z) : Db bool :=
  item ← get false (grant_row user_id skin_id) "Failed to check a skin grant";
  mret (is_some item).

(** A slot is left alone, cleared or set. *)
Definition slot_actions (attribute : string) (slot : option (option string)) : list UpdateAction :=
  match slot with
  | None => []
  | Some None => [Remove attribute]
  | Some (Some reference) => [Set_ attribute (AV_S reference)]
  end.

Definition set_user_equipment (user_id : Z) (selected_skin selected_base : option (option string))
  : Db unit :=
  match slot_actions "selectedSkin" selected_skin ++ slot_actions "selectedBase" selected_base with
  | [] => mret tt
  | actions => write [Update (account_row user_id "META") actions row_present]
                 "Failed to update user equipment"
  end.

(** ** Handlers *)

Record AuthUser := mkAuthUser {
  au_user_id : Z;
  au_username : string;
  au_is_guest : bool;
  au_is_admin : bool
}.

Definition NotFound : string := "No such skin".
Definition Gone : string := "This skin has been removed".
Definition NotOwned : string := "Get this skin before wearing it".

Definition load_visible_skin (skin_id : Z) (user : AuthUser) : Db Skin :=
  skin ← get_skin skin_id;
  skin ← lift (context NotFound skin);
  if may_view skin (Some (au_user_id user)) (au_is_admin user) then mret skin else fail NotFound.

Record PublicationRequest := mkPublicationRequest { pr_revision : Z; pr_content_ref : string }.

Definition request_publication (user : AuthUser) (skin_id : Z) (request : PublicationRequest) : Db unit :=
  skin ← load_visible_skin skin_id user;
  if negb (may_edit skin (au_user_id user) (au_is_admin user)) then fail NotFound
  else if bool_decide (sk_publication skin = Disabled) then fail Gone
  else if negb (is_publishable (sk_namespace skin))
  then fail "evaluation-only skins cannot request publication"
  else
    revision ← get_skin_revision skin_id (pr_revision request);
    revision ← lift (context "the requested immutable revision does not exist" revision);
    if bool_decide (rv_content_ref revision <> pr_content_ref request)
    then fail "publication request must bind the exact revision content hash"
    else set_skin_pending_revision skin_id (Some (pr_revision request)).

Definition cancel_publication_request (user : AuthUser) (skin_id : Z) (request : PublicationRequest)
  : Db unit :=
  skin ← load_visible_skin skin_id user;
  if negb (may_edit skin (au_user_id user) (au_is_admin user)) then fail NotFound
  else if negb (is_publishable (sk_namespace skin))
  then fail "evaluation-only skins have no publication request"
  else
    revision ← get_skin_revision skin_id (pr_revision request);
    revision ← lift (context "the requested immutable revision does not exist" revision);
    if bool_decide (rv_content_ref revision <> pr_content_ref request)
    then fail "publication cancellation must bind the exact revision content hash"
    else clear_skin_pending_revision_exact skin_id (pr_revision request).

Definition REPORT_REASONS : list string := ["offensive"; "impersonation"; "copyright"; "other"].
Definition MAX_REPORT_NOTE_LENGTH : Z := 500.

(** [str::chars().count()]: every byte but the continuation bytes. *)
Fixpoint char_count (s : string) : Z :=
  match s with
  | EmptyString => 0
  | String c s' =>
      let b := byte_of c in (if (128 <=? b) && (b <? 192) then 0 else 1) + char_count s'
  end.

Definition report_skin (user : AuthUser) (skin_id : Z) (reason : string) (note : option string) : Db unit :=
  if negb (bool_decide (reason ∈ REPORT_REASONS)) then fail "reason: must be one of"
  else if match note with Some note => MAX_REPORT_NOTE_LENGTH <? char_count note | None => false end
  then fail "note: must be at most 500 characters"
  else
    skin ← get_skin skin_id;
    skin ← lift (context NotFound skin);
    let text := "reported (" +:+ reason +:+ ") by " +:+ au_username user
                +:+ match note with Some note => ": " +:+ note | None => "" end in
    set_skin_publication skin_id (sk_publication skin) None (au_user_id user) (Some text).

Record AdminStatusRequest := mkAdminRequest {
  ar_decision : option string;
  ar_publication : option string;
  ar_revision : option Z;
  ar_content_ref : option string;
  ar_reason : option string
}.

Definition parse_admin_skin_decision (request : AdminStatusRequest) : Result SkinReviewDecision :=
  let publication := ar_publication request ≫= publication_parse in
  match ar_decision request with
  | None =>
      publication ← context "decision: publish, reject, or setPublication is required" publication;
      Ok (if bool_decide (publication = Published) then Publish else SetPublication publication)
  | Some decision =>
      if bool_decide (decision = "publish") && negb (is_some (ar_publication request)) then Ok Publish
      else if bool_decide (decision = "reject") && negb (is_some (ar_publication request)) then Ok Reject
      else if bool_decide (decision = "setPublication") then
        publication ← context "publication: setPublication requires a valid state" publication;
        ensure (bool_decide (publication <> Published)) "decision: use publish with an exact review target" ;;
        Ok (SetPublication publication)
      else Err "decision: is not publish, reject, or setPublication"
  end.

Definition validate_admin_skin_target (request : AdminStatusRequest) (decision : SkinReviewDecision)
  : Result unit :=
  match decision with
  | Publish | Reject =>
      ensure (is_some (ar_revision request) && is_some (ar_content_ref request))
        "revision and contentRef: both exact review targets are required to decide review"
  | SetPublication _ =>
      ensure (negb (is_some (ar_revision request) || is_some (ar_content_ref request)))
        "revision and contentRef: are only accepted for publish or reject"
  end.

Definition admin_set_status (user : AuthUser) (skin_id : Z) (request : AdminStatusRequest) : Db Skin :=
  decision ← lift (parse_admin_skin_decision request);
  lift (validate_admin_skin_target request decision) ≫= fun _ =>
  match decision with
  | Publish =>
      skin ← get_skin skin_id;
      skin ← lift (context NotFound skin);
      lift (ensure (is_publishable (sk_namespace skin)) "evaluation-only skins cannot be published")
  | _ => mret tt
  end ≫= fun _ =>
  decide_skin_review skin_id decision (ar_revision request) (ar_content_ref request) (au_user_id user)
    (ar_reason request) ≫= fun _ =>
  updated ← get_skin skin_id;
  lift (context NotFound updated).

(** What one slot of a request asks for. *)
Inductive SlotRequest := Untouched | Cleared | Named (inner : string).

Definition read_slot (requested : option (option string)) (kind : SkinKind) : Result SlotRequest :=
  match requested with
  | None => Ok Untouched
  | Some None => Ok Cleared
  | Some (Some reference) =>
      let trimmed := trim reference in
      if bool_decide (trimmed = "") then Ok Cleared
      else if MAX_SKIN_REF_LENGTH <? byte_len trimmed then Err "unknown skin"
      else match kind with
           | KindSnake => Ok (Named trimmed)
           | KindBase =>
               match strip_prefix BASE_REF_PREFIX trimmed with
               | Some inner => if bool_decide (inner = "") then Err "unknown skin" else Ok (Named inner)
               | None => Err "unknown skin"
               end
           end
  end.

Definition stored_form (inner : string) (kind : SkinKind) : string :=
  match kind with KindSnake => inner | KindBase => BASE_REF_PREFIX +:+ inner end.

Definition catalogue_reference (inner : string) (kind : SkinKind) : option string :=
  if (bool_decide (kind = KindBase) && bool_decide (inner ∈ BASE_SKINS)) || bool_decide (inner ∈ CATALOG)
  then Some (stored_form inner kind) else None.

Definition wearable_reference (skin : Skin) (viewer : Z) (kind : SkinKind) (owned : bool) : option string :=
  if negb (is_publishable (sk_namespace skin)) then None
  else if bool_decide (sk_kind skin <> kind) || negb (is_some (content_ref_for skin (Some viewer))) then None
  else if negb owned then None
  else Some (stored_form (skin_id_reference (sk_skin_id skin)) kind).

Definition resolve_slot (viewer : Z) (requested : option (option string)) (kind : SkinKind)
  : Db (option (option string)) :=
  slot ← lift (read_slot requested kind);
  match slot with
  | Untouched => mret None
  | Cleared => mret (Some None)
  | Named inner =>
      match equipped_skin_id inner with
      | Some skin_id =>
          skin ← get_skin skin_id;
          skin ← lift (context "unknown skin" skin);
          owned ← (if sk_creator_user_id skin =? viewer then mret true else has_skin_grant viewer skin_id);
          reference ← lift (context NotOwned (wearable_reference skin viewer kind owned));
          mret (Some (Some reference))
      | None =>
          reference ← lift (context "unknown skin" (catalogue_reference inner kind));
          mret (Some (Some reference))
      end
  end.

(** The page of one skin. *)
Definition view_skin (viewer : option AuthUser) (skin_id : Z) : Db Skin :=
  skin ← get_skin skin_id;
  skin ← lift (context NotFound skin);
  holds_grant ← match viewer with
                | Some user => has_skin_grant (au_user_id user) skin_id
                | None => mret false
                end;
  if negb (may_view skin (au_user_id <$> viewer)
             match viewer with Some user => au_is_admin user | None => false end)
     && negb holds_grant
  then fail NotFound else mret skin.

(** The revision of an authored skin that a player wears into a match, recorded as
    exposed to the others in it. *)
Definition resolve_authored_skin (skin_id user_id : Z) : Db (option string) :=
  skin ←? or_else None (get_skin skin_id);
  if negb (is_renderable (sk_publication skin)) then mret None
  else
    desired_revision ←? mret (if sk_creator_user_id skin =? wrap_i32 user_id
                              then Some (sk_head_revision skin) else sk_published_revision skin);
    desired ←? or_else None (get_skin_revision skin_id desired_revision);
    published_fallback ←?
      (if rv_contains_text desired && negb (rv_review_approved desired) then
         published ←? mret (sk_published_revision skin);
         revision ←? or_else None (get_skin_revision skin_id published);
         mret (Some (Some revision))
       else mret (Some None));
    selected ←? mret (match_visible_revision desired published_fallback);
    at_ms ← now;
    _ ← ignore_errors (mark_revision_exposed skin_id (rv_revision selected) at_ms);
    mret (Some (rv_content_ref selected)).

(** Who may read a document by the hash of its bytes. *)
Inductive DocumentVisibility :=
| DocPublic (r : SkinRevision)
| DocPrivate (r : SkinRevision)
| DocGone
| DocHidden.

Definition was_public (content_ref : string) (skin : Skin) (revision : SkinRevision) : bool :=
  bool_decide (sk_published_content_ref skin = Some content_ref)
  || is_some (rv_exposed_at_ms revision)
  || bool_decide (sk_published_revision skin = Some (rv_revision revision)).

Definition text_is_public (revision : SkinRevision) : bool :=
  negb (rv_contains_text revision) || rv_review_approved revision.

Definition resolve_document_visibility (content_ref : string) (candidates : list (Skin * SkinRevision))
    (viewer : option (Z * bool)) : DocumentVisibility :=
  let open c := bool_decide (sk_publication c.1 <> Disabled) in
  let public c := was_public content_ref c.1 c.2 && text_is_public c.2 in
  match List.find (fun c => open c && public c) candidates with
  | Some (_, revision) => DocPublic revision
  | None =>
      let own := match viewer with
                 | Some (user_id, is_admin) =>
                     List.find (fun c => open c && may_edit c.1 user_id is_admin) candidates
                 | None => None
                 end in
      match own with
      | Some (_, revision) => DocPrivate revision
      | None => if existsb (fun c => negb (open c) && public c) candidates then DocGone else DocHidden
      end
  end.
End store.
