(* ===== verification/Wallet.v ===== *)
(** * Snakebux: server/src/wallet.rs and its database methods

    The sources of a ledger entry and its key, who may spend, and the methods of
    server/src/db/dynamodb.rs that move a balance: [apply_ledger_entry],
    [get_wallet], [get_ledger_entry] and [purchase_skin], as programs of
    [Database]. A balance is the attribute boostBux of the account; it is moved by
    transactions only, each of which also writes the row that names the move. *)

From Stdlib Require Import ZArith Ascii Lia.
From stdpp Require Import prelude strings countable list gmap.
From S2P Require Import Prelude RustFloat Util Snake Arena CommandQueue GameState GameSetup.
From S2P Require Import Recording StreamId Journal Rating Completion Content EffectStore EffectLedger.
From S2P Require Import Database SkinCatalog SkinStore.
Open Scope Z_scope.

(** ** Entries *)

Inductive LedgerSource := Xsolla | Refund | Purchase | Admin.
#[global] Instance LedgerSource_eq_dec : EqDecision LedgerSource.
Proof. solve_decision. Defined.

Definition source_str (s : LedgerSource) : string :=
  match s with
  | Xsolla => "XSOLLA"
  | Refund => "REFUND"
  | Purchase => "PURCHASE"
  | Admin => "ADMIN"
  end.

Definition source_parse (value : string) : option LedgerSource :=
  if bool_decide (value = "XSOLLA") then Some Xsolla
  else if bool_decide (value = "REFUND") then Some Refund
  else if bool_decide (value = "PURCHASE") then Some Purchase
  else if bool_decide (value = "ADMIN") then Some Admin else None.

Definition is_client_mintable (s : LedgerSource) : bool :=
  match s with Purchase => true | _ => false end.

Record LedgerEntry := mkLedgerEntry {
  le_source : LedgerSource;
  le_idempotency_key : string;
  le_delta : Z;
  le_request_hash : string;
  le_created_at_ms : Z;
  le_note : option string
}.

Record Wallet := mkWallet { wa_balance_bux : Z; wa_recent : list LedgerEntry }.

Definition may_spend (w : Wallet) (amount_bux : Z) : bool :=
  (0 <=? wa_balance_bux w) && (amount_bux <=? wa_balance_bux w).

(** [u8::is_ascii_hexdigit]. *)
Definition is_ascii_hexdigit (b : Z) : bool :=
  ((48 <=? b) && (b <=? 57)) || ((65 <=? b) && (b <=? 70)) || ((97 <=? b) && (b <=? 102)).

Definition is_valid_client_key (key : string) : bool :=
  let bytes := as_bytes key in
  (length bytes =? 36)%nat
  && forallb (fun ib => if bool_decide (ib.1 ∈ [8; 13; 18; 23]%nat) then ib.2 =? 45
                        else is_ascii_hexdigit ib.2)
       (zip (seq 0 (length bytes)) bytes).

Definition ledger_sort_key (source : LedgerSource) (idempotency_key : string) : string :=
  "TXN#" +:+ source_str source +:+ "#" +:+ idempotency_key.

Definition unit_separator : string := String "031"%char EmptyString.

(** [join]. *)
Fixpoint join (separator : string) (parts : list string) : string :=
  match parts with
  | [] => ""
  | [p] => p
  | p :: parts => p +:+ separator +:+ join separator parts
  end.

Definition request_fingerprint (parts : list string) : string :=
  reference_for_bytes (as_bytes (join unit_separator parts)).

(** ** Moving a balance *)

Definition extract_i64 (item : Item) (a : string) : option Z :=
  let fits n := (- 2 ^ 63 <=? n) && (n <=? 2 ^ 63 - 1) in
  match item !! a with
  | Some (AV_N n) => if fits n then Some n else None
  | Some (AV_S s) => match s with
                     | String "-"%char s' => match s' with
                                             | String "+"%char _ => None
                                             | _ => Z.opp <$> parse_uint (2 ^ 63) s'
                                             end
                     | _ => parse_uint (2 ^ 63 - 1) s
                     end
  | _ => None
  end.

Definition ledger_row (user_id : Z) (source : LedgerSource) (key : string) : Key :=
  account_row user_id (ledger_sort_key source key).
Definition balance_row (user_id : Z) : Key := account_row user_id "META".

(** The row of an entry, with what only some entries have. *)
Definition ledger_item (user_id : Z) (source : LedgerSource) (key : string) (delta : Z)
    (request_hash : string) (now : Z) (more : list (string * AttributeValue)) : Item :=
  list_to_map ([("source", AV_S (source_str source)); ("idempotencyKey", AV_S key);
                ("delta", AV_N delta); ("requestHash", AV_S request_hash); ("createdAtMs", AV_N now)]
               ++ more
               ++ [("gsi2pk", AV_S ("WALLET#" +:+ display_int user_id)); ("gsi2sk", AV_S (sortable now))]).

Definition entry_tx (user_id : Z) (source : LedgerSource) (key : string) (delta : Z)
    (request_hash : string) (note : option string) (now : Z) : list TransactWriteItem :=
  [Put (ledger_row user_id source key)
     (ledger_item user_id source key delta request_hash now (opt_attr "note" (AV_S <$> note)))
     (Some (AttributeNotExists "sk"));
   Update (balance_row user_id) [Add "boostBux" delta] (AttributeExists "pk")].

Definition KeyReused : string := "idempotency key already used for a different request".

Definition apply_ledger_entry (user_id : Z) (source : LedgerSource) (key : string) (delta : Z)
    (request_hash : string) (note : option string) : Db bool :=
  now ← now;
  r ← transact (entry_tx user_id source key delta request_hash note now);
  match r with
  | TxOk => mret true
  | TxCanceled true =>
      existing ← get false (ledger_row user_id source key) "Failed to read an existing ledger entry";
      match existing ≫= (fun item => extract_string item "requestHash") with
      | Some stored => if bool_decide (stored = request_hash) then mret false else fail KeyReused
      | None => fail "User not found"
      end
  | _ => fail "Failed to apply a ledger entry"
  end.

Definition entry_from_item (item : Item) : option LedgerEntry :=
  source ← extract_string item "source";
  source ← source_parse source;
  key ← extract_string item "idempotencyKey";
  Some {| le_source := source; le_idempotency_key := key;
          le_delta := default 0 (extract_i64 item "delta");
          le_request_hash := default "" (extract_string item "requestHash");
          le_created_at_ms := default 0 (extract_i64 item "createdAtMs");
          le_note := extract_string item "note" |}.

(** [clamp(1, 100)]. *)
Definition clamp_limit (n : nat) : nat := Nat.max 1 (Nat.min 100 n).

Definition get_wallet (user_id : Z) (recent_limit : nat) : Db Wallet :=
  item ← get false (balance_row user_id) "Failed to read a wallet balance";
  query ("WALLET#" +:+ display_int user_id) (Some (clamp_limit recent_limit))
    "Failed to read a wallet ledger" ≫= fun items : list Item =>
  mret {| wa_balance_bux := default 0 (item ≫= fun item => extract_i64 item "boostBux");
          wa_recent := omap entry_from_item items |}.

Definition entry_of_row (source : LedgerSource) (key : string) (item : Item) : LedgerEntry :=
  {| le_source := source;
     le_idempotency_key := default key (extract_string item "idempotencyKey");
     le_delta := default 0 (extract_i64 item "delta");
     le_request_hash := default "" (extract_string item "requestHash");
     le_created_at_ms := default 0 (extract_i64 item "createdAtMs");
     le_note := extract_string item "note" |}.

Definition get_ledger_entry (user_id : Z) (source : LedgerSource) (key : string)
  : Db (option LedgerEntry) :=
  get true (ledger_row user_id source key) "Failed to read a ledger entry" ≫= fun item : option Item =>
  mret (entry_of_row source key <$> item).

(** ** Buying a skin *)

Inductive PurchaseOutcome :=
| Purchased
| AlreadyOwned
| PriceChanged (actual_bux : Z)
| InsufficientFunds
| NotPurchasable.

Definition purchase_tx (user_id skin_id price : Z) (key request_hash : string) (now : Z)
  : list TransactWriteItem :=
  [Put (ledger_row user_id Purchase key)
     (ledger_item user_id Purchase key (- price) request_hash now [("skinId", AV_N skin_id)])
     (Some (AttributeNotExists "sk"));
   Update (balance_row user_id) [Add "boostBux" (- price)]
     (And (AttributeExists "pk") (AtLeast "boostBux" price));
   Update (skin_meta skin_id) [Add "ownerCount" 1]
     (And (Equals "priceBux" (AV_N price))
          (Equals "publication" (AV_S (publication_str Published))));
   Put (grant_row user_id skin_id) (grant_item skin_id GrantPurchase price now)
     (Some (AttributeNotExists "sk"))].

(** What a cancelled purchase means. *)
Definition explain_refusal (user_id skin_id expected_price_bux : Z) : Db PurchaseOutcome :=
  owned ← has_skin_grant user_id skin_id;
  if owned : bool then mret AlreadyOwned
  else
    current ← get_skin skin_id;
    mret match current with
         | Some current =>
             if negb (sk_price_bux current =? expected_price_bux)
             then PriceChanged (sk_price_bux current)
             else if bool_decide (sk_publication current <> Published) then NotPurchasable
             else InsufficientFunds
         | None => InsufficientFunds
         end.

Definition purchase_skin (user_id skin_id expected_price_bux : Z) (key request_hash : string)
  : Db PurchaseOutcome :=
  owned ← has_skin_grant user_id skin_id;
  if owned : bool then mret AlreadyOwned
  else
    skin ← get_skin skin_id;
    skin ← lift (context "Skin not found" skin);
    if negb (sk_price_bux skin =? expected_price_bux) then mret (PriceChanged (sk_price_bux skin))
    else if sk_price_bux skin =? 0 then
      grant_skin user_id skin_id GrantGrant 0 ≫= fun _ => mret Purchased
    else if bool_decide (sk_publication skin <> Published) then mret NotPurchasable
    else
      wallet ← get_wallet user_id 1;
      if negb (may_spend wallet (sk_price_bux skin)) then mret InsufficientFunds
      else
        now ← now;
        r ← transact (purchase_tx user_id skin_id (sk_price_bux skin) key request_hash now);
        match r with
        | TxOk => mret Purchased
        | TxCanceled true => explain_refusal user_id skin_id expected_price_bux
        | _ => fail "Failed to purchase a skin"
        end.
