(* ===== verification/Payment.v ===== *)
(** * Payments: server/src/xsolla.rs and server/src/api/wallet.rs

    The configuration of the payment provider, the addresses and signatures of its
    notifications, their reading, and the handlers: the shop, the purchase of a
    skin, the checkout and the webhook with its settlement.

    The SHA-1 digest, the JSON of a notification and the two calls of the token
    interface are the class [PaymentEnv]; the fields of a notification are read by
    the functions of the source. *)

From Stdlib Require Import ZArith Ascii Lia.
From stdpp Require Import prelude strings countable list gmap.
From S2P Require Import Prelude RustFloat Util Snake Arena CommandQueue GameState GameSetup.
From S2P Require Import Recording StreamId Journal Rating Completion Content EffectStore EffectLedger.
From S2P Require Import Database SkinCatalog SkinStore Wallet.
Open Scope Z_scope.

(** ** [IpAddr] and its [FromStr] *)

(** The octets of an address. *)
Inductive IpAddr := V4 (octets : list Z) | V6 (octets : list Z).
#[global] Instance IpAddr_eq_dec : EqDecision IpAddr.
Proof. solve_decision. Defined.

Definition to_digit (radix : Z) (c : ascii) : option Z :=
  let b := byte_of c in
  let d := if (48 <=? b) && (b <=? 57) then Some (b - 48)
           else if (97 <=? b) && (b <=? 122) then Some (b - 87)
           else if (65 <=? b) && (b <=? 90) then Some (b - 55) else None in
  match d with Some d => if d <? radix then Some d else None | None => None end.

(** The digits at the start: their value, their number and the rest. *)
Fixpoint read_digits (radix value : Z) (count : nat) (s : string) : Z * nat * string :=
  match s with
  | String c s' =>
      match to_digit radix c with
      | Some d => read_digits radix (value * radix + d) (S count) s'
      | None => (value, count, s)
      end
  | EmptyString => (value, count, s)
  end.

Definition read_number_at (radix : Z) (max_digits : nat) (allow_zero_prefix : bool) (max : Z) (s : string)
  : option (Z * string) :=
  let '(value, count, rest) := read_digits radix 0 0 s in
  let leading_zero := match s with String "0"%char _ => true | _ => false end in
  if (count =? 0)%nat || (max_digits <? count)%nat
     || (negb allow_zero_prefix && leading_zero && (1 <? count)%nat) || (max <? value)
  then None else Some (value, rest).

(** The separator in front of every group but the first. *)
Definition read_separator {A} (separator : ascii) (index : nat) (inner : string -> option (A * string))
    (s : string) : option (A * string) :=
  match index, s with
  | O, _ => inner s
  | _, String c s' => if bool_decide (c = separator) then inner s' else None
  | _, EmptyString => None
  end.

Definition read_octet (index : nat) : string -> option (Z * string) :=
  read_separator "."%char index (read_number_at 10 3 false 255).

Definition read_ipv4_addr (s : string) : option (list Z * string) :=
  '(a, s) ← read_octet 0 s;
  '(b, s) ← read_octet 1 s;
  '(c, s) ← read_octet 2 s;
  '(d, s) ← read_octet 3 s;
  Some ([a; b; c; d], s).

(** Up to [remaining] groups of sixteen bits from the [index]-th on; an address of
    version 4 may take the place of the last two. *)
Fixpoint read_groups (remaining index : nat) (s : string) : list Z * bool * string :=
  match remaining with
  | O => ([], false, s)
  | S remaining =>
      let embedded := match remaining with
                      | O => None
                      | _ => read_separator ":"%char index read_ipv4_addr s
                      end in
      match embedded with
      | Some ([a; b; c; d], rest) => ([a * 256 + b; c * 256 + d], true, rest)
      | _ =>
          match read_separator ":"%char index (read_number_at 16 4 true u16_max) s with
          | Some (group, rest) =>
              let '(groups, v4, rest) := read_groups remaining (S index) rest in (group :: groups, v4, rest)
          | None => ([], false, s)
          end
      end
  end.

Definition group_octets (groups : list Z) : list Z := groups ≫= to_be_bytes 2.

Definition read_ipv6_addr (s : string) : option (list Z * string) :=
  let '(head, head_ipv4, rest) := read_groups 8 0 s in
  if (length head =? 8)%nat then Some (group_octets head, rest)
  else if head_ipv4 then None
  else match rest with
       | String ":"%char (String ":"%char rest) =>
           let '(tail, _, rest) := read_groups (8 - (length head + 1)) 0 rest in
           Some (group_octets (head ++ replicate (8 - length head - length tail) 0 ++ tail), rest)
       | _ => None
       end.

Definition parse_ip (s : string) : option IpAddr :=
  let read := match read_ipv4_addr s with
              | Some (octets, rest) => Some (V4 octets, rest)
              | None => '(octets, rest) ← read_ipv6_addr s; Some (V6 octets, rest)
              end in
  match read with Some (address, EmptyString) => Some address | _ => None end.

Definition is_loopback (address : IpAddr) : bool :=
  match address with
  | V4 octets => bool_decide (hd_error octets = Some 127)
  | V6 octets => bool_decide (octets = replicate 15 0 ++ [1])
  end.

(** ** The allowlist *)

Record IpPrefix := mkPrefix { ip_address : IpAddr; ip_bits : Z }.

Definition IpPrefix_parse (value : string) : Result IpPrefix :=
  '(address, bits) ←
    match split_once "/"%char value with
    | Some (address, bits) =>
        bits ← context "has a non-numeric prefix length" (parse_uint u8_max bits);
        Ok (address, Some bits)
    | None => Ok (value, None)
    end;
  address ← context "is not an IP address" (parse_ip address);
  let width := match address with V4 _ => 32 | V6 _ => 128 end in
  let bits := default width bits in
  ensure (bits <=? width) "has a prefix length wider than the address" ;;
  Ok (mkPrefix address bits).

Definition masked (network candidate : list Z) (bits : Z) : bool :=
  let whole_bytes := Z.to_nat (bits / 8) in
  let remainder := bits mod 8 in
  if bool_decide (take whole_bytes network <> take whole_bytes candidate) then false
  else if remainder =? 0 then true
  else
    let mask := wrap_u8 (Z.shiftl 0xff (8 - remainder)) in
    Z.land (nth whole_bytes network 0) mask =? Z.land (nth whole_bytes candidate 0) mask.

Definition prefix_contains (p : IpPrefix) (candidate : IpAddr) : bool :=
  match ip_address p, candidate with
  | V4 network, V4 candidate => masked network candidate (ip_bits p)
  | V6 network, V6 candidate => masked network candidate (ip_bits p)
  | _, _ => false
  end.

(** ** Configuration *)

Definition MERCHANT_ID_ENV : string := "SNAKETRON_XSOLLA_MERCHANT_ID".
Definition PROJECT_ID_ENV : string := "SNAKETRON_XSOLLA_PROJECT_ID".
Definition API_KEY_ENV : string := "SNAKETRON_XSOLLA_API_KEY".
Definition WEBHOOK_SECRET_ENV : string := "SNAKETRON_XSOLLA_WEBHOOK_SECRET".
Definition SANDBOX_ENV : string := "SNAKETRON_XSOLLA_SANDBOX".
Definition RETURN_URL_ENV : string := "SNAKETRON_XSOLLA_RETURN_URL".
Definition WEBHOOK_IPS_ENV : string := "SNAKETRON_XSOLLA_WEBHOOK_ALLOWED_IPS".

Definition DEFAULT_WEBHOOK_SOURCES : list string :=
  ["185.30.20.0/24"; "185.30.21.0/24"; "185.30.22.0/24"; "185.30.23.0/24"; "34.102.38.178";
   "34.94.43.207"; "35.236.73.234"; "34.94.69.44"; "34.102.22.197"].

Record XsollaConfig := mkXsolla {
  xc_merchant_id : string;
  xc_project_id : Z;
  xc_api_key : string;
  xc_webhook_secret : string;
  xc_sandbox : bool;
  xc_return_url : option string;
  xc_allowed_ips : list IpPrefix
}.

(** [collect] into a [Result]. *)
Fixpoint collect {A B} (f : A -> Result B) (l : list A) : Result (list B) :=
  match l with
  | [] => Ok []
  | a :: l => b ← f a; bs ← collect f l; Ok (b :: bs)
  end.

(** [str::split] at a character. *)
Fixpoint split (c : ascii) (s : string) : list string :=
  match s with
  | EmptyString => [""]
  | String a s' =>
      if bool_decide (a = c) then "" :: split c s'
      else match split c s' with
           | p :: ps => String a p :: ps
           | [] => [String a ""]
           end
  end.

Definition present_value (value : option string) : option string :=
  match value with
  | Some value => let value := trim value in if bool_decide (value = "") then None else Some value
  | None => None
  end.

Definition parse_sandbox (value : option string) : Result bool :=
  match value with
  | None => Ok false
  | Some value =>
      let value := to_ascii_lowercase value in
      if bool_decide (value ∈ ["true"; "1"; "yes"]) then Ok true
      else if bool_decide (value ∈ ["false"; "0"; "no"]) then Ok false
      else Err "must be true or false"
  end.

Definition parse_allowed_ips (value : option string) : Result (list IpPrefix) :=
  match value with
  | None =>
      match collect IpPrefix_parse DEFAULT_WEBHOOK_SOURCES with
      | Ok l => Ok l
      | _ => Panic "the built-in webhook source list must parse"
      end
  | Some value =>
      if bool_decide (value = "*") then Ok []
      else collect IpPrefix_parse (filter (fun entry => entry <> "") (trim <$> split ","%char value))
  end.

Definition required (value : option string) : Result string :=
  context "must be set to take payment" value.

Definition from_lookup (lookup : string -> option string) : Result (option XsollaConfig) :=
  let merchant_id := present_value (lookup MERCHANT_ID_ENV) in
  let project_id := present_value (lookup PROJECT_ID_ENV) in
  let api_key := present_value (lookup API_KEY_ENV) in
  let webhook_secret := present_value (lookup WEBHOOK_SECRET_ENV) in
  match merchant_id, project_id, api_key, webhook_secret with
  | None, None, None, None => Ok None
  | _, _, _, _ =>
      merchant_id ← required merchant_id;
      project_id ← required project_id;
      api_key ← required api_key;
      webhook_secret ← required webhook_secret;
      project_id ← context "must be the numeric project id" (parse_uint u32_max project_id);
      sandbox ← parse_sandbox (present_value (lookup SANDBOX_ENV));
      allowed_ips ← parse_allowed_ips (present_value (lookup WEBHOOK_IPS_ENV));
      Ok (Some {| xc_merchant_id := merchant_id; xc_project_id := project_id; xc_api_key := api_key;
                  xc_webhook_secret := webhook_secret; xc_sandbox := sandbox;
                  xc_return_url := present_value (lookup RETURN_URL_ENV);
                  xc_allowed_ips := allowed_ips |})
  end.

Definition accepts_source (config : XsollaConfig) (source : option IpAddr) : bool :=
  match xc_allowed_ips config with
  | [] => true
  | allowed =>
      match source with
      | None => xc_sandbox config
      | Some address =>
          (xc_sandbox config && is_loopback address) || existsb (fun p => prefix_contains p address) allowed
      end
  end.

Definition honours_dry_run (config : XsollaConfig) : bool := xc_sandbox config.

(** [u8::to_ascii_lowercase]. *)
Definition lower_byte (b : Z) : Z := if (65 <=? b) && (b <=? 90) then b + 32 else b.

Definition PAY_STATION : string := "https://secure.xsolla.com/paystation4/".
Definition SANDBOX_PAY_STATION : string := "https://sandbox-secure.xsolla.com/paystation4/".

Definition is_unreserved (b : Z) : bool :=
  ((48 <=? b) && (b <=? 57)) || ((65 <=? b) && (b <=? 90)) || ((97 <=? b) && (b <=? 122))
  || bool_decide (b ∈ [45; 46; 95; 126]).

Definition upper_digit (nibble : Z) : ascii :=
  char_of (if nibble <? 10 then 48 + nibble else 65 + nibble - 10).

Fixpoint percent_encode (value : string) : string :=
  match value with
  | EmptyString => EmptyString
  | String c value =>
      let b := byte_of c in
      if is_unreserved b then String c (percent_encode value)
      else String "%"%char (String (upper_digit (Z.shiftr b 4))
                              (String (upper_digit (Z.land b 0x0f)) (percent_encode value)))
  end.

Definition pay_station_url (config : XsollaConfig) (token : string) : string :=
  (if xc_sandbox config then SANDBOX_PAY_STATION else PAY_STATION) +:+ "?token=" +:+ percent_encode token.

(** ** Notifications *)

Record CustomParameters := mkCustom { cp_sku : option string; cp_snaketron_user_id : option Z }.

Record NotificationTransaction := mkTransaction {
  nt_id : string;
  nt_external_id : option string;
  nt_dry_run : option bool
}.

Record Settlement := mkSettlement {
  se_user_id : string;
  se_transaction : NotificationTransaction;
  se_custom_parameters : CustomParameters
}.

Inductive Notification :=
| UserValidation (user_id : string)
| PaymentNotice (s : Settlement)
| RefundNotice (s : Settlement)
| OtherNotice.

(** The fields of a settlement as they stand in the body. *)
Record RawSettlement := mkRaw {
  rs_user_id : string;
  rs_id : Value;
  rs_external_id : option string;
  rs_dry_run : option Value;
  rs_custom_parameters : CustomParameters
}.

Inductive RawNotification :=
| RawUserValidation (user_id : string)
| RawPayment (s : RawSettlement)
| RawRefund (s : RawSettlement)
| RawOther.

Definition scalar_as_string (v : Value) : option string :=
  match v with
  | VString value => Some value
  | VInt n => Some (display_int n)
  | VFloat text => Some text
  | VBool b => Some (if b then "true" else "false")
  | _ => None
  end.

(** [None] is an error. *)
Definition optional_flag (v : option Value) : option (option bool) :=
  match v with
  | None | Some VNull => Some None
  | Some (VBool value) => Some (Some value)
  | Some (VInt n) => Some (Some ((- 2 ^ 63 <=? n) && (n <=? 2 ^ 63 - 1) && negb (n =? 0)))
  | Some (VFloat _) => Some (Some false)
  | Some (VString value) => Some (Some (bool_decide (value ∈ ["1"; "true"; "yes"])))
  | Some _ => None
  end.

Definition read_settlement (raw : RawSettlement) : option Settlement :=
  id ← scalar_as_string (rs_id raw);
  dry_run ← optional_flag (rs_dry_run raw);
  Some {| se_user_id := rs_user_id raw;
          se_transaction := {| nt_id := id; nt_external_id := rs_external_id raw; nt_dry_run := dry_run |};
          se_custom_parameters := rs_custom_parameters raw |}.

Definition read_notification (raw : RawNotification) : option Notification :=
  match raw with
  | RawUserValidation user_id => Some (UserValidation user_id)
  | RawPayment s => PaymentNotice <$> read_settlement s
  | RawRefund s => RefundNotice <$> read_settlement s
  | RawOther => Some OtherNotice
  end.

Definition snaketron_user_id (id : string) : option Z := EffectStore.parse_i32 (trim id).

Definition is_dry_run (t : NotificationTransaction) : bool := default false (nt_dry_run t).

Class PaymentEnv := {
  sha1 : list Z -> list Z;
  notification_fields : string -> option RawNotification
}.

Section payments.
Context {PE : PaymentEnv}.

Definition sha1_hex (bytes : list Z) : string := hex_bytes (sha1 bytes).

Definition signature_matches (config : XsollaConfig) (body presented : string) : bool :=
  let expected := as_bytes (sha1_hex (as_bytes body ++ as_bytes (xc_webhook_secret config))) in
  let presented := as_bytes (trim presented) in
  if negb (length expected =? length presented)%nat then false
  else
    let difference :=
      foldl (fun d lr => Z.lor d (Z.lxor (lower_byte lr.1) (lower_byte lr.2))) 0
        (zip expected presented) in
    difference =? 0.

(** [serde_json::from_str] of a notification. *)
Definition parse_notification (body : string) : option Notification :=
  notification_fields body ≫= read_notification.

(** ** The shop *)

Definition PACKS : list (string * Z) :=
  [("bux-500", 500); ("bux-1200", 1200); ("bux-2600", 2600); ("bux-7000", 7000)].

Definition PACK_PRICES_USD_CENTS : list (string * Z) :=
  [("bux-500", 199); ("bux-1200", 399); ("bux-2600", 799); ("bux-7000", 1999)].

(** [find] by the first component. *)
Definition table_value (table : list (string * Z)) (sku : string) : option Z :=
  snd <$> List.find (fun entry => bool_decide (entry.1 = sku)) table.

Definition pack_value (sku : string) : option Z := table_value PACKS sku.

Inductive ClientDistribution := Web | CrazyGames | Itch.

Definition distribution_parse (value : string) : option ClientDistribution :=
  if bool_decide (value = "web") then Some Web
  else if bool_decide (value = "crazygames") then Some CrazyGames
  else if bool_decide (value = "itch") then Some Itch else None.

(** A header, and its text if it is visible ASCII. *)
Abbreviation Headers := (string -> option string).

Definition visible (c : ascii) : bool := let b := byte_of c in ((32 <=? b) && (b <? 127)) || (b =? 9).
Definition to_str (value : string) : option string :=
  if string_forallb visible value then Some value else None.

Definition distribution_of (headers : Headers) : ClientDistribution :=
  default Web ((headers "x-snaketron-distribution" ≫= to_str) ≫= distribution_parse).

Definition purchases_allowed (d : ClientDistribution) : bool :=
  match d with Web | Itch => true | CrazyGames => false end.

Record BuxPack := mkPack { bp_sku : string; bp_bux : Z; bp_price_usd_cents : Z }.

Definition list_packs (payments : option XsollaConfig) (headers : Headers) : list BuxPack :=
  if negb (is_some payments) || negb (purchases_allowed (distribution_of headers)) then []
  else omap (fun '(sku, bux) => cents ← table_value PACK_PRICES_USD_CENTS sku;
                                Some (mkPack sku bux cents)) PACKS.

(** ** Buying a skin *)

Record PurchaseRequest := mkPurchaseRequest { pq_idempotency_key : string; pq_expected_price_bux : Z }.

Record PurchaseResult := mkPurchaseResult {
  pu_status : Z;
  pu_outcome : string;
  pu_balance_bux : Z;
  pu_actual_price_bux : option Z
}.

Definition purchase_skin_handler (user : AuthUser) (skin_id : Z) (request : PurchaseRequest)
  : Db PurchaseResult :=
  if negb (is_valid_client_key (pq_idempotency_key request)) then fail "idempotencyKey: must be a UUID"
  else
    skin ← get_skin skin_id;
    skin ← lift (context NotFound skin);
    if au_is_guest user && (0 <? sk_price_bux skin) then fail "Buying a skin needs a registered account"
    else
      let fingerprint :=
        request_fingerprint ["purchase"; display_int skin_id; display_uint (pq_expected_price_bux request)] in
      outcome ← purchase_skin (au_user_id user) skin_id (pq_expected_price_bux request)
                  (pq_idempotency_key request) fingerprint;
      wallet ← get_wallet (au_user_id user) 1;
      let '(status, name, actual) :=
        match outcome with
        | Purchased => (200, "purchased", None)
        | AlreadyOwned => (200, "alreadyOwned", None)
        | PriceChanged actual_bux => (409, "priceChanged", Some actual_bux)
        | InsufficientFunds => (402, "insufficientFunds", None)
        | NotPurchasable => (409, "notPurchasable", None)
        end in
      mret (mkPurchaseResult status name (wa_balance_bux wallet) actual).

(** ** The checkout *)

(** The token request, without the fields that are always the same. *)
Record TokenRequest := mkTokenRequest {
  tr_user_id : string;
  tr_project_id : Z;
  tr_mode : option string;
  tr_return_url : option string;
  tr_external_id : string;
  tr_price_usd_cents : Z;
  tr_custom_parameters : CustomParameters
}.

Definition token_request (config : XsollaConfig) (external_id : string) (user_id : Z) (sku : string)
    (price_usd_cents : Z) : TokenRequest :=
  {| tr_user_id := display_int user_id; tr_project_id := xc_project_id config;
     tr_mode := if xc_sandbox config then Some "sandbox" else None;
     tr_return_url := xc_return_url config; tr_external_id := external_id;
     tr_price_usd_cents := price_usd_cents;
     tr_custom_parameters := {| cp_sku := Some sku; cp_snaketron_user_id := Some user_id |} |}.

(** Everything the checkout decides before it asks the provider. *)
Definition xsolla_checkout_token (payments : option XsollaConfig) (user : AuthUser) (headers : Headers)
    (sku external_id : string) : Result TokenRequest :=
  ensure (purchases_allowed (distribution_of headers))
    "Snakebux cannot be bought in this version of the game" ;;
  ensure (negb (au_is_guest user)) "Buying Snakebux needs a registered account" ;;
  config ← context "Buying Snakebux is not available right now" payments;
  _bux ← context "sku: is not on sale" (pack_value sku);
  price_usd_cents ← context "sku: has no price" (table_value PACK_PRICES_USD_CENTS sku);
  Ok (token_request config external_id (au_user_id user) sku price_usd_cents).

(** ** The webhook *)

Inductive Reversal := ReversalNo | ReversalYes.

Record Refusal := mkRefusal { rf_status : Z; rf_code : string }.

Inductive Response := NoContent | Refused (r : Refusal).

Definition unprocessable (code : string) : Refusal := mkRefusal 400 code.

Record Movement := mkMovement { mv_source : LedgerSource; mv_delta : Z; mv_note : string }.

Definition admits_transaction (s : Settlement) (config : XsollaConfig) : bool :=
  negb (is_dry_run (se_transaction s) && negb (honours_dry_run config)).

Definition recipient_of (s : Settlement) : option Z :=
  match cp_snaketron_user_id (se_custom_parameters s), snaketron_user_id (se_user_id s) with
  | Some ours, Some theirs => if ours =? theirs then Some ours else None
  | Some ours, None => Some ours
  | None, Some theirs => Some theirs
  | None, None => None
  end.

Definition movement_for (s : Settlement) (reversal : Reversal) (original : option LedgerEntry)
  : option Movement :=
  let sku := cp_sku (se_custom_parameters s) in
  match reversal with
  | ReversalNo =>
      sku ← sku;
      value ← pack_value sku;
      Some (mkMovement Xsolla value sku)
  | ReversalYes =>
      match original with
      | Some entry => Some (mkMovement Refund (- le_delta entry) (default "refund" (le_note entry)))
      | None =>
          value ← sku ≫= pack_value;
          Some (mkMovement Refund (- value) (default "" sku))
      end
  end.

Definition settle (config : XsollaConfig) (s : Settlement) (reversal : Reversal) : Db Response :=
  if negb (admits_transaction s config) then mret (Refused (unprocessable "INVALID_PARAMETER"))
  else
    match recipient_of s with
    | None => mret (Refused (unprocessable "INVALID_USER"))
    | Some user_id =>
        let transaction := nt_id (se_transaction s) in
        original ← match reversal with
                   | ReversalNo => mret None
                   | ReversalYes => get_ledger_entry user_id Xsolla transaction
                   end;
        match movement_for s reversal original with
        | None => mret (Refused (unprocessable "INVALID_PARAMETER"))
        | Some m =>
            let fingerprint := request_fingerprint [source_str (mv_source m); transaction; mv_note m] in
            _applied ← apply_ledger_entry user_id (mv_source m) transaction (mv_delta m) fingerprint
                         (Some (mv_note m));
            mret NoContent
        end
    end.

Definition source_address (headers : Headers) : option IpAddr :=
  let header := match headers "x-forwarded-for" with
                | Some value => Some value
                | None => headers "x-real-ip"
                end in
  value ← header ≫= to_str;
  first ← hd_error (split ","%char value);
  parse_ip (trim first).

(** The fields of an account the handlers read. *)
Record User := mkUser {
  us_username : string;
  us_is_guest : bool;
  us_selected_skin : option string;
  us_selected_base : option string
}.

Definition get_user_by_id (user_id : Z) : Db (option User) :=
  get true (balance_row user_id) "Failed to get user" ≫= fun item : option Item =>
  match item with
  | None => mret None
  | Some item =>
      username ← lift (context "Missing username" (extract_string item "username"));
      mret (Some (mkUser username (default false (extract_bool item "isGuest"))
                    (extract_string item "selectedSkin") (extract_string item "selectedBase")))
  end.

Definition xsolla_webhook (payments : option XsollaConfig) (headers : Headers) (body : string)
  : Db Response :=
  match payments with
  | None => fail "Buying Snakebux is not available right now"
  | Some config =>
      if negb (accepts_source config (source_address headers))
      then mret (Refused (mkRefusal 403 "INVALID_PARAMETER"))
      else
        let presented := default "" ((headers "authorization" ≫= to_str) ≫= strip_prefix "Signature ") in
        if negb (signature_matches config body presented)
        then mret (Refused (mkRefusal 401 "INVALID_SIGNATURE"))
        else
          match parse_notification body with
          | None => mret (Refused (unprocessable "INVALID_PARAMETER"))
          | Some (UserValidation user) =>
              match snaketron_user_id user with
              | None => mret (Refused (unprocessable "INVALID_USER"))
              | Some user_id =>
                  found ← get_user_by_id user_id;
                  mret match found with
                       | Some user => if us_is_guest user then Refused (unprocessable "INVALID_USER")
                                      else NoContent
                       | None => Refused (unprocessable "INVALID_USER")
                       end
              end
          | Some (PaymentNotice s) => settle config s ReversalNo
          | Some (RefundNotice s) => settle config s ReversalYes
          | Some OtherNotice => mret NoContent
          end
  end.

(** What a player wears, and the counts of who wears what. *)
Definition set_equipment (user : AuthUser) (selected_skin selected_base : option (option string))
  : Db (option string * option string) :=
  let id := au_user_id user in
  snake ← resolve_slot id selected_skin KindSnake;
  base ← resolve_slot id selected_base KindBase;
  before ← get_user_by_id id;
  set_user_equipment id snake base ≫= fun _ =>
  match snake with
  | Some requested =>
      let worn_before := (before ≫= us_selected_skin) ≫= equipped_skin_id in
      let worn_after := requested ≫= equipped_skin_id in
      if bool_decide (worn_before = worn_after) then mret tt
      else
        ignore_errors match worn_before with Some k => adjust_skin_wearers k (-1) | None => mret tt end
        ≫= fun _ =>
        ignore_errors match worn_after with Some k => adjust_skin_wearers k 1 | None => mret tt end
  | None => mret tt
  end ≫= fun _ =>
  after ← get_user_by_id id;
  mret (after ≫= us_selected_skin, after ≫= us_selected_base).
End payments.
