(* ===== verification/WalletTheorems.v ===== *)
(** * Theorems on Snakebux

    Whatever is retried, lost or interleaved, every change of a balance is one row
    of the ledger; a purchase takes its price and gives its skin or does neither;
    what the payment provider credits is a pack on sale and what it reverses is
    what it credited. *)

From Stdlib Require Import ZArith Ascii Lia.
From stdpp Require Import prelude strings countable list gmap.
From S2P Require Import Prelude RustFloat Util Snake Arena CommandQueue GameState GameSetup.
From S2P Require Import Recording StreamId Journal Rating Completion Content EffectStore EffectLedger.
From S2P Require Import Database SkinCatalog SkinStore Wallet Payment.
Open Scope Z_scope.

#[local] Arguments keyed : simpl never.

(** ** Keys *)

Lemma account_row_inj u v a b : account_row u a = account_row v b -> u = v /\ a = b.
Proof. unfold account_row. intros [= H1 ->]. by apply display_int_inj in H1. Qed.

(** The part of a key before the first [#]. *)
Lemma hash_cut (a b x y : string) :
  string_forallb (fun c => negb (bool_decide (c = "#"%char))) a = true ->
  string_forallb (fun c => negb (bool_decide (c = "#"%char))) b = true ->
  a +:+ "#" +:+ x = b +:+ "#" +:+ y -> a = b /\ x = y.
Proof.
  revert b. induction a as [|c a IH]; intros [|d b] Ha Hb E.
  - by injection E.
  - injection E as <- _. done.
  - injection E as -> _. done.
  - cbn in Ha, Hb. apply andb_true_iff in Ha as [_ Ha], Hb as [_ Hb].
    injection E as -> E. by apply IH in E as [-> ->].
Qed.

Lemma source_str_inj s t : source_str s = source_str t -> s = t.
Proof. by destruct s, t. Qed.

Lemma ledger_sort_key_inj s t a b : ledger_sort_key s a = ledger_sort_key t b -> s = t /\ a = b.
Proof.
  unfold ledger_sort_key. intros [= E]. apply hash_cut in E as [E ->]; [|by destruct s|by destruct t].
  by apply source_str_inj in E.
Qed.

Lemma ledger_row_inj u v s t a b : ledger_row u s a = ledger_row v t b -> u = v /\ s = t /\ a = b.
Proof. unfold ledger_row. intros [-> E]%account_row_inj. by apply ledger_sort_key_inj in E. Qed.

Lemma balance_row_inj u v : balance_row u = balance_row v -> u = v.
Proof. unfold balance_row. by intros [-> _]%account_row_inj. Qed.

Lemma grant_row_inj u v a b : grant_row u a = grant_row v b -> u = v /\ a = b.
Proof.
  unfold grant_row. intros [-> E]%account_row_inj. unfold grant_sort_key in E. injection E as E.
  by apply display_int_inj in E.
Qed.

Lemma ledger_not_balance u s a v : ledger_row u s a <> balance_row v.
Proof. intros [_ E]%account_row_inj. done. Qed.
Lemma ledger_not_grant u s a v k : ledger_row u s a <> grant_row v k.
Proof. intros [_ E]%account_row_inj. done. Qed.
Lemma balance_not_grant u v k : balance_row u <> grant_row v k.
Proof. intros [_ E]%account_row_inj. done. Qed.
Lemma account_not_skin u a k b : account_row u a <> skin_row k b.
Proof. intros [=]. Qed.
#[local] Hint Resolve ledger_not_balance ledger_not_grant balance_not_grant account_not_skin : core.
#[local] Hint Extern 1 (ledger_row _ _ _ <> skin_meta _) => apply account_not_skin : core.
#[local] Hint Extern 1 (balance_row _ <> skin_meta _) => apply account_not_skin : core.
#[local] Hint Extern 1 (grant_row _ _ <> skin_meta _) => apply account_not_skin : core.

(** ** Balances *)

Definition balance (s : Store) (u : Z) : Z :=
  match s !! balance_row u ≫= (fun item => item !! "boostBux") with Some (AV_N n) => n | _ => 0 end.

Definition account (s : Store) (u : Z) : Prop := is_Some (s !! balance_row u).

Lemma balance_frame s s' u : s' !! balance_row u = s !! balance_row u -> balance s' u = balance s u.
Proof. unfold balance. by intros ->. Qed.

(** What adding to a balance leaves. *)
Lemma balance_add s u d :
  action_typed (default ∅ (s !! balance_row u)) (Add "boostBux" d) = true ->
  balance (<[balance_row u := apply_action (default ∅ (s !! balance_row u)) (Add "boostBux" d)]> s) u
  = balance s u + d.
Proof.
  unfold balance. rewrite lookup_insert_eq. cbn. destruct (s !! balance_row u) as [item|]; cbn.
  - destruct (item !! "boostBux") as [[]|]; cbn; try done; rewrite lookup_insert_eq; lia.
  - rewrite lookup_empty. cbn. rewrite lookup_insert_eq. lia.
Qed.

(** ** What moves a balance *)

(** A transaction that leaves balances and ledger alone. *)
Definition ledger_key (k : Key) : Prop := exists u s a, k = ledger_row u s a.

Definition quiet (l : list TransactWriteItem) : Prop :=
  forall s, tx_runs s l = true ->
    (forall k, ledger_key k -> foldl tx_write s l !! k = s !! k)
    /\ forall u, (account s u -> account (foldl tx_write s l) u)
                 /\ balance (foldl tx_write s l) u = balance s u.

Inductive BuxEvent :=
| EvEntry (u : Z) (src : LedgerSource) (key : string) (delta : Z) (hash : string) (note : option string) (now : Z)
| EvPurchase (u skin price : Z) (key hash : string) (now : Z)
| EvQuiet (l : list TransactWriteItem).

Definition event_tx (e : BuxEvent) : list TransactWriteItem :=
  match e with
  | EvEntry u src key delta hash note now => entry_tx u src key delta hash note now
  | EvPurchase u skin price key hash now => purchase_tx u skin price key hash now
  | EvQuiet l => l
  end.

Definition lawful_event (e : BuxEvent) : Prop :=
  match e with EvQuiet l => quiet l | EvPurchase _ _ p _ _ _ => 0 <= p | _ => True end.

(** Every transaction of the server. *)
Definition BuxTx (l : list TransactWriteItem) : Prop :=
  exists e, event_tx e = l /\ lawful_event e.

(** The row an event writes, with the user, what it adds and its fingerprint. *)
Definition event_entry (e : BuxEvent) : option (Key * (Z * Z * string)) :=
  match e with
  | EvEntry u src key delta hash _ _ => Some (ledger_row u src key, (u, delta, hash))
  | EvPurchase u _ price key hash _ => Some (ledger_row u Purchase key, (u, - price, hash))
  | EvQuiet _ => None
  end.

Definition moved (u : Z) (e : BuxEvent) : Z :=
  match event_entry e with
  | Some (_, (v, d, _)) => if bool_decide (v = u) then d else 0
  | None => 0
  end.

Inductive History : Store -> list BuxEvent -> Store -> Prop :=
| history_nil s : History s [] s
| history_cons s e log s' :
    lawful_event e ->
    tx_runs s (event_tx e) = true ->
    History (foldl tx_write s (event_tx e)) log s' -> History s (e :: log) s'.

Lemma trace_history s log s' :
  Trace BuxTx s log s' -> exists events, History s events s' /\ log = event_tx <$> events.
Proof.
  induction 1 as [s|s l log s' (e & <- & He) Hr _ (events & IH & ->)].
  - exists []. split; [constructor|done].
  - exists (e :: events). split; [by constructor|done].
Qed.

(** One step of a history: the row of the event is new, the account exists, only
    its balance moves and no other row of the ledger changes. *)
Definition moves (s s' : Store) (k : Key) (u d : Z) (h : string) : Prop :=
  s !! k = None /\ account s u
  /\ (exists item, s' !! k = Some item /\ item !! "delta" = Some (AV_N d)
                   /\ item !! "requestHash" = Some (AV_S h))
  /\ (forall k', ledger_key k' -> k' <> k -> s' !! k' = s !! k')
  /\ forall v, (account s v -> account s' v)
               /\ balance s' v = balance s v + (if bool_decide (u = v) then d else 0).

Lemma row_absent_sk s u a : holds (AttributeNotExists "sk") (get_item s (account_row u a)) = true ->
  s !! account_row u a = None.
Proof.
  unfold get_item. cbn. rewrite bool_decide_eq_true. destruct (s !! account_row u a); cbn; [|done].
  unfold keyed. cbn. by rewrite lookup_insert_ne, lookup_insert_eq.
Qed.

Lemma row_exists_pk s k : holds (AttributeExists "pk") (get_item s k) = true -> is_Some (s !! k).
Proof.
  unfold get_item. cbn. rewrite bool_decide_eq_true. destruct (s !! k); cbn; [by eexists|].
  by intros [? [=]].
Qed.

(** What the first two writes of [entry_tx] and [purchase_tx] do, whatever
    follows them on rows of their own. *)
Lemma moving_pair s u src key d h now more c rest :
  (forall x, x ∈ more -> x.1 <> "delta" /\ x.1 <> "requestHash") ->
  Forall (fun t => (exists v k, tx_key t = grant_row v k) \/ exists k, tx_key t = skin_meta k) rest ->
  tx_runs s (Put (ledger_row u src key) (ledger_item u src key d h now more) (Some (AttributeNotExists "sk"))
             :: Update (balance_row u) [Add "boostBux" d] c :: rest) = true ->
  (holds c (get_item s (balance_row u)) = true -> account s u) ->
  moves s (foldl tx_write s
             (Put (ledger_row u src key) (ledger_item u src key d h now more) (Some (AttributeNotExists "sk"))
              :: Update (balance_row u) [Add "boostBux" d] c :: rest)) (ledger_row u src key) u d h.
Proof.
  intros Hmore Hrest Hr Hacc.
  apply tx_runs_inv in Hr as [_ Hh]. apply Forall_cons in Hh as [H1 Hh]. apply Forall_cons in Hh as [H2 _].
  cbn in H1. apply row_absent_sk in H1. cbn [tx_holds] in H2. apply andb_true_iff in H2 as [H2 H3].
  cbn in H3. rewrite andb_true_r in H3.
  set (s1 := <[ledger_row u src key := ledger_item u src key d h now more]> s).
  set (s2 := <[balance_row u := apply_action (default ∅ (s1 !! balance_row u)) (Add "boostBux" d)]> s1).
  assert (Hframe : forall k, (forall v j, grant_row v j <> k) -> (forall j, skin_meta j <> k) ->
            foldl tx_write s2 rest !! k = s2 !! k).
  { intros k Hg Hs. apply tx_writes_other. eapply Forall_impl; [exact Hrest|]. cbn.
    intros t [(v & j & E)|(j & E)]; apply key_writes; rewrite E; auto. }
  assert (Hb1 : s1 !! balance_row u = s !! balance_row u) by (apply lookup_insert_ne; auto).
  change (foldl tx_write s _) with (foldl tx_write s2 rest). repeat split.
  - done.
  - auto.
  - exists (ledger_item u src key d h now more). rewrite Hframe; [|intros ? ? E; symmetry in E; by eapply ledger_not_grant|done].
    unfold s2, s1. rewrite lookup_insert_ne by auto. rewrite lookup_insert_eq. split; [done|].
    unfold ledger_item. split; apply elem_of_list_to_map_1'; cbn.
    + intros y Hy. set_unfold in Hy. destruct Hy as [?|[?|[?|[?|[?|[Hy|[?|[?|[]]]]]]]]]; simplify_eq; try done.
      by apply Hmore in Hy as [[] _].
    + set_solver.
    + intros y Hy. set_unfold in Hy. destruct Hy as [?|[?|[?|[?|[?|[Hy|[?|[?|[]]]]]]]]]; simplify_eq; try done.
      by apply Hmore in Hy as [_ []].
    + set_solver.
  - intros k' (v & t & a & ->) Hk. rewrite Hframe; [|intros ? ? E; symmetry in E; by eapply ledger_not_grant|done].
    unfold s2, s1. rewrite !lookup_insert_ne; auto.
  - unfold account. rewrite Hframe; [|intros ? ? E; symmetry in E; by eapply balance_not_grant|done].
    unfold s2, s1. intros H. destruct (decide (balance_row u = balance_row v)) as [->|Hn].
    + rewrite lookup_insert_eq. by eexists.
    + rewrite !lookup_insert_ne; auto.
  - rewrite (balance_frame s2); [|apply Hframe; [intros ? ? E; symmetry in E; by eapply balance_not_grant|done]].
    case_bool_decide as E.
    + subst v. unfold s2. rewrite balance_add.
      * f_equal. by apply balance_frame.
      * by rewrite Hb1.
    + rewrite (balance_frame s); [lia|]. unfold s2, s1.
      rewrite !lookup_insert_ne; auto. by intros ?%balance_row_inj.
Qed.

Lemma note_attrs note x : x ∈ opt_attr "note" note -> x.1 <> "delta" /\ x.1 <> "requestHash".
Proof. destruct note; cbn; [|by intros ?%not_elem_of_nil]. by intros ->%list_elem_of_singleton. Qed.

Lemma entry_moves s u src key d h note now :
  tx_runs s (entry_tx u src key d h note now) = true ->
  moves s (foldl tx_write s (entry_tx u src key d h note now)) (ledger_row u src key) u d h.
Proof.
  intros Hr. apply moving_pair; [intros x; apply note_attrs|constructor|exact Hr|apply row_exists_pk].
Qed.

Lemma purchase_moves s u skin p key h now :
  tx_runs s (purchase_tx u skin p key h now) = true ->
  moves s (foldl tx_write s (purchase_tx u skin p key h now)) (ledger_row u Purchase key) u (- p) h.
Proof.
  intros Hr. apply moving_pair; [..|exact Hr|].
  - by intros x ->%list_elem_of_singleton.
  - apply Forall_cons; split; [right; by eexists|].
    apply Forall_singleton. left. by do 2 eexists.
  - cbn [holds]. rewrite andb_true_iff. intros [H _]. by apply row_exists_pk.
Qed.

Lemma event_moves s e k u d h :
  event_entry e = Some (k, (u, d, h)) -> tx_runs s (event_tx e) = true ->
  moves s (foldl tx_write s (event_tx e)) k u d h.
Proof.
  destruct e; cbn; intros [=]; subst; intros Hr; [by apply entry_moves|by apply purchase_moves].
Qed.

Lemma event_entry_key e k x : event_entry e = Some (k, x) -> ledger_key k.
Proof. destruct e; intros [=]; subst; do 3 eexists; done. Qed.

(** The keys of the rows a history writes. *)
Definition entry_keys (events : list BuxEvent) : list Key := (omap event_entry events).*1.

(** No row of the ledger is changed or removed, and only events add rows. *)
Lemma history_rows s events s' k :
  History s events s' -> ledger_key k ->
  (is_Some (s !! k) -> s' !! k = s !! k /\ k ∉ entry_keys events)
  /\ (k ∉ entry_keys events -> s' !! k = s !! k).
Proof.
  intros H Hk. unfold entry_keys.
  induction H as [s|s e log s' He Hr _ [IH1 IH2]]; [split; [intros _; split; [done|apply not_elem_of_nil]|done]|].
  destruct (event_entry e) as [[k' [[u d] h]]|] eqn:Ee.
  - pose proof (event_moves _ _ _ _ _ _ Ee Hr) as (Hnew & _ & _ & Hother & _). cbn. rewrite Ee. cbn.
    rewrite not_elem_of_cons. split.
    + intros Hs. assert (k <> k') as Hne by (intros ->; rewrite Hnew in Hs; by destruct Hs).
      rewrite <-(Hother k Hk Hne) in Hs |- *. destruct (IH1 Hs). done.
    + intros [Hne Hn]. rewrite IH2 by done. auto.
  - destruct e; try done. destruct (He _ Hr) as [Hkeep _]. cbn. rewrite <-(Hkeep k Hk). auto.
Qed.

Lemma history_entries s events s' k u d h :
  History s events s' -> Some (k, (u, d, h)) ∈ event_entry <$> events ->
  s !! k = None
  /\ exists item, s' !! k = Some item /\ item !! "delta" = Some (AV_N d)
                  /\ item !! "requestHash" = Some (AV_S h).
Proof.
  induction 1 as [s|s e log s' He Hr Hh IH]; cbn; [by intros ?%not_elem_of_nil|].
  intros [E|Hin]%elem_of_cons.
  - symmetry in E. pose proof (event_moves _ _ _ _ _ _ E Hr) as (Hnew & _ & (item & Hi & Hd) & _).
    split; [done|]. exists item. split; [|done].
    destruct (history_rows _ _ _ k Hh) as [Hkeep _]; [by eapply event_entry_key|].
    destruct Hkeep as [-> _]; [by rewrite Hi|done].
  - destruct (IH Hin) as [Hnew Hlater]. split; [|done].
    assert (Hk : ledger_key k).
    { apply list_elem_of_fmap in Hin as (e' & E' & _). by eapply event_entry_key. }
    destruct (event_entry e) as [[k' [[u' d'] h']]|] eqn:Ee.
    + pose proof (event_moves _ _ _ _ _ _ Ee Hr) as (_ & _ & (item & Hi & _) & Hother & _).
      destruct (decide (k = k')) as [->|Hne]; [by rewrite Hi in Hnew|]. by rewrite <-(Hother k).
    + destruct e; try done. destruct (He _ Hr) as [Hkeep _]. by rewrite <-(Hkeep k).
Qed.

Lemma history_keys_distinct s events s' : History s events s' -> NoDup (entry_keys events).
Proof.
  unfold entry_keys. induction 1 as [s|s e log s' He Hr Hh IH]; [constructor|].
  destruct (event_entry e) as [[k [[u d] h]]|] eqn:Ee; cbn; rewrite Ee; cbn; [|done].
  constructor; [|done].
  destruct (history_rows _ _ _ k Hh) as [Hkeep _]; [by eapply event_entry_key|].
  pose proof (event_moves _ _ _ _ _ _ Ee Hr) as (_ & _ & (item & Hi & _) & _).
  apply Hkeep. by rewrite Hi.
Qed.

Lemma history_balances s events s' u :
  History s events s' ->
  (account s u -> account s' u) /\ balance s' u = balance s u + total (moved u) events.
Proof.
  induction 1 as [s|s e log s' He Hr Hh [IHa IHb]]; [unfold total; cbn; split; [done|lia]|].
  assert (Hstep : (account s u -> account (foldl tx_write s (event_tx e)) u)
    /\ balance (foldl tx_write s (event_tx e)) u = balance s u + moved u e).
  { unfold moved. destruct (event_entry e) as [[k [[v d] h]]|] eqn:Ee.
    - pose proof (event_moves _ _ _ _ _ _ Ee Hr) as (_ & _ & _ & _ & Hm). apply Hm.
    - destruct e; try done. destruct (He _ Hr) as [_ Hm]. destruct (Hm u) as [Ha Hb]. split; [done|].
      cbn in Hb |- *. lia. }
  destruct Hstep as [Ha Hb]. split; [auto|]. rewrite IHb, Hb. unfold total. cbn. lia.
Qed.

(** ** What the server sends *)

Definition quiet_write (t : TransactWriteItem) : Prop :=
  match t with
  | ConditionCheck _ _ => True
  | Put k _ _ | Delete k _ => ~ ledger_key k /\ forall u, k <> balance_row u
  | Update k actions _ =>
      ~ ledger_key k
      /\ forall u, k = balance_row u ->
          Forall (fun a => match a with
                           | Set_ a _ | SetIfNotExists a _ | Add a _ | Count a _ _ | Remove a => a <> "boostBux"
                           end) actions
  end.

Lemma quiet_actions actions item :
  Forall (fun a => match a with
                   | Set_ a _ | SetIfNotExists a _ | Add a _ | Count a _ _ | Remove a => a <> "boostBux"
                   end) actions ->
  foldl apply_action item actions !! "boostBux" = item !! "boostBux".
Proof.
  intros H. revert item. induction H as [|a l Ha _ IH]; intros item; cbn; [done|].
  rewrite IH. destruct a; cbn; repeat case_match; rewrite ?lookup_insert_ne, ?lookup_delete_ne by congruence; done.
Qed.

Lemma quiet_one s t : quiet_write t ->
  (forall k, ledger_key k -> tx_write s t !! k = s !! k)
  /\ forall u, (account s u -> account (tx_write s t) u) /\ balance (tx_write s t) u = balance s u.
Proof.
  intros Ht. destruct t as [k i c|k actions c|k c|k c]; cbn [quiet_write tx_write] in *; [| | |done].
  - destruct Ht as [Hl Hb]. split; [intros k' Hk'; apply lookup_insert_ne; congruence|].
    intros u. unfold account, balance. by rewrite lookup_insert_ne by auto.
  - destruct Ht as [Hl Hb]. split; [intros k' Hk'; apply lookup_insert_ne; congruence|].
    intros u. unfold account, balance. destruct (decide (k = balance_row u)) as [->|Hn].
    + rewrite lookup_insert_eq. split; [by eexists|]. cbn. rewrite quiet_actions by eauto.
      by destruct (s !! balance_row u).
    + by rewrite lookup_insert_ne by auto.
  - destruct Ht as [Hl Hb]. split; [intros k' Hk'; apply lookup_delete_ne; congruence|].
    intros u. unfold account, balance. by rewrite lookup_delete_ne by auto.
Qed.

Lemma quiet_writes l : Forall quiet_write l -> quiet l.
Proof.
  intros H s _. revert s. induction H as [|t l Ht _ IH]; intros s; cbn; [done|].
  destruct (IH (tx_write s t)) as [IH1 IH2], (quiet_one s t Ht) as [H1 H2]. split.
  - intros k Hk. by rewrite IH1, H1.
  - intros u. destruct (IH2 u) as [Ia Ib], (H2 u) as [Ha Hb]. split; [auto|]. by rewrite Ib, Hb.
Qed.

Lemma BuxTx_quiet l : Forall quiet_write l -> BuxTx l.
Proof. intros H. exists (EvQuiet l). split; [done|]. by apply quiet_writes. Qed.

Lemma skin_row_quiet k a : ~ ledger_key (skin_row k a) /\ forall u, skin_row k a <> balance_row u.
Proof. split; [intros (u & s & b & [=])|intros u [=]]. Qed.
Lemma create_row_quiet u a : ~ ledger_key (create_row u a) /\ forall v, create_row u a <> balance_row v.
Proof. split; [intros (v & s & b & [=])|intros v [=]]. Qed.
Lemma grant_row_quiet u a : ~ ledger_key (grant_row u a) /\ forall v, grant_row u a <> balance_row v.
Proof.
  split; [intros (v & s & b & E)|intros v E; symmetry in E; by apply balance_not_grant in E].
  symmetry in E. by apply ledger_not_grant in E.
Qed.

Lemma skin_update_quiet k a actions c : quiet_write (Update (skin_row k a) actions c).
Proof. destruct (skin_row_quiet k a) as [H1 H2]. split; [done|]. intros u E. by apply H2 in E. Qed.

#[local] Hint Resolve skin_update_quiet : core.
#[local] Hint Extern 1 (quiet_write (Update (skin_meta _) _ _)) => apply skin_update_quiet : core.
#[local] Hint Extern 1 (quiet_write (Update (revision_row _ _) _ _)) => apply skin_update_quiet : core.
#[local] Hint Extern 1 (quiet_write (Put (skin_row _ _) _ _)) => apply skin_row_quiet : core.
#[local] Hint Extern 1 (quiet_write (Put (skin_meta _) _ _)) => apply skin_row_quiet : core.
#[local] Hint Extern 1 (quiet_write (Put (revision_row _ _) _ _)) => apply skin_row_quiet : core.
#[local] Hint Extern 1 (quiet_write (Put (create_row _ _) _ _)) => apply create_row_quiet : core.
#[local] Hint Extern 1 (quiet_write (Put (grant_row _ _) _ _)) => apply grant_row_quiet : core.
#[local] Hint Extern 1 (quiet_write (Delete (skin_row _ _) _)) => apply skin_row_quiet : core.

Ltac quiet := apply BuxTx_quiet; repeat (apply Forall_cons; split); auto.

Section calls.
Context {SD : SkinDocs} {PE : PaymentEnv}.

(** Every transaction of the modelled calls. *)
Inductive ServerTx : list TransactWriteItem -> Prop :=
| st_create draft i k now : ServerTx (create_tx draft i k now)
| st_revision k head next r now : ServerTx (revision_tx k head next r now)
| st_metadata k now name price :
    ServerTx [Update (skin_meta k)
                ([Set_ "updatedAtMs" (AV_N now)] ++ set_opt "name" (AV_S <$> name)
                 ++ set_opt "priceBux" (AV_N <$> price)) (AttributeExists "pk")]
| st_publication k kind p now : ServerTx (publication_tx k kind p None now)
| st_review k sk item : ServerTx [Put (skin_row k ("REVIEW#" +:+ sk)) item None]
| st_pending k r now : ServerTx (pending_tx k r now)
| st_clear k r : ServerTx (clear_tx k r)
| st_decision k kind d target digest item now :
    ServerTx (decision_tx k kind d target ("REVIEW#" +:+ digest, item) now)
| st_approve k r :
    ServerTx [Update (revision_row k r) [Set_ "reviewApproved" (AV_BOOL true); Remove "reviewRejected"]
                (AttributeExists "pk")]
| st_exposed k r at_ms :
    ServerTx [Update (revision_row k r) [Set_ "exposedAtMs" (AV_N at_ms)]
                (And (AttributeExists "pk") (AttributeNotExists "exposedAtMs"))]
| st_grant u k g p now : ServerTx (grant_tx u k g p now)
| st_wearers k d : ServerTx [Update (skin_meta k) [Add "wearerCount" d] (AttributeExists "pk")]
| st_equipment u a b :
    ServerTx [Update (account_row u "META") (slot_actions "selectedSkin" a ++ slot_actions "selectedBase" b)
                row_present]
| st_counter e : ServerTx [Update (MainTable, "COUNTER", e) [Count "counter" 999 1] Always]
| st_entry u src key d h note now : ServerTx (entry_tx u src key d h note now)
| st_purchase u k p key h now : 0 <= p -> ServerTx (purchase_tx u k p key h now).

Lemma ServerTx_BuxTx l : ServerTx l -> BuxTx l.
Proof.
  destruct 1 as [draft i k now| | | | |k r now| |k kind d target digest item now| | | | |u a b|e| |].
  - destruct i as [[key h]|]; quiet.
  - quiet.
  - quiet.
  - quiet.
  - quiet.
  - destruct r; quiet.
  - quiet.
  - destruct d, target as [[r c]|]; quiet.
  - quiet.
  - quiet.
  - quiet.
  - quiet.
  - apply BuxTx_quiet, Forall_singleton. split.
    + intros (v & s & c & H%account_row_inj). by destruct H.
    + intros v _. apply Forall_app. destruct a as [[]|], b as [[]|]; cbn; repeat constructor; done.
  - apply BuxTx_quiet, Forall_singleton. split; [intros (u & s & b & [=])|intros u [=]].
  - by exists (EvEntry u src key d h note now).
  - by exists (EvPurchase u k p key h now).
Qed.

#[local] Hint Constructors ServerTx : sends.

Lemma get_skin_sends k : Sends ServerTx (get_skin k).
Proof. unfold get_skin. sends. Qed.
Lemma get_skin_consistent_sends k : Sends ServerTx (get_skin_consistent k).
Proof. unfold get_skin_consistent. sends. Qed.
Lemma get_skin_revision_sends k r : Sends ServerTx (get_skin_revision k r).
Proof. unfold get_skin_revision. sends. Qed.
Lemma get_skin_revision_consistent_sends k r : Sends ServerTx (get_skin_revision_consistent k r).
Proof. unfold get_skin_revision_consistent. sends. Qed.
Lemma has_skin_grant_sends u k : Sends ServerTx (has_skin_grant u k).
Proof. unfold has_skin_grant. sends. Qed.
Lemma get_wallet_sends u n : Sends ServerTx (get_wallet u n).
Proof. unfold get_wallet. sends. Qed.
Lemma get_ledger_entry_sends u src key : Sends ServerTx (get_ledger_entry u src key).
Proof. unfold get_ledger_entry. sends. Qed.
Lemma get_user_by_id_sends u : Sends ServerTx (get_user_by_id u).
Proof. unfold get_user_by_id. sends. Qed.
#[local] Hint Resolve get_skin_sends get_skin_consistent_sends get_skin_revision_sends
  get_skin_revision_consistent_sends has_skin_grant_sends get_wallet_sends get_ledger_entry_sends
  get_user_by_id_sends : sends.

Lemma reconcile_creation_sends u i : Sends ServerTx (reconcile_creation u i).
Proof. unfold reconcile_creation, get_skin_create_idempotency. sends. Qed.
Lemma generate_id_sends e : Sends ServerTx (generate_id_for_entity e).
Proof. split; [constructor|]. intros [|]; done. Qed.
#[local] Hint Resolve reconcile_creation_sends generate_id_sends : sends.

Lemma create_skin_sends draft : Sends ServerTx (create_skin draft).
Proof. unfold create_skin. sends. Qed.
Lemma head_is_sends skin k n r : Sends ServerTx (head_is skin k n r).
Proof. unfold head_is. sends. Qed.
#[local] Hint Resolve head_is_sends : sends.
Lemma put_skin_revision_sends k e r : Sends ServerTx (put_skin_revision k e r).
Proof. unfold put_skin_revision. sends. Qed.
Lemma update_skin_metadata_sends k n p : Sends ServerTx (update_skin_metadata k n p).
Proof. unfold update_skin_metadata. sends. Qed.
Lemma set_skin_publication_sends k p a t : Sends ServerTx (set_skin_publication k p None a t).
Proof.
  unfold set_skin_publication. apply Sends_bind; [sends|intros now]. apply Sends_bind; [sends|intros o].
  apply Sends_bind; [sends|intros skin].
  match goal with |- Sends _ (mret ?x ≫= ?f) => change (Sends ServerTx (f x)) end. cbn beta. sends.
Qed.
Lemma set_skin_pending_revision_sends k r : Sends ServerTx (set_skin_pending_revision k r).
Proof. unfold set_skin_pending_revision. sends. Qed.
Lemma clear_skin_pending_revision_exact_sends k r : Sends ServerTx (clear_skin_pending_revision_exact k r).
Proof. unfold clear_skin_pending_revision_exact. sends. Qed.
Lemma decision_target_sends skin k d r c : Sends ServerTx (decision_target skin k d r c).
Proof. unfold decision_target. sends. Qed.
Lemma decision_converged_sends skin k d t : Sends ServerTx (decision_converged skin k d t).
Proof. unfold decision_converged. sends. Qed.
#[local] Hint Resolve decision_target_sends decision_converged_sends : sends.
Lemma decide_skin_review_sends k d r c a t : Sends ServerTx (decide_skin_review k d r c a t).
Proof. unfold decide_skin_review. sends. Qed.
Lemma grant_skin_sends u k g p : Sends ServerTx (grant_skin u k g p).
Proof. unfold grant_skin. sends. Qed.
Lemma adjust_skin_wearers_sends k d : Sends ServerTx (adjust_skin_wearers k d).
Proof. unfold adjust_skin_wearers. sends. Qed.
Lemma set_user_equipment_sends u a b : Sends ServerTx (set_user_equipment u a b).
Proof.
  unfold set_user_equipment. destruct (slot_actions _ a ++ slot_actions _ b) as [|x l] eqn:E; [done|].
  apply Sends_write. rewrite <-E. constructor.
Qed.
#[local] Hint Resolve create_skin_sends put_skin_revision_sends set_skin_publication_sends
  set_skin_pending_revision_sends clear_skin_pending_revision_exact_sends decide_skin_review_sends
  grant_skin_sends adjust_skin_wearers_sends set_user_equipment_sends : sends.

Lemma apply_ledger_entry_sends u src key d h note : Sends ServerTx (apply_ledger_entry u src key d h note).
Proof. unfold apply_ledger_entry. sends. Qed.
Lemma purchase_skin_sends u k p key h : 0 <= p -> Sends ServerTx (purchase_skin u k p key h).
Proof.
  intros Hp. unfold purchase_skin, explain_refusal. sends. apply Sends_transact, st_purchase. lia.
Qed.
#[local] Hint Resolve apply_ledger_entry_sends purchase_skin_sends : sends.

Lemma resolve_slot_sends u r kind : Sends ServerTx (resolve_slot u r kind).
Proof. unfold resolve_slot. sends. Qed.
Lemma load_visible_skin_sends k user : Sends ServerTx (load_visible_skin k user).
Proof. unfold load_visible_skin. sends. Qed.
Lemma settle_sends config st r : Sends ServerTx (settle config st r).
Proof. unfold settle. sends. Qed.
#[local] Hint Resolve resolve_slot_sends load_visible_skin_sends settle_sends : sends.

(** The calls of the server that write. *)
Inductive server_call : forall {A : Type}, Db A -> Prop :=
| call_webhook config headers body : server_call (xsolla_webhook config headers body)
| call_entry u src key d h note : server_call (apply_ledger_entry u src key d h note)
| call_purchase user k request :
    0 <= pq_expected_price_bux request -> server_call (purchase_skin_handler user k request)
| call_equipment user a b : server_call (set_equipment user a b)
| call_create draft : server_call (create_skin draft)
| call_revision k head r : server_call (put_skin_revision k head r)
| call_metadata k name price : server_call (update_skin_metadata k name price)
| call_request user k request : server_call (request_publication user k request)
| call_cancel user k request : server_call (cancel_publication_request user k request)
| call_report user k reason note : server_call (report_skin user k reason note)
| call_admin user k request : server_call (admin_set_status user k request)
| call_approve k r : server_call (approve_skin_revision k r)
| call_exposed k r at_ms : server_call (mark_revision_exposed k r at_ms)
| call_worn k u : server_call (resolve_authored_skin k u).

Lemma server_calls_send {A : Type} (p : Db A) : server_call p -> Sends ServerTx p.
Proof.
  destruct 1.
  - unfold xsolla_webhook. sends.
  - sends.
  - unfold purchase_skin_handler. sends.
  - unfold set_equipment. sends.
  - sends.
  - sends.
  - unfold update_skin_metadata. sends.
  - unfold request_publication. sends.
  - unfold cancel_publication_request. sends.
  - unfold report_skin. sends.
  - unfold admin_set_status. sends.
  - unfold approve_skin_revision. sends.
  - unfold mark_revision_exposed. sends.
  - unfold resolve_authored_skin, mark_revision_exposed. sends.
Qed.
End calls.

(** ** Balances are sums *)

(** The rows of the ledger of a user, and the sum of what they moved. *)
Definition is_entry_of (u : Z) (k : Key) : Prop := exists src key, k = ledger_row u src key.

Definition entry_key_of (u : Z) (k : Key) : bool :=
  bool_decide (k.1 = (MainTable, "USER#" +:+ display_int u))
  && existsb (fun src => String.prefix ("TXN#" +:+ source_str src +:+ "#") k.2) [Xsolla; Refund; Purchase; Admin].

Lemma prefix_app (p x : string) : String.prefix p (p +:+ x) = true.
Proof.
  induction p as [|c p IH]; [by destruct x|].
  change ((if ascii_dec c c then String.prefix p (p +:+ x) else false) = true).
  rewrite IH. by destruct (ascii_dec c c).
Qed.

Lemma prefix_inv (p x : string) : String.prefix p x = true -> exists y, x = p +:+ y.
Proof.
  revert x. induction p as [|c p IH]; intros x H; [by exists x|].
  destruct x as [|d x]; [done|]. cbn in H. destruct (ascii_dec c d) as [->|]; [|done].
  destruct (IH _ H) as [y ->]. by exists y.
Qed.

Lemma entry_key_of_spec u k : entry_key_of u k = true <-> is_entry_of u k.
Proof.
  unfold entry_key_of, is_entry_of. rewrite andb_true_iff, bool_decide_eq_true, existsb_exists. split.
  - intros [E (src & _ & (key & Hk)%prefix_inv)]. exists src, key. destruct k as [k1 k2]. cbn in E, Hk.
    subst. unfold ledger_row, account_row, ledger_sort_key. by rewrite !string_app_assoc.
  - intros (src & key & ->). split; [done|]. exists src. split; [destruct src; cbn; tauto|].
    unfold ledger_row, account_row, ledger_sort_key. cbn [snd].
    assert (E : "TXN#" +:+ source_str src +:+ "#" +:+ key = ("TXN#" +:+ source_str src +:+ "#") +:+ key)
      by by rewrite !string_app_assoc.
    rewrite E. apply prefix_app.
Qed.

Definition delta_of (item : Item) : Z := match item !! "delta" with Some (AV_N d) => d | _ => 0 end.

Definition ledger_of (s : Store) (u : Z) : Store := filter (fun kv => entry_key_of u kv.1 = true) s.

Definition ledger_sum (s : Store) (u : Z) : Z := map_fold (fun _ item sum => delta_of item + sum) 0 (ledger_of s u).

Lemma entry_is_ledger u k : is_entry_of u k -> ledger_key k.
Proof. intros (src & key & ->). by exists u, src, key. Qed.

Lemma ledger_sum_frame s s' u : (forall k, ledger_key k -> s' !! k = s !! k) -> ledger_sum s' u = ledger_sum s u.
Proof.
  intros H. unfold ledger_sum, ledger_of. f_equal. apply map_eq. intros k.
  destruct (decide (entry_key_of u k = true)) as [Hk|Hk].
  - rewrite !map_lookup_filter, H; [done|]. by eapply entry_is_ledger, entry_key_of_spec.
  - rewrite !map_lookup_filter. by destruct (s !! k), (s' !! k); cbn; rewrite ?option_guard_False.
Qed.

Lemma ledger_sum_add s s' k u d h v :
  is_entry_of u k -> moves s s' k u d h ->
  ledger_sum s' v = ledger_sum s v + (if bool_decide (u = v) then d else 0).
Proof.
  intros Hk (Hnew & _ & (item & Hi & Hd & _) & Hother & _).
  assert (Hs : forall k', ledger_key k' -> s' !! k' = <[k := item]> s !! k').
  { intros k' Hk'. destruct (decide (k' = k)) as [->|Hn]; [by rewrite lookup_insert_eq|].
    rewrite lookup_insert_ne by done. auto. }
  rewrite (ledger_sum_frame _ _ v Hs). unfold ledger_sum, ledger_of. case_bool_decide as E.
  - subst v. rewrite map_filter_insert_True by by apply entry_key_of_spec.
    rewrite map_fold_insert_L; [unfold delta_of at 1; rewrite Hd; lia|intros; lia|].
    apply map_lookup_filter_None. by left.
  - rewrite map_filter_insert_not; [lia|]. intros y H. apply entry_key_of_spec in H.
    destruct Hk as (src & key & ->), H as (src2 & key2 & H). apply ledger_row_inj in H as [Hu _]. done.
Qed.

Lemma event_entry_of e k u d h : event_entry e = Some (k, (u, d, h)) -> is_entry_of u k.
Proof. destruct e; intros [=]; subst; by do 2 eexists. Qed.

Lemma history_sums s events s' u :
  History s events s' -> ledger_sum s' u = ledger_sum s u + total (moved u) events.
Proof.
  induction 1 as [s|s e log s' He Hr Hh IH]; [unfold total; cbn; lia|].
  rewrite IH. unfold total, moved. cbn. destruct (event_entry e) as [[k [[v d] h]]|] eqn:Ee.
  - rewrite (ledger_sum_add s _ k v d h); [lia|by eapply event_entry_of|by apply event_moves].
  - destruct e; try done. destruct (He _ Hr) as [Hkeep _].
    rewrite (ledger_sum_frame s) by done. lia.
Qed.

(** Every balance is the sum of the rows of its ledger. *)
Definition Accounted (s : Store) : Prop := forall u, balance s u = ledger_sum s u.

(** *** The theorems *)

Section theorems.
Context {SD : SkinDocs} {PE : PaymentEnv}.

(** A call is a piece of a history that contains what the call executed. *)
Lemma call_history {A : Type} (p : Db A) world n s :
  Sends BuxTx p -> lawful BuxTx world ->
  exists events, History s events (final (run p world n s))
                 /\ executed (run p world n s) `sublist_of` (event_tx <$> events).
Proof.
  intros Hp Hw. destruct (run_trace _ p world n s Hp Hw) as (log & Ht & Hs).
  apply trace_history in Ht as (events & Hh & ->). by exists events.
Qed.

(** C8. Whatever any call of the server does, whatever other calls run between its
    requests and whatever is lost or answered late: if every balance was the sum
    of the rows of its ledger, it still is; no account and no row of a ledger ever
    disappears or changes; and the rows added since have distinct keys, one for
    every transaction that moved Snakebux, with what it moved. *)
Theorem every_balance_is_the_sum_of_its_ledger {A : Type} (p : Db A) world n s :
  server_call p -> lawful BuxTx world -> Accounted s ->
  let s' := final (run p world n s) in
  Accounted s'
  /\ (forall u, account s u -> account s' u)
  /\ (forall k, ledger_key k -> is_Some (s !! k) -> s' !! k = s !! k)
  /\ exists events,
       executed (run p world n s) `sublist_of` (event_tx <$> events)
       /\ NoDup (entry_keys events)
       /\ (forall k, ledger_key k -> s' !! k <> s !! k <-> k ∈ entry_keys events)
       /\ (forall u, balance s' u = balance s u + total (moved u) events)
       /\ forall k u d h, Some (k, (u, d, h)) ∈ event_entry <$> events ->
            exists item, s' !! k = Some item /\ item !! "delta" = Some (AV_N d)
                         /\ item !! "requestHash" = Some (AV_S h).
Proof.
  intros Hc Hw Hs s'. destruct (call_history p world n s (Sends_mono _ _ p ServerTx_BuxTx (server_calls_send p Hc)) Hw) as (events & Hh & Hx).
  fold s' in Hh. split; [|split; [|split]].
  - intros u. rewrite (proj2 (history_balances _ _ _ u Hh)), (history_sums _ _ _ u Hh). by rewrite Hs.
  - intros u. apply (history_balances _ _ _ u Hh).
  - intros k Hk Hi. by apply (proj1 (history_rows _ _ _ _ Hh Hk)) in Hi as [? _].
  - exists events. split; [done|]. split; [by eapply history_keys_distinct|]. split; [|split].
    + intros k Hk. split.
      * intros Hne. destruct (decide (k ∈ entry_keys events)) as [|Hn]; [done|].
        by apply (proj2 (history_rows _ _ _ _ Hh Hk)) in Hn.
      * intros ([k' [[u d] h]] & Ek & (e & He & Ee)%list_elem_of_omap)%list_elem_of_fmap. cbn in Ek. subst k'.
        destruct (history_entries _ _ _ k u d h Hh) as [-> (item & -> & _)]; [|done].
        apply list_elem_of_fmap. eauto.
    + intros u. apply (history_balances _ _ _ u Hh).
    + intros k u d h Hin. apply (history_entries _ _ _ k u d h Hh Hin).
Qed.

(** *** Entries *)

Lemma executed_told m l s r : transact_result m l s = (r, true) -> r = TxOk \/ r = TxFailed.
Proof.
  unfold transact_result. destruct (mo_delivery m), (mo_conflict m); try done;
    repeat case_match; intros [= <-]; auto.
Qed.

Lemma refused_told m l s r : transact_result m l s = (r, false) -> r <> TxOk.
Proof. unfold transact_result. repeat case_match; by intros [= <-]. Qed.

Lemma calm_result m l s :
  mo_delivery m = Delivered -> mo_conflict m = false -> tx_valid l = true ->
  transact_result m l s = if tx_runs s l then (TxOk, true) else (TxCanceled (negb (forallb (tx_condition s) l)), false).
Proof. unfold transact_result. intros -> -> ->. done. Qed.

(** C10. Applying an entry, in any world: at most one transaction is executed, and
    none if the row of the entry exists already; an answer of true says that this
    call wrote the row and added its amount to the balance, an answer of false or
    of a reused key that it did not, and a lost answer leaves one or the other. *)
Theorem ledger_entries_apply_at_most_once u src key d h note world n s :
  lawful BuxTx world ->
  let r := run (apply_ledger_entry u src key d h note) world n s in
  let row := ledger_row u src key in
  (executed r = [] /\ outcome r <> Ok true
   \/ exists now s1,
        executed r = [entry_tx u src key d h note now]
        /\ (exists log, Trace BuxTx s log s1)
        /\ s !! row = None
        /\ final r !! row = Some (ledger_item u src key d h now (opt_attr "note" (AV_S <$> note)))
        /\ balance (final r) u = balance s1 u + d
        /\ outcome r <> Ok false /\ outcome r <> Err KeyReused)
  /\ (is_Some (s !! row) -> executed r = [] /\ final r !! row = s !! row).
Proof.
  intros Hw r row.
  destruct (call_history _ world n s (Sends_mono _ _ _ ServerTx_BuxTx (apply_ledger_entry_sends u src key d h note)) Hw) as (events & Hh & _).
  fold r in Hh. assert (Hrow : ledger_key row) by by do 3 eexists.
  destruct (history_rows _ _ _ _ Hh Hrow) as [Hkeep _].
  assert (Hmain : executed r = [] /\ outcome r <> Ok true
   \/ exists now s1, executed r = [entry_tx u src key d h note now] /\ (exists log, Trace BuxTx s log s1)
        /\ tx_runs s1 (entry_tx u src key d h note now) = true
        /\ final r = foldl tx_write s1 (entry_tx u src key d h note now)
        /\ outcome r <> Ok false /\ outcome r <> Err KeyReused).
  { unfold r, apply_ledger_entry, outcome, executed, final. cbn.
    set (now := mo_now (world n)). set (s1 := mo_change (world (S n)) s).
    destruct (transact_result (world (S n)) (entry_tx u src key d h note now) s1) as [t []] eqn:E.
    - right. exists now, s1. pose proof (executed_runs _ _ _ _ E) as Hr.
      destruct (executed_told _ _ _ _ E) as [-> | ->]; cbn; (split; [done|]; split; [apply Hw|]; done).
    - left. pose proof (refused_told _ _ _ _ E). destruct t as [|[]|]; cbn; try done.
      repeat case_match; done. }
  destruct Hmain as [[Hx Ho]|(now & s1 & Hx & [log Hlog] & Hr & Hf & Ho)].
  - split; [by left|]. intros Hi. split; [done|]. by apply Hkeep in Hi as [? _].
  - destruct (entry_moves _ _ _ _ _ _ _ _ Hr) as (Hnew & _ & _ & _ & Hm). specialize (Hm u).
    rewrite bool_decide_eq_true_2 in Hm by done.
    apply trace_history in Hlog as Hlog'. destruct Hlog' as (events1 & Hh1 & _).
    assert (Hs : s !! row = None).
    { destruct (s !! row) as [i|] eqn:E; [|done]. destruct (history_rows _ _ _ _ Hh1 Hrow) as [Hk1 _].
      destruct Hk1 as [Hk1 _]; [by rewrite E|]. fold row in Hnew. congruence. }
    split; [|rewrite Hs; by intros [? [=]]]. right. exists now, s1. rewrite Hf. repeat split; try tauto.
    + eauto.
    + cbn. rewrite lookup_insert_ne by auto. by rewrite lookup_insert_eq.
Qed.
(** A world in which nothing else happens to the store [s]. *)
Definition calm (world : nat -> Moment) (s : Store) : Prop :=
  forall n, mo_delivery (world n) = Delivered /\ mo_conflict (world n) = false /\ mo_fails (world n) = false
            /\ mo_change (world n) s = s /\ mo_stale (world n) = s.

Lemma entry_tx_valid u src key d h note now : tx_valid (entry_tx u src key d h note now) = true.
Proof.
  unfold tx_valid. cbn. apply bool_decide_eq_true.
  apply NoDup_cons_2; [|apply NoDup_singleton]. rewrite list_elem_of_singleton. auto.
Qed.

(** Without disturbance the answer says whether the entry was new. *)
Theorem undisturbed_entries_are_answered u src key d h note world n s balance_item :
  calm world s -> s !! balance_row u = Some balance_item ->
  action_typed balance_item (Add "boostBux" d) = true ->
  outcome (run (apply_ledger_entry u src key d h note) world n s)
  = match s !! ledger_row u src key with
    | None => Ok true
    | Some item => match extract_string item "requestHash" with
                   | Some stored => if bool_decide (stored = h) then Ok false else Err KeyReused
                   | None => Err "User not found"
                   end
    end.
Proof.
  intros Hc Hb Hty. unfold apply_ledger_entry, outcome. cbn. set (now := mo_now (world n)).
  destruct (Hc (S n)) as (H1 & H2 & _ & H4 & _). rewrite calm_result, H4 by auto using entry_tx_valid.
  unfold tx_runs. rewrite entry_tx_valid. cbn -[apply_action action_typed]. rewrite Hb. cbn -[action_typed].
  rewrite Hty. unfold get_item. rewrite Hb. destruct (s !! ledger_row u src key) as [item|] eqn:E; cbn.
  - destruct (Hc (S (S n))) as (_ & _ & H3 & _ & H5). rewrite bool_decide_eq_false_2.
    2:{ unfold keyed. cbn. by rewrite lookup_insert_ne, lookup_insert_eq. }
    cbn. unfold get_item. rewrite H3, H5, E. cbn. unfold extract_string.
    assert (Hk : keyed (ledger_row u src key) item !! "requestHash" = item !! "requestHash").
    { unfold keyed. cbn. by rewrite !lookup_insert_ne. }
    rewrite Hk. by repeat case_match.
  - rewrite (bool_decide_eq_true_2 (is_Some _)); [done|]. unfold keyed. cbn. by rewrite lookup_insert_eq.
Qed.

(** *** Purchases *)

(** What a purchase needs and what it leaves. *)
Definition bought (s s' : Store) (u k p : Z) (key h : string) (now : Z) : Prop :=
  p <= balance s u /\ balance s' u = balance s u - p
  /\ s !! ledger_row u Purchase key = None
  /\ s' !! ledger_row u Purchase key
     = Some (ledger_item u Purchase key (- p) h now [("skinId", AV_N k)])
  /\ s !! grant_row u k = None
  /\ s' !! grant_row u k = Some (grant_item k GrantPurchase p now)
  /\ exists meta, s !! skin_meta k = Some meta
      /\ meta !! "priceBux" = Some (AV_N p) /\ meta !! "publication" = Some (AV_S (publication_str Published))
      /\ s' !! skin_meta k = Some (apply_action meta (Add "ownerCount" 1)).

Lemma at_least_balance s u p : holds (AtLeast "boostBux" p) (get_item s (balance_row u)) = true -> p <= balance s u.
Proof.
  unfold get_item, balance. cbn. destruct (s !! balance_row u) as [item|]; cbn; [|done].
  unfold keyed. cbn. rewrite !lookup_insert_ne by done. destruct (item !! "boostBux") as [[]|]; try done. lia.
Qed.

Lemma equals_attribute s k a v :
  a <> "pk" -> a <> "sk" -> k.1.1 <> UsernamesTable -> holds (Equals a v) (get_item s k) = true ->
  exists item, s !! k = Some item /\ item !! a = Some v.
Proof.
  unfold get_item. cbn. rewrite bool_decide_eq_true. intros H1 H2 H3 H. destruct (s !! k) as [item|]; [|done].
  exists item. split; [done|]. cbn in H. unfold keyed in H.
  destruct k as [[[] pk] sk]; cbn in *; try done; by rewrite !lookup_insert_ne in H by done.
Qed.

Lemma tx_writes_all s l :
  NoDup (tx_key <$> l) -> Forall (fun t => foldl tx_write s l !! tx_key t = tx_write s t !! tx_key t) l.
Proof. intros Hn. apply Forall_forall. intros t Ht. by apply tx_writes_once. Qed.

Lemma purchase_buys s u k p key h now :
  tx_runs s (purchase_tx u k p key h now) = true ->
  bought s (foldl tx_write s (purchase_tx u k p key h now)) u k p key h now.
Proof.
  intros Hr. destruct (purchase_moves _ _ _ _ _ _ _ Hr) as (Hnew & _ & _ & _ & Hm). specialize (Hm u).
  rewrite bool_decide_eq_true_2 in Hm by done. destruct Hm as [_ Hb].
  apply tx_runs_inv in Hr as [Hn Hh].
  assert (Hw := tx_writes_all s _ Hn). set (s' := foldl tx_write s _) in *. clearbody s'.
  unfold purchase_tx in Hh, Hw. rewrite !Forall_cons in Hh, Hw. destruct Hh as (_ & H2 & H3 & H4 & _).
  destruct Hw as (W1 & _ & W3 & W4 & _). cbn -[apply_action] in W1, W3, W4.
  rewrite lookup_insert_eq in W1, W3, W4.
  cbn [tx_holds holds] in H2, H3, H4. apply andb_true_iff in H2 as [[_ H2]%andb_true_iff _].
  apply andb_true_iff in H3 as [[H3 H5]%andb_true_iff _].
  apply (at_least_balance s u p) in H2. apply row_absent_sk in H4.
  apply (equals_attribute s _ "priceBux" _) in H3 as (meta & Hmeta & Hprice); [|done..].
  apply (equals_attribute s _ "publication" _) in H5 as (meta' & Hmeta' & Hpub); [|done..].
  rewrite Hmeta in Hmeta'. injection Hmeta' as <-.
  repeat split; [done|lia|done..|]. exists meta. repeat split; try done.
  by rewrite W3, Hmeta.
Qed.

Lemma get_skin_reads k : Reads (get_skin k).
Proof. unfold get_skin. apply Reads_bind; done. Qed.
Lemma has_skin_grant_reads u k : Reads (has_skin_grant u k).
Proof. unfold has_skin_grant. apply Reads_bind; done. Qed.
Lemma get_wallet_reads u n : Reads (get_wallet u n).
Proof. unfold get_wallet. apply Reads_bind; [done|]. intros. by apply Reads_bind. Qed.
Lemma explain_refusal_reads u k p : Reads (explain_refusal u k p).
Proof.
  apply Reads_bind; [apply has_skin_grant_reads|]. intros []; [done|]. apply Reads_bind; [apply get_skin_reads|].
  intros [?|]; done.
Qed.

Lemma explain_refusal_refuses u k p world n s :
  lawful BuxTx world -> outcome (run (explain_refusal u k p) world n s) <> Ok Purchased.
Proof.
  intros Hw. unfold explain_refusal.
  apply (read_then BuxTx _ _ _ _ _ (fun r => outcome r <> Ok Purchased)); [apply has_skin_grant_reads|done| |done].
  intros s1 n1 log1 [] _; [done|].
  apply (read_then BuxTx _ _ _ _ _ (fun r => outcome r <> Ok Purchased)); [apply get_skin_reads|done| |done]. intros s2 n2 log2 skin _.
  unfold outcome. cbn. by repeat case_match.
Qed.

(** What a gift is, from one store to the next: no balance moves. *)
Definition given (s s' : Store) (u k now : Z) : Prop :=
  s !! grant_row u k = None
  /\ s' !! grant_row u k = Some (grant_item k GrantGrant 0 now)
  /\ s' !! skin_meta k = Some (apply_action (default ∅ (s !! skin_meta k)) (Add "ownerCount" 1))
  /\ forall u', balance s' u' = balance s u'.

Lemma grant_gives s u k now :
  tx_runs s (grant_tx u k GrantGrant 0 now) = true ->
  given s (foldl tx_write s (grant_tx u k GrantGrant 0 now)) u k now.
Proof.
  intros Hr. apply tx_runs_inv in Hr as [_ Hh]. apply Forall_cons in Hh as [Hg _].
  assert (Hne : skin_meta k <> grant_row u k) by (intros [=]).
  cbn [tx_holds] in Hg.
  split; [|split; [|split]].
  - destruct (s !! grant_row u k) as [item|] eqn:E; [|done]. unfold get_item in Hg. rewrite E in Hg.
    cbn in Hg. rewrite bool_decide_eq_true in Hg. unfold keyed in Hg. cbn in Hg. by rewrite lookup_insert_eq in Hg.
  - cbn. by rewrite lookup_insert_ne, lookup_insert_eq.
  - cbn. by rewrite lookup_insert_eq, (lookup_insert_ne s) by done.
  - intros u'. unfold balance. cbn -[display_int]. rewrite !lookup_insert_ne; [done|by intros [=]..].
Qed.

(** A refused gift: the skin is there already. *)
Lemma refused_grant s u k now m :
  transact_result m (grant_tx u k GrantGrant 0 now) s = (TxCanceled true, false) -> is_Some (s !! grant_row u k).
Proof.
  unfold transact_result. destruct (mo_delivery m), (mo_conflict m); try done;
    destruct (tx_runs s (grant_tx u k GrantGrant 0 now)), (tx_valid (grant_tx u k GrantGrant 0 now)); try done.
  intros [= H]. destruct (s !! grant_row u k) as [item|] eqn:E; [by eexists|].
  exfalso. revert H. cbn -[display_int]. unfold get_item. rewrite E. cbn. done.
Qed.

(** What a purchase from the store [s] comes to. *)
Definition purchase_case (s : Store) (u k p : Z) (key h : string)
    (r : Result PurchaseOutcome * Store * list (list TransactWriteItem)) : Prop :=
  (executed r = [] \/ (exists now s1 log, Trace BuxTx s log s1
     /\ ((p = 0 /\ executed r = [grant_tx u k GrantGrant 0 now] /\ given s1 (final r) u k now)
         \/ (0 < p /\ executed r = [purchase_tx u k p key h now] /\ bought s1 (final r) u k p key h now
             /\ (outcome r = Ok Purchased \/ exists e, outcome r = Err e)))))
  /\ (outcome r = Ok Purchased -> is_Some (final r !! grant_row u k) /\ (0 < p -> executed r <> [])).

(** The gift of a skin of price zero. *)
Lemma gift_case s u k key h world n s3 log :
  lawful BuxTx world -> Trace BuxTx s log s3 ->
  purchase_case s u k 0 key h (run (grant_skin u k GrantGrant 0 ≫= fun _ => mret Purchased) world n s3).
Proof.
  intros Hw Ht. unfold grant_skin, purchase_case, executed, outcome, final. cbn -[grant_tx given].
  set (now := mo_now (world n)). destruct (Hw (S n) s3) as [log4 H4].
  destruct (transact_result (world (S n)) (grant_tx u k GrantGrant 0 now) (mo_change (world (S n)) s3))
    as [t []] eqn:E.
  - pose proof (grant_gives _ _ _ _ (executed_runs _ _ _ _ E)) as Hg.
    destruct (executed_told _ _ _ _ E) as [-> | ->]; cbn -[grant_tx given].
    all: split; [right; do 3 eexists; split; [eapply Trace_app; eauto|left; eauto]|].
    + intros _. split; [|lia]. destruct Hg as (_ & -> & _). by eexists.
    + done.
  - destruct t as [|[]|]; [by apply refused_told in E| |by split; [left|]..]. cbn -[grant_tx given].
    split; [by left|]. intros _. split; [by eapply refused_grant|lia].
Qed.

(** C9. Buying a skin, in any world: the whole purchase happens, at most once, or
    nothing does. For a price above zero it happens only from a store in which the
    buyer's balance covers the price the buyer was shown, the skin has that price
    and is published, and the buyer has neither the skin nor an entry under this
    key; it leaves the balance less the price, the entry, the grant and one more
    owner; the answer Purchased is given for a purchase that happened only, and no
    other answer than an error hides one. A skin of price zero is given instead,
    whatever its publication: at most once, from a store without the grant to one
    with it and one more owner, and no balance moves. Whatever the price, the
    answer Purchased leaves the buyer with a grant of the skin. *)
Theorem purchases_are_all_or_nothing u k p key h world n s :
  lawful BuxTx world -> 0 <= p ->
  let r := run (purchase_skin u k p key h) world n s in
  (executed r = [] \/ (exists now s1 log, Trace BuxTx s log s1
     /\ ((p = 0 /\ executed r = [grant_tx u k GrantGrant 0 now] /\ given s1 (final r) u k now)
         \/ (0 < p /\ executed r = [purchase_tx u k p key h now] /\ bought s1 (final r) u k p key h now
             /\ (outcome r = Ok Purchased \/ exists e, outcome r = Err e)))))
  /\ (outcome r = Ok Purchased -> is_Some (final r !! grant_row u k) /\ (0 < p -> executed r <> [])).
Proof.
  intros Hw Hp r.
  set (Q := purchase_case s u k p key h).
  assert (Hno : forall (x : Result PurchaseOutcome) s1, x <> Ok Purchased -> Q (x, s1, [])) by (split; [by left|done]).
  assert (Herr : forall (s1 : Store) e, Q (Err e, s1, []) /\ Q (Panic e, s1, [])) by (intros; split; by apply Hno).
  change (Q r). unfold r, purchase_skin.
  apply (read_then BuxTx); [apply has_skin_grant_reads|done| |eauto]. intros s1 n1 log1 [] H1; [by apply Hno|].
  apply (read_then BuxTx); [apply get_skin_reads|done| |eauto]. intros s2 n2 log2 o H2.
  apply (read_then BuxTx); [done|done| |eauto]. intros s3 n3 log3 skin H3.
  pose proof (Trace_app _ _ _ _ _ _ (Trace_app _ _ _ _ _ _ H1 H2) H3) as Ht3.
  destruct (sk_price_bux skin =? p) eqn:Ep; cbn [negb]; [|by apply Hno]. apply Z.eqb_eq in Ep. rewrite Ep.
  destruct (p =? 0) eqn:E0; [apply Z.eqb_eq in E0|].
  { unfold Q. rewrite E0. by eapply gift_case. }
  apply Z.eqb_neq in E0. case_bool_decide; [by apply Hno|].
  apply (read_then BuxTx); [apply get_wallet_reads|done| |eauto]. intros s4 n4 log4 wallet H4.
  destruct (negb (may_spend wallet p)); [by apply Hno|].
  apply (read_then BuxTx); [done|done| |eauto]. intros s5 n5 log5 now H5.
  destruct (Hw n5 s5) as [log6 H6].
  pose proof (Trace_app _ _ _ _ _ _ (Trace_app _ _ _ _ _ _ (Trace_app _ _ _ _ _ _ Ht3 H4) H5) H6) as Ht.
  unfold Q, purchase_case, executed, outcome, final. cbn -[purchase_tx explain_refusal bought given].
  destruct (transact_result (world n5) (purchase_tx u k p key h now) (mo_change (world n5) s5)) as [t []] eqn:E.
  - pose proof (purchase_buys _ _ _ _ _ _ _ (executed_runs _ _ _ _ E)) as Hb.
    assert (Hgrant := Hb). destruct Hgrant as (_ & _ & _ & _ & _ & Hgrant & _).
    destruct (executed_told _ _ _ _ E) as [-> | ->]; cbn -[purchase_tx bought given].
    all: split; [right; do 3 eexists; split; [exact Ht|right; split; [lia|]; eauto 6]|].
    + intros _. rewrite Hgrant. split; [by eexists|done].
    + done.
  - pose proof (refused_told _ _ _ _ E). destruct t as [|[]|]; cbn -[explain_refusal]; try (by split; [left|]).
    pose proof (read_only (explain_refusal u k p) world (S n5) (mo_change (world n5) s5)
                  (explain_refusal_reads u k p)) as Hx.
    split; [left; exact Hx|]. intros Ho. by apply explain_refusal_refuses in Ho.
Qed.

(** *** Payments *)

Lemma apply_ledger_entry_executes u src key d h note world n s :
  executed (run (apply_ledger_entry u src key d h note) world n s) = []
  \/ exists now, executed (run (apply_ledger_entry u src key d h note) world n s)
                 = [entry_tx u src key d h note now].
Proof.
  unfold apply_ledger_entry, executed. cbn -[entry_tx]. set (now := mo_now (world n)).
  destruct (transact_result _ _ _) as [t []] eqn:E.
  - right. exists now. destruct (executed_told _ _ _ _ E) as [-> | ->]; done.
  - left. pose proof (refused_told _ _ _ _ E). destruct t as [|[]|]; cbn; try done. by repeat case_match.
Qed.

Lemma executed_then {A B : Type} (p : Db A) (b : B) world n s :
  executed (run (p ≫= fun _ => mret b) world n s) = executed (run p world n s).
Proof.
  unfold executed, mbind, db_mbind. revert n s.
  induction p as [[]|c k cont IH|pk lim cont IH|l cont IH|k a cont IH|cont IH]; intros n s; cbn; auto.
  - destruct (transact_result _ _ _) as [t []]; [|auto].
    specialize (IH t (S n) (foldl tx_write (mo_change (world n) s) l)).
    destruct (run (db_bind _ _) _ _ _) as [[? ?] ?], (run (cont t) _ _ _) as [[? ?] ?]. cbn in *. by rewrite IH.
  - destruct (transact_result _ _ _) as [t []]; [|auto].
    match goal with |- context [cont ?item] => specialize (IH item (S n)
      (<[k := foldl apply_action (default ∅ (mo_change (world n) s !! k)) a]> (mo_change (world n) s))) end.
    destruct (run (db_bind _ _) _ _ _) as [[? ?] ?], (run (cont _) _ _ _) as [[? ?] ?]. cbn in *. by rewrite IH.
Qed.

(** What one notification may move: a pack on sale for a payment; for a refund
    what the payment credited, or the pack when there was no payment. *)
Definition pays (st : Settlement) (sku : string) (d : Z) : Prop :=
  cp_sku (se_custom_parameters st) = Some sku /\ pack_value sku = Some d.

Definition reverses (s1 : Store) (st : Settlement) (u d : Z) : Prop :=
  match s1 !! ledger_row u Xsolla (nt_id (se_transaction st)) with
  | Some item => d = - default 0 (extract_i64 item "delta")
  | None => exists sku, pays st sku (- d)
  end.

Lemma entry_delta_keyed u src key item :
  le_delta (entry_of_row src key (keyed (ledger_row u src key) item)) = default 0 (extract_i64 item "delta").
Proof. unfold entry_of_row, extract_i64, keyed. cbn. by rewrite !lookup_insert_ne. Qed.

Lemma payments_pay config st world n s :
  let r := run (settle config st ReversalNo) world n s in
  executed r = []
  \/ exists u sku v h now,
       admits_transaction st config = true /\ recipient_of st = Some u /\ pays st sku v
       /\ executed r = [entry_tx u Xsolla (nt_id (se_transaction st)) v h (Some sku) now].
Proof.
  unfold settle. destruct (admits_transaction st config); [|by left].
  destruct (recipient_of st) as [u|]; [|by left]. cbn [negb].
  change (mret None ≫= ?f) with (f None). cbn beta. unfold movement_for.
  destruct (cp_sku _) as [sku|] eqn:Es; [|by left]. cbn [mbind option_bind].
  destruct (pack_value sku) as [v|] eqn:Ev; [|by left]. cbn [mbind option_bind mv_source mv_delta mv_note].
  set (h := request_fingerprint _). rewrite executed_then.
  destruct (apply_ledger_entry_executes u Xsolla (nt_id (se_transaction st)) v h (Some sku) world n s) as [->|[now ->]];
    [by left|]. right. exists u, sku, v, h, now. done.
Qed.

Lemma refunds_reverse config st world n s :
  lawful BuxTx world ->
  let r := run (settle config st ReversalYes) world n s in
  executed r = []
  \/ exists u d h note now s1 log,
       admits_transaction st config = true /\ recipient_of st = Some u
       /\ executed r = [entry_tx u Refund (nt_id (se_transaction st)) d h note now]
       /\ Trace BuxTx s log s1 /\ reverses s1 st u d.
Proof.
  intros Hw. unfold settle. destruct (admits_transaction st config); [|by left].
  destruct (recipient_of st) as [u|]; [|by left]. cbn [negb].
  destruct (Hw n s) as [log Hlog]. cbn -[movement_for apply_ledger_entry]. set (s1 := mo_change (world n) s) in *.
  destruct (mo_fails (world n)); [by left|]. cbn -[movement_for apply_ledger_entry].
  set (original := entry_of_row _ _ <$> _).
  destruct (movement_for st ReversalYes original) as [m|] eqn:Em; [|by left].
  set (h := request_fingerprint _). rewrite (executed_then (apply_ledger_entry _ _ _ _ _ _)).
  destruct (apply_ledger_entry_executes u (mv_source m) (nt_id (se_transaction st)) (mv_delta m) h (Some (mv_note m))
              world (S n) s1) as [Hx|[now Hx]]; rewrite Hx; [by left|].
  right. exists u, (mv_delta m), h, (Some (mv_note m)), now, s1, log.
  assert (Hm : mv_source m = Refund /\ reverses s1 st u (mv_delta m)).
  { unfold reverses, movement_for in *. unfold original, get_item in Em. clear Hx.
    destruct (s1 !! ledger_row u Xsolla (nt_id (se_transaction st))) as [item|]; cbn -[entry_of_row pack_value] in Em.
    - injection Em as <-. split; [done|]. apply (f_equal Z.opp), (entry_delta_keyed u Xsolla).
    - destruct (cp_sku _) as [sku|] eqn:Es; [|done]. cbn -[pack_value] in Em.
      destruct (pack_value sku) as [v|] eqn:Ev; [|done].
      injection Em as <-. cbn. split; [done|]. exists sku. split; [done|]. by rewrite Z.opp_involutive. }
  destruct Hm as [<- Hm]. done.
Qed.

(** The signature a request presents. *)
Definition presented (headers : string -> option string) : string :=
  default "" ((headers "authorization" ≫= to_str) ≫= strip_prefix "Signature ").

(** C11. A notification moves Snakebux only if payments are configured, its address
    is accepted and its signature is that of its body; then it executes at most one
    entry, of the account it names: a payment credits the pack it names, at the
    value the shop sells it, and a refund takes back exactly what the payment
    of the same transaction credited, or the pack if that payment is not there. *)
Theorem notifications_move_what_was_paid payments headers body world n s :
  lawful BuxTx world ->
  let r := run (xsolla_webhook payments headers body) world n s in
  executed r = []
  \/ exists config st u h now,
       payments = Some config
       /\ accepts_source config (source_address headers) = true
       /\ signature_matches config body (presented headers) = true
       /\ admits_transaction st config = true /\ recipient_of st = Some u
       /\ ((parse_notification body = Some (PaymentNotice st)
            /\ exists sku v, pays st sku v
               /\ executed r = [entry_tx u Xsolla (nt_id (se_transaction st)) v h (Some sku) now])
           \/ (parse_notification body = Some (RefundNotice st)
               /\ exists d note s1 log,
                  executed r = [entry_tx u Refund (nt_id (se_transaction st)) d h note now]
                  /\ Trace BuxTx s log s1 /\ reverses s1 st u d
                  /\ forall item paid, s !! ledger_row u Xsolla (nt_id (se_transaction st)) = Some item ->
                       extract_i64 item "delta" = Some paid -> d = - paid)).
Proof.
  intros Hw. unfold xsolla_webhook. destruct payments as [config|]; [|by left].
  destruct (accepts_source config _) eqn:Ea; [|by left]. fold (presented headers).
  destruct (signature_matches config body _) eqn:Es; [|by left]. cbn [negb].
  destruct (parse_notification body) as [[user|st|st|]|] eqn:En; [..|by left|by left].
  - left. apply read_only. destruct (snaketron_user_id user); [|done].
    apply Reads_bind; [|by intros [[] |]]. apply Reads_bind; [done|]. intros [item|]; [|done].
    by apply Reads_bind.
  - destruct (payments_pay config st world n s) as [->|(u & sku & v & h & now & Hd & Hu & Hp & ->)]; [by left|].
    right. exists config, st, u, h, now. repeat (split; [done|]). left. eauto.
  - destruct (refunds_reverse config st world n s Hw)
      as [->|(u & d & h & note & now & s1 & log & Hd & Hu & -> & Ht & Hr)]; [by left|].
    right. exists config, st, u, h, now. repeat (split; [done|]). right. split; [done|].
    exists d, note, s1, log. repeat (split; [done|]). intros item paid Hi Hpaid.
    apply trace_history in Ht as (events & Hh & _). unfold reverses in Hr.
    destruct (history_rows _ _ _ (ledger_row u Xsolla (nt_id (se_transaction st))) Hh) as [Hkeep _];
      [by do 3 eexists|].
    destruct Hkeep as [Hkeep _]; [by rewrite Hi|]. rewrite Hkeep, Hi, Hpaid in Hr. done.
Qed.

(** The comparison of signatures, which looks at every byte, is equality without
    the case of letters. *)
Lemma lor_zero (f : Z -> Z) l d :
  foldl (fun d lr => Z.lor d (Z.lxor (f lr.1) (f lr.2))) d l = 0
  <-> d = 0 /\ Forall (fun lr : Z * Z => f lr.1 = f lr.2) l.
Proof.
  revert d. induction l as [|[a b] l IH]; intros d; cbn; [naive_solver|].
  rewrite IH, Z.lor_eq_0_iff, Z.lxor_eq_0_iff, Forall_cons. cbn. tauto.
Qed.

Lemma zip_agree (f : Z -> Z) l k :
  length l = length k -> Forall (fun lr : Z * Z => f lr.1 = f lr.2) (zip l k) <-> f <$> l = f <$> k.
Proof.
  revert k. induction l as [|a l IH]; intros [|b k] [=]; cbn; [done|].
  rewrite Forall_cons, IH by done. cbn. split; [by intros [-> ->]|by intros [= -> ->]].
Qed.

Theorem signatures_compare_as_text config body text :
  signature_matches config body text = true
  <-> lower_byte <$> as_bytes (sha1_hex (as_bytes body ++ as_bytes (xc_webhook_secret config)))
      = lower_byte <$> as_bytes (trim text).
Proof.
  unfold signature_matches. set (e := as_bytes (sha1_hex _)). set (p := as_bytes (trim text)).
  destruct (length e =? length p)%nat eqn:El; cbn [negb].
  - apply Nat.eqb_eq in El. rewrite Z.eqb_eq, lor_zero, zip_agree by done. tauto.
  - apply Nat.eqb_neq in El. split; [done|]. intros H. apply (f_equal length) in H.
    by rewrite !length_fmap in H.
Qed.
End theorems.

(** ** The allowlist *)

(** The number an address is. *)
Definition be_value (octets : list Z) : Z := foldl (fun v b => v * 256 + b) 0 octets.

Definition octet (b : Z) : Prop := 0 <= b < 256.

Lemma be_value_app a b : be_value (a ++ b) = be_value a * 2 ^ (8 * Z.of_nat (length b)) + be_value b.
Proof.
  unfold be_value. rewrite foldl_app. generalize (foldl (fun v b => v * 256 + b) 0 a). clear a.
  induction b as [|x b IH] using rev_ind; intros v; cbn; [lia|].
  rewrite !foldl_app, length_app, IH. cbn.
  replace (8 * Z.of_nat (length b + 1)) with (8 * Z.of_nat (length b) + 8) by lia.
  rewrite Z.pow_add_r by lia. lia.
Qed.

Lemma be_value_bound l : Forall octet l -> 0 <= be_value l < 2 ^ (8 * Z.of_nat (length l)).
Proof.
  induction l as [|x l IH] using rev_ind; intros H; [done|].
  apply Forall_app in H as [H Hx]. rewrite Forall_singleton in Hx. unfold octet in Hx. specialize (IH H).
  unfold be_value in *. rewrite foldl_app, length_app. cbn.
  replace (8 * Z.of_nat (length l + 1)) with (8 * Z.of_nat (length l) + 8) by lia.
  rewrite Z.pow_add_r by lia. change (2 ^ 8) with 256. change (2 ^ 8) with 256. lia.
Qed.

Lemma be_value_inj a b :
  length a = length b -> Forall octet a -> Forall octet b -> be_value a = be_value b -> a = b.
Proof.
  revert b. induction a as [|x a IH] using rev_ind; intros b El Ha Hb E.
  - by destruct b.
  - destruct b as [|y b _] using rev_ind; [rewrite length_app in El; cbn in El; lia|].
    rewrite !length_app in El. cbn in El. apply Forall_app in Ha as [Ha Hx], Hb as [Hb Hy].
    rewrite Forall_singleton in Hx, Hy. unfold octet in Hx, Hy. unfold be_value in E.
    rewrite !foldl_app in E. cbn in E. f_equal; [apply IH; [lia|done..|]|f_equal]; unfold be_value in *; lia.
Qed.

Lemma mask_is_floor x r :
  octet x -> 1 <= r <= 7 -> Z.land x (wrap_u8 (Z.shiftl 0xff (8 - r))) = 2 ^ (8 - r) * (x / 2 ^ (8 - r)).
Proof.
  intros Hx Hr.
  assert (H : forallb (fun r => forallb (fun x =>
    Z.land x (wrap_u8 (Z.shiftl 0xff (8 - r))) =? 2 ^ (8 - r) * (x / 2 ^ (8 - r))) (seqZ 0 256)) (seqZ 1 7) = true)
    by (vm_compute; reflexivity).
  rewrite forallb_forall in H. specialize (H r). rewrite forallb_forall in H.
  apply Z.eqb_eq, H; apply list_elem_of_In, elem_of_seqZ; unfold octet in *; lia.
Qed.

(** The bits of an address after the first ones. *)
Lemma be_value_cut pre rest :
  Forall octet rest -> be_value (pre ++ rest) / 2 ^ (8 * Z.of_nat (length rest)) = be_value pre.
Proof.
  intros Hr. apply be_value_bound in Hr. rewrite be_value_app, Z.add_comm, Z.div_add by lia.
  rewrite Z.div_small by done. lia.
Qed.

Lemma be_value_high pre x post r :
  octet x -> Forall octet post -> 1 <= r <= 7 ->
  be_value (pre ++ x :: post) / 2 ^ (8 * Z.of_nat (length (x :: post)) - r)
  = be_value pre * 2 ^ r + x / 2 ^ (8 - r).
Proof.
  intros Hx Hp Hr. change (x :: post) with ([x] ++ post) at 1. rewrite app_assoc.
  replace (8 * Z.of_nat (length (x :: post)) - r) with (8 * Z.of_nat (length post) + (8 - r)) by (cbn; lia).
  rewrite Z.pow_add_r, <-Z.div_div, be_value_cut, be_value_app by (try apply Z.pow_pos_nonneg; lia || done).
  replace (2 ^ (8 * Z.of_nat (length [x]))) with (2 ^ r * 2 ^ (8 - r)) by (rewrite <-Z.pow_add_r by lia; f_equal; cbn; lia).
  rewrite Z.mul_assoc, Z.add_comm, Z.div_add by (apply Z.pow_nonzero; lia). change (be_value [x]) with x. lia.
Qed.

Lemma high_parts_eq a b p q m : 0 <= p < m -> 0 <= q < m -> a * m + p = b * m + q <-> a = b /\ p = q.
Proof. intros Hp Hq. split; [|by intros [-> ->]]. intros E. assert (a = b) by nia. subst. lia. Qed.

Lemma high_bound x r : octet x -> 1 <= r <= 7 -> 0 <= x / 2 ^ (8 - r) < 2 ^ r.
Proof.
  intros Hx Hr. unfold octet in Hx. split; [apply Z.div_pos; [lia|apply Z.pow_pos_nonneg; lia]|].
  apply Z.div_lt_upper_bound; [apply Z.pow_pos_nonneg; lia|]. rewrite <-Z.pow_add_r by lia.
  replace (8 - r + r) with 8 by lia. lia.
Qed.

Lemma split_at w (l : list Z) : (w < length l)%nat -> l = take w l ++ nth w l 0 :: drop (S w) l.
Proof.
  intros H. destruct (lookup_lt_is_Some_2 l w H) as [x Hx].
  rewrite (nth_lookup_Some l w 0 x Hx). by rewrite take_drop_middle.
Qed.

(** An address is in a prefix of the allowlist exactly if the two numbers agree
    in the first bits of the prefix. *)
Theorem prefixes_compare_numbers network candidate bits :
  length network = length candidate -> Forall octet network -> Forall octet candidate ->
  0 <= bits <= 8 * Z.of_nat (length network) ->
  masked network candidate bits = true
  <-> be_value network / 2 ^ (8 * Z.of_nat (length network) - bits)
      = be_value candidate / 2 ^ (8 * Z.of_nat (length network) - bits).
Proof.
  intros El Hn Hc Hb. unfold masked. set (w := Z.to_nat (bits / 8)). set (r := bits mod 8).
  pose proof (Z.div_mod bits 8 ltac:(done)) as Hd. pose proof (Z.mod_pos_bound bits 8 ltac:(done)) as Hm.
  fold r in Hd, Hm. assert (Hq : 0 <= bits / 8) by (apply Z.div_pos; lia).
  assert (Htake : be_value (take w network) = be_value (take w candidate) <-> take w network = take w candidate).
  { split; [|by intros ->]. apply be_value_inj; [rewrite !length_take; lia|by apply Forall_take..]. }
  destruct (r =? 0) eqn:Er; [apply Z.eqb_eq in Er|apply Z.eqb_neq in Er].
  - assert (Hcut : forall l, Forall octet l -> length l = length network ->
      be_value l / 2 ^ (8 * Z.of_nat (length network) - bits) = be_value (take w l)).
    { intros l Hl El'. rewrite <-(be_value_cut (take w l) (drop w l)), take_drop by by apply Forall_drop.
      do 2 f_equal. rewrite length_drop. lia. }
    rewrite !Hcut, Htake by done. case_bool_decide; naive_solver.
  - assert (Hcut : forall l, Forall octet l -> length l = length network ->
      octet (nth w l 0) /\ be_value l / 2 ^ (8 * Z.of_nat (length network) - bits)
                           = be_value (take w l) * 2 ^ r + nth w l 0 / 2 ^ (8 - r)).
    { intros l Hl El'. assert (Hx : octet (nth w l 0)).
      { eapply Forall_nth; [exact Hl|]. lia. }
      split; [done|]. rewrite <-(be_value_high _ _ (drop (S w) l)), <-split_at; [|lia|done|by apply Forall_drop|lia].
      do 2 f_equal. cbn [length]. rewrite length_drop. lia. }
    destruct (Hcut network Hn eq_refl) as [Hx ->], (Hcut candidate Hc (eq_sym El)) as [Hy ->].
    rewrite !mask_is_floor, high_parts_eq, Htake by (lia || done || (apply high_bound; [done|lia])).
    case_bool_decide; [naive_solver|]. rewrite Z.eqb_eq, Z.mul_cancel_l by (apply Z.pow_nonzero; lia). naive_solver.
Qed.

(** ** Examples *)

Module Examples.

Definition docs : SkinDocs := {| document_contains_authored_text := fun _ => false |}.

(** The provider's secret is empty and its digest constant; every body is the
    payment, or the refund, of one pack. *)
Definition order (pack : string) : RawSettlement :=
  mkRaw "7" (VInt 9001) None None (mkCustom (Some pack) (Some 7)).
Definition provider (raw : RawNotification) : PaymentEnv :=
  {| sha1 := fun _ => [0xab]; notification_fields := fun _ => Some raw |}.
Definition payments : option XsollaConfig :=
  Some (mkXsolla "m" 1 "k" "" false None [mkPrefix (V4 [185; 30; 20; 0]) 24]).
Definition headers (name : string) : option string :=
  if bool_decide (name = "x-forwarded-for") then Some "185.30.20.17, 10.0.0.1"
  else if bool_decide (name = "authorization") then Some "Signature AB" else None.

Definition accounts : Store := {[balance_row 7 := {["username" := AV_S "ada"]}]}.

(** A world in which nothing else happens. *)
Definition still (s : Store) (n : nat) : Moment := mkMoment id s [] false false Delivered 1000.

Lemma still_lawful s : lawful BuxTx (still s).
Proof. intros n s'. exists []. constructor. Qed.

Lemma accounts_accounted : Accounted accounts.
Proof.
  intros u. assert (E : ledger_of accounts u = ∅).
  { unfold ledger_of, accounts. rewrite map_filter_singleton, decide_False; [done|].
    unfold entry_key_of. cbn. by rewrite andb_false_r. }
  unfold ledger_sum. rewrite E. unfold balance, accounts.
  destruct (decide (balance_row 7 = balance_row u)) as [<-|Hn]; [by rewrite lookup_singleton_eq|].
  by rewrite lookup_singleton_ne.
Qed.

(** The store after the payment of a pack. *)
Definition paid : Result Response * Store * list (list TransactWriteItem) :=
  run (@xsolla_webhook (provider (RawPayment (order "bux-500"))) payments headers "{}") (still accounts) 0 accounts.
Definition refunded : Result Response * Store * list (list TransactWriteItem) :=
  run (@xsolla_webhook (provider (RawRefund (order "bux-1200"))) payments headers "{}") (still (final paid)) 0
    (final paid).

Lemma every_balance_is_the_sum_of_its_ledger_witness :
  Accounted (final paid) /\ balance (final paid) 7 = 500 /\ outcome paid = Ok NoContent.
Proof.
  split; [|split; vm_compute; reflexivity].
  apply (@every_balance_is_the_sum_of_its_ledger docs (provider (RawPayment (order "bux-500"))) Response
           (@xsolla_webhook (provider (RawPayment (order "bux-500"))) payments headers "{}")
           (still accounts) 0 accounts).
  - apply (@call_webhook docs (provider (RawPayment (order "bux-500")))).
  - apply still_lawful.
  - exact accounts_accounted.
Defined.

Lemma ledger_entries_apply_at_most_once_witness :
  outcome (run (apply_ledger_entry 7 Admin "gift" 40 "h" None) (still accounts) 0 accounts) = Ok true
  /\ (is_Some (accounts !! ledger_row 7 Admin "gift") ->
      executed (run (apply_ledger_entry 7 Admin "gift" 40 "h" None) (still accounts) 0 accounts) = []
      /\ final (run (apply_ledger_entry 7 Admin "gift" 40 "h" None) (still accounts) 0 accounts)
           !! ledger_row 7 Admin "gift" = accounts !! ledger_row 7 Admin "gift").
Proof.
  split; [vm_compute; reflexivity|].
  apply (ledger_entries_apply_at_most_once 7 Admin "gift" 40 "h" None (still accounts) 0 accounts).
  apply still_lawful.
Defined.

(** The refund takes back the 500 that were credited, whatever pack it names. *)
Lemma notifications_move_what_was_paid_witness :
  balance (final refunded) 7 = 0 /\ outcome refunded = Ok NoContent
  /\ exists config, payments = Some config /\ signature_matches (PE := provider (RawRefund (order "bux-1200")))
                                              config "{}" (presented headers) = true.
Proof.
  split; [vm_compute; reflexivity|]. split; [vm_compute; reflexivity|].
  destruct (@notifications_move_what_was_paid (provider (RawRefund (order "bux-1200"))) payments headers "{}"
              (still (final paid)) 0 (final paid) (still_lawful _))
    as [E|(config & st & u & h & now & Hp & _ & Hs & _)].
  - exfalso. assert (H : length (executed refunded) = 1%nat) by (vm_compute; reflexivity).
    unfold refunded in H. rewrite E in H. discriminate H.
  - exists config. split; [exact Hp|exact Hs].
Defined.

Lemma prefixes_compare_numbers_witness :
  masked [185; 30; 20; 0] [185; 30; 23; 9] 22 = true
  /\ be_value [185; 30; 20; 0] / 2 ^ (8 * Z.of_nat 4 - 22) = be_value [185; 30; 23; 9] / 2 ^ (8 * Z.of_nat 4 - 22).
Proof.
  split; [vm_compute; reflexivity|].
  apply (prefixes_compare_numbers [185; 30; 20; 0] [185; 30; 23; 9] 22);
    [reflexivity|repeat constructor; unfold octet; lia..|cbn; lia|vm_compute; reflexivity].
Defined.

(** Two skins on sale, and one that its author never published. *)
Definition skin (id price : Z) (publication : Publication) : Skin :=
  {| sk_skin_id := id; sk_kind := KindSnake; sk_namespace := Production; sk_creator_user_id := 1;
     sk_creator_username := None; sk_name := "scales"; sk_publication := publication;
     sk_pending_revision := None; sk_price_bux := price; sk_head_revision := 1; sk_published_revision := None;
     sk_head_content_ref := "r"; sk_published_content_ref := None; sk_created_at_ms := 0;
     sk_updated_at_ms := 0; sk_published_at_ms := None; sk_owner_count := 1; sk_wearer_count := 0 |}.
Definition shop : Store :=
  <[skin_meta 3 := skin_item (skin 3 250 Published)]>
    (<[skin_meta 4 := skin_item (skin 4 250 Published)]>
      (<[skin_meta 5 := skin_item (skin 5 0 Private)]>
        {[balance_row 7 := {["username" := AV_S "ada"; "boostBux" := AV_N 1000]}]})).

Definition sale := run (purchase_skin 7 3 250 "k" "h") (still shop) 0 shop.

Lemma purchases_are_all_or_nothing_witness :
  outcome sale = Ok Purchased
  /\ exists now s1, bought s1 (final sale) 7 3 250 "k" "h" now.
Proof.
  split; [vm_compute; reflexivity|].
  destruct (purchases_are_all_or_nothing 7 3 250 "k" "h" (still shop) 0 shop (still_lawful shop) ltac:(lia))
    as [[E|(now & s1 & log & _ & [[E _]|(_ & _ & Hb & _)])] _].
  - exfalso. assert (H : length (executed sale) = 1%nat) by (vm_compute; reflexivity).
    unfold sale in H. rewrite E in H. discriminate H.
  - discriminate E.
  - exists now, s1. exact Hb.
Defined.

(** A key that paid for one skin does not pay for another one, but the answer
    speaks of the balance, which covers the price. *)
Example a_reused_key_is_answered_as_poverty :
  let s := final sale in
  balance s 7 = 750
  /\ outcome (run (purchase_skin 7 4 250 "k" "h") (still s) 0 s) = Ok InsufficientFunds
  /\ outcome (run (purchase_skin 7 4 250 "other" "h") (still s) 0 s) = Ok Purchased.
Proof. vm_compute. repeat split. Qed.

(** A draft that was never published costs nothing, so anyone may acquire it, and
    then see it. *)
Example a_private_draft_can_be_acquired :
  let stranger := mkAuthUser 7 "ada" false false in
  let s := final (run (purchase_skin 7 5 0 "k" "h") (still shop) 0 shop) in
  outcome (run (view_skin (Some stranger) 5) (still shop) 0 shop) = Err NotFound
  /\ outcome (run (purchase_skin 7 5 0 "k" "h") (still shop) 0 shop) = Ok Purchased
  /\ is_ok (outcome (run (view_skin (Some stranger) 5) (still s) 0 s)) = true.
Proof. vm_compute. repeat split. Qed.
End Examples.
