(* ===== verification/SkinTheorems.v ===== *)
(** * Theorems on authored skins

    Rows round-trip; whatever calls of the server run, in whatever order, revisions
    are kept as they are and moderation governs what others see of a skin, on its
    page, in a match and by the hash of a document; a skin waits in the review queue
    exactly while it names a pending revision; a report that overlaps a takedown
    undoes it. *)

From Stdlib Require Import ZArith Ascii Lia.
From stdpp Require Import prelude strings countable list gmap sorting.
From S2P Require Import Prelude RustFloat Util Snake Arena CommandQueue GameState GameSetup.
From S2P Require Import Recording StreamId Journal Rating Completion Content EffectStore EffectLedger.
From S2P Require Import Database SkinCatalog SkinStore Wallet Payment WalletTheorems.
Open Scope Z_scope.

#[local] Arguments keyed : simpl never.

(** ** Rows round-trip *)

Definition fits (lo hi n : Z) : Prop := lo <= n <= hi.
Definition opt_fits (lo hi : Z) (n : option Z) : Prop := match n with Some n => fits lo hi n | None => True end.

(** The values the types of the source allow. *)
Definition skin_in_range (s : Skin) : Prop :=
  fits i32_min i32_max (sk_skin_id s) /\ fits i32_min i32_max (sk_creator_user_id s)
  /\ opt_fits 0 u32_max (sk_pending_revision s) /\ fits 0 u32_max (sk_price_bux s)
  /\ fits 0 u32_max (sk_head_revision s) /\ opt_fits 0 u32_max (sk_published_revision s)
  /\ fits (- 2 ^ 63) (2 ^ 63 - 1) (sk_created_at_ms s) /\ fits (- 2 ^ 63) (2 ^ 63 - 1) (sk_updated_at_ms s)
  /\ opt_fits (- 2 ^ 63) (2 ^ 63 - 1) (sk_published_at_ms s)
  /\ fits 0 u32_max (sk_owner_count s) /\ fits 0 u32_max (sk_wearer_count s).

(** The first value of an attribute in a list. *)
Fixpoint assoc (k : string) (l : list (string * AttributeValue)) : option AttributeValue :=
  match l with
  | [] => None
  | (a, v) :: l => if String.eqb k a then Some v else assoc k l
  end.

Lemma assoc_lookup k l : (list_to_map l : Item) !! k = assoc k l.
Proof.
  induction l as [|[a v] l IH]; cbn; [done|]. destruct (String.eqb_spec k a) as [->|Hn].
  - apply lookup_insert_eq.
  - by rewrite <-IH, lookup_insert_ne by congruence.
Qed.

Lemma assoc_app k l l' : assoc k (l ++ l') = match assoc k l with Some v => Some v | None => assoc k l' end.
Proof. induction l as [|[a v] l IH]; cbn; [done|]. by destruct (String.eqb k a). Qed.

Lemma assoc_opt k a v : assoc k (opt_attr a v) = if String.eqb k a then v else None.
Proof. destruct v; cbn; by destruct (k =? a)%string. Qed.

Lemma read_number_fits lo hi n : fits lo hi n -> ((lo <=? n) && (n <=? hi)) = true.
Proof. unfold fits. lia. Qed.

Lemma kind_round_trip k : kind_parse (kind_str k) = Some k.
Proof. by destruct k. Qed.
Lemma namespace_round_trip n : namespace_parse (namespace_str n) = Some n.
Proof. by destruct n. Qed.
Lemma publication_round_trip p : publication_parse (publication_str p) = Some p.
Proof. by destruct p. Qed.
Lemma grant_source_round_trip g : grant_source_parse (grant_source_str g) = Some g.
Proof. by destruct g. Qed.

(** An attribute of a row built from a list. *)
Ltac attribute :=
  rewrite assoc_lookup, ?assoc_app, ?assoc_opt; cbn [assoc String.eqb Ascii.eqb Bool.eqb];
  repeat match goal with |- context [match ?o with Some _ => _ | None => _ end] => destruct o end;
  repeat match goal with |- context [if ?b then _ else []] => destruct b end; reflexivity.

(** The attributes of a row are those of its list, key attributes apart. *)
Lemma keyed_attribute k item a :
  a <> "pk" -> a <> "sk" -> k.1.1 <> UsernamesTable -> keyed k item !! a = item !! a.
Proof. unfold keyed. destruct k as [[[] pk] sk]; cbn; intros; try done; by rewrite !lookup_insert_ne. Qed.

Lemma skin_row_keyed k a item : k.1.1 <> UsernamesTable -> a <> "pk" -> a <> "sk" -> keyed k item !! a = item !! a.
Proof. intros. by apply keyed_attribute. Qed.

(** Reading a row does not look at its keys. *)
Lemma skin_from_keyed k item : k.1.1 <> UsernamesTable -> skin_from_item (keyed k item) = skin_from_item item.
Proof.
  intros H. unfold skin_from_item, read_i32, read_u32, read_i64, read_number, extract_string.
  by rewrite !(keyed_attribute k item) by done.
Qed.

Lemma skin_attributes s :
  let at_ := fun a => skin_item s !! a in
  (at_ "skinId" = Some (AV_N (sk_skin_id s)) /\ at_ "kind" = Some (AV_S (kind_str (sk_kind s)))
   /\ at_ "namespace" = Some (AV_S (namespace_str (sk_namespace s)))
   /\ at_ "creatorUserId" = Some (AV_N (sk_creator_user_id s))
   /\ at_ "creatorUsername" = AV_S <$> sk_creator_username s /\ at_ "name" = Some (AV_S (sk_name s))
   /\ at_ "publication" = Some (AV_S (publication_str (sk_publication s)))
   /\ at_ "pendingRevision" = AV_N <$> sk_pending_revision s)
  /\ (at_ "priceBux" = Some (AV_N (sk_price_bux s)) /\ at_ "headRevision" = Some (AV_N (sk_head_revision s))
   /\ at_ "headContentRef" = Some (AV_S (sk_head_content_ref s))
   /\ at_ "publishedRevision" = AV_N <$> sk_published_revision s
   /\ at_ "publishedContentRef" = AV_S <$> sk_published_content_ref s)
  /\ (at_ "createdAtMs" = Some (AV_N (sk_created_at_ms s)) /\ at_ "updatedAtMs" = Some (AV_N (sk_updated_at_ms s))
   /\ at_ "publishedAtMs" = AV_N <$> sk_published_at_ms s
   /\ at_ "ownerCount" = Some (AV_N (sk_owner_count s)) /\ at_ "wearerCount" = Some (AV_N (sk_wearer_count s))).
Proof. intros at_. unfold at_. unfold skin_item. repeat split; attribute. Qed.

Lemma read_opt lo hi (n : option Z) :
  opt_fits lo hi n ->
  match AV_N <$> n with Some (AV_N n) => if (lo <=? n) && (n <=? hi) then Some n else None | _ => None end = n.
Proof. destruct n as [n|]; cbn; [|done]. intros H. by rewrite read_number_fits. Qed.

Lemma read_text (t : option string) : match AV_S <$> t with Some (AV_S t) => Some t | _ => None end = t.
Proof. by destruct t. Qed.

(** A skin is read back from its row as it was written. *)
Theorem skins_round_trip s k :
  skin_in_range s -> k.1.1 <> UsernamesTable -> skin_from_item (keyed k (skin_item s)) = Ok s.
Proof.
  intros (H1 & H2 & H3 & H4 & H5 & H6 & H7 & H8 & H9 & H10 & H11) Hk. rewrite skin_from_keyed by done.
  destruct (skin_attributes s) as ((A1 & A2 & A3 & A4 & A5 & A6 & A7 & A8) & (B1 & B2 & B3 & B4 & B5)
    & C1 & C2 & C3 & C4 & C5).
  unfold skin_from_item, read_i32, read_u32, read_i64, read_number, extract_string.
  rewrite A1, A2, A3, A4, A5, A6, A7, A8, B1, B2, B3, B4, B5, C1, C2, C3, C4, C5.
  rewrite !read_number_fits, !read_opt, !read_text by done. cbn.
  rewrite kind_round_trip. cbn. rewrite namespace_round_trip, publication_round_trip. by destruct s.
Qed.

Lemma revision_attributes skin_id revision new created :
  let at_ := fun a => revision_item skin_id revision new created !! a in
  at_ "skinId" = Some (AV_N skin_id) /\ at_ "revision" = Some (AV_N revision)
  /\ at_ "contentRef" = Some (AV_S (nr_content_ref new)) /\ at_ "document" = Some (AV_S (nr_document new))
  /\ at_ "textureRefs" = (match nr_texture_refs new with [] => None | refs => Some (AV_SS refs) end)
  /\ at_ "validatedSchema" = Some (AV_N (nr_validated_schema new))
  /\ at_ "reviewApproved" = Some (AV_BOOL false) /\ at_ "reviewRejected" = None
  /\ at_ "containsText" = Some (AV_BOOL (nr_contains_text new)) /\ at_ "createdAtMs" = Some (AV_N created)
  /\ at_ "exposedAtMs" = None.
Proof.
  intros at_. unfold at_, revision_item. destruct (nr_texture_refs new); repeat split; attribute.
Qed.

(** A revision is read back as it was proposed, with its references in order. *)
Theorem revisions_round_trip {SD : SkinDocs} skin_id revision new created k :
  fits i32_min i32_max skin_id -> fits 0 u32_max revision -> fits 0 u32_max (nr_validated_schema new) ->
  fits (- 2 ^ 63) (2 ^ 63 - 1) created -> k.1.1 <> UsernamesTable ->
  exists stored, revision_from_item (keyed k (revision_item skin_id revision new created)) = Ok stored
    /\ rv_skin_id stored = skin_id /\ rv_revision stored = revision
    /\ revision_matches stored new = true
    /\ rv_review_approved stored = false /\ rv_exposed_at_ms stored = None.
Proof.
  intros H1 H2 H3 H4 Hk.
  destruct (revision_attributes skin_id revision new created)
    as (A1 & A2 & A3 & A4 & A5 & A6 & A7 & A8 & A9 & A10 & A11).
  unfold revision_from_item, read_i32, read_u32, read_i64, read_number, read_flag, extract_string.
  rewrite !(keyed_attribute k) by done. rewrite A1, A2, A3, A4, A5, A6, A7, A8, A9, A10, A11.
  rewrite !read_number_fits by done. cbn. eexists. split; [reflexivity|]. cbn. repeat split.
  unfold revision_matches. cbn. rewrite Z.eqb_refl, !bool_decide_eq_true_2; try done.
  by destruct (nr_texture_refs new).
Qed.

(** ** Keys *)

Lemma skin_row_inj j k a b : skin_row j a = skin_row k b -> j = k /\ a = b.
Proof. unfold skin_row, skin_partition. intros [= H ->]. by apply display_int_inj in H. Qed.

Definition queue_row (k : Z) : Key := skin_row k REVIEW_QUEUE_SORT_KEY.

(** The rows an invariant reads. *)
Definition off_skin (k : Key) : Prop := forall j, k <> skin_meta j /\ forall r, k <> revision_row j r.
Definition off_queue (k : Key) : Prop := forall j, k <> skin_meta j /\ k <> queue_row j.

Lemma revision_not_meta j r k : revision_row j r <> skin_meta k.
Proof. by intros [_ E]%skin_row_inj. Qed.
Lemma queue_not_meta j k : queue_row j <> skin_meta k.
Proof. by intros [_ E]%skin_row_inj. Qed.
Lemma revision_not_queue j r k : revision_row j r <> queue_row k.
Proof. by intros [_ E]%skin_row_inj. Qed.
Lemma review_off k a : off_skin (skin_row k ("REVIEW#" +:+ a)) /\ off_queue (skin_row k ("REVIEW#" +:+ a)).
Proof.
  split; intros j; (split; [by intros [_ E]%skin_row_inj|]); [intros r|]; by intros [_ E]%skin_row_inj.
Qed.
Lemma queue_off k : off_skin (queue_row k).
Proof. intros j. split; [|intros r]; by intros [_ E]%skin_row_inj. Qed.
Lemma account_off u a : off_skin (account_row u a) /\ off_queue (account_row u a).
Proof. split; intros j; (split; [by intros [=]|]); [intros r|]; by intros [=]. Qed.
Lemma create_off u a : off_skin (create_row u a) /\ off_queue (create_row u a).
Proof. split; intros j; (split; [by intros [=]|]); [intros r|]; by intros [=]. Qed.
#[local] Hint Resolve revision_not_meta queue_not_meta revision_not_queue queue_off : core.

(** ** Writes that keep the invariants *)

Definition action_attribute (a : UpdateAction) : string :=
  match a with Set_ a _ | SetIfNotExists a _ | Add a _ | Count a _ _ | Remove a => a end.

(** The attributes on which what others see depends: the revision a skin shows and
    the content of a revision. *)
Definition fixed : list string :=
  ["publishedRevision"; "publishedContentRef"; "contentRef"; "skinId"; "revision"; "document"; "containsText"].

(** Updates of other attributes; approval is given only. *)
Definition harmless (a : UpdateAction) : bool :=
  match a with
  | Set_ a v => if String.eqb a "reviewApproved" then bool_decide (v = AV_BOOL true)
                else negb (bool_decide (a ∈ fixed))
  | _ => negb (bool_decide (action_attribute a ∈ "reviewApproved" :: fixed))
  end.

Definition keeps (t : TransactWriteItem) : Prop :=
  match t with
  | Put k _ _ | Delete k _ => off_skin k
  | Update _ actions _ => forallb harmless actions = true
  | ConditionCheck _ _ => True
  end.

Definition queueless (t : TransactWriteItem) : Prop :=
  match t with
  | Put k _ _ | Delete k _ => off_queue k
  | Update k actions _ =>
      (forall j, k <> queue_row j) /\ Forall (fun a => action_attribute a <> "pendingRevision") actions
  | ConditionCheck _ _ => True
  end.

Lemma apply_action_other item a b : action_attribute a <> b -> apply_action item a !! b = item !! b.
Proof.
  destruct a; cbn; intros; repeat case_match; rewrite ?lookup_insert_ne, ?lookup_delete_ne by done; done.
Qed.

Lemma harmless_attribute item a b :
  harmless a = true -> b ∈ fixed -> apply_action item a !! b = item !! b.
Proof.
  intros H Hb. apply apply_action_other. intros E. unfold harmless in H.
  destruct a; cbn [action_attribute] in E, H; subst;
    try (destruct (String.eqb_spec b "reviewApproved"); [subst; unfold fixed in Hb; by set_solver|]);
    apply negb_true_iff, bool_decide_eq_false in H; set_solver.
Qed.

Lemma harmless_approval item a :
  harmless a = true -> item !! "reviewApproved" = Some (AV_BOOL true) ->
  apply_action item a !! "reviewApproved" = Some (AV_BOOL true).
Proof.
  intros H Hi. destruct (decide (action_attribute a = "reviewApproved")) as [E|E];
    [|by rewrite apply_action_other].
  destruct a as [a v|a v|a z|a z z'|a]; cbn [action_attribute harmless] in E, H; subst; cbn [action_attribute harmless] in H;
    try (apply negb_true_iff, bool_decide_eq_false in H; set_solver).
  rewrite String.eqb_refl in H. apply bool_decide_eq_true in H as ->. cbn. apply lookup_insert_eq.
Qed.

Lemma harmless_fold actions : forall item, forallb harmless actions = true ->
  (forall b, b ∈ fixed -> foldl apply_action item actions !! b = item !! b)
  /\ (item !! "reviewApproved" = Some (AV_BOOL true) ->
      foldl apply_action item actions !! "reviewApproved" = Some (AV_BOOL true)).
Proof.
  induction actions as [|a l IH]; intros item H; [done|]. cbn in H. apply andb_true_iff in H as [Ha Hl].
  destruct (IH (apply_action item a) Hl) as [I1 I2]. split.
  - intros b Hb. cbn. rewrite I1 by done. by apply harmless_attribute.
  - intros Hi. cbn. by apply I2, harmless_approval.
Qed.

(** ** What others see was approved *)

Definition approved (s : Store) (k r : Z) (c : string) : Prop :=
  exists rev, s !! revision_row k r = Some rev /\ rev !! "reviewApproved" = Some (AV_BOOL true)
              /\ rev !! "contentRef" = Some (AV_S c).

Definition shown (meta : Item) : option AttributeValue * option AttributeValue :=
  (meta !! "publishedRevision", meta !! "publishedContentRef").

(** A skin names no public revision, or an approved one with its content. *)
Definition Moderated (s : Store) : Prop :=
  forall k meta, s !! skin_meta k = Some meta ->
    shown meta = (None, None)
    \/ exists r c, shown meta = (Some (AV_N r), Some (AV_S c)) /\ approved s k r c.

(** A step that shows nothing new and withdraws no approval. *)
Definition kept (s s' : Store) : Prop :=
  forall k meta', s' !! skin_meta k = Some meta' ->
    shown meta' = (None, None)
    \/ exists meta, s !! skin_meta k = Some meta /\ shown meta' = shown meta
                    /\ forall r c, approved s k r c -> approved s' k r c.

Lemma kept_moderated s s' : kept s s' -> Moderated s -> Moderated s'.
Proof.
  intros Hk Hs k meta' Hm. destruct (Hk k meta' Hm) as [H|(meta & H1 & H2 & H3)]; [by left|].
  destruct (Hs k meta H1) as [H|(r & c & H & Ha)]; [left; by rewrite H2|].
  right. exists r, c. rewrite H2. auto.
Qed.

Lemma kept_refl s : kept s s.
Proof. intros k meta H. right. eauto. Qed.

Lemma kept_trans s s' s'' : kept s s' -> kept s' s'' -> kept s s''.
Proof.
  intros H1 H2 k meta'' Hm. destruct (H2 k meta'' Hm) as [H|(meta' & Hm' & E' & Ha')]; [by left|].
  destruct (H1 k meta' Hm') as [H|(meta & Hm0 & E & Ha)]; [left; by rewrite E'|].
  right. exists meta. split; [done|]. split; [by rewrite E'|]. auto.
Qed.

Lemma keeps_kept s t : keeps t -> kept s (tx_write s t).
Proof.
  destruct t as [k i c|k actions c|k c|k c]; cbn [keeps tx_write]; intros Ht; [| | |apply kept_refl].
  - intros j meta Hm. destruct (Ht j) as [H1 H2]. rewrite lookup_insert_ne in Hm by done.
    right. exists meta. split; [done|]. split; [done|]. intros r d (rev & Hr & Ha).
    exists rev. by rewrite lookup_insert_ne.
  - intros j meta Hm. assert (Happ : forall r d, approved s j r d ->
      approved (<[k := foldl apply_action (default ∅ (s !! k)) actions]> s) j r d).
    { intros r d (rev & Hr & Ha & Hd). unfold approved. destruct (decide (k = revision_row j r)) as [->|Hn].
      - exists (foldl apply_action rev actions). rewrite lookup_insert_eq, Hr. split; [done|].
        destruct (harmless_fold actions rev Ht) as [H1 H2]. split; [auto|]. rewrite H1 by by unfold fixed; set_solver. done.
      - exists rev. by rewrite lookup_insert_ne. }
    destruct (decide (k = skin_meta j)) as [->|Hn].
    + rewrite lookup_insert_eq in Hm. injection Hm as <-.
      destruct (harmless_fold actions (default ∅ (s !! skin_meta j)) Ht) as [H1 _]. unfold shown.
      rewrite !H1 by by unfold fixed; set_solver. destruct (s !! skin_meta j) as [meta|]; [right; eauto|by left].
    + rewrite lookup_insert_ne in Hm by done. right. eauto.
  - intros j meta Hm. destruct (Ht j) as [H1 H2]. rewrite lookup_delete_ne in Hm by done.
    right. exists meta. split; [done|]. split; [done|]. intros r d (rev & Hr & Ha).
    exists rev. by rewrite lookup_delete_ne.
Qed.

Lemma all_keep s l : Forall keeps l -> kept s (foldl tx_write s l).
Proof.
  intros H. revert s. induction H as [|t l Ht _ IH]; intros s; [apply kept_refl|].
  eapply kept_trans; [by apply keeps_kept|apply IH].
Qed.

(** The transactions of the server, by what they do to the two invariants. *)
Inductive SkinTx : list TransactWriteItem -> Prop :=
| skin_inert l : Forall keeps l -> Forall queueless l -> SkinTx l
| skin_created draft i k now : SkinTx (create_tx draft i k now)
| skin_revised k head next r now : SkinTx (revision_tx k head next r now)
| skin_pending k r now : SkinTx (pending_tx k r now)
| skin_cleared k r : SkinTx (clear_tx k r)
| skin_decided k kind d target audit item now :
    SkinTx (decision_tx k kind d target ("REVIEW#" +:+ audit, item) now).

Lemma meta_absent s k : holds (AttributeNotExists "pk") (get_item s k) = true -> k.1.1 <> UsernamesTable -> s !! k = None.
Proof.
  unfold get_item. cbn. rewrite bool_decide_eq_true. destruct (s !! k) as [i|]; [|done]. cbn.
  unfold keyed. destruct k as [[[] pk] sk]; cbn; intros H; try done; by rewrite lookup_insert_eq in H.
Qed.

Lemma row_absent_main s k : holds row_absent (get_item s k) = true -> k.1.1 <> UsernamesTable -> s !! k = None.
Proof. cbn [holds row_absent]. intros [H _]%andb_true_iff. by apply meta_absent. Qed.

Lemma new_skin_row draft k now :
  shown (skin_item (new_skin draft k now)) = (None, None)
  /\ skin_item (new_skin draft k now) !! "pendingRevision" = None.
Proof.
  destruct (skin_attributes (new_skin draft k now)) as ((_ & _ & _ & _ & _ & _ & _ & H) & (_ & _ & _ & H1 & H2) & _).
  unfold shown. by rewrite H, H1, H2.
Qed.

Lemma tail_kept s l : Forall (fun t => keeps t) l -> kept s (foldl tx_write s l).
Proof. apply all_keep. Qed.

Lemma create_kept s draft i k now :
  tx_runs s (create_tx draft i k now) = true -> kept s (foldl tx_write s (create_tx draft i k now)).
Proof.
  intros Hr. apply tx_runs_inv in Hr as [_ Hh]. apply Forall_cons in Hh as [H1 _]. cbn [tx_holds] in H1.
  apply meta_absent in H1; [|done]. unfold create_tx. rewrite foldl_app.
  eapply kept_trans; [|apply all_keep; destruct i as [[key h]|]; [apply Forall_singleton, create_off|constructor]].
  change (foldl tx_write s _) with
    (tx_write (tx_write (tx_write s (Put (skin_meta k) (skin_item (new_skin draft k now)) (Some (AttributeNotExists "pk"))))
       (Put (revision_row k 1) (revision_item k 1 (ns_revision draft) now) None))
       (Put (grant_row (ns_creator_user_id draft) k) (grant_item k GrantOwnCreation 0 now) None)).
  eapply kept_trans; [|apply keeps_kept, account_off]. cbn [tx_write].
  intros j meta Hm. rewrite lookup_insert_ne in Hm by auto.
  destruct (decide (k = j)) as [<-|Hn].
  - rewrite lookup_insert_eq in Hm. injection Hm as <-. left. apply new_skin_row.
  - rewrite lookup_insert_ne in Hm by by intros [? _]%skin_row_inj. right. exists meta. repeat split; [done|].
    intros r c (rev & Hrev & Ha). exists rev.
    rewrite !lookup_insert_ne; [done|apply not_eq_sym; auto|by intros [? _]%skin_row_inj].
Qed.

Lemma revision_kept s k head next r now :
  tx_runs s (revision_tx k head next r now) = true -> kept s (foldl tx_write s (revision_tx k head next r now)).
Proof.
  intros Hr. apply tx_runs_inv in Hr as [_ Hh]. apply Forall_cons in Hh as [H1 _]. cbn [tx_holds] in H1.
  apply row_absent_main in H1; [|done].
  change (foldl tx_write s (revision_tx k head next r now)) with
    (foldl tx_write (<[revision_row k next := revision_item k next r now]> s)
       [Update (skin_meta k)
     [Set_ "headRevision" (AV_N next); Set_ "headContentRef" (AV_S (nr_content_ref r));
      Set_ "updatedAtMs" (AV_N now)]
     (Equals "headRevision" (AV_N head))]).
  eapply kept_trans; [|apply all_keep; repeat constructor; done].
  intros j meta Hm. rewrite lookup_insert_ne in Hm by auto. right. exists meta. repeat split; [done|].
  intros q c (rev & Hrev & Ha). exists rev. rewrite lookup_insert_ne; [done|]. intros E. rewrite E in H1. congruence.
Qed.

Ltac lookups :=
  repeat first [rewrite lookup_insert_eq | rewrite lookup_insert_ne by done
               | rewrite lookup_delete_ne by done | rewrite lookup_delete_eq].

(** Publishing shows the revision it approves. *)
Lemma publish_moderated s k kind r c audit item now :
  tx_runs s (decision_tx k kind Publish (Some (r, c)) ("REVIEW#" +:+ audit, item) now) = true ->
  Moderated s ->
  Moderated (foldl tx_write s (decision_tx k kind Publish (Some (r, c)) ("REVIEW#" +:+ audit, item) now)).
Proof.
  intros Hr Hs. apply tx_runs_inv in Hr as [Hn Hh].
  pose proof (tx_writes_all s _ Hn) as Hw.
  unfold decision_tx in Hh, Hw. cbn [app] in Hh, Hw. rewrite !Forall_cons in Hh, Hw.
  destruct Hh as (_ & _ & _ & H4 & _), Hw as (W1 & _ & _ & W4 & _).
  cbn [tx_holds holds] in H4. apply andb_true_iff in H4 as [[_ H4]%andb_true_iff _].
  apply (equals_attribute s (revision_row k r) "contentRef") in H4 as (rev & Hrev & Hc); [|done..].
  fold (decision_tx k kind Publish (Some (r, c)) ("REVIEW#" +:+ audit, item) now) in W1, W4.
  set (s' := foldl tx_write s _) in *.
  cbn [tx_key tx_write] in W1, W4. rewrite lookup_insert_eq in W1, W4. rewrite Hrev in W4.
  assert (Hother : forall key, key <> skin_meta k -> key <> revision_row k r -> key <> queue_row k ->
    key <> skin_row k ("REVIEW#" +:+ audit) -> s' !! key = s !! key).
  { intros key ? ? ? ?. apply tx_writes_other.
    repeat (apply Forall_cons; split; [apply key_writes, not_eq_sym; assumption|]). by apply Forall_nil. }
  intros j meta Hm. destruct (decide (j = k)) as [->|Hj].
  - rewrite W1 in Hm. injection Hm as <-. right. exists r, c. split; [unfold shown; cbn; by lookups|].
    exists (foldl apply_action rev [Set_ "reviewApproved" (AV_BOOL true); Remove "reviewRejected"]).
    split; [exact W4|]. cbn. by lookups.
  - rewrite Hother in Hm by (intros [? _]%skin_row_inj; done).
    destruct (Hs j meta Hm) as [H|(r' & c' & H & rev' & Hr' & Ha')]; [by left|]. right. exists r', c'. split; [done|].
    exists rev'. rewrite Hother by (intros [? _]%skin_row_inj; done). done.
Qed.

Lemma decision_kept s k kind d target audit item now :
  d <> Publish ->
  kept s (foldl tx_write s (decision_tx k kind d target ("REVIEW#" +:+ audit, item) now)).
Proof.
  intros Hd. apply all_keep. destruct d, target as [[r c]|]; try done; cbn [decision_tx app fst];
    repeat (apply Forall_cons; split); try apply Forall_nil; try done; try apply review_off; apply queue_off.
Qed.

Lemma pending_kept s k r now : kept s (foldl tx_write s (pending_tx k r now)).
Proof. apply all_keep. destruct r; repeat (apply Forall_cons; split); try done; apply queue_off. Qed.

Lemma clear_kept s k r : kept s (foldl tx_write s (clear_tx k r)).
Proof. apply all_keep. repeat (apply Forall_cons; split); try done; apply queue_off. Qed.

Lemma moderated_step s l :
  SkinTx l -> tx_runs s l = true -> Moderated s -> Moderated (foldl tx_write s l).
Proof.
  intros Hl Hr. destruct Hl as [l Hk _|draft i k now|k h n r now|k r now|k r|k kind d target audit item now].
  - apply kept_moderated, all_keep, Hk.
  - by apply kept_moderated, create_kept.
  - by apply kept_moderated, revision_kept.
  - apply kept_moderated, pending_kept.
  - apply kept_moderated, clear_kept.
  - destruct d; [|by apply kept_moderated, decision_kept..].
    destruct target as [[r c]|]; [by apply publish_moderated|done].
Qed.

(** ** Revisions are kept *)

(** Updates of revisions are harmless, whatever happens to the skins. *)
Definition gentle (t : TransactWriteItem) : Prop :=
  match t with
  | Put k _ _ | Delete k _ => off_skin k
  | Update k actions _ => (forall j r, k = revision_row j r -> forallb harmless actions = true)
  | ConditionCheck _ _ => True
  end.

(** A row of a revision, some transactions later. *)
Definition succeeds (rev rev' : Item) : Prop :=
  (forall b, b ∈ fixed -> rev' !! b = rev !! b)
  /\ (rev !! "reviewApproved" = Some (AV_BOOL true) -> rev' !! "reviewApproved" = Some (AV_BOOL true)).

(** A step that takes away no skin and no revision of one. *)
Definition durable (s s' : Store) : Prop :=
  forall k, is_Some (s !! skin_meta k) ->
    is_Some (s' !! skin_meta k)
    /\ forall r rev, s !! revision_row k r = Some rev ->
         exists rev', s' !! revision_row k r = Some rev' /\ succeeds rev rev'.

Lemma succeeds_refl rev : succeeds rev rev.
Proof. by split. Qed.
Lemma succeeds_trans rev rev' rev'' : succeeds rev rev' -> succeeds rev' rev'' -> succeeds rev rev''.
Proof. intros [H1 H2] [H3 H4]. split; [intros b Hb; by rewrite H3, H1|auto]. Qed.

Lemma durable_refl s : durable s s.
Proof. intros k Hk. split; [done|]. eauto using succeeds_refl. Qed.
Lemma durable_trans s s' s'' : durable s s' -> durable s' s'' -> durable s s''.
Proof.
  intros H H' k Hk. destruct (H k Hk) as [Hk' Hr]. destruct (H' k Hk') as [Hk'' Hr']. split; [done|].
  intros r rev E. destruct (Hr r rev E) as (rev' & E' & S). destruct (Hr' r rev' E') as (rev'' & E'' & S').
  eauto using succeeds_trans.
Qed.

(** A row that is neither a skin nor a revision, or is new. *)
Lemma durable_other (s s' : Store) k :
  (forall j, k = skin_meta j -> is_Some (s' !! k)) -> (forall j r, k = revision_row j r -> s !! k = None \/ s !! skin_meta j = None) ->
  (forall k', k' <> k -> s' !! k' = s !! k') -> durable s s'.
Proof.
  intros Hm Hr Ho j Hj. split.
  - destruct (decide (skin_meta j = k)) as [<-|Hn]; [by eapply Hm|by rewrite Ho].
  - intros r rev E. exists rev. split; [|apply succeeds_refl].
    destruct (decide (revision_row j r = k)) as [<-|Hn]; [|by rewrite Ho].
    destruct (Hr j r eq_refl) as [H|H]; [congruence|]. rewrite H in Hj. by destruct Hj.
Qed.

Lemma gentle_durable s t : gentle t -> durable s (tx_write s t).
Proof.
  destruct t as [k i c|k actions c|k c|k c]; cbn [gentle tx_write]; intros Ht; [| | |apply durable_refl].
  - apply (durable_other _ _ k); [intros j E; by destruct (Ht j)|intros j r E; by destruct (Ht j) as [_ H]; destruct (H r)|].
    intros k' Hn. by rewrite lookup_insert_ne.
  - intros j Hj. split.
    + destruct (decide (skin_meta j = k)) as [<-|Hn]; [rewrite lookup_insert_eq; by eexists|by rewrite lookup_insert_ne].
    + intros r rev E. destruct (decide (k = revision_row j r)) as [->|Hn];
        [|exists rev; rewrite lookup_insert_ne by done; eauto using succeeds_refl].
      rewrite lookup_insert_eq, E. eexists. split; [done|]. by apply harmless_fold, (Ht j r).
  - apply (durable_other _ _ k); [intros j E; by destruct (Ht j)|intros j r E; by destruct (Ht j) as [_ H]; destruct (H r)|].
    intros k' Hn. by rewrite lookup_delete_ne.
Qed.

Lemma all_gentle s l : Forall gentle l -> durable s (foldl tx_write s l).
Proof.
  intros H. revert s. induction H as [|t l Ht _ IH]; intros s; [apply durable_refl|].
  eapply durable_trans; [by apply gentle_durable|apply IH].
Qed.

Lemma keeps_gentle l : Forall keeps l -> Forall gentle l.
Proof. intros H. eapply Forall_impl; [exact H|]. intros [k i c|k actions c|k c|k c]; cbn; auto. Qed.

Lemma meta_gentle k actions c : gentle (Update (skin_meta k) actions c).
Proof. intros j r E. symmetry in E. by apply revision_not_meta in E. Qed.

Lemma decision_gentle k kind d target audit item now :
  Forall gentle (decision_tx k kind d target ("REVIEW#" +:+ audit, item) now).
Proof.
  destruct d, target as [[r c]|]; cbn [decision_tx app fst]; repeat (apply Forall_cons; split); try apply Forall_nil;
    try apply meta_gentle; try apply review_off; try apply queue_off; by intros.
Qed.

(** A new skin stands on rows of its own. *)
Lemma create_durable s draft i k now :
  tx_runs s (create_tx draft i k now) = true -> durable s (foldl tx_write s (create_tx draft i k now)).
Proof.
  intros Hr. apply tx_runs_inv in Hr as [_ Hh]. apply Forall_cons in Hh as [H1 _]. cbn [tx_holds] in H1.
  apply meta_absent in H1; [|done]. unfold create_tx. rewrite foldl_app.
  eapply durable_trans; [|apply all_gentle; destruct i as [[key h]|]; [apply Forall_singleton, create_off|constructor]].
  change (foldl tx_write s _) with
    (tx_write (<[revision_row k 1 := revision_item k 1 (ns_revision draft) now]>
                 (<[skin_meta k := skin_item (new_skin draft k now)]> s))
       (Put (grant_row (ns_creator_user_id draft) k) (grant_item k GrantOwnCreation 0 now) None)).
  eapply durable_trans; [|apply gentle_durable, account_off].
  intros j Hj. assert (Hn : j <> k) by (intros ->; rewrite H1 in Hj; by destruct Hj). split.
  - by rewrite !lookup_insert_ne by (intros [? _]%skin_row_inj; done).
  - intros r rev E. exists rev. split; [|apply succeeds_refl].
    by rewrite !lookup_insert_ne by (intros [? _]%skin_row_inj; done).
Qed.

(** A new revision has a row of its own. *)
Lemma revision_durable s k head next r now :
  tx_runs s (revision_tx k head next r now) = true -> durable s (foldl tx_write s (revision_tx k head next r now)).
Proof.
  intros Hr. apply tx_runs_inv in Hr as [_ Hh]. apply Forall_cons in Hh as [H1 _]. cbn [tx_holds] in H1.
  apply row_absent_main in H1; [|done]. unfold revision_tx. cbn [foldl].
  eapply durable_trans; [|apply gentle_durable, meta_gentle].
  apply (durable_other _ _ (revision_row k next)).
  - intros j E. by apply revision_not_meta in E.
  - by left.
  - intros k' Hn. cbn [tx_write]. by rewrite lookup_insert_ne.
Qed.

Lemma durable_step s l : SkinTx l -> tx_runs s l = true -> durable s (foldl tx_write s l).
Proof.
  intros Hl Hr. destruct Hl as [l Hk _|draft i k now|k h n r now|k r now|k r|k kind d target audit item now].
  - by apply all_gentle, keeps_gentle.
  - by apply create_durable.
  - by apply revision_durable.
  - apply all_gentle, keeps_gentle. destruct r; repeat (apply Forall_cons; split); try done; apply queue_off.
  - apply all_gentle, keeps_gentle. repeat (apply Forall_cons; split); try done; apply queue_off.
  - apply all_gentle, decision_gentle.
Qed.

Lemma trace_durable s log s' : Trace SkinTx s log s' -> durable s s'.
Proof. induction 1 as [|s l log s' Hl Hr _ IH]; [apply durable_refl|]. eapply durable_trans; [by apply durable_step|done]. Qed.

(** ** The review queue *)

Definition pending (s : Store) (k : Z) : option AttributeValue :=
  s !! skin_meta k ≫= fun meta => meta !! "pendingRevision".

(** A skin waits in the queue exactly while it names a pending revision. *)
Definition Queued (s : Store) : Prop := forall k, is_Some (pending s k) <-> is_Some (s !! queue_row k).

Lemma queueless_actions actions item :
  Forall (fun a => action_attribute a <> "pendingRevision") actions ->
  foldl apply_action item actions !! "pendingRevision" = item !! "pendingRevision".
Proof.
  intros H. revert item. induction H as [|a l Ha _ IH]; intros item; cbn; [done|].
  by rewrite IH, apply_action_other.
Qed.

Lemma queueless_frame s t k :
  queueless t -> pending (tx_write s t) k = pending s k /\ tx_write s t !! queue_row k = s !! queue_row k.
Proof.
  unfold pending. destruct t as [k' i c|k' actions c|k' c|k' c]; cbn [queueless tx_write]; intros Ht; [| | |done].
  - destruct (Ht k) as [H1 H2]. by rewrite !lookup_insert_ne by done.
  - destruct Ht as [Hq Ha]. rewrite (lookup_insert_ne _ k' (queue_row k)) by done. split; [|done].
    destruct (decide (k' = skin_meta k)) as [->|Hn]; [|by rewrite lookup_insert_ne].
    rewrite lookup_insert_eq. cbn. rewrite queueless_actions by done. by destruct (s !! skin_meta k).
  - destruct (Ht k) as [H1 H2]. by rewrite !lookup_delete_ne by done.
Qed.

Lemma queueless_all s l k :
  Forall queueless l ->
  pending (foldl tx_write s l) k = pending s k /\ foldl tx_write s l !! queue_row k = s !! queue_row k.
Proof.
  intros H. revert s. induction H as [|t l Ht _ IH]; intros s; cbn; [done|].
  destruct (IH (tx_write s t)) as [-> ->]. by apply queueless_frame.
Qed.

Lemma queueless_queued s l : Forall queueless l -> Queued s -> Queued (foldl tx_write s l).
Proof. intros Hl Hs k. destruct (queueless_all s l k Hl) as [-> ->]. apply Hs. Qed.

(** A write to the rows of one skin only. *)
Lemma one_skin_queued s s' k :
  (is_Some (pending s' k) <-> is_Some (s' !! queue_row k)) ->
  (forall j, j <> k -> s' !! skin_meta j = s !! skin_meta j /\ s' !! queue_row j = s !! queue_row j) ->
  Queued s -> Queued s'.
Proof.
  intros Hk Hj Hs j. destruct (decide (j = k)) as [->|Hn]; [done|].
  unfold pending. destruct (Hj j Hn) as [-> ->]. apply Hs.
Qed.

Lemma other_skin j k a b : j <> k -> skin_row k a <> skin_row j b.
Proof. by intros H [E _]%skin_row_inj. Qed.

(** The skin is updated and its place in the queue set or removed. *)
Lemma paired_queued s k actions c t :
  (match t with
   | Put key _ _ => key = queue_row k
                    /\ forall item, is_Some (foldl apply_action item actions !! "pendingRevision")
   | Delete key _ => key = queue_row k
                     /\ forall item, foldl apply_action item actions !! "pendingRevision" = None
   | _ => False
   end) ->
  Queued s -> Queued (foldl tx_write s [Update (skin_meta k) actions c; t]).
Proof.
  intros Ht. apply (one_skin_queued _ _ k).
  - unfold pending. destruct t as [key i d|key a d|key d|key d]; try done; destruct Ht as [-> Ht]; cbn [foldl tx_write].
    + rewrite lookup_insert_ne, !lookup_insert_eq by done. cbn. split; [by eexists|done].
    + rewrite lookup_delete_ne, lookup_delete_eq, lookup_insert_eq by done. cbn. rewrite Ht.
      split; by intros [? [=]].
  - intros j Hj. destruct t as [key i d|key a d|key d|key d]; try done; destruct Ht as [-> Ht]; cbn [foldl tx_write];
      rewrite ?lookup_delete_ne, ?lookup_insert_ne by (by apply other_skin); done.
Qed.

Lemma pending_queued s k r now : Queued s -> Queued (foldl tx_write s (pending_tx k r now)).
Proof.
  destruct r as [r|]; apply paired_queued; (split; [done|]); intros item; cbn; lookups; [by eexists|done].
Qed.

Lemma clear_queued s k r : Queued s -> Queued (foldl tx_write s (clear_tx k r)).
Proof. apply paired_queued. split; [done|]. intros item. cbn. by lookups. Qed.

Lemma swap_writes s t t' : tx_key t <> tx_key t' ->
  tx_write (tx_write s t) t' = tx_write (tx_write s t') t.
Proof.
  intros H. apply map_eq. intros k.
  destruct (decide (k = tx_key t')) as [->|H1].
  - rewrite (tx_write_other (tx_write s t') t) by by apply key_writes.
    apply tx_write_local, tx_write_other. by apply key_writes.
  - rewrite tx_write_other by (apply key_writes; congruence).
    destruct (decide (k = tx_key t)) as [->|H2].
    + symmetry. apply tx_write_local, tx_write_other. by apply key_writes.
    + rewrite !tx_write_other by (apply key_writes; congruence). done.
Qed.

Lemma decision_queued s k kind d target audit item now :
  Queued s -> Queued (foldl tx_write s (decision_tx k kind d target ("REVIEW#" +:+ audit, item) now)).
Proof.
  intros Hs.
  assert (Hpair : forall actions c rest,
    (forall i, foldl apply_action i actions !! "pendingRevision" = None) -> Forall queueless rest ->
    Queued (foldl tx_write s (Update (skin_meta k) actions c
      :: Put (skin_row k ("REVIEW#" +:+ audit)) item (Some row_absent)
      :: Delete (skin_row k REVIEW_QUEUE_SORT_KEY) Always :: rest))).
  { intros actions c rest Ha Hrest. cbn [foldl].
    rewrite (swap_writes (tx_write s _) (Put _ _ _) (Delete _ _)) by by intros [_ E]%skin_row_inj.
    apply (queueless_queued _ (Put _ _ _ :: rest)).
    - apply Forall_cons. split; [apply review_off|done].
    - apply (paired_queued s k actions c (Delete (queue_row k) Always)); [by split|done]. }
  destruct d, target as [[r c]|]; try done; apply Hpair; try (intros i; cbn; by lookups);
    repeat (apply Forall_cons; split); try apply Forall_nil; try done.
  all: split; [intros j; apply revision_not_queue|repeat constructor; done].
Qed.

Lemma create_queued s draft i k now :
  tx_runs s (create_tx draft i k now) = true ->
  Queued s -> Queued (foldl tx_write s (create_tx draft i k now)).
Proof.
  intros Hr Hs. apply tx_runs_inv in Hr as [_ Hh]. apply Forall_cons in Hh as [H1 _]. cbn [tx_holds] in H1.
  apply meta_absent in H1; [|done]. unfold create_tx. cbn [app foldl].
  apply (queueless_queued (tx_write s (Put (skin_meta k) _ _)) (Put _ _ _ :: Put _ _ _ :: _)).
  { apply Forall_cons. split; [intros j; split; auto|]. apply Forall_cons. split; [apply account_off|].
    destruct i as [[key h]|]; [apply Forall_singleton, create_off|constructor]. }
  apply (one_skin_queued s _ k); [| |done].
  - unfold pending. cbn [tx_write]. rewrite lookup_insert_eq. cbn [mbind option_bind]. destruct (new_skin_row draft k now) as [_ ->].
    rewrite lookup_insert_ne, <-(Hs k) by (apply not_eq_sym; auto). unfold pending. by rewrite H1.
  - intros j Hj. cbn [tx_write]. by rewrite !lookup_insert_ne by by apply other_skin.
Qed.

Lemma revision_queued s k h n r now : Queued s -> Queued (foldl tx_write s (revision_tx k h n r now)).
Proof.
  apply queueless_queued. apply Forall_cons. split; [intros j; split; auto|]. apply Forall_singleton.
  split; [intros j; apply not_eq_sym; auto|]. repeat constructor; done.
Qed.

Lemma queued_step s l : SkinTx l -> tx_runs s l = true -> Queued s -> Queued (foldl tx_write s l).
Proof.
  intros Hl Hr. destruct Hl as [l _ Hk|draft i k now|k h n r now|k r now|k r|k kind d target audit item now].
  - by apply queueless_queued.
  - by apply create_queued.
  - apply revision_queued.
  - apply pending_queued.
  - apply clear_queued.
  - apply decision_queued.
Qed.

(** ** What the server sends *)

Lemma meta_update_inert k a actions c :
  a <> REVIEW_QUEUE_SORT_KEY -> forallb harmless actions = true ->
  Forall (fun a => action_attribute a <> "pendingRevision") actions ->
  SkinTx [Update (skin_row k a) actions c].
Proof.
  intros Ha Hh Hp. apply skin_inert; apply Forall_singleton; [done|]. split; [|done].
  by intros j [_ E]%skin_row_inj.
Qed.

Lemma account_update_inert u a actions c :
  forallb harmless actions = true -> Forall (fun a => action_attribute a <> "pendingRevision") actions ->
  keeps (Update (account_row u a) actions c) /\ queueless (Update (account_row u a) actions c).
Proof. intros H1 H2. split; [done|]. split; [|done]. intros j. apply (proj2 (account_off u a) j). Qed.

Lemma inert_pairs l : Forall (fun t => keeps t /\ queueless t) l -> SkinTx l.
Proof. intros H. apply skin_inert; eapply Forall_impl; try exact H; cbn; tauto. Qed.

Lemma owner_update_inert k c :
  keeps (Update (skin_meta k) [Add "ownerCount" 1] c) /\ queueless (Update (skin_meta k) [Add "ownerCount" 1] c).
Proof. split; [done|]. split; [intros j; apply not_eq_sym; auto|]. by repeat constructor. Qed.

Lemma ServerTx_SkinTx l : ServerTx l -> SkinTx l.
Proof.
  destruct 1 as [draft i k now|k head next r now|k now name price|k kind p now|k sk item|k r now|k r
    |k kind d target digest item now|k r|k r at_ms|u k g p now|k d|u a b|e|u src key d h note now|u k p key h now Hp];
    try by constructor.
  - apply meta_update_inert; [done| |]; destruct name, price; cbn; repeat constructor; done.
  - apply meta_update_inert; [done| |]; destruct p; cbn; repeat constructor; done.
  - apply inert_pairs, Forall_singleton, review_off.
  - apply meta_update_inert; [done..|]. by repeat constructor.
  - apply meta_update_inert; [done..|]. by repeat constructor.
  - apply inert_pairs. apply Forall_cons. split; [apply account_off|]. apply Forall_singleton, owner_update_inert.
  - apply meta_update_inert; [done..|]. by repeat constructor.
  - apply inert_pairs, Forall_singleton, account_update_inert; destruct a as [[]|], b as [[]|]; cbn; repeat constructor; done.
  - apply inert_pairs, Forall_singleton. split; [done|]. split; [by intros j [=]|]. by repeat constructor.
  - apply inert_pairs. apply Forall_cons. split; [apply account_off|]. apply Forall_singleton.
    apply account_update_inert; [done|]. by repeat constructor.
  - apply inert_pairs. apply Forall_cons. split; [apply account_off|]. apply Forall_cons. split.
    { apply account_update_inert; [done|]. by repeat constructor. }
    apply Forall_cons. split; [apply owner_update_inert|]. apply Forall_singleton, account_off.
Qed.

Lemma trace_invariants s log s' :
  Trace SkinTx s log s' -> Moderated s /\ Queued s -> Moderated s' /\ Queued s'.
Proof.
  induction 1 as [|s l log s' Hl Hr _ IH]; [done|]. intros [Hm Hq]. apply IH.
  split; [by apply moderated_step|by apply queued_step].
Qed.

Lemma published_ref_read item skin :
  skin_from_item item = Ok skin -> sk_published_content_ref skin = extract_string item "publishedContentRef".
Proof.
  unfold skin_from_item. destruct (read_i32 item "skinId"); [|done]. cbn.
  destruct (extract_string item "kind" ≫= kind_parse); [|done]. cbn.
  destruct (read_i32 item "creatorUserId"); [|done]. cbn. by intros [= <-].
Qed.

Section moderation.
Context {SD : SkinDocs} {PE : PaymentEnv}.

Definition skin_at (s : Store) (k : Z) (skin : Skin) : Prop :=
  exists item, s !! skin_meta k = Some item /\ skin_from_item item = Ok skin.
Definition revision_at (s : Store) (k r : Z) (rev : SkinRevision) : Prop :=
  exists item, s !! revision_row k r = Some item /\ revision_from_item item = Ok rev.

Lemma revision_from_keyed k item : k.1.1 <> UsernamesTable -> revision_from_item (keyed k item) = revision_from_item item.
Proof.
  intros H. unfold revision_from_item, read_i32, read_u32, read_i64, read_number, read_flag, extract_string.
  by rewrite !(keyed_attribute k item) by done.
Qed.

(** A revision that is read again later has the same content, and is still approved if it was. *)
Lemma revision_kept_at s s' k r rev :
  durable s s' -> is_Some (s !! skin_meta k) -> revision_at s k r rev ->
  exists rev', revision_at s' k r rev' /\ rv_content_ref rev' = rv_content_ref rev
    /\ rv_contains_text rev' = rv_contains_text rev
    /\ (rv_review_approved rev = true -> rv_review_approved rev' = true).
Proof.
  intros Hd Hk (item & Hi & Hr). destruct (Hd k Hk) as [_ H]. destruct (H r item Hi) as (item' & Hi' & Hf & Ha).
  unfold revision_from_item, read_i32, read_u32, read_number, extract_string in Hr.
  destruct (item !! "skinId") as [[]|] eqn:E1; try done; destruct (_ && _) eqn:F1 in Hr; try done; cbn in Hr.
  destruct (item !! "revision") as [[]|] eqn:E2; try done; destruct (_ && _) eqn:F2 in Hr; try done; cbn in Hr.
  destruct (item !! "contentRef") as [[]|] eqn:E3; try done; cbn in Hr. injection Hr as <-. cbn.
  eexists. split.
  - exists item'. split; [done|]. unfold revision_from_item, read_i32, read_u32, read_number, extract_string.
    rewrite (Hf "skinId"), (Hf "revision"), (Hf "contentRef"), (Hf "containsText"), (Hf "document"),
      E1, E2, E3, F1, F2 by (by unfold fixed; set_solver). reflexivity.
  - cbn. split; [done|]. split; [done|]. unfold read_flag. rewrite !bool_decide_eq_true. exact Ha.
Qed.

(** A consistent read of a row that ends the call unless it finds one. *)
Lemma run_found {A B : Type} (from : Item -> Result A) key e (f : A -> Db (option B)) world n s c :
  outcome (run (or_return (or_else None (item ← get true key e; lift (transpose from item))) f) world n s) = Ok (Some c) ->
  exists item a, get_item (mo_change (world n) s) key = Some item /\ from item = Ok a
    /\ run (or_return (or_else None (item ← get true key e; lift (transpose from item))) f) world n s
       = run (f a) world (S n) (mo_change (world n) s).
Proof.
  cbn. destruct (mo_fails (world n)); [done|]. cbn.
  destruct (get_item (mo_change (world n) s) key) as [item|] eqn:E; cbn; [|done].
  destruct (from item) as [a| |] eqn:Ef; cbn; [|done|done]. eauto 6.
Qed.

Lemma get_item_at s k item : get_item s k = Some item -> exists row, s !! k = Some row /\ item = keyed k row.
Proof. unfold get_item. destruct (s !! k) as [row|]; [|done]. intros [= <-]. by exists row. Qed.

Lemma run_skin {B : Type} k (f : Skin -> Db (option B)) world n s c :
  outcome (run (or_return (or_else None (get_skin k)) f) world n s) = Ok (Some c) ->
  exists skin, skin_at (mo_change (world n) s) k skin
    /\ run (or_return (or_else None (get_skin k)) f) world n s = run (f skin) world (S n) (mo_change (world n) s).
Proof.
  intros (item & skin & (row & Hr & ->)%get_item_at & Hs & E)%run_found. exists skin. split; [|exact E].
  exists row. by rewrite skin_from_keyed in Hs.
Qed.

Lemma run_revision {B : Type} k r (f : SkinRevision -> Db (option B)) world n s c :
  outcome (run (or_return (or_else None (get_skin_revision k r)) f) world n s) = Ok (Some c) ->
  exists rev, revision_at (mo_change (world n) s) k r rev
    /\ run (or_return (or_else None (get_skin_revision k r)) f) world n s
       = run (f rev) world (S n) (mo_change (world n) s).
Proof.
  intros (item & rev & (row & Hr & ->)%get_item_at & Hs & E)%run_found. exists rev. split; [|exact E].
  exists row. by rewrite revision_from_keyed in Hs.
Qed.

(** The published revision of a moderated skin is approved, whenever it is read. *)
Lemma published_is_approved s s' k skin r rev :
  Moderated s -> durable s s' -> skin_at s k skin -> sk_published_revision skin = Some r ->
  revision_at s' k r rev -> rv_review_approved rev = true.
Proof.
  intros Hm Hd (meta & Hk & Hs) Hp (item' & Hi' & Hr).
  assert (Hread : read_u32 meta "publishedRevision" = Some r).
  { rewrite <-Hp. unfold skin_from_item in Hs. destruct (read_i32 meta "skinId"); [|done]. cbn in Hs.
    destruct (extract_string meta "kind" ≫= kind_parse); [|done]. cbn in Hs.
    destruct (read_i32 meta "creatorUserId"); [|done]. cbn in Hs. by injection Hs as <-. }
  unfold read_u32, read_number in Hread.
  destruct (Hm k meta Hk) as [E|(r' & c & E & item & Hi & Ha & _)]; unfold shown in E; injection E as E1 E2;
    rewrite E1 in Hread; [done|].
  destruct (_ && _) in Hread; [|done]. injection Hread as ->.
  destruct (Hd k ltac:(by eexists)) as [_ H]. destruct (H r item Hi) as (i & Hi2 & _ & Happ).
  rewrite Hi' in Hi2. injection Hi2 as <-. specialize (Happ Ha).
  unfold revision_from_item in Hr. destruct (read_i32 item' "skinId"); [|done]. cbn in Hr.
  destruct (read_u32 item' "revision"); [|done]. cbn in Hr. destruct (extract_string item' "contentRef"); [|done].
  cbn in Hr. injection Hr as <-. cbn. unfold read_flag. by apply bool_decide_eq_true.
Qed.

(** The read of a fallback. *)
Lemma run_fallback {B : Type} k r (f : option SkinRevision -> Db (option B)) world n s c :
  let p := or_return (or_return (or_else None (get_skin_revision k r)) (fun rev => mret (Some (Some rev)))) f in
  outcome (run p world n s) = Ok (Some c) ->
  exists rev, revision_at (mo_change (world n) s) k r rev
    /\ run p world n s = run (f (Some rev)) world (S n) (mo_change (world n) s).
Proof.
  cbn. destruct (mo_fails (world n)); [done|]. cbn.
  destruct (get_item (mo_change (world n) s) (revision_row k r)) as [item|] eqn:E; cbn; [|done].
  destruct (revision_from_item item) as [rev| |] eqn:Ef; cbn; [|done|done]. intros _. exists rev. split; [|done].
  apply get_item_at in E as (row & Hr & ->). exists row. by rewrite revision_from_keyed in Ef.
Qed.

(** The exposure is recorded or not: the match has the revision. *)
Lemma run_exposed {A : Type} (a : A) k r world n s :
  outcome (run (at_ms ← now; _ ← ignore_errors (mark_revision_exposed k r at_ms); mret a) world n s) = Ok a.
Proof.
  cbn. destruct (transact_result _ _ _) as [[|[]|] []]; reflexivity.
Qed.

Lemma trace_moderated s log s' : Trace SkinTx s log s' -> Moderated s -> Moderated s'.
Proof. induction 1 as [|s l log s' Hl Hr _ IH]; [done|]. intros Hm. by apply IH, moderated_step. Qed.

(** The end of [resolve_authored_skin]: what is worn is recorded as exposed. *)
Definition expose (k : Z) (rev : SkinRevision) : Db (option string) :=
  at_ms ← now; _ ← ignore_errors (mark_revision_exposed k (rv_revision rev) at_ms);
  mret (Some (rv_content_ref rev)).

Lemma exposed_end k r rev world n s c :
  lawful SkinTx world -> is_Some (s !! skin_meta k) -> revision_at s k r rev ->
  outcome (run (expose k rev) world n s) = Ok (Some c) ->
  exists log rev', Trace SkinTx s log (final (run (expose k rev) world n s))
    /\ revision_at (final (run (expose k rev) world n s)) k r rev'
    /\ rv_content_ref rev' = c /\ rv_contains_text rev' = rv_contains_text rev
    /\ (rv_review_approved rev = true -> rv_review_approved rev' = true).
Proof.
  intros Hw Hk Hr Ho. unfold expose in Ho at 1. rewrite run_exposed in Ho. injection Ho as <-.
  assert (Hs : Sends ServerTx (expose k rev)).
  { unfold expose, mark_revision_exposed. sends. apply Sends_transact, st_exposed. }
  destruct (run_trace SkinTx (expose k rev) world n s (Sends_mono _ _ _ ServerTx_SkinTx Hs) Hw) as (log & Ht & _).
  destruct (revision_kept_at _ _ _ _ _ (trace_durable _ _ _ Ht) Hk Hr) as (rev' & H1 & H2 & H3 & H4).
  by exists log, rev'.
Qed.

(** Instead of unapproved words, the published revision is worn. *)
Lemma worn_fallback k desired skin world n s1 log2 s2 c :
  let choose fallback := selected ←? mret (match_visible_revision desired fallback); expose k selected in
  let p := or_return (published ←? mret (sk_published_revision skin);
                      revision ←? or_else None (get_skin_revision k published);
                      mret (Some (Some revision))) choose in
  lawful SkinTx world -> Moderated s1 -> Trace SkinTx s1 log2 s2 -> skin_at s1 k skin ->
  rv_contains_text desired = true -> rv_review_approved desired = false ->
  outcome (run p world n s2) = Ok (Some c) ->
  exists log m rev, Trace SkinTx s1 log (final (run p world n s2)) /\ revision_at (final (run p world n s2)) k m rev
    /\ rv_content_ref rev = c /\ rv_review_approved rev = true.
Proof.
  intros choose p Hw Hm1 Ht2 Hs Et Ea Ho. unfold p in *. destruct (sk_published_revision skin) as [m|] eqn:Ep; [|done].
  change (or_return (mret (Some m)) ?f) with (f m) in Ho |- *. cbn beta in Ho |- *.
  destruct (run_fallback _ _ _ _ _ _ _ Ho) as (rev & Hrev & E). cbn zeta in E. rewrite E in Ho |- *. clear E.
  destruct (Hw n s2) as [log3 Ht3]. set (s3 := mo_change (world n) s2) in *.
  pose proof (Trace_app _ _ _ _ _ _ Ht2 Ht3) as Ht. pose proof (trace_durable _ _ _ Ht) as Hd.
  pose proof (published_is_approved _ _ _ _ _ _ Hm1 Hd Hs Ep Hrev) as Happ.
  assert (Hk : is_Some (s1 !! skin_meta k)) by (destruct Hs as (i & Hi & _); by eexists).
  unfold choose, match_visible_revision in Ho |- *. rewrite Et, Ea, Happ, orb_true_r in Ho |- *.
  change (or_return (mret (Some rev)) ?f) with (f rev) in Ho |- *. cbn beta in Ho |- *.
  destruct (exposed_end k m rev _ _ _ _ Hw (proj1 (Hd k Hk)) Hrev Ho) as (log & rev' & Ht' & Hr' & Hc & _ & Ha').
  exists ((log2 ++ log3) ++ log), m, rev'. repeat split; try done; [eapply Trace_app; [exact Ht|exact Ht']|]. auto.
Qed.

(** What a player wears into a match. *)
Lemma worn_revision k u world n s c :
  lawful SkinTx world -> Moderated s ->
  let s' := final (run (resolve_authored_skin k u) world n s) in
  outcome (run (resolve_authored_skin k u) world n s) = Ok (Some c) ->
  exists s1 log1 log2 skin r rev,
    Trace SkinTx s log1 s1 /\ Trace SkinTx s1 log2 s' /\ skin_at s1 k skin /\ sk_publication skin <> Disabled
    /\ revision_at s' k r rev /\ rv_content_ref rev = c
    /\ (rv_review_approved rev = true
        \/ rv_contains_text rev = false /\ sk_creator_user_id skin = wrap_i32 u /\ r = sk_head_revision skin).
Proof.
  intros Hw Hm s' Ho. subst s'. unfold resolve_authored_skin in Ho |- *. fold (expose k) in Ho |- *.
  destruct (run_skin _ _ _ _ _ _ Ho) as (skin & Hs & E). rewrite E in Ho |- *. clear E.
  destruct (Hw n s) as [log1 Ht1]. set (s1 := mo_change (world n) s) in *.
  destruct (is_renderable (sk_publication skin)) eqn:Er; [|done]. cbn [negb] in Ho |- *.
  assert (Hp : sk_publication skin <> Disabled) by (intros X; by rewrite X in Er).
  assert (Hk1 : is_Some (s1 !! skin_meta k)) by (destruct Hs as (i & Hi & _); by eexists).
  pose proof (trace_moderated _ _ _ Ht1 Hm) as Hm1.
  set (choice := if _ =? _ then _ else _) in Ho |- *. destruct choice as [d|] eqn:Ec; [|done]. subst choice.
  change (or_return (mret (Some d)) ?f) with (f d) in Ho |- *. cbn beta in Ho |- *.
  destruct (run_revision _ _ _ _ _ _ _ Ho) as (desired & Hd & E). rewrite E in Ho |- *. clear E.
  destruct (Hw (S n) s1) as [log2 Ht2]. set (s2 := mo_change (world (S n)) s1) in *.
  pose proof (trace_durable _ _ _ Ht2) as D2. destruct (D2 k Hk1) as [Hk2 _].
  destruct (rv_contains_text desired && negb (rv_review_approved desired)) eqn:Et.
  - apply andb_true_iff in Et as [Et Ea]. apply negb_true_iff in Ea.
    destruct (worn_fallback k desired skin _ _ _ _ _ _ Hw Hm1 Ht2 Hs Et Ea Ho) as (log & m & rev & Ht & Hr & Hc & Ha).
    exists s1, log1, log, skin, m, rev. repeat split; auto.
  - change (or_return (mret (Some None)) ?f) with (f (@None SkinRevision)) in Ho |- *. cbn beta in Ho |- *.
    assert (Hv : match_visible_revision desired None = Some desired).
    { unfold match_visible_revision. by destruct (rv_contains_text desired), (rv_review_approved desired). }
    rewrite Hv in Ho |- *. change (or_return (mret (Some desired)) ?f) with (f desired) in Ho |- *. cbn beta in Ho |- *.
    destruct (exposed_end k d desired _ _ _ _ Hw Hk2 Hd Ho) as (log & rev' & Ht' & Hr' & Hc & Htext & Ha').
    exists s1, log1, (log2 ++ log), skin, d, rev'.
    repeat split; try done; [eapply Trace_app; [exact Ht2|exact Ht']|].
    destruct (rv_review_approved desired) eqn:Ea; [auto|]. right. rewrite Htext.
    destruct (Z.eqb_spec (sk_creator_user_id skin) (wrap_i32 u)) as [Hu|Hu].
    + injection Ec as <-. by destruct (rv_contains_text desired).
    + pose proof (published_is_approved _ _ _ _ _ _ Hm1 D2 Hs Ec Hd). congruence.
Qed.

(** A copy of a document that is public: not taken down, without words or approved,
    and published or worn in a match. *)
Definition public_copy (content_ref : string) (c : Skin * SkinRevision) : Prop :=
  sk_publication c.1 <> Disabled /\ (rv_contains_text c.2 = false \/ rv_review_approved c.2 = true)
  /\ (sk_published_content_ref c.1 = Some content_ref \/ is_Some (rv_exposed_at_ms c.2)
      \/ sk_published_revision c.1 = Some (rv_revision c.2)).

Definition own_copy (viewer : option (Z * bool)) (c : Skin * SkinRevision) : Prop :=
  sk_publication c.1 <> Disabled
  /\ exists u admin, viewer = Some (u, admin) /\ (admin = true \/ u = sk_creator_user_id c.1).

Lemma find_in {A : Type} (f : A -> bool) l :
  match List.find f l with
  | Some x => x ∈ l /\ f x = true
  | None => forall x, x ∈ l -> f x = false
  end.
Proof.
  destruct (List.find f l) as [x|] eqn:E.
  - apply find_some in E as [H1 H2]. split; [by apply list_elem_of_In|done].
  - intros x Hx. eapply find_none; [exact E|]. by apply list_elem_of_In.
Qed.

Lemma public_spec content_ref c :
  bool_decide (sk_publication c.1 <> Disabled) && (was_public content_ref c.1 c.2 && text_is_public c.2) = true
  <-> public_copy content_ref c.
Proof.
  unfold public_copy, was_public, text_is_public, is_some.
  rewrite !andb_true_iff, !orb_true_iff, !bool_decide_eq_true, negb_true_iff.
  assert (E : (match rv_exposed_at_ms c.2 with Some _ => true | None => false end) = true <-> is_Some (rv_exposed_at_ms c.2))
    by (destruct (rv_exposed_at_ms c.2); split; [by eexists|done|done|by intros [? ?]]).
  rewrite E. tauto.
Qed.

Lemma own_spec u admin c :
  bool_decide (sk_publication c.1 <> Disabled) && may_edit c.1 u admin = true <-> own_copy (Some (u, admin)) c.
Proof.
  unfold own_copy, may_edit. rewrite andb_true_iff, orb_true_iff, bool_decide_eq_true, Z.eqb_eq. split.
  - intros [H1 H2]. split; [done|]. eauto.
  - intros [H1 (u' & admin' & [= <- <-] & H)]. done.
Qed.

(** What a document read by its hash is. *)
Lemma documents_by_hash content_ref candidates viewer :
  match resolve_document_visibility content_ref candidates viewer with
  | DocPublic rev => exists skin, (skin, rev) ∈ candidates /\ public_copy content_ref (skin, rev)
  | DocPrivate rev => exists skin, (skin, rev) ∈ candidates /\ own_copy viewer (skin, rev)
  | DocGone | DocHidden =>
      forall c, c ∈ candidates -> ~ public_copy content_ref c /\ ~ own_copy viewer c
  end.
Proof.
  unfold resolve_document_visibility. set (public := fun c => _ && (_ && _)).
  pose proof (find_in public candidates) as Hp. destruct (List.find public candidates) as [[skin rev]|].
  { exists skin. destruct Hp as [Hin Hp]. split; [done|]. by apply public_spec. }
  assert (Hno : forall c, c ∈ candidates -> ~ public_copy content_ref c).
  { intros c Hc H%public_spec. specialize (Hp c Hc). unfold public in Hp. congruence. }
  destruct viewer as [[u admin]|].
  - set (own := fun c => bool_decide (sk_publication c.1 <> Disabled) && may_edit c.1 u admin).
    pose proof (find_in own candidates) as Ho. destruct (List.find own candidates) as [[skin rev]|].
    { exists skin. destruct Ho as [Hin Ho]. split; [done|]. by apply own_spec. }
    assert (Hnone : forall c, c ∈ candidates -> ~ own_copy (Some (u, admin)) c).
    { intros c Hc H%own_spec. specialize (Ho c Hc). unfold own in Ho. congruence. }
    destruct (existsb _ _); auto.
  - destruct (existsb _ _); intros c Hc; (split; [auto|]); by intros (_ & ? & ? & [=] & _).
Qed.

(** C12. Whatever call of the server runs, among any others and whatever is lost,
    moderation governs what others see of a skin. On its page, only the reference
    of an approved revision, and none while the skin is taken down. In a match, a
    stored revision of a skin that was not taken down when it was read: an approved
    one, or, worn by the author, the newest one if it has no text. By the hash of
    a document, a copy that was published or worn, of a skin that is not taken down,
    without text or approved; other copies are read by those who may edit the skin
    only. The content of a stored revision never changes and its approval is not
    withdrawn, and a skin is in the review queue exactly while a revision of it is
    pending. *)
Theorem moderation_governs_what_others_see {A : Type} (p : Db A) world n s :
  server_call p -> lawful SkinTx world -> Moderated s -> Queued s ->
  let s' := final (run p world n s) in
  Moderated s' /\ Queued s' /\ durable s s'
  /\ (forall k skin viewer c,
        skin_at s' k skin -> viewer <> Some (sk_creator_user_id skin) -> content_ref_for skin viewer = Some c ->
        sk_publication skin <> Disabled /\ sk_namespace skin = Production /\ exists r, approved s' k r c)
  /\ (forall k u world' n' c,
        let r := run (resolve_authored_skin k u) world' n' s' in
        lawful SkinTx world' -> outcome r = Ok (Some c) ->
        exists s1 log1 log2 skin r' rev,
          Trace SkinTx s' log1 s1 /\ Trace SkinTx s1 log2 (final r)
          /\ skin_at s1 k skin /\ sk_publication skin <> Disabled
          /\ revision_at (final r) k r' rev /\ rv_content_ref rev = c
          /\ (rv_review_approved rev = true
              \/ rv_contains_text rev = false /\ sk_creator_user_id skin = wrap_i32 u /\ r' = sk_head_revision skin))
  /\ forall content_ref candidates viewer,
       match resolve_document_visibility content_ref candidates viewer with
       | DocPublic rev => exists skin, (skin, rev) ∈ candidates /\ public_copy content_ref (skin, rev)
       | DocPrivate rev => exists skin, (skin, rev) ∈ candidates /\ own_copy viewer (skin, rev)
       | DocGone | DocHidden =>
           forall c, c ∈ candidates -> ~ public_copy content_ref c /\ ~ own_copy viewer c
       end.
Proof.
  intros Hc Hw Hm Hq s'.
  destruct (run_trace SkinTx p world n s (Sends_mono _ _ p ServerTx_SkinTx (server_calls_send p Hc)) Hw) as (log & Ht & _).
  fold s' in Ht. destruct (trace_invariants _ _ _ Ht (conj Hm Hq)) as [Hm' Hq']. split; [done|]. split; [done|].
  split; [by eapply trace_durable|]. split; [|split; [intros; by apply worn_revision|apply documents_by_hash]].
  intros k skin viewer c (item & Es & Hskin) Hv Hc'. apply published_ref_read in Hskin as Hp.
  unfold content_ref_for in Hc'. destruct (is_renderable (sk_publication skin)) eqn:Er; [|done]. cbn [negb] in Hc'.
  rewrite bool_decide_eq_false_2 in Hc' by done. destruct (sk_namespace skin) eqn:En; [|done]. cbn [is_publishable negb] in Hc'.
  split; [by destruct (sk_publication skin)|]. split; [done|]. rewrite Hc' in Hp.
  destruct (Hm' k item Es) as [E|(r & c' & E & Ha)]; unfold shown in E; injection E as E1 E2.
  - unfold extract_string in Hp. by rewrite E2 in Hp.
  - unfold extract_string in Hp. rewrite E2 in Hp. injection Hp as <-. by exists r.
Qed.
End moderation.

(** A takedown whose audit row exists is not executed: the row is named after the
    decision, its author and its reason only, and must be new. *)
Theorem repeated_decisions_are_refused s k kind p audit now :
  is_Some (s !! skin_row k audit.1) -> tx_runs s (decision_tx k kind (SetPublication p) None audit now) = false.
Proof.
  intros [row Hrow]. destruct (tx_runs _ _) eqn:E; [|done]. apply tx_runs_inv in E as [_ Hh].
  cbn [decision_tx] in Hh. rewrite !Forall_cons in Hh. destruct Hh as (_ & H & _). cbn [tx_holds] in H.
  apply row_absent_main in H; [|done]. congruence.
Qed.

(** ** Reports and takedowns *)

Lemma single_runs s t : tx_holds s t = true -> tx_runs s [t] = true.
Proof.
  intros H. unfold tx_runs, tx_valid. cbn [forallb length fmap list_fmap]. rewrite H.
  rewrite bool_decide_eq_true_2 by (repeat constructor; set_solver). done.
Qed.

Lemma row_exists s k : k.1.1 = MainTable -> is_Some (s !! k) -> holds (AttributeExists "pk") (get_item s k) = true.
Proof.
  intros Hk [item E]. unfold get_item. rewrite E. cbn. apply bool_decide_eq_true. destruct k as [[[] pk] sk]; try done.
  unfold keyed. cbn. rewrite lookup_insert_eq. by eexists.
Qed.

Lemma publication_runs s k kind p now : is_Some (s !! skin_meta k) -> tx_runs s (publication_tx k kind p None now) = true.
Proof.
  intros H. apply single_runs. cbn [tx_holds]. rewrite row_exists by done. by destruct p.
Qed.

(** A row that is read again after an update of its publication. *)
Lemma skin_reread item item' skin p :
  skin_from_item item = Ok skin ->
  (forall b, b ∈ ["skinId"; "kind"; "creatorUserId"] -> item' !! b = item !! b) ->
  item' !! "publication" = Some (AV_S (publication_str p)) ->
  exists skin', skin_from_item item' = Ok skin' /\ sk_publication skin' = p /\ sk_kind skin' = sk_kind skin.
Proof.
  intros Hs Hb Hp. unfold skin_from_item in Hs |- *.
  assert (E1 : read_i32 item' "skinId" = read_i32 item "skinId")
    by (unfold read_i32, read_number; by rewrite Hb by set_solver).
  assert (E2 : extract_string item' "kind" = extract_string item "kind")
    by (unfold extract_string; by rewrite Hb by set_solver).
  assert (E3 : read_i32 item' "creatorUserId" = read_i32 item "creatorUserId")
    by (unfold read_i32, read_number; by rewrite Hb by set_solver).
  rewrite E1, E2, E3. destruct (read_i32 item "skinId"); [|done]. cbn in Hs |- *.
  destruct (extract_string item "kind" ≫= kind_parse); [|done]. cbn in Hs |- *.
  destruct (read_i32 item "creatorUserId"); [|done]. cbn in Hs |- *.
  injection Hs as <-. eexists. split; [reflexivity|]. cbn. split; [|done].
  unfold extract_string. rewrite Hp. cbn. by rewrite publication_round_trip.
Qed.

Section reports.
Context {SD : SkinDocs}.

(** A report in a world that answers every request and may change the store. *)
Definition answering (change : nat -> Store -> Store) (clock : nat -> Z) (n : nat) : Moment :=
  mkMoment (change n) ∅ [] false false Delivered (clock n).

(** The row that a report leaves. *)
Definition report_row (k now : Z) : Key := skin_row k ("REVIEW#" +:+ sortable now).

Lemma run_get_skin {B : Type} k (f : option Skin -> Db B) change clock n s skin :
  skin_at (change n s) k skin ->
  run (get_skin k ≫= f) (answering change clock) n s = run (f (Some skin)) (answering change clock) (S n) (change n s).
Proof.
  intros (item & Hi & Hs). cbn. unfold get_item. rewrite Hi. cbn. rewrite skin_from_keyed by done. by rewrite Hs.
Qed.

Lemma run_write {B : Type} l e (f : unit -> Db B) change clock n s :
  tx_runs (change n s) l = true ->
  let r := run (write l e ≫= f) (answering change clock) n s in
  let r' := run (f tt) (answering change clock) (S n) (foldl tx_write (change n s) l) in
  outcome r = outcome r' /\ final r = final r'.
Proof. intros H. cbn. unfold transact_result. cbn. rewrite H. cbn. by destruct (run (f tt) _ _ _) as [[]]. Qed.

(** A report writes back the publication that it read first. *)
Lemma report_writes_back s k skin skin2 user reason note change clock :
  reason ∈ REPORT_REASONS -> from_option char_count 0 note <= MAX_REPORT_NOTE_LENGTH ->
  let s0 := change 0%nat s in
  let s2 := change 2%nat s0 in
  let s3 := change 3%nat s2 in
  let r := run (report_skin user k reason note) (answering change clock) 0 s in
  let s4 := change 4%nat (foldl tx_write s3 (publication_tx k (sk_kind skin2) (sk_publication skin) None (clock 1%nat))) in
  skin_at s0 k skin -> skin_at s2 k skin2 -> is_Some (s3 !! skin_meta k) ->
  outcome r = Ok tt /\ exists row, final r = <[report_row k (clock 1%nat) := row]> s4.
Proof.
  intros Hr Hn s0 s2 s3 r s4 H0 H2 H3. subst r. unfold report_skin.
  rewrite bool_decide_eq_true_2 by done. cbn [negb].
  assert (En : match note with Some note => MAX_REPORT_NOTE_LENGTH <? char_count note | None => false end = false)
    by (destruct note; [by apply Z.ltb_ge|done]).
  rewrite En, (run_get_skin k _ _ _ _ _ skin H0). cbn [lift context mbind db_mbind db_bind].
  unfold set_skin_publication. cbn [now mbind db_mbind db_bind run answering mo_now].
  fold (answering change clock). fold s0. rewrite (run_get_skin k _ _ _ _ _ skin2 H2).
  change (lift (context _ (Some skin2)) ≫= ?f) with (f skin2). cbn beta. change (mret None ≫= ?f) with (f (@None (Z * string))).
  cbn beta. fold s2.
  match goal with |- context [run (write ?l ?e ≫= ?f) _ _ _] =>
    destruct (run_write l e f change clock 3 s2 (publication_runs s3 _ _ _ _ H3)) as [E1 E2] end.
  cbn zeta in E1, E2. rewrite E1, E2. clear E1 E2. fold s3 s4.
  match goal with |- context [run (write ?l ?e) _ _ ?s] =>
    destruct (run_write l e (fun u => Ret (Ok u)) change clock 4 s) as [E1 E2]; [by apply single_runs|] end.
  fold s4 in E1, E2. cbn in E1, E2 |- *. unfold transact_result in *. cbn in *. rewrite single_runs in * by done.
  cbn. split; [done|]. eexists. reflexivity.
Qed.

(** A skin is read after an update of its row that sets its publication. *)
Lemma republished item skin actions p :
  skin_from_item item = Ok skin ->
  Forall (fun a => negb (bool_decide (action_attribute a ∈ ["skinId"; "kind"; "creatorUserId"])) = true) actions ->
  foldl apply_action item actions !! "publication" = Some (AV_S (publication_str p)) ->
  exists skin', (exists item', Some (foldl apply_action item actions) = Some item' /\ skin_from_item item' = Ok skin')
    /\ sk_publication skin' = p /\ sk_kind skin' = sk_kind skin.
Proof.
  intros Hs Ha Hp. destruct (skin_reread item (foldl apply_action item actions) skin p) as (skin' & H1 & H2);
    [exact Hs| |exact Hp|by eauto]. clear Hs Hp. intros b Hb. revert item.
  induction Ha as [|a l Ha _ IH]; intros item; [done|]. cbn [foldl]. rewrite IH. apply apply_action_other.
  apply negb_true_iff, bool_decide_eq_false in Ha. intros E. apply Ha. by rewrite E.
Qed.

(** A takedown that is executed. *)
Lemma takedown_writes s k kind p audit at_ms skin :
  let taken := foldl tx_write s (decision_tx k kind (SetPublication p) None audit at_ms) in
  tx_runs s (decision_tx k kind (SetPublication p) None audit at_ms) = true -> skin_at s k skin ->
  (exists skin', skin_at taken k skin' /\ sk_publication skin' = p /\ sk_kind skin' = sk_kind skin)
  /\ is_Some (taken !! skin_row k audit.1) /\ taken !! skin_meta k ≫= lookup "gsi1pk" = None
  /\ skin_row k audit.1 <> skin_meta k.
Proof.
  intros taken Hr (item & Hi & Hs). apply tx_runs_inv in Hr as [Hn _]. pose proof (tx_writes_all s _ Hn) as Hw.
  fold taken in Hw. cbn [decision_tx] in Hw. rewrite !Forall_cons in Hw. destruct Hw as (W1 & W2 & _).
  cbn [tx_key tx_write] in W1, W2. rewrite lookup_insert_eq in W1, W2. rewrite Hi in W1. cbn [default] in W1.
  unfold skin_at. rewrite W1, W2. split; [|split; [by eexists|split; [cbn; by lookups|]]].
  - apply republished; [done|by repeat constructor|cbn; by lookups].
  - cbn in Hn. apply NoDup_cons in Hn as [Hn _]. intros E. apply Hn. rewrite E. set_solver.
Qed.

(** The publication that a report writes back. *)
Lemma publication_writes s k kind p now skin :
  let s' := foldl tx_write s (publication_tx k kind p None now) in
  skin_at s k skin ->
  (exists skin', skin_at s' k skin' /\ sk_publication skin' = p /\ sk_kind skin' = sk_kind skin)
  /\ (p = Published -> s' !! skin_meta k ≫= lookup "gsi1pk" = Some (AV_S (published_index_partition kind)))
  /\ forall key, key <> skin_meta k -> s' !! key = s !! key.
Proof.
  intros s' (item & Hi & Hs). subst s'. cbn [publication_tx foldl tx_write]. unfold skin_at. rewrite Hi.
  rewrite lookup_insert_eq. split; [|split; [intros ->; cbn; by lookups|intros key Hk; by rewrite lookup_insert_ne]].
  apply republished; [done|destruct p; by repeat constructor|destruct p; cbn; by lookups].
Qed.

(** C37. A report on a skin does not mean to change its publication, but it writes
    back the publication it read: whatever takedown is executed between its first
    read and its write is undone, although both succeed. The skin has again the
    publication that it had before the takedown, a published one is listed again,
    and the same takedown is refused from then on, since its audit row exists. *)
Theorem a_report_undoes_a_takedown s k skin kind p audit at_ms user reason note clock i :
  let takedown := decision_tx k kind (SetPublication p) None audit at_ms in
  let taken := foldl tx_write s takedown in
  let change n := if bool_decide (n = i) then fun s => foldl tx_write s takedown else id in
  let r := run (report_skin user k reason note) (answering change clock) 0 s in
  reason ∈ REPORT_REASONS -> from_option char_count 0 note <= MAX_REPORT_NOTE_LENGTH ->
  (i = 2 \/ i = 3)%nat -> skin_at s k skin -> tx_runs s takedown = true ->
  (exists skin', skin_at taken k skin' /\ sk_publication skin' = p)
  /\ taken !! skin_meta k ≫= lookup "gsi1pk" = None
  /\ outcome r = Ok tt
  /\ (exists skin', skin_at (final r) k skin' /\ sk_publication skin' = sk_publication skin)
  /\ (sk_publication skin = Published ->
      final r !! skin_meta k ≫= lookup "gsi1pk" = Some (AV_S (published_index_partition (sk_kind skin))))
  /\ forall later, tx_runs (final r) (decision_tx k kind (SetPublication p) None audit later) = false.
Proof.
  intros takedown taken change r Hr Hn Hi Hs Ht.
  destruct (takedown_writes s k kind p audit at_ms skin Ht Hs) as ((skin' & Hs' & Hp & Hk) & Ha & Hg & Hne).
  fold takedown taken in Hs', Ha, Hg. split; [eauto|]. split; [done|].
  assert (Hfin : outcome r = Ok tt /\ exists row, final r = <[report_row k (clock 1%nat) := row]>
    (foldl tx_write taken (publication_tx k (sk_kind skin) (sk_publication skin) None (clock 1%nat)))).
  { assert (Hm : is_Some (taken !! skin_meta k)) by (destruct Hs' as (m & Hm & _); by eexists).
    destruct Hi as [-> | ->].
    - pose proof (report_writes_back s k skin skin' user reason note change clock Hr Hn Hs Hs' Hm) as H.
      rewrite Hk in H. exact H.
    - exact (report_writes_back s k skin skin user reason note change clock Hr Hn Hs Hs Hm). }
  destruct Hfin as [Ho [row Hf]]. split; [done|].
  destruct (publication_writes taken k (sk_kind skin) (sk_publication skin) (clock 1%nat) skin' Hs') as ((sk'' & H1 & H2 & _) & H3 & H4).
  assert (Hrow : report_row k (clock 1%nat) <> skin_meta k) by by intros [_ E]%skin_row_inj.
  split; [exists sk''; split; [|done]; unfold skin_at; by rewrite Hf, lookup_insert_ne|].
  split; [intros Hpub; rewrite Hf, lookup_insert_ne by done; auto|].
  intros later. apply repeated_decisions_are_refused. rewrite Hf.
  destruct (decide (report_row k (clock 1%nat) = skin_row k audit.1)) as [<-|Hd]; [rewrite lookup_insert_eq; by eexists|].
  by rewrite lookup_insert_ne, H4.
Qed.
End reports.

Module Cases.
Import Examples.

#[local] Existing Instance docs.

Definition admin : AuthUser := mkAuthUser 2 "root" false true.
Definition author : AuthUser := mkAuthUser 1 "eve" false false.
Definition draft : NewSkin :=
  mkNewSkin 1 None KindSnake Production "scales" (mkNewRevision "{}" "ref" [] 1 true) None None.

(** The author creates a skin and asks for publication, and a reviewer publishes it. *)
Definition created : Store := final (run (create_skin draft) (still ∅) 0 ∅).
Definition asked : Store :=
  final (run (request_publication author 1000 (mkPublicationRequest 1 "ref")) (still created) 0 created).
Definition publish : AdminStatusRequest := mkAdminRequest (Some "publish") None (Some 1) (Some "ref") None.
Definition takedown : AdminStatusRequest := mkAdminRequest None (Some "disabled") None None None.
Definition published : Store := final (run (admin_set_status admin 1000 publish) (still asked) 0 asked).

Definition status (s : Store) : option AttributeValue :=
  s !! skin_meta 1000 ≫= fun meta => meta !! "publication".

Lemma empty_moderated : Moderated ∅ /\ Queued ∅.
Proof.
  split.
  - intros k meta H. by rewrite lookup_empty in H.
  - intros k. unfold pending. rewrite !lookup_empty. cbn. split; by intros [? [=]].
Qed.

Lemma still_skin_lawful s : lawful SkinTx (still s).
Proof. intros n s'. exists []. constructor. Qed.

Lemma moderation_governs_what_others_see_witness :
  Moderated created /\ Queued created
  /\ outcome (run (resolve_authored_skin 1000 1) (still created) 0 created) = Ok None
  /\ status published = Some (AV_S "published")
  /\ outcome (run (resolve_authored_skin 1000 7) (still published) 0 published) = Ok (Some "ref").
Proof.
  assert (H : Moderated created /\ Queued created).
  { destruct (@moderation_governs_what_others_see docs (provider RawOther) Skin (create_skin draft) (still ∅) 0 ∅)
      as (H1 & H2 & _); [apply call_create|apply still_skin_lawful|apply empty_moderated|apply empty_moderated|].
    split; [exact H1|exact H2]. }
  destruct H as [H1 H2]. split; [exact H1|]. split; [exact H2|]. vm_compute. repeat split.
Defined.

Lemma skins_round_trip_witness :
  skin_from_item (keyed (skin_meta 3) (skin_item (skin 3 250 Published))) = Ok (skin 3 250 Published).
Proof.
  apply skins_round_trip; [|discriminate].
  unfold skin_in_range, opt_fits, fits. cbn. repeat split; discriminate.
Defined.

(** The transaction of that takedown, and the skin that the report reads. *)
Definition takedown_audit : string * Item :=
  (review_decision_sort_key Disabled None None 2 None, review_decision_item Disabled None None 2 None 1000).
Definition seen : Skin :=
  match skin_from_item (default ∅ (published !! skin_meta 1000)) with
  | Ok skin => skin
  | _ => new_skin draft 1000 0
  end.

Lemma a_report_undoes_a_takedown_witness :
  let change n := if bool_decide (n = 2)%nat
                  then fun s => foldl tx_write s (decision_tx 1000 KindSnake (SetPublication Disabled) None takedown_audit 1000)
                  else id in
  let r := run (report_skin (mkAuthUser 7 "ada" false false) 1000 "offensive" None) (answering change (fun _ => 2000)) 0
             published in
  outcome r = Ok tt /\ exists skin, skin_at (final r) 1000 skin /\ sk_publication skin = Published.
Proof.
  destruct (a_report_undoes_a_takedown published 1000 seen KindSnake Disabled takedown_audit 1000
              (mkAuthUser 7 "ada" false false) "offensive" None (fun _ => 2000) 2) as (_ & _ & H1 & H2 & _).
  - by apply list_elem_of_here.
  - by vm_compute.
  - by left.
  - exists (default ∅ (published !! skin_meta 1000)). split; vm_compute; reflexivity.
  - vm_compute. reflexivity.
  - split; [exact H1|exact H2].
Defined.

(** The store of a report that read the skin before a takedown: the takedown is
    executed between the first read of the report and its write. *)
Definition during_report (n : nat) : Moment :=
  if bool_decide (n = 2)%nat
  then mkMoment (fun s => final (run (admin_set_status admin 1000 takedown) (still s) 0 s)) ∅ [] false false Delivered 2000
  else still ∅ n.

(** The two calls of an administrator and a player. *)
Example a_report_during_a_takedown :
  let s := published in
  let taken_down := final (run (admin_set_status admin 1000 takedown) (still s) 0 s) in
  let r := run (report_skin (mkAuthUser 7 "ada" false false) 1000 "offensive" None) during_report 0 s in
  status taken_down = Some (AV_S "disabled")
  /\ outcome r = Ok tt
  /\ status (final r) = Some (AV_S "published")
  /\ is_Some (final r !! skin_row 1000 (review_decision_sort_key Disabled None None 2 None)).
Proof. vm_compute. repeat split. eexists. reflexivity. Qed.

(** After it, the same takedown is refused: its audit row exists. *)
Example the_takedown_cannot_be_repeated :
  let s := final (run (report_skin (mkAuthUser 7 "ada" false false) 1000 "offensive" None) during_report 0 published) in
  let r := run (admin_set_status admin 1000 takedown) (still s) 0 s in
  outcome r = Err ReviewTargetChanged /\ status (final r) = Some (AV_S "published").
Proof. vm_compute. repeat split. Qed.
End Cases.
