(* ===== verification/SkinExpr.v ===== *)
(** * The expressions of skins: skin-schema/src/expr.rs

    The language in which a skin computes its fields: the tokenizer, the
    precedence-climbing parser with its depth counter, the inputs and the tier of
    an expression, and its evaluation in binary64. The parser counts its calls; its
    fuel bounds how deep they nest and is always enough
    ([ExprTheorems.every_source_is_parsed]). [f64::sin] and [f64::cos], whose
    precision the language leaves open, are the class [F64Libm]. Overflow wraps, as
    in a release build: a debug build panics in [value_noise] where a coordinate
    saturates at [i64::MAX]. *)

From Stdlib Require Import ZArith Ascii SpecFloat Lia.
From stdpp Require Import prelude strings countable list.
From S2P Require Import Prelude RustFloat Util Snake Arena CommandQueue GameState GameSetup.
From S2P Require Import Recording StreamId Journal Rating Completion Content.
Open Scope Z_scope.

(** ** Tiers, inputs and functions *)

Inductive Tier := Constant | PerStep | PerCell | PerTexel.
#[global] Instance Tier_eq_dec : EqDecision Tier.
Proof. solve_decision. Defined.

Definition tier_rank (t : Tier) : Z :=
  match t with Constant => 0 | PerStep => 1 | PerCell => 2 | PerTexel => 3 end.
Definition tier_max (a b : Tier) : Tier := if tier_rank b <? tier_rank a then a else b.

Inductive Input := InS | InT | InLen | InTime | InBoost | InSeed.
#[global] Instance Input_eq_dec : EqDecision Input.
Proof. solve_decision. Defined.

Definition INPUTS : list Input := [InS; InT; InLen; InTime; InBoost; InSeed].

Definition input_name (i : Input) : string :=
  match i with
  | InS => "s" | InT => "t" | InLen => "len" | InTime => "time" | InBoost => "boost" | InSeed => "seed"
  end.

Definition input_bit (i : Input) : Z :=
  match i with
  | InS => 1
  | InT => Z.shiftl 1 1
  | InLen => Z.shiftl 1 2
  | InTime => Z.shiftl 1 3
  | InBoost => Z.shiftl 1 4
  | InSeed => Z.shiftl 1 5
  end.

Definition input_tier (i : Input) : Tier :=
  match i with
  | InS => PerCell
  | InT => PerTexel
  | InTime => PerStep
  | InLen | InBoost | InSeed => Constant
  end.

Inductive BinOp := OpAdd | OpSub | OpMul | OpDiv.

Inductive Func :=
| Sin | Cos | Saw | Tri | Pulse | Fract | Floor | Abs | Clamp | Mix | Smoothstep | Step | Min | Max | Noise.
#[global] Instance Func_eq_dec : EqDecision Func.
Proof. solve_decision. Defined.

Definition FUNCTIONS : list Func :=
  [Sin; Cos; Saw; Tri; Pulse; Fract; Floor; Abs; Clamp; Mix; Smoothstep; Step; Min; Max; Noise].

Definition func_name (f : Func) : string :=
  match f with
  | Sin => "sin" | Cos => "cos" | Saw => "saw" | Tri => "tri" | Pulse => "pulse" | Fract => "fract"
  | Floor => "floor" | Abs => "abs" | Clamp => "clamp" | Mix => "mix" | Smoothstep => "smoothstep"
  | Step => "step" | Min => "min" | Max => "max" | Noise => "noise"
  end.

(** The match of the source, as the function that has the name. *)
Definition func_parse (name : string) : option Func :=
  List.find (fun f => String.eqb (func_name f) name) FUNCTIONS.

Definition arity (f : Func) : list nat :=
  match f with
  | Sin | Cos | Saw | Tri | Fract | Floor | Abs => [1]
  | Pulse => [1; 2]
  | Step | Min | Max | Noise => [2]
  | Clamp | Mix | Smoothstep => [3]
  end%nat.

(** A set of inputs is the number of its bits. *)
Definition contains (inputs : Z) (i : Input) : bool := negb (Z.land inputs (input_bit i) =? 0).

Definition first_outside (inputs : Z) (allowed : list Input) : option Input :=
  List.find (fun i => contains inputs i && negb (bool_decide (i ∈ allowed))) INPUTS.

(** ** Expressions *)

Abbreviation f64 := spec_float.

Inductive Expr :=
| Const (v : f64)
| Read (i : Input)
| Neg (e : Expr)
| Bin (op : BinOp) (l r : Expr)
| Call (f : Func) (args : list Expr).

Fixpoint inputs (e : Expr) : Z :=
  match e with
  | Const _ => 0
  | Read i => input_bit i
  | Neg e => inputs e
  | Bin _ l r => Z.lor (inputs l) (inputs r)
  | Call _ args => foldl (fun bits arg => Z.lor bits (inputs arg)) 0 args
  end.

Fixpoint tier (e : Expr) : Tier :=
  match e with
  | Const _ => Constant
  | Read i => input_tier i
  | Neg e => tier e
  | Bin _ l r => tier_max (tier l) (tier r)
  | Call Noise args => foldl (fun t arg => tier_max t (tier arg)) PerTexel args
  | Call _ args => foldl (fun t arg => tier_max t (tier arg)) Constant args
  end.

(** ** Evaluation *)

Record Env := mkEnv { env_s : f64; env_t : f64; env_len : f64; env_time : f64; env_boost : f64; env_seed : f64 }.

Definition env_read (env : Env) (i : Input) : f64 :=
  match i with
  | InS => env_s env
  | InT => env_t env
  | InLen => env_len env
  | InTime => env_time env
  | InBoost => env_boost env
  | InSeed => env_seed env
  end.

Definition f64_zero : f64 := S754_zero false.
Definition f64_one : f64 := f64_of_Z 1.
Definition f64_two : f64 := f64_of_Z 2.
Definition f64_three : f64 := f64_of_Z 3.
Definition f64_half : f64 := f64_div f64_one f64_two.
Definition f64_pi : f64 := S754_finite false 7074237752028440 (-51).
Definition f64_tau : f64 := S754_finite false 7074237752028440 (-50).
Definition f64_sub : f64 -> f64 -> f64 := SFsub 53 1024.

Definition is_finite (v : f64) : bool := match v with S754_zero _ | S754_finite _ _ _ => true | _ => false end.
Definition is_nan (v : f64) : bool := match v with S754_nan => true | _ => false end.

(** [f64::floor], which keeps zeros and what is not finite. *)
Definition f64_floor (v : f64) : f64 :=
  match v with
  | S754_finite _ _ _ => match float_floor v with FInt z => f64_of_Z z | _ => v end
  | _ => v
  end.

(** [f64::min] and [f64::max]: a NaN loses; which of two zeros wins is left open
    by the language. *)
Definition f64_min (a b : f64) : f64 :=
  match SFcompare a b with
  | Some Gt => b
  | Some _ => a
  | None => if is_nan a then b else a
  end.
Definition f64_max (a b : f64) : f64 :=
  match SFcompare a b with
  | Some Lt => b
  | Some _ => a
  | None => if is_nan a then b else a
  end.

(** [f64::clamp] panics unless the bounds are ordered. *)
Definition f64_clamp (v low high : f64) : Result f64 :=
  if SFleb low high
  then Ok (let v := if SFltb v low then low else v in if SFltb high v then high else v)
  else Panic "min > max, or either was NaN".

(** [as i64]. *)
Definition as_i64 (v : f64) : Z :=
  match float_floor v with
  | FInt z => Z.max (- 2 ^ 63) (Z.min (2 ^ 63 - 1) z)
  | FPosInf => 2 ^ 63 - 1
  | FNegInf => - 2 ^ 63
  | FNaN => 0
  end.

Definition fract (v : f64) : f64 := f64_sub v (f64_floor v).

Definition noise_hash (xi yi : Z) : f64 :=
  let h := wrap_u64 (wrap_u64 xi * 0x9E3779B97F4A7C15) in
  let h := Z.lxor h (wrap_u64 (wrap_u64 yi * 0xC2B2AE3D27D4EB4F)) in
  let h := Z.lxor h (Z.shiftr h 29) in
  let h := wrap_u64 (h * 0xBF58476D1CE4E5B9) in
  let h := Z.lxor h (Z.shiftr h 32) in
  f64_div (f64_of_Z (Z.shiftr h 11)) (f64_of_Z (2 ^ 53)).

Definition succ_i64 (z : Z) : Z := (z + 1 + 2 ^ 63) mod 2 ^ 64 - 2 ^ 63.

(** [u * u * (3 - 2 * u)]. *)
Definition smooth (u : f64) : f64 := f64_mul (f64_mul u u) (f64_sub f64_three (f64_mul f64_two u)).

(** [a + (b - a) * u]. *)
Definition lerp (a b u : f64) : f64 := f64_add a (f64_mul (f64_sub b a) u).

Definition value_noise (x y : f64) : f64 :=
  let x0 := f64_floor x in
  let y0 := f64_floor y in
  let ux := smooth (f64_sub x x0) in
  let uy := smooth (f64_sub y y0) in
  let xi := as_i64 x0 in
  let yi := as_i64 y0 in
  let top := lerp (noise_hash xi yi) (noise_hash (succ_i64 xi) yi) ux in
  let bottom := lerp (noise_hash xi (succ_i64 yi)) (noise_hash (succ_i64 xi) (succ_i64 yi)) ux in
  lerp top bottom uy.

Class F64Libm := { f64_sin : f64 -> f64; f64_cos : f64 -> f64 }.

Section eval.
Context {L : F64Libm}.

Definition eval_bin (op : BinOp) (l r : f64) : f64 :=
  match op with
  | OpAdd => f64_add l r
  | OpSub => f64_sub l r
  | OpMul => f64_mul l r
  | OpDiv => if SFeqb r f64_zero then f64_zero else f64_div l r
  end.

Definition truth (b : bool) : f64 := if b then f64_one else f64_zero.

(** A call, on the values of its arguments; a missing one is zero. *)
Definition eval_call (f : Func) (args : list (Result f64)) : Result f64 :=
  let arg i := match nth_error args i with Some r => r | None => Ok f64_zero end in
  match f with
  | Sin => v ← arg 0%nat; Ok (f64_sin v)
  | Cos => v ← arg 0%nat; Ok (f64_cos v)
  | Saw => v ← arg 0%nat; Ok (fract v)
  | Tri => v ← arg 0%nat; Ok (f64_sub f64_one (SFabs (f64_sub (f64_mul f64_two (fract v)) f64_one)))
  | Pulse => duty ← (if (1 <? length args)%nat then arg 1%nat else Ok f64_half);
             v ← arg 0%nat; Ok (truth (SFltb (fract v) duty))
  | Fract => v ← arg 0%nat; Ok (fract v)
  | Floor => v ← arg 0%nat; Ok (f64_floor v)
  | Abs => v ← arg 0%nat; Ok (SFabs v)
  | Clamp => v ← arg 0%nat; low ← arg 1%nat; high ← arg 2%nat;
             f64_clamp v (f64_min low high) (f64_max low high)
  | Mix => a ← arg 0%nat; b ← arg 1%nat; amount ← arg 2%nat; Ok (lerp a b amount)
  | Smoothstep =>
      edge0 ← arg 0%nat; edge1 ← arg 1%nat; x ← arg 2%nat;
      if SFeqb edge0 edge1 then Ok (truth (negb (SFltb x edge0)))
      else t ← f64_clamp (f64_div (f64_sub x edge0) (f64_sub edge1 edge0)) f64_zero f64_one;
           Ok (smooth t)
  | Step => b ← arg 1%nat; a ← arg 0%nat; Ok (truth (negb (SFltb b a)))
  | Min => a ← arg 0%nat; b ← arg 1%nat; Ok (f64_min a b)
  | Max => a ← arg 0%nat; b ← arg 1%nat; Ok (f64_max a b)
  | Noise => a ← arg 0%nat; b ← arg 1%nat; Ok (value_noise a b)
  end.

(** What is not finite becomes zero, at every node. *)
Definition finished (r : Result f64) : Result f64 :=
  v ← r; Ok (if is_finite v then v else f64_zero).

(** [eval] with [eval_raw] in place. *)
Fixpoint eval (env : Env) (e : Expr) : Result f64 :=
  finished match e with
           | Const v => Ok v
           | Read i => Ok (env_read env i)
           | Neg e => v ← eval env e; Ok (SFopp v)
           | Bin op l r => l ← eval env l; r ← eval env r; Ok (eval_bin op l r)
           | Call f args => eval_call f (map (eval env) args)
           end.
End eval.

(** ** Tokens *)

Inductive Token :=
| Number (v : f64)
| Name (name : string)
| Plus | Minus | Star | Slash | Open_ | Close | Comma.

Record Spanned := mkSpanned { sp_token : Token; sp_at : nat }.

Record ExprError := mkExprError { ee_problem : string; ee_at : nat }.

(** A parser returns, fails, or is nested too deep for its fuel. *)
Inductive PResult (A : Type) := POk (a : A) | PErr (e : ExprError) | OutOfFuel.
Arguments POk {A} a.
Arguments PErr {A} e.
Arguments OutOfFuel {A}.
#[global] Instance presult_mret : MRet PResult := fun A => POk.
#[global] Instance presult_mbind : MBind PResult :=
  fun A B f r => match r with POk a => f a | PErr e => PErr e | OutOfFuel => OutOfFuel end.

(** With the number of calls it took. *)
Record Counted (A : Type) := mkCounted { parsed : PResult A; calls : nat }.
Arguments mkCounted {A} parsed calls.
Arguments parsed {A} c.
Arguments calls {A} c.
Definition free {A} (r : PResult A) : Counted A := mkCounted r 0.
Definition call {A} (r : Counted A) : Counted A := mkCounted (parsed r) (S (calls r)).
#[global] Instance counted_mret : MRet Counted := fun A a => free (POk a).
#[global] Instance counted_mbind : MBind Counted :=
  fun A B f r =>
    match parsed r with
    | POk a => mkCounted (parsed (f a)) (calls r + calls (f a))
    | PErr e => mkCounted (PErr e) (calls r)
    | OutOfFuel => mkCounted OutOfFuel (calls r)
    end.

Definition is_digit (c : ascii) : bool := let b := byte_of c in (48 <=? b) && (b <=? 57).
Definition is_alpha (c : ascii) : bool :=
  let b := byte_of c in ((97 <=? b) && (b <=? 122)) || ((65 <=? b) && (b <=? 90)).
Definition is_number_part (c : ascii) : bool := is_digit c || bool_decide (c = "."%char).
Definition is_name_start (c : ascii) : bool := is_alpha c || bool_decide (c = "_"%char).
Definition is_name_part (c : ascii) : bool := is_alpha c || is_digit c || bool_decide (c = "_"%char).

(** The longest prefix of such characters, and the rest. *)
Fixpoint span (p : ascii -> bool) (s : string) : string * string :=
  match s with
  | String c s' => if p c then let '(a, b) := span p s' in (String c a, b) else ("", s)
  | EmptyString => ("", "")
  end.

(** [str::parse::<f64>] of digits and points: at most one point, at least one
    digit, rounded once. *)
Fixpoint digits_value (v : Z) (s : string) : Z :=
  match s with String c s' => digits_value (v * 10 + (byte_of c - 48)) s' | EmptyString => v end.

Definition decimal_f64 (numerator denominator : Z) : f64 :=
  match numerator, denominator with
  | Zpos n, Zpos d => f64_div (S754_finite false n 0) (S754_finite false d 0)
  | _, _ => f64_zero
  end.

Definition parse_f64 (text : string) : option f64 :=
  let '(whole, rest) := span is_digit text in
  match rest with
  | EmptyString => if bool_decide (whole = "") then None else Some (decimal_f64 (digits_value 0 whole) 1)
  | String _ rest =>
      let '(part, rest) := span is_digit rest in
      if bool_decide (rest <> "") || bool_decide (whole +:+ part = "") then None
      else Some (decimal_f64 (digits_value 0 (whole +:+ part)) (10 ^ Z.of_nat (String.length part)))
  end.

Definition symbol (c : ascii) : option Token :=
  match c with
  | "+" => Some Plus
  | "-" => Some Minus
  | "*" => Some Star
  | "/" => Some Slash
  | "(" => Some Open_
  | ")" => Some Close
  | "," => Some Comma
  | _ => None
  end%char.

Definition is_blank (c : ascii) : bool := bool_decide (byte_of c ∈ [32; 9; 10; 13]).

(** [u8 as char], as UTF-8. *)
Definition latin1 (c : ascii) : string :=
  let b := byte_of c in
  if b <? 128 then String c ""
  else String (char_of (0xc0 + Z.shiftr b 6)) (String (char_of (0x80 + Z.land b 0x3f)) "").

Definition error {A} (problem : string) (at_ : nat) : PResult A := PErr (mkExprError problem at_).

(** The loop, at a byte and with the rest of the source. *)
Fixpoint tokenize_from (fuel at_ : nat) (source : string) : PResult (list Spanned) :=
  match fuel with
  | O => OutOfFuel
  | S fuel =>
      match source with
      | EmptyString => POk []
      | String c rest =>
          let push token width rest :=
            tokens ← tokenize_from fuel (at_ + width) rest; POk (mkSpanned token at_ :: tokens) in
          if is_blank c then tokenize_from fuel (at_ + 1) rest
          else
            match symbol c with
            | Some token => push token 1%nat rest
            | None =>
                if is_number_part c then
                  let '(text, rest) := span is_number_part source in
                  match parse_f64 text with
                  | Some v => push (Number v) (String.length text) rest
                  | None => error ("`" +:+ text +:+ "` is not a number") at_
                  end
                else if is_name_start c then
                  let '(text, rest) := span is_name_part source in
                  push (Name (to_ascii_lowercase text)) (String.length text) rest
                else error ("`" +:+ latin1 c +:+ "` is not part of the language") at_
            end
      end
  end.

Definition tokenize (source : string) : PResult (list Spanned) :=
  tokenize_from (S (String.length source)) 0 source.

(** ** The parser *)

Definition MAX_DEPTH : nat := 50.

Definition operator (t : Token) : option (BinOp * Z) :=
  match t with
  | Plus => Some (OpAdd, 1)
  | Minus => Some (OpSub, 1)
  | Star => Some (OpMul, 2)
  | Slash => Some (OpDiv, 2)
  | _ => None
  end.

Definition named_value (name : string) : option Expr :=
  if bool_decide (name = "pi") then Some (Const f64_pi)
  else if bool_decide (name = "tau") then Some (Const f64_tau)
  else Read <$> List.find (fun i => String.eqb (input_name i) name) INPUTS.

(** [{:?}] of a token that cannot start an expression. *)
Definition token_debug (t : Token) : string :=
  match t with
  | Plus => "Plus" | Minus => "Minus" | Star => "Star" | Slash => "Slash"
  | Open_ => "Open" | Close => "Close" | Comma => "Comma" | Number _ => "Number" | Name _ => "Name"
  end.

Definition token_is (t : Token) (expected : Token) : bool :=
  match t, expected with
  | Plus, Plus | Minus, Minus | Star, Star | Slash, Slash | Open_, Open_ | Close, Close | Comma, Comma => true
  | _, _ => false
  end.

Fixpoint join_or (l : list nat) : string :=
  match l with
  | [] => ""
  | [n] => display_uint (Z.of_nat n)
  | n :: l => display_uint (Z.of_nat n) +:+ " or " +:+ join_or l
  end.

Definition arity_problem (f : Func) (count : nat) : string :=
  "`" +:+ func_name f +:+ "` takes " +:+ join_or (arity f) +:+ " argument(s), not "
  +:+ display_uint (Z.of_nat count).

Section parser.
Variable tokens : list Spanned.

Definition peek (position : nat) : option Token := sp_token <$> nth_error tokens position.

Definition at_position (position : nat) : nat :=
  match nth_error tokens position with
  | Some spanned => sp_at spanned
  | None => match last tokens with Some spanned => sp_at spanned | None => 0%nat end
  end.

(** One level more. Every function leaves the depth as it found it when it
    returns, so the depth is an argument. *)
Definition deeper (depth position : nat) : PResult nat :=
  if (MAX_DEPTH <? S depth)%nat
  then error ("expression nests deeper than " +:+ display_uint (Z.of_nat MAX_DEPTH) +:+ " levels")
         (at_position position)
  else POk (S depth).

Definition expect (token : Token) (problem : string) (position : nat) : PResult nat :=
  match peek position with
  | Some t => if token_is t token then POk (S position) else error problem (at_position position)
  | None => error problem (at_position position)
  end.

Definition next_is (token : Token) (position : nat) : bool :=
  match peek position with Some t => token_is t token | None => false end.

(** Each of the five functions is a call; those of the two loops are their rounds. *)
Fixpoint expression (fuel : nat) (min_binding : Z) (depth position : nat) : Counted (Expr * nat) :=
  match fuel with
  | O => free OutOfFuel
  | S fuel => call (
      depth ← free (deeper depth position);
      '(l, position) ← unary fuel depth position;
      climb fuel min_binding depth l position)
  end
(** The loop of [expression]. *)
with climb (fuel : nat) (min_binding : Z) (depth : nat) (left : Expr) (position : nat) : Counted (Expr * nat) :=
  match fuel with
  | O => free OutOfFuel
  | S fuel => call
      match peek position ≫= operator with
      | None => mret (left, position)
      | Some (op, binding) =>
          if binding <? min_binding then mret (left, position)
          else
            '(r, position) ← expression fuel (binding + 1) depth (S position);
            climb fuel min_binding depth (Bin op left r) position
      end
  end
with unary (fuel depth position : nat) : Counted (Expr * nat) :=
  match fuel with
  | O => free OutOfFuel
  | S fuel => call (
      if next_is Minus position then
        depth ← free (deeper depth (S position));
        '(inner, position) ← unary fuel depth (S position);
        mret (Neg inner, position)
      else primary fuel depth position)
  end
with primary (fuel depth position : nat) : Counted (Expr * nat) :=
  match fuel with
  | O => free OutOfFuel
  | S fuel => call (
      let at_ := at_position position in
      match peek position with
      | None => free (error "expression ended early" at_)
      | Some (Number v) => mret (Const v, S position)
      | Some Open_ =>
          depth ← free (deeper depth (S position));
          '(inner, position) ← expression fuel 0 depth (S position);
          position ← free (expect Close "an unclosed `(`" position);
          mret (inner, position)
      | Some (Name name) =>
          match named_value name with
          | Some e => mret (e, S position)
          | None =>
              match func_parse name with
              | None => free (error ("`" +:+ name +:+ "` is not a known value or function") at_)
              | Some f =>
                  position ← free (expect Open_ ("`" +:+ func_name f +:+ "` needs its arguments") (S position));
                  '(args, position) ←
                    (if next_is Close position then mret ([], position)
                     else arguments fuel depth [] position);
                  position ← free (expect Close "an unclosed argument list" position);
                  if bool_decide (length args ∈ arity f) then mret (Call f args, position)
                  else free (error (arity_problem f (length args)) at_)
              end
          end
      | Some other => free (error (token_debug other +:+ " cannot start an expression") at_)
      end)
  end
(** The loop over the arguments. *)
with arguments (fuel depth : nat) (args : list Expr) (position : nat) : Counted (list Expr * nat) :=
  match fuel with
  | O => free OutOfFuel
  | S fuel => call (
      depth' ← free (deeper depth position);
      '(arg, position) ← expression fuel 0 depth' position;
      if next_is Comma position then arguments fuel depth (args ++ [arg]) (S position)
      else mret (args ++ [arg], position))
  end.

(** The parse of the whole list: the fuel is always enough. *)
Definition whole_expression : Counted (Expr * nat) := expression (4 * length tokens + 4) 0 0 0.

Definition parse_tokens : PResult Expr :=
  '(e, position) ← parsed whole_expression;
  if (position <? length tokens)%nat
  then error "trailing input after a complete expression" (at_position position)
  else POk e.
End parser.

Definition parse (source : string) : PResult Expr :=
  tokens ← tokenize source; parse_tokens tokens.
