(* ===== verification/ExprTheorems.v ===== *)
(** * Theorems on the expressions of skins

    Evaluation is total and finite and depends on nothing but the inputs that are
    reported and the tier that is derived; every source is parsed or refused, what
    is parsed has calls of the right arity, and an expression that is written out
    is parsed back; the depth of what is parsed is not bounded. *)

From Stdlib Require Import ZArith Ascii SpecFloat Lia.
From stdpp Require Import prelude strings countable list.
From S2P Require Import Prelude RustFloat Util Snake Arena CommandQueue GameState GameSetup.
From S2P Require Import Recording StreamId Journal Rating Completion Content SkinExpr.
Open Scope Z_scope.

(** Induction on expressions, with the arguments of calls. *)
Section induction.
Variable P : Expr -> Prop.
Hypothesis Hconst : forall v, P (Const v).
Hypothesis Hread : forall i, P (Read i).
Hypothesis Hneg : forall e, P e -> P (Neg e).
Hypothesis Hbin : forall op l r, P l -> P r -> P (Bin op l r).
Hypothesis Hcall : forall f args, Forall P args -> P (Call f args).

Fixpoint expr_induction (e : Expr) : P e :=
  match e with
  | Const v => Hconst v
  | Read i => Hread i
  | Neg e => Hneg e (expr_induction e)
  | Bin op l r => Hbin op l r (expr_induction l) (expr_induction r)
  | Call f args =>
      Hcall f args ((fix all l : Forall P l :=
                       match l with
                       | [] => Forall_nil_2 P
                       | e :: l => Forall_cons_2 P e l (expr_induction e) (all l)
                       end) args)
  end.
End induction.

(** ** What an expression reads *)

Lemma contains_lor a b i : contains (Z.lor a b) i = contains a i || contains b i.
Proof.
  unfold contains. rewrite Z.land_lor_distr_l. pose proof (Z.lor_eq_0_iff (Z.land a (input_bit i)) (Z.land b (input_bit i))).
  destruct (Z.eqb_spec (Z.land a (input_bit i)) 0), (Z.eqb_spec (Z.land b (input_bit i)) 0),
    (Z.eqb_spec (Z.lor (Z.land a (input_bit i)) (Z.land b (input_bit i))) 0); cbn; tauto.
Qed.

Lemma contains_fold args i bits :
  contains (foldl (fun bits arg => Z.lor bits (inputs arg)) bits args) i
  = contains bits i || existsb (fun arg => contains (inputs arg) i) args.
Proof.
  revert bits. induction args as [|a l IH]; intros bits; cbn; [by rewrite orb_false_r|].
  by rewrite IH, contains_lor, orb_assoc.
Qed.

Lemma contains_bit i j : contains (input_bit i) j = bool_decide (i = j).
Proof. by destruct i, j. Qed.

(** Two environments with the same values of some inputs. *)
Definition agree (on : Input -> bool) (env env' : Env) : Prop :=
  forall i, on i = true -> env_read env i = env_read env' i.

Section evaluation.
Context {L : F64Libm}.

Lemma eval_agrees e env env' : agree (contains (inputs e)) env env' -> eval env e = eval env' e.
Proof.
  induction e as [v|i|e IH|op l r IHl IHr|f args IH] using expr_induction; intros H; cbn [eval].
  - done.
  - rewrite (H i); [done|]. cbn. rewrite contains_bit. by apply bool_decide_eq_true.
  - by rewrite IH.
  - rewrite IHl, IHr; [done|..]; intros i Hi; apply H; cbn; rewrite contains_lor, Hi; [by apply orb_true_r|done].
  - do 2 f_equal. apply map_ext_in. intros a Ha. rewrite Forall_forall in IH.
    apply IH; [by apply list_elem_of_In|]. intros i Hi. apply H. cbn. rewrite contains_fold.
    apply orb_true_iff. right. apply existsb_exists. eauto.
Qed.

(** ** Tiers *)

Lemma tier_max_rank a b : tier_rank (tier_max a b) = Z.max (tier_rank a) (tier_rank b).
Proof. by destruct a, b. Qed.

Lemma tier_fold_rank args t :
  tier_rank t <= tier_rank (foldl (fun t arg => tier_max t (tier arg)) t args)
  /\ Forall (fun a => tier_rank (tier a) <= tier_rank (foldl (fun t arg => tier_max t (tier arg)) t args)) args.
Proof.
  revert t. induction args as [|a l IH]; intros t; cbn; [split; [lia|constructor]|].
  destruct (IH (tier_max t (tier a))) as [H1 H2]. rewrite tier_max_rank in H1.
  split; [lia|]. constructor; [lia|done].
Qed.

Lemma call_tier f args : Forall (fun a => tier_rank (tier a) <= tier_rank (tier (Call f args))) args.
Proof. destruct f; apply tier_fold_rank. Qed.

Lemma reads_within_tier e i : contains (inputs e) i = true -> tier_rank (input_tier i) <= tier_rank (tier e).
Proof.
  induction e as [v|j|e IH|op l r IHl IHr|f args IH] using expr_induction; cbn [inputs tier]; intros H.
  - by destruct i.
  - rewrite contains_bit in H. apply bool_decide_eq_true in H as ->. done.
  - auto.
  - rewrite contains_lor in H. rewrite tier_max_rank. apply orb_true_iff in H as [H|H]; [apply IHl in H|apply IHr in H]; lia.
  - rewrite contains_fold in H. apply orb_true_iff in H as [H|H]; [by destruct i|].
    apply existsb_exists in H as (a & Ha & Hi). apply list_elem_of_In in Ha.
    pose proof (call_tier f args) as Ht. rewrite Forall_forall in Ht, IH.
    specialize (IH a Ha Hi). specialize (Ht a Ha). cbn [tier] in Ht. etrans; [exact IH|exact Ht].
Qed.

(** Whether an expression calls noise. *)
Fixpoint calls_noise (e : Expr) : bool :=
  match e with
  | Const _ | Read _ => false
  | Neg e => calls_noise e
  | Bin _ l r => calls_noise l || calls_noise r
  | Call f args => bool_decide (f = Noise) || existsb calls_noise args
  end.

Lemma noise_is_per_texel e : calls_noise e = true -> tier e = PerTexel.
Proof.
  assert (Htop : forall t, tier_rank PerTexel <= tier_rank t -> t = PerTexel) by (intros []; cbn; lia || done).
  intros H. apply Htop. revert H.
  induction e as [v|j|e IH|op l r IHl IHr|f args IH] using expr_induction; cbn [calls_noise tier]; intros H; try done.
  - auto.
  - rewrite tier_max_rank. apply orb_true_iff in H as [H|H]; [apply IHl in H|apply IHr in H]; lia.
  - apply orb_true_iff in H as [H|H].
    + apply bool_decide_eq_true in H as ->. apply tier_fold_rank.
    + apply existsb_exists in H as (a & Ha & Hn). apply list_elem_of_In in Ha.
      pose proof (call_tier f args) as Ht. rewrite Forall_forall in Ht, IH.
      specialize (IH a Ha Hn). specialize (Ht a Ha). cbn [tier] in Ht. etrans; [exact IH|exact Ht].
Qed.

(** C32. An expression may be evaluated as rarely as its tier says: its value
    is the same in any two environments that agree on the inputs it reports, and
    so in any two that agree on the inputs of its tier and the cheaper ones; one
    that calls noise is evaluated per texel. *)
Theorem tiers_are_sound e env env' :
  (agree (contains (inputs e)) env env' -> eval env e = eval env' e)
  /\ (agree (fun i => tier_rank (input_tier i) <=? tier_rank (tier e)) env env' -> eval env e = eval env' e)
  /\ (calls_noise e = true -> tier e = PerTexel).
Proof.
  split; [apply eval_agrees|]. split; [|apply noise_is_per_texel].
  intros H. apply eval_agrees. intros i Hi. apply H, Z.leb_le. by apply reads_within_tier.
Qed.

(** ** Totality *)

Lemma SFcompare_refl v : is_finite v = true -> SFcompare v v = Some Eq.
Proof.
  destruct v as [s|s| |s m e]; try done. intros _. cbn. rewrite Z.compare_refl, Pos.compare_cont_refl.
  by destruct s.
Qed.

Lemma SFcompare_swap a b :
  is_finite a = true -> is_finite b = true -> exists c, SFcompare a b = Some c /\ SFcompare b a = Some (CompOpp c).
Proof.
  destruct a as [s|s| |s m e], b as [s'|s'| |s' m' e']; try done; intros _ _; cbn;
    try (destruct s'; eexists; done); try (destruct s; eexists; done).
  rewrite (Z.compare_antisym e e'), !Pos.compare_cont_spec, (Pos.compare_antisym m m').
  destruct s, s'; try (eexists; done); destruct (e ?= e'), (m ?= m')%positive; eexists; done.
Qed.

Lemma ordered_bounds a b : is_finite a = true -> is_finite b = true -> SFleb (f64_min a b) (f64_max a b) = true.
Proof.
  intros Ha Hb. unfold f64_min, f64_max, SFleb.
  destruct (SFcompare_swap a b Ha Hb) as ([] & E & E'); rewrite E.
  - by rewrite SFcompare_refl.
  - by rewrite E.
  - by rewrite E'.
Qed.

Definition good (r : Result f64) : Prop := exists v, r = Ok v /\ is_finite v = true.

Lemma finished_good (r : Result f64) : (exists v, r = Ok v) -> good (finished r).
Proof. intros [v ->]. unfold good, finished. cbn. destruct (is_finite v) eqn:E; eauto. Qed.

Lemma argument_good args i :
  Forall good args -> good match nth_error args i with Some r => r | None => Ok f64_zero end.
Proof.
  intros H. destruct (nth_error args i) as [r|] eqn:E; [|by exists f64_zero].
  apply nth_error_In in E. rewrite Forall_forall in H. by apply H, list_elem_of_In.
Qed.

Lemma call_returns f args : Forall good args -> exists v, eval_call f args = Ok v.
Proof.
  intros H. unfold eval_call.
  destruct (argument_good args 0 H) as (a & -> & Ha), (argument_good args 1 H) as (b & -> & Hb),
    (argument_good args 2 H) as (c & -> & Hc).
  destruct f; cbn -[f64_clamp f64_min f64_max Nat.ltb]; try (eexists; reflexivity).
  - destruct (1 <? length args)%nat; eexists; reflexivity.
  - unfold f64_clamp. rewrite ordered_bounds by done. eexists; reflexivity.
  - destruct (SFeqb a b); [eexists; reflexivity|]. unfold f64_clamp.
    change (SFleb f64_zero f64_one) with true. eexists; reflexivity.
Qed.

(** C35. Every expression has a value in every environment, and it is a finite
    number: no call panics, whatever the arguments, and neither an overflow nor a
    division by zero gets out. *)
Theorem evaluation_is_total_and_finite env e : exists v, eval env e = Ok v /\ is_finite v = true.
Proof.
  change (good (eval env e)).
  induction e as [v|i|e IH|op l r IHl IHr|f args IH] using expr_induction; cbn [eval]; apply finished_good.
  - eauto.
  - eauto.
  - destruct IH as (v & -> & _). eexists; reflexivity.
  - destruct IHl as (v & -> & _), IHr as (w & -> & _). eexists; reflexivity.
  - apply call_returns, Forall_map. exact IH.
Qed.
End evaluation.

(** ** Parsing *)

(** Every call has a number of arguments its function takes. *)
Fixpoint well_formed (e : Expr) : bool :=
  match e with
  | Const _ | Read _ => true
  | Neg e => well_formed e
  | Bin _ l r => well_formed l && well_formed r
  | Call f args => bool_decide (length args ∈ arity f) && forallb well_formed args
  end.

Lemma parsed_bind {A B : Type} (r : Counted A) (f : A -> Counted B) :
  parsed (r ≫= f) = parsed r ≫= fun a => parsed (f a).
Proof. unfold mbind at 1, counted_mbind. by destruct (parsed r). Qed.

(** A call of the parser at [p] among [n] tokens, after [spent] calls: it returns
    what it should at [low] or behind, or fails, within four calls for each token it
    has read, [slack] and [reserve] of them unused; and if its fuel is [enough] it
    does one of these. *)
Definition advances {A} (n p low slack reserve : nat) (good : A -> Prop) (enough : Prop) (spent : nat)
    (r : Counted (A * nat)) : Prop :=
  match parsed r with
  | POk (a, p') => (low <= p' <= n)%nat /\ good a /\ (spent + calls r + 4 * p + slack <= 4 * p' + 4)%nat
  | PErr _ => (spent + calls r + 4 * p + reserve <= 4 * n + 4)%nat
  | OutOfFuel => ~ enough
  end.

Section advances.
Context {A B : Type} (n p low slack reserve : nat) (good : B -> Prop) (enough : Prop) (spent : nat).

Notation goes := (advances n p low slack reserve good enough spent).

Lemma advances_call r : advances n p low slack reserve good enough (S spent) r -> goes (call r).
Proof.
  unfold advances, call. cbn. destruct (parsed r) as [[b p']|e|]; [intros (H1 & H2 & H3)|intros H|done].
  - split; [done|]. split; [done|lia].
  - lia.
Qed.

Lemma advances_ret b p' :
  (low <= p' <= n)%nat -> good b -> (spent + 4 * p + slack <= 4 * p' + 4)%nat -> goes (mret (b, p')).
Proof. intros H1 H2 H3. unfold advances. cbn. split; [done|]. split; [done|lia]. Qed.

Lemma advances_error m q : (spent + 4 * p + reserve <= 4 * n + 4)%nat -> goes (free (error m q)).
Proof. intros H. unfold advances. cbn. lia. Qed.

Lemma advances_bind p1 low1 slack1 reserve1 (ok : A -> Prop) (enough1 : Prop) (r : Counted (A * nat)) f :
  advances n p1 low1 slack1 reserve1 ok enough1 0 r -> (enough -> enough1) ->
  (spent + 4 * p + reserve <= 4 * p1 + reserve1)%nat ->
  (forall a p' k, (low1 <= p' <= n)%nat -> ok a -> (k + 4 * p1 + slack1 <= 4 * p' + 4)%nat ->
     advances n p low slack reserve good enough (spent + k) (f (a, p'))) ->
  goes (r ≫= f).
Proof.
  unfold advances at 1. unfold mbind, counted_mbind. destruct (parsed r) as [[a p']|e|].
  - intros (H1 & H2 & H3) _ _ Hf. specialize (Hf a p' (calls r) H1 H2 ltac:(lia)). unfold advances in *. cbn.
    destruct (parsed (f (a, p'))) as [[b q]|e|]; [|lia|done].
    destruct Hf as (G1 & G2 & G3). split; [done|]. split; [done|lia].
  - intros H _ Hr _. unfold advances. cbn. lia.
  - intros H He _ _. unfold advances. cbn. auto.
Qed.

Lemma advances_tail p1 low1 slack1 reserve1 (ok : B -> Prop) (enough1 : Prop) r :
  advances n p1 low1 slack1 reserve1 ok enough1 0 r -> (low <= low1)%nat -> (forall b, ok b -> good b) ->
  (enough -> enough1) -> (spent + 4 * p + slack <= 4 * p1 + slack1)%nat ->
  (spent + 4 * p + reserve <= 4 * p1 + reserve1)%nat -> goes r.
Proof.
  unfold advances. destruct (parsed r) as [[b p']|e|]; [|intros; lia|tauto].
  intros (H1 & H2 & H3) Hl Ho _ Hs _. split; [lia|]. split; [auto|lia].
Qed.

Lemma advances_deeper tokens d q (f : nat -> Counted (B * nat)) :
  (spent + 4 * p + reserve <= 4 * n + 4)%nat -> (forall d, goes (f d)) -> goes (free (deeper tokens d q) ≫= f).
Proof. intros Hs H. unfold deeper. case_match; [|apply H]. unfold advances. cbn. lia. Qed.

Lemma advances_expect tokens t m q (f : nat -> Counted (B * nat)) :
  length tokens = n -> (spent + 4 * p + reserve <= 4 * n + 4)%nat -> ((q < n)%nat -> goes (f (S q))) ->
  goes (free (expect tokens t m q) ≫= f).
Proof.
  intros Hn Hs H. unfold expect, peek. destruct (nth_error tokens q) as [s|] eqn:E; cbn [fmap option_fmap option_map].
  - case_match; [|unfold advances; cbn; lia]. apply H. rewrite <-Hn. apply nth_error_Some. congruence.
  - unfold advances; cbn; lia.
Qed.
End advances.

Lemma peek_lt tokens p t : peek tokens p = Some t -> (p < length tokens)%nat.
Proof. unfold peek. destruct (nth_error tokens p) eqn:E; [|done]. intros _. apply nth_error_Some. congruence. Qed.

Lemma next_is_lt tokens t p : next_is tokens t p = true -> (p < length tokens)%nat.
Proof. unfold next_is. destruct (peek tokens p) eqn:E; [|done]. intros _. by eapply peek_lt. Qed.

Section parsing.
Variable tokens : list Spanned.
Let n := length tokens.
Let wf (e : Expr) : Prop := well_formed e = true.

(** What the five functions promise. *)
Definition parses (fuel : nat) : Prop :=
  (forall mb d p, (p <= n)%nat ->
     advances n p (S p) 4 1 wf (4 * (n - p) + 3 <= fuel)%nat 0 (expression tokens fuel mb d p))
  /\ (forall mb d l p, (p <= n)%nat -> wf l ->
     advances n p p 3 4 wf (4 * (n - p) + 2 <= fuel)%nat 0 (climb tokens fuel mb d l p))
  /\ (forall d p, (p <= n)%nat ->
     advances n p (S p) 6 2 wf (4 * (n - p) + 2 <= fuel)%nat 0 (unary tokens fuel d p))
  /\ (forall d p, (p <= n)%nat ->
     advances n p (S p) 7 3 wf (4 * (n - p) + 1 <= fuel)%nat 0 (primary tokens fuel d p))
  /\ (forall d args p, (p <= n)%nat -> Forall wf args ->
     advances n p (S p) 3 0 (Forall wf) (4 * (n - p) + 4 <= fuel)%nat 0 (arguments tokens fuel d args p)).

Lemma named_wf name e : named_value name = Some e -> wf e.
Proof.
  unfold named_value, wf. repeat case_bool_decide; try by intros [= <-].
  destruct (List.find _ _); [|done]. by intros [= <-].
Qed.

Lemma expression_parses fuel mb d p : parses fuel -> (p <= n)%nat ->
  advances n p (S p) 4 1 wf (4 * (n - p) + 3 <= S fuel)%nat 0 (expression tokens (S fuel) mb d p).
Proof.
  intros (_ & HC & HU & _) Hp. cbn [expression]. apply advances_call, advances_deeper; [lia|]. intros d'.
  eapply advances_bind; [by apply HU|lia|lia|]. intros l p' k Hp' Hl Hk.
  eapply advances_tail; [apply HC; [lia|done]|lia|done|lia|lia|lia].
Qed.

Lemma climb_parses fuel mb d l p : parses fuel -> (p <= n)%nat -> wf l ->
  advances n p p 3 4 wf (4 * (n - p) + 2 <= S fuel)%nat 0 (climb tokens (S fuel) mb d l p).
Proof.
  intros (HE & HC & _) Hp Hl. cbn [climb]. apply advances_call.
  destruct (peek tokens p) as [t|] eqn:E; [|by apply advances_ret; [lia|done|lia]].
  apply peek_lt in E. fold n in E. cbn [mbind option_bind].
  destruct (operator t) as [[op b]|]; [|by apply advances_ret; [lia|done|lia]].
  destruct (b <? mb); [by apply advances_ret; [lia|done|lia]|].
  eapply advances_bind; [apply HE; lia|lia|lia|]. intros r p' k Hp' Hr Hk.
  eapply advances_tail; [apply HC; [lia|]|lia|done|lia|lia|lia]. unfold wf in *. cbn. by rewrite Hl, Hr.
Qed.

Lemma unary_parses fuel d p : parses fuel -> (p <= n)%nat ->
  advances n p (S p) 6 2 wf (4 * (n - p) + 2 <= S fuel)%nat 0 (unary tokens (S fuel) d p).
Proof.
  intros (_ & _ & HU & HP & _) Hp. cbn [unary]. apply advances_call. destruct (next_is tokens Minus p) eqn:E.
  - apply next_is_lt in E. fold n in E. apply advances_deeper; [lia|]. intros d'.
    eapply advances_bind; [apply HU; lia|lia|lia|]. intros e p' k Hp' He Hk. apply advances_ret; [lia|done|lia].
  - eapply advances_tail; [by apply HP|lia|done|lia|lia|lia].
Qed.

Lemma primary_parses fuel d p : parses fuel -> (p <= n)%nat ->
  advances n p (S p) 7 3 wf (4 * (n - p) + 1 <= S fuel)%nat 0 (primary tokens (S fuel) d p).
Proof.
  intros (HE & _ & _ & _ & HA) Hp. cbn [primary]. apply advances_call. cbv zeta.
  destruct (peek tokens p) as [t|] eqn:E; [|apply advances_error; lia].
  apply peek_lt in E. fold n in E. destruct t as [v|name| | | | | | |]; try (apply advances_error; lia).
  - apply advances_ret; [lia|done|lia].
  - destruct (named_value name) as [e|] eqn:En; [apply advances_ret; [lia|by eapply named_wf|lia]|].
    destruct (func_parse name) as [f|]; [|apply advances_error; lia].
    apply advances_expect; [done|lia|]. intros H1.
    assert (Hargs : advances n (S (S p)) (S (S p)) 3 0 (Forall wf) (4 * (n - p) + 1 <= S fuel)%nat 0
      (if next_is tokens Close (S (S p)) then mret ([], S (S p)) else arguments tokens fuel d [] (S (S p)))).
    { destruct (next_is tokens Close _); [apply advances_ret; [lia|constructor|lia]|].
      eapply advances_tail; [apply HA; [lia|constructor]|lia|done|lia|lia|lia]. }
    eapply advances_bind; [exact Hargs|done|lia|]. intros args p' k Hp' Ha Hk.
    apply advances_expect; [done|lia|]. intros Hq.
    case_bool_decide as Har; [|apply advances_error; lia]. apply advances_ret; [lia| |lia].
    unfold wf. cbn. rewrite bool_decide_eq_true_2 by done.
    apply forallb_forall. intros e He. rewrite Forall_forall in Ha. by apply Ha, list_elem_of_In.
  - apply advances_deeper; [lia|]. intros d'. eapply advances_bind; [apply HE; lia|lia|lia|].
    intros e p' k Hp' He Hk. apply advances_expect; [done|lia|]. intros Hq. apply advances_ret; [lia|done|lia].
Qed.

Lemma arguments_parses fuel d args p : parses fuel -> (p <= n)%nat -> Forall wf args ->
  advances n p (S p) 3 0 (Forall wf) (4 * (n - p) + 4 <= S fuel)%nat 0 (arguments tokens (S fuel) d args p).
Proof.
  intros (HE & _ & _ & _ & HA) Hp Ha. cbn [arguments]. apply advances_call, advances_deeper; [lia|]. intros d'.
  eapply advances_bind; [by apply HE|lia|lia|]. intros e p' k Hp' He Hk.
  assert (Hargs : Forall wf (args ++ [e])) by (apply Forall_app; split; [done|by constructor]).
  destruct (next_is tokens Comma p') eqn:E; [|apply advances_ret; [lia|done|lia]].
  apply next_is_lt in E. fold n in E.
  eapply advances_tail; [apply HA; [lia|done]|lia|done|lia|lia|lia].
Qed.

Lemma all_parse fuel : parses fuel.
Proof.
  induction fuel as [|fuel IH].
  - repeat split; intros; unfold advances; cbn; lia.
  - split; [|split; [|split; [|split]]]; intros.
    + by apply expression_parses.
    + by apply climb_parses.
    + by apply unary_parses.
    + by apply primary_parses.
    + by apply arguments_parses.
Qed.

Lemma parse_tokens_total :
  (calls (whole_expression tokens) <= 4 * n + 3)%nat
  /\ match parse_tokens tokens with POk e => wf e | PErr _ => True | OutOfFuel => False end.
Proof.
  unfold parse_tokens, whole_expression. destruct (all_parse (4 * length tokens + 4)) as [HE _].
  specialize (HE 0 0%nat 0%nat ltac:(lia)). unfold advances in HE.
  destruct (parsed (expression tokens _ 0 0 0)) as [[e p]|e|]; cbn [mbind presult_mbind].
  - destruct HE as (Hp & He & Hc). split; [lia|]. destruct (p <? length tokens)%nat; [done|exact He].
  - split; [lia|done].
  - exfalso. apply HE. fold n. lia.
Qed.
End parsing.

Lemma span_length p s : (String.length (span p s).1 + String.length (span p s).2 = String.length s)%nat.
Proof. induction s as [|c s IH]; cbn; [done|]. destruct (p c); [|done]. destruct (span p s); cbn in *. lia. Qed.

Lemma span_shorter p c s : p c = true -> (String.length (span p (String c s)).2 <= String.length s)%nat.
Proof. intros H. pose proof (span_length p s). cbn. rewrite H. destruct (span p s); cbn in *. lia. Qed.

Lemma tokenize_total fuel at_ s : (String.length s < fuel)%nat -> tokenize_from fuel at_ s <> OutOfFuel.
Proof.
  revert at_ s. induction fuel as [|fuel IH]; intros at_ s H; [lia|]. destruct s as [|c s]; [done|].
  assert (Hpush : forall t w r, (String.length r <= String.length s)%nat ->
    (tokens ← tokenize_from fuel (at_ + w) r; POk (mkSpanned t at_ :: tokens)) <> OutOfFuel).
  { intros t w r Hr. pose proof (IH (at_ + w)%nat r). destruct (tokenize_from fuel (at_ + w) r); cbn; try done.
    intros _. apply H0; [cbn in H; lia|done]. }
  cbn [tokenize_from]. destruct (is_blank c); [apply IH; cbn in H; lia|].
  destruct (symbol c) as [t|]; [by apply Hpush|]. destruct (is_number_part c) eqn:En.
  - pose proof (span_shorter is_number_part c s En). destruct (span is_number_part (String c s)) as [text r].
    destruct (parse_f64 text); [by apply Hpush|done].
  - destruct (is_name_start c) eqn:Es; [|done].
    assert (Hc : is_name_part c = true) by (unfold is_name_part, is_name_start in *; destruct (is_alpha c), (is_digit c); done).
    pose proof (span_shorter is_name_part c s Hc). destruct (span is_name_part (String c s)) as [text r].
    by apply Hpush.
Qed.

(** A token has a character. *)
Lemma tokenize_length fuel at_ s tokens : tokenize_from fuel at_ s = POk tokens ->
  (length tokens <= String.length s)%nat.
Proof.
  revert at_ s tokens. induction fuel as [|fuel IH]; intros at_ s tokens; [done|].
  destruct s as [|c s]; [by intros [= <-]|].
  assert (Hpush : forall t w r, (String.length r <= String.length s)%nat ->
    (l ← tokenize_from fuel (at_ + w) r; POk (mkSpanned t at_ :: l)) = POk tokens ->
    (length tokens <= S (String.length s))%nat).
  { intros t w r Hr. destruct (tokenize_from fuel (at_ + w) r) as [l|e|] eqn:E; cbn; try done.
    intros [= <-]. apply IH in E. cbn. lia. }
  cbn [tokenize_from String.length]. destruct (is_blank c); [intros H%IH; lia|].
  destruct (symbol c) as [t|]; [by apply Hpush|]. destruct (is_number_part c) eqn:En.
  - pose proof (span_shorter is_number_part c s En). destruct (span is_number_part (String c s)) as [text r].
    destruct (parse_f64 text); [by apply Hpush|done].
  - destruct (is_name_start c) eqn:Es; [|done].
    assert (Hc : is_name_part c = true) by (unfold is_name_part, is_name_start in *; destruct (is_alpha c), (is_digit c); done).
    pose proof (span_shorter is_name_part c s Hc). destruct (span is_name_part (String c s)) as [text r].
    by apply Hpush.
Qed.

(** C33. Every source is parsed or refused with an error. The parser makes at most
    four calls for each token, the rounds of its loops included, and three more,
    whether it succeeds or fails; and in what is parsed every call has a number of
    arguments that its function takes, so that no argument is missing. *)
Theorem every_source_is_parsed source :
  (forall tokens, tokenize source = POk tokens ->
     (length tokens <= String.length source)%nat
     /\ (calls (whole_expression tokens) <= 4 * length tokens + 3)%nat)
  /\ match parse source with
     | POk e => well_formed e = true
     | PErr _ => True
     | OutOfFuel => False
     end.
Proof.
  unfold parse, tokenize. pose proof (tokenize_total (S (String.length source)) 0 source ltac:(lia)) as H.
  pose proof (tokenize_length (S (String.length source)) 0 source) as Hl.
  destruct (tokenize_from _ _ _) as [tokens|e|]; [|done|done].
  destruct (parse_tokens_total tokens) as [Hc Ht]. split; [|exact Ht].
  intros l [= <-]. split; [by apply Hl|exact Hc].
Qed.

(** ** Printing *)

Definition op_token (op : BinOp) : Token :=
  match op with OpAdd => Plus | OpSub => Minus | OpMul => Star | OpDiv => Slash end.

(** An expression written out, with parentheses around every operation. *)
Fixpoint print (e : Expr) : list Token :=
  match e with
  | Const v => [Number v]
  | Read i => [Name (input_name i)]
  | Neg e => Minus :: print e
  | Bin op l r => Open_ :: print l ++ op_token op :: print r ++ [Close]
  | Call f args =>
      Name (func_name f) :: Open_
        :: (fix list l :=
              match l with
              | [] => []
              | a :: l' => print a ++ match l' with [] => [] | _ => Comma :: list l' end
              end) args ++ [Close]
  end.

Fixpoint print_list (l : list Expr) : list Token :=
  match l with
  | [] => []
  | a :: l' => print a ++ match l' with [] => [] | _ => Comma :: print_list l' end
  end.

(** The levels that parsing what is printed takes. *)
Fixpoint levels (e : Expr) : nat :=
  match e with
  | Const _ | Read _ => 0
  | Neg e => S (levels e)
  | Bin _ l r => 2 + Nat.max (levels l) (S (levels r))
  | Call _ args => 2 + foldr (fun a m => Nat.max (levels a) m) 0%nat args
  end.

Lemma print_call f args : print (Call f args) = Name (func_name f) :: Open_ :: print_list args ++ [Close].
Proof. reflexivity. Qed.

Lemma print_nonempty e : (1 <= length (print e))%nat.
Proof. destruct e; cbn; rewrite ?length_app; cbn; lia. Qed.

Lemma func_names f : named_value (func_name f) = None /\ func_parse (func_name f) = Some f.
Proof. by destruct f. Qed.
Lemma input_names i : named_value (input_name i) = Some (Read i).
Proof. by destruct i. Qed.

(** One step of a parse that is followed to its end. *)
Ltac parse_step :=
  do 2 (cbn [parsed call free mbind presult_mbind mret counted_mret]; rewrite ?parsed_bind);
  cbn [parsed call free mbind presult_mbind mret counted_mret].

Section printing.
Variable tokens : list Spanned.
Let T := sp_token <$> tokens.

Lemma peek_mid l1 t l2 : T = l1 ++ t :: l2 -> peek tokens (length l1) = Some t.
Proof.
  intros E. unfold peek. pose proof (nth_error_map sp_token (length l1) tokens) as H.
  change (map sp_token tokens) with T in H. rewrite E, nth_error_app2, Nat.sub_diag in H by lia. cbn in H.
  by destruct (nth_error tokens (length l1)).
Qed.

Lemma peek_after l1 l2 l3 : T = l1 ++ l2 ++ l3 -> peek tokens (length l1 + length l2) = hd_error l3.
Proof.
  intros E. rewrite app_assoc in E. rewrite <-length_app. destruct l3 as [|t l3]; [|by eapply peek_mid].
  unfold peek. rewrite app_nil_r in E. assert (Hl : length tokens = length (l1 ++ l2)).
  { rewrite <-E. unfold T. by rewrite length_fmap. }
  destruct (nth_error tokens (length (l1 ++ l2))) eqn:Es; [|done].
  assert (length (l1 ++ l2) < length tokens)%nat by (apply nth_error_Some; congruence). lia.
Qed.

(** What follows does not continue an expression. *)
Definition ends (mb : Z) (l : list Token) : Prop :=
  match hd_error l ≫= operator with Some (_, b) => b < mb | None => True end.

(** [unary] reads an expression back wherever it stands. *)
Definition reads_back (e : Expr) : Prop :=
  forall l1 l2 d fuel, T = l1 ++ print e ++ l2 -> (4 * length (print e) <= fuel)%nat ->
    (d + levels e <= MAX_DEPTH)%nat -> well_formed e = true ->
    parsed (unary tokens fuel d (length l1)) = POk (e, (length l1 + length (print e))%nat).

Lemma deeper_ok d p : (S d <= MAX_DEPTH)%nat -> deeper tokens d p = POk (S d).
Proof. intros H. unfold deeper. destruct (Nat.ltb_spec MAX_DEPTH (S d)); [lia|done]. Qed.

Lemma climb_stops mb d e l1 l2 l3 fuel :
  T = l1 ++ l2 ++ l3 -> ends mb l3 ->
  parsed (climb tokens (S fuel) mb d e (length l1 + length l2)) = POk (e, (length l1 + length l2)%nat).
Proof.
  intros E H. cbn [climb]. parse_step. rewrite (peek_after _ _ _ E). unfold ends in H.
  destruct (hd_error l3 ≫= operator) as [[op b]|]; [|done]. by destruct (Z.ltb_spec b mb); [|lia].
Qed.

Lemma expression_reads_back e mb l1 l2 d fuel :
  reads_back e -> T = l1 ++ print e ++ l2 -> ends mb l2 -> (4 * length (print e) < fuel)%nat ->
  (S d + levels e <= MAX_DEPTH)%nat -> well_formed e = true ->
  parsed (expression tokens fuel mb d (length l1)) = POk (e, (length l1 + length (print e))%nat).
Proof.
  intros H E He Hf Hd Hw. destruct fuel as [|fuel]; [lia|]. cbn [expression]. parse_step.
  rewrite deeper_ok by lia. parse_step.
  rewrite (H l1 l2) by (done || lia). parse_step.
  pose proof (print_nonempty e). destruct fuel as [|fuel]; [lia|]. by apply climb_stops with (l3 := l2).
Qed.

Lemma expect_mid l1 t l2 m : T = l1 ++ t :: l2 -> token_is t t = true -> expect tokens t m (length l1) = POk (S (length l1)).
Proof. intros E H. unfold expect. rewrite (peek_mid _ _ _ E). by rewrite H. Qed.

Lemma next_is_mid l1 t l2 t' : T = l1 ++ t :: l2 -> next_is tokens t' (length l1) = token_is t t'.
Proof. intros E. unfold next_is. by rewrite (peek_mid _ _ _ E). Qed.

Lemma op_token_operator op : exists b, operator (op_token op) = Some (op, b) /\ 1 <= b.
Proof. destruct op; eexists; split; done || lia. Qed.

(** The operation inside the parentheses. *)
Lemma operation_reads_back op l r l1 l2 d fuel :
  reads_back l -> reads_back r -> T = l1 ++ print l ++ op_token op :: print r ++ Close :: l2 ->
  (4 * (length (print l) + length (print r)) + 8 <= fuel)%nat ->
  (S d + Nat.max (levels l) (S (levels r)) <= MAX_DEPTH)%nat -> well_formed (Bin op l r) = true ->
  parsed (expression tokens fuel 0 d (length l1))
  = POk (Bin op l r, (length l1 + length (print l) + 1 + length (print r))%nat).
Proof.
  intros Hl Hr E Hf Hd Hw. cbn [well_formed] in Hw. apply andb_true_iff in Hw as [Hwl Hwr].
  destruct fuel as [|[|fuel]]; [lia..|]. cbn [expression]. parse_step. rewrite deeper_ok by lia. parse_step.
  rewrite (Hl _ _ _ _ E) by (done || lia). cbn [mbind presult_mbind climb]. rewrite (peek_after _ _ _ E).
  cbn [hd_error mbind option_bind]. destruct (op_token_operator op) as (b & -> & Hb).
  destruct (Z.ltb_spec b 0); [lia|].
  assert (E' : T = (l1 ++ print l ++ [op_token op]) ++ print r ++ Close :: l2) by (rewrite E, <-!app_assoc; done).
  replace (S (length l1 + length (print l))) with (length (l1 ++ print l ++ [op_token op]))
    by (rewrite !length_app; cbn; lia).
  parse_step. rewrite (expression_reads_back r (b + 1) _ _ _ _ Hr E') by (done || lia). parse_step.
  destruct fuel as [|fuel]; [lia|].
  rewrite (climb_stops _ _ _ _ _ _ _ E') by done. rewrite !length_app. cbn [length]. do 2 f_equal. lia.
Qed.

(** An operation between parentheses. *)
Lemma bin_reads_back op l r : reads_back l -> reads_back r -> reads_back (Bin op l r).
Proof.
  intros Hl Hr l1 l2 d fuel E Hf Hd Hw. cbn [levels] in Hd.
  assert (Hlen : length (print (Bin op l r)) = (length (print l) + length (print r) + 3)%nat).
  { cbn [print length]. rewrite length_app. cbn [length]. rewrite length_app. cbn. lia. }
  rewrite Hlen in Hf |- *. destruct fuel as [|[|fuel]]; [lia..|].
  assert (E1 : T = l1 ++ Open_ :: (print l ++ op_token op :: print r ++ Close :: l2)).
  { rewrite E. cbn [print app]. rewrite <-!app_assoc. cbn [app]. by rewrite <-app_assoc. }
  assert (E2 : T = (l1 ++ [Open_]) ++ print l ++ op_token op :: print r ++ Close :: l2) by (rewrite E1, <-app_assoc; done).
  cbn [unary]. parse_step. rewrite (next_is_mid _ _ _ Minus E1). cbn [token_is primary]. parse_step.
  rewrite (peek_mid _ _ _ E1), deeper_ok by lia. parse_step.
  replace (S (length l1)) with (length (l1 ++ [Open_])) by (rewrite length_app; cbn; lia).
  rewrite (operation_reads_back op l r _ _ _ _ Hl Hr E2) by (done || lia). parse_step.
  assert (E3 : T = ((l1 ++ [Open_]) ++ print l ++ op_token op :: print r) ++ Close :: l2)
    by (rewrite E2, <-!app_assoc; done).
  replace (length (l1 ++ [Open_]) + length (print l) + 1 + length (print r))%nat
    with (length ((l1 ++ [Open_]) ++ print l ++ op_token op :: print r)) by (rewrite !length_app; cbn; lia).
  rewrite (expect_mid _ _ _ _ E3) by done. parse_step. rewrite !length_app. cbn [length]. do 2 f_equal. lia.
Qed.

(** The loop over the arguments. *)
Lemma arguments_read_back args : args <> [] -> Forall reads_back args ->
  forall l1 l2 d fuel acc, T = l1 ++ print_list args ++ Close :: l2 ->
    (4 * length (print_list args) + 2 <= fuel)%nat ->
    (2 + d + foldr (fun a m => Nat.max (levels a) m) 0 args <= MAX_DEPTH)%nat ->
    forallb well_formed args = true ->
    parsed (arguments tokens fuel d acc (length l1)) = POk (acc ++ args, (length l1 + length (print_list args))%nat).
Proof.
  intros Hne H. induction H as [|a args Ha Hargs IH]; [done|]. intros l1 l2 d fuel acc E Hf Hd Hw.
  cbn [forallb] in Hw. apply andb_true_iff in Hw as [Hwa Hw]. cbn [foldr] in Hd.
  destruct fuel as [|fuel]; [lia|]. cbn [arguments]. parse_step. rewrite deeper_ok by lia. parse_step.
  pose proof (print_nonempty a) as Hna. destruct args as [|b args].
  - cbn [print_list] in E, Hf |- *. rewrite app_nil_r in E, Hf |- *.
    rewrite (expression_reads_back a 0 _ _ _ _ Ha E) by (done || lia). parse_step.
    unfold next_is. by rewrite (peek_after _ _ _ E).
  - cbn [print_list] in E, Hf |- *. fold (print_list (b :: args)) in E, Hf |- *.
    change (print b ++ match args with [] => [] | _ => Comma :: print_list args end) with (print_list (b :: args)) in *.
    rewrite length_app in Hf |- *. cbn [length] in Hf |- *. rewrite <-app_assoc in E. cbn [app] in E.
    rewrite (expression_reads_back a 0 _ _ _ _ Ha E) by (done || lia). parse_step.
    unfold next_is. rewrite (peek_after _ _ _ E). cbn [hd_error token_is].
    assert (E' : T = (l1 ++ print a ++ [Comma]) ++ print_list (b :: args) ++ Close :: l2)
      by (rewrite E, <-!app_assoc; done).
    replace (S (length l1 + length (print a))) with (length (l1 ++ print a ++ [Comma])) by (rewrite !length_app; cbn; lia).
    rewrite (IH ltac:(done) _ _ _ _ _ E') by (done || lia).
    rewrite <-app_assoc, !length_app. cbn [app length]. do 2 f_equal. lia.
Qed.

Lemma call_reads_back f args : Forall reads_back args -> reads_back (Call f args).
Proof.
  intros H l1 l2 d fuel E Hf Hd Hw. rewrite print_call in E, Hf |- *. cbn [levels] in Hd.
  cbn [well_formed] in Hw. apply andb_true_iff in Hw as [Har Hw]. apply bool_decide_eq_true in Har.
  assert (Hne : args <> []) by (intros ->; destruct f; cbn in Har; set_solver).
  cbn [app] in E. rewrite <-app_assoc in E. cbn [app] in E. cbn [length] in Hf |- *. rewrite length_app in Hf |- *.
  cbn [length] in Hf |- *. destruct fuel as [|[|fuel]]; [lia..|]. destruct (func_names f) as [Hn Hp].
  assert (E1 : T = (l1 ++ [Name (func_name f)]) ++ Open_ :: print_list args ++ Close :: l2) by (rewrite E, <-app_assoc; done).
  assert (E2 : T = (l1 ++ [Name (func_name f); Open_]) ++ print_list args ++ Close :: l2) by (rewrite E, <-app_assoc; done).
  assert (E3 : T = (l1 ++ [Name (func_name f); Open_] ++ print_list args) ++ Close :: l2) by (rewrite E, <-!app_assoc; done).
  cbn [unary]. parse_step. rewrite (next_is_mid _ _ _ Minus E). cbn [token_is primary]. parse_step. rewrite (peek_mid _ _ _ E), Hn, Hp.
  replace (S (length l1)) with (length (l1 ++ [Name (func_name f)])) by (rewrite length_app; cbn; lia).
  rewrite (expect_mid _ _ _ _ E1) by done. parse_step.
  replace (S (length (l1 ++ [Name (func_name f)]))) with (length (l1 ++ [Name (func_name f); Open_]))
    by (rewrite !length_app; cbn; lia).
  assert (Hclose : next_is tokens Close (length (l1 ++ [Name (func_name f); Open_])) = false).
  { destruct args as [|[] args]; try done; cbn [print_list print app] in E2;
      rewrite (next_is_mid _ _ _ _ E2); done. }
  rewrite Hclose. parse_step. rewrite (arguments_read_back args Hne H _ _ _ _ _ E2) by (done || lia). parse_step. cbn [app].
  replace (length (l1 ++ [Name (func_name f); Open_]) + length (print_list args))%nat
    with (length (l1 ++ [Name (func_name f); Open_] ++ print_list args)) by (rewrite !length_app; cbn; lia).
  rewrite (expect_mid _ _ _ _ E3) by done. parse_step. rewrite bool_decide_eq_true_2 by done. parse_step.
  rewrite !length_app. cbn [length]. do 2 f_equal. lia.
Qed.

Lemma all_read_back e : reads_back e.
Proof.
  induction e as [v|i|e IH|op l r IHl IHr|f args IH] using expr_induction.
  - intros l1 l2 d fuel E Hf _ _. destruct fuel as [|[|fuel]]; [cbn in Hf; lia..|]. cbn [print app] in E.
    cbn [unary]. parse_step. rewrite (next_is_mid _ _ _ Minus E). cbn [token_is primary]. parse_step. rewrite (peek_mid _ _ _ E).
    cbn. do 2 f_equal. lia.
  - intros l1 l2 d fuel E Hf _ _. destruct fuel as [|[|fuel]]; [cbn in Hf; lia..|]. cbn [print app] in E.
    cbn [unary]. parse_step. rewrite (next_is_mid _ _ _ Minus E). cbn [token_is primary]. parse_step. rewrite (peek_mid _ _ _ E), input_names.
    cbn. do 2 f_equal. lia.
  - intros l1 l2 d fuel E Hf Hd Hw. cbn [print app length levels] in *. destruct fuel as [|fuel]; [lia|].
    cbn [unary]. parse_step. rewrite (next_is_mid _ _ _ Minus E). cbn [token_is]. parse_step. rewrite deeper_ok by lia. parse_step.
    rewrite (cons_middle Minus), app_assoc in E.
    replace (S (length l1)) with (length (l1 ++ [Minus])) by (rewrite length_app; cbn; lia).
    rewrite (IH _ _ _ _ E) by (done || lia). parse_step. rewrite length_app. cbn. do 2 f_equal. lia.
  - by apply bin_reads_back.
  - by apply call_reads_back.
Qed.
End printing.

(** C34. An expression that is written out with parentheses is parsed back exactly
    as it was, wherever its tokens come from, as long as its nesting is within
    the limit. *)
Theorem printed_expressions_are_parsed_back e tokens :
  sp_token <$> tokens = print e -> well_formed e = true -> (levels e < MAX_DEPTH)%nat ->
  parse_tokens tokens = POk e.
Proof.
  intros E Hw Hl. unfold parse_tokens, whole_expression. parse_step.
  assert (Hn : length tokens = length (print e)) by (rewrite <-E; by rewrite length_fmap).
  pose proof (expression_reads_back tokens e 0 [] [] 0 (4 * length tokens + 4) (all_read_back tokens e)) as H.
  cbn [length] in H. rewrite H; [|by rewrite app_nil_r|done|lia|lia|done].
  parse_step. destruct (Nat.ltb_spec (0 + length (print e)) (length tokens)); [lia|done].
Qed.

(** ** Long sums *)

Definition one : f64 := decimal_f64 1 1.

Fixpoint plus_ones (n : nat) : string := match n with O => "" | S n => String "+" (String "1" (plus_ones n)) end.
Fixpoint sum_tokens (n : nat) : list Token := match n with O => [] | S n => Plus :: Number one :: sum_tokens n end.
Fixpoint sum_of (n : nat) (e : Expr) : Expr := match n with O => e | S n => sum_of n (Bin OpAdd e (Const one)) end.

Fixpoint height (e : Expr) : nat :=
  match e with
  | Const _ | Read _ => 1
  | Neg e => S (height e)
  | Bin _ l r => S (Nat.max (height l) (height r))
  | Call _ args => S (foldr (fun a m => Nat.max (height a) m) 0%nat args)
  end.

Lemma height_pos e : (1 <= height e)%nat.
Proof. destruct e; cbn; lia. Qed.

Lemma sum_height n e : height (sum_of n e) = (n + height e)%nat.
Proof.
  revert e. induction n as [|n IH]; intros e; cbn; [done|]. rewrite IH. cbn. pose proof (height_pos e). lia.
Qed.

Lemma span_one n : span is_number_part (String "1" (plus_ones n)) = ("1", plus_ones n).
Proof. by destruct n. Qed.

Lemma tokenize_plus_ones n : forall fuel at_, (2 * n < fuel)%nat ->
  exists tokens, tokenize_from fuel at_ (plus_ones n) = POk tokens /\ sp_token <$> tokens = sum_tokens n.
Proof.
  induction n as [|n IH]; intros fuel at_ H; (destruct fuel as [|fuel]; [lia|]); [by exists []|].
  destruct fuel as [|fuel]; [lia|].
  destruct (IH fuel (at_ + 1 + 1)%nat ltac:(lia)) as (tokens & Ht & E).
  exists (mkSpanned Plus at_ :: mkSpanned (Number one) (at_ + 1) :: tokens). split; [|cbn; by rewrite E].
  cbn [plus_ones tokenize_from]. change (is_blank "+") with false. change (symbol "+") with (Some Plus).
  cbn iota. change (is_blank "1") with false. change (symbol "1") with (@None Token).
  change (is_number_part "1") with true. cbn iota. rewrite span_one.
  change (parse_f64 "1") with (Some one). cbn iota. change (String.length "1") with 1%nat. by rewrite Ht.
Qed.

Lemma climb_sum tokens k : forall l1 e d fuel, sp_token <$> tokens = l1 ++ sum_tokens k -> (k + 6 <= fuel)%nat ->
  (d < MAX_DEPTH)%nat ->
  parsed (climb tokens fuel 0 d e (length l1)) = POk (sum_of k e, (length l1 + 2 * k)%nat).
Proof.
  induction k as [|k IH]; intros l1 e d fuel E Hf Hd; (destruct fuel as [|fuel]; [lia|]); cbn [climb].
  - rewrite <-(Nat.add_0_r (length l1)) at 1. change 0%nat with (length (@nil Token)) at 1.
    rewrite (peek_after tokens l1 [] []) by (by rewrite E). cbn. do 2 f_equal; lia.
  - cbn [sum_tokens] in E. rewrite (peek_mid tokens _ _ _ E). cbn [mbind option_bind operator].
    change (1 <? 0) with false. cbn iota. change (1 + 1) with 2.
    rewrite (cons_middle Plus), app_assoc in E.
    assert (E' : sp_token <$> tokens = (l1 ++ [Plus]) ++ print (Const one) ++ sum_tokens k) by exact E.
    replace (S (length l1)) with (length (l1 ++ [Plus])) by (rewrite length_app; cbn; lia).
    parse_step. rewrite (expression_reads_back tokens (Const one) 2 _ _ _ _ (all_read_back tokens _) E');
      [|by destruct k|cbn; lia|cbn; lia|done].
    parse_step.
    assert (E2 : sp_token <$> tokens = ((l1 ++ [Plus]) ++ print (Const one)) ++ sum_tokens k) by (by rewrite <-app_assoc).
    replace (length (l1 ++ [Plus]) + length (print (Const one)))%nat with (length ((l1 ++ [Plus]) ++ print (Const one)))
      by (rewrite !length_app; done).
    rewrite (IH _ _ _ _ E2) by lia. rewrite !length_app. cbn [length print sum_of]. do 2 f_equal. lia.
Qed.

(** C38. The limit on nesting does not bound what is parsed: a sum of any number of
    terms is accepted, and is as deep as it is long, so that evaluating it
    recurses that deep. *)
Theorem sums_of_any_depth_are_parsed n :
  exists e, parse (String "1" (plus_ones n)) = POk e /\ height e = S n.
Proof.
  exists (sum_of n (Const one)). split; [|rewrite sum_height; cbn; lia].
  destruct (tokenize_plus_ones n (S (2 * n)) 1%nat ltac:(lia)) as (tokens & Ht & E).
  assert (Hl : String.length (plus_ones n) = (2 * n)%nat) by (clear; induction n as [|n IH]; cbn in *; lia).
  set (all := mkSpanned (Number one) 0 :: tokens).
  assert (Htok : tokenize (String "1" (plus_ones n)) = POk all).
  { unfold tokenize. cbn [String.length]. rewrite Hl. cbn [tokenize_from].
    change (is_blank "1") with false. change (symbol "1") with (@None Token).
    change (is_number_part "1") with true. cbn iota. rewrite span_one. change (parse_f64 "1") with (Some one).
    cbn iota. change (0 + String.length "1")%nat with 1%nat.
    cbn [tokenize_from] in Ht. by rewrite Ht. }
  assert (Ea : sp_token <$> all = [Number one] ++ sum_tokens n) by (cbn; by rewrite E).
  assert (Hn : length all = (2 * n + 1)%nat).
  { rewrite <-(length_fmap sp_token), Ea. cbn. clear. induction n as [|n IH]; cbn in *; lia. }
  unfold parse. rewrite Htok. cbn [mbind presult_mbind]. unfold parse_tokens, whole_expression. parse_step.
  replace (4 * length all + 4)%nat with (S (8 * n + 7)) by lia. cbn [expression]. parse_step.
  change (deeper all 0 0) with (@POk nat 1%nat). parse_step.
  pose proof (all_read_back all (Const one) [] (sum_tokens n) 1%nat (8 * n + 7)%nat Ea) as Hu.
  cbn [length] in Hu. rewrite Hu by (done || (unfold MAX_DEPTH; cbn [length print levels]; lia)).
  parse_step. change (0 + length (print (Const one)))%nat with (length [Number one]).
  rewrite (climb_sum all n _ _ _ _ Ea) by (unfold MAX_DEPTH; lia). cbn [length mbind presult_mbind].
  destruct (Nat.ltb_spec (1 + 2 * n) (length all)); [lia|done].
Qed.

Lemma printed_expressions_are_parsed_back_witness :
  let e := Bin OpMul (Call Clamp [Read InS; Neg (Read InTime); Const one]) (Bin OpSub (Read InT) (Const one)) in
  parse_tokens (map (fun t => mkSpanned t 0%nat) (print e)) = POk e.
Proof.
  apply printed_expressions_are_parsed_back;
    [reflexivity|vm_compute; reflexivity|apply Nat.ltb_lt; vm_compute; reflexivity].
Defined.

(** The example of the specification of the language, and two refusals. *)
Example specified_expression :
  match parse "0.3 + 0.1 * sin(tau * time)" with POk e => tier e = PerStep | _ => False end
  /\ parse "noise(s, t" = PErr (mkExprError "an unclosed argument list" 9)
  /\ parse "pulse(1,2,3)" = PErr (mkExprError "`pulse` takes 1 or 2 argument(s), not 3" 0).
Proof. vm_compute. repeat split. Qed.
