(* ===== verification/Highlight.v ===== *)
(** * Highlights: common/src/highlight.rs, second part

    The scoring of windows of a recording, the choice of the best one and the
    clip cut around it, with the verification of a clip; and the choice the
    executor makes for a finished match.

    The loops over quanta have the fuel of [Engine]; a body whose corners are not
    aligned makes [expanded_body_cells] run forever, which is [None] too. Integer
    arithmetic wraps around as in a release build. *)

From Stdlib Require Import ZArith SpecFloat.
From stdpp Require Import prelude strings countable list gmap sorting.
From S2P Require Import Prelude RustFloat Util Snake Arena CommandQueue GameState GameSetup.
From S2P Require Import Events Validate Tick Fingerprint Engine StreamId Recording.
Open Scope Z_scope.

(** ** Runs that may not return *)

Definition Run (A : Type) : Type := option (Result A).
Definition returns {A} (a : A) : Run A := Some (Ok a).

Definition andThen {A B} (m : Run A) (f : A -> Run B) : Run B :=
  match m with
  | None => None
  | Some (Ok a) => f a
  | Some r => Some (recast r)
  end.

Declare Scope run_scope.
Notation "x <~ m ; k" := (andThen m (fun x => k))
  (at level 20, m at level 100, k at level 200, right associativity) : run_scope.
Open Scope run_scope.

(** A computation that cannot fail but may not end. *)
Definition ends {A} (o : option A) : Run A := Ok <$> o.

(** ** Data *)

Definition MAX_HIGHLIGHT_SELECTION_TICKS : Z := 24000.
Definition MAX_HIGHLIGHT_SELECTION_MESSAGES : Z := 32000.

Inductive HighlightReason :=
| HR_BoostedCutoff (kills : Z)
| HR_TrapKill (kills : Z)
| HR_Demolition (kills : Z)
| HR_GoalRun (points : Z)
| HR_ComboFrenzy (max_chain : Z)
| HR_FeedingFrenzy (pickups : Z).

Record HighlightWindow := mkWindow {
  hw_start_tick : Z;
  hw_end_tick : Z;
  hw_focus_tick : Z
}.

Record HighlightSpeedSegment := mkSegment {
  ss_until_tick : Z;
  ss_time_scale : spec_float
}.

Record HighlightPresentation := mkPresentation {
  pn_rotation : Z;
  pn_follow_snake_id : Z;
  pn_segments : list HighlightSpeedSegment
}.

Record HighlightConfig := mkHighlightConfig {
  hc_rules_version : Z;
  hc_minimum_score : Z;
  hc_elimination : Z;
  hc_mutual_trade : Z;
  hc_boosted_kill : Z;
  hc_cutoff : Z;
  hc_proximity : Z;
  hc_trap : Z;
  hc_laden_per_point : Z;
  hc_laden_cap : Z;
  hc_teammate_kill : Z;
  hc_banked_per_point : Z;
  hc_big_carry : Z;
  hc_combo_step : Z;
  hc_nick_of_time : Z;
  hc_boosted_pickup : Z;
  hc_feeding_frenzy : Z;
  hc_death : Z
}.

Definition HighlightConfig_default : HighlightConfig :=
  {| hc_rules_version := 2; hc_minimum_score := 120; hc_elimination := 90; hc_mutual_trade := 60;
     hc_boosted_kill := 40; hc_cutoff := 30; hc_proximity := 20; hc_trap := 30;
     hc_laden_per_point := 4; hc_laden_cap := 50; hc_teammate_kill := -80;
     hc_banked_per_point := 6; hc_big_carry := 50; hc_combo_step := 21; hc_nick_of_time := 10;
     hc_boosted_pickup := 5; hc_feeding_frenzy := 20; hc_death := -60 |}.

Record HighlightScoreBreakdown := mkBreakdown {
  hb_total : Z;
  hb_focus_tick : Z;
  hb_kills : Z;
  hb_boosted_cutoff_kills : Z;
  hb_trap_kills : Z;
  hb_banked_points : Z;
  hb_max_chain : Z;
  hb_pickups : Z;
  hb_demolition_points : Z;
  hb_banking_points : Z;
  hb_combo_points : Z;
  hb_focus_value : Z
}.

Definition breakdown_default : HighlightScoreBreakdown :=
  mkBreakdown 0 0 0 0 0 0 0 0 0 0 0 0.

Record HighlightClip := mkClip {
  cl_clip_format_version : Z;
  cl_gameplay_version : Z;
  cl_game_id : Z;
  cl_star_user_id : Z;
  cl_star_snake_id : Z;
  cl_star_name : string;
  cl_reason : HighlightReason;
  cl_score : Z;
  cl_breakdown : HighlightScoreBreakdown;
  cl_window : HighlightWindow;
  cl_anchor : GameState;
  cl_messages : list RecordedGameMessage;
  cl_end_sync_hash : Z;
  cl_presentation : HighlightPresentation;
  cl_config : HighlightConfig
}.

Record Observation := mkObservation {
  ob_tick : Z;
  ob_event : GameEvent;
  ob_before : GameState
}.

(** ** Arithmetic *)

Definition i32_add (a b : Z) : Z := wrap_i32 (a + b).
Definition i32_mul (a b : Z) : Z := wrap_i32 (a * b).

Definition tick_ms_of (st : GameState) : Z := Z.max (gs_tick_duration_ms st) 1.

(** ** Focus and reason *)

Definition add_focus (tick value : Z) (b : HighlightScoreBreakdown) : HighlightScoreBreakdown :=
  if (hb_focus_value b <? value) || ((value =? hb_focus_value b) && (tick <? hb_focus_tick b))
  then {| b with hb_focus_tick := tick; hb_focus_value := value |} else b.

Definition reason_of (b : HighlightScoreBreakdown) : HighlightReason :=
  if (hb_banking_points b <=? hb_demolition_points b)
     && (hb_combo_points b <=? hb_demolition_points b) && (0 <? hb_kills b)
  then if 0 <? hb_boosted_cutoff_kills b then HR_BoostedCutoff (hb_kills b)
       else if 0 <? hb_trap_kills b then HR_TrapKill (hb_kills b)
       else HR_Demolition (hb_kills b)
  else if (hb_combo_points b <=? hb_banking_points b) && (0 <? hb_banked_points b)
  then HR_GoalRun (hb_banked_points b)
  else if 1 <? hb_max_chain b then HR_ComboFrenzy (hb_max_chain b)
  else HR_FeedingFrenzy (hb_pickups b).

(** ** Geometry *)

Definition advance_position (p : Position) (d : Direction) (distance : Z) : Position :=
  match d with
  | Up => mkPos (px p) (wrap_i16 (py p - distance))
  | Down => mkPos (px p) (wrap_i16 (py p + distance))
  | Left => mkPos (wrap_i16 (px p - distance)) (py p)
  | Right => mkPos (wrap_i16 (px p + distance)) (py p)
  end.

Definition outside (st : GameState) (p : Position) : bool :=
  (px p <? 0) || (py p <? 0) || (wrap_i16 (width (gs_arena st)) <=? px p)
  || (wrap_i16 (height (gs_arena st)) <=? py p).

(** [while (x, y) != to { .. }]: one round for every value of a coordinate is
    enough if it ends at all. *)
Fixpoint walk_cells (fuel : nat) (p to : Position) (dx dy : Z) (cells : gset Position)
  : option (gset Position) :=
  if bool_decide (p = to) then Some cells
  else match fuel with
  | O => None
  | S fuel =>
      let p := mkPos (wrap_i16 (px p + dx)) (wrap_i16 (py p + dy)) in
      walk_cells fuel p to dx dy ({[p]} ∪ cells)
  end.

Definition walk_fuel : nat := Z.to_nat (2 ^ 16).

Definition pair_cells (p to : Position) (cells : gset Position) : option (gset Position) :=
  let dx := Z.sgn (wrap_i16 (px to - px p)) in
  let dy := Z.sgn (wrap_i16 (py to - py p)) in
  walk_cells walk_fuel p to dx dy ({[p]} ∪ cells).

Fixpoint windows_cells (body : list Position) (cells : gset Position) : option (gset Position) :=
  match body with
  | p :: ((q :: _) as rest) => pair_cells p q cells ≫= windows_cells rest
  | _ => Some cells
  end.

Definition expanded_body_cells (body : list Position) : option (gset Position) :=
  cells ← windows_cells body ∅;
  Some match body with [p] => {[p]} ∪ cells | _ => cells end.

(** Every cell of the field. *)
Definition field_cells (st : GameState) : list Position :=
  y ← seqZ 0 (wrap_i16 (height (gs_arena st)));
  x ← seqZ 0 (wrap_i16 (width (gs_arena st)));
  [mkPos x y].

Definition team_of_snake (st : GameState) (snake_id : Z) : option TeamId :=
  vec_get (gs_snakes st) snake_id ≫= sn_team_id.

Definition head_of (st : GameState) (snake_id : Z) : option Position :=
  vec_get (gs_snakes st) snake_id ≫= fun s => match head s with Ok p => Some p | _ => None end.

Fixpoint bodies_cells (l : list Snake) (cells : gset Position) : option (gset Position) :=
  match l with
  | [] => Some cells
  | s :: l =>
      if is_alive s
      then body ← expanded_body_cells (body s); bodies_cells l (body ∪ cells)
      else bodies_cells l cells
  end.

Definition blocked_for (st : GameState) (team : option TeamId) (p : Position) : bool :=
  is_wall_position (gs_arena st) p
  || match team with Some t => is_in_enemy_base (gs_arena st) p t | None => false end.

Definition obstacle_cells (st : GameState) (victim : Z) : option (gset Position) :=
  cells ← bodies_cells (gs_snakes st) ∅;
  let victim_team := team_of_snake st victim in
  Some (cells ∪ list_to_set (filter (fun p => blocked_for st victim_team p = true) (field_cells st))).

Definition reach_visit (st : GameState) (obstacles : gset Position) (point : Position)
    (state : list Position * gset Position) (d : Direction) : list Position * gset Position :=
  let '(queue, seen) := state in
  let next := advance_position point d 1 in
  if negb (outside st next) && bool_decide (next ∉ obstacles) && bool_decide (next ∉ seen)
  then (queue ++ [next], {[next]} ∪ seen) else (queue, seen).

Definition four_directions : list Direction := [Up; Down; Left; Right].

(** At most [limit] cells are taken from the queue. *)
Fixpoint reach_loop (fuel : nat) (st : GameState) (obstacles : gset Position) (limit : nat)
    (queue : list Position) (seen : gset Position) : option (gset Position) :=
  match fuel with
  | O => None
  | S fuel =>
      match queue with
      | [] => Some seen
      | point :: queue =>
          if (limit <=? size seen)%nat then Some seen
          else
            let '(queue, seen) :=
              foldl (reach_visit st obstacles point) (queue, seen) four_directions in
            reach_loop fuel st obstacles limit queue seen
      end
  end.

Definition reachable_cells (st : GameState) (victim : Z) (limit : nat) : option (gset Position) :=
  match head_of st victim with
  | None => Some ∅
  | Some start =>
      obstacles ← obstacle_cells st victim;
      reach_loop (S limit) st obstacles limit [start] {[start]}
  end.

(** [i16::abs] wraps on its minimum. *)
Definition i16_abs (z : Z) : Z := wrap_i16 (Z.abs z).

Definition heads_within (st : GameState) (a b distance : Z) : bool :=
  match head_of st a, head_of st b with
  | Some p, Some q =>
      Z.max (i16_abs (wrap_i16 (px p - px q))) (i16_abs (wrap_i16 (py p - py q))) <=? distance
  | _, _ => false
  end.

Definition same_team (st : GameState) (a b : Z) : bool :=
  match team_of_snake st a, team_of_snake st b with
  | Some t, Some t' => t =? t'
  | _, _ => false
  end.

(** ** Windows *)

Definition observations_in_tick_range (l : list Observation) (first last : Z)
  : Result (list Observation) :=
  slice l (partition_point (fun o => ob_tick o <? first) l)
    (partition_point (fun o => ob_tick o <? last) l).

Definition discount_elimination (value : Z) (repeat_ : nat) (victim_active : bool) : Z :=
  let repeat_discounted :=
    match repeat_ with O => value | 1%nat => value ÷ 2 | _ => 0 end in
  if victim_active then repeat_discounted else repeat_discounted ÷ 4.

(** The snake an elimination is credited to. *)
Definition killer_of (cause : DeathCause) : option Z :=
  match cause with
  | DC_SnakeBody killer => Some killer
  | DC_HeadToHead other => Some other
  | _ => None
  end.

Definition is_kill (star victim : Z) (o : Observation) : bool :=
  match ob_event o with
  | Ev_SnakeDied snake_id cause =>
      (snake_id =? victim) && bool_decide (killer_of cause = Some star)
  | _ => false
  end.

Definition prior_kills_of_victim (l : list Observation) (star victim tick window_ms : Z)
  : Result nat :=
  let tick_ms := match l with o :: _ => tick_ms_of (ob_before o) | [] => 100 end in
  let min_tick := sat_sub tick (window_ms / tick_ms) in
  range ← observations_in_tick_range l min_tick tick;
  Ok (length (filter (fun o => is_kill star victim o = true) range)).

(** [iter().filter_map(..).min()] over the players of a snake. *)
Definition owner_of (st : GameState) (snake_id : Z) : option Z :=
  match filter (fun e => pl_snake_id e.2 = snake_id) (map_to_list (gs_players st)) with
  | [] => None
  | e :: l => Some (foldr Z.min e.1 l.*1)
  end.

Definition is_command_of (user_id : Z) (o : Observation) : bool :=
  match ob_event o with
  | Ev_CommandScheduled m | Ev_CommandScheduledV2 _ m _ => cid_user_id (msg_id m) =? user_id
  | _ => false
  end.

Definition victim_was_active (l : list Observation) (st : GameState) (victim tick : Z)
  : Result bool :=
  match owner_of st victim with
  | None => Ok false
  | Some user_id =>
      let min_tick := sat_sub tick (10000 / tick_ms_of st) in
      range ← observations_in_tick_range l min_tick (sat_add_u32 tick 1);
      Ok (existsb (is_command_of user_id) range)
  end.

Definition is_turn_of (star : Z) (o : Observation) : bool :=
  match ob_event o with Ev_SnakeTurned snake_id _ => snake_id =? star | _ => false end.

Definition recent_cutoff (l : list Observation) (st : GameState) (star victim tick : Z)
  : Run bool :=
  let lookback := Z.max (600 / tick_ms_of st) 1 in
  range <~ Some (observations_in_tick_range l (sat_sub tick lookback) (sat_add_u32 tick 1));
  if negb (existsb (is_turn_of star) range) then returns false
  else match vec_get (gs_snakes st) star, vec_get (gs_snakes st) victim with
  | Some star_snake, Some victim_snake =>
      match head victim_snake with
      | Ok h =>
          star_cells <~ ends (expanded_body_cells (body star_snake));
          returns (existsb (fun distance =>
                     bool_decide (advance_position h (direction victim_snake) distance ∈ star_cells))
                     (seqZ 0 13))
      | _ => returns false
      end
  | _, _ => returns false
  end.

(** ** Traps *)

(** The neighbours of a region that block, and those of them in [star_cells]. *)
Definition frontier_of (st : GameState) (obstacles region : gset Position) : list Position :=
  filter (fun p => (bool_decide (p ∈ obstacles) || outside st p) = true)
    (point ← elements region; d ← four_directions; [advance_position point d 1]).

(** [&recording.anchors[0]]. *)
Definition first_anchor (r : GameRecordingV1) : Result ReplayAnchor :=
  match gr_anchors r with a :: _ => Ok a | [] => Panic "index out of bounds" end.

Section scoring.
Context {FL : F32Libm}.
Variable fuel : nat.

Definition trap_signature (r : GameRecordingV1) (current : GameState) (star victim tick : Z)
  : Run bool :=
  first <~ Some (first_anchor r);
  let prior_tick := Z.max (sat_sub tick (2000 / tick_ms_of current)) (ra_tick first) in
  prior <~ state_at_tick_validated fuel r prior_tick;
  current_region <~ ends (reachable_cells current victim 64);
  prior_region <~ ends (reachable_cells prior victim 64);
  let current_reach := Z.of_nat (size current_region) in
  let prior_reach := Z.of_nat (size prior_region) in
  if (15 <=? current_reach) || (prior_reach =? 0) || (prior_reach * 40 <? current_reach * 100)
  then returns false
  else
    star_cells <~ match vec_get (gs_snakes current) star with
                  | Some s => ends (expanded_body_cells (body s))
                  | None => returns ∅
                  end;
    all_obstacles <~ ends (obstacle_cells current victim);
    let blocked := frontier_of current all_obstacles current_region in
    let frontier := Z.of_nat (length blocked) in
    let star_frontier := Z.of_nat (length (filter (fun p => p ∈ star_cells) blocked)) in
    returns ((0 <? frontier) && (frontier * 40 <=? star_frontier * 100)).

(** ** The score of a window *)

Abbreviation TrapCache := (gmap (Z * Z * Z) bool).

Definition cached_trap (r : GameRecordingV1) (o : Observation) (star victim : Z) (cache : TrapCache)
  : Run (bool * TrapCache) :=
  let key := (star, victim, ob_tick o) in
  match cache !! key with
  | Some trapped => returns (trapped, cache)
  | None =>
      trapped <~ trap_signature r (ob_before o) star victim (ob_tick o);
      returns (trapped, <[key := trapped]> cache)
  end.

(** What the loop over deaths carries. *)
Record DeathTally := mkTally {
  dt_result : HighlightScoreBreakdown;
  dt_base_elimination_points : Z;
  dt_kill_ticks : gset Z;
  dt_star_death_ticks : list Z
}.

Definition is_head_to_head (cause : DeathCause) : bool :=
  match cause with DC_HeadToHead _ => true | _ => false end.

(** The star died in the same collision. *)
Definition is_mutual (star victim : Z) (o : Observation) (other : Observation) : bool :=
  (ob_tick other =? ob_tick o)
  && match ob_event other with
     | Ev_SnakeDied other_victim (DC_HeadToHead other_snake) =>
         (other_victim =? star) && (other_snake =? victim)
     | _ => false
     end.

Definition laden_points (config : HighlightConfig) (o : Observation) (victim : Z) : Z :=
  let carried := match vec_get (gs_snakes (ob_before o)) victim with
                 | Some s => carried_food (ob_before o) s
                 | None => 0
                 end in
  Z.min (i32_mul (wrap_i32 carried) (hc_laden_per_point config)) (hc_laden_cap config).

Definition add_demolition (points : Z) (b : HighlightScoreBreakdown) : HighlightScoreBreakdown :=
  {| b with hb_total := i32_add (hb_total b) points;
            hb_demolition_points := i32_add (hb_demolition_points b) points |}.

Definition when (b : bool) (points : Z) : Z := if b then points else 0.

(** An elimination of an opponent by the star. *)
Definition score_kill (r : GameRecordingV1) (observations in_window : list Observation) (star : Z)
    (config : HighlightConfig) (unlimited : bool) (o : Observation) (victim : Z)
    (cause : DeathCause) (t : DeathTally) (cache : TrapCache) : Run (DeathTally * TrapCache) :=
  let before := ob_before o in
  let mutual := is_head_to_head cause && existsb (is_mutual star victim o) in_window in
  let base := if mutual then hc_mutual_trade config else hc_elimination config in
  times <~ Some (prior_kills_of_victim observations star victim (ob_tick o) 30000);
  victim_active <~ Some (victim_was_active observations before victim (ob_tick o));
  let boosting :=
    negb unlimited
    && match vec_get (gs_snakes before) star with Some s => active (boost s) | None => false end in
  cutoff <~ recent_cutoff observations before star victim (ob_tick o);
  trap <~ cached_trap r o star victim cache;
  let '(trapped, cache) := trap in
  let contribution := i32_add base (when boosting (hc_boosted_kill config)) in
  let contribution := i32_add contribution (when cutoff (hc_cutoff config)) in
  let contribution :=
    i32_add contribution (when (heads_within before star victim 3) (hc_proximity config)) in
  let contribution := i32_add contribution (when trapped (hc_trap config)) in
  let contribution := i32_add contribution (laden_points config o victim) in
  let discounted_base := discount_elimination base times victim_active in
  let contribution := discount_elimination contribution times victim_active in
  let b := add_demolition contribution (dt_result t) in
  let b := {| b with
              hb_kills := wrap_u32 (hb_kills b + 1);
              hb_boosted_cutoff_kills :=
                wrap_u32 (hb_boosted_cutoff_kills b
                          + when (0 <? contribution) (when (boosting && cutoff) 1));
              hb_trap_kills :=
                wrap_u32 (hb_trap_kills b + when (0 <? contribution) (when trapped 1)) |} in
  returns (mkTally (add_focus (ob_tick o) contribution b)
             (i32_add (dt_base_elimination_points t) discounted_base)
             ({[ob_tick o]} ∪ dt_kill_ticks t) (dt_star_death_ticks t), cache).

Definition score_death (r : GameRecordingV1) (observations in_window : list Observation) (star : Z)
    (config : HighlightConfig) (unlimited : bool) (o : Observation) (t : DeathTally)
    (cache : TrapCache) : Run (DeathTally * TrapCache) :=
  match ob_event o with
  | Ev_SnakeDied snake_id cause =>
      if snake_id =? star then
        match cause with
        | DC_Banked => returns (t, cache)
        | _ => returns ({| t with dt_star_death_ticks := dt_star_death_ticks t ++ [ob_tick o] |}, cache)
        end
      else if negb (bool_decide (killer_of cause = Some star)) then returns (t, cache)
      else if same_team (ob_before o) star snake_id then
        returns ({| t with dt_result := add_demolition (hc_teammate_kill config) (dt_result t) |}, cache)
      else score_kill r observations in_window star config unlimited o snake_id cause t cache
  | _ => returns (t, cache)
  end.

Fixpoint score_deaths (r : GameRecordingV1) (observations in_window : list Observation) (star : Z)
    (config : HighlightConfig) (unlimited : bool) (l : list Observation) (t : DeathTally)
    (cache : TrapCache) : Run (DeathTally * TrapCache) :=
  match l with
  | [] => returns (t, cache)
  | o :: l =>
      next <~ score_death r observations in_window star config unlimited o t cache;
      score_deaths r observations in_window star config unlimited l next.1 next.2
  end.

(** The goals of the star that the states of the window remember, each once. *)
Definition goals_in_range (l : list Observation) (star first last : Z) : gmap (Z * Z) TeamGoal :=
  foldl (fun goals goal =>
           if (goal_snake_id goal =? star) && (first <=? goal_tick goal) && (goal_tick goal <? last)
           then match goals !! (goal_tick goal, goal_snake_id goal) with
                | Some _ => goals
                | None => <[(goal_tick goal, goal_snake_id goal) := goal]> goals
                end
           else goals) ∅ (o ← l; gs_recent_goals (ob_before o)).

Definition score_goal (config : HighlightConfig) (b : HighlightScoreBreakdown) (goal : TeamGoal)
  : HighlightScoreBreakdown :=
  let points := i32_mul (wrap_i32 (goal_points goal)) (hc_banked_per_point config) in
  let points := i32_add points (when (15 <=? goal_points goal) (hc_big_carry config)) in
  add_focus (goal_tick goal) points
    {| b with hb_total := i32_add (hb_total b) points;
              hb_banking_points := i32_add (hb_banking_points b) points;
              hb_banked_points := sat_add_u32 (hb_banked_points b) (goal_points goal) |}.

Definition add_combo (tick points : Z) (b : HighlightScoreBreakdown) : HighlightScoreBreakdown :=
  add_focus tick points
    {| b with hb_total := i32_add (hb_total b) points;
              hb_combo_points := i32_add (hb_combo_points b) points |}.

(** The breakdown with the focus of the combo and of the frenzy. *)
Definition score_pickup (config : HighlightConfig) (unlimited : bool) (star : Z)
    (acc : HighlightScoreBreakdown * Z * Z) (o : Observation) : HighlightScoreBreakdown * Z * Z :=
  let '(b, combo_focus_tick, frenzy_focus_tick) := acc in
  match ob_event o with
  | Ev_FoodEaten snake_id _ _ combo_chain combo_remaining_ms_before boost_active =>
      if snake_id =? star then
        let pickups := wrap_u32 (hb_pickups b + 1) in
        let longer := hb_max_chain b <? combo_chain in
        let b := {| b with hb_pickups := pickups;
                           hb_max_chain := if longer then combo_chain else hb_max_chain b |} in
        let contribution :=
          i32_add (when ((0 <? combo_remaining_ms_before) && (combo_remaining_ms_before <? 250))
                     (hc_nick_of_time config))
            (when (boost_active && negb unlimited) (hc_boosted_pickup config)) in
        (add_combo (ob_tick o) contribution b,
         if longer then ob_tick o else combo_focus_tick,
         if pickups =? 8 then ob_tick o else frenzy_focus_tick)
      else acc
  | _ => acc
  end.

Definition score_range (r : GameRecordingV1) (observations : list Observation) (star first last : Z)
    (config : HighlightConfig) (cache : TrapCache) : Run (HighlightScoreBreakdown * TrapCache) :=
  let b := breakdown_default in
  let b := {| b with hb_focus_tick := first |} in
  in_window <~ Some (observations_in_tick_range observations first last);
  anchor <~ Some (first_anchor r);
  let unlimited := match gs_boost (ra_state anchor) with Some c => bc_unlimited c | None => false end in
  tally <~ score_deaths r observations in_window star config unlimited in_window
             (mkTally b 0 ∅ []) cache;
  let '(t, cache) := tally in
  let b := dt_result t in
  let b := if 2 <=? hb_kills b then add_demolition (dt_base_elimination_points t ÷ 2) b else b in
  let b := foldl (score_goal config) b
             (map_to_list (goals_in_range in_window star first last)).*2 in
  let '(b, combo_focus_tick, frenzy_focus_tick) :=
    foldl (score_pickup config unlimited star) (b, first, first) in_window in
  let b := if 1 <? hb_max_chain b
           then add_combo combo_focus_tick
                  (i32_mul (wrap_i32 (hb_max_chain b - 1)) (hc_combo_step config)) b else b in
  let b := if 8 <=? hb_pickups b
           then add_combo frenzy_focus_tick (hc_feeding_frenzy config) b else b in
  let b := foldl (fun b tick => if bool_decide (tick ∈ dt_kill_ticks t) then b
                                else add_demolition (hc_death config) b)
             b (dt_star_death_ticks t) in
  returns (b, cache).

(** ** The best window *)

Definition better_candidate (star : Z) (candidate : HighlightScoreBreakdown)
    (current : option (Z * HighlightScoreBreakdown)) : bool :=
  match current with
  | None => true
  | Some (current_star, current) =>
      (hb_total current <? hb_total candidate)
      || ((hb_total candidate =? hb_total current)
          && ((hb_focus_tick candidate <? hb_focus_tick current)
              || ((hb_focus_tick candidate =? hb_focus_tick current) && (star <? current_star))))
  end.

Fixpoint replay_observations (game_id : Z) (anchor : ReplayAnchor) (st : GameState)
    (l : list RecordedGameMessage) : Run (list Observation) :=
  match l with
  | [] => returns []
  | m :: l =>
      if pos_leb (message_pos m) (anchor_pos anchor) then replay_observations game_id anchor st l
      else
        match run_state fuel true st (rm_tick m) with
        | None => None
        | Some (Ok _, before) =>
            st <~ advance_and_apply_replicated_message fuel st (envelope_of game_id m);
            rest <~ replay_observations game_id anchor st l;
            returns (mkObservation (rm_tick m) (rm_event m) before :: rest)
        | Some (error, _) => Some (recast error)
        end
  end.

Abbreviation Best := (option (Z * HighlightScoreBreakdown)).

(** Where the windows lie. *)
Record Scan := mkScan {
  sc_window_ticks : Z;
  sc_step_ticks : Z;
  sc_lead_ticks : Z;
  sc_earliest : Z;
  sc_latest : Z
}.

(** The windows of one star. *)
Fixpoint scan_star (rounds : nat) (r : GameRecordingV1) (observations : list Observation)
    (config : HighlightConfig) (scan : Scan) (star start : Z) (best : Best) (cache : TrapCache)
  : Run (Best * TrapCache) :=
  match rounds with
  | O => None
  | S rounds =>
      let last := Z.min (sat_add_u32 start (sc_window_ticks scan)) (sat_add_u32 (sc_latest scan) 1) in
      scored <~ score_range r observations star start last config cache;
      let '(score, cache) := scored in
      let best :=
        if (sat_add_u32 (sc_earliest scan) (sc_lead_ticks scan) <=? hb_focus_tick score)
           && better_candidate star score best then Some (star, score) else best in
      let next := sat_add_u32 start (sc_step_ticks scan) in
      if (sc_latest scan <? last) || (sc_latest scan <? next) then returns (best, cache)
      else scan_star rounds r observations config scan star next best cache
  end.

Fixpoint scan_stars (r : GameRecordingV1) (observations : list Observation)
    (config : HighlightConfig) (scan : Scan) (stars : list Z) (best : Best) (cache : TrapCache)
  : Run (Best * TrapCache) :=
  match stars with
  | [] => returns (best, cache)
  | star :: stars =>
      scanned <~ scan_star (S (Z.to_nat (sc_latest scan - sc_earliest scan))) r observations config
                   scan star (sc_earliest scan) best cache;
      scan_stars r observations config scan stars scanned.1 scanned.2
  end.

(** ** The clip *)

Definition star_rotation (st : GameState) (star : Z) : Z :=
  match team_of_snake st star with
  | Some 0 => 270
  | Some _ => 90
  | None => 0
  end.

Definition f32_one : spec_float := f32_of_Z 1.
Definition f32_half : spec_float := f32_div (f32_of_Z 1) (f32_of_Z 2).

Definition cut_clip (r : GameRecordingV1) (observations : list Observation)
    (config : HighlightConfig) (tick_ms lead_ticks star : Z) (raw : HighlightScoreBreakdown)
    (cache : TrapCache) : Run HighlightClip :=
  let tail_ticks := 3000 / tick_ms in
  let start_tick := wrap_u32 (hb_focus_tick raw - lead_ticks) in
  let end_tick := wrap_u32 (hb_focus_tick raw + tail_ticks) in
  scored <~ score_range r observations star start_tick (sat_add_u32 end_tick 1) config cache;
  let rescored := scored.1 in
  anchor <~ Some (context "highlight has no retained anchor" (anchor_before (gr_anchors r) start_tick));
  let anchor_state := with_rng None (ra_state anchor) in
  let messages := filter (fun m => (pos_ltb (anchor_pos anchor) (message_pos m)
                                    && (rm_tick m <=? end_tick)) = true) (gr_messages r) in
  end_state <~ state_at_tick_validated fuel r (Z.min end_tick (gr_end_tick r));
  end_sync_hash <~ Some (sync_hash end_state);
  star_user_id <~ Some (context "highlight star has no player" (owner_of anchor_state star));
  let star_name := default ("Player " +:+ display_uint star_user_id)
                     (gs_usernames anchor_state !! star_user_id) in
  let focus_tick := hb_focus_tick rescored in
  let slow_start := wrap_u32 (focus_tick - 2000 / tick_ms) in
  let slow_end := wrap_u32 (focus_tick + 1500 / tick_ms) in
  returns
    {| cl_clip_format_version := HIGHLIGHT_CLIP_FORMAT_VERSION;
       cl_gameplay_version := GAMEPLAY_REPLAY_VERSION; cl_game_id := gr_game_id r;
       cl_star_user_id := star_user_id; cl_star_snake_id := star; cl_star_name := star_name;
       cl_reason := reason_of rescored; cl_score := hb_total rescored; cl_breakdown := rescored;
       cl_window := mkWindow start_tick end_tick focus_tick; cl_anchor := anchor_state;
       cl_messages := messages; cl_end_sync_hash := end_sync_hash;
       cl_presentation := mkPresentation (star_rotation anchor_state star) star
         [mkSegment slow_start f32_one; mkSegment slow_end f32_half; mkSegment end_tick f32_one];
       cl_config := config |}.

Definition scan_of (anchor : ReplayAnchor) (r : GameRecordingV1) : Scan :=
  let tick_ms := tick_ms_of (ra_state anchor) in
  mkScan (Z.max (10000 / tick_ms) 1) (Z.max (1000 / tick_ms) 1) (6000 / tick_ms) (ra_tick anchor)
    (gr_end_tick r).

Definition stars_of (anchor : ReplayAnchor) : list Z :=
  remove_dups (merge_sort Z.le ((fun e => pl_snake_id e.2)
                                  <$> map_to_list (gs_players (ra_state anchor)))).

Definition score_highlight_candidate (r : GameRecordingV1) (config : HighlightConfig)
  : Run (option HighlightClip) :=
  _ <~ Some (recording_validate r);
  anchor <~ Some (first_anchor r);
  _ <~ Some (ensure (sat_sub (gr_end_tick r) (ra_tick anchor) <=? MAX_HIGHLIGHT_SELECTION_TICKS)
               "recording exceeds highlight tick budget");
  _ <~ Some (ensure (Z.of_nat (length (gr_messages r)) <=? MAX_HIGHLIGHT_SELECTION_MESSAGES)
               "recording exceeds highlight message budget");
  match gs_game_type (ra_state anchor) with
  | Custom _ => returns None
  | _ =>
      observations <~ replay_observations (gr_game_id r) anchor (ra_state anchor) (gr_messages r);
      let scan := scan_of anchor r in
      scanned <~ scan_stars r observations config scan (stars_of anchor) None ∅;
      match scanned.1 with
      | None => returns None
      | Some (star, raw) =>
          clip <~ cut_clip r observations config (tick_ms_of (ra_state anchor))
                    (sc_lead_ticks scan) star raw scanned.2;
          returns (Some clip)
      end
  end.

Definition select_highlight (r : GameRecordingV1) (config : HighlightConfig)
  : Run (option HighlightClip) :=
  candidate <~ score_highlight_candidate r config;
  returns match candidate with
          | Some clip => if hc_minimum_score config <=? cl_score clip then Some clip else None
          | None => None
          end.

(** ** Watching a clip *)

Definition clip_recording (c : HighlightClip) : GameRecordingV1 :=
  {| gr_format_version := GAME_RECORDING_FORMAT_VERSION;
     gr_gameplay_version := cl_gameplay_version c; gr_game_id := cl_game_id c;
     gr_visibility := RV_Public;
     gr_anchors := [mkAnchor (gs_tick (cl_anchor c)) 0 (cl_anchor c)];
     gr_messages := cl_messages c; gr_end_tick := hw_end_tick (cl_window c);
     gr_end_sync_hash := cl_end_sync_hash c |}.

Definition replay_and_verify (c : HighlightClip) : Run GameState :=
  _ <~ Some (ensure (cl_clip_format_version c =? HIGHLIGHT_CLIP_FORMAT_VERSION)
               "unsupported highlight clip version");
  _ <~ Some (ensure (cl_gameplay_version c =? GAMEPLAY_REPLAY_VERSION)
               "highlight gameplay version mismatch");
  verified_end_state fuel (clip_recording c).
End scoring.

(** [as u32]. *)
Definition fint_as_u32 (x : fint) : Z :=
  match x with
  | FInt z => Z.max 0 (Z.min u32_max z)
  | FPosInf => u32_max
  | FNegInf => 0
  | FNaN => 0
  end.

(** [f64::from(f32)] is exact. *)
Definition viewer_duration_ms (c : HighlightClip) : Z :=
  let tick_ms := tick_ms_of (cl_anchor c) in
  let w := cl_window c in
  let '(prior, total) :=
    foldl (fun '(prior, total) segment =>
             let until := Z.max (Z.min (ss_until_tick segment) (hw_end_tick w)) prior in
             (until, f64_add total
                       (f64_div (f64_mul (f64_of_Z (until - prior)) (f64_of_Z tick_ms))
                          (ss_time_scale segment))))
      (hw_start_tick w, f64_of_Z 0) (pn_segments (cl_presentation c)) in
  let total := if prior <? hw_end_tick w
               then f64_add total (f64_mul (f64_of_Z (hw_end_tick w - prior)) (f64_of_Z tick_ms))
               else total in
  fint_as_u32 (float_round total).
