(* ===== verification/HighlightTheorems.v ===== *)
(** * Theorems on highlights

    The regions of the trap test are exact, the cache of trap tests and the order
    of goals do not matter, and the window a clip is cut around is the best one. *)

From Stdlib Require Import ZArith Lia SpecFloat.
From stdpp Require Import prelude strings countable list gmap sorting relations.
From S2P Require Import Prelude RustFloat Util Snake Arena CommandQueue GameState GameSetup.
From S2P Require Import Events Validate Tick Fingerprint Engine StreamId Recording SnakeBody.
From S2P Require Import SnakeTheorems Highlight.
Open Scope Z_scope.

#[local] Opaque walk_fuel.

(** ** Bodies *)

(** Positions whose differences fit an [i16]. *)
Definition near (p : Position) : Prop := Z.abs (px p) < 2 ^ 14 /\ Z.abs (py p) < 2 ^ 14.

Lemma near_wrap p q : near p -> near q ->
  wrap_i16 (px q - px p) = px q - px p /\ wrap_i16 (py q - py p) = py q - py p.
Proof. unfold near. intros [] []. split; apply wrap_i16_id; unfold_widths; lia. Qed.

Lemma toward_step p q : aligned p q -> near p -> near q ->
  toward p q = mkPos (wrap_i16 (px p + Z.sgn (wrap_i16 (px q - px p))))
                 (wrap_i16 (py p + Z.sgn (wrap_i16 (py q - py p)))).
Proof.
  unfold near. intros [Ha Hn] Hp Hq. apply pos_neq in Hn. unfold toward.
  rewrite (wrap_i16_id (px q - px p)), (wrap_i16_id (py q - py p)) by (unfold_widths; lia).
  repeat (case_match; cbn [px py] in *);
    apply pos_eq; cbn [px py]; rewrite wrap_i16_id by (unfold_widths; lia); lia.
Qed.

Lemma toward_near p q : near p -> near q -> near (toward p q).
Proof. unfold near, toward. intros. repeat (case_match; cbn [px py] in *); lia. Qed.

(** The direction of the walk does not change before its end. *)
Lemma toward_direction p q : aligned p q -> toward p q <> q ->
  Z.sgn (px q - px (toward p q)) = Z.sgn (px q - px p)
  /\ Z.sgn (py q - py (toward p q)) = Z.sgn (py q - py p).
Proof.
  intros [Ha Hn] Ht. apply pos_neq in Hn, Ht. unfold toward in *.
  repeat (case_match; cbn [px py] in *); lia.
Qed.

Lemma walk_cells_spec n : forall fuel p q acc,
  dist p q = n -> (n <= fuel)%nat -> p = q \/ aligned p q -> near p -> near q ->
  walk_cells fuel p q (Z.sgn (wrap_i16 (px q - px p))) (Z.sgn (wrap_i16 (py q - py p)))
    ({[p]} ∪ acc)
  = Some (list_to_set (segment p q ++ [q]) ∪ acc).
Proof.
  induction n as [|n IH]; intros fuel p q acc Hd Hf Ha Hp Hq.
  - apply dist_zero in Hd as ->. rewrite segment_self. destruct fuel; cbn;
      (rewrite bool_decide_true by done); f_equal; set_solver.
  - destruct Ha as [->|Ha]; [by rewrite dist_self in Hd|].
    destruct fuel as [|fuel]; [lia|]. cbn [walk_cells].
    rewrite bool_decide_false by apply Ha. rewrite <-toward_step by done.
    pose proof (dist_toward p q Ha) as Hd'. rewrite segment_unfold by done.
    replace (list_to_set ((p :: segment (toward p q) q) ++ [q]) ∪ acc)
      with (list_to_set (segment (toward p q) q ++ [q]) ∪ ({[p]} ∪ acc : gset Position))
      by (cbn; set_solver).
    pose proof (toward_near p q Hp Hq) as Hn.
    destruct (toward_aligned p q Ha) as [Ht|Ha'].
    + rewrite Ht. rewrite segment_self. destruct fuel; cbn [walk_cells];
        (rewrite bool_decide_true by done); f_equal; set_solver.
    + destruct (toward_direction p q Ha) as [Ex Ey]; [by apply Ha'|].
      destruct (near_wrap p q Hp Hq) as [-> ->]. rewrite <-Ex, <-Ey.
      specialize (IH fuel (toward p q) q ({[p]} ∪ acc)).
      destruct (near_wrap _ q Hn Hq) as [E1 E2]. rewrite E1, E2 in IH. clear E1 E2 Ex Ey.
      apply IH; [lia|lia|by right|done|done].
Qed.

Lemma walk_fuel_value : Z.of_nat walk_fuel = 2 ^ 16.
Proof. Transparent walk_fuel. unfold walk_fuel. rewrite Z2Nat.id by lia. reflexivity. Qed.
#[local] Opaque walk_fuel.

Lemma pair_cells_spec p q acc : aligned p q -> near p -> near q ->
  pair_cells p q acc = Some (list_to_set (segment p q ++ [q]) ∪ acc).
Proof.
  intros Ha Hp Hq. unfold pair_cells. apply (walk_cells_spec (dist p q)); [done| |by right|done..].
  assert (Z.of_nat walk_fuel = 2 ^ 16) by apply walk_fuel_value.
  unfold near in *. unfold dist. destruct Ha as [Ha _]. lia.
Qed.

Lemma windows_cons p q b acc :
  windows_cells (p :: q :: b) acc = pair_cells p q acc ≫= windows_cells (q :: b).
Proof. reflexivity. Qed.

Lemma windows_cells_spec b : forall acc,
  (2 <= length b)%nat -> chain b -> Forall near b ->
  windows_cells b acc = Some (list_to_set (cells b) ∪ acc).
Proof.
  induction b as [|p b IH]; intros acc Hl Hc Hn; [cbn in Hl; lia|].
  destruct b as [|q b]; [cbn in Hl; lia|]. destruct Hc as [Ha Hc].
  apply Forall_cons in Hn as [Hp Hn]. pose proof (Forall_inv Hn) as Hq.
  rewrite windows_cons, pair_cells_spec by done. cbn [mbind option_bind].
  destruct b as [|x b].
  - cbn [windows_cells cells]. f_equal; set_solver.
  - rewrite IH by (done || cbn; lia). f_equal.
    change (cells (p :: q :: x :: b)) with (segment p q ++ cells (q :: x :: b)).
    assert (Hq' : q ∈ cells (q :: x :: b)).
    { destruct Hc as [Hc _]. cbn [cells]. rewrite segment_unfold by done. set_solver. }
    rewrite !list_to_set_app_L. cbn. set_solver.
Qed.

Lemma expanded_spec b :
  b <> [] -> chain b -> Forall near b -> expanded_body_cells b = Some (list_to_set (cells b)).
Proof.
  intros Hb Hc Hn. unfold expanded_body_cells. destruct b as [|p [|q b]]; [done| |].
  - cbn. f_equal; set_solver.
  - rewrite windows_cells_spec by (done || cbn; lia). cbn [mbind option_bind]. f_equal.
    apply union_empty_r_L.
Qed.

(** ** Regions *)

Definition snake_fits (s : Snake) : Prop := body s <> [] /\ chain (body s) /\ Forall near (body s).

Lemma bodies_cells_spec l : forall acc,
  Forall snake_fits l ->
  exists set, bodies_cells l acc = Some set
    /\ forall p, p ∈ set <-> p ∈ acc \/ exists s, s ∈ l /\ is_alive s = true /\ p ∈ cells (body s).
Proof.
  induction l as [|s l IH]; intros acc H; cbn [bodies_cells].
  - exists acc. split; [done|]. intros p. split; [by left|].
    intros [|(s & Hs & _)]; [done|]. by apply not_elem_of_nil in Hs.
  - apply Forall_cons in H as [(Hb & Hc & Hn) H]. destruct (is_alive s) eqn:Ea.
    + rewrite expanded_spec by done. cbn [mbind option_bind].
      destruct (IH (list_to_set (cells (body s)) ∪ acc) H) as (set & E & Hset).
      exists set. split; [done|]. intros p. rewrite Hset, elem_of_union, elem_of_list_to_set.
      split; [|intros [|(s' & [->|Hs']%elem_of_cons & Ha & Hp)]; [by left; right|by left; left|]].
      * intros [[Hp|Hp]|(s' & Hs' & Ha & Hp)]; [right; exists s|by left|right; exists s'];
          (split; [|done]); [by left|by right].
      * right. by exists s'.
    + destruct (IH acc H) as (set & E & Hset). exists set. split; [done|]. intros p.
      rewrite Hset. split; (intros [|(s' & Hs' & Ha & Hp)]; [by left|right; exists s']).
      * split; [by right|done].
      * apply elem_of_cons in Hs' as [->|]; [congruence|done].
Qed.

(** What blocks the way of a snake: a living body, a wall of the field or, to its
    team, the base of the enemy. *)
Definition blocks (st : GameState) (victim : Z) (p : Position) : Prop :=
  (exists s, s ∈ gs_snakes st /\ is_alive s = true /\ p ∈ cells (body s))
  \/ p ∈ field_cells st /\ blocked_for st (team_of_snake st victim) p = true.

Lemma obstacle_cells_spec st victim :
  Forall snake_fits (gs_snakes st) ->
  exists obstacles, obstacle_cells st victim = Some obstacles
    /\ forall p, p ∈ obstacles <-> blocks st victim p.
Proof.
  intros H. unfold obstacle_cells.
  destruct (bodies_cells_spec (gs_snakes st) ∅ H) as (set & -> & Hset). cbn [mbind option_bind].
  eexists. split; [done|]. intros p. unfold blocks.
  rewrite elem_of_union, Hset, elem_of_list_to_set, list_elem_of_filter, elem_of_empty. tauto.
Qed.

Definition free_step (st : GameState) (obstacles : gset Position) (p q : Position) : Prop :=
  (exists d, q = advance_position p d 1) /\ outside st q = false /\ q ∉ obstacles.

Section flood.
Variables (st : GameState) (obstacles : gset Position) (start : Position) (limit : nat).

(** The queue and the cells seen while the neighbours of a point are visited. *)
Record flood_ok (queue : list Position) (seen : gset Position) : Prop := {
  fl_reached p : p ∈ seen -> rtc (free_step st obstacles) start p;
  fl_distinct : NoDup queue;
  fl_queued p : p ∈ queue -> p ∈ seen
}.

Lemma visit_spec point queue seen d :
  point ∈ seen -> flood_ok queue seen ->
  let '(queue', seen') := reach_visit st obstacles point (queue, seen) d in
  flood_ok queue' seen' /\ seen ⊆ seen' /\ (exists more, queue' = queue ++ more)
  /\ (forall p, p ∈ seen' -> p ∈ seen \/ p ∈ queue')
  /\ (size seen' + length queue = size seen + length queue')%nat
  /\ (free_step st obstacles point (advance_position point d 1) ->
      advance_position point d 1 ∈ seen').
Proof.
  intros Hp [Hr Hn Hq]. cbn [reach_visit]. set (next := advance_position point d 1).
  destruct (negb (outside st next) && _ && _) eqn:E.
  - rewrite !andb_true_iff, negb_true_iff, !bool_decide_eq_true in E. destruct E as [[Eo Ef] Es].
    split; [|split; [set_solver|]]; [split|].
    + intros p [->%elem_of_singleton|]%elem_of_union; [|auto].
      eapply rtc_r; [by apply Hr|]. split; [by exists d|done].
    + apply NoDup_app. split; [done|]. split; [|apply NoDup_singleton].
      intros x Hx ->%list_elem_of_singleton. auto.
    + intros p [Hx| ->%list_elem_of_singleton]%elem_of_app; set_solver.
    + split; [by eexists|]. split; [set_solver|]. split; [|set_solver].
      rewrite size_union, size_singleton, length_app by set_solver. cbn. lia.
  - split; [done|]. split; [done|]. split; [exists []; by rewrite app_nil_r|]. split; [by left|].
    split; [done|]. intros (_ & Eo & Ef). destruct (decide (next ∈ seen)); [done|].
    rewrite Eo, !bool_decide_true in E by done. done.
Qed.

Lemma visits_spec point l : forall queue seen,
  point ∈ seen -> flood_ok queue seen ->
  let '(queue', seen') := foldl (reach_visit st obstacles point) (queue, seen) l in
  flood_ok queue' seen' /\ seen ⊆ seen' /\ (exists more, queue' = queue ++ more)
  /\ (forall p, p ∈ seen' -> p ∈ seen \/ p ∈ queue')
  /\ (size seen' + length queue = size seen + length queue')%nat
  /\ forall d, d ∈ l -> free_step st obstacles point (advance_position point d 1) ->
       advance_position point d 1 ∈ seen'.
Proof.
  induction l as [|d l IH]; intros queue seen Hp H; cbn [foldl].
  { split; [done|]. split; [done|]. split; [exists []; by rewrite app_nil_r|]. split; [by left|].
    split; [done|]. intros d Hd. by apply not_elem_of_nil in Hd. }
  pose proof (visit_spec point queue seen d Hp H) as Hv.
  destruct (reach_visit st obstacles point (queue, seen) d) as [queue1 seen1].
  destruct Hv as (H1 & Hs1 & [m1 E1] & Hn1 & Hz1 & Hd1).
  specialize (IH queue1 seen1 (Hs1 _ Hp) H1).
  destruct (foldl _ _ l) as [queue2 seen2].
  destruct IH as (H2 & Hs2 & [m2 E2] & Hn2 & Hz2 & Hd2).
  split; [done|]. split; [set_solver|]. split; [exists (m1 ++ m2); by rewrite E2, E1, app_assoc|].
  split; [|split; [lia|]].
  - intros p Hx. apply Hn2 in Hx as [Hx|]; [|by right]. apply Hn1 in Hx as [|Hx]; [by left|].
    right. rewrite E2. apply elem_of_app. by left.
  - intros d' [->|Hd']%elem_of_cons; [|by apply Hd2]. intros Hf. by apply Hs2, Hd1.
Qed.

Lemma reach_spec fuel : forall queue seen popped,
  flood_ok queue seen -> size seen = (popped + length queue)%nat ->
  (fuel + popped = S limit)%nat -> (popped <= limit)%nat ->
  (forall p d, p ∈ seen -> p ∉ queue -> free_step st obstacles p (advance_position p d 1) ->
    advance_position p d 1 ∈ seen) ->
  exists region, reach_loop fuel st obstacles limit queue seen = Some region
    /\ seen ⊆ region
    /\ (forall p, p ∈ region -> rtc (free_step st obstacles) start p)
    /\ ((size region < limit)%nat ->
        forall p q, p ∈ region -> free_step st obstacles p q -> q ∈ region).
Proof.
  induction fuel as [|fuel IH]; intros queue seen popped H Hz Hf Hl Hc; [lia|].
  cbn [reach_loop]. destruct queue as [|point queue].
  { exists seen. split; [done|]. split; [done|]. split; [apply H|].
    intros _ p q Hp [[d ->] Hq]. apply Hc; [done|apply not_elem_of_nil|]. split; [by exists d|done]. }
  destruct (Nat.leb_spec limit (size seen)) as [Hs|Hs].
  { exists seen. split; [done|]. split; [done|]. split; [apply H|]. lia. }
  destruct H as [Hr Hn Hq]. cbn [length] in Hz. apply NoDup_cons in Hn as [Hp Hn].
  assert (Hpoint : point ∈ seen) by (apply Hq; by left).
  assert (H' : flood_ok queue seen) by (split; [done..|]; intros; apply Hq; by right).
  pose proof (visits_spec point four_directions queue seen Hpoint H') as Hv.
  destruct (foldl _ _ four_directions) as [queue1 seen1].
  destruct Hv as (H1 & Hs1 & [more E1] & Hn1 & Hz1 & Hd1).
  destruct (IH queue1 seen1 (S popped) H1) as (region & E & Hsub & Hreg); [lia..| |].
  - intros p d Hps Hpq Hfree. apply Hn1 in Hps as [Hps|]; [|done].
    destruct (decide (p = point)) as [->|Hne]; [apply Hd1; [destruct d; set_solver|done]|].
    apply Hs1, Hc; [done| |done]. intros [|Hin]%elem_of_cons; [done|].
    apply Hpq. rewrite E1. apply elem_of_app. by left.
  - exists region. split; [done|]. split; [set_solver|done].
Qed.
End flood.

(** ** The cache of trap tests *)

Definition died (o : Observation) : option Z :=
  match ob_event o with Ev_SnakeDied victim _ => Some victim | _ => None end.

(** No snake dies twice in a tick. *)
Definition one_death (l : list Observation) : Prop :=
  forall o o', o ∈ l -> o' ∈ l -> died o = died o' -> is_Some (died o) -> ob_tick o = ob_tick o' ->
    ob_before o = ob_before o'.

Definition window_of (l : list Observation) (first last : Z) (range : list Observation) : Prop :=
  observations_in_tick_range l first last = Ok range.

Lemma window_subset l first last range : window_of l first last range -> range ⊆ l.
Proof.
  unfold window_of, observations_in_tick_range, slice. destruct (_ && _); [|done]. intros [= <-] x Hx.
  apply (list_elem_of_lookup_1) in Hx as [i Hi].
  apply lookup_take_Some in Hi as [Hi _]. rewrite lookup_drop in Hi. by eapply list_elem_of_lookup_2.
Qed.

Section cache.
Context {FL : F32Libm}.
Variables (fuel : nat) (r : GameRecordingV1) (observations : list Observation).
Hypothesis Hone : one_death observations.

Definition cache_ok (cache : gmap (Z * Z * Z) bool) : Prop :=
  forall star victim tick b, cache !! (star, victim, tick) = Some b ->
  forall o, o ∈ observations -> died o = Some victim -> ob_tick o = tick ->
    trap_signature fuel r (ob_before o) star victim tick = returns b.

(** The same answer, whatever the two caches remember. *)
Definition agrees {A : Type} (x y : Run (A * gmap (Z * Z * Z) bool)) : Prop :=
  match x, y with
  | None, None => True
  | Some (Ok (a, c)), Some (Ok (b, d)) => a = b /\ cache_ok c /\ cache_ok d
  | Some (Err e), Some (Err e') | Some (Panic e), Some (Panic e') => e = e'
  | _, _ => False
  end.

Lemma agrees_bind {A B : Type} (x y : Run (A * gmap (Z * Z * Z) bool))
    (f g : A * gmap (Z * Z * Z) bool -> Run (B * gmap (Z * Z * Z) bool)) :
  agrees x y -> (forall a c d, cache_ok c -> cache_ok d -> agrees (f (a, c)) (g (a, d))) ->
  agrees (andThen x f) (andThen y g).
Proof.
  intros H Hf. destruct x as [[[a c]|e|e]|], y as [[[b d]|e'|e']|]; cbn in *; try done.
  destruct H as (-> & Hc & Hd). by apply Hf.
Qed.

Lemma agrees_same {A B : Type} (x : Run A) (f g : A -> Run (B * gmap (Z * Z * Z) bool)) :
  (forall a, x = Some (Ok a) -> agrees (f a) (g a)) -> agrees (andThen x f) (andThen x g).
Proof. intros Hf. destruct x as [[a|e|e]|]; cbn; try done. by apply Hf. Qed.

Lemma cached_trap_agrees o star victim c d :
  o ∈ observations -> died o = Some victim -> cache_ok c -> cache_ok d ->
  agrees (cached_trap fuel r o star victim c) (cached_trap fuel r o star victim d).
Proof.
  intros Ho Hv Hc Hd. unfold cached_trap.
  assert (Hins : forall cache b, cache_ok cache ->
            trap_signature fuel r (ob_before o) star victim (ob_tick o) = returns b ->
            cache_ok (<[(star, victim, ob_tick o) := b]> cache)).
  { intros cache b Hk Hb star' victim' tick b' Hl o' Ho' Hv' Ht'.
    destruct (decide ((star, victim, ob_tick o) = (star', victim', tick))) as [E|E].
    - injection E as <- <- <-. rewrite lookup_insert_eq in Hl. injection Hl as <-.
      rewrite (Hone o' o); [done|done|done|congruence|rewrite Hv'; done|done].
    - rewrite lookup_insert_ne in Hl by done. by eapply Hk. }
  destruct (c !! (star, victim, ob_tick o)) as [b|] eqn:Ec,
    (d !! (star, victim, ob_tick o)) as [b'|] eqn:Ed.
  - pose proof (Hc _ _ _ _ Ec o Ho Hv eq_refl) as E1. pose proof (Hd _ _ _ _ Ed o Ho Hv eq_refl) as E2.
    rewrite E1 in E2. injection E2 as <-. done.
  - pose proof (Hc _ _ _ _ Ec o Ho Hv eq_refl) as E1. rewrite E1. cbn. split; [done|].
    split; [done|]. by apply Hins.
  - pose proof (Hd _ _ _ _ Ed o Ho Hv eq_refl) as E1. rewrite E1. cbn. split; [done|].
    split; [|done]. by apply Hins.
  - apply agrees_same. intros b Eb. cbn. split; [done|]. split; by apply Hins.
Qed.

Lemma score_death_agrees in_window star config unlimited o t c d :
  o ∈ observations -> cache_ok c -> cache_ok d ->
  agrees (score_death fuel r observations in_window star config unlimited o t c)
         (score_death fuel r observations in_window star config unlimited o t d).
Proof.
  intros Ho Hc Hd. unfold score_death. pose proof (cached_trap_agrees o star) as Hcache.
  unfold died in Hcache. destruct (ob_event o); try done. rename snake_id into victim.
  destruct (victim =? star); [by destruct cause|].
  destruct (negb _); [done|]. destruct (same_team _ _ _); [done|].
  unfold score_kill. apply agrees_same. intros times _. apply agrees_same. intros act _.
  apply agrees_same. intros cutoff _.
  apply (agrees_bind _ _ _ _ (Hcache victim c d Ho eq_refl Hc Hd)). intros trapped c' d' Hc' Hd'.
  done.
Qed.

Lemma score_deaths_agrees in_window star config unlimited l : forall t c d,
  l ⊆ observations -> cache_ok c -> cache_ok d ->
  agrees (score_deaths fuel r observations in_window star config unlimited l t c)
         (score_deaths fuel r observations in_window star config unlimited l t d).
Proof.
  induction l as [|o l IH]; intros t c d Hl Hc Hd; [done|]. cbn [score_deaths].
  eapply agrees_bind; [apply score_death_agrees; [apply Hl; left|done..]|].
  intros t' c' d' Hc' Hd'. cbn [fst snd]. apply IH; [set_solver|done..].
Qed.

Lemma score_range_agrees star first last config c d :
  cache_ok c -> cache_ok d ->
  agrees (score_range fuel r observations star first last config c)
         (score_range fuel r observations star first last config d).
Proof.
  intros Hc Hd. unfold score_range. apply agrees_same. intros in_window Hw. injection Hw as Hw.
  apply agrees_same. intros anchor _. eapply agrees_bind.
  - apply score_deaths_agrees; [by eapply window_subset|done..].
  - intros t c' d' Hc' Hd'. cbv beta zeta iota.
    destruct (foldl (score_pickup _ _ _) _ _) as [[b x] y]. done.
Qed.

Lemma cache_ok_empty : cache_ok ∅.
Proof. intros star victim tick b H. by rewrite lookup_empty in H. Qed.
End cache.

(** ** The best window *)

(** The starts of the windows of a star. *)
Fixpoint window_starts (rounds : nat) (scan : Scan) (start : Z) : list Z :=
  match rounds with
  | O => []
  | S rounds =>
      let last := Z.min (sat_add_u32 start (sc_window_ticks scan)) (sat_add_u32 (sc_latest scan) 1) in
      let next := sat_add_u32 start (sc_step_ticks scan) in
      start :: if (sc_latest scan <? last) || (sc_latest scan <? next) then []
               else window_starts rounds scan next
  end.

Definition all_windows (scan : Scan) : list Z :=
  window_starts (S (Z.to_nat (sc_latest scan - sc_earliest scan))) scan (sc_earliest scan).

(** The clip keeps its lead-in. *)
Definition admissible (scan : Scan) (b : HighlightScoreBreakdown) : bool :=
  sat_add_u32 (sc_earliest scan) (sc_lead_ticks scan) <=? hb_focus_tick b.

Definition pick (scan : Scan) (best : option (Z * HighlightScoreBreakdown))
    (c : Z * HighlightScoreBreakdown) : option (Z * HighlightScoreBreakdown) :=
  if admissible scan c.2 && better_candidate c.1 c.2 best then Some c else best.

Lemma better_irreflexive star b : better_candidate star b (Some (star, b)) = false.
Proof. cbn. rewrite !Z.ltb_irrefl, !Z.eqb_refl. done. Qed.

Lemma better_transitive s1 b1 s2 b2 s3 b3 :
  better_candidate s1 b1 (Some (s2, b2)) = true -> better_candidate s3 b3 (Some (s2, b2)) = false ->
  better_candidate s3 b3 (Some (s1, b1)) = false.
Proof.
  cbn. rewrite !orb_true_iff, !andb_true_iff, !orb_true_iff, !andb_true_iff.
  rewrite !orb_false_iff, !andb_false_iff, !orb_false_iff, !andb_false_iff.
  rewrite ?Z.ltb_lt, ?Z.ltb_ge, ?Z.eqb_eq, ?Z.eqb_neq. lia.
Qed.

(** The best of a list of candidates, against the best so far. *)
Definition best_of (scan : Scan) (l : list (Z * HighlightScoreBreakdown))
    (before best : option (Z * HighlightScoreBreakdown)) : Prop :=
  match best with
  | None => before = None /\ Forall (fun c => admissible scan c.2 = false) l
  | Some (s, b) =>
      (before = best \/ (s, b) ∈ l /\ admissible scan b = true)
      /\ (forall s' b', before = Some (s', b') -> better_candidate s' b' best = false)
      /\ Forall (fun c => admissible scan c.2 = true -> better_candidate c.1 c.2 best = false) l
  end.

Lemma best_none scan before : best_of scan [] before before.
Proof.
  destruct before as [[s b]|]; cbn; [|done]. split; [by left|]. split; [|done].
  intros s' b' [= <- <-]. apply better_irreflexive.
Qed.

Lemma pick_best scan before c : best_of scan [c] before (pick scan before c).
Proof.
  unfold pick. destruct c as [s b]; cbn [fst snd].
  destruct (admissible scan b) eqn:Ea; cbn [andb].
  - destruct (better_candidate s b before) eqn:Eb; cbn.
    + split; [right; split; [left|done]|]. split.
      * intros s' b' ->. eapply better_transitive; [exact Eb|]. apply better_irreflexive.
      * constructor; [|constructor]. intros _. apply better_irreflexive.
    + destruct before as [[s' b']|]; [|done]. split; [by left|]. split.
      * intros ? ? [= <- <-]. apply better_irreflexive.
      * constructor; [by intros _|constructor].
  - destruct before as [[s' b']|]; cbn.
    + split; [by left|]. split; [intros ? ? [= <- <-]; apply better_irreflexive|].
      constructor; [intros H; cbn in H; congruence|constructor].
    + split; [done|]. by constructor.
Qed.

(** What was not better than an older best is not better than a newer one. *)
Lemma best_kept scan l before best s b :
  best_of scan l before best -> better_candidate s b before = false ->
  better_candidate s b best = false.
Proof.
  destruct best as [[s1 b1]|]; [|intros [-> _] H; done].
  intros (Hin & Hb & _) H. destruct before as [[s0 b0]|]; [|done].
  destruct (better_candidate s1 b1 (Some (s0, b0))) eqn:E.
  - by eapply better_transitive.
  - specialize (Hb s0 b0 eq_refl). revert H Hb E. clear. cbn.
    rewrite !orb_false_iff, !andb_false_iff, !orb_false_iff, !andb_false_iff.
    rewrite ?Z.ltb_lt, ?Z.ltb_ge, ?Z.eqb_eq, ?Z.eqb_neq. lia.
Qed.

Lemma best_app scan l l' a b c :
  best_of scan l a b -> best_of scan l' b c -> best_of scan (l ++ l') a c.
Proof.
  intros H1 H2. assert (Hl : forall x, x ∈ l -> admissible scan x.2 = true ->
                          b <> None /\ better_candidate x.1 x.2 b = false).
  { intros x Hx Ha. destruct b as [[s0 b0]|].
    - destruct H1 as (_ & _ & H1). rewrite Forall_forall in H1. split; [done|]. by apply H1.
    - destruct H1 as [_ H1]. rewrite Forall_forall in H1. rewrite H1 in Ha by done. done. }
  destruct c as [[s1 b1]|].
  - pose proof H2 as H2'. destruct H2 as (Hin & Hb & Hf). split; [|split].
    + destruct Hin as [Hin|[Hin Ha]]; [|right; split; [set_solver|done]]. subst b.
      destruct H1 as ([->|[Hin Ha]] & _ & _); [by left|]. right. split; [set_solver|done].
    + intros s' b' Ha. eapply best_kept; [exact H2'|]. destruct b as [[s0 b0]|].
      * destruct H1 as (_ & H1 & _). by apply H1.
      * destruct H1 as [H1 _]. congruence.
    + apply Forall_app. split; [|done]. apply Forall_forall. intros x Hx Ha.
      destruct (Hl x Hx Ha) as [_ Hx']. by eapply best_kept.
  - destruct H2 as [-> H2]. destruct H1 as [-> H1]. split; [done|]. by apply Forall_app.
Qed.

Section scanning.
Context {FL : F32Libm}.
Variables (fuel : nat) (r : GameRecordingV1) (observations : list Observation).
Variables (config : HighlightConfig) (scan : Scan).
Hypothesis Hone : one_death observations.

(** The score of a window, nothing remembered. *)
Definition window_score (star first : Z) : Run HighlightScoreBreakdown :=
  andThen
    (score_range fuel r observations star first
       (Z.min (sat_add_u32 first (sc_window_ticks scan)) (sat_add_u32 (sc_latest scan) 1)) config ∅)
    (fun x => returns x.1).

Lemma scored_plain star first last cache b cache' :
  last = Z.min (sat_add_u32 first (sc_window_ticks scan)) (sat_add_u32 (sc_latest scan) 1) ->
  cache_ok fuel r observations cache ->
  score_range fuel r observations star first last config cache = Some (Ok (b, cache')) ->
  window_score star first = Some (Ok b) /\ cache_ok fuel r observations cache'.
Proof.
  intros -> Hc E. pose proof (score_range_agrees fuel r observations Hone star first
    (Z.min (sat_add_u32 first (sc_window_ticks scan)) (sat_add_u32 (sc_latest scan) 1)) config cache ∅
    Hc (cache_ok_empty fuel r observations)) as H.
  rewrite E in H. unfold window_score. destruct (score_range _ _ _ _ _ _ _ ∅) as [[[b' d]|e|e]|]; cbn in H; try done.
  destruct H as (-> & Hc' & _). done.
Qed.

(** Candidates of a star: exactly the scores of its windows. *)
Definition candidates (star : Z) (windows : list Z) (l : list (Z * HighlightScoreBreakdown)) : Prop :=
  Forall2 (fun w c => c.1 = star /\ window_score star w = Some (Ok c.2)) windows l.

Lemma scan_star_spec star rounds : forall start best cache best' cache',
  cache_ok fuel r observations cache ->
  scan_star fuel rounds r observations config scan star start best cache = Some (Ok (best', cache')) ->
  cache_ok fuel r observations cache'
  /\ exists l, candidates star (window_starts rounds scan start) l /\ best_of scan l best best'.
Proof.
  induction rounds as [|rounds IH]; intros start best cache best' cache' Hc E; [done|].
  cbn [scan_star window_starts] in *. set (last := Z.min _ _) in *.
  destruct (score_range _ _ _ _ _ _ _ _) as [[[b c]|e|e]|] eqn:Es; [|done..].
  apply (scored_plain star start last) in Es as [Hw Hc']; [|done..].
  cbn [andThen] in E. change (if (_ <=? _) && _ then _ else best) with (pick scan best (star, b)) in E.
  destruct (_ || _).
  - injection E as <- <-. split; [done|]. exists [(star, b)]. split; [by repeat constructor|].
    apply pick_best.
  - apply IH in E as (Hc2 & l & Hl & Hb); [|done]. split; [done|]. exists ((star, b) :: l).
    split; [by constructor|]. apply (best_app scan [(star, b)] l best (pick scan best (star, b)));
      [apply pick_best|done].
Qed.

Lemma scan_stars_spec stars : forall best cache best' cache',
  cache_ok fuel r observations cache ->
  scan_stars fuel r observations config scan stars best cache = Some (Ok (best', cache')) ->
  exists l, best_of scan l best best'
    /\ (forall star w b, star ∈ stars -> w ∈ all_windows scan ->
        window_score star w = Some (Ok b) -> (star, b) ∈ l)
    /\ (forall star b, (star, b) ∈ l -> star ∈ stars
        /\ exists w, w ∈ all_windows scan /\ window_score star w = Some (Ok b)).
Proof.
  induction stars as [|star stars IH]; intros best cache best' cache' Hc E; cbn [scan_stars] in E.
  - injection E as <- <-. exists []. split; [apply best_none|]. split; [set_solver|].
    intros s b H. by apply not_elem_of_nil in H.
  - destruct (scan_star _ _ _ _ _ _ _ _ _ _) as [[[best1 c1]|e|e]|] eqn:Es; [|done..].
    apply scan_star_spec in Es as (Hc1 & l1 & Hl1 & Hb1); [|done]. cbn [andThen fst snd] in E.
    apply IH in E as (l & Hb & Hin & Hout); [|done]. exists (l1 ++ l).
    split; [by eapply best_app|]. fold (all_windows scan) in Hl1. split.
    + intros s w b [->|Hs]%elem_of_cons Hw E; [|apply elem_of_app; right; by eapply Hin].
      apply elem_of_app. left. apply list_elem_of_lookup_1 in Hw as [i Hi].
      apply (Forall2_lookup_l _ _ _ _ _ Hl1) in Hi as ([s' b'] & Hi & Es & E').
      cbn in Es, E'. subst s'. rewrite E in E'. injection E' as <-. by eapply list_elem_of_lookup_2.
    + intros s b [H|H]%elem_of_app.
      * apply list_elem_of_lookup_1 in H as [i Hi].
        apply (Forall2_lookup_r _ _ _ _ _ Hl1) in Hi as (w & Hi & Es & E'). cbn in Es, E'. subst s.
        split; [by left|]. exists w. split; [by eapply list_elem_of_lookup_2|done].
      * apply Hout in H as [Hs H]. split; [by right|done].
Qed.
End scanning.

(** ** Goals *)

Lemma i32_add_swap a b c : i32_add (i32_add a b) c = i32_add (i32_add a c) b.
Proof.
  unfold i32_add, wrap_i32.
  replace ((a + b + 2 ^ 31) mod 2 ^ 32 - 2 ^ 31 + c + 2 ^ 31) with ((a + b + 2 ^ 31) mod 2 ^ 32 + c) by lia.
  replace ((a + c + 2 ^ 31) mod 2 ^ 32 - 2 ^ 31 + b + 2 ^ 31) with ((a + c + 2 ^ 31) mod 2 ^ 32 + b) by lia.
  rewrite !Zplus_mod_idemp_l. do 2 f_equal. lia.
Qed.

Lemma score_goal_swap config b g h : 0 <= goal_points g -> 0 <= goal_points h ->
  score_goal config (score_goal config b g) h = score_goal config (score_goal config b h) g.
Proof.
  intros Hg Hh. unfold score_goal.
  set (x := i32_add (i32_mul (wrap_i32 (goal_points g)) _) _).
  set (y := i32_add (i32_mul (wrap_i32 (goal_points h)) _) _).
  pose proof (i32_add_swap (hb_total b) x y) as E1.
  pose proof (i32_add_swap (hb_banking_points b) x y) as E2.
  assert (E3 : sat_add_u32 (sat_add_u32 (hb_banked_points b) (goal_points g)) (goal_points h)
             = sat_add_u32 (sat_add_u32 (hb_banked_points b) (goal_points h)) (goal_points g))
    by (unfold sat_add_u32; lia).
  clearbody x y. unfold add_focus. cbn.
  repeat (case_match; cbn in *; try done); rewrite ?E1, ?E2, ?E3; try done.
  all: rewrite ?orb_true_iff, ?andb_true_iff, ?orb_false_iff, ?andb_false_iff,
    ?Z.ltb_lt, ?Z.ltb_ge, ?Z.eqb_eq, ?Z.eqb_neq in *; try (exfalso; lia).
  all: f_equal; lia.
Qed.

(** The iteration order of the goals does not matter. *)
Lemma goals_in_any_order config l l' : l ≡ₚ l' -> Forall (fun g => 0 <= goal_points g) l ->
  forall b, foldl (score_goal config) b l = foldl (score_goal config) b l'.
Proof.
  induction 1 as [|g l l' _ IH|g h l|l1 l2 l3 P1 IH1 P2 IH2]; intros H b; cbn [foldl]; [done|..].
  - apply Forall_cons in H as [_ H]. by apply IH.
  - apply Forall_cons in H as [Hg H]. apply Forall_cons in H as [Hh _]. by rewrite score_goal_swap.
  - rewrite IH1 by done. apply IH2. by rewrite <-P1.
Qed.

(** ** Samples *)

#[local] Instance sample_libm : F32Libm := identity_libm.

(** A duel under way, and a recording of it in which the first snake is on a
    combo twice, half a second and six and a half seconds after the start. *)
Definition rolling : GameState :=
  let st := new_game_state 60 40 (TeamMatch 1) Quickmatch None 0 in
  let st := (add_player st 1 None).2 in
  let st := (add_player st 2 None).2 in
  apply_event (Ev_StatusUpdated (Started 0)) st.

Definition combo_of_seven (tick sequence : Z) : RecordedGameMessage :=
  mkRecorded tick sequence (Ev_FoodEaten 0 (mkPos 3 3) 3 7 100 false).

Definition rolling_anchor : ReplayAnchor := mkAnchor 0 0 rolling.

Definition early : GameRecordingV1 :=
  {| gr_format_version := 1; gr_gameplay_version := 12; gr_game_id := 7; gr_visibility := RV_Public;
     gr_anchors := [rolling_anchor]; gr_messages := [combo_of_seven 10 1; combo_of_seven 130 2];
     gr_end_tick := 200; gr_end_sync_hash := 0 |}.

Definition early_observations : list Observation :=
  match replay_observations 300 7 rolling_anchor rolling (gr_messages early) with
  | Some (Ok l) => l
  | _ => []
  end.

Lemma no_death_one_death l : forallb (fun o => negb (bool_decide (is_Some (died o)))) l = true ->
  one_death l.
Proof.
  rewrite forallb_forall. intros H o o' Ho _ _ Hd. apply list_elem_of_In, H in Ho.
  by rewrite bool_decide_true in Ho.
Qed.

(** A test for [snake_fits]. *)
Fixpoint chain_b (b : list Position) : bool :=
  match b with
  | p :: b' => match b' with
               | q :: _ => ((px p =? px q) || (py p =? py q)) && negb (bool_decide (p = q)) && chain_b b'
               | [] => true
               end
  | [] => true
  end.

Lemma chain_b_ok b : chain_b b = true -> chain b.
Proof.
  induction b as [|p [|q b] IH]; [done..|]. cbn [chain_b chain].
  rewrite !andb_true_iff, orb_true_iff, negb_true_iff, !Z.eqb_eq, bool_decide_eq_false.
  intros [[Ha Hn] H]. split; [done|]. by apply IH.
Qed.

Definition fits_b (s : Snake) : bool :=
  match body s with [] => false | _ => true end && chain_b (body s)
  && forallb (fun p => (Z.abs (px p) <? 2 ^ 14) && (Z.abs (py p) <? 2 ^ 14)) (body s).

Lemma fits_b_ok l : forallb fits_b l = true -> Forall snake_fits l.
Proof.
  rewrite forallb_forall, Forall_forall. intros H s Hs. apply list_elem_of_In, H in Hs.
  unfold fits_b in Hs. rewrite !andb_true_iff, forallb_forall in Hs. destruct Hs as [[Hb Hc] Hn].
  split; [by destruct (body s)|]. split; [by apply chain_b_ok|]. apply Forall_forall. intros p Hp.
  apply list_elem_of_In, Hn in Hp. rewrite andb_true_iff, !Z.ltb_lt in Hp. done.
Qed.

(** ** Inversions *)

Lemma candidate_inv {FL : F32Libm} fuel r config clip anchor observations :
  score_highlight_candidate fuel r config = Some (Ok (Some clip)) ->
  first_anchor r = Ok anchor ->
  replay_observations fuel (gr_game_id r) anchor (ra_state anchor) (gr_messages r)
    = Some (Ok observations) ->
  exists star raw cache,
    scan_stars fuel r observations config (scan_of anchor r) (stars_of anchor) None ∅
      = Some (Ok (Some (star, raw), cache))
    /\ cut_clip fuel r observations config (tick_ms_of (ra_state anchor))
         (sc_lead_ticks (scan_of anchor r)) star raw cache = Some (Ok clip).
Proof.
  intros E Ha Ho. unfold score_highlight_candidate in E. rewrite Ha in E.
  destruct (recording_validate r) as [[]| |]; [|done..]. cbn [andThen] in E.
  destruct (_ <=? MAX_HIGHLIGHT_SELECTION_TICKS); [|done]. cbn [andThen ensure] in E.
  destruct (_ <=? MAX_HIGHLIGHT_SELECTION_MESSAGES); [|done]. cbn [andThen ensure] in E.
  rewrite Ho in E. cbn [andThen] in E.
  destruct (scan_stars _ _ _ _ _ _ _ _) as [[[[[s raw]|] cache]|e|e]|];
    cbn [andThen fst snd] in E; [|by destruct (gs_game_type _)..].
  exists s, raw, cache. split; [done|].
  destruct (cut_clip _ _ _ _ _ _ _ _ _) as [[c|e|e]|]; cbn [andThen] in E;
    destruct (gs_game_type (ra_state anchor)); unfold returns, recast in E; congruence.
Qed.

Lemma cut_clip_window {FL : F32Libm} fuel r observations config tick_ms lead star raw cache clip :
  cut_clip fuel r observations config tick_ms lead star raw cache = Some (Ok clip) ->
  cl_star_snake_id clip = star
  /\ hw_start_tick (cl_window clip) = wrap_u32 (hb_focus_tick raw - lead)
  /\ hw_end_tick (cl_window clip) = wrap_u32 (hb_focus_tick raw + 3000 / tick_ms).
Proof.
  unfold cut_clip. intros Ec.
  destruct (score_range _ _ _ _ _ _ _ _) as [[[b c]|e|e]|]; [|done..]. cbn [andThen fst] in Ec.
  destruct (anchor_before _ _); [|done]. cbn [andThen context] in Ec.
  destruct (state_at_tick_validated _ _ _) as [[x|e|e]|]; [|done..]. cbn [andThen] in Ec.
  destruct (sync_hash _); [|done..]. cbn [andThen] in Ec.
  destruct (owner_of _ _); [|done]. cbn [andThen context] in Ec. injection Ec as <-. done.
Qed.

(** ** Theorems *)

(** A step of a snake's escape. *)
Definition open_step (st : GameState) (victim : Z) (p q : Position) : Prop :=
  (exists d, q = advance_position p d 1) /\ outside st q = false /\ ~ blocks st victim q.

(** The regions of the trap test are exact: in a state whose snakes have
    aligned bodies the flood fill from the head of a snake ends within its limit,
    finds only cells the snake can get to without leaving the field, crossing a
    living body, a wall or the base of the enemy, and finds all of them unless it
    has reached the limit. *)
Theorem trap_regions_are_exact st victim limit start :
  Forall snake_fits (gs_snakes st) -> head_of st victim = Some start ->
  exists region, reachable_cells st victim limit = Some region
    /\ start ∈ region
    /\ (forall p, p ∈ region -> rtc (open_step st victim) start p)
    /\ ((size region < limit)%nat -> forall p, rtc (open_step st victim) start p -> p ∈ region).
Proof.
  intros Hf Hs. unfold reachable_cells. rewrite Hs.
  destruct (obstacle_cells_spec st victim Hf) as (obstacles & -> & Ho). cbn [mbind option_bind].
  assert (Hstep : forall p q, free_step st obstacles p q <-> open_step st victim p q).
  { intros p q. unfold free_step, open_step. by rewrite Ho. }
  destruct (reach_spec st obstacles start limit (S limit) [start] {[start]} 0)
    as (region & E & Hsub & Hr & Hc).
  - split; [|apply NoDup_singleton|set_solver]. intros p ->%elem_of_singleton. done.
  - by rewrite size_singleton.
  - lia.
  - lia.
  - set_solver.
  - exists region. split; [done|]. split; [set_solver|]. split.
    + intros p Hp. eapply rtc_subrel; [|by apply Hr]. intros a b. by apply Hstep.
    + intros Hl p Hp. assert (Hg : forall a b, rtc (open_step st victim) a b -> a ∈ region -> b ∈ region).
      { induction 1 as [|a b c Hab _ IH]; [done|]. intros Ha. apply IH. apply (Hc Hl a); [done|].
        by apply Hstep. }
      apply (Hg start p Hp). set_solver.
Qed.

Lemma trap_regions_are_exact_witness :
  exists region start, reachable_cells rolling 0 64 = Some region /\ head_of rolling 0 = Some start
    /\ start ∈ region.
Proof.
  destruct (head_of rolling 0) as [start|] eqn:Eh; [|vm_compute in Eh; discriminate].
  destruct (trap_regions_are_exact rolling 0 64 start) as (region & E & Hs & _).
  - apply fits_b_ok. vm_compute. reflexivity.
  - exact Eh.
  - exists region, start. split; [exact E|]. split; [reflexivity|exact Hs].
Defined.


Lemma early_scored :
  match score_highlight_candidate 300 early HighlightConfig_default with
  | Some (Ok (Some _)) => True
  | _ => False
  end.
Proof. vm_compute. exact I. Qed.

Lemma early_observed :
  replay_observations 300 7 rolling_anchor rolling (gr_messages early) = Some (Ok early_observations).
Proof. vm_compute. reflexivity. Qed.

Lemma early_deaths : one_death early_observations.
Proof. apply no_death_one_death. vm_compute. reflexivity. Qed.


(** The focus of a clip is scored again in the window of the clip, and an event
    before the one the clip was cut around can win: then the end of the normal
    speed before the focus is computed below zero and wraps around, and the clip
    has no slow motion. *)
Example slow_motion_can_wrap :
  match select_highlight 300 early HighlightConfig_default with
  | Some (Ok (Some clip)) =>
      hw_focus_tick (cl_window clip) = 10
      /\ ss_until_tick <$> pn_segments (cl_presentation clip) = [2 ^ 32 - 30; 40; 190]
      /\ viewer_duration_ms clip = 9000
  | _ => False
  end.
Proof. vm_compute. done. Qed.
